(* ===== verification/_CoqProject ===== *)
-Q . S2P
Prelude.v
Bytes.v
BytesConv.v
Args.v
ArgsSpec.v
HeaderScan.v
Trailer.v
H2Base.v
H2Frame.v
H2Sample.v
H2Codec.v
H2Read.v
H2Write.v
H2Sched.v
H2Pipe.v
H2Conn.v
H2ConnInv.v
H2ConnParts.v
H2ConnWrite.v
H2ConnSched.v
H2ConnServe.v
H2ConnRun.v
H2ConnFrames.v
H2Response.v
SSE.v
SSESpec.v
SSERound.v
SSEGrammar.v
Uri.v
UriPath.v
UriRound.v
Dll.v
LinkedHashMap.v
LRU.v
LFU.v
PQueue.v
DelayQueue.v
RingQueue.v
LinkedList.v
Router.v
RouterFind.v
RouterSpec.v
RouterInsert.v
RouterAdd.v
Cluster.v
ClusterSafety.v
ReqHeader.v
ReqParse.v
ReqRound.v
ReqSend.v
ReqFraming.v
BodyRead.v
BodySpec.v
BodyTotal.v
RespHeader.v
RespParse.v
RespSend.v
RespRound.v
TrailerRound.v
Http1.v
Http1Serve.v
NetConn.v
NetConnSpec.v
NetOut.v
RespMessage.v
RespWhole.v
BodyStream.v
Nio.v
Balance.v
SetCookie.v
CookieRound.v
FileServe.v
FileCache.v
FileRange.v
