(* ===== verification/Prelude.v ===== *)
(** * common-tools: a verification library

    The repository is a Go toolbox for web services: an HTTP/2 server beside an
    HTTP/1 one, a router, server-sent events, a cluster with an elected leader,
    collections and caches, queues, clients of databases.
    This library models the parts with logic of their own as Rocq functions, each
    translated from the source, and proves what makes them correct.

    ** Parts and files

    - [Prelude], [Bytes]: octet strings, machine integers with their wrap-around,
      the outcome type (a value, a panic, or fuel run out), decimal and
      hexadecimal text, string order.
    - HTTP/2 ([src/web/protocol/http2]):
      [H2Base] errors, settings and field checks (errors.go, http2.go);
      [H2Frame] the framer of frame.go, reading and writing, on a heap of frame
      objects; [H2Codec] what each Write call puts on the wire and that ReadFrame
      gives it back; [H2Read] that ReadFrame returns, in which order frames come and
      what a frame it returns satisfies; [H2Write] the writers of write.go, the
      splitting of header blocks; [H2Sched] flow.go, writesched.go and the random
      write scheduler; [H2Pipe] databuffer.go and pipe.go; [H2Sample] sample
      instances of the HPACK interfaces for witnesses.
      [H2Conn] the server connection of server.go and stream.go: its state (stream
      objects, windows, scheduler, shutdown), every function of the serve loop, and
      the request body a handler reads.  Trailer fields go through [Trailer], as in the
      code.  The order in which maps are visited, the
      writing of a frame ([ConnWriter]) and the keep-alive switch are parameters;
      what the goroutines of handlers, reader and timers send is an arbitrary
      [event].  [H2ConnInv] the invariant and the relation between the states before
      and after a step, [H2ConnParts] windows and queues under the operations,
      [H2ConnWrite] writing, resets and closing, [H2ConnSched] opening streams and
      the loop of scheduleFrameWrite, [H2ConnServe] the cases of the serve loop,
      [H2ConnRun] runs of a connection with what holds in all of them and two runs
      that go wrong, [H2ConnFrames] the answers to HEADERS and DATA frames and the
      reading of Content-Length.
      [H2Response] response_writer.go and runHandler: the frames a handler's answer
      becomes.
      HPACK (golang.org/x/net) is not part of the repository: the classes [HPACK],
      [HPACKEnc] and [HTTPGuts] are its interface, with the documented laws in
      [HPACKLaws].
    - Collections ([src/pkg/basic], [src/pkg/cache]): [Dll] doubly linked chains on
      a heap, [LinkedHashMap], [LRU], [LFU] (proved against the ordered-map
      interface the linked hash map implements), [PQueue] the heap-ordered queue,
      [DelayQueue] on top of it, [RingQueue] with its condition variables,
      [LinkedList].
    - Router ([src/web/router/tree.go]): [Router] registration and lookup on a heap
      of nodes with parent pointers; [RouterFind] the search with backtracking
      refined to a depth-first search of a tree; [RouterSpec] that search refined to
      the first matching route; [RouterInsert], [RouterAdd] registration refined to
      adding a pattern, and the two put together.
    - Messages ([src/web/protocol], [src/pkg/tools/bytesconv]): [BytesConv] the
      tables with their generator, numbers and quoting; [Args], [ArgsSpec] query
      arguments on a reused array; [Uri], [UriPath], [UriRound] URIs: parsing,
      normalizing, printing, updating.  [HeaderScan] the scanner of header lines,
      which rewrites the buffer it reads (ext/headerscanner.go); [Trailer] trailers
      and request cookies; [ReqHeader] the RequestHeader of header.go with all its
      operations; [ReqParse] the reading of a request header from a connection whose
      octets arrive in pieces (http1/req/header.go); [ReqRound] lemmas on the scanner,
      [ReqSend] printing and reading back, [ReqFraming] what the body's length can be.
      [RespHeader], [RespParse] the same for responses (http1/resp/header.go,
      consts/status.go), [RespSend] the lines that are printed, [RespRound] reading them
      back.  [SetCookie] cookies of responses with their attributes and dates (cookie.go),
      [CookieRound] printing and reading them back.
    - HTTP/1 ([src/web/protocol/http1], [src/web/protocol/ext]): [BodyRead] bodies of a
      fixed length, in chunks and up to the end, and trailers (ext/common.go), [BodySpec],
      [TrailerRound] writing and reading them back, [BodyTotal] that reading returns;
      [Http1] the requests and responses of a connection and the server's loop over them
      (http1/server.go, http1/req/request.go), [Http1Serve] that loop refined to a
      conversation; [RespMessage] responses with their bodies as the client reads them and
      the writer for chunks (http1/resp/response.go, writer.go), [RespWhole] the one against
      the other; [BodyStream] bodies read as they come (ext/stream.go).
    - Network ([src/web/network/standard]): [NetConn] the linked buffers of a connection
      (connection.go, buffer.go); [NetConnSpec] that they keep the promise of the reader
      the HTTP/1 files are proved against, [NetOut] that what is written leaves in order.
    - Sessions ([src/pkg/nio]): [Nio] messages with a length and a flag in front, the
      reading of a session's octets and the sessions of a server; the packing of bodies
      (compress/gzip) is a parameter with the law that unpacking undoes it.
    - Client ([src/web/app/client]): [Balance] the choice among weighted instances
      (loadbalance) and the delays between retries (retry).
    - Files ([src/web/app/fs.go], the handler of StaticFS in [src/web/router]): [FileServe]
      paths, ranges, the files kept open, packed copies on the disk, the handler; the disk is
      a record, packing and content types are parameters.  [FileCache] the life of open files,
      [FileRange] where paths lead, ranges against those of RFC 2616, and copies.
    - Server-sent events ([src/web/protocol/sse]): [SSE] events, writer and reader,
      [SSESpec] the scanner and the reader as a walk over lines, [SSERound] writing and
      reading back, [SSEGrammar] the reader against the standard's blocks, fields and events.
    - Election ([src/cluster]): [Cluster] the nodes, their phases between two calls,
      votes, terms, events and restarts, as steps of a system in which any message may
      be lost; [ClusterSafety] what holds in all its runs.

    ** What the theorems show

    - Round trips and wire format: [read_after_write], [write_one_call] for frames,
      [uri_roundtrip], [args_roundtrip], [request_roundtrip], [response_roundtrip] and
      [sse_roundtrip] for URIs, arguments, headers and events, [chunked_roundtrip] for
      bodies; [ForEach_events] that the reader of events follows the standard where a stream
      is regular; [chunked_response_read] for whole responses, from the handler's writes to what
      the client has, and [stream_reads_chunks] for a client that reads as octets come.
    - What a server may rely on: [normalizePath_safe] (no path leads out of the root),
      [request_framing] (the length of a body and the fields shown agree, the length being
      the number its digits write),
      [response_lines] (no value adds a line to a response), [ReadBody_bounded] (no
      announced length makes the server read or allocate beyond its limit).
    - The layers put together: [conn_keeps_promise] (a connection is a reader, for some cut
      of its octets into pieces; the readers' theorems hold for every cut),
      [conn_writes_in_order], [serve_conversation] (the handler gets the requests of a
      connection one by one, with their bodies, and the responses go out in order).
    - Cookies and files: [cookie_roundtrip]; [fs_files_safe] (no file is closed while it is
      read, none is lost, old ones that nobody reads are closed), [files_in_root], [range_served], [copy_is_current].
    - Beside HTTP: [nio_delivers] (messages arrive whole and in order when no read ends
      inside a body), [sessions_counted]; [pick_follows_weights] (each instance is chosen
      for as many draws as its weight), [CombineDelay_saturates], [Delay_bounded].
    - Election: a node votes once in a term ([votes_unique]) and a term has one leader
      by votes ([leaders_unique]); [two_leaders_one_term] is a run in which an answer with an
      older leader breaks it.
    - Termination and errors: [ReadFrame_returns], [ReadFrame_order],
      [ReadFrame_frame], [ReadFrame_meta]; no panic in any of the refinements.
    - Order and bounds: [sched_fifo], [Pop_answers], [Consume_charges],
      [flow_add_exact], [pipe_order], [splitHeaderBlock_frames].
    - The connection: in every state it reaches the counters are the open streams and
      the announced limit holds ([conn_counts_streams]), streams only go forward
      ([conn_streams_forward]), the state is well-formed ([conn_well_formed]), every
      round ends ([serve_round_returns]); [processHeaders_opens],
      [processData_accepts] give the answers case by case; [runHandler_response]
      shows that a handler's answer is one well-formed response.  The functions can
      panic, so these are statements about what they return; [conn_close_panics] and
      [conn_window_returned_twice] are runs that go wrong, and [empty_trailer_panics] is a
      HEADERS frame on which the serve loop panics.
    - Refinement: each collection answers every sequence of calls as its abstract
      counterpart does ([LinkedHashMap_refines], [LRUCache_refines], ...), the
      router as the list of its routes ([router_finds]).
    - Concurrency: [ring_no_lost_wakeup] over all interleavings,
      [lru_race_exceeds_capacity] a schedule that breaks the cache.
    - Defects the models exhibit are theorems too: [readMetaFrame_limit_wraps],
      [LinkedList_ends_break], [delay_text_order], [find_beyond_capacity],
      [runHandler_defects], [request_defects], [cookie_splits_request], [serve_defects],
      [response_defects], [reader_leaves_standard], [message_defects], [stream_defects], [write_defects],
      [cookie_defects], [fs_defects], [nio_defects], [stale_choice], [backoff_overflows] and others.

    ** Fuel and bounds

    Loops that are not structural carry fuel that the theorems show to be enough:
    the reader of frames gets the length of the input, the splitting of header
    blocks the length of the block, sifting in the heap its size, the router three
    rounds for each node, insertion the length of the path, the loop of
    scheduleFrameWrite the work that is queued (a measure of the frames that writing
    a frame can add), bufio's Write two rounds.  The scanner of events and the loops
    over header lines, cookies, trailers, arguments and paths take the octets that are
    left (each round takes one at least; [fields_loop_fuel] for header lines), reading a
    header or a trailer two rounds for each piece that arrives, and the loops over chunks
    and over the requests of a connection the octets that can still arrive; decoding the
    messages of a session takes the octets in its buffer; a size in hexadecimal has
    sixteen digits at most.  Integers are [Z] with
    the conversions [u8], [u32], [i32], [i64] where the source converts or may
    overflow.

    ** Not modelled

    Sockets and TLS, of the HTTP/2 connection the goroutines themselves, deadlines
    and the validation of pushes: they are the operating system's and the runtime's.
    Of HTTP/1, the client's pool of connections with its retries and timeouts (its logic
    is that of timers and goroutines) and writing requests with multipart forms; of files,
    the page of a directory and sendfile; of cookies, the parsing of dates, which is
    the standard library's.  Pools of objects are
    modelled by what the code relies on: an object that has been reset.  Of the
    cluster, Redis mode, heartbeat streams and remote calls.  Clients of databases and
    queues, OpenAPI generation, logging and reflection helpers call into other
    libraries.  Of the router, findCaseInsensitivePath, which nothing calls.  See the
    components of the manifest.

    ** Order of work

    HTTP/2 framing, scheduling and bodies first, then the collections and the
    router, the server connection and its responses, then URIs, arguments, events, the
    election, HTTP/1 headers and bodies, the HTTP/1 server, whole responses and the
    network buffers under all of them, sessions, load balancing, cookies and files last. *)

From stdpp Require Export base list gmap strings pretty.
From Stdlib Require Export ZArith.
Open Scope Z_scope.

(** ** Scopes and notations *)

Declare Scope go_scope.
Delimit Scope go_scope with go.
Open Scope go_scope.

(** A Go [[]byte] or [string] is a sequence of octets, each a [Z] in [0,255]. *)
Abbreviation bytes := (list Z).

(** ** Machine integers

    Go's fixed-width integers are kept as [Z] with their wrap-around written
    out; [int] is the 64-bit one. *)

Definition u8 (x : Z) : Z := x mod 2 ^ 8.
Definition u16 (x : Z) : Z := x mod 2 ^ 16.
Definition u32 (x : Z) : Z := x mod 2 ^ 32.
Definition u64 (x : Z) : Z := x mod 2 ^ 64.
Definition i32 (x : Z) : Z := (x + 2 ^ 31) mod 2 ^ 32 - 2 ^ 31.
Definition i64 (x : Z) : Z := (x + 2 ^ 63) mod 2 ^ 64 - 2 ^ 63.

Definition is_u8 (x : Z) : Prop := 0 <= x < 2 ^ 8.
Definition is_u16 (x : Z) : Prop := 0 <= x < 2 ^ 16.
Definition is_u32 (x : Z) : Prop := 0 <= x < 2 ^ 32.
Definition is_i32 (x : Z) : Prop := - 2 ^ 31 <= x < 2 ^ 31.
Definition is_i64 (x : Z) : Prop := - 2 ^ 63 <= x < 2 ^ 63.

Definition wf_bytes (b : bytes) : Prop := Forall is_u8 b.

Ltac Zify.zify_post_hook ::= Z.div_mod_to_equations.

(** [width] unfolds the machine-integer vocabulary and calls [lia]. *)
Ltac width :=
  unfold u8, u16, u32, u64, i32, i64, is_u8, is_u16, is_u32, is_i32, is_i64 in *;
  lia.

Create HintDb go.
Create Rewrite HintDb go.

Lemma u8_id x : is_u8 x -> u8 x = x.
Proof. width. Qed.
Lemma u16_id x : is_u16 x -> u16 x = x.
Proof. width. Qed.
Lemma u32_id x : is_u32 x -> u32 x = x.
Proof. width. Qed.
Lemma i32_id x : is_i32 x -> i32 x = x.
Proof. width. Qed.
Lemma i64_id x : is_i64 x -> i64 x = x.
Proof. width. Qed.
Lemma is_u8_u8 x : is_u8 (u8 x).
Proof. width. Qed.
Lemma is_u32_u32 x : is_u32 (u32 x).
Proof. width. Qed.
Lemma is_i32_i32 x : is_i32 (i32 x).
Proof. width. Qed.

#[export] Hint Resolve is_u8_u8 is_u32_u32 is_i32_i32 : go.
#[export] Hint Rewrite u8_id u16_id u32_id i32_id using (width) : go.

(** ** Lengths and slices *)

(** Go's [len]. *)
Definition len {A} (l : list A) : Z := Z.of_nat (length l).

(** [l[:n]] and [l[n:]] for an index already known to be in range. *)
Definition ztake {A} (n : Z) (l : list A) : list A := take (Z.to_nat n) l.
Definition zdrop {A} (n : Z) (l : list A) : list A := drop (Z.to_nat n) l.

(** [l[i]], [None] when the index is out of range, where Go panics. *)
Definition znth {A} (l : list A) (i : Z) : option A :=
  if decide (0 <= i) then l !! Z.to_nat i else None.

Section Lengths.
Context {A : Type}.
Implicit Types l k : list A.

Lemma len_nonneg l : 0 <= len l.
Proof. unfold len. lia. Qed.

Lemma len_nil : len (@nil A) = 0.
Proof. reflexivity. Qed.

Lemma len_cons (x : A) l : len (x :: l) = 1 + len l.
Proof. unfold len. simpl. lia. Qed.

Lemma len_app l k : len (l ++ k) = len l + len k.
Proof. unfold len. rewrite length_app. lia. Qed.

Lemma len_replicate n (x : A) : len (replicate n x) = Z.of_nat n.
Proof. unfold len. by rewrite length_replicate. Qed.

Lemma len_ztake n l : 0 <= n <= len l -> len (ztake n l) = n.
Proof. unfold len, ztake. intros H. rewrite length_take. lia. Qed.

Lemma len_zdrop n l : 0 <= n <= len l -> len (zdrop n l) = len l - n.
Proof. unfold len, zdrop. intros H. rewrite length_drop. lia. Qed.

Lemma len_0_inv l : len l = 0 -> l = [].
Proof. unfold len. destruct l; simpl; [done | lia]. Qed.

Lemma ztake_app l k : ztake (len l) (l ++ k) = l.
Proof. unfold ztake, len. rewrite Nat2Z.id. apply take_app_length. Qed.

Lemma zdrop_app l k : zdrop (len l) (l ++ k) = k.
Proof. unfold zdrop, len. rewrite Nat2Z.id. apply drop_app_length. Qed.

Lemma ztake_app_at n l k : n = len l -> ztake n (l ++ k) = l.
Proof. intros ->. apply ztake_app. Qed.

Lemma zdrop_app_at n l k : n = len l -> zdrop n (l ++ k) = k.
Proof. intros ->. apply zdrop_app. Qed.

Lemma ztake_ge n l : len l <= n -> ztake n l = l.
Proof. unfold ztake, len. intros. apply take_ge. lia. Qed.

Lemma ztake_zdrop n l : ztake n l ++ zdrop n l = l.
Proof. apply take_drop. Qed.

Lemma zdrop_0 l : zdrop 0 l = l.
Proof. reflexivity. Qed.

Lemma zdrop_nonpos n l : n <= 0 -> zdrop n l = l.
Proof. unfold zdrop. intros. by replace (Z.to_nat n) with 0%nat by lia. Qed.

End Lengths.

#[export] Hint Rewrite @len_app @len_cons @len_nil @len_replicate : go.
#[export] Hint Resolve len_nonneg : go.

(** Adds that the lengths in sight are not negative. *)
Ltac len_facts :=
  repeat match goal with
    | |- context [len ?l] => lazymatch goal with
        | _ : 0 <= len l |- _ => fail
        | _ => pose proof (len_nonneg l) end
    | _ : context [len ?l] |- _ => lazymatch goal with
        | _ : 0 <= len l |- _ => fail
        | _ => pose proof (len_nonneg l) end
    end.

(** [glen] normalises lengths and closes linear goals about them. *)
Ltac glen := autorewrite with go in *; len_facts; try width.

(** ** Errors as values *)

(** A Go function returning [(T, error)]: exactly one of the two is meaningful. *)
Inductive result (E A : Type) : Type :=
| Ok (a : A)
| Err (e : E).
Arguments Ok {E A} a.
Arguments Err {E A} e.

#[export] Instance result_eq_dec {E A} `{EqDecision E, EqDecision A} :
  EqDecision (result E A).
Proof. solve_decision. Defined.

Definition result_bind {E A B} (c : result E A) (k : A -> result E B) : result E B :=
  match c with Ok a => k a | Err e => Err e end.

Notation "'try' x <- c ; k" := (result_bind c (fun x => k))
  (at level 80, x pattern, c at level 100, k at level 200, right associativity) : go_scope.

Lemma result_bind_Ok {E A B} (c : result E A) (k : A -> result E B) b :
  result_bind c k = Ok b <-> exists a, c = Ok a /\ k a = Ok b.
Proof.
  destruct c as [a|e]; simpl.
  - split; [by exists a | by intros (? & [= <-] & ?)].
  - split; [done | by intros (? & ? & ?)].
Qed.

Lemma result_bind_Err {E A B} (c : result E A) (k : A -> result E B) e :
  result_bind c k = Err e <-> c = Err e \/ exists a, c = Ok a /\ k a = Err e.
Proof.
  destruct c as [a|e']; simpl.
  - split; [right; by exists a | intros [?|(? & [= <-] & ?)]; done].
  - split; [by intros [= ->]; left | intros [?|(? & ? & ?)]; congruence].
Qed.

(** A computation that may also panic, or exhaust the fuel that bounds a loop. *)
Inductive outcome (A : Type) : Type :=
| Ret (a : A)
| Panic
| OutOfFuel.
Arguments Ret {A} a.
Arguments Panic {A}.
Arguments OutOfFuel {A}.

Definition outcome_bind {A B} (c : outcome A) (k : A -> outcome B) : outcome B :=
  match c with Ret a => k a | Panic => Panic | OutOfFuel => OutOfFuel end.

Notation "'run' x <- c ; k" := (outcome_bind c (fun x => k))
  (at level 80, x pattern, c at level 100, k at level 200, right associativity) : go_scope.

(** Dereferencing a pointer or an index that may be absent: Go panics. *)
Definition deref {A} (o : option A) : outcome A :=
  match o with Some a => Ret a | None => Panic end.

(** [case_if] splits the boolean or [decide] test at the head of the goal or of
    a hypothesis, keeping its equation. *)
Ltac case_if :=
  match goal with
  | |- context [if ?c then _ else _] => destruct c eqn:?
  | H : context [if ?c then _ else _] |- _ => destruct c eqn:?
  end.

(** Reflects the boolean comparisons of [Z] found in the context. *)
Ltac breflect :=
  repeat match goal with
  | H : _ && _ = true |- _ => apply andb_true_iff in H; destruct H
  | H : _ || _ = false |- _ => apply orb_false_iff in H; destruct H
  | H : _ && _ = false |- _ => apply andb_false_iff in H
  | H : _ || _ = true |- _ => apply orb_true_iff in H
  | H : negb _ = true |- _ => apply negb_true_iff in H
  | H : negb _ = false |- _ => apply negb_false_iff in H
  | H : (_ =? _) = true |- _ => apply Z.eqb_eq in H
  | H : (_ =? _) = false |- _ => apply Z.eqb_neq in H
  | H : (_ <? _) = true |- _ => apply Z.ltb_lt in H
  | H : (_ <? _) = false |- _ => apply Z.ltb_ge in H
  | H : (_ <=? _) = true |- _ => apply Z.leb_le in H
  | H : (_ <=? _) = false |- _ => apply Z.leb_gt in H
  | H : (_ >? _) = _ |- _ => rewrite Z.gtb_ltb in H
  | H : (_ >=? _) = _ |- _ => rewrite Z.geb_leb in H
  end.

(** [vm_eq] proves a closed equation by evaluating both sides. *)
Ltac vm_eq := match goal with |- _ = ?b => vm_cast_no_check (eq_refl b) end.
