(* ===== verification/Bytes.v ===== *)
(** * Octet strings

    What the modelled code uses of Go's language and standard library on byte
    sequences: string literals and decimal formatting, the big-endian codec of
    [encoding/binary], and the rune iteration of [for _, r := range s]. *)

From S2P Require Import Prelude.

(** ** Literals and decimal printing *)

(** The octets of a string literal. *)
Definition str (s : string) : bytes :=
  (fun a => Z.of_N (Ascii.N_of_ascii a)) <$> String.list_ascii_of_string s.

(** [%d] of [fmt.Sprintf], on any integer. *)
Definition itoa (n : Z) : bytes := str (pretty n).

Definition bytes_eqb (a b : bytes) : bool := bool_decide (a = b).

Lemma bytes_eqb_eq a b : bytes_eqb a b = true <-> a = b.
Proof. unfold bytes_eqb. by rewrite bool_decide_eq_true. Qed.

Lemma bytes_eqb_neq a b : bytes_eqb a b = false <-> a <> b.
Proof. unfold bytes_eqb. by rewrite bool_decide_eq_false. Qed.

(** [strings.HasPrefix]. *)
Definition has_prefix (p s : bytes) : bool := bytes_eqb (take (length p) s) p.

(** ** Bit-level facts *)

Lemma land_shiftl_low a b k :
  0 <= k -> 0 <= b < 2 ^ k -> Z.land (Z.shiftl a k) b = 0.
Proof.
  intros Hk Hb. apply Z.bits_inj'. intros i Hi. rewrite Z.land_spec, Z.bits_0.
  destruct (decide (i < k)).
  - by rewrite Z.shiftl_spec_low.
  - rewrite <- (Z.mod_small b (2 ^ k)) by done.
    rewrite Z.mod_pow2_bits_high by lia. by rewrite andb_false_r.
Qed.

Lemma lor_shiftl_add a b k :
  0 <= k -> 0 <= b < 2 ^ k -> Z.lor (Z.shiftl a k) b = a * 2 ^ k + b.
Proof.
  intros Hk Hb. pose proof (land_shiftl_low a b k Hk Hb) as H0.
  rewrite <- Z.lxor_lor, <- Z.add_nocarry_lxor by done.
  by rewrite Z.shiftl_mul_pow2.
Qed.

(** [x & (1<<k - 1)] keeps the low [k] bits. *)
Lemma land_mask x k : 0 <= k -> Z.land x (Z.shiftl 1 k - 1) = x mod 2 ^ k.
Proof.
  intros Hk. rewrite Z.shiftl_1_l. replace (2 ^ k - 1) with (Z.ones k).
  - by apply Z.land_ones.
  - rewrite Z.ones_equiv. lia.
Qed.

Lemma shiftr_div x k : 0 <= k -> Z.shiftr x k = x / 2 ^ k.
Proof. apply Z.shiftr_div_pow2. Qed.

(** ** [encoding/binary.BigEndian] *)

(** [BigEndian.Uint16(b)]; the callers pass at least two octets. *)
Definition be_uint16 (b : bytes) : Z :=
  match b with
  | b0 :: b1 :: _ => Z.lor (Z.shiftl b0 8) b1
  | _ => 0
  end.

(** [BigEndian.Uint32(b)]; the callers pass at least four octets. *)
Definition be_uint32 (b : bytes) : Z :=
  match b with
  | b0 :: b1 :: b2 :: b3 :: _ =>
      Z.lor (Z.shiftl (Z.lor (Z.shiftl (Z.lor (Z.shiftl b0 8) b1) 8) b2) 8) b3
  | _ => 0
  end.

(** The octets [byte(v>>8), byte(v)]. *)
Definition put_uint16 (v : Z) : bytes := [u8 (Z.shiftr v 8); u8 v].

(** The octets [byte(v>>24), byte(v>>16), byte(v>>8), byte(v)]. *)
Definition put_uint32 (v : Z) : bytes :=
  [u8 (Z.shiftr v 24); u8 (Z.shiftr v 16); u8 (Z.shiftr v 8); u8 v].

Ltac bits :=
  repeat first
    [ rewrite lor_shiftl_add by width
    | rewrite shiftr_div by lia ];
  change (2 ^ 8) with 256 in *; change (2 ^ 16) with 65536 in *;
  change (2 ^ 24) with 16777216 in *; change (2 ^ 32) with 4294967296 in *.

Lemma be_uint16_sum b0 b1 t :
  is_u8 b1 -> be_uint16 (b0 :: b1 :: t) = b0 * 256 + b1.
Proof. intros. unfold be_uint16. by bits. Qed.

Lemma be_uint32_sum b0 b1 b2 b3 t :
  is_u8 b1 -> is_u8 b2 -> is_u8 b3 ->
  be_uint32 (b0 :: b1 :: b2 :: b3 :: t) = ((b0 * 256 + b1) * 256 + b2) * 256 + b3.
Proof. intros. unfold be_uint32. by bits. Qed.

Lemma be_uint16_put v t : is_u16 v -> be_uint16 (put_uint16 v ++ t) = v.
Proof.
  intros Hv. unfold put_uint16. simpl app.
  rewrite be_uint16_sum by auto with go. unfold u8. bits. width.
Qed.

Lemma be_uint32_put v t : is_u32 v -> be_uint32 (put_uint32 v ++ t) = v.
Proof.
  intros Hv. unfold put_uint32. simpl app.
  rewrite be_uint32_sum by auto with go. unfold u8. bits. width.
Qed.

Lemma be_uint32_put_nil v : is_u32 v -> be_uint32 (put_uint32 v) = v.
Proof. apply (be_uint32_put v []). Qed.

Lemma be_uint32_range b : wf_bytes b -> is_u32 (be_uint32 b).
Proof.
  intros Hb. destruct b as [|b0 [|b1 [|b2 [|b3 t]]]]; try (simpl; width).
  unfold wf_bytes in Hb. rewrite !Forall_cons in Hb.
  destruct Hb as (? & ? & ? & ? & _).
  rewrite be_uint32_sum by done. width.
Qed.

Lemma put_uint32_wf v : wf_bytes (put_uint32 v).
Proof. unfold put_uint32, wf_bytes. rewrite !Forall_cons. auto with go. Qed.

Lemma put_uint16_wf v : wf_bytes (put_uint16 v).
Proof. unfold put_uint16, wf_bytes. rewrite !Forall_cons. auto with go. Qed.

Lemma len_put_uint16 v : len (put_uint16 v) = 2.
Proof. reflexivity. Qed.

Lemma len_put_uint32 v : len (put_uint32 v) = 4.
Proof. reflexivity. Qed.

#[export] Hint Rewrite len_put_uint16 len_put_uint32 : go.
#[export] Hint Resolve put_uint16_wf put_uint32_wf be_uint32_range : go.

(** ** Runes

    [for _, r := range s] decodes UTF-8; an invalid octet yields U+FFFD and
    advances by one (the language specification; tables of [unicode/utf8]). *)

Definition RuneError : Z := 65533.

Definition between (lo x hi : Z) : bool := (lo <=? x) && (x <=? hi).

(** One decoding step: the rune and the number of octets it takes. *)
Definition decode_rune (s : bytes) : Z * nat :=
  let cont x := between 128 x 191 in
  match s with
  | [] => (RuneError, 0%nat)
  | s0 :: t =>
      if s0 <? 128 then (s0, 1%nat)
      else if between 194 s0 223 then
        match t with
        | s1 :: _ => if cont s1
                     then (Z.lor (Z.shiftl (Z.land s0 31) 6) (Z.land s1 63), 2%nat)
                     else (RuneError, 1%nat)
        | _ => (RuneError, 1%nat)
        end
      else if between 224 s0 239 then
        match t with
        | s1 :: s2 :: _ =>
            let lo := if s0 =? 224 then 160 else 128 in
            let hi := if s0 =? 237 then 159 else 191 in
            if between lo s1 hi && cont s2
            then (Z.lor (Z.shiftl (Z.lor (Z.shiftl (Z.land s0 15) 6) (Z.land s1 63)) 6)
                        (Z.land s2 63), 3%nat)
            else (RuneError, 1%nat)
        | _ => (RuneError, 1%nat)
        end
      else if between 240 s0 244 then
        match t with
        | s1 :: s2 :: s3 :: _ =>
            let lo := if s0 =? 240 then 144 else 128 in
            let hi := if s0 =? 244 then 143 else 191 in
            if between lo s1 hi && cont s2 && cont s3
            then (Z.lor (Z.shiftl (Z.lor (Z.shiftl (Z.lor (Z.shiftl (Z.land s0 7) 6)
                   (Z.land s1 63)) 6) (Z.land s2 63)) 6) (Z.land s3 63), 4%nat)
            else (RuneError, 1%nat)
        | _ => (RuneError, 1%nat)
        end
      else (RuneError, 1%nat)
  end.

(** The runes of [s]; [n] octets of look-ahead to skip before the next one. *)
Fixpoint runes_skip (n : nat) (s : bytes) : list Z :=
  match s with
  | [] => []
  | _ :: t =>
      match n with
      | S n' => runes_skip n' t
      | O => let '(r, w) := decode_rune s in r :: runes_skip (pred w) t
      end
  end.

Definition runes (s : bytes) : list Z := runes_skip 0 s.

Definition is_ascii (s : bytes) : Prop := Forall (fun b => 0 <= b < 128) s.

Lemma runes_ascii s : is_ascii s -> runes s = s.
Proof.
  unfold runes. induction 1 as [|b s Hb Hs IH]; [done|].
  simpl. replace (b <? 128) with true by (symmetry; apply Z.ltb_lt; lia).
  simpl. by rewrite IH.
Qed.

(** ** Hexadecimal printing *)

Definition hexdigit (d : Z) : Z := if d <? 10 then 48 + d else 87 + d.

Fixpoint hex_go (fuel : nat) (n : Z) (acc : bytes) : bytes :=
  match fuel with
  | O => acc
  | S f => let acc' := hexdigit (n mod 16) :: acc in
           if n / 16 =? 0 then acc' else hex_go f (n / 16) acc'
  end.

(** [%x] of [fmt.Sprintf] on an unsigned value of at most 64 bits, which has at
    most 16 hexadecimal digits. *)
Definition itox (n : Z) : bytes := hex_go 16 n [].

(** ** Comparison

    Go's [a < b] on strings: bytewise, a proper prefix first. *)

Fixpoint bytes_ltb (a b : bytes) : bool :=
  match a, b with
  | _, [] => false
  | [], _ :: _ => true
  | x :: a, y :: b => if x <? y then true else if y <? x then false else bytes_ltb a b
  end.

Lemma bytes_ltb_irrefl a : bytes_ltb a a = false.
Proof. induction a as [|x a IH]; simpl; [done|]. by rewrite Z.ltb_irrefl. Qed.

Lemma bytes_ltb_trans a b c : bytes_ltb a b = true -> bytes_ltb b c = true -> bytes_ltb a c = true.
Proof.
  revert b c. induction a as [|x a IH]; intros [|y b] [|z c]; simpl; try done.
  repeat case_if; breflect; try done; try lia. apply IH.
Qed.

Lemma bytes_ltb_total a b : bytes_ltb a b = false -> bytes_ltb b a = false -> a = b.
Proof.
  revert b. induction a as [|x a IH]; intros [|y b]; simpl; try done.
  repeat case_if; breflect; try done; try lia. intros H1 H2.
  f_equal; [lia | by apply IH].
Qed.

(** What is not below something is not below anything lower. *)
Lemma bytes_ltb_false_trans a b c :
  bytes_ltb b a = false -> bytes_ltb c b = false -> bytes_ltb c a = false.
Proof.
  intros H1 H2. destruct (bytes_ltb c a) eqn:E; [|done].
  destruct (bytes_ltb b c) eqn:E2.
  - by rewrite (bytes_ltb_trans b c a) in H1.
  - assert (b = c) as -> by (by apply bytes_ltb_total). congruence.
Qed.

Lemma bytes_ltb_snoc a b x y :
  length a = length b ->
  bytes_ltb (a ++ [x]) (b ++ [y]) = if bool_decide (a = b) then x <? y else bytes_ltb a b.
Proof.
  revert b. induction a as [|u a IH]; intros [|v b] Hl; try done; cbn [bytes_ltb app].
  - rewrite bool_decide_true by done. repeat case_if; done.
  - destruct (u <? v) eqn:E1; breflect.
    { rewrite bool_decide_false by (intros [= -> ->]; lia). done. }
    destruct (v <? u) eqn:E2; breflect.
    { rewrite bool_decide_false by (intros [= -> ->]; lia). done. }
    assert (u = v) as -> by lia. rewrite IH by (simpl in Hl; lia).
    destruct (decide (a = b)) as [->|Hne]; [by rewrite !bool_decide_true|].
    by rewrite !bool_decide_false by congruence.
Qed.

(** *** Decimal order

    Decimal numerals of the same number of digits compare as the numbers. *)

(** The last [w] digits of [n]. *)
Fixpoint digits (w : nat) (n : Z) : bytes :=
  match w with
  | O => []
  | S w => digits w (n / 10) ++ [48 + n mod 10]
  end.

Lemma length_digits w n : length (digits w n) = w.
Proof. revert n. induction w as [|w IH]; intros n; simpl; [done|]. rewrite length_app, IH. simpl. lia. Qed.

Lemma pow10_S w : 10 ^ Z.of_nat (S w) = 10 * 10 ^ Z.of_nat w.
Proof. rewrite Nat2Z.inj_succ, Z.pow_succ_r by lia. done. Qed.

Lemma digits_inj w n m :
  0 <= n < 10 ^ Z.of_nat w -> 0 <= m < 10 ^ Z.of_nat w -> digits w n = digits w m -> n = m.
Proof.
  revert n m. induction w as [|w IH]; intros n m Hn Hm; [simpl in *; lia|].
  rewrite pow10_S in *. cbn [digits]. intros [E1 [= E2]]%app_inj_2; [|done].
  apply IH in E1; lia.
Qed.

Lemma digits_ltb w n m :
  0 <= n < 10 ^ Z.of_nat w -> 0 <= m < 10 ^ Z.of_nat w ->
  bytes_ltb (digits w n) (digits w m) = (n <? m).
Proof.
  revert n m. induction w as [|w IH]; intros n m Hn Hm.
  { simpl in *. symmetry. apply Z.ltb_ge. lia. }
  rewrite pow10_S in *. cbn [digits]. rewrite bytes_ltb_snoc by (by rewrite !length_digits).
  case_bool_decide as E.
  - apply digits_inj in E; [|lia..].
    destruct (48 + n mod 10 <? 48 + m mod 10) eqn:E1; destruct (n <? m) eqn:E2; breflect; done || lia.
  - rewrite IH by lia. assert (n / 10 <> m / 10) by congruence.
    destruct (n / 10 <? m / 10) eqn:E1; destruct (n <? m) eqn:E2; breflect; done || lia.
Qed.

Lemma digit_char d : 0 <= d < 10 -> Z.of_N (Ascii.N_of_ascii (pretty_N_char (Z.to_N d))) = 48 + d.
Proof.
  intros Hd.
  assert (d = 0 \/ d = 1 \/ d = 2 \/ d = 3 \/ d = 4 \/ d = 5 \/ d = 6 \/ d = 7 \/ d = 8 \/ d = 9)
    by lia.
  destruct_or!; subst; reflexivity.
Qed.

Lemma pretty_digits w n s :
  0 <= n < 10 ^ Z.of_nat w -> (forall v, w = S v -> 10 ^ Z.of_nat v <= n) ->
  str (pretty_N_go (Z.to_N n) s) = digits w n ++ str s.
Proof.
  revert n s. induction w as [|w IH]; intros n s Hn Hlow.
  { simpl in Hn. by assert (n = 0) as -> by lia. }
  specialize (Hlow w eq_refl). pose proof (Z.pow_pos_nonneg 10 (Z.of_nat w)).
  rewrite pow10_S in Hn. rewrite pretty_N_go_step by lia.
  replace (Z.to_N n `div` 10)%N with (Z.to_N (n / 10)) by (by rewrite Z2N.inj_div by lia).
  replace (Z.to_N n `mod` 10)%N with (Z.to_N (n mod 10)) by (by rewrite Z2N.inj_mod by lia).
  rewrite IH.
  - cbn [digits]. rewrite <- app_assoc. f_equal. unfold str. simpl. by rewrite digit_char by lia.
  - lia.
  - intros v ->. rewrite pow10_S in *. lia.
Qed.

Lemma itoa_digits w n : 10 ^ Z.of_nat w <= n < 10 ^ Z.of_nat (S w) -> itoa n = digits (S w) n.
Proof.
  intros Hn. pose proof (Z.pow_pos_nonneg 10 (Z.of_nat w)). unfold itoa.
  assert (E : pretty n = pretty_N_go (Z.to_N n) ""%string).
  { destruct n as [|p|p]; try lia. done. }
  rewrite E, (pretty_digits (S w) n); [apply app_nil_r|lia|]. intros v [= <-]. lia.
Qed.

(** Two numbers of [w + 1] digits. *)
Lemma itoa_ltb w n m :
  10 ^ Z.of_nat w <= n < 10 ^ Z.of_nat (S w) -> 10 ^ Z.of_nat w <= m < 10 ^ Z.of_nat (S w) ->
  bytes_ltb (itoa n) (itoa m) = (n <? m).
Proof. intros Hn Hm. rewrite !(itoa_digits w) by done. apply digits_ltb; lia. Qed.

Lemma itoa_inj w n m :
  10 ^ Z.of_nat w <= n < 10 ^ Z.of_nat (S w) -> 10 ^ Z.of_nat w <= m < 10 ^ Z.of_nat (S w) ->
  itoa n = itoa m -> n = m.
Proof. intros Hn Hm. rewrite !(itoa_digits w) by done. apply digits_inj; lia. Qed.

(** ** Searching and reading numbers *)

(** bytes.IndexByte: the first position of [c], [-1] if there is none. *)
Fixpoint IndexByte (b : bytes) (c : Z) : Z :=
  match b with
  | [] => -1
  | x :: b => if x =? c then 0 else let i := IndexByte b c in if i =? -1 then -1 else i + 1
  end.

(** bytes.Index. *)
Fixpoint Index (b sub : bytes) : Z :=
  if has_prefix sub b then 0
  else match b with
       | [] => -1
       | _ :: t => let i := Index t sub in if i =? -1 then -1 else i + 1
       end.

Lemma znth_app_r {A} (a b : list A) i : 0 <= i -> znth (a ++ b) (len a + i) = znth b i.
Proof.
  intros Hi. unfold znth. pose proof (len_nonneg a). rewrite !decide_True by lia.
  rewrite lookup_app_r by (unfold len; lia). f_equal. unfold len. lia.
Qed.

Lemma IndexByte_none b c : IndexByte b c = -1 <-> c ∉ b.
Proof.
  induction b as [|x b IH]; simpl; [split; [intros _; apply not_elem_of_nil|done]|].
  rewrite not_elem_of_cons. destruct (x =? c) eqn:E; breflect; [subst; split; [lia|tauto]|].
  destruct (IndexByte b c =? -1) eqn:E2; breflect; [rewrite <- IH; naive_solver|].
  assert (-1 <= IndexByte b c) by (clear; induction b; simpl; repeat case_if; lia).
  rewrite <- IH. naive_solver lia.
Qed.

Lemma IndexByte_at p c t : c ∉ p -> IndexByte (p ++ c :: t) c = len p.
Proof.
  induction p as [|x p IH]; simpl; intros Hn; [by rewrite Z.eqb_refl|].
  apply not_elem_of_cons in Hn as [Hx Hn]. rewrite (IH Hn), len_cons.
  destruct (x =? c) eqn:E; breflect; [congruence|].
  destruct (len p =? -1) eqn:E2; breflect; [pose proof (len_nonneg p)|]; lia.
Qed.

Lemma IndexByte_app p t c : c ∉ p -> IndexByte (p ++ t) c = if IndexByte t c =? -1 then -1 else len p + IndexByte t c.
Proof.
  intros Hn. destruct (decide (c ∈ t)) as [Hc|Hc].
  - apply list_elem_of_split_l in Hc as (t1 & t2 & -> & Ht). rewrite app_assoc, !IndexByte_at; [|done|set_solver].
    destruct (len t1 =? -1) eqn:E; breflect; glen.
  - rewrite (proj2 (IndexByte_none t c)) by done. simpl. apply IndexByte_none. set_solver.
Qed.

(** The number decimal digits write, after [v]; [None] if there is another octet. *)
Fixpoint parse_digits (v : Z) (b : bytes) : option Z :=
  match b with
  | [] => Some v
  | c :: b => if between 48 c 57 then parse_digits (10 * v + (c - 48)) b else None
  end.

Lemma parse_digits_app v a b : parse_digits v (a ++ b) = parse_digits v a ≫= fun v => parse_digits v b.
Proof. revert v. induction a as [|c a IH]; intros v; simpl; [done|]. case_if; [apply IH|done]. Qed.

Lemma parse_digits_digits w v n :
  0 <= n < 10 ^ Z.of_nat w -> parse_digits v (digits w n) = Some (v * 10 ^ Z.of_nat w + n).
Proof.
  revert v n. induction w as [|w IH]; intros v n Hn; [simpl in *; f_equal; lia|].
  rewrite pow10_S in Hn. cbn [digits]. rewrite parse_digits_app, IH by lia. simpl.
  unfold between. destruct (48 <=? 48 + n mod 10) eqn:E1; breflect; [|lia].
  destruct (48 + n mod 10 <=? 57) eqn:E2; breflect; [|lia]. simpl. f_equal. rewrite pow10_S. lia.
Qed.

Lemma pow10_between n : 0 < n -> exists w, 10 ^ Z.of_nat w <= n < 10 ^ Z.of_nat (S w).
Proof.
  induction n as [n IH] using (well_founded_induction (Z.lt_wf 0)). intros Hn.
  destruct (decide (n < 10)); [exists 0%nat; simpl; lia|].
  destruct (IH (n / 10)) as [w Hw]; [lia..|]. exists (S w). rewrite !pow10_S in *. lia.
Qed.

(** The numeral of a number that is not negative reads back. *)
Lemma parse_digits_itoa n : 0 <= n -> parse_digits 0 (itoa n) = Some n.
Proof.
  intros Hn. destruct (decide (n = 0)) as [->|Hp]; [done|].
  destruct (pow10_between n) as [w Hw]; [lia|].
  rewrite (itoa_digits w), parse_digits_digits by lia. done.
Qed.

(** strconv.ParseInt(s, 10, 64), where the caller only asks whether it fails. *)
Definition ParseInt64 (s : bytes) : option Z :=
  let '(neg, t) := match s with
                   | c :: t => if c =? 45 then (true, t) else if c =? 43 then (false, t) else (false, s)
                   | [] => (false, s)
                   end in
  match t with
  | [] => None
  | _ => match parse_digits 0 t with
         | Some v => if neg then if v <=? 2 ^ 63 then Some (- v) else None
                     else if v <? 2 ^ 63 then Some v else None
         | None => None
         end
  end.

Lemma itoa_first n : 0 <= n -> exists c t, itoa n = c :: t /\ 48 <= c <= 57.
Proof.
  intros Hn. pose proof (parse_digits_itoa n Hn) as Hp.
  destruct (itoa n) as [|c t] eqn:E; [simpl in Hp; injection Hp as <-; done|].
  exists c, t. split; [done|]. simpl in Hp. unfold between in Hp.
  destruct ((48 <=? c) && (c <=? 57)) eqn:E1; [breflect; lia|done].
Qed.

Lemma itoa_opp n : 0 < n -> itoa (- n) = 45 :: itoa n.
Proof. intros Hn. destruct n; done. Qed.

(** Printing then parsing a 64-bit integer. *)
Lemma ParseInt64_itoa n : is_i64 n -> ParseInt64 (itoa n) = Some n.
Proof.
  intros Hn. unfold ParseInt64. destruct (decide (0 <= n)) as [Hp|Hp].
  - pose proof (parse_digits_itoa n Hp) as E. destruct (itoa_first n Hp) as (c & t & Ht & Hc). rewrite Ht in *.
    destruct (c =? 45) eqn:E1; breflect; [lia|]. destruct (c =? 43) eqn:E2; breflect; [lia|]. rewrite E.
    destruct (n <? 2 ^ 63) eqn:E3; [done|]. breflect. width.
  - replace n with (- (- n)) by lia. rewrite itoa_opp by lia. cbn [Z.eqb Pos.eqb].
    pose proof (parse_digits_itoa (- n) ltac:(lia)) as E. destruct (itoa_first (- n)) as (c & t & Ht & Hc); [lia|].
    rewrite Ht in *. rewrite E. destruct (- n <=? 2 ^ 63) eqn:E3; [done|]. breflect. width.
Qed.

(** ** Numbers and names of header fields *)

(** bytesconv.ParseUintBuf: the value and the number of digits, or an error. *)
Fixpoint uint_loop (b : bytes) (v i : Z) : option (Z * Z) :=
  match b with
  | [] => Some (v, i)
  | c :: b =>
      let k := u8 (c - 48) in
      if k >? 9 then if i =? 0 then None else Some (v, i)
      else let vNew := i64 (10 * v + k) in
           if vNew <? v then None else uint_loop b vNew (i + 1)
  end.

Definition ParseUintBuf (b : bytes) : option (Z * Z) :=
  match b with [] => None | _ => uint_loop b 0 0 end.

Definition ParseContentLength (b : bytes) : option Z :=
  match ParseUintBuf b with
  | Some (v, n) => if n =? len b then Some v else None
  | None => None
  end.

(** utils.CaseInsensitiveCompare. *)
Definition CaseInsensitiveCompare (a b : bytes) : bool :=
  bytes_eqb (map (fun c => Z.lor c 32) a) (map (fun c => Z.lor c 32) b).

Lemma parse_digits_ge b : forall v n, 0 <= v -> parse_digits v b = Some n -> v <= n.
Proof.
  induction b as [|c b IH]; intros v n Hv E; simpl in E; [by simplify_eq|].
  unfold between in E. case_if; [|done]. breflect. apply IH in E; lia.
Qed.

Lemma uint_loop_digits b : forall v i n, 0 <= v -> parse_digits v b = Some n -> n < 2 ^ 63 -> uint_loop b v i = Some (n, i + len b).
Proof.
  induction b as [|c b IH]; intros v i n Hv E Hn; simpl in E.
  - simplify_eq. simpl. by rewrite len_nil, Z.add_0_r.
  - unfold between in E. case_if; [|done]. breflect. pose proof (parse_digits_ge b (10 * v + (c - 48)) n ltac:(lia) E) as Hg.
    cbn [uint_loop]. assert (u8 (c - 48) = c - 48) as -> by (unfold u8; apply Z.mod_small; lia).
    destruct (c - 48 >? 9) eqn:E9; breflect; [lia|]. rewrite i64_id by width.
    destruct (10 * v + (c - 48) <? v) eqn:E10; breflect; [lia|]. rewrite (IH _ _ n) by (lia || done).
    rewrite len_cons. do 2 f_equal. lia.
Qed.

(** Digits up to an octet that is none. *)
Lemma uint_loop_stop b c t : forall v i n, 0 <= v -> 0 <= i -> 0 < i + len b -> u8 (c - 48) > 9 -> parse_digits v b = Some n -> n < 2 ^ 63 ->
  uint_loop (b ++ c :: t) v i = Some (n, i + len b).
Proof.
  induction b as [|x b IH]; intros v i n Hv Hi Hl Hc E Hn; simpl in E.
  - simplify_eq. rewrite len_nil in *. cbn [app uint_loop]. rewrite (proj2 (Z.gtb_lt _ _)) by lia.
    rewrite (proj2 (Z.eqb_neq _ _)) by lia. by rewrite Z.add_0_r.
  - unfold between in E. case_if; [|done]. breflect. pose proof (parse_digits_ge b (10 * v + (x - 48)) n ltac:(lia) E) as Hg.
    cbn [app uint_loop]. assert (u8 (x - 48) = x - 48) as -> by (unfold u8; apply Z.mod_small; lia).
    destruct (x - 48 >? 9) eqn:E9; breflect; [lia|]. rewrite i64_id by width. pose proof (len_nonneg b).
    destruct (10 * v + (x - 48) <? v) eqn:E10; breflect; [lia|]. rewrite (IH _ _ n) by (lia || done).
    rewrite len_cons. do 2 f_equal. lia.
Qed.

(** A length that is printed is read. *)
Lemma ParseContentLength_itoa n : 0 <= n < 2 ^ 63 -> ParseContentLength (itoa n) = Some n.
Proof.
  intros Hn. unfold ParseContentLength, ParseUintBuf. destruct (itoa_first n ltac:(lia)) as (c & t & E & _).
  pose proof (uint_loop_digits (itoa n) 0 0 n ltac:(lia) (parse_digits_itoa n ltac:(lia)) ltac:(lia)) as Hu.
  rewrite E in *. rewrite Hu. by rewrite Z.add_0_l, Z.eqb_refl.
Qed.

(** ** The number that digits write *)

Definition digitb (c : Z) : bool := between 48 c 57.

(** The number a list of decimal digits writes, after [v]. *)
Fixpoint decimal (v : Z) (b : bytes) : Z :=
  match b with
  | [] => v
  | c :: b => decimal (10 * v + (c - 48)) b
  end.

Lemma decimal_grows v b : 0 <= v -> forallb digitb b = true -> v <= decimal v b.
Proof.
  revert v. induction b as [|c b IH]; intros v Hv; cbn [forallb decimal]; [lia|].
  unfold digitb, between. intros Hb. breflect. specialize (IH (10 * v + (c - 48)) ltac:(lia)).
  transitivity (10 * v + (c - 48)); [lia|]. by apply IH.
Qed.

Lemma uint_loop_decimal b v i :
  0 <= v -> Forall is_u8 b -> decimal v b < 2 ^ 63 -> forallb digitb b = true ->
  uint_loop b v i = Some (decimal v b, i + len b).
Proof.
  revert v i. induction b as [|c b IH]; intros v i Hv Hw Hlt Hb; cbn [uint_loop decimal].
  { rewrite len_nil. f_equal. f_equal. lia. }
  cbn [forallb] in Hb. apply andb_true_iff in Hb as [Hc Hb]. cbn [decimal] in Hlt.
  unfold digitb, between in Hc. breflect.
  pose proof (decimal_grows (10 * v + (c - 48)) b ltac:(lia) Hb) as Hg.
  assert (E8 : u8 (c - 48) = c - 48) by (unfold u8; apply Z.mod_small; lia). rewrite E8.
  destruct (c - 48 >? 9) eqn:E9; breflect; [lia|]. rewrite i64_id by width.
  destruct (10 * v + (c - 48) <? v) eqn:E; breflect; [lia|].
  rewrite IH by (lia || done || by inversion Hw). rewrite len_cons. f_equal. f_equal. lia.
Qed.

(** Anything that is not a digit ends the number, or is an error at its start. *)
Lemma uint_loop_stops b v i : Forall is_u8 b -> forallb digitb b = false ->
  uint_loop b v i = None \/ exists x n, uint_loop b v i = Some (x, n) /\ n < i + len b.
Proof.
  revert v i. induction b as [|c b IH]; intros v i Hw Hb; [done|]. cbn [uint_loop].
  apply Forall_cons in Hw as [Hc Hw]. cbn [forallb] in Hb.
  destruct (u8 (c - 48) >? 9) eqn:E9; breflect.
  { destruct (i =? 0); [by left|]. right. eexists _, _. split; [done|]. glen. }
  destruct (i64 (10 * v + u8 (c - 48)) <? v); [by left|]. destruct Hb as [Hb|Hb].
  - exfalso. unfold digitb, between in Hb. breflect. unfold u8, is_u8 in *. destruct Hb; breflect; lia.
  - destruct (IH (i64 (10 * v + u8 (c - 48))) (i + 1) Hw Hb) as [E|(x & n & E & Hn)]; [by left|].
    right. exists x, n. split; [done|]. rewrite len_cons. lia.
Qed.

Lemma decimal_wraps b : forall v w, i64 v = i64 w -> i64 (decimal v b) = i64 (decimal w b).
Proof.
  induction b as [|c b IH]; intros v w E; [done|]. cbn [decimal]. apply IH. clear IH. revert E. unfold i64. lia.
Qed.

(** Digits that are read to their end give their number as an int64. *)
Lemma uint_loop_wraps b : forall v i x n, Forall is_u8 b -> uint_loop b v i = Some (x, n) -> n = i + len b ->
  forallb digitb b = true /\ i64 (decimal v b) = i64 x.
Proof.
  induction b as [|c b IH]; intros v i x n Hw E Hn; cbn [uint_loop] in E; [by simplify_eq|].
  apply Forall_cons in Hw as [Hc Hw]. pose proof (len_nonneg b). rewrite len_cons in Hn. case_if; [case_if; [done|]; simplify_eq; lia|].
  case_if; [done|]. breflect. destruct (IH _ _ _ _ Hw E ltac:(lia)) as [Hd Hx].
  assert (48 <= c <= 57) as Hr by (unfold u8, is_u8 in *; lia). assert (u8 (c - 48) = c - 48) as Eu by (unfold u8; apply Z.mod_small; lia).
  split; [cbn [forallb]; rewrite Hd; unfold digitb, between; destruct (48 <=? c) eqn:?, (c <=? 57) eqn:?; breflect; done || lia|].
  rewrite <- Hx, Eu. cbn [decimal]. apply decimal_wraps. symmetry. apply i64_id. unfold is_i64, i64. lia.
Qed.
