(* ===== verification/BytesConv.v ===== *)
(** * Conversions of octets

    [pkg/tools/bytesconv]: the tables of [bytesconv_table.go] and the program that
    generates them, hexadecimal and decimal printing and reading, and the quoting of
    paths and arguments, with the decoding of [web/protocol/args.go] that undoes it. *)

From S2P Require Import Prelude Bytes.

(** ** The generator of the tables

    Each closure of [main] in [bytesconv_table_gen.go] as the function of the index
    it stores. *)

Definition table (f : Z -> Z) : list Z := f <$> (Z.of_nat <$> seq 0 256).

Definition among (s : string) (i : Z) : bool := bool_decide (i ∈ str s).

Definition gen_hex2int (i : Z) : Z :=
  if (i >=? 48) && (i <=? 57) then i - 48
  else if (i >=? 97) && (i <=? 102) then i - 97 + 10
  else if (i >=? 65) && (i <=? 70) then i - 65 + 10
  else 16.

Definition gen_toLower (i : Z) : Z := if (i >=? 65) && (i <=? 90) then i + 32 else i.

Definition gen_toUpper (i : Z) : Z := if (i >=? 97) && (i <=? 122) then i - 32 else i.

Definition gen_quotedArg (i : Z) : Z :=
  if between 97 i 122 then 0
  else if between 65 i 90 then 0
  else if between 48 i 57 then 0
  else if among "-_.~" i then 0
  else 1.

Definition gen_quotedPath (i : Z) : Z := if among "$&+,/:;=@" i then 0 else gen_quotedArg i.

Definition gen_cookieValue (i : Z) : Z :=
  if (i =? 34) || (i =? 59) || (i =? 92) then 0
  else if (32 <=? i) && (i <? 127) then 1 else 0.

Definition gen_fieldValue (i : Z) : Z :=
  if i =? 9 then 1 else if i =? 127 then 0 else if i <? 32 then 0 else 1.

Definition gen_fieldName (i : Z) : Z :=
  if between 97 i 122 then 1
  else if between 65 i 90 then 1
  else if between 48 i 57 then 1
  else if among "!#$%&'*+-.^_`|~" i then 1
  else 0.

(** ** The tables *)

Definition Hex2intTable : list Z :=
  [16; 16; 16; 16; 16; 16; 16; 16; 16; 16; 16; 16; 16; 16; 16; 16; 16; 16; 16; 16; 16; 16; 16; 16; 16; 16; 16; 16; 16; 16; 16; 16;
   16; 16; 16; 16; 16; 16; 16; 16; 16; 16; 16; 16; 16; 16; 16; 16; 0; 1; 2; 3; 4; 5; 6; 7; 8; 9; 16; 16; 16; 16; 16; 16;
   16; 10; 11; 12; 13; 14; 15; 16; 16; 16; 16; 16; 16; 16; 16; 16; 16; 16; 16; 16; 16; 16; 16; 16; 16; 16; 16; 16; 16; 16; 16; 16;
   16; 10; 11; 12; 13; 14; 15; 16; 16; 16; 16; 16; 16; 16; 16; 16; 16; 16; 16; 16; 16; 16; 16; 16; 16; 16; 16; 16; 16; 16; 16; 16;
   16; 16; 16; 16; 16; 16; 16; 16; 16; 16; 16; 16; 16; 16; 16; 16; 16; 16; 16; 16; 16; 16; 16; 16; 16; 16; 16; 16; 16; 16; 16; 16;
   16; 16; 16; 16; 16; 16; 16; 16; 16; 16; 16; 16; 16; 16; 16; 16; 16; 16; 16; 16; 16; 16; 16; 16; 16; 16; 16; 16; 16; 16; 16; 16;
   16; 16; 16; 16; 16; 16; 16; 16; 16; 16; 16; 16; 16; 16; 16; 16; 16; 16; 16; 16; 16; 16; 16; 16; 16; 16; 16; 16; 16; 16; 16; 16;
   16; 16; 16; 16; 16; 16; 16; 16; 16; 16; 16; 16; 16; 16; 16; 16; 16; 16; 16; 16; 16; 16; 16; 16; 16; 16; 16; 16; 16; 16; 16; 16].

Definition ToLowerTable : list Z :=
  [0; 1; 2; 3; 4; 5; 6; 7; 8; 9; 10; 11; 12; 13; 14; 15; 16; 17; 18; 19; 20; 21; 22; 23; 24; 25; 26; 27; 28; 29; 30; 31;
   32; 33; 34; 35; 36; 37; 38; 39; 40; 41; 42; 43; 44; 45; 46; 47; 48; 49; 50; 51; 52; 53; 54; 55; 56; 57; 58; 59; 60; 61; 62; 63;
   64; 97; 98; 99; 100; 101; 102; 103; 104; 105; 106; 107; 108; 109; 110; 111; 112; 113; 114; 115; 116; 117; 118; 119; 120; 121; 122; 91; 92; 93; 94; 95;
   96; 97; 98; 99; 100; 101; 102; 103; 104; 105; 106; 107; 108; 109; 110; 111; 112; 113; 114; 115; 116; 117; 118; 119; 120; 121; 122; 123; 124; 125; 126; 127;
   128; 129; 130; 131; 132; 133; 134; 135; 136; 137; 138; 139; 140; 141; 142; 143; 144; 145; 146; 147; 148; 149; 150; 151; 152; 153; 154; 155; 156; 157; 158; 159;
   160; 161; 162; 163; 164; 165; 166; 167; 168; 169; 170; 171; 172; 173; 174; 175; 176; 177; 178; 179; 180; 181; 182; 183; 184; 185; 186; 187; 188; 189; 190; 191;
   192; 193; 194; 195; 196; 197; 198; 199; 200; 201; 202; 203; 204; 205; 206; 207; 208; 209; 210; 211; 212; 213; 214; 215; 216; 217; 218; 219; 220; 221; 222; 223;
   224; 225; 226; 227; 228; 229; 230; 231; 232; 233; 234; 235; 236; 237; 238; 239; 240; 241; 242; 243; 244; 245; 246; 247; 248; 249; 250; 251; 252; 253; 254; 255].

Definition ToUpperTable : list Z :=
  [0; 1; 2; 3; 4; 5; 6; 7; 8; 9; 10; 11; 12; 13; 14; 15; 16; 17; 18; 19; 20; 21; 22; 23; 24; 25; 26; 27; 28; 29; 30; 31;
   32; 33; 34; 35; 36; 37; 38; 39; 40; 41; 42; 43; 44; 45; 46; 47; 48; 49; 50; 51; 52; 53; 54; 55; 56; 57; 58; 59; 60; 61; 62; 63;
   64; 65; 66; 67; 68; 69; 70; 71; 72; 73; 74; 75; 76; 77; 78; 79; 80; 81; 82; 83; 84; 85; 86; 87; 88; 89; 90; 91; 92; 93; 94; 95;
   96; 65; 66; 67; 68; 69; 70; 71; 72; 73; 74; 75; 76; 77; 78; 79; 80; 81; 82; 83; 84; 85; 86; 87; 88; 89; 90; 123; 124; 125; 126; 127;
   128; 129; 130; 131; 132; 133; 134; 135; 136; 137; 138; 139; 140; 141; 142; 143; 144; 145; 146; 147; 148; 149; 150; 151; 152; 153; 154; 155; 156; 157; 158; 159;
   160; 161; 162; 163; 164; 165; 166; 167; 168; 169; 170; 171; 172; 173; 174; 175; 176; 177; 178; 179; 180; 181; 182; 183; 184; 185; 186; 187; 188; 189; 190; 191;
   192; 193; 194; 195; 196; 197; 198; 199; 200; 201; 202; 203; 204; 205; 206; 207; 208; 209; 210; 211; 212; 213; 214; 215; 216; 217; 218; 219; 220; 221; 222; 223;
   224; 225; 226; 227; 228; 229; 230; 231; 232; 233; 234; 235; 236; 237; 238; 239; 240; 241; 242; 243; 244; 245; 246; 247; 248; 249; 250; 251; 252; 253; 254; 255].

Definition QuotedArgShouldEscapeTable : list Z :=
  [1; 1; 1; 1; 1; 1; 1; 1; 1; 1; 1; 1; 1; 1; 1; 1; 1; 1; 1; 1; 1; 1; 1; 1; 1; 1; 1; 1; 1; 1; 1; 1;
   1; 1; 1; 1; 1; 1; 1; 1; 1; 1; 1; 1; 1; 0; 0; 1; 0; 0; 0; 0; 0; 0; 0; 0; 0; 0; 1; 1; 1; 1; 1; 1;
   1; 0; 0; 0; 0; 0; 0; 0; 0; 0; 0; 0; 0; 0; 0; 0; 0; 0; 0; 0; 0; 0; 0; 0; 0; 0; 0; 1; 1; 1; 1; 0;
   1; 0; 0; 0; 0; 0; 0; 0; 0; 0; 0; 0; 0; 0; 0; 0; 0; 0; 0; 0; 0; 0; 0; 0; 0; 0; 0; 1; 1; 1; 0; 1;
   1; 1; 1; 1; 1; 1; 1; 1; 1; 1; 1; 1; 1; 1; 1; 1; 1; 1; 1; 1; 1; 1; 1; 1; 1; 1; 1; 1; 1; 1; 1; 1;
   1; 1; 1; 1; 1; 1; 1; 1; 1; 1; 1; 1; 1; 1; 1; 1; 1; 1; 1; 1; 1; 1; 1; 1; 1; 1; 1; 1; 1; 1; 1; 1;
   1; 1; 1; 1; 1; 1; 1; 1; 1; 1; 1; 1; 1; 1; 1; 1; 1; 1; 1; 1; 1; 1; 1; 1; 1; 1; 1; 1; 1; 1; 1; 1;
   1; 1; 1; 1; 1; 1; 1; 1; 1; 1; 1; 1; 1; 1; 1; 1; 1; 1; 1; 1; 1; 1; 1; 1; 1; 1; 1; 1; 1; 1; 1; 1].

Definition QuotedPathShouldEscapeTable : list Z :=
  [1; 1; 1; 1; 1; 1; 1; 1; 1; 1; 1; 1; 1; 1; 1; 1; 1; 1; 1; 1; 1; 1; 1; 1; 1; 1; 1; 1; 1; 1; 1; 1;
   1; 1; 1; 1; 0; 1; 0; 1; 1; 1; 1; 0; 0; 0; 0; 0; 0; 0; 0; 0; 0; 0; 0; 0; 0; 0; 0; 0; 1; 0; 1; 1;
   0; 0; 0; 0; 0; 0; 0; 0; 0; 0; 0; 0; 0; 0; 0; 0; 0; 0; 0; 0; 0; 0; 0; 0; 0; 0; 0; 1; 1; 1; 1; 0;
   1; 0; 0; 0; 0; 0; 0; 0; 0; 0; 0; 0; 0; 0; 0; 0; 0; 0; 0; 0; 0; 0; 0; 0; 0; 0; 0; 1; 1; 1; 0; 1;
   1; 1; 1; 1; 1; 1; 1; 1; 1; 1; 1; 1; 1; 1; 1; 1; 1; 1; 1; 1; 1; 1; 1; 1; 1; 1; 1; 1; 1; 1; 1; 1;
   1; 1; 1; 1; 1; 1; 1; 1; 1; 1; 1; 1; 1; 1; 1; 1; 1; 1; 1; 1; 1; 1; 1; 1; 1; 1; 1; 1; 1; 1; 1; 1;
   1; 1; 1; 1; 1; 1; 1; 1; 1; 1; 1; 1; 1; 1; 1; 1; 1; 1; 1; 1; 1; 1; 1; 1; 1; 1; 1; 1; 1; 1; 1; 1;
   1; 1; 1; 1; 1; 1; 1; 1; 1; 1; 1; 1; 1; 1; 1; 1; 1; 1; 1; 1; 1; 1; 1; 1; 1; 1; 1; 1; 1; 1; 1; 1].

Definition ValidCookieValueTable : list Z :=
  [0; 0; 0; 0; 0; 0; 0; 0; 0; 0; 0; 0; 0; 0; 0; 0; 0; 0; 0; 0; 0; 0; 0; 0; 0; 0; 0; 0; 0; 0; 0; 0;
   1; 1; 0; 1; 1; 1; 1; 1; 1; 1; 1; 1; 1; 1; 1; 1; 1; 1; 1; 1; 1; 1; 1; 1; 1; 1; 1; 0; 1; 1; 1; 1;
   1; 1; 1; 1; 1; 1; 1; 1; 1; 1; 1; 1; 1; 1; 1; 1; 1; 1; 1; 1; 1; 1; 1; 1; 1; 1; 1; 1; 0; 1; 1; 1;
   1; 1; 1; 1; 1; 1; 1; 1; 1; 1; 1; 1; 1; 1; 1; 1; 1; 1; 1; 1; 1; 1; 1; 1; 1; 1; 1; 1; 1; 1; 1; 0;
   0; 0; 0; 0; 0; 0; 0; 0; 0; 0; 0; 0; 0; 0; 0; 0; 0; 0; 0; 0; 0; 0; 0; 0; 0; 0; 0; 0; 0; 0; 0; 0;
   0; 0; 0; 0; 0; 0; 0; 0; 0; 0; 0; 0; 0; 0; 0; 0; 0; 0; 0; 0; 0; 0; 0; 0; 0; 0; 0; 0; 0; 0; 0; 0;
   0; 0; 0; 0; 0; 0; 0; 0; 0; 0; 0; 0; 0; 0; 0; 0; 0; 0; 0; 0; 0; 0; 0; 0; 0; 0; 0; 0; 0; 0; 0; 0;
   0; 0; 0; 0; 0; 0; 0; 0; 0; 0; 0; 0; 0; 0; 0; 0; 0; 0; 0; 0; 0; 0; 0; 0; 0; 0; 0; 0; 0; 0; 0; 0].

Definition ValidHeaderFieldValueTable : list Z :=
  [0; 0; 0; 0; 0; 0; 0; 0; 0; 1; 0; 0; 0; 0; 0; 0; 0; 0; 0; 0; 0; 0; 0; 0; 0; 0; 0; 0; 0; 0; 0; 0;
   1; 1; 1; 1; 1; 1; 1; 1; 1; 1; 1; 1; 1; 1; 1; 1; 1; 1; 1; 1; 1; 1; 1; 1; 1; 1; 1; 1; 1; 1; 1; 1;
   1; 1; 1; 1; 1; 1; 1; 1; 1; 1; 1; 1; 1; 1; 1; 1; 1; 1; 1; 1; 1; 1; 1; 1; 1; 1; 1; 1; 1; 1; 1; 1;
   1; 1; 1; 1; 1; 1; 1; 1; 1; 1; 1; 1; 1; 1; 1; 1; 1; 1; 1; 1; 1; 1; 1; 1; 1; 1; 1; 1; 1; 1; 1; 0;
   1; 1; 1; 1; 1; 1; 1; 1; 1; 1; 1; 1; 1; 1; 1; 1; 1; 1; 1; 1; 1; 1; 1; 1; 1; 1; 1; 1; 1; 1; 1; 1;
   1; 1; 1; 1; 1; 1; 1; 1; 1; 1; 1; 1; 1; 1; 1; 1; 1; 1; 1; 1; 1; 1; 1; 1; 1; 1; 1; 1; 1; 1; 1; 1;
   1; 1; 1; 1; 1; 1; 1; 1; 1; 1; 1; 1; 1; 1; 1; 1; 1; 1; 1; 1; 1; 1; 1; 1; 1; 1; 1; 1; 1; 1; 1; 1;
   1; 1; 1; 1; 1; 1; 1; 1; 1; 1; 1; 1; 1; 1; 1; 1; 1; 1; 1; 1; 1; 1; 1; 1; 1; 1; 1; 1; 1; 1; 1; 1].

Definition ValidHeaderFieldNameTable : list Z :=
  [0; 0; 0; 0; 0; 0; 0; 0; 0; 0; 0; 0; 0; 0; 0; 0; 0; 0; 0; 0; 0; 0; 0; 0; 0; 0; 0; 0; 0; 0; 0; 0;
   0; 1; 0; 1; 1; 1; 1; 1; 0; 0; 1; 1; 0; 1; 1; 0; 1; 1; 1; 1; 1; 1; 1; 1; 1; 1; 0; 0; 0; 0; 0; 0;
   0; 1; 1; 1; 1; 1; 1; 1; 1; 1; 1; 1; 1; 1; 1; 1; 1; 1; 1; 1; 1; 1; 1; 1; 1; 1; 1; 0; 0; 0; 1; 1;
   1; 1; 1; 1; 1; 1; 1; 1; 1; 1; 1; 1; 1; 1; 1; 1; 1; 1; 1; 1; 1; 1; 1; 1; 1; 1; 1; 0; 1; 0; 1; 0;
   0; 0; 0; 0; 0; 0; 0; 0; 0; 0; 0; 0; 0; 0; 0; 0; 0; 0; 0; 0; 0; 0; 0; 0; 0; 0; 0; 0; 0; 0; 0; 0;
   0; 0; 0; 0; 0; 0; 0; 0; 0; 0; 0; 0; 0; 0; 0; 0; 0; 0; 0; 0; 0; 0; 0; 0; 0; 0; 0; 0; 0; 0; 0; 0;
   0; 0; 0; 0; 0; 0; 0; 0; 0; 0; 0; 0; 0; 0; 0; 0; 0; 0; 0; 0; 0; 0; 0; 0; 0; 0; 0; 0; 0; 0; 0; 0;
   0; 0; 0; 0; 0; 0; 0; 0; 0; 0; 0; 0; 0; 0; 0; 0; 0; 0; 0; 0; 0; 0; 0; 0; 0; 0; 0; 0; 0; 0; 0; 0].

(** [t[c]]; an octet is always within the table. *)
Definition tab (t : list Z) (c : Z) : Z := default 0 (t !! Z.to_nat c).

(** ** Lower case, hexadecimal, decimal *)

Definition LowercaseBytes (b : bytes) : bytes := tab ToLowerTable <$> b.

Definition upperhex : bytes := str "0123456789ABCDEF".
Definition lowerhex : bytes := str "0123456789abcdef".

(** The loops over the hexadecimal digits of a 64-bit number, which are at most
    sixteen: [fuel] is 16. *)
Fixpoint hexlen_loop (fuel : nat) (n i : Z) : Z :=
  match fuel with
  | O => i
  | S fuel => if n >? 0 then hexlen_loop fuel (Z.shiftr n 4) (i + 1) else i
  end.

Definition EncodedIntHexLen (n : Z) : Z := if n =? 0 then 1 else hexlen_loop 16 n 0.

Fixpoint hex_loop (fuel : nat) (n : Z) (tmp : bytes) : bytes :=
  match fuel with
  | O => tmp
  | S fuel => if n >? 0 then hex_loop fuel (Z.shiftr n 4) (tab lowerhex (Z.land n 15) :: tmp) else tmp
  end.

Definition AppendIntHex (b : bytes) (n : Z) : bytes :=
  if n =? 0 then b ++ [48] else b ++ hex_loop 16 n [].

Definition maxHexIntChars : Z := 15.

Inductive hexErr : Type := errEmptyHexNum | errTooLargeHexNum | errPeek.

(** ReadHexInt on what the reader still holds; Peek fails at its end.  The answer
    and the octets left. *)
Fixpoint readhex_loop (r : bytes) (n i : Z) : result hexErr Z * bytes :=
  match r with
  | [] => (if i >? 0 then Ok n else Err errPeek, [])
  | c :: r' =>
      let k := tab Hex2intTable c in
      if k =? 16 then
        if i =? 0 then (Err errEmptyHexNum, r') else (Ok n, r)
      else if i >=? maxHexIntChars then (Err errTooLargeHexNum, r')
      else readhex_loop r' (Z.lor (i64 (Z.shiftl n 4)) k) (i + 1)
  end.

Definition ReadHexInt (r : bytes) : result hexErr Z * bytes := readhex_loop r 0 0.

(** The loop of AppendUint; an int has at most nineteen digits. *)
Fixpoint uint_digits (fuel : nat) (n : Z) (buf : bytes) : bytes :=
  match fuel with
  | O => buf
  | S fuel =>
      if n >=? 10
      then let q := Z.quot n 10 in uint_digits fuel q (u8 (48 + u8 (n - q * 10)) :: buf)
      else u8 (48 + u8 n) :: buf
  end.

Definition AppendUint (dst : bytes) (n : Z) : outcome bytes :=
  if n <? 0 then Panic else Ret (dst ++ uint_digits 20 n []).

(** ** Quoting *)

Definition quote_octet (c : Z) : bytes := [37; tab upperhex (Z.shiftr c 4); tab upperhex (Z.land c 15)].

Definition AppendQuotedPath (dst src : bytes) : bytes :=
  if (len src =? 1) && bool_decide (head src = Some 42) then dst ++ [42]
  else dst ++ (src ≫= fun c => if negb (tab QuotedPathShouldEscapeTable c =? 0) then quote_octet c else [c]).

Definition AppendQuotedArg (dst src : bytes) : bytes :=
  dst ++ (src ≫= fun c => if c =? 32 then [43]
                          else if negb (tab QuotedArgShouldEscapeTable c =? 0) then quote_octet c
                          else [c]).

(** ** Decoding (args.go) *)

(** The slow path of decodeArgAppend, with ['+'] as a space if [plus]. *)
Fixpoint decode_loop (plus : bool) (src : bytes) : bytes :=
  match src with
  | [] => []
  | c :: t =>
      if c =? 37 then
        match t with
        | a :: b :: t' =>
            let x2 := tab Hex2intTable b in
            let x1 := tab Hex2intTable a in
            if (x1 =? 16) || (x2 =? 16) then 37 :: decode_loop plus t
            else Z.lor (u8 (Z.shiftl x1 4)) x2 :: decode_loop plus t'
        | _ => src
        end
      else if plus && (c =? 43) then 32 :: decode_loop plus t
      else c :: decode_loop plus t
  end.

Definition decodeArgAppend (dst src : bytes) : bytes :=
  if (IndexByte src 37 <? 0) && (IndexByte src 43 <? 0) then dst ++ src
  else dst ++ decode_loop true src.

Definition decodeArgAppendNoPlus (dst src : bytes) : bytes :=
  if IndexByte src 37 <? 0 then dst ++ src else dst ++ decode_loop false src.

(** ** Facts by inspection of every octet *)

Lemma octets_all (P : Z -> bool) :
  forallb P (Z.of_nat <$> seq 0 256) = true -> forall c, is_u8 c -> P c = true.
Proof.
  intros H c Hc. rewrite forallb_forall in H. apply H. apply list_elem_of_In, list_elem_of_fmap.
  exists (Z.to_nat c). unfold is_u8 in Hc. split; [lia|]. apply elem_of_seq. lia.
Qed.

(** [octets P] checks the boolean fact [P] at the octet of the goal. *)
Ltac octets P := apply (octets_all P); [vm_compute; reflexivity|done].

Definition quote_reads (c : Z) : bool :=
  let x1 := tab Hex2intTable (tab upperhex (Z.shiftr c 4)) in
  let x2 := tab Hex2intTable (tab upperhex (Z.land c 15)) in
  negb (x1 =? 16) && negb (x2 =? 16) && (Z.lor (u8 (Z.shiftl x1 4)) x2 =? c).

Lemma decode_quoted plus c t : is_u8 c -> decode_loop plus (quote_octet c ++ t) = c :: decode_loop plus t.
Proof.
  intros Hc. assert (H : quote_reads c = true) by octets quote_reads. unfold quote_reads in H.
  apply andb_true_iff in H as [H H3]. apply andb_true_iff in H as [H1 H2]. apply negb_true_iff in H1, H2.
  apply Z.eqb_eq in H3. cbn [quote_octet app decode_loop Z.eqb Pos.eqb]. rewrite H1, H2. cbn [orb]. by rewrite H3.
Qed.

(** The octets that are not escaped stand for themselves. *)
Lemma unescaped_path c : is_u8 c -> tab QuotedPathShouldEscapeTable c = 0 -> c <> 37.
Proof. intros _ H ->. by vm_compute in H. Qed.

Lemma unescaped_arg c : is_u8 c -> tab QuotedArgShouldEscapeTable c = 0 -> c <> 37 /\ c <> 43.
Proof. intros _ H. split; intros ->; by vm_compute in H. Qed.

Lemma decode_plain plus src : 37 ∉ src -> (plus = true -> 43 ∉ src) -> decode_loop plus src = src.
Proof.
  induction src as [|c t IH]; intros H1 H2; [done|]. cbn [decode_loop].
  apply not_elem_of_cons in H1 as [Hc H1]. destruct (c =? 37) eqn:E1; breflect; [congruence|].
  destruct (plus && (c =? 43)) eqn:E2.
  - apply andb_true_iff in E2 as [-> E2]. apply Z.eqb_eq in E2 as ->. exfalso. apply H2; [done|]. left.
  - f_equal. apply IH; [done|]. intros Hp. specialize (H2 Hp). set_solver.
Qed.

Lemma IndexByte_neg b c : (IndexByte b c <? 0) = bool_decide (c ∉ b).
Proof.
  pose proof (IndexByte_none b c) as H. case_bool_decide as E.
  - apply Z.ltb_lt. rewrite (proj2 H E). lia.
  - apply Z.ltb_ge. assert (IndexByte b c <> -1) by tauto.
    assert (-1 <= IndexByte b c) by (clear; induction b; simpl; repeat case_if; breflect; lia). lia.
Qed.

Lemma decodeArgAppend_loop dst src : decodeArgAppend dst src = dst ++ decode_loop true src.
Proof.
  unfold decodeArgAppend. rewrite !IndexByte_neg. case_bool_decide as E1; [|done]. case_bool_decide as E2; [|done].
  cbn [andb]. by rewrite decode_plain.
Qed.

Lemma decodeArgAppendNoPlus_loop dst src : decodeArgAppendNoPlus dst src = dst ++ decode_loop false src.
Proof. unfold decodeArgAppendNoPlus. rewrite IndexByte_neg. case_bool_decide; [|done]. by rewrite decode_plain. Qed.

(** Decoding undoes the quoting of arguments and of paths. *)
Lemma decode_quoted_arg src : wf_bytes src -> decodeArgAppend [] (AppendQuotedArg [] src) = src.
Proof.
  intros Hw. rewrite decodeArgAppend_loop. unfold AppendQuotedArg. cbn [app].
  induction Hw as [|c t Hc _ IH]; [done|]. cbn [mbind list_bind].
  destruct (c =? 32) eqn:E1; breflect.
  { subst. cbn [app decode_loop Z.eqb Pos.eqb andb]. by rewrite IH. }
  destruct (tab QuotedArgShouldEscapeTable c =? 0) eqn:E2; cbn [negb].
  - breflect. destruct (unescaped_arg c Hc E2) as [H1 H2]. cbn [app decode_loop].
    destruct (c =? 37) eqn:E3; breflect; [done|]. destruct (c =? 43) eqn:E4; breflect; [done|]. cbn [andb]. by rewrite IH.
  - rewrite decode_quoted by done. by rewrite IH.
Qed.

Lemma decode_quoted_path src : wf_bytes src -> decodeArgAppendNoPlus [] (AppendQuotedPath [] src) = src.
Proof.
  intros Hw. rewrite decodeArgAppendNoPlus_loop. unfold AppendQuotedPath. cbn [app].
  destruct ((len src =? 1) && _) eqn:E.
  { apply andb_true_iff in E as [El Eh]. apply bool_decide_eq_true in Eh. apply Z.eqb_eq in El.
    destruct src as [|c [|d t]]; [done|by injection Eh as ->|]. pose proof (len_nonneg t). rewrite !len_cons in El. lia. }
  clear E. induction Hw as [|c t Hc _ IH]; [done|]. cbn [mbind list_bind].
  destruct (tab QuotedPathShouldEscapeTable c =? 0) eqn:E2; cbn [negb].
  - breflect. pose proof (unescaped_path c Hc E2). cbn [app decode_loop].
    destruct (c =? 37) eqn:E3; breflect; [done|]. cbn [andb]. by rewrite IH.
  - rewrite decode_quoted by done. by rewrite IH.
Qed.

(** ** Numbers *)

Lemma shiftr4 n : Z.shiftr n 4 = n / 16.
Proof. by rewrite Z.shiftr_div_pow2 by lia. Qed.

Lemma land15 n : Z.land n 15 = n mod 16.
Proof. change 15 with (Z.ones 4). by rewrite Z.land_ones by lia. Qed.

Definition hex_reads (d : Z) : bool := (tab Hex2intTable (tab lowerhex d) =? d) || (d >=? 16).

Lemma hex_digit_reads d : 0 <= d < 16 -> tab Hex2intTable (tab lowerhex d) = d.
Proof.
  intros Hd. assert (is_u8 d) by width. assert (H1 : hex_reads d = true) by octets hex_reads.
  unfold hex_reads in H1. apply orb_true_iff in H1 as [H1|H1]; breflect; [done|lia].
Qed.

Lemma hexlen_shift f n i : hexlen_loop f n i = i + hexlen_loop f n 0.
Proof.
  revert n i. induction f as [|f IH]; intros n i; cbn [hexlen_loop]; [lia|]. case_if; [|lia].
  rewrite IH, (IH _ (0 + 1)). lia.
Qed.

Lemma hexlen_bound f n m : 0 <= n < 16 ^ Z.of_nat m -> 0 <= hexlen_loop f n 0 <= Z.of_nat m.
Proof.
  revert n m. induction f as [|f IH]; intros n m Hn; cbn [hexlen_loop]; [lia|].
  destruct (n >? 0) eqn:E; breflect; [|lia]. rewrite hexlen_shift, shiftr4.
  destruct m as [|m]; [simpl in Hn; lia|]. rewrite Nat2Z.inj_succ, Z.pow_succ_r in Hn by lia.
  specialize (IH (n / 16) m). lia.
Qed.

Lemma readhex_step d r n i : 0 <= d < 16 -> 0 <= n < 16 ^ 14 -> i < maxHexIntChars ->
  readhex_loop (tab lowerhex d :: r) n i = readhex_loop r (n * 16 + d) (i + 1).
Proof.
  intros Hd Hn Hi. cbn [readhex_loop]. rewrite hex_digit_reads by done.
  destruct (d =? 16) eqn:E1; breflect; [lia|]. destruct (i >=? maxHexIntChars) eqn:E2; breflect; [lia|].
  f_equal. assert (E3 : Z.shiftl n 4 = n * 16) by (by rewrite Z.shiftl_mul_pow2 by lia).
  rewrite i64_id by (rewrite E3; width). by apply lor_shiftl_add.
Qed.

Lemma hex_loop_reads f n tmp rest : 0 <= n < 16 ^ Z.of_nat f -> n < 16 ^ 15 ->
  readhex_loop (hex_loop f n tmp ++ rest) 0 0 = readhex_loop (tmp ++ rest) n (hexlen_loop f n 0).
Proof.
  revert n tmp. induction f as [|f IH]; intros n tmp Hn H15; cbn [hex_loop hexlen_loop].
  { simpl in Hn. by assert (n = 0) as -> by lia. }
  rewrite Nat2Z.inj_succ, Z.pow_succ_r in Hn by lia.
  destruct (n >? 0) eqn:E; breflect; [|by assert (n = 0) as -> by lia].
  rewrite IH by (rewrite shiftr4; lia). cbn [app]. rewrite (hexlen_shift f (Z.shiftr n 4) (0 + 1)), shiftr4, land15.
  pose proof (hexlen_bound f (n / 16) 14). rewrite readhex_step; [|lia|lia|unfold maxHexIntChars; lia].
  f_equal; lia.
Qed.

Lemma hexlen_pos f n : 0 < n -> 0 < hexlen_loop (S f) n 0.
Proof.
  intros Hn. cbn [hexlen_loop]. destruct (n >? 0) eqn:E; breflect; [|lia]. rewrite hexlen_shift, shiftr4.
  destruct (pow10_between n Hn) as [w Hw]. pose proof (hexlen_bound f (n / 16) (S w)) as Hb.
  assert (10 ^ Z.of_nat (S w) <= 16 ^ Z.of_nat (S w)) by (apply Z.pow_le_mono_l; lia). lia.
Qed.

(** Reading stops at what is not a hexadecimal digit. *)
Lemma readhex_stop r n i : 0 < i -> match r with [] => True | c :: _ => tab Hex2intTable c = 16 end ->
  readhex_loop r n i = (Ok n, r).
Proof.
  intros Hi Hr. destruct r as [|c r]; cbn [readhex_loop].
  - by destruct (i >? 0) eqn:E; breflect; [|lia].
  - rewrite Hr. cbn [Z.eqb Pos.eqb]. by destruct (i =? 0) eqn:E; breflect; [lia|].
Qed.

Lemma hex_loop_len f n tmp : len (hex_loop f n tmp) = hexlen_loop f n (len tmp).
Proof.
  revert n tmp. induction f as [|f IH]; intros n tmp; cbn [hex_loop hexlen_loop]; [done|].
  case_if; [|done]. rewrite IH, len_cons. f_equal. lia.
Qed.

(** A chunk size printed by AppendIntHex is read back by ReadHexInt, which leaves
    what follows if that is not a hexadecimal digit; EncodedIntHexLen is its length.
    Fifteen digits are read at most, so sizes from 16^15 on are refused. *)
Theorem hex_roundtrip n rest :
  0 <= n < 16 ^ 15 -> match rest with [] => True | c :: _ => tab Hex2intTable c = 16 end ->
  ReadHexInt (AppendIntHex [] n ++ rest) = (Ok n, rest) /\ len (AppendIntHex [] n) = EncodedIntHexLen n.
Proof.
  intros Hn Hr. unfold AppendIntHex, EncodedIntHexLen, ReadHexInt.
  destruct (n =? 0) eqn:E; breflect; cbn [app].
  - subst. split; [|done]. change 48 with (tab lowerhex 0). rewrite readhex_step by (unfold maxHexIntChars; lia).
    by rewrite readhex_stop.
  - split; [|apply hex_loop_len]. rewrite hex_loop_reads by (simpl; lia). cbn [app]. apply readhex_stop; [|done].
    apply (hexlen_pos 15). lia.
Qed.

Lemma hex_roundtrip_witness : ReadHexInt (AppendIntHex [] 65535 ++ [13; 10]) = (Ok 65535, [13; 10]).
Proof. apply (hex_roundtrip 65535 [13; 10]); [lia|reflexivity]. Defined.

(** Too many digits. *)
Lemma hex_too_large : ReadHexInt (AppendIntHex [] (16 ^ 15)) = (Err errTooLargeHexNum, []).
Proof. reflexivity. Qed.

Lemma itoa_step n : 10 <= n -> itoa n = itoa (n / 10) ++ [48 + n mod 10].
Proof.
  intros Hn. destruct (pow10_between (n / 10)) as [w Hw]; [lia|].
  rewrite (itoa_digits w (n / 10)), (itoa_digits (S w) n) by (rewrite ?pow10_S in *; lia). done.
Qed.

Lemma itoa_digit n : 0 <= n < 10 -> itoa n = [48 + n].
Proof.
  intros Hn. destruct (decide (n = 0)) as [->|]; [done|]. rewrite (itoa_digits 0) by (simpl; lia).
  cbn [digits app]. by rewrite Z.mod_small by lia.
Qed.

Lemma uint_digits_itoa f n buf : 0 <= n < 10 ^ Z.of_nat (S f) -> uint_digits (S f) n buf = itoa n ++ buf.
Proof.
  revert n buf. induction f as [|f IH]; intros n buf Hn; rewrite pow10_S in Hn.
  - simpl in Hn. rewrite itoa_digit by lia. cbn [uint_digits].
    destruct (n >=? 10) eqn:E; breflect; [lia|]. by rewrite (u8_id n), u8_id by width.
  - remember (S f) as f' eqn:Ef. cbn [uint_digits]. destruct (n >=? 10) eqn:E; breflect.
    + rewrite Z.quot_div_nonneg by lia. subst f'. rewrite IH, (itoa_step n), <- app_assoc by lia. cbn [app].
      assert (E2 : n - n / 10 * 10 = n mod 10) by lia. by rewrite E2, (u8_id (n mod 10)), u8_id by width.
    + rewrite itoa_digit by lia. by rewrite (u8_id n), u8_id by width.
Qed.

(** AppendUint appends the decimal numeral of every int that is not negative, and
    panics on the others. *)
Theorem AppendUint_decimal dst n : is_i64 n ->
  AppendUint dst n = if n <? 0 then Panic else Ret (dst ++ itoa n).
Proof.
  intros Hn. unfold AppendUint. destruct (n <? 0) eqn:E; breflect; [done|].
  rewrite uint_digits_itoa, app_nil_r by (simpl; width). done.
Qed.

(** ** The tables are what the generator computes *)

(** Every table of bytesconv_table.go is the one its generator computes. *)
Theorem tables_generated :
  Hex2intTable = table gen_hex2int /\ ToLowerTable = table gen_toLower /\ ToUpperTable = table gen_toUpper /\
  QuotedArgShouldEscapeTable = table gen_quotedArg /\ QuotedPathShouldEscapeTable = table gen_quotedPath /\
  ValidCookieValueTable = table gen_cookieValue /\ ValidHeaderFieldValueTable = table gen_fieldValue /\
  ValidHeaderFieldNameTable = table gen_fieldName.
Proof. repeat split; vm_compute; reflexivity. Qed.
