(* ===== verification/Args.v ===== *)
(** * Query arguments

    [web/protocol/args.go]: the arguments of a query string, kept in a slice whose
    backing array is reused.  The array and the length of the slice are modelled, so
    that entries left over from earlier use are there to be read by mistake; the
    octets inside an entry are values. *)

From S2P Require Import Prelude Bytes BytesConv.

Record argsKV := mkKV {
  kv_key : bytes;
  kv_value : bytes;
  kv_noValue : bool
}.

#[export] Instance argsKV_eq_dec : EqDecision argsKV.
Proof. solve_decision. Defined.

(** A slice of entries: its backing array, as long as its capacity, and its length. *)
Record kvs := mkKVs {
  kv_store : list argsKV;
  kv_len : nat
}.

Definition entries (h : kvs) : list argsKV := take (kv_len h) (kv_store h).

Definition kvs_ok (h : kvs) : Prop := (kv_len h <= length (kv_store h))%nat.

(** Writes entry [i]; [i] is below the capacity in every use. *)
Definition put_entry (h : kvs) (i : nat) (kv : argsKV) : kvs := mkKVs (<[i := kv]> (kv_store h)) (kv_len h).

Section Args.
(** How much room append leaves when it moves a slice of this many entries. *)
Context (spare : nat -> nat).

Definition zeroKV : argsKV := mkKV [] [] false.

(** The new entry holds what the array held. *)
Definition allocArg (h : kvs) : kvs * nat :=
  let n := kv_len h in
  if (n <? length (kv_store h))%nat then (mkKVs (kv_store h) (S n), n)
  else (mkKVs (entries h ++ zeroKV :: replicate (spare n) zeroKV) (S n), n).

Definition releaseArg (h : kvs) : kvs := mkKVs (kv_store h) (kv_len h - 1).

Definition appendArg (h : kvs) (key value : bytes) (noValue : bool) : kvs :=
  let '(h, n) := allocArg h in
  put_entry h n (mkKV key (if noValue then [] else value) noValue).

(** The loop of setArg: the entries with the first of this key replaced. *)
Fixpoint set_loop (l : list argsKV) (key value : bytes) (noValue : bool) : option (list argsKV) :=
  match l with
  | [] => None
  | kv :: l =>
      if bytes_eqb key (kv_key kv) then Some (mkKV (kv_key kv) (if noValue then [] else value) noValue :: l)
      else (fun l => kv :: l) <$> set_loop l key value noValue
  end.

Definition setArg (h : kvs) (key value : bytes) (noValue : bool) : kvs :=
  match set_loop (entries h) key value noValue with
  | Some l => mkKVs (l ++ drop (kv_len h) (kv_store h)) (kv_len h)
  | None => appendArg h key value noValue
  end.

(** The loop of updateArgBytes: gives a value to the first entry of this key without one. *)
Fixpoint update_loop (l : list argsKV) (key value : bytes) : list argsKV :=
  match l with
  | [] => []
  | kv :: l => if kv_noValue kv && bytes_eqb key (kv_key kv) then mkKV (kv_key kv) value false :: l
               else kv :: update_loop l key value
  end.

Definition updateArgBytes (h : kvs) (key value : bytes) : kvs :=
  mkKVs (update_loop (entries h) key value ++ drop (kv_len h) (kv_store h)) (kv_len h).

(** The loop of delAllArgs: [n] is the length of the slice, and every entry of the
    key moves behind it. *)
Fixpoint del_loop (fuel : nat) (store : list argsKV) (i n : nat) (key : bytes) : kvs :=
  match fuel with
  | O => mkKVs store n
  | S fuel =>
      if (i <? n)%nat then
        match store !! i with
        | Some kv =>
            if bytes_eqb key (kv_key kv)
            then del_loop fuel (take i store ++ take (n - S i) (drop (S i) store) ++ kv :: drop n store) i (n - 1) key
            else del_loop fuel store (S i) n key
        | None => mkKVs store n
        end
      else mkKVs store n
  end.

Definition delAllArgs (h : kvs) (key : bytes) : kvs := del_loop (kv_len h) (kv_store h) 0 (kv_len h) key.

Definition copyKV (kv : argsKV) : argsKV :=
  mkKV (kv_key kv) (if kv_noValue kv then [] else kv_value kv) (kv_noValue kv).

Definition copyArgs (dst src : kvs) : kvs :=
  let n := kv_len src in
  let store := if (length (kv_store dst) <? n)%nat
               then let moved := take n (entries dst) in moved ++ replicate (n - length moved) zeroKV
               else kv_store dst in
  mkKVs ((copyKV <$> entries src) ++ drop n store) n.

(** ** Looking up *)

Fixpoint peekArg (l : list argsKV) (k : bytes) : option bytes :=
  match l with
  | [] => None
  | kv :: l => if bytes_eqb (kv_key kv) k then Some (kv_value kv) else peekArg l k
  end.

Definition peekArgStr (h : kvs) (k : bytes) : bytes := default [] (peekArg (entries h) k).
Definition peekArgStrExists (h : kvs) (k : bytes) : bytes * bool :=
  match peekArg (entries h) k with Some v => (v, true) | None => ([], false) end.

Fixpoint has_loop (l : list argsKV) (k : bytes) : bool :=
  match l with
  | [] => false
  | kv :: l => if bytes_eqb k (kv_key kv) then true else has_loop l k
  end.
Definition hasArg (h : kvs) (k : bytes) : bool := has_loop (entries h) k.

Fixpoint peekAll_loop (dst : list bytes) (l : list argsKV) (k : bytes) : list bytes :=
  match l with
  | [] => dst
  | kv :: l => peekAll_loop (if bytes_eqb (kv_key kv) k then dst ++ [kv_value kv] else dst) l k
  end.
Definition PeekAll (h : kvs) (k : bytes) : list bytes := peekAll_loop [] (entries h) k.

(** ** Parsing *)

(** The loop of next over [rest], the part of [b] from [i] on. *)
Fixpoint next_loop (b rest : bytes) (i : Z) (isKey : bool) (k : Z) (key : bytes) : argsKV * bytes :=
  match rest with
  | c :: t =>
      if c =? 61 then
        if isKey then next_loop b t (i + 1) false (i + 1) (decodeArgAppend [] (ztake i b))
        else next_loop b t (i + 1) isKey k key
      else if c =? 38 then
        (if isKey then mkKV (decodeArgAppend [] (ztake i b)) [] true
         else mkKV key (decodeArgAppend [] (zdrop k (ztake i b))) false,
         zdrop (i + 1) b)
      else next_loop b t (i + 1) isKey k key
  | [] =>
      (if isKey then mkKV (decodeArgAppend [] b) [] true
       else mkKV key (decodeArgAppend [] (zdrop k b)) false,
       zdrop (len b) b)
  end.

Definition next (b : bytes) : option (argsKV * bytes) :=
  if len b =? 0 then None else Some (next_loop b b 0 true 0 []).

(** The loop of ParseBytes; [n] is the entry under way. *)
Fixpoint parse_loop (fuel : nat) (h : kvs) (n : nat) (b : bytes) : outcome kvs :=
  match fuel with
  | O => OutOfFuel
  | S fuel =>
      match next b with
      | None => Ret h
      | Some (kv, b) =>
          let h := put_entry h n kv in
          if (len (kv_key kv) >? 0) || (len (kv_value kv) >? 0)
          then let '(h, n) := allocArg h in parse_loop fuel h n b
          else parse_loop fuel h n b
      end
  end.

(** An argument takes an octet at least. *)
Definition ParseBytes (h : kvs) (b : bytes) : outcome kvs :=
  let h := mkKVs (kv_store h) 0 in
  let '(h, n) := allocArg h in
  run h <- parse_loop (S (length b)) h n b;
  Ret (releaseArg h).

(** ** Printing *)

Fixpoint append_loop (dst : bytes) (l : list argsKV) : bytes :=
  match l with
  | [] => dst
  | kv :: l =>
      let dst := AppendQuotedArg dst (kv_key kv) in
      let dst := if negb (kv_noValue kv) then
                   let dst := dst ++ [61] in
                   if len (kv_value kv) >? 0 then AppendQuotedArg dst (kv_value kv) else dst
                 else dst in
      append_loop (match l with [] => dst | _ => dst ++ [38] end) l
  end.

Definition AppendBytes (h : kvs) (dst : bytes) : bytes := append_loop dst (entries h).

(** ** The methods *)

Definition Set_ (h : kvs) (key value : bytes) : kvs := setArg h key value false.
Definition Add (h : kvs) (key value : bytes) : kvs := appendArg h key value false.
Definition Del (h : kvs) (key : bytes) : kvs := delAllArgs h key.
Definition Reset (h : kvs) : kvs := mkKVs (kv_store h) 0.
Definition CopyTo (h dst : kvs) : kvs := copyArgs (Reset dst) h.
Definition Len (h : kvs) : nat := kv_len h.
Definition QueryString (h : kvs) : bytes := AppendBytes h [].

(** visitArgs with a visitor that keeps its own state. *)
Definition visitArgs {S0} (h : kvs) (f : S0 -> bytes -> bytes -> S0) (st : S0) : S0 :=
  foldl (fun st kv => f st (kv_key kv) (kv_value kv)) st (entries h).
End Args.
