(* ===== verification/ArgsSpec.v ===== *)
(** * Query arguments: what they promise

    The slice with its reused array refined to a list of entries, ParseBytes to the
    splitting of a query at ['&'] and ['='], and the round trip from AppendBytes to
    ParseBytes. *)

From S2P Require Import Prelude Bytes BytesConv Args.

(** ** Splitting *)

(** strings.Cut at an octet. *)
Fixpoint cut (c : Z) (s : bytes) : bytes * option bytes :=
  match s with
  | [] => ([], None)
  | x :: t => if x =? c then ([], Some t) else let '(a, o) := cut c t in (x :: a, o)
  end.

(** The pieces of [s] between the octets [c]; [cur] is the piece under way. *)
Fixpoint split_on (c : Z) (cur s : bytes) : list bytes :=
  match s with
  | [] => [cur]
  | x :: t => if x =? c then cur :: split_on c [] t else split_on c (cur ++ [x]) t
  end.

Fixpoint join_with (c : Z) (ls : list bytes) : bytes :=
  match ls with
  | [] => []
  | [l] => l
  | l :: ls => l ++ c :: join_with c ls
  end.

Lemma split_on_cut c cur s :
  split_on c cur s = match cut c s with
                     | (a, None) => [cur ++ a]
                     | (a, Some r) => (cur ++ a) :: split_on c [] r
                     end.
Proof.
  revert cur. induction s as [|x t IH]; intros cur; cbn [split_on cut]; [by rewrite app_nil_r|].
  case_if; [by rewrite app_nil_r|]. rewrite IH. destruct (cut c t) as [a [r|]]; by rewrite <- app_assoc.
Qed.

Lemma cut_none c s : c ∉ s -> cut c s = (s, None).
Proof.
  induction s as [|x t IH]; intros Hn; [done|]. apply not_elem_of_cons in Hn as [Hx Hn]. cbn [cut].
  destruct (x =? c) eqn:E; breflect; [congruence|]. by rewrite IH.
Qed.

Lemma cut_at c a r : c ∉ a -> cut c (a ++ c :: r) = (a, Some r).
Proof.
  induction a as [|x t IH]; intros Hn; cbn [cut app]; [by rewrite Z.eqb_refl|].
  apply not_elem_of_cons in Hn as [Hx Hn]. destruct (x =? c) eqn:E; breflect; [congruence|]. by rewrite IH.
Qed.

Lemma cut_shorter c s a r : cut c s = (a, Some r) -> (length r < length s)%nat.
Proof.
  revert a. induction s as [|x t IH]; intros a; cbn [cut length]; [done|]. case_if; [intros [= _ <-]; lia|].
  destruct (cut c t) as [a' o]. intros [= _ ->]. specialize (IH _ eq_refl). lia.
Qed.

Lemma split_on_join c ls : ls <> [] -> Forall (fun l => c ∉ l) ls -> split_on c [] (join_with c ls) = ls.
Proof.
  intros Hn Hl. induction Hl as [|l ls Hl _ IH]; [done|]. rewrite split_on_cut. destruct ls as [|l' ls].
  - cbn [join_with]. by rewrite cut_none.
  - cbn [join_with]. rewrite cut_at by done. cbn [app]. f_equal. by apply IH.
Qed.

(** ** The abstract arguments: a list of entries *)

(** An argument of a query: what is before and after the first ['=']. *)
Definition pair_of (p : bytes) : argsKV :=
  match cut 61 p with
  | (k, Some v) => mkKV (decodeArgAppend [] k) (decodeArgAppend [] v) false
  | (k, None) => mkKV (decodeArgAppend [] k) [] true
  end.

Definition filled (kv : argsKV) : bool := (len (kv_key kv) >? 0) || (len (kv_value kv) >? 0).

Definition parse_query (b : bytes) : list argsKV := List.filter filled (pair_of <$> split_on 38 [] b).

Inductive args_op : Type :=
| OSet (k v : bytes)
| OAdd (k v : bytes)
| ODel (k : bytes)
| OReset
| OParse (b : bytes)
| OUpdate (k v : bytes)
| OCopy (src : list argsKV).

(** Replaces the first entry of the key, or adds one. *)
Definition upsert (l : list argsKV) (k v : bytes) : list argsKV :=
  match set_loop l k v false with Some l => l | None => l ++ [mkKV k v false] end.

Definition abs_step (l : list argsKV) (op : args_op) : list argsKV :=
  match op with
  | OSet k v => upsert l k v
  | OAdd k v => l ++ [mkKV k v false]
  | ODel k => List.filter (fun kv => negb (bytes_eqb k (kv_key kv))) l
  | OReset => []
  | OParse b => parse_query b
  | OUpdate k v => update_loop l k v
  | OCopy src => copyKV <$> src
  end.

(** ** The slice *)

Lemma length_entries (h : kvs) : kvs_ok h -> length (entries h) = kv_len h.
Proof. intros Hok. unfold entries. rewrite length_take. unfold kvs_ok in Hok. lia. Qed.

Lemma put_entry_last h n kv : kvs_ok h -> kv_len h = S n ->
  entries (put_entry h n kv) = take n (kv_store h) ++ [kv] /\ kvs_ok (put_entry h n kv).
Proof.
  intros Hok Hn. unfold entries, put_entry, kvs_ok in *. cbn. rewrite length_insert. split; [|done].
  rewrite Hn in *. rewrite insert_take_drop by lia. rewrite take_app_ge by (rewrite length_take; lia).
  rewrite length_take. f_equal. replace (S n - n `min` length (kv_store h))%nat with 1%nat by lia. done.
Qed.

(** Replacing the entries and keeping the rest of the array. *)
Lemma replace_entries (h : kvs) l : kvs_ok h -> length l = kv_len h ->
  let h' := mkKVs (l ++ drop (kv_len h) (kv_store h)) (kv_len h) in entries h' = l /\ kvs_ok h'.
Proof.
  intros Hok Hl. unfold entries, kvs_ok in *. cbn. rewrite <- Hl at 1. rewrite take_app_length.
  split; [done|]. rewrite length_app. lia.
Qed.

Lemma length_set_loop l k v nv l' : set_loop l k v nv = Some l' -> length l' = length l.
Proof.
  revert l'. induction l as [|kv l IH]; intros l'; cbn [set_loop]; [done|]. case_if; [by intros [= <-]|].
  destruct (set_loop l k v nv) as [l1|]; [|done]. intros [= <-]. cbn. by rewrite (IH l1).
Qed.

Lemma length_update_loop l k v : length (update_loop l k v) = length l.
Proof. induction l as [|kv l IH]; cbn [update_loop]; [done|]. case_if; cbn; by rewrite ?IH. Qed.

Lemma updateArgBytes_ok h k v : kvs_ok h ->
  entries (updateArgBytes h k v) = update_loop (entries h) k v /\ kvs_ok (updateArgBytes h k v).
Proof. intros Hok. apply replace_entries; [done|]. by rewrite length_update_loop, length_entries. Qed.

Lemma copyArgs_ok dst src : kvs_ok src -> entries (copyArgs dst src) = copyKV <$> entries src /\ kvs_ok (copyArgs dst src).
Proof.
  intros Hok. unfold copyArgs, entries, kvs_ok. cbn. set (l := copyKV <$> _).
  assert (Hl : length l = kv_len src) by (unfold l; rewrite length_fmap; by apply length_entries).
  rewrite <- Hl at 1 3. rewrite take_app_length. split; [done|]. rewrite length_app. lia.
Qed.

(** *** Deletion *)

Lemma del_loop_ok fuel store i n k :
  (i <= n <= length store)%nat -> (n - i <= fuel)%nat ->
  let h := del_loop fuel store i n k in
  entries h = take i store ++ List.filter (fun kv => negb (bytes_eqb k (kv_key kv))) (take (n - i) (drop i store)) /\ kvs_ok h.
Proof.
  revert store i n. induction fuel as [|fuel IH]; intros store i n Hi Hf; cbn [del_loop].
  { assert (n = i) as -> by lia. rewrite Nat.sub_diag. cbn. rewrite app_nil_r. split; [done|]. unfold kvs_ok. cbn. lia. }
  destruct (i <? n)%nat eqn:E; [apply Nat.ltb_lt in E|apply Nat.ltb_ge in E].
  2: { assert (n = i) as -> by lia. rewrite Nat.sub_diag. cbn. rewrite app_nil_r. split; [done|]. unfold kvs_ok. cbn. lia. }
  destruct (lookup_lt_is_Some_2 store i) as [kv Hkv]; [lia|]. rewrite Hkv.
  assert (Hd : drop i store = kv :: drop (S i) store) by (by apply drop_S).
  replace (n - i)%nat with (S (n - S i)) by lia. rewrite Hd. cbn [take List.filter].
  destruct (bytes_eqb k (kv_key kv)) eqn:Ek; cbn [negb].
  - set (store' := take i store ++ _).
    assert (Hl : length store' = length store).
    { unfold store'. rewrite !length_app. cbn. rewrite !length_take, !length_drop. lia. }
    assert (Ht : take i store' = take i store).
    { unfold store'. rewrite take_app_le by (rewrite length_take; lia). rewrite take_take. f_equal. lia. }
    assert (Hd' : take (n - S i) (drop i store') = take (n - S i) (drop (S i) store)).
    { unfold store'. rewrite drop_app_ge by (rewrite length_take; lia). rewrite length_take.
      replace (i - i `min` length store)%nat with 0%nat by lia. rewrite drop_0.
      rewrite take_app_le by (rewrite length_take, length_drop; lia). rewrite take_take. f_equal. lia. }
    destruct (IH store' i (n - 1)%nat) as [E1 E2]; [lia|lia|]. split; [|done]. rewrite E1, Ht.
    replace (n - 1 - i)%nat with (n - S i)%nat by lia. by rewrite Hd'.
  - destruct (IH store (S i) n) as [E1 E2]; [lia|lia|]. split; [|done]. rewrite E1.
    rewrite (take_S_r _ _ kv) by done. by rewrite <- app_assoc.
Qed.

Lemma delAllArgs_ok h k : kvs_ok h ->
  entries (delAllArgs h k) = List.filter (fun kv => negb (bytes_eqb k (kv_key kv))) (entries h) /\ kvs_ok (delAllArgs h k).
Proof.
  intros Hok. destruct (del_loop_ok (kv_len h) (kv_store h) 0 (kv_len h) k) as [E1 E2]; [unfold kvs_ok in Hok; lia|lia|].
  split; [|done]. rewrite Nat.sub_0_r in E1. exact E1.
Qed.

(** *** Growth *)

Section Slice.
Context (spare : nat -> nat).

Lemma allocArg_ok (h h' : kvs) n : kvs_ok h -> allocArg spare h = (h', n) ->
  n = kv_len h /\ kv_len h' = S n /\ kvs_ok h' /\ take n (kv_store h') = entries h.
Proof.
  intros Hok. unfold allocArg. destruct (kv_len h <? length (kv_store h))%nat eqn:E; intros [= <- <-]; unfold kvs_ok in *; cbn.
  - apply Nat.ltb_lt in E. by repeat split.
  - split; [done|]. split; [done|]. rewrite length_app, length_entries by done. cbn [length].
    split; [lia|]. rewrite <- (length_entries h) at 1 by done. by rewrite take_app_length.
Qed.

Lemma appendArg_ok h k v nv : kvs_ok h ->
  entries (appendArg spare h k v nv) = entries h ++ [mkKV k (if nv then [] else v) nv] /\ kvs_ok (appendArg spare h k v nv).
Proof.
  intros Hok. unfold appendArg. destruct (allocArg spare h) as [h1 n] eqn:E.
  destruct (allocArg_ok _ _ _ Hok E) as (_ & Hl & Hok1 & <-). by apply put_entry_last.
Qed.

Lemma setArg_ok h k v : kvs_ok h -> entries (setArg spare h k v false) = upsert (entries h) k v /\ kvs_ok (setArg spare h k v false).
Proof.
  intros Hok. unfold setArg, upsert. destruct (set_loop (entries h) k v false) as [l|] eqn:E.
  - apply replace_entries; [done|]. apply length_set_loop in E. by rewrite E, length_entries.
  - by apply appendArg_ok.
Qed.
End Slice.

(** ** Parsing *)

Lemma zdrop_len {A} (l : list A) : zdrop (len l) l = [].
Proof. unfold zdrop, len. by rewrite Nat2Z.id, drop_all. Qed.

Lemma next_loop_value b pre rest k key : b = pre ++ rest -> 0 <= k <= len pre ->
  next_loop b rest (len pre) false k key =
  (mkKV key (decodeArgAppend [] (zdrop k pre ++ (cut 38 rest).1)) false, default [] (cut 38 rest).2).
Proof.
  revert pre. induction rest as [|c t IH]; intros pre -> Hk; cbn [next_loop cut].
  { by rewrite !app_nil_r, zdrop_len. }
  assert (Hnext : next_loop (pre ++ c :: t) t (len pre + 1) false k key =
    (mkKV key (decodeArgAppend [] (zdrop k pre ++ c :: (cut 38 t).1)) false, default [] (cut 38 t).2)).
  { replace (len pre + 1) with (len (pre ++ [c])) by glen. rewrite (IH (pre ++ [c])); [|by rewrite <- app_assoc|glen].
    unfold zdrop. rewrite drop_app_le by (unfold len in *; lia). by rewrite <- app_assoc. }
  destruct (c =? 38) eqn:E2; breflect.
  - subst. cbn [Z.eqb Pos.eqb fst snd default]. rewrite ztake_app, app_nil_r.
    replace (pre ++ 38 :: t) with ((pre ++ [38]) ++ t) by (by rewrite <- app_assoc). by rewrite zdrop_app_at by glen.
  - destruct (cut 38 t) as [a o]. destruct (c =? 61); exact Hnext.
Qed.

Lemma next_loop_key b pre rest : b = pre ++ rest -> 61 ∉ pre ->
  next_loop b rest (len pre) true 0 [] =
  (match cut 61 (cut 38 rest).1 with
   | (k, Some v) => mkKV (decodeArgAppend [] (pre ++ k)) (decodeArgAppend [] v) false
   | (k, None) => mkKV (decodeArgAppend [] (pre ++ k)) [] true
   end, default [] (cut 38 rest).2).
Proof.
  revert pre. induction rest as [|c t IH]; intros pre -> Hp; cbn [next_loop cut].
  { cbn [fst snd cut default]. by rewrite zdrop_len. }
  destruct (c =? 61) eqn:E1; breflect.
  - subst. cbn [Z.eqb Pos.eqb]. replace (len pre + 1) with (len (pre ++ [61])) by glen.
    rewrite (next_loop_value _ (pre ++ [61]) t); [|by rewrite <- app_assoc|glen].
    rewrite zdrop_len, ztake_app. cbn [app].
    destruct (cut 38 t) as [a o]. cbn [fst snd cut Z.eqb Pos.eqb]. by rewrite app_nil_r.
  - destruct (c =? 38) eqn:E2; breflect.
    + subst. cbn [fst snd cut default]. rewrite ztake_app, app_nil_r.
      replace (pre ++ 38 :: t) with ((pre ++ [38]) ++ t) by (by rewrite <- app_assoc). by rewrite zdrop_app_at by glen.
    + replace (len pre + 1) with (len (pre ++ [c])) by glen.
      rewrite (IH (pre ++ [c])); [|by rewrite <- app_assoc|set_solver].
      destruct (cut 38 t) as [a o]. cbn [fst snd cut]. destruct (c =? 61) eqn:E3; breflect; [lia|].
      destruct (cut 61 a) as [k [v|]]; by rewrite <- app_assoc.
Qed.

(** [next] cuts at the next ['&']. *)
Lemma next_cut b : b <> [] -> next b = Some (pair_of (cut 38 b).1, default [] (cut 38 b).2).
Proof.
  intros Hb. unfold next. destruct (len b =? 0) eqn:E; breflect; [by apply len_0_inv in E|].
  change 0 with (len (@nil Z)) at 1. rewrite (next_loop_key b []) by (done || apply not_elem_of_nil). done.
Qed.

Section Parse.
Context (spare : nat -> nat).

Lemma parse_loop_ok fuel h n b :
  kvs_ok h -> kv_len h = S n -> (length b < fuel)%nat ->
  exists h' m, parse_loop spare fuel h n b = Ret h' /\ kvs_ok h' /\ kv_len h' = S m /\
    take m (kv_store h') = take n (kv_store h) ++ parse_query b.
Proof.
  revert h n b. induction fuel as [|fuel IH]; intros h n b Hok Hn Hf; [lia|]. cbn [parse_loop].
  destruct (decide (b = [])) as [->|Hb].
  { exists h, n. cbn. rewrite app_nil_r. by repeat split. }
  rewrite next_cut by done. unfold parse_query. rewrite split_on_cut. cbn [app].
  set (kv := pair_of (cut 38 b).1).
  destruct (put_entry_last h n kv Hok Hn) as [Hent Hok1].
  assert (Hstore : take n (kv_store (put_entry h n kv)) = take n (kv_store h)).
  { unfold put_entry. cbn. by rewrite take_insert_ge by lia. }
  assert (Hr : forall h1 n1 r, kvs_ok h1 -> kv_len h1 = S n1 -> (length r < length b)%nat ->
    exists h' m, parse_loop spare fuel h1 n1 r = Ret h' /\ kvs_ok h' /\ kv_len h' = S m /\
      take m (kv_store h') = take n1 (kv_store h1) ++ parse_query r) by (intros; apply IH; done || lia).
  fold (filled kv).
  assert (Hq : exists r, default [] (cut 38 b).2 = r /\ (length r < length b)%nat /\
    List.filter filled (pair_of <$> match cut 38 b with (a, None) => [a] | (a, Some r) => a :: split_on 38 [] r end) =
    (if filled kv then [kv] else []) ++ parse_query r).
  { unfold kv. destruct (cut 38 b) as [a [r|]] eqn:Ec; cbn [fst snd default].
    - exists r. split; [done|]. split; [by eapply cut_shorter|]. cbn [fmap list_fmap List.filter]. by case_if.
    - exists []. split; [done|]. split; [destruct b; [done|cbn; lia]|]. cbn [fmap list_fmap List.filter]. by case_if. }
  destruct Hq as (r & -> & Hlen & ->). destruct (filled kv).
  - destruct (allocArg spare (put_entry h n kv)) as [h2 n2] eqn:Ea.
    destruct (allocArg_ok _ _ _ _ Hok1 Ea) as (-> & Hl2 & Hok2 & Ht2).
    destruct (Hr h2 _ r Hok2 Hl2 Hlen) as (h' & m & E & Hok' & Hm & Ht). exists h', m.
    split; [done|]. split; [done|]. split; [done|]. rewrite Ht, Ht2, Hent. by rewrite <- app_assoc.
  - destruct (Hr (put_entry h n kv) n r) as (h' & m & E & Hok' & Hm & Ht); [done..|]. exists h', m.
    split; [done|]. split; [done|]. split; [done|]. by rewrite Ht, Hstore.
Qed.

Lemma ParseBytes_ok h b : exists h', ParseBytes spare h b = Ret h' /\ entries h' = parse_query b /\ kvs_ok h'.
Proof.
  unfold ParseBytes. destruct (allocArg spare (mkKVs (kv_store h) 0)) as [h1 n] eqn:Ea.
  destruct (allocArg_ok _ _ _ _ (Nat.le_0_l _ : kvs_ok (mkKVs (kv_store h) 0)) Ea) as (-> & Hl & Hok & Ht).
  destruct (parse_loop_ok (S (length b)) h1 0 b) as (h' & m & E & Hok' & Hm & Ht'); [done|done|lia|].
  cbn [kv_len] in *. rewrite E. cbn [outcome_bind]. eexists. split; [done|].
  unfold releaseArg, entries, kvs_ok in *. cbn. rewrite Hm in *. rewrite Nat.sub_succ, Nat.sub_0_r.
  split; [by rewrite Ht'|lia].
Qed.

(** ** Every sequence of calls *)

Definition args_step (h : kvs) (op : args_op) : outcome kvs :=
  match op with
  | OSet k v => Ret (Set_ spare h k v)
  | OAdd k v => Ret (Add spare h k v)
  | ODel k => Ret (Del h k)
  | OReset => Ret (Reset h)
  | OParse b => ParseBytes spare h b
  | OUpdate k v => Ret (updateArgBytes h k v)
  | OCopy src => Ret (CopyTo (mkKVs src (length src)) h)
  end.

Fixpoint args_run (h : kvs) (ops : list args_op) : outcome kvs :=
  match ops with
  | [] => Ret h
  | op :: ops => run h <- args_step h op; args_run h ops
  end.

Lemma args_step_ok h op : kvs_ok h ->
  exists h', args_step h op = Ret h' /\ entries h' = abs_step (entries h) op /\ kvs_ok h'.
Proof.
  intros Hok. destruct op as [k v|k v|k| |b|k v|src]; cbn [args_step abs_step].
  - eexists. split; [done|]. by apply setArg_ok.
  - eexists. split; [done|]. by apply appendArg_ok.
  - eexists. split; [done|]. by apply delAllArgs_ok.
  - eexists. split; [done|]. split; [done|]. unfold kvs_ok. cbn. lia.
  - apply ParseBytes_ok.
  - eexists. split; [done|]. by apply updateArgBytes_ok.
  - eexists. split; [done|]. unfold CopyTo. destruct (copyArgs_ok (Reset h) (mkKVs src (length src))) as [E1 E2].
    { unfold kvs_ok. cbn. lia. }
    split; [|done]. rewrite E1. unfold entries. cbn. by rewrite firstn_all.
Qed.

(** Whatever was in the array before, every sequence of calls on the arguments
    ends, and leaves the entries a list of entries would hold: Set replaces the
    first of its key, Add appends, Del removes all of its key, ParseBytes splits at
    ['&'] and the first ['='] and leaves out arguments without key and value. *)
Theorem Args_refines h ops : kvs_ok h ->
  exists h', args_run h ops = Ret h' /\ entries h' = foldl abs_step (entries h) ops /\ kvs_ok h'.
Proof.
  revert h. induction ops as [|op ops IH]; intros h Hok; cbn [args_run foldl]; [by exists h|].
  destruct (args_step_ok h op Hok) as (h1 & -> & E1 & Hok1). cbn [outcome_bind]. rewrite <- E1. by apply IH.
Qed.
End Parse.

Lemma Args_refines_witness :
  exists h', args_run (fun n => n) (mkKVs [mkKV (str "old") (str "x") true] 0)
      [OParse (str "a=1&b&&c=%41+&a=2"); ODel (str "b"); OSet (str "a") (str "9")] = Ret h' /\
    entries h' = [mkKV (str "a") (str "9") false; mkKV (str "c") (str "A ") false; mkKV (str "a") (str "2") false].
Proof.
  destruct (Args_refines (fun n => n) (mkKVs [mkKV (str "old") (str "x") true] 0)
      [OParse (str "a=1&b&&c=%41+&a=2"); ODel (str "b"); OSet (str "a") (str "9")]) as (h' & E & Hl & _).
  - unfold kvs_ok. cbn. lia.
  - exists h'. split; [exact E|]. rewrite Hl. vm_compute. reflexivity.
Defined.

(** ** The round trip *)

Definition render (kv : argsKV) : bytes :=
  AppendQuotedArg [] (kv_key kv) ++ (if kv_noValue kv then [] else 61 :: AppendQuotedArg [] (kv_value kv)).

Lemma AppendQuotedArg_app dst src : AppendQuotedArg dst src = dst ++ AppendQuotedArg [] src.
Proof. done. Qed.

Lemma append_loop_join dst l : append_loop dst l = dst ++ join_with 38 (render <$> l).
Proof.
  revert dst. induction l as [|kv l IH]; intros dst; cbn [append_loop]; [by rewrite app_nil_r|].
  assert (Hr : forall d, (if negb (kv_noValue kv)
      then if len (kv_value kv) >? 0 then AppendQuotedArg (AppendQuotedArg d (kv_key kv) ++ [61]) (kv_value kv)
           else AppendQuotedArg d (kv_key kv) ++ [61]
      else AppendQuotedArg d (kv_key kv)) = d ++ render kv).
  { intros d. rewrite (AppendQuotedArg_app d). unfold render. destruct (kv_noValue kv); cbn [negb]; [by rewrite app_nil_r|].
    rewrite (AppendQuotedArg_app (_ ++ [61])). destruct (kv_value kv) as [|c t].
    { change (len (@nil Z) >? 0) with false. cbv iota. by rewrite <- app_assoc. }
    rewrite len_cons. pose proof (len_nonneg t). destruct (1 + len t >? 0) eqn:E; breflect; [|lia]. by rewrite <- !app_assoc. }
  rewrite Hr. destruct l as [|kv' l]; [done|]. rewrite IH. cbn [fmap list_fmap join_with]. by rewrite <- !app_assoc.
Qed.

(** Quoted text has none of the octets that separate arguments. *)
Lemma quoted_free c src : wf_bytes src -> c = 38 \/ c = 61 -> c ∉ AppendQuotedArg [] src.
Proof.
  intros Hw Hc. unfold AppendQuotedArg. cbn [app]. rewrite list_elem_of_bind. intros (x & Hin & Hx).
  assert (Hx8 : is_u8 x) by (unfold wf_bytes in Hw; rewrite Forall_forall in Hw; by apply Hw).
  destruct (x =? 32); [set_solver by lia|].
  destruct (tab QuotedArgShouldEscapeTable x =? 0) eqn:E; cbn [negb] in Hin.
  - apply list_elem_of_singleton in Hin as ->. breflect. by destruct Hc as [->| ->].
  - assert (H : (fun x => forallb (fun d => negb ((d =? 38) || (d =? 61))) (quote_octet x)) x = true)
      by octets (fun x => forallb (fun d => negb ((d =? 38) || (d =? 61))) (quote_octet x)).
    rewrite forallb_forall in H. apply list_elem_of_In in Hin. specialize (H _ Hin).
    destruct Hc as [->| ->]; by cbn in H.
Qed.

(** Entries as ParseBytes makes them. *)
Definition parsed (kv : argsKV) : Prop :=
  wf_bytes (kv_key kv) /\ wf_bytes (kv_value kv) /\ filled kv = true /\ (kv_noValue kv = true -> kv_value kv = []).

Lemma pair_of_render kv : parsed kv -> pair_of (render kv) = kv.
Proof.
  intros (Hk & Hv & _ & Hn). destruct kv as [k v nv]. unfold pair_of, render. cbn [kv_key kv_value kv_noValue] in *.
  pose proof (quoted_free 61 k Hk (or_intror eq_refl)) as H61. destruct nv.
  - rewrite app_nil_r, cut_none, decode_quoted_arg by done. by rewrite Hn.
  - by rewrite cut_at, !decode_quoted_arg.
Qed.

Lemma render_free kv : parsed kv -> 38 ∉ render kv.
Proof.
  intros (Hk & Hv & _). unfold render. apply not_elem_of_app. split; [by apply quoted_free; auto|].
  destruct (kv_noValue kv); [apply not_elem_of_nil|]. apply not_elem_of_cons. split; [done|]. by apply quoted_free; auto.
Qed.

Lemma parse_query_join l : Forall parsed l -> parse_query (join_with 38 (render <$> l)) = l.
Proof.
  intros Hl. unfold parse_query. destruct (decide (l = [])) as [->|Hn]; [done|].
  rewrite split_on_join; [|by destruct l|apply Forall_fmap; eapply Forall_impl; [done|apply render_free]].
  rewrite <- list_fmap_compose.
  induction Hl as [|kv l Hkv _ IH]; [done|]. cbn [fmap list_fmap compose List.filter].
  rewrite pair_of_render by done. rewrite (proj1 (proj2 (proj2 Hkv))). f_equal.
  destruct l; [done|]. by apply IH.
Qed.

(** The query string of arguments parses back to the same arguments, in order,
    duplicates and arguments without ['='] included, whatever octets the keys and
    values hold. *)
Theorem args_roundtrip spare (h h0 : kvs) :
  Forall parsed (entries h) ->
  exists h', ParseBytes spare h0 (QueryString h) = Ret h' /\ entries h' = entries h.
Proof.
  intros Hp. destruct (ParseBytes_ok spare h0 (QueryString h)) as (h' & E & Hl & _). exists h'. split; [done|].
  rewrite Hl. unfold QueryString, AppendBytes. rewrite append_loop_join. by apply parse_query_join.
Qed.

Definition sample_args : kvs :=
  mkKVs [mkKV (str "a b") (str "1&2=3") false; mkKV (str "%") [] true; mkKV [] (str "+") false; mkKV (str "stale") [] false] 3.

Lemma args_roundtrip_witness : exists h', ParseBytes (fun _ => 0%nat) sample_args (QueryString sample_args) = Ret h' /\
  entries h' = entries sample_args.
Proof.
  apply (args_roundtrip (fun _ => 0%nat) sample_args sample_args).
  repeat apply Forall_cons_2; [..|apply Forall_nil_2]; repeat split; try done; repeat (apply Forall_cons_2; [split; done|]); apply Forall_nil_2.
Defined.
