(* ===== verification/HeaderScan.v ===== *)
(** * Header lines

    [web/protocol/ext/headerscanner.go] and the parts of [ext/common.go] and
    [web/common/utils/utils.go] it uses: the scanner that reads the fields of a header
    out of a buffer, in place.

    The scanner rewrites the buffer it reads: keys are normalized where they stand, and
    a value folded over several lines is closed up, which moves everything behind it.
    What the caller does next with the buffer depends on that, so the state of the
    scanner has the whole buffer: what is read, the slice [B] still to be read, and what
    has fallen out behind its end. *)

From S2P Require Import Prelude Bytes BytesConv.

(** ** Keys *)

(** The loop of NormalizeHeaderKey behind the first octet; the octet after a hyphen is
    skipped. *)
Fixpoint normalize_loop (b : bytes) : bytes :=
  match b with
  | [] => []
  | c :: t =>
      if c =? 45 then match t with [] => [c] | d :: t => c :: tab ToUpperTable d :: normalize_loop t end
      else tab ToLowerTable c :: normalize_loop t
  end.

Definition NormalizeHeaderKey (b : bytes) (disableNormalizing : bool) : bytes :=
  if disableNormalizing then b
  else match b with [] => [] | c :: t => tab ToUpperTable c :: normalize_loop t end.

(** ** Errors *)

Inductive headerErr : Type :=
| errNeedMore
| errInvalidName
| errMalformedHTTPRequest
| errInvalidKey
| errInvalidValue
| errContentLengthValue
| errForbiddenTrailer
| errFirstLine
| errHeaderTooLarge
| errNothingRead
| errEOF
| errEOFReadHeader.

#[export] Instance headerErr_eq_dec : EqDecision headerErr.
Proof. solve_decision. Defined.

(** utils.NextLine: the line without its end, and what follows. *)
Definition NextLine (b : bytes) : result headerErr (bytes * bytes) :=
  let nNext := IndexByte b 10 in
  if nNext <? 0 then Err errNeedMore
  else let n := if (nNext >? 0) && bool_decide (znth b (nNext - 1) = Some 13) then nNext - 1 else nNext in
       Ok (ztake n b, zdrop (nNext + 1) b).

(** ** Folded values *)

(** The loop of normalizeHeaderValue: what is written, and how many octets were not. *)
Fixpoint unfold_loop (ov : bytes) (lineStart : bool) : bytes * Z :=
  match ov with
  | [] => ([], 0)
  | c :: ov =>
      if (c =? 13) || (c =? 10) then
        let '(nv, shrunk) := unfold_loop ov (if c =? 10 then true else lineStart) in (nv, shrunk + 1)
      else if lineStart && (c =? 9) then let '(nv, shrunk) := unfold_loop ov lineStart in (32 :: nv, shrunk)
      else let '(nv, shrunk) := unfold_loop ov false in (c :: nv, shrunk)
  end.

(** normalizeHeaderValue on the value [ov] at the start of [ob]: the value, the octets
    between it and the new slice, the new slice, what stays behind it in the buffer, and
    the length of the header. *)
Definition normalizeHeaderValue (ov ob : bytes) (headerLength : Z) : bytes * bytes * bytes * bytes * Z :=
  let length := len ov in
  if length <=? 0 then (ov, [], [], ob, 0)
  else
    let '(nv, shrunk) := unfold_loop ov false in
    let rest := zdrop length ob in
    let skip := match rest with
                | 13 :: 10 :: _ => 2
                | 13 :: _ => 1
                | 10 :: _ => 1
                | _ => 0
                end in
    (nv, ztake skip rest, zdrop skip rest, zdrop (len ob - shrunk) ob, headerLength - shrunk).

(** ** The scanner *)

Record HeaderScanner := mkScan {
  sc_done : bytes;
  sc_B : bytes;
  sc_tail : bytes;
  sc_Key : bytes;
  sc_Value : bytes;
  sc_Err : option headerErr;
  HLen : Z;
  sc_DisableNormalizing : bool;
  nextColon : Z;
  nextNewLine : Z
}.

Definition newScanner (buf : bytes) (disableNormalizing : bool) : HeaderScanner :=
  mkScan [] buf [] [] [] None 0 disableNormalizing (-1) (-1).

(** The buffer as it is now. *)
Definition sc_buffer (s : HeaderScanner) : bytes := sc_done s ++ sc_B s ++ sc_tail s.

Definition sc_fail (s : HeaderScanner) (e : headerErr) : HeaderScanner :=
  mkScan (sc_done s) (sc_B s) (sc_tail s) (sc_Key s) (sc_Value s) (Some e) (HLen s) (sc_DisableNormalizing s) (nextColon s) (nextNewLine s).

(** Moves over [n] octets of [B]. *)
Definition sc_skip (s : HeaderScanner) (n : Z) : HeaderScanner :=
  mkScan (sc_done s ++ ztake n (sc_B s)) (zdrop n (sc_B s)) (sc_tail s) (sc_Key s) (sc_Value s) (sc_Err s) (HLen s + n)
    (sc_DisableNormalizing s) (nextColon s) (nextNewLine s).

Fixpoint leading (c : Z) (b : bytes) : Z :=
  match b with x :: b => if x =? c then 1 + leading c b else 0 | [] => 0 end.

(** The loop over the lines that continue a value which ends at [n]: where it ends, if
    it is folded, and the colon and the end of the next line if that has been seen. *)
Fixpoint fold_lines (fuel : nat) (B : bytes) (n : Z) (multi : bool) (nl : Z) : Z * bool * Z * Z :=
  match fuel with
  | O => (n, multi, -1, nl)
  | S fuel =>
      match znth B (n + 1) with
      | None => (n, multi, -1, nl)
      | Some c =>
          if negb (c =? 32) && negb (c =? 9) then (n, multi, -1, nl)
          else
            let d := IndexByte (zdrop (n + 1) B) 10 in
            if d <=? 0 then (n, multi, -1, nl)
            else if (d =? 1) && (c =? 13) then (n, multi, -1, nl)
            else
              let x := IndexByte (ztake d (zdrop (n + 1) B)) 58 in
              if x >=? 0 then (n, multi, x, d - x - 1)
              else fold_lines fuel B (n + d + 1) true nl
      end
  end.

(** The value of a line without its end and the spaces before that. *)
Fixpoint trim_right (b : bytes) : bytes :=
  match b with
  | [] => []
  | c :: t => match trim_right t with [] => if c =? 32 then [] else [c] | t' => c :: t' end
  end.

Definition trim_value (b : bytes) : bytes :=
  trim_right (match last b with Some 13 => removelast b | _ => b end).

(** Where the key ends. *)
Definition key_end (s : HeaderScanner) : result headerErr Z :=
  if nextColon s >=? 0 then Ok (nextColon s)
  else
    let n := IndexByte (sc_B s) 58 in
    let x := IndexByte (sc_B s) 10 in
    if x <? 0 then Err errNeedMore
    else if x <? n then Err errInvalidName
    else if n <? 0 then Err errNeedMore
    else Ok n.

(** The key ends at [n]: the scanner behind it, the colon and the spaces. *)
Definition take_key (s : HeaderScanner) (n : Z) : HeaderScanner :=
  let key := NormalizeHeaderKey (ztake n (sc_B s)) (sc_DisableNormalizing s) in
  let k := 1 + leading 32 (zdrop (n + 1) (sc_B s)) in
  mkScan (sc_done s ++ key ++ ztake k (zdrop n (sc_B s))) (zdrop (n + k) (sc_B s)) (sc_tail s) key (sc_Value s) (sc_Err s)
    (HLen s + n + k) (sc_DisableNormalizing s) (-1) (nextNewLine s - (k - 1)).

(** The value ends at [n]. *)
Definition take_value (s : HeaderScanner) (n : Z) (multi : bool) (nc nl : Z) : HeaderScanner :=
  let B := sc_B s in
  let value := trim_value (ztake n B) in
  let h := HLen s + n + 1 in
  if multi then
    let '(v, gap, nb, out, h) := normalizeHeaderValue value B h in
    mkScan (sc_done s ++ v ++ gap) nb (out ++ sc_tail s) (sc_Key s) v (sc_Err s) h (sc_DisableNormalizing s) nc nl
  else
    mkScan (sc_done s ++ ztake (n + 1) B) (zdrop (n + 1) B) (sc_tail s) (sc_Key s) value (sc_Err s) h (sc_DisableNormalizing s) nc nl.

Definition Next (s : HeaderScanner) : HeaderScanner * bool :=
  if has_prefix [13; 10] (sc_B s) then (sc_skip s 2, false)
  else if has_prefix [10] (sc_B s) then (sc_skip s 1, false)
  else
    match key_end s with
    | Err e => (sc_fail s e, false)
    | Ok n =>
        let s := take_key s n in
        let '(n, nl) := if nextNewLine s >=? 0 then (nextNewLine s, -1) else (IndexByte (sc_B s) 10, nextNewLine s) in
        if n <? 0 then (sc_fail s errNeedMore, false)
        else
          let '(n, multi, nc, nl) := fold_lines (length (sc_B s)) (sc_B s) n false nl in
          if n >=? len (sc_B s) then (sc_fail s errNeedMore, false)
          else (take_value s n multi nc nl, true)
    end.

(** ** Lists in values *)

(** stripSpace. *)
Fixpoint trim_left (b : bytes) : bytes :=
  match b with c :: t => if c =? 32 then trim_left t else b | [] => [] end.

Definition stripSpace (b : bytes) : bytes := trim_right (trim_left b).

Fixpoint has_value_loop (fuel : nat) (b value : bytes) : bool :=
  match fuel with
  | O => false
  | S fuel =>
      if len b =? 0 then false
      else
        let n := IndexByte b 44 in
        if n <? 0 then CaseInsensitiveCompare (stripSpace b) value
        else if CaseInsensitiveCompare (stripSpace (ztake n b)) value then true
        else has_value_loop fuel (zdrop (n + 1) b) value
  end.

Definition HasHeaderValue (s value : bytes) : bool := has_value_loop (S (length s)) s value.

(** ** The raw header *)

(** The loop of ReadRawHeaders over the lines behind the first; [n] octets are behind. *)
Fixpoint raw_loop (fuel : nat) (b : bytes) (n : Z) : result headerErr Z :=
  match fuel with
  | O => Err errNeedMore
  | S fuel =>
      let m := IndexByte b 10 in
      if m <? 0 then Err errNeedMore
      else if ((m =? 1) && bool_decide (head b = Some 13)) || (m =? 0) then Ok (n + m + 1)
      else raw_loop fuel (zdrop (m + 1) b) (n + m + 1)
  end.

(** The octets of the header with the empty line at its end, or nothing if it is empty,
    and their number. *)
Definition ReadRawHeaders (buf : bytes) : result headerErr (bytes * Z) :=
  let n := IndexByte buf 10 in
  if n <? 0 then Err errNeedMore
  else if ((n =? 1) && bool_decide (head buf = Some 13)) || (n =? 0) then Ok ([], n + 1)
  else try n <- raw_loop (length buf) (zdrop (n + 1) buf) (n + 1); Ok (ztake n buf, n).
