(* ===== verification/Trailer.v ===== *)
(** * Trailers and request cookies

    [web/protocol/trailer.go] and the part of [web/protocol/cookie.go] for the cookies
    of a request.  Both are kept like query arguments; the entries are a list here, as
    the arguments on their reused array have been shown to be. *)

From S2P Require Import Prelude Bytes BytesConv Args ArgsSpec HeaderScan.

(** ** Entries of headers *)

Definition setArgBytes (l : list argsKV) (key value : bytes) : list argsKV := upsert l key value.
Definition appendArgBytes (l : list argsKV) (key value : bytes) (noValue : bool) : list argsKV :=
  l ++ [mkKV key (if noValue then [] else value) noValue].
Definition delAllArgsBytes (l : list argsKV) (key : bytes) : list argsKV :=
  List.filter (fun kv => negb (bytes_eqb key (kv_key kv))) l.
Definition peekArgBytes (l : list argsKV) (key : bytes) : bytes := default [] (peekArg l key).

(** appendHeaderValue: line ends become spaces. *)
Definition appendHeaderValue (dst v : bytes) : bytes :=
  dst ++ ((fun c => if (c =? 13) || (c =? 10) then 32 else c) <$> v).

(** appendHeaderLine: a field whose name is not valid is left out. *)
Definition appendHeaderLine (dst key value : bytes) : bytes :=
  if existsb (fun k => tab ValidHeaderFieldNameTable k =? 0) key then dst
  else appendHeaderValue (dst ++ key ++ str ": ") value ++ [13; 10].

(** ** Trailers *)

Record Trailer := mkTrailer {
  tr_h : list argsKV;
  tr_disableNormalizing : bool
}.

Definition newTrailer : Trailer := mkTrailer [] false.

Definition named (key : bytes) (s : string) : bool := CaseInsensitiveCompare key (str s).

(** The first octet of a key, in lower case; Go panics on an empty one. *)
Definition first_letter (key : bytes) : outcome Z := run c <- deref (head key); Ret (Z.lor c 32).

Definition IsBadTrailer (key : bytes) : outcome bool :=
  run c <- first_letter key;
  Ret (if c =? 97 then named key "Authorization"
       else if c =? 99 then
         if (len key >=? 12) && CaseInsensitiveCompare (ztake 8 key) (str "Content-") then
           named (zdrop 8 key) "Encoding" || named (zdrop 8 key) "Length" || named (zdrop 8 key) "Type" || named (zdrop 8 key) "Range"
         else named key "Connection"
       else if c =? 101 then named key "Expect"
       else if c =? 104 then named key "Host"
       else if c =? 107 then named key "keep-alive"
       else if c =? 109 then named key "Max-Forwards"
       else if c =? 112 then
         if (len key >=? 16) && CaseInsensitiveCompare (ztake 6 key) (str "Proxy-") then
           named (zdrop 6 key) "Connection" || named (zdrop 6 key) "Authenticate" || named (zdrop 6 key) "Authorization"
         else false
       else if c =? 114 then named key "Range"
       else if c =? 116 then named key "TE" || named key "Trailer" || named key "Transfer-Encoding"
       else if c =? 119 then named key "WWW-Authenticate"
       else false).

(** addArgBytes, setArgBytes and UpdateArgBytes: the trailer, or an error. *)
Definition guarded (t : Trailer) (key : bytes) (f : list argsKV -> list argsKV) : outcome (Trailer * option headerErr) :=
  run bad <- IsBadTrailer key;
  Ret (if bad then (t, Some errForbiddenTrailer) else (mkTrailer (f (tr_h t)) (tr_disableNormalizing t), None)).

Definition addArgBytes (t : Trailer) (key value : bytes) (noValue : bool) : outcome (Trailer * option headerErr) :=
  guarded t key (fun h => appendArgBytes h key value noValue).
Definition trailer_setArgBytes (t : Trailer) (key value : bytes) : outcome (Trailer * option headerErr) :=
  guarded t key (fun h => setArgBytes h key value).
Definition UpdateArgBytes (t : Trailer) (key value : bytes) : outcome (Trailer * option headerErr) :=
  guarded t key (fun h => update_loop h key value).

Definition trailer_key (t : Trailer) (key : bytes) : bytes := NormalizeHeaderKey key (tr_disableNormalizing t).

Definition trailer_Peek (t : Trailer) (key : bytes) : bytes := peekArgBytes (tr_h t) (trailer_key t key).
Definition trailer_Del (t : Trailer) (key : bytes) : Trailer :=
  mkTrailer (delAllArgsBytes (tr_h t) (trailer_key t key)) (tr_disableNormalizing t).
Definition trailer_Set (t : Trailer) (key value : bytes) : outcome (Trailer * option headerErr) :=
  trailer_setArgBytes t (trailer_key t key) value.
Definition trailer_Add (t : Trailer) (key value : bytes) : outcome (Trailer * option headerErr) :=
  addArgBytes t (trailer_key t key) value false.

Definition trailer_Empty (t : Trailer) : bool := match tr_h t with [] => true | _ => false end.
Definition trailer_ResetSkipNormalize (t : Trailer) : Trailer := mkTrailer [] (tr_disableNormalizing t).
Definition trailer_Reset (t : Trailer) : Trailer := trailer_ResetSkipNormalize (mkTrailer (tr_h t) false).
Definition trailer_DisableNormalizing (t : Trailer) : Trailer := mkTrailer (tr_h t) true.
Definition trailer_CopyTo (t dst : Trailer) : Trailer := mkTrailer (copyKV <$> tr_h t) (tr_disableNormalizing t).

(** The keys, separated. *)
Fixpoint GetBytes (h : list argsKV) : bytes :=
  match h with
  | [] => []
  | [kv] => kv_key kv
  | kv :: h => kv_key kv ++ str ", " ++ GetBytes h
  end.

(** The loop of SetTrailers; the error is that of the last key. *)
Fixpoint set_trailers_loop (fuel : nat) (t : Trailer) (trailers : bytes) (err : option headerErr) : outcome (Trailer * option headerErr) :=
  match fuel with
  | O => OutOfFuel
  | S fuel =>
      let i := IndexByte trailers 44 in
      let i := if i <? 0 then len trailers else i in
      run (t, err) <- addArgBytes t (trailer_key t (stripSpace (ztake i trailers))) [] true;
      if i + 1 <? len trailers then set_trailers_loop fuel t (zdrop (i + 1) trailers) err else Ret (t, err)
  end.

Definition SetTrailers (t : Trailer) (trailers : bytes) : outcome (Trailer * option headerErr) :=
  let t := trailer_ResetSkipNormalize t in
  if 0 <? len trailers then set_trailers_loop (S (length trailers)) t trailers None else Ret (t, None).

Definition trailer_AppendBytes (t : Trailer) (dst : bytes) : bytes :=
  foldl (fun dst kv => appendHeaderLine dst (kv_key kv) (kv_value kv)) dst (tr_h t) ++ [13; 10].

(** ** Cookies of a request *)

Definition decodeCookieArg (src : bytes) (skipQuotes : bool) : bytes :=
  let src := stripSpace src in
  if skipQuotes && (len src >? 1) && bool_decide (head src = Some 34) && bool_decide (last src = Some 34)
  then removelast (drop 1 src) else src.

(** The loop of cookieScanner.next over [rest], the part of [b] from [i] on. *)
Fixpoint cookie_loop (b rest : bytes) (i : Z) (isKey : bool) (k : Z) (key : bytes) : argsKV * bytes :=
  match rest with
  | c :: t =>
      if c =? 61 then
        if isKey then cookie_loop b t (i + 1) false (i + 1) (decodeCookieArg (ztake i b) false)
        else cookie_loop b t (i + 1) isKey k key
      else if c =? 59 then
        (mkKV (if isKey then [] else key) (decodeCookieArg (zdrop k (ztake i b)) true) false, zdrop (i + 1) b)
      else cookie_loop b t (i + 1) isKey k key
  | [] => (mkKV (if isKey then [] else key) (decodeCookieArg (zdrop k b) true) false, zdrop (len b) b)
  end.

Definition cookie_next (b : bytes) : option (argsKV * bytes) :=
  if len b =? 0 then None else Some (cookie_loop b b 0 true 0 []).

(** The loop of parseRequestCookies: a cookie is kept unless it is empty. *)
Fixpoint cookies_loop (fuel : nat) (cookies : list argsKV) (b : bytes) : list argsKV :=
  match fuel with
  | O => cookies
  | S fuel =>
      match cookie_next b with
      | None => cookies
      | Some (kv, b) => cookies_loop fuel (if (len (kv_key kv) >? 0) || (len (kv_value kv) >? 0) then cookies ++ [kv] else cookies) b
      end
  end.

(** A cookie takes an octet at least. *)
Definition parseRequestCookies (cookies : list argsKV) (src : bytes) : list argsKV := cookies_loop (S (length src)) cookies src.

Definition cookie_pair (kv : argsKV) : bytes := (if len (kv_key kv) >? 0 then kv_key kv ++ [61] else []) ++ kv_value kv.

Fixpoint cookie_bytes (l : list argsKV) : bytes :=
  match l with
  | [] => []
  | [kv] => cookie_pair kv
  | kv :: l => cookie_pair kv ++ str "; " ++ cookie_bytes l
  end.

Definition appendRequestCookieBytes (dst : bytes) (cookies : list argsKV) : bytes := dst ++ cookie_bytes cookies.

Fixpoint response_cookie_bytes (l : list argsKV) : bytes :=
  match l with
  | [] => []
  | [kv] => kv_value kv
  | kv :: l => kv_value kv ++ str "; " ++ response_cookie_bytes l
  end.

Definition appendResponseCookieBytes (dst : bytes) (cookies : list argsKV) : bytes := dst ++ response_cookie_bytes cookies.

Definition getCookieKey (src : bytes) : bytes :=
  let n := IndexByte src 61 in
  decodeCookieArg (if n >=? 0 then ztake n src else src) false.

(** ** The names of trailers *)

(** The names between the commas; nothing behind the last comma is none. *)
Definition trailer_names (v : bytes) : list bytes :=
  let l := split_on 44 [] v in if bool_decide (last l = Some []) then removelast l else l.

Lemma addArgBytes_named t key value noValue : key <> [] -> exists t' e, addArgBytes t key value noValue = Ret (t', e).
Proof.
  intros Hk. unfold addArgBytes, guarded, IsBadTrailer, first_letter. destruct key as [|c key]; [done|]. cbn [head deref outcome_bind].
  case_if; by eexists _, _.
Qed.

Lemma trailer_key_nil t k : trailer_key t k = [] -> k = [].
Proof. unfold trailer_key, NormalizeHeaderKey. destruct (tr_disableNormalizing t); [done|]. by destruct k. Qed.

Lemma split_on_end c cur s : c ∉ s -> split_on c cur s = [cur ++ s].
Proof.
  revert cur. induction s as [|x s IH]; intros cur Hs; cbn [split_on]; [by rewrite app_nil_r|]. apply not_elem_of_cons in Hs as [Hx Hs].
  rewrite (proj2 (Z.eqb_neq x c)) by congruence. rewrite IH by done. by rewrite <- app_assoc.
Qed.

Lemma split_on_first c cur s t : c ∉ s -> split_on c cur (s ++ c :: t) = (cur ++ s) :: split_on c [] t.
Proof.
  revert cur. induction s as [|x s IH]; intros cur Hs; cbn [split_on app]; [by rewrite Z.eqb_refl, app_nil_r|].
  apply not_elem_of_cons in Hs as [Hx Hs]. rewrite (proj2 (Z.eqb_neq x c)) by congruence. rewrite IH by done. by rewrite <- app_assoc.
Qed.

Lemma split_on_some c cur s : exists x l, split_on c cur s = x :: l.
Proof. revert cur. induction s as [|x s IH]; intros cur; cbn [split_on]; [by eexists _, _|]. case_if; [by eexists _, _|apply IH]. Qed.

(** The first name, and what the loop goes on with. *)
Lemma trailer_names_cons k t : 44 ∉ k -> trailer_names (k ++ 44 :: t) = k :: trailer_names t.
Proof.
  intros Hk. unfold trailer_names. rewrite split_on_first by done. cbn [app]. destruct (split_on_some 44 [] t) as (x & l & ->).
  rewrite last_cons_cons. by case_bool_decide.
Qed.

Lemma trailer_names_last k : 44 ∉ k -> k <> [] -> trailer_names k = [k].
Proof. intros Hk Hn. unfold trailer_names. rewrite split_on_end by done. cbn. rewrite bool_decide_false; [done|congruence]. Qed.

Lemma first_comma (v : bytes) : 44 ∈ v -> exists k t, v = k ++ 44 :: t /\ (44 ∉ k).
Proof.
  induction v as [|c v IH]; intros Hv; [by apply not_elem_of_nil in Hv|]. destruct (decide (c = 44)) as [->|Hc]; [exists [], v; split; [done|apply not_elem_of_nil]|].
  apply elem_of_cons in Hv as [Hv|Hv]; [done|]. destruct (IH Hv) as (k & t & -> & Hk). exists (c :: k), t. split; [done|]. by apply not_elem_of_cons.
Qed.

(** What the loop comes to: it does not run out, and does not panic when every name is one. *)
Lemma set_trailers_loop_ends fuel : forall t v err, (length v < fuel)%nat -> v <> [] ->
  set_trailers_loop fuel t v err <> OutOfFuel /\
  (Forall (fun k => stripSpace k <> []) (trailer_names v) -> exists t' e, set_trailers_loop fuel t v err = Ret (t', e)).
Proof.
  induction fuel as [|fuel IH]; intros t v err Hf Hv; [lia|]. cbn [set_trailers_loop].
  assert (forall k, (exists t' e, addArgBytes t (trailer_key t k) [] true = Ret (t', e)) \/ addArgBytes t (trailer_key t k) [] true = Panic /\ k = []) as Hadd.
  { intros k. destruct (decide (trailer_key t k = [])) as [E|E]; [|left; by apply addArgBytes_named]. right. rewrite E. by apply trailer_key_nil in E. }
  destruct (decide (44 ∈ v)) as [Hc|Hc].
  - destruct (first_comma v Hc) as (k & r & -> & Hk). rewrite IndexByte_at by done. rewrite (proj2 (Z.ltb_ge _ _)) by apply len_nonneg.
    rewrite ztake_app, trailer_names_cons by done.
    destruct (Hadd (stripSpace k)) as [(t' & e & ->)|[-> E]]; cbn [outcome_bind].
    + case_if; breflect; [|split; [done|by eexists _, _]].
      assert (zdrop (len k + 1) (k ++ 44 :: r) = r) as ->.
      { replace (k ++ 44 :: r) with ((k ++ [44]) ++ r) by (by rewrite <- app_assoc). apply zdrop_app_at. by rewrite len_app. }
      destruct (IH t' r e) as [H1 H2]; [rewrite length_app in Hf; cbn in Hf; lia| |].
      { intros ->. rewrite len_app in *. change (len [44]) with 1 in *. lia. }
      split; [done|]. intros Hn. apply Forall_cons in Hn as [_ Hn]. by apply H2.
    + split; [done|]. intros Hn. apply Forall_cons in Hn as [Hn _]. done.
  - rewrite (proj2 (IndexByte_none v 44) Hc). cbn [Z.ltb Z.compare]. rewrite trailer_names_last by done.
    replace (ztake (len v) v) with v by (unfold ztake, len; rewrite Nat2Z.id; symmetry; by apply take_ge).
    rewrite (proj2 (Z.ltb_ge (len v + 1) (len v))) by lia. destruct (Hadd (stripSpace v)) as [(t' & e & ->)|[-> E]]; cbn [outcome_bind].
    + split; [done|by eexists _, _].
    + split; [done|]. intros Hn. by apply Forall_cons in Hn as [Hn _].
Qed.

Lemma SetTrailers_ends t v : SetTrailers t v <> OutOfFuel /\
  (Forall (fun k => stripSpace k <> []) (trailer_names v) -> exists t' e, SetTrailers t v = Ret (t', e)).
Proof.
  unfold SetTrailers. case_if; breflect; [|split; [done|by eexists _, _]]. apply set_trailers_loop_ends; [lia|]. by intros ->.
Qed.
