(* ===== verification/H2Base.v ===== *)
(** * HTTP/2: error values, settings and field checks

    [web/protocol/http2/errors.go] and [web/protocol/http2/http2.go]: the error
    type every other HTTP/2 file returns, the settings with their validity
    check, the stream states, and the predicates on header names, status codes
    and pseudo paths. *)

From S2P Require Import Prelude Bytes.

(** ** Error codes (errors.go) *)

Definition ErrCodeNo : Z := 0.
Definition ErrCodeProtocol : Z := 1.
Definition ErrCodeInternal : Z := 2.
Definition ErrCodeFlowControl : Z := 3.
Definition ErrCodeSettingsTimeout : Z := 4.
Definition ErrCodeStreamClosed : Z := 5.
Definition ErrCodeFrameSize : Z := 6.
Definition ErrCodeRefusedStream : Z := 7.
Definition ErrCodeCancel : Z := 8.
Definition ErrCodeCompression : Z := 9.
Definition ErrCodeConnect : Z := 10.
Definition ErrCodeEnhanceYourCalm : Z := 11.
Definition ErrCodeInadequateSecurity : Z := 12.
Definition ErrCodeHTTP11Required : Z := 13.

(** A Go map literal, as the list of its entries; lookup of a key. *)
Fixpoint table_get {V} (k : Z) (t : list (Z * V)) : option V :=
  match t with
  | [] => None
  | (k', v) :: t' => if k =? k' then Some v else table_get k t'
  end.

Definition errCodeName : list (Z * bytes) :=
  [ (ErrCodeNo, str "NO_ERROR");
    (ErrCodeProtocol, str "PROTOCOL_ERROR");
    (ErrCodeInternal, str "INTERNAL_ERROR");
    (ErrCodeFlowControl, str "FLOW_CONTROL_ERROR");
    (ErrCodeSettingsTimeout, str "SETTINGS_TIMEOUT");
    (ErrCodeStreamClosed, str "STREAM_CLOSED");
    (ErrCodeFrameSize, str "FRAME_SIZE_ERROR");
    (ErrCodeRefusedStream, str "REFUSED_STREAM");
    (ErrCodeCancel, str "CANCEL");
    (ErrCodeCompression, str "COMPRESSION_ERROR");
    (ErrCodeConnect, str "CONNECT_ERROR");
    (ErrCodeEnhanceYourCalm, str "ENHANCE_YOUR_CALM");
    (ErrCodeInadequateSecurity, str "INADEQUATE_SECURITY");
    (ErrCodeHTTP11Required, str "HTTP_1_1_REQUIRED") ].

Definition ErrCode_String (e : Z) : bytes :=
  match table_get e errCodeName with
  | Some s => s
  | None => str "unknown error code 0x" ++ itox e
  end.

(** ** Errors

    The [error] values of the package, and the ones of [io] that reach it.
    [ErrIO n] stands for any other error of the underlying connection. *)
Inductive error : Type :=
| EOF
| ErrUnexpectedEOF
| ErrShortWrite
| ErrIO (n : Z)
| ErrFrameTooLarge
| ConnectionError (code : Z)
| StreamError (streamID : Z) (code : Z) (cause : option error)
| connError (code : Z) (reason : bytes)
| goAwayFlowError
| pseudoHeaderError (name : bytes)
| duplicatePseudoHeaderError (name : bytes)
| headerFieldNameError (name : bytes)
| headerFieldValueError (value : bytes)
| errMixPseudoHeaderTypes
| errPseudoAfterRegular
| errStreamID
| errDepStreamID
| errPadLength
| errPadBytes
| errIllegalWindowIncrement
| errIllegalReads
| errReason (reason : bytes)
| errClosedPipeWrite
| errClientDisconnected
| errHandlerComplete
| errStreamClosed.

(** streamError(id, code) carries no cause. *)
Definition streamError (id code : Z) : error := StreamError id code None.

(** ** Settings (http2.go) *)

Definition SettingHeaderTableSize : Z := 1.
Definition SettingEnablePush : Z := 2.
Definition SettingMaxConcurrentStreams : Z := 3.
Definition SettingInitialWindowSize : Z := 4.
Definition SettingMaxFrameSize : Z := 5.
Definition SettingMaxHeaderListSize : Z := 6.

Record Setting := mkSetting { ID : Z; Val : Z }.

Definition settingName : list (Z * bytes) :=
  [ (SettingHeaderTableSize, str "HEADER_TABLE_SIZE");
    (SettingEnablePush, str "ENABLE_PUSH");
    (SettingMaxConcurrentStreams, str "MAX_CONCURRENT_STREAMS");
    (SettingInitialWindowSize, str "INITIAL_WINDOW_SIZE");
    (SettingMaxFrameSize, str "MAX_FRAME_SIZE");
    (SettingMaxHeaderListSize, str "MAX_HEADER_LIST_SIZE") ].

Definition SettingID_String (s : Z) : bytes :=
  match table_get s settingName with
  | Some v => v
  | None => str "UNKNOWN_SETTING_" ++ itoa s
  end.

(** Setting.Valid: [None] is the nil error. *)
Definition Setting_Valid (s : Setting) : option error :=
  if ID s =? SettingEnablePush then
    if negb (Val s =? 1) && negb (Val s =? 0)
    then Some (ConnectionError ErrCodeProtocol) else None
  else if ID s =? SettingInitialWindowSize then
    if Val s >? Z.shiftl 1 31 - 1
    then Some (ConnectionError ErrCodeFlowControl) else None
  else if ID s =? SettingMaxFrameSize then
    if (Val s <? 16384) || (Val s >? Z.shiftl 1 24 - 1)
    then Some (ConnectionError ErrCodeProtocol) else None
  else None.

Definition initialMaxFrameSize : Z := 16384.
Definition initialHeaderTableSize : Z := 4096.
Definition initialWindowSize : Z := 65535.
Definition defaultMaxReadFrameSize : Z := Z.shiftl 1 20.

Inductive streamState :=
| stateIdle | stateOpen | stateHalfClosedLocal | stateHalfClosedRemote | stateClosed.

#[export] Instance streamState_eq_dec : EqDecision streamState.
Proof. solve_decision. Defined.

Definition stateName (st : streamState) : bytes :=
  match st with
  | stateIdle => str "Idle"
  | stateOpen => str "Open"
  | stateHalfClosedLocal => str "HalfClosedLocal"
  | stateHalfClosedRemote => str "HalfClosedRemote"
  | stateClosed => str "Closed"
  end.

(** ** Field checks (http2.go) *)

Section FieldChecks.
(** [httpguts.IsTokenRune], of golang.org/x/net. *)
Context (IsTokenRune : Z -> bool).

Definition validWireHeaderFieldName (v : bytes) : bool :=
  if len v =? 0 then false
  else forallb (fun r => IsTokenRune r && negb ((65 <=? r) && (r <=? 90))) (runes v).

(** An accepted name is non-empty, made of token runes only, none upper case. *)
Lemma validWireHeaderFieldName_spec v :
  validWireHeaderFieldName v = true <->
  v <> [] /\ forall r, In r (runes v) -> IsTokenRune r = true /\ ~ (65 <= r <= 90).
Proof.
  unfold validWireHeaderFieldName. destruct v as [|b v]; [naive_solver|].
  rewrite len_cons. pose proof (len_nonneg v).
  destruct (1 + len v =? 0) eqn:E; breflect; [lia|]. rewrite forallb_forall.
  split; [intros H'; split; [done|] | intros [_ H']]; intros r Hr; specialize (H' r Hr);
    rewrite andb_true_iff, negb_true_iff, andb_false_iff in *;
    rewrite !Z.leb_gt in *; intuition lia.
Qed.
End FieldChecks.

Definition bodyAllowedForStatus (status : Z) : bool :=
  if (status >=? 100) && (status <=? 199) then false
  else if status =? 204 then false
  else if status =? 304 then false
  else true.

Definition validPseudoPath (v : bytes) : bool :=
  ((len v >? 0) && (default 0 (znth v 0) =? 47)) || bytes_eqb v (str "*").

Definition httpCodeString (code : Z) : bytes :=
  if code =? 200 then str "200"
  else if code =? 404 then str "404"
  else itoa code.
