(* ===== verification/H2Frame.v ===== *)
(** * HTTP/2: the framer

    [web/protocol/http2/frame.go]: frame headers and the ten frame types, the
    parsers, [Framer.ReadFrame] with its frame-order check and the assembly of
    [MetaHeadersFrame]s, and the [Write*] methods.

    A [*Frame] is an address in the framer's frame heap, because [ReadFrame]
    invalidates the frame it returned before and, when frames are reused, hands
    out the same [DataFrame] again.  The HPACK decoder and the two predicates of
    golang.org/x/net are the operations of the classes [HPACK] and [HTTPGuts]. *)

From S2P Require Import Prelude Bytes H2Base.

(** ** Frame types and flags *)

Definition frameHeaderLen : Z := 9.

Definition FrameData : Z := 0.
Definition FrameHeaders : Z := 1.
Definition FramePriority : Z := 2.
Definition FrameRSTStream : Z := 3.
Definition FrameSettings : Z := 4.
Definition FramePushPromise : Z := 5.
Definition FramePing : Z := 6.
Definition FrameGoAway : Z := 7.
Definition FrameWindowUpdate : Z := 8.
Definition FrameContinuation : Z := 9.

Definition frameName : list (Z * bytes) :=
  [ (FrameData, str "DATA");
    (FrameHeaders, str "HEADERS");
    (FramePriority, str "PRIORITY");
    (FrameRSTStream, str "RST_STREAM");
    (FrameSettings, str "SETTINGS");
    (FramePushPromise, str "PUSH_PROMISE");
    (FramePing, str "PING");
    (FrameGoAway, str "GOAWAY");
    (FrameWindowUpdate, str "WINDOW_UPDATE");
    (FrameContinuation, str "CONTINUATION") ].

Definition FrameType_String (t : Z) : bytes :=
  match table_get t frameName with
  | Some s => s
  | None => str "UNKNOWN_FRAME_TYPE_" ++ itoa t
  end.

(** Flags.Has. *)
Definition Has (f v : Z) : bool := Z.land f v =? v.

Definition FlagDataEndStream : Z := 1.
Definition FlagDataPadded : Z := 8.
Definition FlagHeadersEndStream : Z := 1.
Definition FlagHeadersEndHeaders : Z := 4.
Definition FlagHeadersPadded : Z := 8.
Definition FlagHeadersPriority : Z := 32.
Definition FlagSettingsAck : Z := 1.
Definition FlagPingAck : Z := 1.
Definition FlagContinuationEndHeaders : Z := 4.
Definition FlagPushPromiseEndHeaders : Z := 4.
Definition FlagPushPromisePadded : Z := 8.

Definition flagName : list (Z * list (Z * bytes)) :=
  [ (FrameData, [(FlagDataEndStream, str "END_STREAM"); (FlagDataPadded, str "PADDED")]);
    (FrameHeaders,
      [(FlagHeadersEndStream, str "END_STREAM"); (FlagHeadersEndHeaders, str "END_HEADERS");
       (FlagHeadersPadded, str "PADDED"); (FlagHeadersPriority, str "PRIORITY")]);
    (FrameSettings, [(FlagSettingsAck, str "ACK")]);
    (FramePing, [(FlagPingAck, str "ACK")]);
    (FrameContinuation, [(FlagContinuationEndHeaders, str "END_HEADERS")]);
    (FramePushPromise,
      [(FlagPushPromiseEndHeaders, str "END_HEADERS"); (FlagPushPromisePadded, str "PADDED")]) ].

(** ** Frame headers *)

Record FrameHeader := mkFrameHeader {
  valid : bool;
  Type_ : Z;      (* uint8 *)
  Flags : Z;      (* uint8 *)
  Length : Z;     (* uint32 *)
  StreamID : Z    (* uint32 *)
}.

(** FrameHeader{}. *)
Definition zeroHeader : FrameHeader := mkFrameHeader false 0 0 0 0.

(** The loop of writeDebug over the eight flag bits; [set] counts those set. *)
Fixpoint debugFlags (bits : list Z) (t flags : Z) (set : Z) : bytes :=
  match bits with
  | [] => []
  | i :: rest =>
      if Z.land flags (Z.shiftl 1 i) =? 0 then debugFlags rest t flags set
      else
        (if set + 1 >? 1 then str "|" else []) ++
        match table_get (Z.shiftl 1 i) (default [] (table_get t flagName)) with
        | Some name => name
        | None => str "0x" ++ itox (Z.shiftl 1 i)
        end ++ debugFlags rest t flags (set + 1)
  end.

(** What writeDebug appends to its buffer. *)
Definition writeDebug (h : FrameHeader) : bytes :=
  FrameType_String (Type_ h) ++
  (if Flags h =? 0 then []
   else str " flags=" ++ debugFlags [0;1;2;3;4;5;6;7] (Type_ h) (Flags h) 0) ++
  (if StreamID h =? 0 then [] else str " stream=" ++ itoa (StreamID h)) ++
  str " len=" ++ itoa (Length h).

Definition FrameHeader_String (h : FrameHeader) : bytes :=
  str "[FrameHeader " ++ writeDebug h ++ str "]".

(** checkValid panics on a frame the caller no longer owns. *)
Definition checkValid (h : FrameHeader) : outcome unit :=
  if valid h then Ret tt else Panic.

Definition header_invalidate (h : FrameHeader) : FrameHeader :=
  mkFrameHeader false (Type_ h) (Flags h) (Length h) (StreamID h).

(** ** The underlying reader and writer *)

(** An [io.Reader]: the octets it will still deliver, then its error. *)
Record reader := mkReader { r_data : bytes; r_end : error }.

(** [io.ReadFull(r, buf)] for a buffer of [n] octets. *)
Definition ReadFull (r : reader) (n : Z) : reader * result error bytes :=
  if n <=? len (r_data r)
  then (mkReader (zdrop n (r_data r)) (r_end r), Ok (ztake n (r_data r)))
  else (mkReader [] (r_end r),
        Err (match r_end r with
             | EOF => if len (r_data r) =? 0 then EOF else ErrUnexpectedEOF
             | e => e
             end)).

(** An [io.Writer]: the calls made so far, one entry per [Write], and its reply
    to the next one, which may depend on them. *)
Record writer := mkWriter {
  w_out : list bytes;
  w_reply : list bytes -> bytes -> Z * option error
}.

Definition writer_Write (w : writer) (p : bytes) : writer * (Z * option error) :=
  (mkWriter (w_out w ++ [p]) (w_reply w), w_reply w (w_out w) p).

(** readFrameHeader. *)
Definition readFrameHeader (r : reader) : reader * result error FrameHeader :=
  let '(r', res) := ReadFull r frameHeaderLen in
  match res with
  | Err e => (r', Err e)
  | Ok buf =>
      let b i := default 0 (buf !! i) in
      (r', Ok (mkFrameHeader true
                 (b 3%nat)
                 (b 4%nat)
                 (Z.lor (Z.lor (Z.shiftl (b 0%nat) 16) (Z.shiftl (b 1%nat) 8)) (b 2%nat))
                 (Z.land (be_uint32 (drop 5 buf)) (Z.shiftl 1 31 - 1))))
  end.

(** ** Frames *)

Record PriorityParam := mkPriorityParam {
  StreamDep : Z;       (* uint32 *)
  Exclusive : bool;
  Weight : Z           (* uint8 *)
}.

(** PriorityParam{}. *)
Definition zeroPriority : PriorityParam := mkPriorityParam 0 false 0.

Definition PriorityParam_IsZero (p : PriorityParam) : bool :=
  (StreamDep p =? 0) && negb (Exclusive p) && (Weight p =? 0).

Inductive Frame : Type :=
| DataFrame (h : FrameHeader) (data : bytes)
| HeadersFrame (h : FrameHeader) (prio : PriorityParam) (headerFragBuf : bytes)
| PriorityFrame (h : FrameHeader) (p : PriorityParam)
| RSTStreamFrame (h : FrameHeader) (code : Z)
| SettingsFrame (h : FrameHeader) (p : bytes)
| PushPromiseFrame (h : FrameHeader) (promiseID : Z) (headerFragBuf : bytes)
| PingFrame (h : FrameHeader) (data : bytes)
| GoAwayFrame (h : FrameHeader) (lastStreamID : Z) (code : Z) (debugData : bytes)
| WindowUpdateFrame (h : FrameHeader) (increment : Z)
| ContinuationFrame (h : FrameHeader) (headerFragBuf : bytes)
| UnknownFrame (h : FrameHeader) (p : bytes).

(** Frame.Header. *)
Definition Header (f : Frame) : FrameHeader :=
  match f with
  | DataFrame h _ | HeadersFrame h _ _ | PriorityFrame h _ | RSTStreamFrame h _
  | SettingsFrame h _ | PushPromiseFrame h _ _ | PingFrame h _ | GoAwayFrame h _ _ _
  | WindowUpdateFrame h _ | ContinuationFrame h _ | UnknownFrame h _ => h
  end.

Definition set_header (g : FrameHeader -> FrameHeader) (f : Frame) : Frame :=
  match f with
  | DataFrame h d => DataFrame (g h) d
  | HeadersFrame h p b => HeadersFrame (g h) p b
  | PriorityFrame h p => PriorityFrame (g h) p
  | RSTStreamFrame h c => RSTStreamFrame (g h) c
  | SettingsFrame h p => SettingsFrame (g h) p
  | PushPromiseFrame h i b => PushPromiseFrame (g h) i b
  | PingFrame h d => PingFrame (g h) d
  | GoAwayFrame h l c d => GoAwayFrame (g h) l c d
  | WindowUpdateFrame h i => WindowUpdateFrame (g h) i
  | ContinuationFrame h b => ContinuationFrame (g h) b
  | UnknownFrame h p => UnknownFrame (g h) p
  end.

(** Frame.invalidate. *)
Definition invalidate : Frame -> Frame := set_header header_invalidate.

Lemma Header_set_header g f : Header (set_header g f) = g (Header f).
Proof. by destruct f. Qed.

(** ** Payload readers *)

Definition readByte (p : bytes) : result error (bytes * Z) :=
  match p with
  | [] => Err ErrUnexpectedEOF
  | b :: p' => Ok (p', b)
  end.

Definition readUint32 (p : bytes) : result error (bytes * Z) :=
  if len p <? 4 then Err ErrUnexpectedEOF
  else Ok (zdrop 4 p, be_uint32 (ztake 4 p)).

(** ** Settings frames *)

(** SettingsFrame.NumSettings. *)
Definition NumSettings (p : bytes) : Z := len p / 6.

(** SettingsFrame.Setting; the index must be in range. *)
Definition SettingsFrame_Setting (p : bytes) (i : Z) : Setting :=
  mkSetting (be_uint16 (ztake 2 (zdrop (i * 6) p)))
            (be_uint32 (ztake 4 (zdrop (i * 6 + 2) p))).

(** The first setting with the given identifier, from index [i] on, [n] left. *)
Fixpoint Value_loop (n : nat) (i : Z) (p : bytes) (id : Z) : option Z :=
  match n with
  | O => None
  | S n' => let s := SettingsFrame_Setting p i in
            if ID s =? id then Some (Val s) else Value_loop n' (i + 1) p id
  end.

(** SettingsFrame.Value on the payload; [None] is [(0, false)]. *)
Definition SettingsFrame_Value (p : bytes) (id : Z) : option Z :=
  Value_loop (Z.to_nat (NumSettings p)) 0 p id.

(** The identifiers of the settings of [p], in order: [f.Setting(i).ID]. *)
Definition setting_at (p : bytes) (i : nat) : Z := ID (SettingsFrame_Setting p (Z.of_nat i)).

(** The inner loop of the quadratic branch of HasDuplicates: indices [j..j+n-1]. *)
Fixpoint dup_inner (n j : nat) (p : bytes) (idi : Z) : bool :=
  match n with
  | O => false
  | S n' => if idi =? setting_at p j then true else dup_inner n' (S j) p idi
  end.

(** Its outer loop: indices [i..i+n-1] of [num]. *)
Fixpoint dup_outer (n i num : nat) (p : bytes) : bool :=
  match n with
  | O => false
  | S n' => if dup_inner (num - S i) (S i) p (setting_at p i) then true
            else dup_outer n' (S i) num p
  end.

(** The branch with the map [seen]. *)
Fixpoint dup_seen (n i : nat) (p : bytes) (seen : gset Z) : bool :=
  match n with
  | O => false
  | S n' => let id := setting_at p i in
            if bool_decide (id ∈ seen) then true else dup_seen n' (S i) p ({[id]} ∪ seen)
  end.

Definition HasDuplicates (p : bytes) : bool :=
  let num := NumSettings p in
  if num =? 0 then false
  else if num <? 10 then dup_outer (Z.to_nat num) 0 (Z.to_nat num) p
  else dup_seen (Z.to_nat num) 0 p ∅.

(** ForeachSetting on a valid frame: the effect [fn] threads a state. *)
Fixpoint Foreach_loop {S} (n : nat) (i : Z) (p : bytes)
    (fn : Setting -> S -> S * option error) (s : S) : S * option error :=
  match n with
  | O => (s, None)
  | Datatypes.S n' =>
      let '(s', err) := fn (SettingsFrame_Setting p i) s in
      match err with
      | Some e => (s', Some e)
      | None => Foreach_loop n' (i + 1) p fn s'
      end
  end.

Definition ForeachSetting {S} (h : FrameHeader) (p : bytes)
    (fn : Setting -> S -> S * option error) (s : S) : outcome (S * option error) :=
  run _ <- checkValid h;
  Ret (Foreach_loop (Z.to_nat (NumSettings p)) 0 p fn s).

(** ** Frame parsers *)

Definition parseSettingsFrame (fh : FrameHeader) (p : bytes) : result error Frame :=
  if Has (Flags fh) FlagSettingsAck && (Length fh >? 0)
  then Err (ConnectionError ErrCodeFrameSize)
  else if negb (StreamID fh =? 0) then Err (ConnectionError ErrCodeProtocol)
  else if negb (len p mod 6 =? 0) then Err (ConnectionError ErrCodeFrameSize)
  else match SettingsFrame_Value p SettingInitialWindowSize with
       | Some v => if v >? Z.shiftl 1 31 - 1
                   then Err (ConnectionError ErrCodeFlowControl)
                   else Ok (SettingsFrame fh p)
       | None => Ok (SettingsFrame fh p)
       end.

Definition parsePingFrame (fh : FrameHeader) (payload : bytes) : result error Frame :=
  if negb (len payload =? 8) then Err (ConnectionError ErrCodeFrameSize)
  else if negb (StreamID fh =? 0) then Err (ConnectionError ErrCodeProtocol)
  else Ok (PingFrame fh payload).

Definition parseGoAwayFrame (fh : FrameHeader) (p : bytes) : result error Frame :=
  if negb (StreamID fh =? 0) then Err (ConnectionError ErrCodeProtocol)
  else if len p <? 8 then Err (ConnectionError ErrCodeFrameSize)
  else Ok (GoAwayFrame fh
             (Z.land (be_uint32 (ztake 4 p)) (Z.shiftl 1 31 - 1))
             (be_uint32 (zdrop 4 (ztake 8 p)))
             (zdrop 8 p)).

Definition parseUnknownFrame (fh : FrameHeader) (p : bytes) : result error Frame :=
  Ok (UnknownFrame fh p).

Definition parseWindowUpdateFrame (fh : FrameHeader) (p : bytes) : result error Frame :=
  if negb (len p =? 4) then Err (ConnectionError ErrCodeFrameSize)
  else
    let inc := Z.land (be_uint32 (ztake 4 p)) 2147483647 in
    if inc =? 0 then
      if StreamID fh =? 0 then Err (ConnectionError ErrCodeProtocol)
      else Err (streamError (StreamID fh) ErrCodeProtocol)
    else Ok (WindowUpdateFrame fh inc).

Definition parseHeadersFrame (fh : FrameHeader) (p : bytes) : result error Frame :=
  if StreamID fh =? 0
  then Err (connError ErrCodeProtocol (str "HEADERS frame with stream ID 0"))
  else
    try (p, padLength) <- (if Has (Flags fh) FlagHeadersPadded
                           then readByte p else Ok (p, 0));
    try (p, prio) <- (if Has (Flags fh) FlagHeadersPriority
                      then try (p, v) <- readUint32 p;
                           let dep := Z.land v 2147483647 in
                           try (p, w) <- readByte p;
                           Ok (p, mkPriorityParam dep (negb (v =? dep)) w)
                      else Ok (p, zeroPriority));
    if len p - padLength <=? 0 then Err (streamError (StreamID fh) ErrCodeProtocol)
    else Ok (HeadersFrame fh prio (ztake (len p - padLength) p)).

Definition parsePriorityFrame (fh : FrameHeader) (payload : bytes) : result error Frame :=
  if StreamID fh =? 0
  then Err (connError ErrCodeProtocol (str "PRIORITY frame with stream ID 0"))
  else if negb (len payload =? 5)
  then Err (connError ErrCodeFrameSize
              (str "PRIORITY frame payload size was " ++ itoa (len payload) ++ str "; want 5"))
  else
    let v := be_uint32 (ztake 4 payload) in
    let streamID := Z.land v 2147483647 in
    Ok (PriorityFrame fh
          (mkPriorityParam streamID (negb (streamID =? v)) (default 0 (payload !! 4%nat)))).

Definition parseRSTStreamFrame (fh : FrameHeader) (p : bytes) : result error Frame :=
  if negb (len p =? 4) then Err (ConnectionError ErrCodeFrameSize)
  else if StreamID fh =? 0 then Err (ConnectionError ErrCodeProtocol)
  else Ok (RSTStreamFrame fh (be_uint32 (ztake 4 p))).

Definition parseContinuationFrame (fh : FrameHeader) (p : bytes) : result error Frame :=
  if StreamID fh =? 0
  then Err (connError ErrCodeProtocol (str "CONTINUATION frame with stream ID 0"))
  else Ok (ContinuationFrame fh p).

Definition parsePushPromise (fh : FrameHeader) (p : bytes) : result error Frame :=
  if StreamID fh =? 0 then Err (ConnectionError ErrCodeProtocol)
  else
    try (p, padLength) <- (if Has (Flags fh) FlagPushPromisePadded
                           then readByte p else Ok (p, 0));
    try (p, v) <- readUint32 p;
    let promiseID := Z.land v (Z.shiftl 1 31 - 1) in
    if padLength >? len p then Err (ConnectionError ErrCodeProtocol)
    else Ok (PushPromiseFrame fh promiseID (ztake (len p - padLength) p)).

(** *** The frame heap

    The parser of DATA frames may write into the cached frame; the others
    allocate. *)

Abbreviation heap := (list Frame).

(** frameCache.getDataFrame: the cached cell, or a new zero one. *)
Definition getDataFrame (fc : option nat) (h : heap) : heap * nat :=
  match fc with
  | None => (h ++ [DataFrame zeroHeader []], length h)
  | Some a => (h, a)
  end.

(** [f.FrameHeader = fh] and [f.data = d] through the pointer [a]. *)
Definition store_header (a : nat) (fh : FrameHeader) (h : heap) : heap :=
  alter (set_header (fun _ => fh)) a h.
Definition store_data (a : nat) (d : bytes) (h : heap) : heap :=
  alter (fun f => match f with DataFrame fh _ => DataFrame fh d | _ => f end) a h.

Definition frameParser : Type :=
  option nat -> FrameHeader -> bytes -> heap -> heap * result error nat.

Definition parseDataFrame : frameParser := fun fc fh payload h =>
  if StreamID fh =? 0
  then (h, Err (connError ErrCodeProtocol (str "DATA frame with stream ID 0")))
  else
    let '(h, a) := getDataFrame fc h in
    let h := store_header a fh h in
    match (if Has (Flags fh) FlagDataPadded then readByte payload else Ok (payload, 0)) with
    | Err e => (h, Err e)
    | Ok (payload, padSize) =>
        if padSize >? len payload
        then (h, Err (connError ErrCodeProtocol (str "pad size larger than data payload")))
        else (store_data a (ztake (len payload - padSize) payload) h, Ok a)
    end.

(** A parser that ignores the cache and allocates its frame. *)
Definition fresh (p : FrameHeader -> bytes -> result error Frame) : frameParser :=
  fun _ fh payload h =>
    match p fh payload with
    | Ok f => (h ++ [f], Ok (length h))
    | Err e => (h, Err e)
    end.

Definition frameParsers : list (Z * frameParser) :=
  [ (FrameData, parseDataFrame);
    (FrameHeaders, fresh parseHeadersFrame);
    (FramePriority, fresh parsePriorityFrame);
    (FrameRSTStream, fresh parseRSTStreamFrame);
    (FrameSettings, fresh parseSettingsFrame);
    (FramePushPromise, fresh parsePushPromise);
    (FramePing, fresh parsePingFrame);
    (FrameGoAway, fresh parseGoAwayFrame);
    (FrameWindowUpdate, fresh parseWindowUpdateFrame);
    (FrameContinuation, fresh parseContinuationFrame) ].

Definition typeFrameParser (t : Z) : frameParser :=
  match table_get t frameParsers with
  | Some f => f
  | None => fresh parseUnknownFrame
  end.

(** *** Accessors *)

(** DataFrame.Data and the other payload accessors panic on an invalid frame. *)
Definition DataFrame_Data (h : FrameHeader) (data : bytes) : outcome bytes :=
  run _ <- checkValid h; Ret data.
Definition GoAwayFrame_DebugData (h : FrameHeader) (debugData : bytes) : outcome bytes :=
  run _ <- checkValid h; Ret debugData.
Definition UnknownFrame_Payload (h : FrameHeader) (p : bytes) : outcome bytes :=
  run _ <- checkValid h; Ret p.

(** HeaderBlockFragment of HEADERS, CONTINUATION and PUSH_PROMISE frames. *)
Definition HeaderBlockFragment (f : Frame) : outcome bytes :=
  match f with
  | HeadersFrame h _ b | ContinuationFrame h b | PushPromiseFrame h _ b =>
      run _ <- checkValid h; Ret b
  | _ => Panic
  end.

Definition HeadersEnded (f : Frame) : bool :=
  match f with
  | HeadersFrame h _ _ => Has (Flags h) FlagHeadersEndHeaders
  | ContinuationFrame h _ => Has (Flags h) FlagContinuationEndHeaders
  | PushPromiseFrame h _ _ => Has (Flags h) FlagPushPromiseEndHeaders
  | _ => false
  end.

Definition StreamEnded (h : FrameHeader) : bool := Has (Flags h) FlagDataEndStream.
Definition HasPriority (h : FrameHeader) : bool := Has (Flags h) FlagHeadersPriority.
Definition IsAck (h : FrameHeader) : bool := Has (Flags h) FlagSettingsAck.

(** ** golang.org/x/net

    The parts of [hpack] and [httpguts] the framer calls. *)

(** hpack.HeaderField. *)
Record HeaderField := mkField { Name : bytes; Value : bytes }.

(** A run of [Decoder.Write]: it calls the emit function on the fields it
    decodes, one after the other, each call telling it whether emission stays
    enabled, and ends with the new decoder and an error. *)
Inductive decRun (D : Type) : Type :=
| DecDone (d : D) (err : option error)
| DecEmit (hf : HeaderField) (k : bool -> decRun D).
Arguments DecDone {D} d err.
Arguments DecEmit {D} hf k.

Class HPACK := {
  Decoder : Type;
  SetEmitEnabled : Decoder -> bool -> Decoder;
  SetMaxStringLength : Decoder -> Z -> Decoder;
  Decoder_Write : Decoder -> bytes -> decRun Decoder;
  Decoder_Close : Decoder -> Decoder * option error;
  IsPseudo : HeaderField -> bool;
  Field_Size : HeaderField -> Z     (* uint32 *)
}.

Class HTTPGuts := {
  IsTokenRune : Z -> bool;
  ValidHeaderFieldValue : bytes -> bool
}.

(** What the documentation of [hpack] says of the two methods of a field:
    a pseudo header "starts with a colon", and the size is the one of RFC 7541,
    section 4.1, the octets of name and value plus 32, as a uint32. *)
Class HPACKLaws `{HPACK} := {
  IsPseudo_spec hf : IsPseudo hf = has_prefix (str ":") (Name hf);
  Field_Size_spec hf : Field_Size hf = u32 (len (Name hf) + len (Value hf) + 32)
}.

(** ** The framer *)

Section Framer.
Context `{HPACK, HTTPGuts}.

Record Framer := mkFramer {
  fr_r : reader;
  lastFrame : option nat;          (* a pointer into fr_heap *)
  errDetail : option error;
  lastHeaderStream : Z;
  maxReadSize : Z;
  fr_w : writer;
  wbuf : bytes;
  AllowIllegalWrites : bool;
  AllowIllegalReads : bool;
  ReadMetaHeaders : option Decoder;
  MaxHeaderListSize : Z;
  frameCache : option nat;         (* the address of the cached DataFrame *)
  fr_heap : heap
}.

Definition set_r (f : Framer) (r : reader) : Framer :=
  mkFramer r (lastFrame f) (errDetail f) (lastHeaderStream f) (maxReadSize f) (fr_w f)
    (wbuf f) (AllowIllegalWrites f) (AllowIllegalReads f) (ReadMetaHeaders f)
    (MaxHeaderListSize f) (frameCache f) (fr_heap f).
Definition set_lastFrame (f : Framer) (l : option nat) : Framer :=
  mkFramer (fr_r f) l (errDetail f) (lastHeaderStream f) (maxReadSize f) (fr_w f)
    (wbuf f) (AllowIllegalWrites f) (AllowIllegalReads f) (ReadMetaHeaders f)
    (MaxHeaderListSize f) (frameCache f) (fr_heap f).
Definition set_errDetail (f : Framer) (e : option error) : Framer :=
  mkFramer (fr_r f) (lastFrame f) e (lastHeaderStream f) (maxReadSize f) (fr_w f)
    (wbuf f) (AllowIllegalWrites f) (AllowIllegalReads f) (ReadMetaHeaders f)
    (MaxHeaderListSize f) (frameCache f) (fr_heap f).
Definition set_lastHeaderStream (f : Framer) (s : Z) : Framer :=
  mkFramer (fr_r f) (lastFrame f) (errDetail f) s (maxReadSize f) (fr_w f)
    (wbuf f) (AllowIllegalWrites f) (AllowIllegalReads f) (ReadMetaHeaders f)
    (MaxHeaderListSize f) (frameCache f) (fr_heap f).
Definition set_maxReadSize (f : Framer) (m : Z) : Framer :=
  mkFramer (fr_r f) (lastFrame f) (errDetail f) (lastHeaderStream f) m (fr_w f)
    (wbuf f) (AllowIllegalWrites f) (AllowIllegalReads f) (ReadMetaHeaders f)
    (MaxHeaderListSize f) (frameCache f) (fr_heap f).
Definition set_w (f : Framer) (w : writer) : Framer :=
  mkFramer (fr_r f) (lastFrame f) (errDetail f) (lastHeaderStream f) (maxReadSize f) w
    (wbuf f) (AllowIllegalWrites f) (AllowIllegalReads f) (ReadMetaHeaders f)
    (MaxHeaderListSize f) (frameCache f) (fr_heap f).
Definition set_wbuf (f : Framer) (b : bytes) : Framer :=
  mkFramer (fr_r f) (lastFrame f) (errDetail f) (lastHeaderStream f) (maxReadSize f) (fr_w f)
    b (AllowIllegalWrites f) (AllowIllegalReads f) (ReadMetaHeaders f)
    (MaxHeaderListSize f) (frameCache f) (fr_heap f).
Definition set_decoder (f : Framer) (d : option Decoder) : Framer :=
  mkFramer (fr_r f) (lastFrame f) (errDetail f) (lastHeaderStream f) (maxReadSize f) (fr_w f)
    (wbuf f) (AllowIllegalWrites f) (AllowIllegalReads f) d
    (MaxHeaderListSize f) (frameCache f) (fr_heap f).
Definition set_heap (f : Framer) (hp : heap) : Framer :=
  mkFramer (fr_r f) (lastFrame f) (errDetail f) (lastHeaderStream f) (maxReadSize f) (fr_w f)
    (wbuf f) (AllowIllegalWrites f) (AllowIllegalReads f) (ReadMetaHeaders f)
    (MaxHeaderListSize f) (frameCache f) hp.
Definition set_cache (f : Framer) (c : option nat) (hp : heap) : Framer :=
  mkFramer (fr_r f) (lastFrame f) (errDetail f) (lastHeaderStream f) (maxReadSize f) (fr_w f)
    (wbuf f) (AllowIllegalWrites f) (AllowIllegalReads f) (ReadMetaHeaders f)
    (MaxHeaderListSize f) c hp.

Definition minMaxFrameSize : Z := Z.shiftl 1 14.
Definition maxFrameSize : Z := Z.shiftl 1 24 - 1.

Definition SetMaxReadFrameSize (fr : Framer) (v : Z) : Framer :=
  set_maxReadSize fr (if v >? maxFrameSize then maxFrameSize else v).

(** NewFramer(w, r), with the default field values. *)
Definition NewFramer (w : writer) (r : reader) : Framer :=
  SetMaxReadFrameSize (mkFramer r None None 0 0 w [] false false None 0 None []) maxFrameSize.

Definition SetReuseFrames (fr : Framer) : Framer :=
  match frameCache fr with
  | Some _ => fr
  | None => set_cache fr (Some (length (fr_heap fr))) (fr_heap fr ++ [DataFrame zeroHeader []])
  end.

Definition maxHeaderListSize (fr : Framer) : Z :=
  if MaxHeaderListSize fr =? 0 then Z.shiftl 16 20 else MaxHeaderListSize fr.

Definition maxHeaderStringLen (fr : Framer) : Z :=
  let v := maxHeaderListSize fr in
  if u32 (i64 v) =? v then i64 v else 0.

(** *** Writing *)

Definition startWrite (f : Framer) (ftype flags streamID : Z) : Framer :=
  set_wbuf f ([0; 0; 0; u8 ftype; u8 flags] ++ put_uint32 streamID).

Definition endWrite (f : Framer) : Framer * option error :=
  let length := len (wbuf f) - frameHeaderLen in
  if length >=? Z.shiftl 1 24 then (f, Some ErrFrameTooLarge)
  else
    let f := set_wbuf f ([u8 (Z.shiftr length 16); u8 (Z.shiftr length 8); u8 length]
                           ++ drop 3 (wbuf f)) in
    let '(w, (n, err)) := writer_Write (fr_w f) (wbuf f) in
    (set_w f w,
     match err with
     | None => if negb (n =? len (wbuf f)) then Some ErrShortWrite else None
     | Some e => Some e
     end).

Definition writeBytes (f : Framer) (v : bytes) : Framer := set_wbuf f (wbuf f ++ v).
Definition writeByte (f : Framer) (v : Z) : Framer := writeBytes f [v].
Definition writeUint16 (f : Framer) (v : Z) : Framer := writeBytes f (put_uint16 v).
Definition writeUint32 (f : Framer) (v : Z) : Framer := writeBytes f (put_uint32 v).

Definition validStreamIDOrZero (streamID : Z) : bool :=
  Z.land streamID (Z.shiftl 1 31) =? 0.
Definition validStreamID (streamID : Z) : bool :=
  negb (streamID =? 0) && (Z.land streamID (Z.shiftl 1 31) =? 0).

(** [if c { flags |= b }]. *)
Definition addFlag (c : bool) (b flags : Z) : Z := if c then Z.lor flags b else flags.

(** [pad] is [None] for nil. *)
Definition WriteDataPadded (f : Framer) (streamID : Z) (endStream : bool)
    (data : bytes) (pad : option bytes) : Framer * option error :=
  let padb := default [] pad in
  if negb (validStreamID streamID) && negb (AllowIllegalWrites f) then (f, Some errStreamID)
  else if (len padb >? 0) && (len padb >? 255) then (f, Some errPadLength)
  else if (len padb >? 0) && negb (AllowIllegalWrites f)
          && existsb (fun b => negb (b =? 0)) padb then (f, Some errPadBytes)
  else
    let flags := addFlag endStream FlagDataEndStream 0 in
    let flags := addFlag (bool_decide (is_Some pad)) FlagDataPadded flags in
    let f := startWrite f FrameData flags streamID in
    let f := match pad with Some pb => writeBytes f [u8 (len pb)] | None => f end in
    let f := writeBytes f data in
    let f := writeBytes f padb in
    endWrite f.

Definition WriteData (f : Framer) (streamID : Z) (endStream : bool) (data : bytes) :
    Framer * option error :=
  WriteDataPadded f streamID endStream data None.

Definition WriteSettings (f : Framer) (settings : list Setting) : Framer * option error :=
  let f := startWrite f FrameSettings 0 0 in
  let f := foldl (fun f s => writeUint32 (writeUint16 f (ID s)) (Val s)) f settings in
  endWrite f.

Definition WriteSettingsAck (f : Framer) : Framer * option error :=
  endWrite (startWrite f FrameSettings FlagSettingsAck 0).

Definition WritePing (f : Framer) (ack : bool) (data : bytes) : Framer * option error :=
  let flags := if ack then FlagPingAck else 0 in
  endWrite (writeBytes (startWrite f FramePing flags 0) data).

Definition WriteGoAway (f : Framer) (maxStreamID code : Z) (debugData : bytes) :
    Framer * option error :=
  let f := startWrite f FrameGoAway 0 0 in
  let f := writeUint32 f (Z.land maxStreamID (Z.shiftl 1 31 - 1)) in
  let f := writeUint32 f code in
  let f := writeBytes f debugData in
  endWrite f.

Definition WriteWindowUpdate (f : Framer) (streamID incr : Z) : Framer * option error :=
  if ((incr <? 1) || (incr >? 2147483647)) && negb (AllowIllegalWrites f)
  then (f, Some errIllegalWindowIncrement)
  else endWrite (writeUint32 (startWrite f FrameWindowUpdate 0 streamID) incr).

(** HeadersFrameParam. *)
Record HeadersFrameParam := mkHeadersFrameParam {
  hp_StreamID : Z;
  hp_BlockFragment : bytes;
  hp_EndStream : bool;
  hp_EndHeaders : bool;
  hp_PadLength : Z;
  hp_Priority : PriorityParam
}.

Definition padZeros (n : Z) : bytes := replicate (Z.to_nat n) 0.

(** [v := p.StreamDep; if p.Exclusive { v |= 1 << 31 }]. *)
Definition priority_word (p : PriorityParam) : Z :=
  if Exclusive p then Z.lor (StreamDep p) (Z.shiftl 1 31) else StreamDep p.

Definition WriteHeaders (f : Framer) (p : HeadersFrameParam) : Framer * option error :=
  if negb (validStreamID (hp_StreamID p)) && negb (AllowIllegalWrites f)
  then (f, Some errStreamID)
  else
    let flags := addFlag (negb (hp_PadLength p =? 0)) FlagHeadersPadded 0 in
    let flags := addFlag (hp_EndStream p) FlagHeadersEndStream flags in
    let flags := addFlag (hp_EndHeaders p) FlagHeadersEndHeaders flags in
    let hasPrio := negb (PriorityParam_IsZero (hp_Priority p)) in
    let flags := addFlag hasPrio FlagHeadersPriority flags in
    let f := startWrite f FrameHeaders flags (hp_StreamID p) in
    let f := if negb (hp_PadLength p =? 0) then writeByte f (hp_PadLength p) else f in
    let tail f :=
      let f := writeBytes f (hp_BlockFragment p) in
      endWrite (writeBytes f (padZeros (hp_PadLength p))) in
    if hasPrio then
      if negb (validStreamIDOrZero (StreamDep (hp_Priority p))) && negb (AllowIllegalWrites f)
      then (f, Some errDepStreamID)
      else tail (writeByte (writeUint32 f (priority_word (hp_Priority p)))
                   (Weight (hp_Priority p)))
    else tail f.

Definition WritePriority (f : Framer) (streamID : Z) (p : PriorityParam) :
    Framer * option error :=
  if negb (validStreamID streamID) && negb (AllowIllegalWrites f) then (f, Some errStreamID)
  else if negb (validStreamIDOrZero (StreamDep p)) then (f, Some errDepStreamID)
  else
    let f := startWrite f FramePriority 0 streamID in
    endWrite (writeByte (writeUint32 f (priority_word p)) (Weight p)).

Definition WriteRSTStream (f : Framer) (streamID code : Z) : Framer * option error :=
  if negb (validStreamID streamID) && negb (AllowIllegalWrites f) then (f, Some errStreamID)
  else endWrite (writeUint32 (startWrite f FrameRSTStream 0 streamID) code).

Definition WriteContinuation (f : Framer) (streamID : Z) (endHeaders : bool)
    (headerBlockFragment : bytes) : Framer * option error :=
  if negb (validStreamID streamID) && negb (AllowIllegalWrites f) then (f, Some errStreamID)
  else
    let flags := addFlag endHeaders FlagContinuationEndHeaders 0 in
    endWrite (writeBytes (startWrite f FrameContinuation flags streamID) headerBlockFragment).

(** PushPromiseParam. *)
Record PushPromiseParam := mkPushPromiseParam {
  pp_StreamID : Z;
  pp_PromiseID : Z;
  pp_BlockFragment : bytes;
  pp_EndHeaders : bool;
  pp_PadLength : Z
}.

Definition WritePushPromise (f : Framer) (p : PushPromiseParam) : Framer * option error :=
  if negb (validStreamID (pp_StreamID p)) && negb (AllowIllegalWrites f)
  then (f, Some errStreamID)
  else
    let flags := addFlag (negb (pp_PadLength p =? 0)) FlagPushPromisePadded 0 in
    let flags := addFlag (pp_EndHeaders p) FlagPushPromiseEndHeaders flags in
    let f := startWrite f FramePushPromise flags (pp_StreamID p) in
    let f := if negb (pp_PadLength p =? 0) then writeByte f (pp_PadLength p) else f in
    if negb (validStreamID (pp_PromiseID p)) && negb (AllowIllegalWrites f)
    then (f, Some errStreamID)
    else
      let f := writeUint32 f (pp_PromiseID p) in
      let f := writeBytes f (pp_BlockFragment p) in
      endWrite (writeBytes f (padZeros (pp_PadLength p))).

Definition WriteRawFrame (f : Framer) (t flags streamID : Z) (payload : bytes) :
    Framer * option error :=
  endWrite (writeBytes (startWrite f t flags streamID) payload).

(** *** Reading *)

(** fr.connError. *)
Definition Framer_connError (fr : Framer) (code : Z) (reason : bytes) : Framer * error :=
  (set_errDetail fr (Some (errReason reason)), ConnectionError code).

(** The header of the frame a pointer designates. *)
Definition header_at (hp : heap) (a : nat) : FrameHeader :=
  from_option Header zeroHeader (hp !! a).

Definition checkFrameOrder (fr : Framer) (f : nat) : Framer * option error :=
  let last := lastFrame fr in
  let fr := set_lastFrame fr (Some f) in
  if AllowIllegalReads fr then (fr, None)
  else
    let fh := header_at (fr_heap fr) f in
    let lastType := from_option (fun a => Type_ (header_at (fr_heap fr) a)) 0 last in
    let fail reason :=
      let '(fr, e) := Framer_connError fr ErrCodeProtocol reason in (fr, Some e) in
    let accept :=
      if (Type_ fh =? FrameHeaders) || (Type_ fh =? FrameContinuation) then
        if Has (Flags fh) FlagHeadersEndHeaders
        then (set_lastHeaderStream fr 0, None)
        else (set_lastHeaderStream fr (StreamID fh), None)
      else (fr, None) in
    if negb (lastHeaderStream fr =? 0) then
      if negb (Type_ fh =? FrameContinuation) then
        fail (str "got " ++ FrameType_String (Type_ fh) ++ str " for stream " ++
              itoa (StreamID fh) ++ str "; expected CONTINUATION following " ++
              FrameType_String lastType ++ str " for stream " ++ itoa (lastHeaderStream fr))
      else if negb (StreamID fh =? lastHeaderStream fr) then
        fail (str "got CONTINUATION for stream " ++ itoa (StreamID fh) ++
              str "; expected stream " ++ itoa (lastHeaderStream fr))
      else accept
    else if Type_ fh =? FrameContinuation then
      fail (str "unexpected CONTINUATION for stream " ++ itoa (StreamID fh))
    else accept.

(** The first lines of ReadFrame: the error detail is reset and the frame
    returned before is invalidated. *)
Definition dropLast (fr : Framer) : Framer :=
  let fr := set_errDetail fr None in
  match lastFrame fr with
  | Some a => set_heap fr (alter invalidate a (fr_heap fr))
  | None => fr
  end.

(** The part of ReadFrame before the assembly of meta frames: it reads one
    frame off the wire, parses it and checks the frame order. *)
Definition readFrame1 (fr : Framer) : Framer * result error nat :=
  let fr := dropLast fr in
  let '(r, res) := readFrameHeader (fr_r fr) in
  let fr := set_r fr r in
  match res with
  | Err e => (fr, Err e)
  | Ok fh =>
      if Length fh >? maxReadSize fr then (fr, Err ErrFrameTooLarge)
      else
        let '(r, res) := ReadFull (fr_r fr) (Length fh) in
        let fr := set_r fr r in
        match res with
        | Err e => (fr, Err e)
        | Ok payload =>
            let '(hp, res) := typeFrameParser (Type_ fh) (frameCache fr) fh payload (fr_heap fr) in
            let fr := set_heap fr hp in
            match res with
            | Err (connError code reason) =>
                let '(fr, e) := Framer_connError fr code reason in (fr, Err e)
            | Err e => (fr, Err e)
            | Ok f =>
                let '(fr, oe) := checkFrameOrder fr f in
                match oe with
                | Some e => (fr, Err e)
                | None => (fr, Ok f)
                end
            end
        end
  end.

(** MetaHeadersFrame; the embedded HeadersFrame is a pointer. *)
Record MetaHeadersFrame := mkMeta {
  mh_HeadersFrame : nat;
  Fields : list HeaderField;
  Truncated : bool
}.

(** The [Frame] interface value ReadFrame returns. *)
Inductive FrameRef : Type :=
| RefFrame (a : nat)
| RefMeta (mh : MetaHeadersFrame).

Fixpoint PseudoFields (fs : list HeaderField) : list HeaderField :=
  match fs with
  | [] => []
  | hf :: t => if IsPseudo hf then hf :: PseudoFields t else []
  end.

Fixpoint RegularFields (fs : list HeaderField) : list HeaderField :=
  match fs with
  | [] => []
  | hf :: t => if IsPseudo hf then RegularFields t else fs
  end.

(** MetaHeadersFrame.PseudoValue. *)
Fixpoint PseudoValue (fs : list HeaderField) (pseudo : bytes) : bytes :=
  match fs with
  | [] => []
  | hf :: t => if negb (IsPseudo hf) then []
               else if bytes_eqb (drop 1 (Name hf)) pseudo then Value hf
               else PseudoValue t pseudo
  end.

Definition request_pseudo (n : bytes) : bool :=
  bytes_eqb n (str ":method") || bytes_eqb n (str ":path")
  || bytes_eqb n (str ":scheme") || bytes_eqb n (str ":authority").

(** The loop of checkPseudos: [seen] is [pf[:i]]. *)
Fixpoint checkPseudos_loop (seen pf : list HeaderField) (isRequest isResponse : bool) :
    option error :=
  match pf with
  | [] => if isRequest && isResponse then Some errMixPseudoHeaderTypes else None
  | hf :: t =>
      let dup := existsb (fun hf2 => bytes_eqb (Name hf) (Name hf2)) seen in
      if request_pseudo (Name hf) then
        if dup then Some (duplicatePseudoHeaderError (Name hf))
        else checkPseudos_loop (seen ++ [hf]) t true isResponse
      else if bytes_eqb (Name hf) (str ":status") then
        if dup then Some (duplicatePseudoHeaderError (Name hf))
        else checkPseudos_loop (seen ++ [hf]) t isRequest true
      else Some (pseudoHeaderError (Name hf))
  end.

Definition checkPseudos (fs : list HeaderField) : option error :=
  checkPseudos_loop [] (PseudoFields fs) false false.

(** The variables the emit function of readMetaFrame closes over. *)
Record metaState := mkMetaState {
  remainSize : Z;              (* uint32 *)
  sawRegular : bool;
  invalid : option error;
  m_fields : list HeaderField;
  m_truncated : bool
}.

(** The emit function; it also returns whether emission stays enabled. *)
Definition metaEmit (m : metaState) (hf : HeaderField) : metaState * bool :=
  let inv := if negb (ValidHeaderFieldValue (Value hf))
             then Some (headerFieldValueError (Value hf)) else invalid m in
  let '(saw, inv) :=
    if has_prefix (str ":") (Name hf)
    then (sawRegular m, if sawRegular m then Some errPseudoAfterRegular else inv)
    else (true, if negb (validWireHeaderFieldName IsTokenRune (Name hf))
                then Some (headerFieldNameError (Name hf)) else inv) in
  match inv with
  | Some _ => (mkMetaState (remainSize m) saw inv (m_fields m) (m_truncated m), false)
  | None =>
      let size := Field_Size hf in
      if size >? remainSize m
      then (mkMetaState 0 saw inv (m_fields m) true, false)
      else (mkMetaState (u32 (remainSize m - size)) saw inv (m_fields m ++ [hf])
              (m_truncated m), true)
  end.

(** Decoder.Write with that emit function installed. *)
Fixpoint runDecoder (d : decRun Decoder) (m : metaState) : Decoder * option error * metaState :=
  match d with
  | DecDone d err => (d, err, m)
  | DecEmit hf k => let '(m, enabled) := metaEmit m hf in runDecoder (k enabled) m
  end.

(** The end of readMetaFrame, after its loop. *)
Definition finishMeta (fr : Framer) (hf : nat) (hdec : Decoder) (m : metaState) :
    Framer * result error FrameRef :=
  let clear f := match f with
                 | HeadersFrame h p _ => invalidate (HeadersFrame h p [])
                 | _ => f
                 end in
  let fr := set_heap fr (alter clear hf (fr_heap fr)) in
  let '(hdec, cerr) := Decoder_Close hdec in
  let fr := set_decoder fr (Some hdec) in
  let streamID := StreamID (header_at (fr_heap fr) hf) in
  match cerr with
  | Some _ => (fr, Err (ConnectionError ErrCodeCompression))
  | None =>
      match invalid m with
      | Some e => (set_errDetail fr (Some e), Err (StreamError streamID ErrCodeProtocol (Some e)))
      | None =>
          match checkPseudos (m_fields m) with
          | Some e => (set_errDetail fr (Some e),
                       Err (StreamError streamID ErrCodeProtocol (Some e)))
          | None => (fr, Ok (RefMeta (mkMeta hf (m_fields m) (m_truncated m))))
          end
      end
  end.

(** ReadFrame, and the loop of readMetaFrame: [hc] points to the HEADERS or
    CONTINUATION frame whose fragment is next, [hf] to the HEADERS frame. *)
Fixpoint ReadFrame (fuel : nat) (fr : Framer) {struct fuel} :
    outcome (Framer * result error FrameRef) :=
  match fuel with
  | O => OutOfFuel
  | S fuel =>
      let '(fr, res) := readFrame1 fr in
      match res with
      | Err e => Ret (fr, Err e)
      | Ok a =>
          match ReadMetaHeaders fr with
          | Some hdec =>
              if Type_ (header_at (fr_heap fr) a) =? FrameHeaders then
                if AllowIllegalReads fr then Ret (fr, Err errIllegalReads)
                else
                  let hdec := SetEmitEnabled hdec true in
                  let hdec := SetMaxStringLength hdec (maxHeaderStringLen fr) in
                  metaLoop fuel fr a a hdec
                    (mkMetaState (maxHeaderListSize fr) false None [] false)
              else Ret (fr, Ok (RefFrame a))
          | None => Ret (fr, Ok (RefFrame a))
          end
      end
  end
with metaLoop (fuel : nat) (fr : Framer) (hf hc : nat) (hdec : Decoder) (m : metaState)
    {struct fuel} : outcome (Framer * result error FrameRef) :=
  match fuel with
  | O => OutOfFuel
  | S fuel =>
      run f <- deref (fr_heap fr !! hc);
      run frag <- HeaderBlockFragment f;
      if len frag >? u32 (2 * remainSize m)
      then Ret (set_decoder fr (Some hdec), Err (ConnectionError ErrCodeProtocol))
      else if bool_decide (is_Some (invalid m))
      then Ret (set_decoder fr (Some hdec), Err (ConnectionError ErrCodeProtocol))
      else
        let '(hdec, werr, m) := runDecoder (Decoder_Write hdec frag) m in
        let fr := set_decoder fr (Some hdec) in
        match werr with
        | Some _ => Ret (fr, Err (ConnectionError ErrCodeCompression))
        | None =>
            if HeadersEnded f then Ret (finishMeta fr hf hdec m)
            else
              run (fr, res) <- ReadFrame fuel fr;
              match res with
              | Err e => Ret (fr, Err e)
              | Ok (RefFrame a) =>
                  match fr_heap fr !! a with
                  | Some (ContinuationFrame _ _) => metaLoop fuel fr hf a hdec m
                  | _ => Panic
                  end
              | Ok (RefMeta _) => Panic
              end
        end
  end.

(** terminalReadFrameError. *)
Definition terminalReadFrameError (err : option error) : bool :=
  match err with
  | Some (StreamError _ _ _) => false
  | Some _ => true
  | None => false
  end.

End Framer.
