(* ===== verification/H2Sample.v ===== *)
(** * HTTP/2: a concrete instance of the external interfaces

    A decoder for header blocks made of length-prefixed literals, and the token
    tables of RFC 7230, so that the theorems stated over [HPACK] and [HTTPGuts]
    can be evaluated on concrete connections. *)

From S2P Require Import Prelude Bytes H2Base H2Frame.

(** One length-prefixed string at the front of a block. *)
Definition lit_string (b : bytes) : option (bytes * bytes) :=
  match b with
  | [] => None
  | n :: t => if len t <? n then None else Some (ztake n t, zdrop n t)
  end.

(** The fields of a block: name, value, name, value... *)
Fixpoint lit_run (fuel : nat) (enabled : bool) (b : bytes) : decRun unit :=
  match fuel with
  | O => DecDone tt (Some ErrUnexpectedEOF)
  | S fuel =>
      match b with
      | [] => DecDone tt None
      | _ =>
          match lit_string b with
          | None => DecDone tt (Some ErrUnexpectedEOF)
          | Some (name, b1) =>
              match lit_string b1 with
              | None => DecDone tt (Some ErrUnexpectedEOF)
              | Some (value, b2) =>
                  if enabled then DecEmit (mkField name value) (fun e => lit_run fuel e b2)
                  else lit_run fuel enabled b2
              end
          end
      end
  end.

#[global] Instance lit_hpack : HPACK := {
  Decoder := unit;
  SetEmitEnabled d _ := d;
  SetMaxStringLength d _ := d;
  Decoder_Write _ b := lit_run (S (length b)) true b;
  Decoder_Close d := (d, None);
  IsPseudo hf := has_prefix (str ":") (Name hf);
  Field_Size hf := u32 (len (Name hf) + len (Value hf) + 32)
}.

#[global] Instance lit_laws : HPACKLaws.
Proof. split; reflexivity. Qed.

(** Token runes and visible field values of RFC 7230, on ASCII. *)
#[global] Instance lit_guts : HTTPGuts := {
  IsTokenRune r := between 48 r 57 || between 65 r 90 || between 97 r 122
    || existsb (Z.eqb r) (str "!#$%&'*+-.^_`|~");
  ValidHeaderFieldValue v := forallb (fun c => (32 <=? c) && negb (c =? 127) || (c =? 9)) v
}.

(** A block with the given fields. *)
Definition lit_block (fs : list HeaderField) : bytes :=
  concat (map (fun hf => (len (Name hf) :: Name hf) ++ (len (Value hf) :: Value hf)) fs).

(** A connection that takes every write, and one that delivers [data]. *)
Definition sample_writer : writer := mkWriter [] (fun _ p => (len p, None)).
Definition sample_reader (data : bytes) : reader := mkReader data EOF.
