(* ===== verification/H2Codec.v ===== *)
(** * HTTP/2: the frame codec

    The [Write*] methods of the framer against its parsers: what each writer
    puts on the wire, that it makes one [Write] call or none, and that
    [ReadFrame] gives back the frame that was written. *)

From S2P Require Import Prelude Bytes H2Base H2Frame H2Sample.

Section Codec.
Context `{HPACK, HTTPGuts}.

(** ** The wire format *)

(** The octets of a frame: 24-bit length, type, flags, stream, payload. *)
Definition frame_bytes (t fl sid : Z) (payload : bytes) : bytes :=
  let n := len payload in
  [u8 (Z.shiftr n 16); u8 (Z.shiftr n 8); u8 n; u8 t; u8 fl] ++ put_uint32 sid ++ payload.

Lemma len_frame_bytes t fl sid payload :
  len (frame_bytes t fl sid payload) = 9 + len payload.
Proof. unfold frame_bytes. rewrite !len_app, len_put_uint32. unfold len. simpl. lia. Qed.

(** A writer that accepts everything it is given. *)
Definition accepting (w : writer) : Prop := forall p, w_reply w (w_out w) p = (len p, None).

(** The only writer that touches the wire is WriteRawFrame: it makes one call
    with the encoded frame, or refuses a payload of 2^24 octets or more. *)
Lemma WriteRawFrame_wire f t fl sid payload :
  len payload < 2 ^ 24 ->
  exists f',
    WriteRawFrame f t fl sid payload =
      (f', match snd (w_reply (fr_w f) (w_out (fr_w f)) (frame_bytes t fl sid payload)) with
           | Some e => Some e
           | None => if fst (w_reply (fr_w f) (w_out (fr_w f)) (frame_bytes t fl sid payload))
                        =? 9 + len payload then None else Some ErrShortWrite
           end) /\
    w_out (fr_w f') = w_out (fr_w f) ++ [frame_bytes t fl sid payload].
Proof.
  intros Hlen. unfold WriteRawFrame, endWrite, writeBytes, startWrite. simpl.
  replace (len _ - frameHeaderLen) with (len payload)
    by (unfold frameHeaderLen, len; simpl; lia).
  change (Z.shiftl 1 24) with (2 ^ 24). rewrite Z.geb_leb.
  destruct (2 ^ 24 <=? len payload) eqn:E; breflect; [lia|].
  match goal with |- context [w_reply _ _ ?l] => change l with (frame_bytes t fl sid payload) end.
  destruct (w_reply (fr_w f) (w_out (fr_w f)) (frame_bytes t fl sid payload)) as [n err].
  eexists. split; [apply (f_equal2 pair); [reflexivity|]|reflexivity].
  destruct err; [done|]. simpl.
  change (len (_ :: _)) with (len (frame_bytes t fl sid payload)).
  rewrite len_frame_bytes. by destruct (n =? 9 + len payload).
Qed.

Lemma WriteRawFrame_too_large f t fl sid payload :
  2 ^ 24 <= len payload ->
  exists f', WriteRawFrame f t fl sid payload = (f', Some ErrFrameTooLarge) /\ fr_w f' = fr_w f.
Proof.
  intros Hlen. unfold WriteRawFrame, endWrite, writeBytes, startWrite. simpl.
  replace (len _ - frameHeaderLen) with (len payload)
    by (unfold frameHeaderLen, len; simpl; lia).
  change (Z.shiftl 1 24) with (2 ^ 24). rewrite Z.geb_leb.
  destruct (2 ^ 24 <=? len payload) eqn:E; breflect; [|lia]. eauto.
Qed.

(** ** Frame headers round trip *)

Lemma length24 n : 0 <= n < 2 ^ 24 ->
  Z.lor (Z.lor (Z.shiftl (u8 (Z.shiftr n 16)) 16) (Z.shiftl (u8 (Z.shiftr n 8)) 8)) (u8 n) = n.
Proof.
  intros Hn.
  replace (Z.lor (Z.shiftl (u8 (Z.shiftr n 16)) 16) (Z.shiftl (u8 (Z.shiftr n 8)) 8))
    with (Z.shiftl (u8 (Z.shiftr n 16) * 2 ^ 8 + u8 (Z.shiftr n 8)) 8).
  - rewrite lor_shiftl_add by width. unfold u8. bits. width.
  - rewrite <- (lor_shiftl_add (u8 (Z.shiftr n 16)) (u8 (Z.shiftr n 8)) 8) by width.
    rewrite Z.shiftl_lor, Z.shiftl_shiftl by lia. done.
Qed.

Lemma readFrameHeader_wire t fl sid payload rest e :
  is_u8 t -> is_u8 fl -> is_u32 sid -> len payload < 2 ^ 24 ->
  readFrameHeader (mkReader (frame_bytes t fl sid payload ++ rest) e) =
    (mkReader (payload ++ rest) e,
     Ok (mkFrameHeader true t fl (len payload) (sid mod 2 ^ 31))).
Proof.
  intros Ht Hfl Hsid Hlen. unfold readFrameHeader, ReadFull. cbn [r_data r_end].
  pose proof (len_nonneg payload). pose proof (len_nonneg rest).
  destruct (frameHeaderLen <=? _) eqn:E; breflect;
    [| rewrite len_app, len_frame_bytes in E; unfold frameHeaderLen in E; lia].
  unfold frameHeaderLen, ztake, zdrop, frame_bytes. change (Z.to_nat 9) with 9%nat.
  cbn -[be_uint32 u8 Z.pow Z.shiftl Z.sub]. rewrite length24 by lia.
  rewrite (u8_id t), (u8_id fl) by done.
  change (be_uint32 _) with (be_uint32 (put_uint32 sid ++ [])).
  rewrite be_uint32_put by done.
  by rewrite land_mask by lia.
Qed.

(** ** The write methods, uniformly *)

Inductive WriteOp : Type :=
| OpData (streamID : Z) (endStream : bool) (data : bytes) (pad : option bytes)
| OpHeaders (p : HeadersFrameParam)
| OpPriority (streamID : Z) (p : PriorityParam)
| OpRSTStream (streamID code : Z)
| OpSettings (settings : list Setting)
| OpSettingsAck
| OpPushPromise (p : PushPromiseParam)
| OpPing (ack : bool) (data : bytes)
| OpGoAway (maxStreamID code : Z) (debugData : bytes)
| OpWindowUpdate (streamID incr : Z)
| OpContinuation (streamID : Z) (endHeaders : bool) (frag : bytes)
| OpRaw (t flags streamID : Z) (payload : bytes).

Definition run_op (f : Framer) (op : WriteOp) : Framer * option error :=
  match op with
  | OpData sid es d pad => WriteDataPadded f sid es d pad
  | OpHeaders p => WriteHeaders f p
  | OpPriority sid p => WritePriority f sid p
  | OpRSTStream sid c => WriteRSTStream f sid c
  | OpSettings l => WriteSettings f l
  | OpSettingsAck => WriteSettingsAck f
  | OpPushPromise p => WritePushPromise f p
  | OpPing ack d => WritePing f ack d
  | OpGoAway m c d => WriteGoAway f m c d
  | OpWindowUpdate sid i => WriteWindowUpdate f sid i
  | OpContinuation sid eh b => WriteContinuation f sid eh b
  | OpRaw t fl sid p => WriteRawFrame f t fl sid p
  end.

Definition settings_bytes (l : list Setting) : bytes :=
  concat (map (fun s => put_uint16 (ID s) ++ put_uint32 (Val s)) l).

Definition priority_bytes (p : PriorityParam) : bytes :=
  put_uint32 (priority_word p) ++ [Weight p].

(** Type, flags, stream and payload of the frame an operation stands for. *)
Definition op_wire (op : WriteOp) : Z * Z * Z * bytes :=
  match op with
  | OpData sid es d pad =>
      (FrameData,
       addFlag (bool_decide (is_Some pad)) FlagDataPadded (addFlag es FlagDataEndStream 0), sid,
       from_option (fun pb => [u8 (len pb)]) [] pad ++ d ++ default [] pad)
  | OpHeaders p =>
      (FrameHeaders,
       addFlag (negb (PriorityParam_IsZero (hp_Priority p))) FlagHeadersPriority
         (addFlag (hp_EndHeaders p) FlagHeadersEndHeaders
           (addFlag (hp_EndStream p) FlagHeadersEndStream
             (addFlag (negb (hp_PadLength p =? 0)) FlagHeadersPadded 0))), hp_StreamID p,
       (if hp_PadLength p =? 0 then [] else [hp_PadLength p]) ++
       (if PriorityParam_IsZero (hp_Priority p) then [] else priority_bytes (hp_Priority p)) ++
       hp_BlockFragment p ++ padZeros (hp_PadLength p))
  | OpPriority sid p => (FramePriority, 0, sid, priority_bytes p)
  | OpRSTStream sid c => (FrameRSTStream, 0, sid, put_uint32 c)
  | OpSettings l => (FrameSettings, 0, 0, settings_bytes l)
  | OpSettingsAck => (FrameSettings, FlagSettingsAck, 0, [])
  | OpPushPromise p =>
      (FramePushPromise,
       addFlag (pp_EndHeaders p) FlagPushPromiseEndHeaders
         (addFlag (negb (pp_PadLength p =? 0)) FlagPushPromisePadded 0), pp_StreamID p,
       (if pp_PadLength p =? 0 then [] else [pp_PadLength p]) ++
       put_uint32 (pp_PromiseID p) ++ pp_BlockFragment p ++ padZeros (pp_PadLength p))
  | OpPing ack d => (FramePing, if ack then FlagPingAck else 0, 0, d)
  | OpGoAway m c d =>
      (FrameGoAway, 0, 0, put_uint32 (Z.land m (Z.shiftl 1 31 - 1)) ++ put_uint32 c ++ d)
  | OpWindowUpdate sid i => (FrameWindowUpdate, 0, sid, put_uint32 i)
  | OpContinuation sid eh b =>
      (FrameContinuation, addFlag eh FlagContinuationEndHeaders 0, sid, b)
  | OpRaw t fl sid p => (t, fl, sid, p)
  end.

(** The error an operation is refused with before anything is written. *)
Definition op_error (allow : bool) (op : WriteOp) : option error :=
  match op with
  | OpData sid _ _ pad =>
      if negb (validStreamID sid) && negb allow then Some errStreamID
      else if len (default [] pad) >? 255 then Some errPadLength
      else if negb allow && existsb (fun b => negb (b =? 0)) (default [] pad)
           then Some errPadBytes
      else None
  | OpHeaders p =>
      if negb (validStreamID (hp_StreamID p)) && negb allow then Some errStreamID
      else if negb (PriorityParam_IsZero (hp_Priority p))
              && negb (validStreamIDOrZero (StreamDep (hp_Priority p))) && negb allow
           then Some errDepStreamID
      else None
  | OpPriority sid p =>
      if negb (validStreamID sid) && negb allow then Some errStreamID
      else if negb (validStreamIDOrZero (StreamDep p)) then Some errDepStreamID
      else None
  | OpRSTStream sid _ | OpContinuation sid _ _ =>
      if negb (validStreamID sid) && negb allow then Some errStreamID else None
  | OpPushPromise p =>
      if negb (validStreamID (pp_StreamID p)) && negb allow then Some errStreamID
      else if negb (validStreamID (pp_PromiseID p)) && negb allow then Some errStreamID
      else None
  | OpWindowUpdate _ i =>
      if ((i <? 1) || (i >? 2147483647)) && negb allow
      then Some errIllegalWindowIncrement else None
  | OpSettings _ | OpSettingsAck | OpPing _ _ | OpGoAway _ _ _ | OpRaw _ _ _ _ => None
  end.

Lemma writeBytes_writeBytes f a b : writeBytes (writeBytes f a) b = writeBytes f (a ++ b).
Proof. unfold writeBytes, set_wbuf. simpl. by rewrite app_assoc. Qed.

Lemma writeBytes_nil f t fl sid :
  startWrite f t fl sid = writeBytes (startWrite f t fl sid) [].
Proof. unfold writeBytes, set_wbuf. simpl. done. Qed.

Lemma foldl_settings f l :
  foldl (fun f s => writeUint32 (writeUint16 f (ID s)) (Val s)) f l
  = writeBytes f (settings_bytes l).
Proof.
  revert f. induction l as [|s l IH]; intros f; simpl.
  - unfold writeBytes, set_wbuf, settings_bytes. simpl. rewrite app_nil_r. by destruct f.
  - rewrite IH. unfold writeUint32, writeUint16. rewrite !writeBytes_writeBytes.
    unfold settings_bytes. by rewrite map_cons, concat_cons, <- app_assoc.
Qed.

(** The two tests of WriteDataPadded on a non-empty padding hold of an empty one. *)
Lemma pad_length_test (l : bytes) : (len l >? 0) && (len l >? 255) = (len l >? 255).
Proof. rewrite !Z.gtb_ltb. destruct (0 <? len l) eqn:E; breflect; simpl; [done|].
  symmetry. apply Z.ltb_ge. lia. Qed.

Lemma pad_zero_test (c : bool) p (l : bytes) :
  (len l >? 0) && c && existsb p l = c && existsb p l.
Proof. destruct l as [|b l]; [by destruct c|]. rewrite Z.gtb_ltb, len_cons.
  destruct (0 <? 1 + len l) eqn:E; [done|]. breflect. pose proof (len_nonneg l). lia. Qed.

(** Merges the successive appends of a writer into one. *)
Ltac merge_writes :=
  unfold WriteRawFrame, writeByte, writeUint32, writeUint16;
  rewrite ?foldl_settings, ?writeBytes_writeBytes; rewrite <- ?app_assoc; simpl app.

Lemma run_op_accepted f op :
  op_error (AllowIllegalWrites f) op = None ->
  run_op f op = let '(t, fl, sid, payload) := op_wire op in WriteRawFrame f t fl sid payload.
Proof.
  destruct op; simpl; intros He;
    unfold WriteDataPadded, WriteHeaders, WritePriority, WriteRSTStream, WriteSettings,
      WriteSettingsAck, WritePushPromise, WritePing, WriteGoAway, WriteWindowUpdate,
      WriteContinuation.
  - rewrite pad_length_test, pad_zero_test. repeat case_if; try discriminate.
    destruct pad; simpl; by merge_writes.
  - destruct (negb (validStreamID _) && _) eqn:?; [done|].
    destruct (PriorityParam_IsZero (hp_Priority p)) eqn:?; simpl in *;
      destruct (hp_PadLength p =? 0) eqn:?; simpl; try case_if; try done;
      unfold priority_bytes; merge_writes; done.
  - by repeat case_if.
  - by case_if.
  - by merge_writes.
  - unfold WriteRawFrame. by rewrite <- writeBytes_nil.
  - destruct (negb (validStreamID _) && _) eqn:?; [done|].
    destruct (pp_PadLength p =? 0) eqn:?; simpl; case_if; try done; by merge_writes.
  - by destruct ack.
  - by merge_writes.
  - by case_if.
  - by case_if.
  - done.
Qed.

Lemma run_op_refused f op e :
  op_error (AllowIllegalWrites f) op = Some e ->
  exists f', run_op f op = (f', Some e) /\ fr_w f' = fr_w f.
Proof.
  destruct op; simpl; intros He;
    unfold WriteDataPadded, WriteHeaders, WritePriority, WriteRSTStream, WriteSettings,
      WriteSettingsAck, WritePushPromise, WritePing, WriteGoAway, WriteWindowUpdate,
      WriteContinuation; try done.
  - rewrite pad_length_test, pad_zero_test. repeat case_if; simplify_eq; eauto.
  - destruct (negb (validStreamID _) && _) eqn:?; simplify_eq; eauto.
    destruct (PriorityParam_IsZero (hp_Priority p)) eqn:?; simpl in *; [done|].
    destruct (hp_PadLength p =? 0) eqn:?; simpl; case_if; simplify_eq; eauto.
  - repeat case_if; simplify_eq; eauto.
  - repeat case_if; simplify_eq; eauto.
  - destruct (negb (validStreamID _) && _) eqn:?; simplify_eq; eauto.
    destruct (pp_PadLength p =? 0) eqn:?; simpl; case_if; simplify_eq; eauto.
  - repeat case_if; simplify_eq; eauto.
  - repeat case_if; simplify_eq; eauto.
Qed.

(** ** Stream identifiers and priorities *)

Lemma land_bit31 x : is_u32 x -> (Z.land x (Z.shiftl 1 31) =? 0) = (x <? 2 ^ 31).
Proof.
  intros Hx.
  assert (Hb : Z.land x (Z.shiftl 1 31) = if Z.testbit x 31 then 2 ^ 31 else 0).
  { rewrite Z.shiftl_1_l. apply Z.bits_inj'. intros i Hi. rewrite Z.land_spec.
    rewrite Z.pow2_bits_eqb by lia. destruct (31 =? i) eqn:E; breflect.
    - subst i. destruct (Z.testbit x 31); [by rewrite Z.pow2_bits_true | done].
    - rewrite andb_false_r. destruct (Z.testbit x 31); [|by rewrite Z.bits_0].
      rewrite Z.pow2_bits_false; done || lia. }
  rewrite Hb. pose proof (Z.testbit_spec' x 31 ltac:(lia)) as Ht.
  destruct (Z.testbit x 31); simpl in Ht; destruct (x <? 2 ^ 31) eqn:E; breflect; width || done.
Qed.

Lemma validStreamID_spec x : is_u32 x -> validStreamID x = true <-> 0 < x < 2 ^ 31.
Proof.
  intros Hx. unfold validStreamID. rewrite land_bit31 by done.
  rewrite andb_true_iff, negb_true_iff, Z.eqb_neq, Z.ltb_lt. width.
Qed.

Lemma validStreamIDOrZero_spec x : is_u32 x -> validStreamIDOrZero x = true <-> x < 2 ^ 31.
Proof. intros Hx. unfold validStreamIDOrZero. by rewrite land_bit31, Z.ltb_lt. Qed.

Lemma land_31bits x : Z.land x 2147483647 = x mod 2 ^ 31.
Proof. change 2147483647 with (Z.ones 31). by apply Z.land_ones. Qed.

Lemma priority_word_range p :
  0 <= StreamDep p < 2 ^ 31 ->
  priority_word p = StreamDep p + (if Exclusive p then 2 ^ 31 else 0).
Proof.
  intros Hd. unfold priority_word. destruct (Exclusive p); [|lia].
  rewrite Z.lor_comm, lor_shiftl_add by lia. lia.
Qed.

Lemma priority_word_exclusive p :
  0 <= StreamDep p < 2 ^ 31 ->
  negb (priority_word p =? priority_word p mod 2 ^ 31) = Exclusive p /\
  priority_word p mod 2 ^ 31 = StreamDep p /\ is_u32 (priority_word p).
Proof.
  intros Hd. rewrite priority_word_range by done.
  destruct (Exclusive p); rewrite ?Z.add_0_r; (split; [|width]).
  - apply negb_true_iff, Z.eqb_neq. width.
  - apply negb_false_iff, Z.eqb_eq. width.
Qed.

Lemma PriorityParam_IsZero_eq p : PriorityParam_IsZero p = true -> p = zeroPriority.
Proof.
  unfold PriorityParam_IsZero. destruct p as [d e w]. simpl.
  rewrite !andb_true_iff, negb_true_iff, !Z.eqb_eq. intros [[-> ->] ->]. done.
Qed.

(** ** The settings payload *)

Lemma len_settings_bytes l : len (settings_bytes l) = 6 * len l.
Proof.
  induction l as [|s l IH]; [done|]. unfold settings_bytes in *.
  rewrite map_cons, concat_cons, !len_app, IH, len_cons. rewrite len_put_uint16, len_put_uint32. lia.
Qed.

Definition wf_setting (s : Setting) : Prop := is_u16 (ID s) /\ is_u32 (Val s).

Lemma settings_bytes_skip l i :
  (i <= length l)%nat -> drop (6 * i) (settings_bytes l) = settings_bytes (drop i l).
Proof.
  revert i. induction l as [|s l IH]; intros [|i] Hi; try done; simpl in Hi; try lia.
  replace (6 * S i)%nat with (6 + 6 * i)%nat by lia.
  unfold settings_bytes in *. rewrite map_cons, concat_cons.
  rewrite <- drop_drop. simpl drop at 2. apply IH. lia.
Qed.

(** Each setting written is the setting read at its index. *)
Lemma Setting_at_settings_bytes l i s :
  Forall wf_setting l -> l !! i = Some s ->
  SettingsFrame_Setting (settings_bytes l) (Z.of_nat i) = s.
Proof.
  intros Hl Hs. pose proof (lookup_lt_Some _ _ _ Hs) as Hi.
  rewrite Forall_forall in Hl. destruct (Hl s) as [Hid Hv]; [by eapply list_elem_of_lookup_2|].
  unfold SettingsFrame_Setting, ztake, zdrop.
  replace (Z.to_nat (Z.of_nat i * 6)) with (6 * i)%nat by lia.
  replace (Z.to_nat (Z.of_nat i * 6 + 2)) with (6 * i + 2)%nat by lia.
  rewrite <- drop_drop, settings_bytes_skip by lia.
  rewrite (drop_S _ _ _ Hs). unfold settings_bytes. rewrite map_cons, concat_cons.
  change (Z.to_nat 2) with 2%nat. change (Z.to_nat 4) with 4%nat.
  change (take 2 _) with (put_uint16 (ID s) ++ []) at 1.
  change (take 4 _) with (put_uint32 (Val s) ++ []) at 1.
  rewrite be_uint16_put, be_uint32_put by done. by destruct s.
Qed.

(** The first value a list of settings gives to an identifier. *)
Fixpoint first_value (l : list Setting) (id : Z) : option Z :=
  match l with
  | [] => None
  | s :: t => if ID s =? id then Some (Val s) else first_value t id
  end.

Lemma Value_settings_bytes l id :
  Forall wf_setting l -> SettingsFrame_Value (settings_bytes l) id = first_value l id.
Proof.
  intros Hl. unfold SettingsFrame_Value, NumSettings. rewrite len_settings_bytes.
  replace (Z.to_nat (6 * len l / 6)) with (length l)
    by (rewrite Z.mul_comm, Z.div_mul by lia; unfold len; lia).
  assert (forall k i, drop i l = k -> Value_loop (length k) (Z.of_nat i) (settings_bytes l) id
                                       = first_value k id) as Hgen.
  { induction k as [|s k IH]; intros i Hk; [done|]. cbn [length Value_loop first_value].
    assert (Hs : l !! i = Some s).
    { rewrite <- (Nat.add_0_r i), <- lookup_drop, Hk. done. }
    rewrite (Setting_at_settings_bytes l i s Hl Hs). destruct (ID s =? id); [done|].
    replace (Z.of_nat i + 1) with (Z.of_nat (S i)) by lia. apply IH.
    rewrite (drop_S _ _ _ Hs) in Hk. by injection Hk. }
  by apply (Hgen l 0%nat).
Qed.

(** ** What the parsers make of a written frame *)

(** The frame the peer is meant to see, given its header. *)
Definition op_frame (op : WriteOp) (h : FrameHeader) : Frame :=
  match op with
  | OpData _ _ d _ => DataFrame h d
  | OpHeaders p => HeadersFrame h (hp_Priority p) (hp_BlockFragment p)
  | OpPriority _ p => PriorityFrame h p
  | OpRSTStream _ c => RSTStreamFrame h c
  | OpSettings l => SettingsFrame h (settings_bytes l)
  | OpSettingsAck => SettingsFrame h []
  | OpPushPromise p => PushPromiseFrame h (pp_PromiseID p) (pp_BlockFragment p)
  | OpPing _ d => PingFrame h d
  | OpGoAway m c d => GoAwayFrame h (m mod 2 ^ 31) c d
  | OpWindowUpdate _ i => WindowUpdateFrame h i
  | OpContinuation _ _ b => ContinuationFrame h b
  | OpRaw _ _ _ p => UnknownFrame h p
  end.

(** The arguments are of the machine types, the stream identifiers legal, a
    HEADERS block not empty, and a raw frame of an extension type. *)
Definition op_wf (op : WriteOp) : Prop :=
  match op with
  | OpData sid _ _ pad => 0 < sid < 2 ^ 31 /\ len (default [] pad) <= 255
  | OpHeaders p =>
      0 < hp_StreamID p < 2 ^ 31 /\ hp_BlockFragment p <> [] /\ is_u8 (hp_PadLength p) /\
      0 <= StreamDep (hp_Priority p) < 2 ^ 31
  | OpPriority sid p => 0 < sid < 2 ^ 31 /\ 0 <= StreamDep p < 2 ^ 31
  | OpRSTStream sid c => 0 < sid < 2 ^ 31 /\ is_u32 c
  | OpSettings l =>
      Forall wf_setting l /\
      forall v, first_value l SettingInitialWindowSize = Some v -> v < 2 ^ 31
  | OpSettingsAck => True
  | OpPushPromise p =>
      0 < pp_StreamID p < 2 ^ 31 /\ 0 < pp_PromiseID p < 2 ^ 31 /\ is_u8 (pp_PadLength p)
  | OpPing _ d => len d = 8
  | OpGoAway m c _ => is_u32 m /\ is_u32 c
  | OpWindowUpdate sid i => is_u32 sid /\ 1 <= i < 2 ^ 31
  | OpContinuation sid _ _ => 0 < sid < 2 ^ 31
  | OpRaw t fl sid _ => 10 <= t < 256 /\ is_u8 fl /\ is_u32 sid
  end.

(** The header a frame is read with. *)
Definition op_header (op : WriteOp) : FrameHeader :=
  let '(t, fl, sid, payload) := op_wire op in
  mkFrameHeader true t fl (len payload) (sid mod 2 ^ 31).

Lemma readUint32_put v t : is_u32 v -> readUint32 (put_uint32 v ++ t) = Ok (t, v).
Proof.
  intros Hv. unfold readUint32. rewrite len_app, len_put_uint32.
  pose proof (len_nonneg t). destruct (4 + len t <? 4) eqn:E; breflect; [lia|].
  rewrite zdrop_app_at, ztake_app_at by done. by rewrite be_uint32_put_nil.
Qed.

Lemma ztake_pad (d p : bytes) n : n = len p -> ztake (len (d ++ p) - n) (d ++ p) = d.
Proof. intros ->. apply ztake_app_at. rewrite len_app. lia. Qed.

Lemma len_padZeros n : is_u8 n -> len (padZeros n) = n.
Proof. intros. unfold padZeros. rewrite len_replicate. width. Qed.

Lemma sid_mod sid : 0 < sid < 2 ^ 31 -> sid mod 2 ^ 31 = sid.
Proof. width. Qed.

Lemma sid_eqb sid : 0 < sid < 2 ^ 31 -> (sid =? 0) = false.
Proof. intros. apply Z.eqb_neq. lia. Qed.

(** Whether a flag is in a set built by addFlag is decided by computation. *)
Ltac flags := repeat match goal with
  | |- context [Has ?f ?v] =>
      let b := eval vm_compute in (Has f v) in
      lazymatch b with true => idtac | false => idtac end;
      change (Has f v) with b
  end.

Lemma parse_headers_op p :
  op_wf (OpHeaders p) ->
  parseHeadersFrame (op_header (OpHeaders p)) (snd (op_wire (OpHeaders p)))
  = Ok (op_frame (OpHeaders p) (op_header (OpHeaders p))).
Proof.
  intros (Hsid & Hfrag & Hpad & Hdep). unfold op_header. cbn [op_wire snd].
  unfold parseHeadersFrame. cbn [StreamID Flags snd].
  rewrite sid_mod, sid_eqb by done.
  assert (0 < len (hp_BlockFragment p)).
  { pose proof (len_nonneg (hp_BlockFragment p)). destruct (Z.eq_dec (len (hp_BlockFragment p)) 0)
      as [E|]; [by apply len_0_inv in E | lia]. }
  pose proof (len_padZeros _ Hpad).
  assert (Hend : forall h prio n, n = hp_PadLength p ->
    (if len (hp_BlockFragment p ++ padZeros (hp_PadLength p)) - n <=? 0
     then Err (streamError (hp_StreamID p) ErrCodeProtocol)
     else Ok (HeadersFrame h prio (ztake (len (hp_BlockFragment p ++ padZeros (hp_PadLength p)) - n)
                 (hp_BlockFragment p ++ padZeros (hp_PadLength p)))))
    = Ok (HeadersFrame h prio (hp_BlockFragment p))).
  { intros h prio n ->. rewrite len_app.
    destruct (_ <=? 0) eqn:E; breflect; [lia|]. rewrite <- len_app, ztake_pad by done. done. }
  pose proof (priority_word_exclusive _ Hdep) as (Hex & Hdp & Hu).
  destruct (PriorityParam_IsZero (hp_Priority p)) eqn:Hz.
  - apply PriorityParam_IsZero_eq in Hz. cbn [op_frame]. rewrite Hz.
    destruct (hp_PadLength p =? 0) eqn:Hp0, (hp_EndHeaders p), (hp_EndStream p); breflect;
      cbn [negb addFlag]; flags; cbn [readByte result_bind app]; by apply Hend.
  - assert (Hprio : readUint32 (priority_bytes (hp_Priority p) ++ hp_BlockFragment p ++ padZeros (hp_PadLength p))
              = Ok (Weight (hp_Priority p) :: hp_BlockFragment p ++ padZeros (hp_PadLength p),
                    priority_word (hp_Priority p))).
    { unfold priority_bytes. rewrite <- app_assoc. by apply readUint32_put. }
    destruct (hp_PadLength p =? 0) eqn:Hp0, (hp_EndHeaders p), (hp_EndStream p); breflect;
      cbn [negb addFlag]; flags; cbn [readByte result_bind app];
      rewrite Hprio; cbn [readByte result_bind]; rewrite land_31bits, Hex, Hdp;
      rewrite Hend by done; cbn [op_frame]; by destruct (hp_Priority p).
Qed.

Lemma parse_push_op p :
  op_wf (OpPushPromise p) ->
  parsePushPromise (op_header (OpPushPromise p)) (snd (op_wire (OpPushPromise p)))
  = Ok (op_frame (OpPushPromise p) (op_header (OpPushPromise p))).
Proof.
  intros (Hsid & Hpid & Hpad). unfold op_header. cbn [op_wire snd].
  unfold parsePushPromise. cbn [StreamID Flags snd]. rewrite sid_mod, sid_eqb by done.
  pose proof (len_padZeros _ Hpad) as Hl.
  assert (Hread : readUint32 (put_uint32 (pp_PromiseID p) ++ pp_BlockFragment p ++ padZeros (pp_PadLength p))
            = Ok (pp_BlockFragment p ++ padZeros (pp_PadLength p), pp_PromiseID p))
    by (apply readUint32_put; width).
  assert (Hend : forall h n, n = pp_PadLength p ->
    (if n >? len (pp_BlockFragment p ++ padZeros (pp_PadLength p))
     then Err (ConnectionError ErrCodeProtocol)
     else Ok (PushPromiseFrame h (Z.land (pp_PromiseID p) (Z.shiftl 1 31 - 1))
                (ztake (len (pp_BlockFragment p ++ padZeros (pp_PadLength p)) - n)
                   (pp_BlockFragment p ++ padZeros (pp_PadLength p)))))
    = Ok (PushPromiseFrame h (pp_PromiseID p) (pp_BlockFragment p))).
  { intros h n ->. rewrite ztake_pad by done. rewrite land_mask, sid_mod by lia.
    destruct (_ >? _) eqn:E; breflect; [|done].
    rewrite len_app in E. pose proof (len_nonneg (pp_BlockFragment p)). lia. }
  destruct (pp_PadLength p =? 0) eqn:Hp0, (pp_EndHeaders p); breflect;
    cbn [negb addFlag]; flags; cbn [app readByte result_bind]; rewrite Hread;
    cbn [result_bind]; by apply Hend.
Qed.

(** The pointer the framer keeps to its cached DATA frame designates one. *)
Definition cache_ok (fc : option nat) (hp : heap) : Prop :=
  forall a, fc = Some a -> exists h d, hp !! a = Some (DataFrame h d).

Lemma parse_data_op sid es d pad fc hp :
  op_wf (OpData sid es d pad) -> cache_ok fc hp ->
  exists hp' a,
    parseDataFrame fc (op_header (OpData sid es d pad)) (snd (op_wire (OpData sid es d pad))) hp
      = (hp', Ok a) /\
    hp' !! a = Some (DataFrame (op_header (OpData sid es d pad)) d).
Proof.
  intros [Hsid Hpad] Hfc. unfold op_header. cbn [op_wire snd].
  unfold parseDataFrame. cbn [StreamID Flags snd]. rewrite sid_mod, sid_eqb by done.
  set (fh := mkFrameHeader _ _ _ _ _).
  destruct (getDataFrame fc hp) as [hp1 a] eqn:Hg.
  assert (Ha : exists h d0, hp1 !! a = Some (DataFrame h d0)).
  { unfold getDataFrame in Hg. destruct fc as [c|]; simplify_eq; [by apply Hfc|].
    exists zeroHeader, []. apply list_lookup_middle. done. }
  destruct Ha as (h0 & d0 & Ha).
  assert (Hst : forall d', store_data a d' (store_header a fh hp1) !! a = Some (DataFrame fh d')).
  { intros d'. unfold store_data, store_header. by rewrite !list_lookup_alter_eq, Ha. }
  pose proof (len_nonneg d).
  assert (Hend : forall pb, 
    (if len pb >? len (d ++ pb)
     then (store_header a fh hp1,
           Err (connError ErrCodeProtocol (str "pad size larger than data payload")))
     else (store_data a (ztake (len (d ++ pb) - len pb) (d ++ pb)) (store_header a fh hp1), Ok a))
    = (store_data a d (store_header a fh hp1), Ok a)).
  { intros pb. rewrite ztake_pad by done. destruct (_ >? _) eqn:E; breflect; [|done].
    rewrite len_app in E. lia. }
  exists (store_data a d (store_header a fh hp1)), a. split; [|by apply Hst].
  destruct pad as [pb|]; cbn [from_option] in *; unfold id in *; destruct es;
    cbv [bool_decide decide_rel decide]; cbn [addFlag]; unfold fh at 2; cbn [Flags];
    flags; cbn [readByte app].
  1,2: rewrite u8_id by (pose proof (len_nonneg pb); width); apply Hend.
  all: apply (Hend []).
Qed.

Lemma parse_priority_op sid p :
  op_wf (OpPriority sid p) ->
  parsePriorityFrame (op_header (OpPriority sid p)) (priority_bytes p)
  = Ok (PriorityFrame (op_header (OpPriority sid p)) p).
Proof.
  intros [Hsid Hd]. unfold parsePriorityFrame, op_header. cbn [op_wire StreamID].
  rewrite sid_mod, sid_eqb by done. cbn [negb Z.eqb].
  unfold priority_bytes. rewrite ztake_app_at by done.
  pose proof (priority_word_exclusive p Hd) as (Hex & Hdp & Hu).
  rewrite be_uint32_put_nil, land_31bits by done.
  rewrite Hdp. rewrite Hdp in Hex. rewrite (Z.eqb_sym (StreamDep p)), Hex. by destruct p.
Qed.

Lemma parse_settings_op l :
  op_wf (OpSettings l) ->
  parseSettingsFrame (op_header (OpSettings l)) (settings_bytes l)
  = Ok (SettingsFrame (op_header (OpSettings l)) (settings_bytes l)).
Proof.
  intros [Hl Hv]. unfold parseSettingsFrame, op_header.
  cbn [op_wire StreamID Flags Length]. flags. cbn [andb negb Z.eqb].
  rewrite len_settings_bytes, Value_settings_bytes by done.
  replace (6 * len l mod 6) with 0 by (rewrite Z.mul_comm, Z.mod_mul; lia).
  cbn. destruct (first_value _ _) as [v|] eqn:Ev; [|done].
  specialize (Hv v eq_refl). destruct (v >? _) eqn:E; breflect; [|done].
  change (Z.shiftl 1 31) with (2 ^ 31) in E. lia.
Qed.

Lemma parse_goaway_op m c d :
  op_wf (OpGoAway m c d) ->
  parseGoAwayFrame (op_header (OpGoAway m c d)) (snd (op_wire (OpGoAway m c d)))
  = Ok (GoAwayFrame (op_header (OpGoAway m c d)) (m mod 2 ^ 31) c d).
Proof.
  intros [Hm Hc]. unfold parseGoAwayFrame, op_header. cbn [op_wire StreamID snd].
  rewrite !len_app, !len_put_uint32. pose proof (len_nonneg d).
  change (0 mod 2 ^ 31 =? 0) with true. cbn [negb].
  destruct (_ <? 8) eqn:E; breflect; [lia|].
  rewrite ztake_app_at by done. rewrite (app_assoc _ (put_uint32 c)).
  rewrite ztake_app_at, zdrop_app_at by done. rewrite zdrop_app_at by done.
  rewrite !be_uint32_put_nil by (rewrite ?land_mask by lia; width).
  rewrite !land_mask by lia. by rewrite Z.mod_mod by lia.
Qed.

Lemma parse_window_update_op sid i :
  op_wf (OpWindowUpdate sid i) ->
  parseWindowUpdateFrame (op_header (OpWindowUpdate sid i)) (put_uint32 i)
  = Ok (WindowUpdateFrame (op_header (OpWindowUpdate sid i)) i).
Proof.
  intros [Hsid Hi]. unfold parseWindowUpdateFrame, op_header. cbn [op_wire StreamID].
  cbn [negb Z.eqb]. rewrite ztake_ge, be_uint32_put_nil by done || width.
  by rewrite land_31bits, sid_mod, sid_eqb by lia.
Qed.

Lemma typeFrameParser_unknown t : 10 <= t -> typeFrameParser t = fresh parseUnknownFrame.
Proof.
  intros Ht. unfold typeFrameParser, frameParsers. cbn [table_get].
  repeat match goal with |- context [t =? ?c] =>
    replace (t =? c) with false by (symmetry; apply Z.eqb_neq; cbv [FrameData FrameHeaders
      FramePriority FrameRSTStream FrameSettings FramePushPromise FramePing FrameGoAway
      FrameWindowUpdate FrameContinuation]; lia) end.
  done.
Qed.

(** Every frame written is parsed back as the frame it stands for. *)
Lemma parse_op op fc hp :
  op_wf op -> cache_ok fc hp ->
  exists hp' a,
    typeFrameParser (Type_ (op_header op)) fc (op_header op) (snd (op_wire op)) hp = (hp', Ok a) /\
    hp' !! a = Some (op_frame op (op_header op)).
Proof.
  intros Hwf Hfc.
  assert (Hfresh : forall p, p (op_header op) (snd (op_wire op)) = Ok (op_frame op (op_header op)) ->
    exists hp' a, fresh p fc (op_header op) (snd (op_wire op)) hp = (hp', Ok a) /\
                  hp' !! a = Some (op_frame op (op_header op))).
  { intros p Hp. exists (hp ++ [op_frame op (op_header op)]), (length hp).
    unfold fresh. rewrite Hp. split; [done|]. by apply list_lookup_middle. }
  destruct op.
  - by apply parse_data_op.
  - by apply (Hfresh parseHeadersFrame), parse_headers_op.
  - by apply (Hfresh parsePriorityFrame), parse_priority_op.
  - apply (Hfresh parseRSTStreamFrame). destruct Hwf as [Hsid Hc].
    unfold parseRSTStreamFrame, op_header. cbn [op_wire StreamID snd op_frame].
    rewrite sid_mod, sid_eqb by done. cbn [negb Z.eqb].
    by rewrite ztake_ge, be_uint32_put_nil.
  - by apply (Hfresh parseSettingsFrame), parse_settings_op.
  - by apply (Hfresh parseSettingsFrame).
  - by apply (Hfresh parsePushPromise), parse_push_op.
  - apply (Hfresh parsePingFrame). simpl in Hwf.
    unfold parsePingFrame, op_header. cbn [op_wire StreamID snd op_frame]. by rewrite Hwf.
  - by apply (Hfresh parseGoAwayFrame), parse_goaway_op.
  - by apply (Hfresh parseWindowUpdateFrame), parse_window_update_op.
  - apply (Hfresh parseContinuationFrame). simpl in Hwf.
    unfold parseContinuationFrame, op_header. cbn [op_wire StreamID snd op_frame].
    by rewrite sid_mod, sid_eqb by done.
  - destruct Hwf as (Ht & _ & _). change (Type_ _) with t.
    rewrite typeFrameParser_unknown by lia. by apply (Hfresh parseUnknownFrame).
Qed.

(** ** Reading a frame back *)

Lemma cache_ok_invalidate fc hp a : cache_ok fc hp -> cache_ok fc (alter invalidate a hp).
Proof.
  intros Hc b Hb. destruct (Hc b Hb) as (h & d & Hl).
  destruct (decide (b = a)) as [->|].
  - rewrite list_lookup_alter_eq, Hl. simpl. eauto.
  - rewrite list_lookup_alter_ne by done. eauto.
Qed.

(** The frame order lets a frame of type [t] on stream [sid] through. *)
Definition order_accepts (fr : Framer) (t sid : Z) : Prop :=
  AllowIllegalReads fr = true \/
  (if lastHeaderStream fr =? 0 then t <> FrameContinuation
   else t = FrameContinuation /\ sid = lastHeaderStream fr).

Lemma checkFrameOrder_accepts fr a :
  order_accepts fr (Type_ (header_at (fr_heap fr) a)) (StreamID (header_at (fr_heap fr) a)) ->
  exists fr', checkFrameOrder fr a = (fr', None) /\ fr_heap fr' = fr_heap fr /\
              fr_r fr' = fr_r fr /\ ReadMetaHeaders fr' = ReadMetaHeaders fr.
Proof.
  intros Ho. unfold checkFrameOrder, order_accepts in *.
  cbn [AllowIllegalReads set_lastFrame fr_heap lastHeaderStream].
  destruct (AllowIllegalReads fr); [eauto|]. destruct Ho as [|Ho]; [done|].
  destruct (lastHeaderStream fr =? 0) eqn:E; cbn [negb].
  - apply Z.eqb_neq in Ho. rewrite Ho. repeat case_if; eauto.
  - destruct Ho as [-> ->]. rewrite !Z.eqb_refl. cbn [negb]. repeat case_if; eauto.
Qed.

Lemma readFrame1_op op fr rest :
  op_wf op ->
  let '(t, fl, sid, payload) := op_wire op in
  is_u8 t -> is_u8 fl -> is_u32 sid ->
  len payload < 2 ^ 24 -> len payload <= maxReadSize fr ->
  cache_ok (frameCache fr) (fr_heap fr) ->
  order_accepts fr t (sid mod 2 ^ 31) ->
  r_data (fr_r fr) = frame_bytes t fl sid payload ++ rest ->
  exists fr' a,
    readFrame1 fr = (fr', Ok a) /\
    fr_heap fr' !! a = Some (op_frame op (op_header op)) /\
    r_data (fr_r fr') = rest /\ ReadMetaHeaders fr' = ReadMetaHeaders fr.
Proof.
  intros Hwf. pose proof (parse_op op) as Hparse. unfold op_header in *.
  destruct (op_wire op) as [[[t fl] sid] payload] eqn:Hw. cbn [snd Type_] in Hparse.
  intros Ht Hfl Hsid Hlen Hmax Hc Ho Hr. unfold readFrame1.
  set (fr0 := dropLast fr).
  assert (Hf0 : fr_r fr0 = fr_r fr /\ frameCache fr0 = frameCache fr /\
    maxReadSize fr0 = maxReadSize fr /\ AllowIllegalReads fr0 = AllowIllegalReads fr /\
    lastHeaderStream fr0 = lastHeaderStream fr /\ ReadMetaHeaders fr0 = ReadMetaHeaders fr /\
    cache_ok (frameCache fr) (fr_heap fr0)).
  { unfold fr0, dropLast. cbn [lastFrame set_errDetail]. destruct (lastFrame fr); simpl;
      repeat split; auto using cache_ok_invalidate. }
  destruct Hf0 as (Er & Ec & Em & Ea & El & Ed & Hc0).
  rewrite Er. destruct (fr_r fr) as [data e]. cbn [r_data] in Hr. subst data.
  rewrite readFrameHeader_wire by done.
  cbn [Length]. change (maxReadSize (set_r fr0 _)) with (maxReadSize fr0). rewrite Em.
  destruct (len payload >? maxReadSize fr) eqn:E; breflect; [lia|].
  cbn [fr_r set_r]. unfold ReadFull. cbn [r_data r_end].
  destruct (len payload <=? len (payload ++ rest)) eqn:E2; breflect;
    [|rewrite len_app in E2; pose proof (len_nonneg rest); lia].
  rewrite ztake_app, zdrop_app. cbn [Type_]. cbn [set_r frameCache fr_heap]. rewrite Ec.
  destruct (Hparse (frameCache fr) (fr_heap fr0) Hwf Hc0) as (hp' & a & -> & Hl).
  match goal with |- context [checkFrameOrder ?F a] => set (fr1 := F) end.
  assert (Hh : header_at (fr_heap fr1) a = mkFrameHeader true t fl (len payload) (sid mod 2 ^ 31)).
  { unfold header_at, fr1. cbn [fr_heap set_heap]. rewrite Hl. simpl. by destruct op. }
  destruct (checkFrameOrder_accepts fr1 a) as (fr' & -> & Hh' & Hr' & Hd').
  { rewrite Hh. cbn [Type_ StreamID]. unfold order_accepts, fr1.
    cbn [AllowIllegalReads lastHeaderStream set_heap set_r]. by rewrite Ea, El. }
  exists fr', a. rewrite Hh', Hr', Hd'. unfold fr1. cbn [fr_heap set_heap fr_r set_r ReadMetaHeaders r_data].
  by rewrite Ed.
Qed.

(** ** Theorems *)

Lemma op_wire_ranges op :
  op_wf op -> let '(t, fl, sid, _) := op_wire op in is_u8 t /\ is_u8 fl /\ is_u32 sid.
Proof.
  assert (Hadd : forall c b fl, (b = 1 \/ b = 4 \/ b = 8 \/ b = 32) -> is_u8 fl ->
    is_u8 (addFlag c b fl)).
  { intros c b fl Hb Hfl. unfold addFlag. destruct c; [|done]. split.
    - apply Z.lor_nonneg. unfold is_u8 in Hfl. lia.
    - assert (Hz : 0 <= Z.lor fl b) by (apply Z.lor_nonneg; unfold is_u8 in Hfl; lia).
      destruct (Z.eq_dec (Z.lor fl b) 0) as [->|]; [done|]. apply Z.log2_lt_pow2; [lia|].
      rewrite Z.log2_lor by (unfold is_u8 in Hfl; lia). apply Z.max_lub_lt.
      + destruct (Z.eq_dec fl 0) as [->|]; [done|].
        apply Z.log2_lt_pow2; unfold is_u8 in Hfl; lia.
      + destruct Hb as [->|[->|[->| ->]]]; done. }
  assert (is_u8 0) by width.
  destruct op; simpl; intros Hwf; split_and?; unfold FrameData, FrameHeaders, FramePriority,
    FrameRSTStream, FrameSettings, FramePushPromise, FramePing, FrameGoAway, FrameWindowUpdate,
    FrameContinuation, FlagDataEndStream, FlagDataPadded, FlagHeadersEndStream,
    FlagHeadersEndHeaders, FlagHeadersPadded, FlagHeadersPriority, FlagSettingsAck, FlagPingAck,
    FlagContinuationEndHeaders, FlagPushPromiseEndHeaders, FlagPushPromisePadded in *;
    repeat apply Hadd; auto; try width.
  destruct ack; width.
Qed.

(** The octets of the frame an operation stands for. *)
Definition op_bytes (op : WriteOp) : bytes :=
  let '(t, fl, sid, payload) := op_wire op in frame_bytes t fl sid payload.

(** Every [Write*] method of the framer either refuses its arguments before
    touching the connection, with the error of its guard, or makes exactly one
    call to the underlying writer, with the nine-octet header followed by the
    payload; a payload of 2^24 octets or more is refused with ErrFrameTooLarge
    and no call. *)
Theorem write_one_call f op :
  match op_error (AllowIllegalWrites f) op with
  | Some e => exists f', run_op f op = (f', Some e) /\ fr_w f' = fr_w f
  | None =>
      let '(t, fl, sid, payload) := op_wire op in
      if len payload <? 2 ^ 24 then
        exists f' err, run_op f op = (f', err) /\
          w_out (fr_w f') = w_out (fr_w f) ++ [frame_bytes t fl sid payload] /\
          (err = None <->
           w_reply (fr_w f) (w_out (fr_w f)) (frame_bytes t fl sid payload)
             = (len (frame_bytes t fl sid payload), None))
      else exists f', run_op f op = (f', Some ErrFrameTooLarge) /\ fr_w f' = fr_w f
  end.
Proof.
  destruct (op_error _ op) eqn:He; [by apply run_op_refused|].
  rewrite run_op_accepted by done. destruct (op_wire op) as [[[t fl] sid] payload].
  destruct (len payload <? 2 ^ 24) eqn:E; breflect.
  - destruct (WriteRawFrame_wire f t fl sid payload E) as (f' & -> & Hout).
    eexists _, _. split; [reflexivity|]. split; [done|]. rewrite len_frame_bytes.
    destruct (w_reply _ _ _) as [n [e|]]; cbn [fst snd]; [naive_solver|].
    destruct (n =? 9 + len payload) eqn:En; breflect; [by subst|]. naive_solver.
  - by apply WriteRawFrame_too_large.
Qed.

(** C1: a frame written by any [Write*] method with legal arguments to a
    connection that takes it is read back by [ReadFrame] on the other side as the
    same frame, leaving the octets after it, whenever that side's size limit and
    frame order let it through. *)
Theorem read_after_write op fw fr rest :
  op_wf op ->
  op_error (AllowIllegalWrites fw) op = None ->
  accepting (fr_w fw) ->
  len (snd (op_wire op)) < 2 ^ 24 ->
  len (snd (op_wire op)) <= maxReadSize fr ->
  cache_ok (frameCache fr) (fr_heap fr) ->
  ReadMetaHeaders fr = None ->
  order_accepts fr (Type_ (op_header op)) (StreamID (op_header op)) ->
  r_data (fr_r fr) = op_bytes op ++ rest ->
  (exists fw', run_op fw op = (fw', None) /\
               w_out (fr_w fw') = w_out (fr_w fw) ++ [op_bytes op]) /\
  (exists fr' a,
     ReadFrame 1 fr = Ret (fr', Ok (RefFrame a)) /\
     fr_heap fr' !! a = Some (op_frame op (op_header op)) /\
     r_data (fr_r fr') = rest).
Proof.
  intros Hwf He Hacc Hlen Hmax Hc Hmeta Ho Hr.
  pose proof (op_wire_ranges op Hwf) as Hrng. pose proof (readFrame1_op op fr rest Hwf) as Hread.
  rewrite run_op_accepted by done. unfold op_header, op_bytes in *.
  destruct (op_wire op) as [[[t fl] sid] payload]. cbn [snd Type_ StreamID] in *.
  destruct Hrng as (Ht & Hfl & Hsid).
  destruct (WriteRawFrame_wire fw t fl sid payload Hlen) as (fw' & -> & Hout).
  rewrite Hacc. cbn [fst snd]. rewrite len_frame_bytes, Z.eqb_refl.
  split; [by exists fw'|].
  destruct Hread as (fr' & a & Hrd & Hl & Hrest & Hm); try done.
  exists fr', a. split_and!; [|done..]. cbn [ReadFrame]. by rewrite Hrd, Hm, Hmeta.
Qed.

End Codec.

(** A padded HEADERS frame with priority, written and read back. *)
Definition sample_headers : HeadersFrameParam :=
  mkHeadersFrameParam 5 (str "block") true false 3 (mkPriorityParam 3 true 15).

Lemma read_after_write_witness :
  (exists fw', run_op (NewFramer sample_writer (sample_reader [])) (OpHeaders sample_headers)
                 = (fw', None) /\
               w_out (fr_w fw') = [op_bytes (OpHeaders sample_headers)]) /\
  (exists fr' a,
     ReadFrame 1 (NewFramer sample_writer
                    (sample_reader (op_bytes (OpHeaders sample_headers) ++ [7])))
       = Ret (fr', Ok (RefFrame a)) /\
     fr_heap fr' !! a =
       Some (op_frame (OpHeaders sample_headers) (op_header (OpHeaders sample_headers))) /\
     r_data (fr_r fr') = [7]).
Proof.
  apply (read_after_write (OpHeaders sample_headers)
    (NewFramer sample_writer (sample_reader []))
    (NewFramer sample_writer (sample_reader (op_bytes (OpHeaders sample_headers) ++ [7]))) [7]).
  - vm_compute. repeat split; congruence.
  - reflexivity.
  - intros p. reflexivity.
  - reflexivity.
  - vm_compute. congruence.
  - intros a Ha. discriminate.
  - reflexivity.
  - right. vm_compute. congruence.
  - reflexivity.
Defined.
