(* ===== verification/H2Read.v ===== *)
(** * HTTP/2: reading frames

    [Framer.ReadFrame] on an arbitrary octet stream: the frames it returns are
    well formed, in a legal order, bounded by the configured size and valid only
    until the next read; it always returns; and the header lists it assembles
    keep the promises of [MetaHeadersFrame]. *)

From S2P Require Import Prelude Bytes H2Base H2Frame H2Sample H2Codec.

(** ** SettingsFrame.HasDuplicates *)

Lemma dup_inner_spec n j p idi :
  dup_inner n j p idi = true <-> exists k, (j <= k < j + n)%nat /\ setting_at p k = idi.
Proof.
  revert j. induction n as [|n IH]; intros j; simpl.
  - split; [done | intros (k & Hk & _); lia].
  - destruct (idi =? setting_at p j) eqn:E; breflect.
    + split; [|done]. intros _. exists j. split; [lia | done].
    + rewrite IH. split; intros (k & Hk & Hs); exists k; (split; [|done]); [lia|].
      destruct (decide (k = j)); [congruence | lia].
Qed.

Lemma dup_outer_spec n i num p :
  (i + n = num)%nat ->
  dup_outer n i num p = true <->
  exists a b, (i <= a < b)%nat /\ (b < num)%nat /\ setting_at p a = setting_at p b.
Proof.
  revert i. induction n as [|n IH]; intros i Hn; simpl.
  - split; [done | intros (a & b & ? & ? & _); lia].
  - destruct (dup_inner _ _ _ _) eqn:E.
    + apply dup_inner_spec in E as (k & Hk & Hs). split; [|done]. intros _.
      exists i, k. split; [lia|]. split; [lia | done].
    + rewrite IH by lia.
      split; intros (a & b & Hab & Hb & Hs); exists a, b; (split; [|done]); [lia|].
      destruct (decide (a = i)) as [->|]; [|lia].
      rewrite <- not_true_iff_false, dup_inner_spec in E. exfalso. apply E.
      exists b. split; [lia | done].
Qed.

Lemma dup_seen_spec n i p (seen : gset Z) :
  dup_seen n i p seen = true <->
  (exists a, (i <= a < i + n)%nat /\ setting_at p a ∈ seen) \/
  (exists a b, (i <= a < b)%nat /\ (b < i + n)%nat /\ setting_at p a = setting_at p b).
Proof.
  revert i seen. induction n as [|n IH]; intros i seen; simpl.
  - split; [done|]. intros [(a & ? & _) | (a & b & ? & ? & _)]; lia.
  - case_bool_decide as Hin.
    + split; [|done]. intros _. left. exists i. split; [lia | done].
    + rewrite IH. split.
      * intros [(a & Ha & Hs) | (a & b & Ha & Hb & Hs)].
        -- apply elem_of_union in Hs as [Hs%elem_of_singleton | Hs].
           ++ right. exists i, a. split; [lia|]. split; [lia | done].
           ++ left. exists a. split; [lia | done].
        -- right. exists a, b. split; [lia|]. split; [lia | done].
      * intros [(a & Ha & Hs) | (a & b & Ha & Hb & Hs)].
        -- destruct (decide (a = i)) as [->|]; [done|]. left. exists a.
           split; [lia|]. set_solver.
        -- destruct (decide (a = i)) as [->|].
           ++ left. exists b. split; [lia|]. rewrite <- Hs. set_solver.
           ++ right. exists a, b. split; [lia|]. split; [lia | done].
Qed.

(** Both branches of HasDuplicates, the quadratic one for fewer than ten
    settings and the one with a map, answer whether two settings of the frame
    have the same identifier. *)
Theorem HasDuplicates_correct p :
  HasDuplicates p = true <->
  exists a b, (a < b)%nat /\ Z.of_nat b < NumSettings p /\ setting_at p a = setting_at p b.
Proof.
  unfold HasDuplicates. assert (0 <= NumSettings p).
  { unfold NumSettings. apply Z.div_pos; [apply len_nonneg | lia]. }
  destruct (NumSettings p =? 0) eqn:E0; breflect.
  { split; [done|]. intros (a & b & ? & ? & _). lia. }
  destruct (NumSettings p <? 10) eqn:E1.
  - rewrite dup_outer_spec by lia.
    split; intros (a & b & Hab & Hb & Hs); exists a, b; (split; [lia|]); (split; [lia | done]).
  - rewrite dup_seen_spec. split.
    + intros [(a & _ & Hs)|(a & b & Ha & Hb & Hs)]; [set_solver|].
      exists a, b. split; [lia|]. split; [lia | done].
    + intros (a & b & Ha & Hb & Hs). right. exists a, b. split; [lia|]. split; [lia | done].
Qed.

Section Read.
Context `{HPACK, HTTPGuts}.

(** ** What the parsers guarantee *)

(** The fields of a parsed frame satisfy the constraints of its type. *)
Definition wf_payload (f : Frame) : Prop :=
  let sid := StreamID (Header f) in
  match f with
  | DataFrame h d => sid <> 0 /\ len d <= Length h
  | HeadersFrame h p b => sid <> 0 /\ 0 < len b <= Length h /\ 0 <= StreamDep p < 2 ^ 31
  | PriorityFrame _ p => sid <> 0 /\ 0 <= StreamDep p < 2 ^ 31
  | RSTStreamFrame _ c => sid <> 0 /\ is_u32 c
  | SettingsFrame h p =>
      sid = 0 /\ len p mod 6 = 0 /\ (IsAck h = true -> p = []) /\
      forall v, SettingsFrame_Value p SettingInitialWindowSize = Some v -> v <= 2 ^ 31 - 1
  | PushPromiseFrame h i b => sid <> 0 /\ 0 <= i < 2 ^ 31 /\ len b <= Length h
  | PingFrame _ d => sid = 0 /\ len d = 8
  | GoAwayFrame _ l c _ => sid = 0 /\ 0 <= l < 2 ^ 31 /\ is_u32 c
  | WindowUpdateFrame _ i => 1 <= i <= 2 ^ 31 - 1
  | ContinuationFrame _ _ => sid <> 0
  | UnknownFrame h _ => ~ (FrameData <= Type_ h <= FrameContinuation)
  end.

(** The constructor agrees with the type octet of the header. *)
Definition type_of (f : Frame) : Z :=
  match f with
  | DataFrame _ _ => FrameData
  | HeadersFrame _ _ _ => FrameHeaders
  | PriorityFrame _ _ => FramePriority
  | RSTStreamFrame _ _ => FrameRSTStream
  | SettingsFrame _ _ => FrameSettings
  | PushPromiseFrame _ _ _ => FramePushPromise
  | PingFrame _ _ => FramePing
  | GoAwayFrame _ _ _ _ => FrameGoAway
  | WindowUpdateFrame _ _ => FrameWindowUpdate
  | ContinuationFrame _ _ => FrameContinuation
  | UnknownFrame h _ => Type_ h
  end.

Lemma wf_bytes_ztake n b : wf_bytes b -> wf_bytes (ztake n b).
Proof. apply Forall_take. Qed.
Lemma wf_bytes_zdrop n b : wf_bytes b -> wf_bytes (zdrop n b).
Proof. apply Forall_drop. Qed.
Hint Resolve wf_bytes_ztake wf_bytes_zdrop : go.

Lemma len_ztake_le {A} n (l : list A) : len (ztake n l) <= len l.
Proof. unfold len, ztake. rewrite length_take. lia. Qed.

Lemma len_zdrop_le {A} n (l : list A) : len (zdrop n l) <= len l.
Proof. unfold len, zdrop. rewrite length_drop. lia. Qed.

Lemma readByte_Ok p p' b : readByte p = Ok (p', b) -> p = b :: p'.
Proof. destruct p; simpl; intros; simplify_eq. done. Qed.

Lemma readUint32_Ok p p' v :
  readUint32 p = Ok (p', v) -> wf_bytes p ->
  p' = zdrop 4 p /\ is_u32 v /\ len p' <= len p.
Proof.
  unfold readUint32. case_if; [done|]. intros [= <- <-] Hp.
  split; [done|]. split; [auto with go | apply len_zdrop_le].
Qed.

(** The optional pad-length octet in front of a payload. *)
Lemma optional_pad (c : bool) p p' n :
  (if c then readByte p else Ok (p, 0)) = Ok (p', n) ->
  wf_bytes p -> wf_bytes p' /\ 0 <= n /\ len p' <= len p.
Proof.
  destruct c; [intros ->%readByte_Ok | intros [= <- <-]]; intros Hp.
  - unfold wf_bytes in *. rewrite Forall_cons in Hp. destruct Hp as [Hb Hp].
    split; [done|]. rewrite len_cons. width.
  - split; [done | lia].
Qed.

(** A parser of frames of type [t] that allocates its result. *)
Definition parser_ok (t : Z) (p : FrameHeader -> bytes -> result error Frame) : Prop :=
  forall fh b f, p fh b = Ok f -> wf_bytes b -> len b = Length fh -> Type_ fh = t ->
  Header f = fh /\ type_of f = t /\ wf_payload f.

Ltac parser_start p :=
  intros fh b f Hp Hb Hlen Ht; unfold p in Hp.

Lemma parseHeadersFrame_ok : parser_ok FrameHeaders parseHeadersFrame.
Proof.
  parser_start parseHeadersFrame. case_if; [done|]. breflect.
  apply result_bind_Ok in Hp as ([p1 n] & H1 & Hp).
  destruct (optional_pad _ _ _ _ H1 Hb) as (Hb1 & Hn & Hl1).
  apply result_bind_Ok in Hp as ([p2 prio] & H2 & Hp).
  assert (Hp2 : 0 <= StreamDep prio < 2 ^ 31 /\ len p2 <= len p1).
  { destruct (Has _ FlagHeadersPriority); [|injection H2 as <- <-; simpl; lia].
    apply result_bind_Ok in H2 as ([p3 v] & H3 & H2).
    destruct (readUint32_Ok _ _ _ H3 Hb1) as (-> & Hv & Hl3).
    apply result_bind_Ok in H2 as ([p4 w] & H4%readByte_Ok & H2). injection H2 as <- <-.
    simpl. rewrite land_31bits. split; [width|]. rewrite H4, len_cons in Hl3. lia. }
  case_if; [done|]. breflect. injection Hp as <-. split; [done|]. split; [done|].
  simpl. split; [done|]. rewrite len_ztake by lia. lia.
Qed.

Lemma parsePriorityFrame_ok : parser_ok FramePriority parsePriorityFrame.
Proof.
  parser_start parsePriorityFrame. case_if; [done|]. case_if; [done|]. breflect.
  injection Hp as <-. split; [done|]. split; [done|]. simpl. split; [done|].
  rewrite land_31bits. width.
Qed.

Lemma parseRSTStreamFrame_ok : parser_ok FrameRSTStream parseRSTStreamFrame.
Proof.
  parser_start parseRSTStreamFrame. case_if; [done|]. case_if; [done|]. breflect.
  injection Hp as <-. split; [done|]. split; [done|]. simpl. split; [done|]. auto with go.
Qed.

Lemma parseSettingsFrame_ok : parser_ok FrameSettings parseSettingsFrame.
Proof.
  parser_start parseSettingsFrame. case_if; [done|]. case_if; [done|]. case_if; [done|].
  breflect. assert (Hf : f = SettingsFrame fh b /\
    forall v, SettingsFrame_Value b SettingInitialWindowSize = Some v -> v <= 2 ^ 31 - 1).
  { destruct (SettingsFrame_Value _ _) as [v|]; [|by injection Hp as <-].
    case_if; [done|]. breflect. injection Hp as <-. split; [done|]. intros v' [= <-]. done. }
  destruct Hf as [-> Hv]. split; [done|]. split; [done|]. simpl.
  split; [done|]. split; [done|]. split; [|done]. unfold IsAck. intros Hack.
  rewrite Hack in *. destruct_or?; [done|]. breflect. apply len_0_inv.
  pose proof (len_nonneg b). lia.
Qed.

Lemma parsePushPromise_ok : parser_ok FramePushPromise parsePushPromise.
Proof.
  parser_start parsePushPromise. case_if; [done|]. breflect.
  apply result_bind_Ok in Hp as ([p1 n] & H1 & Hp).
  destruct (optional_pad _ _ _ _ H1 Hb) as (Hb1 & Hn & Hl1).
  apply result_bind_Ok in Hp as ([p2 v] & H2 & Hp).
  destruct (readUint32_Ok _ _ _ H2 Hb1) as (-> & Hv & Hl2).
  case_if; [done|]. breflect. injection Hp as <-. split; [done|]. split; [done|]. simpl.
  split; [done|]. rewrite land_mask by lia. split; [width|].
  rewrite len_ztake by (pose proof (len_nonneg (zdrop 4 p1)); lia). lia.
Qed.

Lemma parsePingFrame_ok : parser_ok FramePing parsePingFrame.
Proof.
  parser_start parsePingFrame. case_if; [done|]. case_if; [done|]. breflect.
  by injection Hp as <-.
Qed.

Lemma parseGoAwayFrame_ok : parser_ok FrameGoAway parseGoAwayFrame.
Proof.
  parser_start parseGoAwayFrame. case_if; [done|]. case_if; [done|]. breflect.
  injection Hp as <-. split; [done|]. split; [done|]. simpl. split; [done|].
  rewrite land_mask by lia. split; [width | auto with go].
Qed.

Lemma parseWindowUpdateFrame_ok : parser_ok FrameWindowUpdate parseWindowUpdateFrame.
Proof.
  parser_start parseWindowUpdateFrame. rewrite land_31bits in Hp. case_if; [done|].
  case_if; [by case_if|]. breflect. injection Hp as <-. split; [done|]. split; [done|].
  simpl. width.
Qed.

Lemma parseContinuationFrame_ok : parser_ok FrameContinuation parseContinuationFrame.
Proof.
  parser_start parseContinuationFrame. case_if; [done|]. breflect. by injection Hp as <-.
Qed.

(** What a successful parse does to the frame heap. *)
Definition parsed (t : Z) (fc : option nat) (fh : FrameHeader) (hp hp' : heap) (a : nat) : Prop :=
  exists f, hp' !! a = Some f /\ Header f = fh /\ type_of f = t /\ wf_payload f /\
    cache_ok fc hp' /\ (forall b g, b <> a -> hp !! b = Some g -> hp' !! b = Some g).

Lemma cache_ok_app fc hp k : cache_ok fc hp -> cache_ok fc (hp ++ k).
Proof.
  intros Hc a Ha. destruct (Hc a Ha) as (h & d & Hl). exists h, d. by apply lookup_app_l_Some.
Qed.

Lemma fresh_ok t p fc fh b hp hp' a :
  parser_ok t p -> fresh p fc fh b hp = (hp', Ok a) ->
  wf_bytes b -> len b = Length fh -> Type_ fh = t -> cache_ok fc hp ->
  parsed t fc fh hp hp' a.
Proof.
  intros Hp Hf Hb Hlen Ht Hc. unfold fresh in Hf.
  destruct (p fh b) as [f|e] eqn:E; simplify_eq.
  destruct (Hp _ _ _ E Hb Hlen eq_refl) as (Hh & Hty & Hwf).
  exists f. split; [by apply list_lookup_middle|]. split_and!; auto using cache_ok_app.
  intros c g _. apply lookup_app_l_Some.
Qed.

Lemma parseDataFrame_ok fc fh b hp hp' a :
  parseDataFrame fc fh b hp = (hp', Ok a) ->
  wf_bytes b -> len b = Length fh -> cache_ok fc hp -> parsed FrameData fc fh hp hp' a.
Proof.
  intros Hp Hb Hlen Hc. unfold parseDataFrame in Hp. case_if; [done|]. breflect.
  destruct (getDataFrame fc hp) as [hp1 a1] eqn:Hg.
  destruct (if Has _ _ then _ else _) as [[p1 n]|e] eqn:H1; [|done].
  destruct (optional_pad _ _ _ _ H1 Hb) as (Hb1 & Hn & Hl1).
  case_if; [done|]. breflect. injection Hp as <- <-.
  assert (Ha : (exists h d, hp1 !! a1 = Some (DataFrame h d)) /\ cache_ok fc hp1 /\
               forall c g, hp !! c = Some g -> hp1 !! c = Some g).
  { unfold getDataFrame in Hg. destruct fc as [c|]; simplify_eq; [split_and!; eauto|].
    split_and!; [|done|intros; by apply lookup_app_l_Some].
    exists zeroHeader, []. by apply list_lookup_middle. }
  destruct Ha as ((h & d & Ha) & Hc1 & Hsub).
  set (d' := ztake (len p1 - n) p1).
  assert (Hst : store_data a1 d' (store_header a1 fh hp1) !! a1 = Some (DataFrame fh d')).
  { unfold store_data, store_header. by rewrite !list_lookup_alter_eq, Ha. }
  assert (Hne : forall c g, c <> a1 -> hp1 !! c = Some g ->
    store_data a1 d' (store_header a1 fh hp1) !! c = Some g).
  { intros c g Hca Hg'. unfold store_data, store_header. by rewrite !list_lookup_alter_ne. }
  exists (DataFrame fh d'). split_and!; auto.
  - simpl. split; [done|]. unfold d'. pose proof (len_ztake_le (len p1 - n) p1). lia.
  - intros c Hcc. destruct (decide (c = a1)) as [->|]; [by exists fh, d'|].
    destruct (Hc1 c Hcc) as (h2 & d2 & Hl2). exists h2, d2. auto.
Qed.

Lemma typeFrameParser_ok t fc fh b hp hp' a :
  typeFrameParser t fc fh b hp = (hp', Ok a) ->
  wf_bytes b -> len b = Length fh -> Type_ fh = t -> cache_ok fc hp ->
  parsed t fc fh hp hp' a.
Proof.
  intros Hp Hb Hlen Ht Hc. unfold typeFrameParser, frameParsers in Hp. cbn [table_get] in Hp.
  repeat match type of Hp with
  | (match (if ?c then _ else _) with _ => _ end) _ _ _ _ = _ => destruct c eqn:?; breflect
  end; subst.
  { by apply (parseDataFrame_ok _ _ _ _ _ _ Hp). }
  all: try match goal with E : Type_ ?x = ?c |- parsed (Type_ ?x) _ _ _ _ _ => rewrite E end.
  1-9: eapply fresh_ok; [|exact Hp|..]; eauto using parseHeadersFrame_ok, parsePriorityFrame_ok,
      parseRSTStreamFrame_ok, parseSettingsFrame_ok, parsePushPromise_ok, parsePingFrame_ok,
      parseGoAwayFrame_ok, parseWindowUpdateFrame_ok, parseContinuationFrame_ok.
  eapply fresh_ok; [|exact Hp|..]; eauto.
  intros fh' b' f' [= <-] _ _ Ht. split; [done|]. split; [done|]. simpl. rewrite Ht.
  unfold FrameData, FrameHeaders, FramePriority, FrameRSTStream, FrameSettings, FramePushPromise,
    FramePing, FrameGoAway, FrameWindowUpdate, FrameContinuation in *. lia.
Qed.

(** ** One frame off the wire *)

(** The stream whose header block is open after a frame with header [h]. *)
Definition next_stream (last : Z) (h : FrameHeader) : Z :=
  if (Type_ h =? FrameHeaders) || (Type_ h =? FrameContinuation)
  then if Has (Flags h) FlagHeadersEndHeaders then 0 else StreamID h
  else last.

(** The configuration of a framer, which reading leaves alone. *)
Definition same_config (fr fr' : Framer) : Prop :=
  maxReadSize fr' = maxReadSize fr /\ AllowIllegalReads fr' = AllowIllegalReads fr /\
  frameCache fr' = frameCache fr /\ MaxHeaderListSize fr' = MaxHeaderListSize fr.

(** The invariant of a framer: its input is octets and its pointers designate
    frames of its heap. *)
Definition framer_ok (fr : Framer) : Prop :=
  wf_bytes (r_data (fr_r fr)) /\ cache_ok (frameCache fr) (fr_heap fr) /\
  forall a, lastFrame fr = Some a -> is_Some (fr_heap fr !! a).

Record frame_read (fr fr' : Framer) (a : nat) (f : Frame) : Prop := {
  read_at : fr_heap fr' !! a = Some f;
  read_valid : valid (Header f) = true;
  read_type : type_of f = Type_ (Header f);
  read_wf : wf_payload f;
  read_sid : 0 <= StreamID (Header f) < 2 ^ 31;
  read_octets : exists hdr payload,
    r_data (fr_r fr) = hdr ++ payload ++ r_data (fr_r fr') /\ len hdr = 9 /\
    len payload = Length (Header f) /\ len payload <= maxReadSize fr;
  read_last : lastFrame fr' = Some a;
  read_order : AllowIllegalReads fr = false ->
    order_accepts fr (Type_ (Header f)) (StreamID (Header f)) /\
    lastHeaderStream fr' = next_stream (lastHeaderStream fr) (Header f);
  read_before : forall b, lastFrame fr = Some b -> b <> a ->
    exists g, fr_heap fr' !! b = Some g /\ valid (Header g) = false;
  read_config : same_config fr fr';
  read_decoder : ReadMetaHeaders fr' = ReadMetaHeaders fr;
  read_frame_ok : framer_ok fr'
}.

Lemma checkFrameOrder_None fr a fr' :
  checkFrameOrder fr a = (fr', None) ->
  fr_heap fr' = fr_heap fr /\ fr_r fr' = fr_r fr /\ lastFrame fr' = Some a /\
  ReadMetaHeaders fr' = ReadMetaHeaders fr /\ same_config fr fr' /\
  (AllowIllegalReads fr = false ->
   order_accepts fr (Type_ (header_at (fr_heap fr) a)) (StreamID (header_at (fr_heap fr) a)) /\
   lastHeaderStream fr' = next_stream (lastHeaderStream fr) (header_at (fr_heap fr) a)).
Proof.
  unfold checkFrameOrder, order_accepts, next_stream, same_config.
  cbn [AllowIllegalReads set_lastFrame fr_heap lastHeaderStream].
  destruct (AllowIllegalReads fr) eqn:Hal; [intros [= <-]; split_and!; done|].
  destruct (lastHeaderStream fr =? 0) eqn:E; cbn [negb].
  - destruct (Type_ _ =? FrameContinuation) eqn:E2; [done|]. breflect.
    repeat case_if; intros [= <-]; split_and!; try done; intros _; (split; [by right|done]).
  - destruct (Type_ _ =? FrameContinuation) eqn:E2; [|done]. cbn [negb].
    destruct (StreamID _ =? _) eqn:E3; [|done]. cbn [negb]. breflect.
    rewrite orb_true_r. repeat case_if; intros [= <-]; split_and!; try done; intros _;
      (split; [right; done|done]).
Qed.

Lemma readFrameHeader_Ok r r' fh :
  readFrameHeader r = (r', Ok fh) -> wf_bytes (r_data r) ->
  valid fh = true /\ 0 <= StreamID fh < 2 ^ 31 /\ 0 <= Length fh /\ wf_bytes (r_data r') /\
  exists hdr, r_data r = hdr ++ r_data r' /\ len hdr = 9.
Proof.
  unfold readFrameHeader, ReadFull. case_if; [|done]. intros [= <- <-] Hb. breflect.
  unfold frameHeaderLen in *. simpl. rewrite land_mask by lia.
  assert (Hn : forall i, 0 <= default 0 (ztake 9 (r_data r) !! i)).
  { intros i. destruct (_ !! i) as [x|] eqn:Hi; simpl; [|lia].
    assert (Hx : is_u8 x); [|unfold is_u8 in Hx; lia].
    eapply Forall_lookup_1; [|exact Hi]. by apply wf_bytes_ztake. }
  split; [done|]. split; [width|]. split.
  { rewrite !Z.lor_nonneg, !Z.shiftl_nonneg. auto. }
  split; [by apply wf_bytes_zdrop|].
  exists (ztake 9 (r_data r)). rewrite ztake_zdrop. split; [done|]. by apply len_ztake.
Qed.

Lemma ReadFull_Ok r n r' b :
  ReadFull r n = (r', Ok b) -> 0 <= n ->
  r_data r = b ++ r_data r' /\ len b = n.
Proof.
  unfold ReadFull. case_if; [|done]. intros [= <- <-] Hn. breflect. simpl.
  by rewrite ztake_zdrop, len_ztake.
Qed.

Lemma invalidate_header f : valid (Header (invalidate f)) = false.
Proof. unfold invalidate. by rewrite Header_set_header. Qed.

Lemma dropLast_spec fr :
  framer_ok fr ->
  fr_r (dropLast fr) = fr_r fr /\ lastFrame (dropLast fr) = lastFrame fr /\
  lastHeaderStream (dropLast fr) = lastHeaderStream fr /\
  ReadMetaHeaders (dropLast fr) = ReadMetaHeaders fr /\
  same_config fr (dropLast fr) /\ cache_ok (frameCache fr) (fr_heap (dropLast fr)) /\
  forall b, lastFrame fr = Some b ->
    exists g, fr_heap (dropLast fr) !! b = Some g /\ valid (Header g) = false.
Proof.
  intros (_ & Hc & Hl). unfold dropLast, same_config. cbn [lastFrame set_errDetail fr_heap].
  destruct (lastFrame fr) as [a|] eqn:E; cbn; rewrite ?E; split_and!;
    auto using cache_ok_invalidate; try done.
  intros b [= <-]. destruct (Hl a eq_refl) as [g Hg].
  exists (invalidate g). split; [|apply invalidate_header].
  by rewrite list_lookup_alter_eq, Hg.
Qed.

Lemma readFrame1_Ok fr fr' a :
  framer_ok fr -> readFrame1 fr = (fr', Ok a) -> exists f, frame_read fr fr' a f.
Proof.
  intros Hok. pose proof (dropLast_spec fr Hok) as (Er & El & Es & Ed & Ec & Hc & Hb).
  destruct Hok as (Hwf & _ & _). unfold readFrame1.
  rewrite Er. destruct (readFrameHeader (fr_r fr)) as [r1 [fh|e]] eqn:Hh; [|done].
  destruct (readFrameHeader_Ok _ _ _ Hh Hwf) as (Hv & Hsid & HL & Hwf1 & hdr & Hr & Hhdr).
  destruct (Length fh >? _) eqn:Hmax; [done|]. breflect. cbn [fr_r set_r].
  destruct (ReadFull r1 (Length fh)) as [r2 [payload|e]] eqn:Hf; [|done].
  destruct (ReadFull_Ok _ _ _ _ Hf HL) as (Hr1 & Hlen).
  assert (Hwp : wf_bytes payload /\ wf_bytes (r_data r2)).
  { rewrite Hr1 in Hwf1. by apply Forall_app in Hwf1. }
  destruct Hwp as [Hwp Hwf2].
  destruct (typeFrameParser _ _ _ _ _) as [hp [a'|e]] eqn:Hp; [|by destruct e].
  destruct Ec as (Em & Ea & Efc & Emh).
  cbn [set_r frameCache fr_heap] in Hp. rewrite Efc in Hp.
  destruct (typeFrameParser_ok _ _ _ _ _ _ _ Hp Hwp Hlen eq_refl Hc)
    as (f & Hat & Hhf & Hty & Hwfp & Hc' & Hkeep).
  destruct (checkFrameOrder _ a') as [fr2 [e|]] eqn:Ho; [done|]. intros [= <- <-].
  destruct (checkFrameOrder_None _ _ _ Ho) as (Hp2 & Hr2 & Hl2 & Hd2 & Hcfg & Hord).
  cbn [fr_heap set_heap set_r fr_r] in *. unfold header_at in Hord. rewrite Hat in Hord.
  simpl in Hord. unfold same_config in Hcfg. cbn in Hcfg. destruct Hcfg as (C1 & C2 & C3 & C4).
  exists f. split; rewrite ?Hp2, ?Hr2, ?Hhf; try done.
  - exists hdr, payload. rewrite Hr, Hr1. split; [done|]. split; [done|]. split; [done|]. 
    cbn in Hmax. rewrite Em in Hmax. lia.
  - intros Hal. rewrite Hhf in Hord. cbn in Hord. rewrite Ea in Hord.
    unfold order_accepts in *. cbn in Hord. rewrite Es, ?Ea in Hord. by apply Hord.
  - intros b Hlb Hne. destruct (Hb b Hlb) as (g & Hg & Hgv). exists g. split; [|done]. by apply Hkeep.
  - split; [congruence|]. split; [congruence|]. split; congruence.
  - cbn in Hd2. congruence.
  - split; [rewrite Hr2; exact Hwf2|]. rewrite C3, Efc, Hp2. split; [done|].
    intros b Hb2. rewrite Hl2 in Hb2. injection Hb2 as <-. by exists f.
Qed.

(** ** Failed reads keep the framer usable *)

Lemma store_header_ok fc a fh hp :
  cache_ok fc hp -> cache_ok fc (store_header a fh hp).
Proof.
  intros Hc c Hcc. destruct (Hc c Hcc) as (h & d & Hl). unfold store_header.
  destruct (decide (c = a)) as [->|]; [|by rewrite list_lookup_alter_ne; eauto].
  rewrite list_lookup_alter_eq, Hl. simpl. eauto.
Qed.

Lemma store_data_ok fc a b hp : cache_ok fc hp -> cache_ok fc (store_data a b hp).
Proof.
  intros Hc c Hcc. destruct (Hc c Hcc) as (h & d & Hl). unfold store_data.
  destruct (decide (c = a)) as [->|]; [|by rewrite list_lookup_alter_ne; eauto].
  rewrite list_lookup_alter_eq, Hl. simpl. eauto.
Qed.

(** A parser never frees a frame, whether it succeeds or not. *)
Definition heap_grows (fc : option nat) (hp hp' : heap) : Prop :=
  (length hp <= length hp')%nat /\ (cache_ok fc hp -> cache_ok fc hp').

Lemma parseDataFrame_grows fc fh b hp hp' res :
  parseDataFrame fc fh b hp = (hp', res) -> heap_grows fc hp hp'.
Proof.
  unfold parseDataFrame, heap_grows. case_if; [by intros [= <- <-]|].
  destruct (getDataFrame fc hp) as [hp1 a1] eqn:Hg.
  assert (Hg' : (length hp <= length hp1)%nat /\ (cache_ok fc hp -> cache_ok fc hp1)).
  { unfold getDataFrame in Hg. destruct fc; simplify_eq; [done|].
    rewrite length_app. split; [lia | done]. }
  destruct Hg' as [Hlen Hc].
  destruct (if Has _ _ then _ else _) as [[p n]|e]; [case_if|];
    intros [= <- <-]; unfold store_data; unfold store_header at 1;
    rewrite ?length_alter; (split; [unfold store_header; rewrite ?length_alter; done|]);
    auto using store_header_ok, store_data_ok.
  intros. apply store_data_ok, store_header_ok. auto.
Qed.

Lemma fresh_grows p fc fh b hp hp' res :
  fresh p fc fh b hp = (hp', res) -> heap_grows fc hp hp'.
Proof.
  unfold fresh, heap_grows. destruct (p fh b); intros [= <- <-]; [|done].
  rewrite length_app. split; [lia | auto using cache_ok_app].
Qed.

Lemma typeFrameParser_grows t fc fh b hp hp' res :
  typeFrameParser t fc fh b hp = (hp', res) -> heap_grows fc hp hp'.
Proof.
  unfold typeFrameParser, frameParsers. cbn [table_get].
  repeat case_if; eauto using parseDataFrame_grows, fresh_grows.
Qed.

(** The address a parser returns is allocated. *)
Lemma typeFrameParser_alloc t fc fh b hp hp' a :
  typeFrameParser t fc fh b hp = (hp', Ok a) -> cache_ok fc hp -> is_Some (hp' !! a).
Proof.
  intros Hp Hc. revert Hp. unfold typeFrameParser, frameParsers. cbn [table_get].
  assert (Hfr : forall p, fresh p fc fh b hp = (hp', Ok a) -> is_Some (hp' !! a)).
  { intros p. unfold fresh. destruct (p fh b) as [f|]; intros; simplify_eq.
    exists f. by apply list_lookup_middle. }
  repeat case_if; try apply Hfr. unfold parseDataFrame. case_if; [done|].
  destruct (getDataFrame _ _) as [hp1 a1] eqn:Hg.
  assert (Ha1 : is_Some (hp1 !! a1)).
  { unfold getDataFrame in Hg. destruct fc as [c|] eqn:Hfc; simplify_eq.
    - destruct (Hc a1) as (? & ? & ?); [congruence|]. eauto.
    - exists (DataFrame zeroHeader []). by apply list_lookup_middle. }
  destruct (if Has _ _ then _ else _) as [[? ?]|?]; [|done]. case_if; [done|].
  intros; simplify_eq. unfold store_data, store_header.
  rewrite !list_lookup_alter_eq. by destruct (hp1 !! a) as [g|]; [eauto|destruct Ha1].
Qed.

Lemma ReadFull_wf n r r' res :
  ReadFull r n = (r', res) -> wf_bytes (r_data r) -> wf_bytes (r_data r').
Proof.
  unfold ReadFull. case_if; intros [= <- <-] Hw; simpl; [by apply wf_bytes_zdrop|constructor].
Qed.

Lemma readFrameHeader_wf r r' res :
  readFrameHeader r = (r', res) -> wf_bytes (r_data r) -> wf_bytes (r_data r').
Proof.
  unfold readFrameHeader. destruct (ReadFull _ _) as [r0 res0] eqn:E0. intros E Hw.
  apply ReadFull_wf in E0; [|done]. destruct res0; simplify_eq; done.
Qed.

Lemma readFrame1_Err fr fr' e :
  framer_ok fr -> readFrame1 fr = (fr', Err e) ->
  framer_ok fr' /\ same_config fr fr' /\ ReadMetaHeaders fr' = ReadMetaHeaders fr.
Proof.
  intros Hok. pose proof (dropLast_spec fr Hok) as (Er & El & Es & Ed & Ec & Hc & Hb).
  destruct Hok as (Hwf & _ & _).
  assert (Hl : forall a, lastFrame (dropLast fr) = Some a -> is_Some (fr_heap (dropLast fr) !! a)).
  { intros a Ha. rewrite El in Ha. destruct (Hb a Ha) as (g & Hg & _). by exists g. }
  unfold readFrame1. rewrite Er.
  set (fr0 := dropLast fr) in *. clearbody fr0. destruct Ec as (C1 & C2 & C3 & C4).
  destruct (readFrameHeader (fr_r fr)) as [r1 res1] eqn:Hh.
  apply readFrameHeader_wf in Hh as Hw1; [|done].
  destruct res1 as [fh|e1].
  2: { intros [= <- <-]. unfold framer_ok, same_config. cbn. rewrite C3. done. }
  destruct (Length fh >? _).
  { intros [= <- <-]. unfold framer_ok, same_config. cbn. rewrite C3. done. }
  cbn [fr_r set_r]. destruct (ReadFull r1 (Length fh)) as [r2 res2] eqn:E2.
  apply ReadFull_wf in E2; [|done]. destruct res2 as [payload|e2].
  2: { intros [= <- <-]. unfold framer_ok, same_config. cbn. rewrite C3. done. }
  cbn [set_r frameCache fr_heap].
  destruct (typeFrameParser _ _ _ _ _) as [hp res3] eqn:Hp.
  pose proof (typeFrameParser_grows _ _ _ _ _ _ _ Hp) as [Hgl Hgc].
  rewrite C3 in Hgc. specialize (Hgc Hc).
  assert (Hl3 : forall a, lastFrame fr0 = Some a -> is_Some (hp !! a)).
  { intros a Ha%Hl. apply lookup_lt_is_Some_1 in Ha. apply lookup_lt_is_Some_2. lia. }
  destruct res3 as [a|e3].
  2: { destruct e3; intros [= <- <-]; unfold framer_ok, same_config; cbn; rewrite C3; done. }
  destruct (checkFrameOrder _ a) as [fr2 [e4|]] eqn:Ho; [|done]. intros [= <- <-].
  assert (Ha : is_Some (hp !! a)).
  { eapply typeFrameParser_alloc; [exact Hp|]. by rewrite C3. }
  revert Ho. unfold checkFrameOrder, Framer_connError. cbn [AllowIllegalReads set_lastFrame fr_heap].
  repeat case_if; intros; simplify_eq; unfold framer_ok, same_config; cbn; rewrite C3;
    split_and!; try done; intros b [= <-]; done.
Qed.

(** ** Order of the frames *)

(** The headers of the frames successive calls of ReadFrame return, on a framer
    that does not assemble header lists. *)
Inductive reads (fuel : nat) : Framer -> list FrameHeader -> Framer -> Prop :=
| reads_nil fr : reads fuel fr [] fr
| reads_cons fr fr1 fr2 a f hs :
    ReadFrame fuel fr = Ret (fr1, Ok (RefFrame a)) -> fr_heap fr1 !! a = Some f ->
    reads fuel fr1 hs fr2 -> reads fuel fr (Header f :: hs) fr2.

(** A frame that leaves a header block open. *)
Definition opens (h : FrameHeader) : bool :=
  ((Type_ h =? FrameHeaders) || (Type_ h =? FrameContinuation))
  && negb (Has (Flags h) FlagHeadersEndHeaders).

Lemma ReadFrame_plain fuel fr fr1 a :
  ReadMetaHeaders fr = None -> framer_ok fr ->
  ReadFrame fuel fr = Ret (fr1, Ok (RefFrame a)) ->
  exists f, frame_read fr fr1 a f.
Proof.
  intros Hd Hok. destruct fuel as [|fuel]; [done|]. cbn [ReadFrame].
  destruct (readFrame1 fr) as [fr' [a'|e]] eqn:E; [|done].
  destruct (readFrame1_Ok _ _ _ Hok E) as [f Hf].
  rewrite (read_decoder _ _ _ _ Hf), Hd. intros [= <- <-]. by exists f.
Qed.

Lemma next_stream_opens last h :
  (if last =? 0 then Type_ h <> FrameContinuation
   else Type_ h = FrameContinuation /\ StreamID h = last) ->
  next_stream last h = if opens h then StreamID h else 0.
Proof.
  unfold next_stream, opens. destruct (last =? 0) eqn:E; breflect.
  - intros Ht. subst. destruct (Type_ h =? FrameHeaders), (Type_ h =? FrameContinuation),
      (Has _ _); done.
  - intros [-> _]. by destruct (Has _ _).
Qed.

(** What a frame of a legal sequence says about the one before it. *)
Definition follows (before : option FrameHeader) (h : FrameHeader) : Prop :=
  match before with
  | Some b => if opens b then Type_ h = FrameContinuation /\ StreamID h = StreamID b
              else Type_ h <> FrameContinuation
  | None => Type_ h <> FrameContinuation
  end.

Fixpoint legal (before : option FrameHeader) (hs : list FrameHeader) : Prop :=
  match hs with
  | [] => True
  | h :: t => follows before h /\ legal (Some h) t
  end.

(** The stream a framer expects a CONTINUATION for, from the last frame. *)
Definition open_stream (before : option FrameHeader) : Z :=
  match before with
  | Some b => if opens b then StreamID b else 0
  | None => 0
  end.

Lemma wf_payload_sid f :
  type_of f = Type_ (Header f) -> wf_payload f -> opens (Header f) = true ->
  StreamID (Header f) <> 0.
Proof.
  unfold opens. intros Ht Hwf Ho. apply andb_true_iff in Ho as [Ho _].
  destruct f; simpl in *; try (rewrite <- Ht in Ho; done); try tauto.
  unfold FrameHeaders, FrameContinuation, FrameData in *. breflect. lia.
Qed.

Lemma reads_legal fuel before fr hs fr' :
  reads fuel fr hs fr' ->
  AllowIllegalReads fr = false -> ReadMetaHeaders fr = None -> framer_ok fr ->
  lastHeaderStream fr = open_stream before ->
  (forall b, before = Some b -> opens b = true -> StreamID b <> 0) ->
  legal before hs.
Proof.
  intros Hr. revert before. induction Hr as [|fr fr1 fr2 a f hs E Hf Hr IH];
    intros before Hal Hd Hok Hlast Hnz; [done|].
  destruct (ReadFrame_plain _ _ _ _ Hd Hok E) as [g Hg].
  assert (g = f) as -> by (pose proof (read_at _ _ _ _ Hg); congruence).
  destruct (read_order _ _ _ _ Hg Hal) as [[Hx|Ho] Hnext]; [congruence|].
  destruct (read_config _ _ _ _ Hg) as (_ & Hal1 & _).
  split.
  - unfold follows. rewrite Hlast in Ho. destruct before as [b|]; [|exact Ho]. simpl in Ho.
    destruct (opens b) eqn:Hb; [|exact Ho]. destruct (StreamID b =? 0) eqn:E0; [|done].
    apply Z.eqb_eq in E0. by destruct (Hnz b eq_refl Hb).
  - apply (IH (Some (Header f))).
    + congruence.
    + rewrite (read_decoder _ _ _ _ Hg). done.
    + apply (read_frame_ok _ _ _ _ Hg).
    + rewrite Hnext. simpl. by apply next_stream_opens.
    + intros b [= <-]. eapply wf_payload_sid; [apply (read_type _ _ _ _ Hg)|apply (read_wf _ _ _ _ Hg)].
Qed.

(** C20: unless illegal reads are allowed, the frames a fresh framer delivers
    keep the order RFC 7540 section 6.10 asks for: a HEADERS or CONTINUATION
    frame without END_HEADERS is followed by a CONTINUATION frame of the same
    stream, and no other CONTINUATION frame is delivered. *)
Theorem ReadFrame_order fuel w data e hs fr' :
  wf_bytes data ->
  reads fuel (NewFramer w (mkReader data e)) hs fr' -> legal None hs.
Proof.
  intros Hd Hr. eapply reads_legal; [exact Hr|done|done| |done|done].
  split; [exact Hd|]. split; intros a Ha; done.
Qed.

(** ** The header lists of MetaHeadersFrame *)

Definition sum_sizes (fs : list HeaderField) : Z := foldr (fun hf s => Field_Size hf + s) 0 fs.

Definition colon (hf : HeaderField) : bool := has_prefix (str ":") (Name hf).

(** A list of pseudo headers followed by a list of regular ones, all of them
    fit for the wire. *)
Definition wire_fields (ps rs : list HeaderField) : Prop :=
  Forall (fun hf => colon hf = true) ps /\
  Forall (fun hf => colon hf = false /\ validWireHeaderFieldName IsTokenRune (Name hf) = true) rs /\
  Forall (fun hf => ValidHeaderFieldValue (Value hf) = true) (ps ++ rs).

(** The invariant of the emit function, for a header list limit [max]. *)
Definition meta_inv (max : Z) (m : metaState) : Prop :=
  0 <= remainSize m /\ sum_sizes (m_fields m) + remainSize m <= max /\
  (invalid m = None -> exists ps rs, m_fields m = ps ++ rs /\ wire_fields ps rs /\
                                     (sawRegular m = false -> rs = [])).

Lemma sum_sizes_app l k : sum_sizes (l ++ k) = sum_sizes l + sum_sizes k.
Proof. induction l as [|hf l IH]; simpl; [done|]. rewrite IH. lia. Qed.

Lemma sum_sizes_nonneg `{!HPACKLaws} fs : 0 <= sum_sizes fs.
Proof.
  induction fs as [|hf fs IH]; simpl; [lia|]. fold (sum_sizes fs).
  rewrite Field_Size_spec. pose proof (is_u32_u32 (len (Name hf) + len (Value hf) + 32)).
  unfold is_u32 in *. lia.
Qed.

(** Appending a field the emit function accepts. *)
Lemma wire_fields_snoc ps rs (saw : bool) hf :
  wire_fields ps rs -> (saw = false -> rs = []) ->
  ValidHeaderFieldValue (Value hf) = true ->
  (if colon hf then saw = false else validWireHeaderFieldName IsTokenRune (Name hf) = true) ->
  exists ps' rs', (ps ++ rs) ++ [hf] = ps' ++ rs' /\ wire_fields ps' rs' /\
    (saw || negb (colon hf) = false -> rs' = []).
Proof.
  intros (Hp & Hr & Hv) Hsaw Hval Hname. destruct (colon hf) eqn:Hc.
  - rewrite (Hsaw Hname) in *. exists (ps ++ [hf]), []. rewrite !app_nil_r in *.
    split_and!; [done| |done]. unfold wire_fields. rewrite app_nil_r.
    split_and!; rewrite ?Forall_app; auto.
  - exists ps, (rs ++ [hf]). split; [by rewrite app_assoc|].
    split; [|by rewrite orb_true_r]. unfold wire_fields.
    split; [done|]. split; [rewrite Forall_app; auto|]. rewrite app_assoc, Forall_app. auto.
Qed.

Lemma metaEmit_inv `{!HPACKLaws} max m hf m' en :
  metaEmit m hf = (m', en) -> is_u32 max -> meta_inv max m -> meta_inv max m'.
Proof.
  intros E Hmax (Hrem & Hs & Hw). unfold metaEmit in E. fold (colon hf) in E.
  set (inv := if negb (ValidHeaderFieldValue _) then _ else _) in E.
  set (p := if colon hf then _ else _) in E.
  assert (Hp : exists saw inv', p = (saw, inv') /\
    saw = sawRegular m || negb (colon hf) /\
    (inv' = None -> invalid m = None /\ ValidHeaderFieldValue (Value hf) = true /\
     (if colon hf then sawRegular m = false
      else validWireHeaderFieldName IsTokenRune (Name hf) = true))).
  { subst p inv. destruct (colon hf).
    - eexists _, _. split; [done|]. rewrite orb_false_r. split; [done|].
      destruct (sawRegular m), (ValidHeaderFieldValue _); simpl; intros; simplify_eq; done.
    - eexists _, _. split; [done|]. rewrite orb_true_r. split; [done|].
      destruct (validWireHeaderFieldName _ _), (ValidHeaderFieldValue _); simpl;
        intros; simplify_eq; done. }
  destruct Hp as (saw & inv' & -> & -> & Hinv). destruct inv' as [e|].
  { injection E as <- <-. unfold meta_inv. simpl. done. }
  destruct (Hinv eq_refl) as (Hi & Hval & Hname).
  destruct (Hw Hi) as (ps & rs & Hf & Hwf & Hsaw).
  destruct (Field_Size hf >? remainSize m) eqn:Hsz; breflect; injection E as <- <-;
    unfold meta_inv; cbn [remainSize m_fields invalid sawRegular].
  - split; [lia|]. split; [lia|]. intros _. exists ps, rs. split_and!; [done..|].
    intros [Hno _]%orb_false_iff. auto.
  - assert (0 <= Field_Size hf) by (rewrite Field_Size_spec; apply is_u32_u32).
    pose proof (sum_sizes_nonneg (m_fields m)).
    rewrite sum_sizes_app. simpl. rewrite u32_id by width.
    split; [lia|]. split; [lia|]. intros _. rewrite Hf.
    by apply (wire_fields_snoc _ _ (sawRegular m)).
Qed.

Lemma runDecoder_inv `{!HPACKLaws} max d m d' e m' :
  runDecoder d m = (d', e, m') -> is_u32 max -> meta_inv max m -> meta_inv max m'.
Proof.
  intros E Hmax. revert m E. induction d as [d0 err|hf k IH]; intros m; simpl.
  - by intros [= <- <- <-].
  - destruct (metaEmit m hf) as [m1 en] eqn:Em. intros E Hi.
    eapply IH; [exact E|]. by eapply metaEmit_inv.
Qed.

Lemma PseudoFields_app `{!HPACKLaws} ps rs :
  wire_fields ps rs -> PseudoFields (ps ++ rs) = ps.
Proof.
  intros (Hp & Hr & _). induction Hp as [|hf ps Hhf Hp IH]; simpl.
  - destruct Hr as [|hf rs [Hc _] Hr]; simpl; [done|].
    rewrite IsPseudo_spec. unfold colon in Hc. by rewrite Hc.
  - rewrite IsPseudo_spec. unfold colon in Hhf. by rewrite Hhf, IH.
Qed.

Definition response_pseudo (n : bytes) : bool := bytes_eqb n (str ":status").

Lemma existsb_names hf seen :
  existsb (fun hf2 => bytes_eqb (Name hf) (Name hf2)) seen = false -> Name hf ∉ map Name seen.
Proof.
  induction seen as [|x seen IH]; simpl; [set_solver|].
  intros [Hx Hs]%orb_false_iff. rewrite elem_of_cons. intros [Heq|Hin]; [|by apply IH].
  by apply bytes_eqb_neq in Hx.
Qed.

Lemma NoDup_names_snoc seen hf :
  NoDup (map Name seen) -> Name hf ∉ map Name seen -> NoDup (map Name (seen ++ [hf])).
Proof.
  intros Hn Hi. rewrite map_app. apply NoDup_app. split; [done|].
  split; [|apply NoDup_singleton]. intros x Hx ->%list_elem_of_singleton. done.
Qed.

Lemma checkPseudos_loop_spec seen pf rq rp :
  checkPseudos_loop seen pf rq rp = None -> NoDup (map Name seen) ->
  NoDup (map Name (seen ++ pf)) /\
  ((rp = false /\ Forall (fun hf => request_pseudo (Name hf) = true) pf) \/
   (rq = false /\ Forall (fun hf => response_pseudo (Name hf) = true) pf)).
Proof.
  revert seen rq rp. induction pf as [|hf pf IH]; intros seen rq rp; simpl.
  - rewrite app_nil_r. destruct rq, rp; simpl; intros; try done; (split; [done|]); auto.
  - assert (Happ : seen ++ hf :: pf = (seen ++ [hf]) ++ pf) by by rewrite <- app_assoc.
    rewrite Happ.
    destruct (request_pseudo (Name hf)) eqn:Hq.
    + destruct (existsb _ _) eqn:Hd; [done|]. intros E Hnd. apply existsb_names in Hd.
      apply IH in E as [Hn [[-> Hf]|[? _]]]; [|done|].
      * split; [done|]. left. split; [done | by constructor].
      * by apply NoDup_names_snoc.
    + destruct (bytes_eqb (Name hf) (str ":status")) eqn:Hs; [|done].
      destruct (existsb _ _) eqn:Hd; [done|]. intros E Hnd. apply existsb_names in Hd.
      apply IH in E as [Hn [[? _]|[-> Hf]]]; [done| |].
      * split; [done|]. right. split; [done | by constructor].
      * by apply NoDup_names_snoc.
Qed.

(** The promise of MetaHeadersFrame: at most [max] octets of header list; the
    pseudo headers come first, are known, distinct, and all of a request or all
    of a response; regular names and all values are valid. *)
Definition meta_ok (max : Z) (fs : list HeaderField) : Prop :=
  sum_sizes fs <= max /\
  exists ps rs, fs = ps ++ rs /\ wire_fields ps rs /\ NoDup (map Name ps) /\
    (Forall (fun hf => request_pseudo (Name hf) = true) ps \/
     Forall (fun hf => response_pseudo (Name hf) = true) ps).

Lemma finishMeta_meta `{!HPACKLaws} max fr hf hdec m fr' r :
  finishMeta fr hf hdec m = (fr', Ok r) -> meta_inv max m ->
  exists mh, r = RefMeta mh /\ meta_ok max (Fields mh).
Proof.
  unfold finishMeta. destruct (Decoder_Close hdec) as [d [ce|]]; [done|].
  intros E (Hrem & Hs & Hw). destruct (invalid m) eqn:Hi; [done|].
  destruct (checkPseudos (m_fields m)) eqn:Hc; [done|]. injection E as <- <-.
  eexists. split; [done|]. simpl. destruct (Hw eq_refl) as (ps & rs & Hf & Hwf & _).
  split; [lia|]. exists ps, rs. split; [done|]. split; [done|].
  unfold checkPseudos in Hc. rewrite Hf, PseudoFields_app in Hc by done.
  apply checkPseudos_loop_spec in Hc as [Hn Hor]; [|constructor]. split; [done|]. tauto.
Qed.

(** ** ReadFrame returns *)

(** The frame whose fragment the loop of readMetaFrame decodes next. *)
Definition pending (fr : Framer) (f : Frame) : Prop :=
  valid (Header f) = true /\
  match f with HeadersFrame _ _ _ | ContinuationFrame _ _ => True | _ => False end /\
  type_of f = Type_ (Header f) /\
  (opens (Header f) = true -> lastHeaderStream fr <> 0).

Lemma frame_read_pending fr fr' a f :
  frame_read fr fr' a f -> AllowIllegalReads fr = false ->
  Type_ (Header f) = FrameHeaders \/ Type_ (Header f) = FrameContinuation -> pending fr' f.
Proof.
  intros Hf Hal Ht. pose proof (read_type _ _ _ _ Hf) as Hty. pose proof (read_wf _ _ _ _ Hf) as Hwf.
  split; [apply (read_valid _ _ _ _ Hf)|]. split.
  - destruct f; simpl in *; try done; destruct Ht as [Ht|Ht]; rewrite Ht in *; try done;
      by apply Hwf.
  - split; [done|]. intros Ho. destruct (read_order _ _ _ _ Hf Hal) as [[Hx|Hacc] ->]; [congruence|].
    rewrite next_stream_opens, Ho by done. by apply wf_payload_sid.
Qed.

Lemma pending_fragment fr f :
  pending fr f -> exists frag, HeaderBlockFragment f = Ret frag /\
    (HeadersEnded f = false -> type_of f = Type_ (Header f) -> opens (Header f) = true).
Proof.
  intros (Hv & Hk & _ & _). unfold opens. destruct f; try done; simpl in *;
    unfold checkValid, FlagHeadersEndHeaders, FlagContinuationEndHeaders; rewrite Hv;
    eexists; (split; [done|]); intros -> <-; done.
Qed.

Lemma framer_ok_set_decoder fr d : framer_ok (set_decoder fr d) <-> framer_ok fr.
Proof. done. Qed.

Lemma finishMeta_ok fr hf hdec m fr' res :
  finishMeta fr hf hdec m = (fr', res) -> framer_ok fr ->
  framer_ok fr' /\ same_config fr fr'.
Proof.
  intros E (Hr & Hc & Hl). unfold finishMeta in E.
  set (clear := fun f => _) in E.
  assert (Hc' : cache_ok (frameCache fr) (alter clear hf (fr_heap fr))).
  { intros c Hcc. destruct (Hc c Hcc) as (h & d & Hg).
    destruct (decide (c = hf)) as [->|]; [|rewrite list_lookup_alter_ne; eauto].
    rewrite list_lookup_alter_eq, Hg. simpl. eauto. }
  assert (Hl' : forall a, lastFrame fr = Some a -> is_Some (alter clear hf (fr_heap fr) !! a)).
  { intros a Ha%Hl. apply lookup_lt_is_Some_2. rewrite length_alter.
    by apply lookup_lt_is_Some_1. }
  destruct (Decoder_Close hdec) as [d ce].
  destruct ce; [|destruct (invalid m); [|destruct (checkPseudos _)]];
    injection E as <- <-; done.
Qed.

(** Every successful read consumes a frame header. *)
Lemma frame_read_shorter fr fr' a f :
  frame_read fr fr' a f ->
  (length (r_data (fr_r fr')) + 9 <= length (r_data (fr_r fr)))%nat.
Proof.
  intros Hf. destruct (read_octets _ _ _ _ Hf) as (hdr & payload & Hd & Hh & _).
  rewrite Hd, !length_app. unfold len in Hh. lia.
Qed.

(** The results of ReadFrame. *)
Definition read_result (fr fr' : Framer) (res : result error FrameRef) : Prop :=
  framer_ok fr' /\ same_config fr fr' /\
  match res with
  | Ok (RefFrame a) => exists f, frame_read fr fr' a f
  | Ok (RefMeta mh) => meta_ok (maxHeaderListSize fr) (Fields mh)
  | Err _ => True
  end.

Lemma same_config_trans fr1 fr2 fr3 :
  same_config fr1 fr2 -> same_config fr2 fr3 -> same_config fr1 fr3.
Proof.
  intros (?&?&?&?) (?&?&?&?). split; [congruence|]. split; [congruence|]. split; congruence.
Qed.

(** A read that finds a header block open returns a CONTINUATION frame. *)
Lemma ReadFrame_continuation fuel fr :
  (0 < fuel)%nat -> framer_ok fr -> AllowIllegalReads fr = false -> lastHeaderStream fr <> 0 ->
  exists fr' res, ReadFrame fuel fr = Ret (fr', res) /\ framer_ok fr' /\ same_config fr fr' /\
    match res with
    | Ok (RefFrame a) => exists f, frame_read fr fr' a f /\ pending fr' f /\
                                   Type_ (Header f) = FrameContinuation
    | Ok (RefMeta _) => False
    | Err _ => True
    end.
Proof.
  intros Hfuel Hok Hal Hls. destruct fuel as [|fuel]; [lia|]. cbn [ReadFrame].
  destruct (readFrame1 fr) as [fr1 [a|e]] eqn:E.
  2: { apply readFrame1_Err in E as (? & ? & _); [|done]. eauto 10. }
  destruct (readFrame1_Ok _ _ _ Hok E) as [f Hf].
  destruct (read_order _ _ _ _ Hf Hal) as [[Hx|Hacc] _]; [congruence|].
  apply Z.eqb_neq in Hls. rewrite Hls in Hacc. destruct Hacc as [Ht _].
  assert (Hty : (Type_ (header_at (fr_heap fr1) a) =? FrameHeaders) = false).
  { unfold header_at. rewrite (read_at _ _ _ _ Hf). simpl. by rewrite Ht. }
  rewrite Hty. exists fr1, (Ok (RefFrame a)). split; [by destruct (ReadMetaHeaders fr1)|].
  split; [apply (read_frame_ok _ _ _ _ Hf)|]. split; [apply (read_config _ _ _ _ Hf)|].
  exists f. split; [done|]. split; [|done]. eapply frame_read_pending; eauto.
Qed.

Lemma metaLoop_spec `{!HPACKLaws} max fuel : forall fr hf hc hdec m f,
  framer_ok fr -> AllowIllegalReads fr = false ->
  fr_heap fr !! hc = Some f -> pending fr f ->
  (length (r_data (fr_r fr)) + 2 <= fuel)%nat -> is_u32 max -> meta_inv max m ->
  exists fr' res, metaLoop fuel fr hf hc hdec m = Ret (fr', res) /\
    framer_ok fr' /\ same_config fr fr' /\
    match res with
    | Ok (RefFrame a) => False
    | Ok (RefMeta mh) => meta_ok max (Fields mh)
    | Err _ => True
    end.
Proof.
  induction fuel as [fuel IH] using lt_wf_ind. intros fr hf hc hdec m f Hok Hal Hat Hp Hfuel Hmax Hm.
  destruct fuel as [|fuel]; [lia|]. cbn [metaLoop].
  rewrite Hat. cbn [deref outcome_bind].
  destruct (pending_fragment _ _ Hp) as (frag & -> & Hended). cbn [outcome_bind].
  case_if; [eexists _, _; split; [done|]; done|].
  case_if; [eexists _, _; split; [done|]; done|].
  destruct (runDecoder _ m) as [[d werr] m'] eqn:Hrun.
  apply (runDecoder_inv max) in Hrun as Hm'; [|done..].
  destruct werr; [eexists _, _; split; [done|]; done|].
  destruct (HeadersEnded f) eqn:He.
  - destruct (finishMeta _ _ _ _) as [fr1 res] eqn:Ef.
    exists fr1, res. split; [done|].
    destruct (finishMeta_ok _ _ _ _ _ _ Ef Hok) as [? ?]. split; [done|]. split; [done|].
    destruct res as [r|]; [|done].
    destruct (finishMeta_meta _ _ _ _ _ _ _ Ef Hm') as (mh & -> & ?). done.
  - destruct (ReadFrame_continuation fuel (set_decoder fr (Some d))) as (fr1 & res & E & Hok1 & Hc1 & Hres);
      [lia|done|done|by apply Hp, Hended, Hp|].
    fold ReadFrame metaLoop. rewrite E. cbn [outcome_bind]. destruct res as [[a|mh]|e]; [|done|by eauto 10].
    destruct Hres as (f1 & Hf1 & Hp1 & Ht1). rewrite (read_at _ _ _ _ Hf1).
    pose proof (read_type _ _ _ _ Hf1) as Hty. rewrite Ht1 in Hty.
    pose proof (frame_read_shorter _ _ _ _ Hf1) as Hshort. cbn in Hshort.
    destruct f1; try done; [|by destruct Hp1 as (_ & ? & _ & _)].
    destruct (IH fuel) with (fr := fr1) (hf := hf) (hc := a) (hdec := d) (m := m')
      (f := ContinuationFrame h headerFragBuf) as (fr2 & res2 & E2 & Hok2 & Hc2 & Hr2);
      try done; [lia|destruct Hc1 as (_ & -> & _); done|apply (read_at _ _ _ _ Hf1)|lia|].
    rewrite E2. exists fr2, res2. split; [done|]. split; [done|]. split; [|done].
    by eapply same_config_trans.
Qed.

Lemma ReadFrame_spec `{!HPACKLaws} fuel fr :
  framer_ok fr -> is_u32 (MaxHeaderListSize fr) ->
  (length (r_data (fr_r fr)) < fuel)%nat ->
  exists fr' res, ReadFrame fuel fr = Ret (fr', res) /\ read_result fr fr' res.
Proof.
  intros Hok Hmax Hfuel. destruct fuel as [|fuel]; [lia|]. cbn [ReadFrame].
  destruct (readFrame1 fr) as [fr1 [a|e]] eqn:E.
  2: { apply readFrame1_Err in E as (? & ? & _); [|done]. exists fr1, (Err e). done. }
  destruct (readFrame1_Ok _ _ _ Hok E) as [f Hf].
  pose proof (read_frame_ok _ _ _ _ Hf) as Hok1. pose proof (read_config _ _ _ _ Hf) as Hc1.
  assert (Hplain : exists fr' res, Ret (fr1, Ok (RefFrame a)) = Ret (fr', res) /\
    read_result fr fr' res).
  { eexists _, _. split; [done|]. split; [done|]. split; [done|]. by exists f. }
  destruct (ReadMetaHeaders fr1) as [hdec|] eqn:Hd; [|done].
  destruct (_ =? FrameHeaders) eqn:Ht; [|done]. fold ReadFrame metaLoop.
  destruct (AllowIllegalReads fr1) eqn:Hal; [by eexists _, _|].
  unfold header_at in Ht. rewrite (read_at _ _ _ _ Hf) in Ht. apply Z.eqb_eq in Ht.
  assert (Hmx : maxHeaderListSize fr1 = maxHeaderListSize fr /\ is_u32 (maxHeaderListSize fr)).
  { unfold maxHeaderListSize. destruct Hc1 as (_ & _ & _ & ->). split; [done|].
    case_if; [split; [done|reflexivity]|done]. }
  destruct Hmx as [-> Hmx].
  destruct (metaLoop_spec (maxHeaderListSize fr) fuel fr1 a a
    (SetMaxStringLength (SetEmitEnabled hdec true) (maxHeaderStringLen fr1))
    (mkMetaState (maxHeaderListSize fr) false None [] false) f) as (fr2 & res & -> & Hok2 & Hc2 & Hres);
    try done.
  - apply (read_at _ _ _ _ Hf).
  - eapply frame_read_pending; [done| |by left]. destruct Hc1 as (_ & <- & _). done.
  - pose proof (frame_read_shorter _ _ _ _ Hf). lia.
  - split; [apply Hmx|]. split; [simpl; lia|]. intros _. exists [], []. split; [done|].
    split; [|done]. split_and!; constructor.
  - exists fr2, res. split; [done|]. split; [done|]. split; [by eapply same_config_trans|].
    destruct res as [[?|mh]|]; done.
Qed.

(** C22: on any octet stream ReadFrame returns, with fuel above the number of
    octets left: it neither runs forever nor panics (in particular the type
    assertion "guaranteed by checkFrameOrder" holds and no stale frame is
    touched), and it leaves the framer in a state where this holds again. *)
Theorem ReadFrame_returns `{!HPACKLaws} fuel fr :
  framer_ok fr -> is_u32 (MaxHeaderListSize fr) ->
  (length (r_data (fr_r fr)) < fuel)%nat ->
  exists fr' res, ReadFrame fuel fr = Ret (fr', res) /\ framer_ok fr' /\ same_config fr fr'.
Proof.
  intros Hok Hmax Hfuel. destruct (ReadFrame_spec fuel fr Hok Hmax Hfuel) as (fr' & res & E & Hok' & Hc' & _).
  by exists fr', res.
Qed.

(** A frame ReadFrame returns is valid and well formed for its type (stream
    identifiers, window increments, SETTINGS and PING sizes, padding), its
    payload is the [Length] octets after the nine of the header and no longer
    than the configured maximum, and the frame returned before, unless it is
    the reused DATA frame, is no longer valid. *)
Theorem ReadFrame_frame `{!HPACKLaws} fuel fr fr' a :
  framer_ok fr -> is_u32 (MaxHeaderListSize fr) ->
  (length (r_data (fr_r fr)) < fuel)%nat ->
  ReadFrame fuel fr = Ret (fr', Ok (RefFrame a)) -> exists f, frame_read fr fr' a f.
Proof.
  intros Hok Hmax Hfuel E.
  destruct (ReadFrame_spec fuel fr Hok Hmax Hfuel) as (fr2 & res & E2 & _ & _ & Hres).
  rewrite E2 in E. injection E as -> ->. done.
Qed.

(** C23: the header list of a MetaHeadersFrame keeps the documented promise: its
    size, as RFC 7540 section 10.5.1 counts it, is within the limit, the pseudo
    headers come first, are known, distinct and all of a request or all of a
    response, and regular names and all values are valid. *)
Theorem ReadFrame_meta `{!HPACKLaws} fuel fr fr' mh :
  framer_ok fr -> is_u32 (MaxHeaderListSize fr) ->
  (length (r_data (fr_r fr)) < fuel)%nat ->
  ReadFrame fuel fr = Ret (fr', Ok (RefMeta mh)) -> meta_ok (maxHeaderListSize fr) (Fields mh).
Proof.
  intros Hok Hmax Hfuel E.
  destruct (ReadFrame_spec fuel fr Hok Hmax Hfuel) as (fr2 & res & E2 & _ & _ & Hres).
  rewrite E2 in E. injection E as -> ->. done.
Qed.

(** The limit readMetaFrame puts on a fragment, twice the octets that remain
    of the header list, is computed in uint32 and wraps: with MaxHeaderListSize
    2^31 the limit is 0, and every HEADERS frame, however small, makes ReadFrame
    fail with a connection error. *)
Theorem readMetaFrame_limit_wraps fuel fr fr1 a hdec :
  framer_ok fr -> MaxHeaderListSize fr = 2 ^ 31 -> AllowIllegalReads fr = false ->
  ReadMetaHeaders fr = Some hdec -> readFrame1 fr = (fr1, Ok a) ->
  Type_ (header_at (fr_heap fr1) a) = FrameHeaders ->
  exists fr', ReadFrame (S (S fuel)) fr = Ret (fr', Err (ConnectionError ErrCodeProtocol)).
Proof.
  intros Hok Hmax Hal Hd E Ht. destruct (readFrame1_Ok _ _ _ Hok E) as [f Hf].
  destruct (read_config _ _ _ _ Hf) as (_ & Hal1 & _ & Hmax1).
  pose proof (read_at _ _ _ _ Hf) as Hat. unfold header_at in Ht. rewrite Hat in Ht. simpl in Ht.
  destruct (frame_read_pending _ _ _ _ Hf Hal (or_introl Ht)) as (Hv & Hk & Hty & _).
  pose proof (read_wf _ _ _ _ Hf) as Hwf.
  cbn [ReadFrame metaLoop]. unfold header_at.
  rewrite E, (read_decoder _ _ _ _ Hf), Hd, Hal1, Hal, Hat. simpl from_option. rewrite Ht.
  simpl (FrameHeaders =? FrameHeaders). cbn iota. cbn [deref outcome_bind].
  rewrite Ht in Hty. destruct f; try done. simpl in *. unfold checkValid. rewrite Hv.
  cbn [outcome_bind remainSize]. unfold maxHeaderListSize. rewrite Hmax1, Hmax.
  replace (u32 (2 * (if 2 ^ 31 =? 0 then Z.shiftl 16 20 else 2 ^ 31))) with 0 by reflexivity.
  destruct (len headerFragBuf >? 0) eqn:Hl; [by eexists|]. breflect. lia.
Qed.

End Read.

(** ** Sample connections *)

(** A header list in a HEADERS frame and a CONTINUATION frame, then a PING. *)
Definition sample_headers : bytes :=
  frame_bytes FrameHeaders 1 3
    (lit_block [mkField (str ":method") (str "GET"); mkField (str ":path") (str "/")]) ++
  frame_bytes FrameContinuation 4 3
    (lit_block [mkField (str "accept") (str "text/html")]).

Definition sample_data : bytes :=
  sample_headers ++ frame_bytes FramePing 0 0 [1; 2; 3; 4; 5; 6; 7; 8].

Definition sample_framer (data : bytes) : Framer :=
  NewFramer sample_writer (sample_reader data).

(** The same, assembling header lists of at most [max] octets. *)
Definition sample_meta_framer (max : Z) (data : bytes) : Framer :=
  let fr := sample_framer data in
  mkFramer (fr_r fr) (lastFrame fr) (errDetail fr) (lastHeaderStream fr) (maxReadSize fr) (fr_w fr)
    (wbuf fr) (AllowIllegalWrites fr) (AllowIllegalReads fr) (Some tt) max
    (frameCache fr) (fr_heap fr).

Definition outcome_get {A} (d : A) (o : outcome A) : A :=
  match o with Ret a => a | _ => d end.

Lemma sample_wf : wf_bytes sample_data.
Proof. unfold wf_bytes. apply (bool_decide_unpack _). vm_compute. exact I. Qed.

Lemma sample_framer_ok max : framer_ok (sample_meta_framer max sample_data).
Proof. split; [apply sample_wf|]. split; intros a Ha; done. Qed.

(** The framer after one read. *)
Definition after_read (fr : Framer) : Framer :=
  fst (outcome_get (fr, Err EOF) (ReadFrame 9 fr)).

Definition sample_framer0 : Framer := sample_framer sample_data.
Definition sample_framer1 : Framer := Eval vm_compute in after_read sample_framer0.
Definition sample_framer2 : Framer := Eval vm_compute in after_read sample_framer1.
Definition sample_framer3 : Framer := Eval vm_compute in after_read sample_framer2.

(** The three frames of [sample_data]. *)
Definition sample_frames : list Frame :=
  [ HeadersFrame (mkFrameHeader true FrameHeaders 1 20 3) zeroPriority
      (lit_block [mkField (str ":method") (str "GET"); mkField (str ":path") (str "/")]);
    ContinuationFrame (mkFrameHeader true FrameContinuation 4 17 3)
      (lit_block [mkField (str "accept") (str "text/html")]);
    PingFrame (mkFrameHeader true FramePing 0 8 0) [1; 2; 3; 4; 5; 6; 7; 8] ].

Definition sample_frame (i : nat) : Frame := default (UnknownFrame zeroHeader []) (sample_frames !! i).

Lemma ReadFrame_order_witness : legal None (map Header sample_frames).
Proof.
  apply (ReadFrame_order 9 sample_writer sample_data EOF _ sample_framer3); [exact sample_wf|].
  change (map Header sample_frames) with
    [Header (sample_frame 0); Header (sample_frame 1); Header (sample_frame 2)].
  refine (reads_cons 9 _ sample_framer1 _ 0 _ _ _ _ (reads_cons 9 _ sample_framer2 _ 1 _ _ _ _
    (reads_cons 9 _ sample_framer3 _ 2 _ _ _ _ (reads_nil 9 _)))); vm_eq.
Defined.

Lemma ReadFrame_returns_witness :
  exists fr' res, ReadFrame 100 (sample_meta_framer 0 sample_data) = Ret (fr', res) /\
    framer_ok fr' /\ same_config (sample_meta_framer 0 sample_data) fr'.
Proof.
  apply (ReadFrame_returns 100 (sample_meta_framer 0 sample_data));
    [apply sample_framer_ok | split; [done | reflexivity] | vm_compute; lia].
Defined.

Lemma ReadFrame_frame_witness : exists f, frame_read sample_framer0 sample_framer1 0 f.
Proof.
  apply (ReadFrame_frame 100);
    [split; [apply sample_wf|]; split; intros a Ha; done
    | split; [done | reflexivity] | vm_compute; lia | vm_eq].
Defined.

(** The header list the sample decodes to. *)
Definition sample_meta : MetaHeadersFrame :=
  mkMeta 0 [mkField (str ":method") (str "GET"); mkField (str ":path") (str "/");
            mkField (str "accept") (str "text/html")] false.

Definition sample_meta_framer1 : Framer :=
  Eval vm_compute in after_read (sample_meta_framer 0 sample_data).

Lemma ReadFrame_meta_witness : meta_ok (Z.shiftl 16 20) (Fields sample_meta).
Proof.
  apply (ReadFrame_meta 100 (sample_meta_framer 0 sample_data) sample_meta_framer1);
    [apply sample_framer_ok | split; [done | reflexivity] | vm_compute; lia | vm_eq].
Defined.

Definition sample_big_framer : Framer := sample_meta_framer (2 ^ 31) sample_data.
Definition sample_big_framer1 : Framer := Eval vm_compute in fst (readFrame1 sample_big_framer).

Lemma readMetaFrame_limit_wraps_witness :
  exists fr', ReadFrame 2 sample_big_framer = Ret (fr', Err (ConnectionError ErrCodeProtocol)).
Proof.
  apply (readMetaFrame_limit_wraps 0 sample_big_framer sample_big_framer1 0 tt);
    [apply sample_framer_ok | reflexivity | reflexivity | reflexivity | vm_eq | reflexivity].
Defined.
