(* ===== verification/H2Write.v ===== *)
(** * HTTP/2: frame writers

    [web/protocol/http2/write.go]: the writers the scheduler runs, the splitting
    of a header block into HEADERS and CONTINUATION frames, and the encoding of
    response headers.  The HPACK encoder is the operation of the class
    [HPACKEnc]; the context a writer runs in is the record [writeContext]. *)

From S2P Require Import Prelude Bytes H2Base H2Frame H2Sample H2Codec.

(** hpack.Encoder: [WriteField] appends the encoding of a field to the buffer of
    the encoder, of which the source ignores the error. *)
Class HPACKEnc := {
  Encoder : Type;
  WriteField : Encoder -> HeaderField -> Encoder * bytes
}.

(** ** Response headers *)

(** The part of protocol.ResponseHeader encodeHeaders reads; the trailer is its
    list of keys and values. *)
Record ResponseHeader := mkResponseHeader {
  rh_server : bytes;
  rh_contentEncoding : bytes;
  rh_trailer : list (bytes * bytes);
  rh_cookies : list (bytes * bytes);
  rh_h : list (bytes * bytes)
}.

(** bytesconv.LowercaseBytes. *)
Definition LowercaseBytes (b : bytes) : bytes :=
  map (fun c => if between 65 c 90 then c + 32 else c) b.

(** Trailer.GetBytes: the keys, separated by a comma and a space. *)
Fixpoint Trailer_GetBytes (t : list (bytes * bytes)) : bytes :=
  match t with
  | [] => []
  | [(k, _)] => k
  | (k, _) :: t => k ++ str ", " ++ Trailer_GetBytes t
  end.

(** The fields "Per 8.1.2.2 Connection-Specific Header Fields". *)
Definition connection_specific (k : bytes) : bool :=
  bytes_eqb k (str "connection") || bytes_eqb k (str "proxy-connection")
  || bytes_eqb k (str "transfer-encoding") || bytes_eqb k (str "upgrade")
  || bytes_eqb k (str "keep-alive").

Section Write.
Context `{HPACK, HTTPGuts, HPACKEnc}.

(** The loops of encodeHeaders: the fields handed to encKV, in order. *)
Fixpoint encodeKVs (isTrailer : bool) (kvs : list (bytes * bytes)) : list HeaderField :=
  match kvs with
  | [] => []
  | (key, value) :: rest =>
      let k := LowercaseBytes key in
      if negb (validWireHeaderFieldName IsTokenRune k) then encodeKVs isTrailer rest
      else if negb isTrailer && connection_specific k then encodeKVs isTrailer rest
      else mkField k value :: encodeKVs isTrailer rest
  end.

(** encodeHeaders; a nil header is dereferenced. *)
Definition encodeHeaders (h : option ResponseHeader) (isTrailer : bool) :
    outcome (list HeaderField) :=
  run h <- deref h;
  Ret (if isTrailer then encodeKVs true (rh_trailer h)
       else
         (if len (rh_server h) >? 0 then [mkField (str "server") (rh_server h)] else []) ++
         (if len (rh_contentEncoding h) >? 0
          then [mkField (str "content-encoding") (rh_contentEncoding h)] else []) ++
         (match rh_trailer h with
          | [] => []
          | t => [mkField (str "trailer") (Trailer_GetBytes t)]
          end) ++
         map (fun kv => mkField (str "set-cookie") (snd kv)) (rh_cookies h) ++
         encodeKVs false (rh_h h)).

(** encKV over a list of fields: the encoder and the contents of its buffer. *)
Fixpoint encKVs (enc : Encoder) (fs : list HeaderField) : Encoder * bytes :=
  match fs with
  | [] => (enc, [])
  | hf :: rest =>
      let '(enc, b) := WriteField enc hf in
      let '(enc, bs) := encKVs enc rest in
      (enc, b ++ bs)
  end.

(** ** Contexts *)

(** What a writer sees of the connection: the framer, the encoder, and the
    replies of Flush to the calls made so far. *)
Record writeContext := mkCtx {
  ctx_framer : Framer;
  ctx_enc : Encoder;
  ctx_flushes : nat;
  ctx_flush_reply : nat -> option error
}.

Definition ctx_set_framer (ctx : writeContext) (f : Framer) : writeContext :=
  mkCtx f (ctx_enc ctx) (ctx_flushes ctx) (ctx_flush_reply ctx).
Definition ctx_set_enc (ctx : writeContext) (e : Encoder) : writeContext :=
  mkCtx (ctx_framer ctx) e (ctx_flushes ctx) (ctx_flush_reply ctx).

Definition Flush (ctx : writeContext) : writeContext * option error :=
  (mkCtx (ctx_framer ctx) (ctx_enc ctx) (S (ctx_flushes ctx)) (ctx_flush_reply ctx),
   ctx_flush_reply ctx (ctx_flushes ctx)).

(** [ctx.Framer().WriteX(...)]. *)
Definition on_framer (ctx : writeContext) (w : Framer -> Framer * option error) :
    writeContext * option error :=
  let '(f, e) := w (ctx_framer ctx) in (ctx_set_framer ctx f, e).

(** ** Splitting a header block *)

Definition splitFrameSize : Z := 16384.

(** splitHeaderBlock with [fn] run for each fragment; every iteration removes at
    least one octet, so the length of the block is enough fuel. *)
Fixpoint split_loop (fuel : nat) (ctx : writeContext) (headerBlock : bytes)
    (fn : writeContext -> bytes -> bool -> bool -> writeContext * option error)
    (first : bool) : outcome (writeContext * option error) :=
  match fuel with
  | O => OutOfFuel
  | S fuel =>
      if len headerBlock >? 0 then
        let frag := if len headerBlock >? splitFrameSize
                    then ztake splitFrameSize headerBlock else headerBlock in
        let headerBlock := zdrop (len frag) headerBlock in
        let '(ctx, err) := fn ctx frag first (len headerBlock =? 0) in
        match err with
        | Some e => Ret (ctx, Some e)
        | None => split_loop fuel ctx headerBlock fn false
        end
      else Ret (ctx, None)
  end.

Definition splitHeaderBlock (ctx : writeContext) (headerBlock : bytes)
    (fn : writeContext -> bytes -> bool -> bool -> writeContext * option error) :
    outcome (writeContext * option error) :=
  split_loop (S (length headerBlock)) ctx headerBlock fn true.

(** ** The writers *)

Record writeResHeaders := mkWriteResHeaders {
  rs_streamID : Z;
  rs_httpResCode : Z;
  rs_h : option ResponseHeader;
  rs_isTrailer : bool;
  rs_endStream : bool;
  rs_date : bytes;
  rs_contentType : bytes;
  rs_contentLength : bytes
}.

(** The url of a push promise by its components. *)
Record writePushPromise := mkWritePushPromise {
  wp_streamID : Z;
  wp_method : bytes;
  wp_scheme : bytes;
  wp_host : bytes;
  wp_requestURI : bytes;
  wp_promisedID : Z
}.

Inductive writeFramer : Type :=
| flushFrameWriter
| writeSettings (s : list Setting)
| writeGoAway (maxStreamID code : Z)
| writeData (streamID : Z) (p : bytes) (endStream : bool)
| handlerPanicRST (StreamID : Z)
| writeStreamError (StreamID Code : Z)
| writePingAck (data : bytes)
| writeSettingsAck
| writeResHeaders_ (w : writeResHeaders)
| writePushPromise_ (w : writePushPromise)
| write100ContinueHeadersFrame (streamID : Z)
| writeWindowUpdate (streamID n : Z).

(** writeEndsStream; a nil writer panics. *)
Definition writeEndsStream (w : option writeFramer) : outcome bool :=
  match w with
  | Some (writeData _ _ endStream) => Ret endStream
  | Some (writeResHeaders_ w) => Ret (rs_endStream w)
  | Some _ => Ret false
  | None => Panic
  end.

(** The staysWithinBuffer methods. *)
Definition staysWithinBuffer (w : writeFramer) (max : Z) : bool :=
  match w with
  | flushFrameWriter | writeGoAway _ _ | writeResHeaders_ _ | writePushPromise_ _ => false
  | writeSettings s => frameHeaderLen + 6 * len s <=? max
  | writeData _ p _ => frameHeaderLen + len p <=? max
  | handlerPanicRST _ | writeStreamError _ _ | writeWindowUpdate _ _ =>
      frameHeaderLen + 4 <=? max
  | writePingAck data => frameHeaderLen + len data <=? max
  | writeSettingsAck => frameHeaderLen <=? max
  | write100ContinueHeadersFrame _ => 9 + 2 * (len (str ":status") + len (str "100")) <=? max
  end.

(** writeResHeaders.writeHeaderBlock. *)
Definition res_writeHeaderBlock (w : writeResHeaders) (ctx : writeContext) (frag : bytes)
    (firstFrag lastFrag : bool) : writeContext * option error :=
  if firstFrag
  then on_framer ctx (fun f => WriteHeaders f
         (mkHeadersFrameParam (rs_streamID w) frag (rs_endStream w) lastFrag 0 zeroPriority))
  else on_framer ctx (fun f => WriteContinuation f (rs_streamID w) lastFrag frag).

(** writePushPromise.writeHeaderBlock. *)
Definition push_writeHeaderBlock (w : writePushPromise) (ctx : writeContext) (frag : bytes)
    (firstFrag lastFrag : bool) : writeContext * option error :=
  if firstFrag
  then on_framer ctx (fun f => WritePushPromise f
         (mkPushPromiseParam (wp_streamID w) (wp_promisedID w) frag lastFrag 0))
  else on_framer ctx (fun f => WriteContinuation f (wp_streamID w) lastFrag frag).

(** The fields writeResHeaders.writeFrame encodes. *)
Definition res_fields (w : writeResHeaders) : outcome (list HeaderField) :=
  run hs <- encodeHeaders (rs_h w) (rs_isTrailer w);
  Ret ((if negb (rs_httpResCode w =? 0)
        then [mkField (str ":status") (httpCodeString (rs_httpResCode w))] else []) ++
       hs ++
       (if bytes_eqb (rs_contentType w) [] then []
        else [mkField (str "content-type") (rs_contentType w)]) ++
       (if bytes_eqb (rs_contentLength w) [] then []
        else [mkField (str "content-length") (rs_contentLength w)]) ++
       (if bytes_eqb (rs_date w) [] then [] else [mkField (str "date") (rs_date w)])).

Definition res_writeFrame (w : writeResHeaders) (ctx : writeContext) :
    outcome (writeContext * option error) :=
  run fs <- res_fields w;
  let '(enc, headerBlock) := encKVs (ctx_enc ctx) fs in
  let ctx := ctx_set_enc ctx enc in
  if (len headerBlock =? 0) && negb (rs_isTrailer w) then Panic
  else splitHeaderBlock ctx headerBlock (res_writeHeaderBlock w).

Definition push_writeFrame (w : writePushPromise) (ctx : writeContext) :
    outcome (writeContext * option error) :=
  let '(enc, headerBlock) := encKVs (ctx_enc ctx)
    [mkField (str ":method") (wp_method w); mkField (str ":scheme") (wp_scheme w);
     mkField (str ":authority") (wp_host w); mkField (str ":path") (wp_requestURI w)] in
  let ctx := ctx_set_enc ctx enc in
  if len headerBlock =? 0 then Panic
  else splitHeaderBlock ctx headerBlock (push_writeHeaderBlock w).

(** The writeFrame methods. *)
Definition writeFrame (w : writeFramer) (ctx : writeContext) :
    outcome (writeContext * option error) :=
  match w with
  | flushFrameWriter => Ret (Flush ctx)
  | writeSettings s => Ret (on_framer ctx (fun f => WriteSettings f s))
  | writeGoAway maxStreamID code =>
      let '(ctx, err) := on_framer ctx (fun f => WriteGoAway f maxStreamID code []) in
      Ret (fst (Flush ctx), err)
  | writeData streamID p endStream =>
      Ret (on_framer ctx (fun f => WriteData f streamID endStream p))
  | handlerPanicRST id => Ret (on_framer ctx (fun f => WriteRSTStream f id ErrCodeInternal))
  | writeStreamError id code => Ret (on_framer ctx (fun f => WriteRSTStream f id code))
  | writePingAck data => Ret (on_framer ctx (fun f => WritePing f true data))
  | writeSettingsAck => Ret (on_framer ctx WriteSettingsAck)
  | writeResHeaders_ w => res_writeFrame w ctx
  | writePushPromise_ w => push_writeFrame w ctx
  | write100ContinueHeadersFrame id =>
      let '(enc, block) := encKVs (ctx_enc ctx) [mkField (str ":status") (str "100")] in
      Ret (on_framer (ctx_set_enc ctx enc) (fun f => WriteHeaders f
             (mkHeadersFrameParam id block false true 0 zeroPriority)))
  | writeWindowUpdate id n => Ret (on_framer ctx (fun f => WriteWindowUpdate f id n))
  end.

(** ** What a writer puts on the connection *)

(** The calls of the underlying writer between two contexts. *)
Definition sent (ctx ctx' : writeContext) (out : list bytes) : Prop :=
  w_out (fr_w (ctx_framer ctx')) = w_out (fr_w (ctx_framer ctx)) ++ out.

Lemma run_op_out f op f' err :
  run_op f op = (f', err) ->
  exists out, w_out (fr_w f') = w_out (fr_w f) ++ out /\
    (out = [] \/ out = [op_bytes op]) /\ (err = None -> out = [op_bytes op]).
Proof.
  intros E. assert (Hno : forall e, fr_w f' = fr_w f -> err = Some e ->
    exists out, w_out (fr_w f') = w_out (fr_w f) ++ out /\
      (out = [] \/ out = [op_bytes op]) /\ (err = None -> out = [op_bytes op])).
  { intros e -> ->. exists []. rewrite app_nil_r. naive_solver. }
  destruct (op_error (AllowIllegalWrites f) op) as [e|] eqn:He.
  { destruct (run_op_refused f op e He) as (f2 & E2 & Hw). rewrite E2 in E.
    injection E as <- <-. by apply (Hno e). }
  rewrite run_op_accepted in E by done. unfold op_bytes in *.
  destruct (op_wire op) as [[[t fl] sid] payload].
  destruct (len payload <? 2 ^ 24) eqn:El; breflect.
  - destruct (WriteRawFrame_wire f t fl sid payload El) as (f2 & E2 & Hw). rewrite E2 in E.
    injection E as <- <-.
    eexists. split; [exact Hw|]. auto.
  - destruct (WriteRawFrame_too_large f t fl sid payload El) as (f2 & E2 & Hw). rewrite E2 in E.
    injection E as <- <-.
    by apply (Hno ErrFrameTooLarge).
Qed.

Lemma on_framer_op ctx op ctx' err :
  on_framer ctx (fun f => run_op f op) = (ctx', err) ->
  ctx_flushes ctx' = ctx_flushes ctx /\ ctx_enc ctx' = ctx_enc ctx /\
  exists out, sent ctx ctx' out /\ (out = [] \/ out = [op_bytes op]) /\
    (err = None -> out = [op_bytes op]).
Proof.
  unfold on_framer, sent. destruct (run_op (ctx_framer ctx) op) as [f e] eqn:E.
  intros [= <- <-]. split; [done|]. split; [done|]. by apply run_op_out.
Qed.

Lemma len_op_bytes op : len (op_bytes op) = 9 + len (snd (op_wire op)).
Proof. unfold op_bytes. destruct (op_wire op) as [[[t fl] sid] payload]. apply len_frame_bytes. Qed.

(** The operation a writer other than the header block ones performs. *)
Definition writer_op (w : writeFramer) (enc : Encoder) : option WriteOp :=
  match w with
  | writeSettings s => Some (OpSettings s)
  | writeData sid p es => Some (OpData sid es p None)
  | handlerPanicRST sid => Some (OpRSTStream sid ErrCodeInternal)
  | writeStreamError sid code => Some (OpRSTStream sid code)
  | writePingAck data => Some (OpPing true data)
  | writeSettingsAck => Some OpSettingsAck
  | write100ContinueHeadersFrame sid =>
      Some (OpHeaders (mkHeadersFrameParam sid
              (snd (encKVs enc [mkField (str ":status") (str "100")])) false true 0 zeroPriority))
  | writeWindowUpdate sid n => Some (OpWindowUpdate sid n)
  | _ => None
  end.

Lemma writeFrame_op w ctx op :
  writer_op w (ctx_enc ctx) = Some op ->
  exists ctx' err, writeFrame w ctx = Ret (ctx', err) /\ ctx_flushes ctx' = ctx_flushes ctx /\
    exists out, sent ctx ctx' out /\ (out = [] \/ out = [op_bytes op]).
Proof.
  intros Hop.
  assert (Hgen : forall ctx0, ctx_framer ctx0 = ctx_framer ctx -> ctx_flushes ctx0 = ctx_flushes ctx ->
    exists ctx' err, Ret (on_framer ctx0 (fun f => run_op f op)) = Ret (ctx', err) /\
      ctx_flushes ctx' = ctx_flushes ctx /\
      exists out, sent ctx ctx' out /\ (out = [] \/ out = [op_bytes op])).
  { intros ctx0 Hf Hn. destruct (on_framer ctx0 _) as [ctx' err] eqn:E. exists ctx', err.
    apply on_framer_op in E as (Hfl & _ & out & Hs & Ho & _). split; [done|].
    split; [congruence|]. exists out. split; [|done]. unfold sent in *. by rewrite <- Hf. }
  destruct w; simplify_eq; cbn [writeFrame writer_op] in *; simplify_eq; try (by apply (Hgen ctx)).
  destruct (encKVs (ctx_enc ctx) _) as [enc block]. by apply (Hgen (ctx_set_enc ctx enc)).
Qed.

Lemma len_writer_op w enc op max :
  writer_op w enc = Some op -> staysWithinBuffer w max = true ->
  len (snd (encKVs enc [mkField (str ":status") (str "100")])) <= 20 ->
  len (op_bytes op) <= max.
Proof.
  intros Hop Hst Henc. rewrite len_op_bytes.
  destruct w; simplify_eq; cbn [writer_op staysWithinBuffer] in *; simplify_eq;
    unfold frameHeaderLen in *; cbn [op_wire snd]; rewrite ?len_settings_bytes; breflect.
  all: try (autorewrite with go; simpl; lia).
  change (len (str ":status") + len (str "100")) with 10 in Hst.
  simpl in *. unfold len in *. rewrite length_app. simpl. lia.
Qed.

(** A writer that says it stays within a buffer of [max] octets returns,
    calls the underlying writer with at most [max] octets in all and does not
    flush.  For the 100-continue writer this rests on the encoder producing at
    most 20 octets for ":status: 100", twice its literal length. *)
Theorem staysWithinBuffer_sound w ctx max :
  staysWithinBuffer w max = true ->
  len (snd (encKVs (ctx_enc ctx) [mkField (str ":status") (str "100")])) <= 20 ->
  exists ctx' err out, writeFrame w ctx = Ret (ctx', err) /\
    sent ctx ctx' out /\ len (concat out) <= max /\ ctx_flushes ctx' = ctx_flushes ctx.
Proof.
  intros Hst Henc. destruct (writer_op w (ctx_enc ctx)) as [op|] eqn:Hop; [|by destruct w].
  pose proof (len_writer_op _ _ _ _ Hop Hst Henc) as Hlen.
  destruct (writeFrame_op _ _ _ Hop) as (ctx' & err & E & Hf & out & Hs & Hout).
  exists ctx', err, out. split; [done|]. split; [done|]. split; [|done].
  destruct Hout as [->| ->]; simpl; rewrite ?app_nil_r; [|done].
  rewrite len_op_bytes in Hlen. glen.
Qed.

(** ** Header blocks on the wire *)

(** The frames for the fragments of a block: the first is made by [first_op],
    the others are CONTINUATION frames, and the last one ends the headers. *)
Fixpoint cont_ops (sid : Z) (frags : list bytes) : list WriteOp :=
  match frags with
  | [] => []
  | frag :: rest => OpContinuation sid (bool_decide (rest = [])) frag :: cont_ops sid rest
  end.

Definition block_ops (first_op : bytes -> bool -> WriteOp) (sid : Z) (frags : list bytes) :
    list WriteOp :=
  match frags with
  | [] => []
  | frag :: rest => first_op frag (bool_decide (rest = [])) :: cont_ops sid rest
  end.

(** A fragment function that writes those frames. *)
Definition writes_block (first_op : bytes -> bool -> WriteOp) (sid : Z)
    (fn : writeContext -> bytes -> bool -> bool -> writeContext * option error) : Prop :=
  forall ctx frag first last,
    fn ctx frag first last =
    on_framer ctx (fun f => run_op f (if first then first_op frag last
                                      else OpContinuation sid last frag)).

Lemma res_writes_block w :
  writes_block (fun frag last => OpHeaders
    (mkHeadersFrameParam (rs_streamID w) frag (rs_endStream w) last 0 zeroPriority))
    (rs_streamID w) (res_writeHeaderBlock w).
Proof. by intros ctx frag [] last. Qed.

Lemma push_writes_block w :
  writes_block (fun frag last => OpPushPromise
    (mkPushPromiseParam (wp_streamID w) (wp_promisedID w) frag last 0))
    (wp_streamID w) (push_writeHeaderBlock w).
Proof. by intros ctx frag [] last. Qed.

Lemma split_loop_spec first_op sid fn fuel ctx block (first : bool) :
  writes_block first_op sid fn -> (length block < fuel)%nat ->
  exists ctx' err, split_loop fuel ctx block fn first = Ret (ctx', err) /\
    (err = None -> exists frags, concat frags = block /\
       Forall (fun frag => 0 < len frag <= splitFrameSize) frags /\
       sent ctx ctx' (map op_bytes (if first then block_ops first_op sid frags
                                    else cont_ops sid frags))).
Proof.
  intros Hfn. revert ctx block first. induction fuel as [|fuel IH]; intros ctx block first Hl; [lia|].
  cbn [split_loop]. destruct (len block >? 0) eqn:E0; breflect.
  2: { eexists _, _. split; [done|]. intros _. exists []. split.
       { symmetry. apply len_0_inv. pose proof (len_nonneg block). lia. }
       split; [constructor|]. unfold sent. by destruct first; rewrite app_nil_r. }
  set (frag := if len block >? splitFrameSize then _ else _).
  assert (Hfrag : 0 < len frag <= splitFrameSize /\ frag ++ zdrop (len frag) block = block).
  { subst frag. unfold splitFrameSize in *. destruct (len block >? 16384) eqn:E1; breflect.
    - rewrite len_ztake by lia. split; [lia|]. apply ztake_zdrop.
    - split; [lia|]. replace (zdrop (len block) block) with (@nil Z); [apply app_nil_r|].
      symmetry. apply len_0_inv. rewrite len_zdrop; lia. }
  destruct Hfrag as [Hsz Happ]. clearbody frag.
  set (rest := zdrop (len frag) block) in *. clearbody rest.
  destruct (fn ctx frag first (len rest =? 0)) as [ctx1 err1] eqn:Ef.
  rewrite Hfn in Ef. apply on_framer_op in Ef as (_ & _ & out & Hs & _ & Ho).
  destruct err1; [by eexists _, _|].
  rewrite Ho in Hs by done. clear Ho.
  destruct (IH ctx1 rest false) as (ctx2 & err2 & E2 & Hspec).
  { rewrite <- Happ, length_app in Hl. unfold len in Hsz. lia. }
  exists ctx2, err2. split; [done|]. intros ->.
  destruct (Hspec eq_refl) as (frags & Hc & Hf & Hs2).
  assert (Hlast : (len rest =? 0) = bool_decide (frags = [])).
  { destruct frags as [|b frags]; simpl in Hc; subst rest; [done|].
    apply Forall_cons in Hf as [Hb _]. rewrite bool_decide_eq_false_2 by done.
    apply Z.eqb_neq. rewrite len_app. pose proof (len_nonneg (concat frags)). lia. }
  exists (frag :: frags). split; [by simpl; rewrite Hc|]. split; [by constructor|].
  unfold sent in *. rewrite Hs2, Hs, Hlast, <- app_assoc. by destruct first.
Qed.

(** Writing a header block always returns, and when no write fails the
    connection has received one frame per fragment, of at most 16384 octets and
    never empty: first the HEADERS frame, with END_STREAM as asked, then
    CONTINUATION frames of the same stream, END_HEADERS exactly on the last,
    and the fragments make up the block. *)
Theorem splitHeaderBlock_frames w ctx block :
  exists ctx' err, splitHeaderBlock ctx block (res_writeHeaderBlock w) = Ret (ctx', err) /\
    (err = None -> exists frags, concat frags = block /\
       Forall (fun frag => 0 < len frag <= splitFrameSize) frags /\
       sent ctx ctx' (map op_bytes (block_ops
         (fun frag last => OpHeaders
            (mkHeadersFrameParam (rs_streamID w) frag (rs_endStream w) last 0 zeroPriority))
         (rs_streamID w) frags))).
Proof.
  apply (split_loop_spec _ _ _ _ ctx block true (res_writes_block w)). lia.
Qed.

(** ** The fields of a response *)

Lemma encodeKVs_valid tr kvs :
  Forall (fun hf => validWireHeaderFieldName IsTokenRune (Name hf) = true /\
                    (tr = false -> connection_specific (Name hf) = false)) (encodeKVs tr kvs).
Proof.
  induction kvs as [|[k v] kvs IH]; simpl; [constructor|].
  destruct (validWireHeaderFieldName _ _) eqn:Hv; simpl; [|done].
  destruct tr; simpl; [by constructor|].
  destruct (connection_specific _) eqn:Hc; simpl; [done|]. by constructor.
Qed.

(** The names encodeHeaders gives the fields it does not take from the list. *)
Definition fixed_names : list bytes :=
  [str "server"; str "content-encoding"; str "trailer"; str "set-cookie"].

(** A response never carries a connection-specific field (RFC 7540, section
    8.1.2.2) nor a field whose name is not a lower-case token, except that the
    four names the code spells out are not checked; only a nil header panics. *)
Theorem encodeHeaders_fields h tr :
  match h with
  | None => encodeHeaders h tr = Panic
  | Some _ => exists fs, encodeHeaders h tr = Ret fs /\
      Forall (fun hf => (validWireHeaderFieldName IsTokenRune (Name hf) = true /\
                         (tr = false -> connection_specific (Name hf) = false)) \/
                        (tr = false /\ Name hf ∈ fixed_names)) fs
  end.
Proof.
  destruct h as [h|]; [|done]. cbn [encodeHeaders deref outcome_bind].
  eexists. split; [done|]. destruct tr.
  { eapply Forall_impl; [apply encodeKVs_valid|]. simpl. tauto. }
  rewrite !Forall_app. unfold fixed_names. split_and!.
  - case_if; constructor; [right; simpl; split; [done|set_solver] | constructor].
  - case_if; constructor; [right; simpl; split; [done|set_solver] | constructor].
  - destruct (rh_trailer h); constructor; [right; simpl; split; [done|set_solver] | constructor].
  - rewrite Forall_map. apply Forall_true. intros kv. right. simpl. split; [done|set_solver].
  - eapply Forall_impl; [apply encodeKVs_valid|]. simpl. tauto.
Qed.
End Write.

(** ** A sample context *)

(** An encoder for the literals of [lit_block]. *)
#[global] Instance lit_enc : HPACKEnc := {
  Encoder := unit;
  WriteField e hf := (e, lit_block [hf])
}.

Definition sample_ctx : writeContext :=
  mkCtx (NewFramer sample_writer (sample_reader [])) tt 0 (fun _ => None).

Lemma staysWithinBuffer_sound_witness :
  exists ctx' err out, writeFrame (write100ContinueHeadersFrame 3) sample_ctx = Ret (ctx', err) /\
    sent sample_ctx ctx' out /\ len (concat out) <= 29 /\
    ctx_flushes ctx' = ctx_flushes sample_ctx.
Proof.
  apply (staysWithinBuffer_sound (write100ContinueHeadersFrame 3) sample_ctx 29);
    [reflexivity | vm_compute; congruence].
Defined.
