(* ===== verification/H2Sched.v ===== *)
(** * HTTP/2: flow control and the write scheduler

    [web/protocol/http2/flow.go], [writesched.go] and [writesched_random.go].
    Flow windows and write queues are objects behind pointers, so both are kept
    in stores: the window of the connection is shared by the windows of its
    streams, and a queue that empties goes back to a pool and is used again for
    another stream. *)

From S2P Require Import Prelude Bytes H2Base H2Frame H2Sample H2Write.

(** ** flow.go *)

Record flow := mkFlow {
  flow_n : Z;                  (* int32 *)
  flow_conn : option nat       (* the shared flow of the connection, nil on it *)
}.

(** The flow objects of a connection, by address. *)
Abbreviation flows := (list flow).

Definition set_n (v : Z) (f : flow) : flow := mkFlow v (flow_conn f).

Definition setConnFlow (fl : flows) (a cf : nat) : flows :=
  alter (fun f => mkFlow (flow_n f) (Some cf)) a fl.

Definition flow_available (fl : flows) (a : nat) : outcome Z :=
  run f <- deref (fl !! a);
  match flow_conn f with
  | None => Ret (flow_n f)
  | Some c => run cf <- deref (fl !! c);
              Ret (if flow_n cf <? flow_n f then flow_n cf else flow_n f)
  end.

Definition flow_take (fl : flows) (a : nat) (k : Z) : outcome flows :=
  run av <- flow_available fl a;
  if k >? av then Panic
  else
    run f <- deref (fl !! a);
    let fl := alter (set_n (i32 (flow_n f - k))) a fl in
    match flow_conn f with
    | None => Ret fl
    | Some c => run cf <- deref (fl !! c);
                Ret (alter (set_n (i32 (flow_n cf - k))) c fl)
    end.

Definition flow_add (fl : flows) (a : nat) (k : Z) : outcome (flows * bool) :=
  run f <- deref (fl !! a);
  let sum := i32 (flow_n f + k) in
  if Bool.eqb (sum >? k) (flow_n f >? 0)
  then Ret (alter (set_n sum) a fl, true)
  else Ret (fl, false).

(** The windows of a connection and its streams. *)
Definition flows_ok (fl : flows) : Prop :=
  (forall a f, fl !! a = Some f -> is_i32 (flow_n f)) /\
  (forall a f c, fl !! a = Some f -> flow_conn f = Some c ->
     c <> a /\ exists cf, fl !! c = Some cf /\ flow_conn cf = None).

Lemma flows_ok_set fl a v : flows_ok fl -> is_i32 v -> flows_ok (alter (set_n v) a fl).
Proof.
  intros [Hr Hc] Hv.
  assert (Hinv : forall b g, alter (set_n v) a fl !! b = Some g ->
    exists g0, fl !! b = Some g0 /\ flow_conn g = flow_conn g0 /\ (b = a -> flow_n g = v) /\ (b <> a -> g = g0)).
  { intros b g. destruct (decide (b = a)) as [->|Hne].
    - rewrite list_lookup_alter_eq. destruct (fl !! a) as [g0|] eqn:E; [|done].
      intros [= <-]. exists g0. done.
    - rewrite list_lookup_alter_ne by done. intros Hg. exists g. done. }
  split.
  - intros b g Hg. destruct (Hinv b g Hg) as (g0 & H0 & _ & H1 & H2).
    destruct (decide (b = a)) as [->|]; [by rewrite H1|]. rewrite H2 by done. eauto.
  - intros b g c Hg Hcg. destruct (Hinv b g Hg) as (g0 & H0 & E & _).
    rewrite E in Hcg. destruct (Hc b g0 c H0 Hcg) as (Hne & cf & Hcf & Hn). split; [done|].
    destruct (decide (c = a)) as [->|].
    + exists (set_n v cf). by rewrite list_lookup_alter_eq, Hcf.
    + exists cf. by rewrite list_lookup_alter_ne.
Qed.

Lemma flow_add_sum fl a f k :
  fl !! a = Some f -> is_i32 (flow_n f) -> is_i32 k ->
  flow_add fl a k = if bool_decide (- 2 ^ 31 <= flow_n f + k < 2 ^ 31)
               then Ret (alter (set_n (flow_n f + k)) a fl, true) else Ret (fl, false).
Proof.
  intros Hf Hn Hk. unfold flow_add. rewrite Hf. cbn [deref outcome_bind].
  case_bool_decide as Hb.
  - rewrite i32_id by exact Hb. destruct (flow_n f + k >? k) eqn:E1, (flow_n f >? 0) eqn:E2;
      cbn [Bool.eqb]; breflect; try done; lia.
  - destruct (i32 (flow_n f + k) >? k) eqn:E1, (flow_n f >? 0) eqn:E2; cbn [Bool.eqb]; breflect; try done;
      exfalso; width.
Qed.

(** Add succeeds exactly when the sum is a 32-bit integer, and then the
    window holds the sum; otherwise the window is left as it was. *)
Theorem flow_add_exact fl a f k :
  fl !! a = Some f -> is_i32 (flow_n f) -> is_i32 k ->
  flow_add fl a k = if bool_decide (- 2 ^ 31 <= flow_n f + k < 2 ^ 31)
               then Ret (alter (set_n (flow_n f + k)) a fl, true) else Ret (fl, false).
Proof. apply flow_add_sum. Qed.

Lemma flow_add_exact_witness :
  flow_add [mkFlow 65535 None] 0 (2 ^ 31 - 1) = Ret ([mkFlow 65535 None], false).
Proof.
  rewrite (flow_add_exact _ _ (mkFlow 65535 None)); [reflexivity | done | split; done | split; done].
Defined.

(** A stream may take up to what it and its connection have left: both
    windows then shrink by exactly that much, no other window changes, and
    neither becomes negative; taking more panics. *)
Lemma flow_take_both fl a f c cf k :
  flows_ok fl -> fl !! a = Some f -> flow_conn f = Some c -> fl !! c = Some cf -> 0 <= k ->
  flow_take fl a k =
    if bool_decide (k <= flow_n f /\ k <= flow_n cf)
    then Ret (alter (set_n (flow_n cf - k)) c (alter (set_n (flow_n f - k)) a fl)) else Panic.
Proof.
  intros [Hr Hc] Hf Hcf Hc1 Hk. pose proof (Hr a f Hf). pose proof (Hr c cf Hc1).
  destruct (Hc a f c Hf Hcf) as [Hne _]. unfold flow_take, flow_available.
  rewrite Hf. cbn [deref outcome_bind]. rewrite Hcf, Hc1. cbn [deref outcome_bind].
  destruct (k >? (if flow_n cf <? flow_n f then flow_n cf else flow_n f)) eqn:E.
  - rewrite bool_decide_eq_false_2; [done|]. case_if; breflect; lia.
  - rewrite list_lookup_alter_ne by done. rewrite Hc1. cbn [deref outcome_bind].
    rewrite bool_decide_eq_true_2 by (case_if; breflect; lia).
    rewrite !i32_id; [done| |]; case_if; breflect; width.
Qed.

(** ** writesched.go *)

(** The immutable part of a stream object a request points to. *)
Record wstream := mkWStream { ws_id : Z; ws_flow : nat }.

Record FrameWriteRequest := mkWR {
  write : option writeFramer;     (* nil once replied to *)
  stream : option wstream;        (* nil for non-stream frames *)
  done : option nat               (* a channel *)
}.

(** FrameWriteRequest{}. *)
Definition emptyWR : FrameWriteRequest := mkWR None None None.

Definition WR_StreamID (wr : FrameWriteRequest) : Z :=
  match stream wr with
  | None => match write wr with
            | Some (writeStreamError id _) => id
            | _ => 0
            end
  | Some st => ws_id st
  end.

Definition isControl (wr : FrameWriteRequest) : bool := negb (bool_decide (is_Some (stream wr))).

Definition DataSize (wr : FrameWriteRequest) : Z :=
  match write wr with
  | Some (writeData _ p _) => len p
  | _ => 0
  end.

(** Consume; the new flows, consumed, rest and the number of results.
    [maxFrameSize] is [wr.stream.sc.maxFrameSize]. *)
Definition Consume (fl : flows) (maxFrameSize : Z) (wr : FrameWriteRequest) (n : Z) :
    outcome (flows * FrameWriteRequest * FrameWriteRequest * Z) :=
  match write wr with
  | Some (writeData sid p endStream) =>
      if len p =? 0 then Ret (fl, wr, emptyWR, 1)
      else
        run st <- deref (stream wr);
        run av <- flow_available fl (ws_flow st);
        let allowed := if n <? av then n else av in
        let allowed := if maxFrameSize <? allowed then maxFrameSize else allowed in
        if allowed <=? 0 then Ret (fl, emptyWR, emptyWR, 0)
        else if len p >? allowed then
          run fl <- flow_take fl (ws_flow st) allowed;
          Ret (fl,
               mkWR (Some (writeData sid (ztake allowed p) false)) (stream wr) None,
               mkWR (Some (writeData sid (zdrop allowed p) endStream)) (stream wr) (done wr),
               2)
        else
          run fl <- flow_take fl (ws_flow st) (i32 (len p));
          Ret (fl, wr, emptyWR, 1)
  | _ => Ret (fl, wr, emptyWR, 1)
  end.

(** A channel with room for one message: the message it holds.  A full channel
    would block, and replyToWriter panics instead. *)
Definition replyToWriter (chans : gmap nat (option (option error))) (wr : FrameWriteRequest)
    (err : option error) : outcome (gmap nat (option (option error)) * FrameWriteRequest) :=
  match done wr with
  | None => Ret (chans, wr)
  | Some c =>
      match chans !! c with
      | Some None => Ret (<[c := Some err]> chans, mkWR None (stream wr) (done wr))
      | _ => Panic
      end
  end.

(** *** Queues *)

Definition queue_empty (q : list FrameWriteRequest) : bool := len q =? 0.

Definition queue_push (q : list FrameWriteRequest) (wr : FrameWriteRequest) :
    list FrameWriteRequest := q ++ [wr].

Definition queue_shift (q : list FrameWriteRequest) :
    outcome (list FrameWriteRequest * FrameWriteRequest) :=
  match q with
  | [] => Panic
  | wr :: q => Ret (q, wr)
  end.

(** writeQueue.consume: [None] is [(_, false)]. *)
Definition queue_consume (fl : flows) (maxFrameSize : Z) (q : list FrameWriteRequest) (n : Z) :
    outcome (flows * list FrameWriteRequest * option FrameWriteRequest) :=
  match q with
  | [] => Ret (fl, q, None)
  | wr :: q' =>
      run (fl, consumed, rest, numresult) <- Consume fl maxFrameSize wr n;
      if numresult =? 0 then Ret (fl, q, None)
      else if numresult =? 1 then
        run (q, _) <- queue_shift q;
        Ret (fl, q, Some consumed)
      else if numresult =? 2 then Ret (fl, rest :: q', Some consumed)
      else Ret (fl, q, Some consumed)
  end.

(** ** writesched_random.go *)

(** The scheduler with the queue objects it has allocated; [sq] and [queuePool]
    hold their addresses. *)
Record randomWriteScheduler := mkSched {
  zero : list FrameWriteRequest;
  sq : gmap Z nat;
  queuePool : list nat;
  queues : list (list FrameWriteRequest)
}.

Definition NewRandomWriteScheduler : randomWriteScheduler := mkSched [] ∅ [] [].

Definition OpenStream (ws : randomWriteScheduler) (streamID : Z) : randomWriteScheduler := ws.

Definition AdjustStream (ws : randomWriteScheduler) (streamID : Z) (p : PriorityParam) :
    randomWriteScheduler := ws.

(** writeQueuePool.put: the queue is emptied and becomes available. *)
Definition pool_put (ws : randomWriteScheduler) (q : nat) : randomWriteScheduler :=
  mkSched (zero ws) (sq ws) (queuePool ws ++ [q]) (<[q := []]> (queues ws)).

(** writeQueuePool.get. *)
Definition pool_get (ws : randomWriteScheduler) : randomWriteScheduler * nat :=
  match last (queuePool ws) with
  | None => (mkSched (zero ws) (sq ws) (queuePool ws) (queues ws ++ [[]]), length (queues ws))
  | Some q => (mkSched (zero ws) (sq ws) (removelast (queuePool ws)) (queues ws), q)
  end.

Definition set_sq (ws : randomWriteScheduler) (m : gmap Z nat) : randomWriteScheduler :=
  mkSched (zero ws) m (queuePool ws) (queues ws).
Definition set_queue (ws : randomWriteScheduler) (q : nat) (l : list FrameWriteRequest) :
    randomWriteScheduler :=
  mkSched (zero ws) (sq ws) (queuePool ws) (<[q := l]> (queues ws)).

Definition CloseStream (ws : randomWriteScheduler) (streamID : Z) : randomWriteScheduler :=
  match sq ws !! streamID with
  | None => ws
  | Some q => pool_put (set_sq ws (delete streamID (sq ws))) q
  end.

Definition Push (ws : randomWriteScheduler) (wr : FrameWriteRequest) :
    outcome randomWriteScheduler :=
  let id := WR_StreamID wr in
  if id =? 0 then Ret (mkSched (queue_push (zero ws) wr) (sq ws) (queuePool ws) (queues ws))
  else
    let '(ws, q) :=
      match sq ws !! id with
      | Some q => (ws, q)
      | None => let '(ws, q) := pool_get ws in (set_sq ws (<[id := q]> (sq ws)), q)
      end in
    run l <- deref (queues ws !! q);
    Ret (set_queue ws q (queue_push l wr)).

(** The loop of Pop over the map, in the order the runtime picks. *)
Fixpoint pop_loop (fl : flows) (maxFrameSize : Z) (ws : randomWriteScheduler) (order : list Z) :
    outcome (flows * randomWriteScheduler * option FrameWriteRequest) :=
  match order with
  | [] => Ret (fl, ws, None)
  | streamID :: order =>
      run q <- deref (sq ws !! streamID);
      run l <- deref (queues ws !! q);
      run (fl, l, res) <- queue_consume fl maxFrameSize l (2 ^ 31 - 1);
      let ws := set_queue ws q l in
      match res with
      | Some wr =>
          let ws := if queue_empty l
                    then pool_put (set_sq ws (delete streamID (sq ws))) q else ws in
          Ret (fl, ws, Some wr)
      | None => pop_loop fl maxFrameSize ws order
      end
  end.

Definition Pop (fl : flows) (maxFrameSize : Z) (ws : randomWriteScheduler) (order : list Z) :
    outcome (flows * randomWriteScheduler * option FrameWriteRequest) :=
  if negb (queue_empty (zero ws)) then
    run (z, wr) <- queue_shift (zero ws);
    Ret (fl, mkSched z (sq ws) (queuePool ws) (queues ws), Some wr)
  else pop_loop fl maxFrameSize ws order.

(** ** What Consume does *)

(** The octets of a request, the end of its data, and other frames as they are:
    what may be cut into several frames but not reordered. *)
Inductive token : Type :=
| TByte (b : Z)
| TFin (endStream : bool) (done : option nat)
| TFrame (wr : FrameWriteRequest).

Definition tokens (wr : FrameWriteRequest) : list token :=
  match write wr with
  | Some (writeData _ p es) =>
      map TByte p ++ (if es || bool_decide (is_Some (done wr)) then [TFin es (done wr)] else [])
  | _ => [TFrame wr]
  end.

(** A DATA request with octets belongs to a stream with a window under the
    window of its connection. *)
Definition wr_ok (fl : flows) (wr : FrameWriteRequest) : Prop :=
  DataSize wr <> 0 -> exists st f c cf, stream wr = Some st /\
    fl !! ws_flow st = Some f /\ flow_conn f = Some c /\ fl !! c = Some cf.

(** Whole, blocked or cut: the results of Consume under a budget. *)
Inductive consume_result (fl : flows) (wr : FrameWriteRequest) :
    Z -> flows -> FrameWriteRequest -> FrameWriteRequest -> Z -> Prop :=
| consume_free b : DataSize wr = 0 -> consume_result fl wr b fl wr emptyWR 1
| consume_blocked b : DataSize wr <> 0 -> b <= 0 -> consume_result fl wr b fl emptyWR emptyWR 0
| consume_whole b st fl' :
    stream wr = Some st -> 0 < DataSize wr <= b ->
    flow_take fl (ws_flow st) (DataSize wr) = Ret fl' ->
    consume_result fl wr b fl' wr emptyWR 1
| consume_cut b st fl' c r :
    stream wr = Some st -> 0 < b < DataSize wr -> DataSize c = b ->
    flow_take fl (ws_flow st) b = Ret fl' ->
    tokens wr = tokens c ++ tokens r -> WR_StreamID c = WR_StreamID wr ->
    stream r = stream wr -> DataSize r = DataSize wr - b ->
    writeEndsStream (write c) = Ret false -> done c = None ->
    consume_result fl wr b fl' c r 2.

(** What flow control, the caller and the peer's frame size leave for a request. *)
Definition budget (fl : flows) (maxFrameSize : Z) (wr : FrameWriteRequest) (n : Z) : Z :=
  match stream wr with
  | Some st => match flow_available fl (ws_flow st) with
               | Ret av => Z.min (Z.min n av) maxFrameSize
               | _ => 0
               end
  | None => 0
  end.

Lemma Consume_data fl maxF wr n sid p es :
  write wr = Some (writeData sid p es) -> len p <> 0 ->
  flows_ok fl -> wr_ok fl wr -> 0 < maxF ->
  exists fl' c r k, Consume fl maxF wr n = Ret (fl', c, r, k) /\
    consume_result fl wr (budget fl maxF wr n) fl' c r k.
Proof.
  intros Hw Hp Hfl Hok Hmax. destruct Hok as (st & f & cn & cf & Hst & Hf & Hcn & Hcf).
  { unfold DataSize. by rewrite Hw. }
  pose proof (proj1 Hfl _ _ Hf) as Hrf. pose proof (proj1 Hfl _ _ Hcf) as Hrc.
  assert (Hav : flow_available fl (ws_flow st) = Ret (Z.min (flow_n cf) (flow_n f))).
  { unfold flow_available. rewrite Hf. cbn [deref outcome_bind]. rewrite Hcn, Hcf.
    cbn [deref outcome_bind]. f_equal. case_if; breflect; lia. }
  assert (Htake : forall k, 0 <= k <= Z.min (flow_n cf) (flow_n f) ->
    exists fl', flow_take fl (ws_flow st) k = Ret fl').
  { intros k Hk. rewrite (flow_take_both fl _ f cn cf) by (done || lia).
    rewrite bool_decide_eq_true_2 by lia. eauto. }
  assert (Hds : DataSize wr = len p) by (unfold DataSize; by rewrite Hw).
  pose proof (len_nonneg p) as Hnn.
  unfold Consume, budget. rewrite Hw, Hst. apply Z.eqb_neq in Hp as Hp'. rewrite Hp'.
  cbn [deref outcome_bind]. rewrite Hav. cbn [outcome_bind].
  set (av := Z.min (flow_n cf) (flow_n f)) in *.
  replace (if maxF <? (if n <? av then n else av) then maxF else if n <? av then n else av)
    with (Z.min (Z.min n av) maxF) by (repeat case_if; breflect; lia).
  set (b := Z.min (Z.min n av) maxF). assert (Hb : b <= av) by lia.
  destruct (b <=? 0) eqn:E0; breflect.
  { do 4 eexists. split; [done|]. apply consume_blocked; [congruence|done]. }
  destruct (len p >? b) eqn:E1; breflect.
  - destruct (Htake b) as [fl' Ht]; [lia|]. rewrite Ht. cbn [outcome_bind].
    do 4 eexists. split; [done|]. eapply consume_cut; eauto; simpl.
    + lia.
    + unfold DataSize; simpl. apply len_ztake. lia.
    + unfold tokens. rewrite Hw. simpl. rewrite app_nil_r.
      rewrite <- (ztake_zdrop b p) at 1. by rewrite map_app, <- app_assoc.
    + unfold WR_StreamID. simpl. by rewrite Hst.
    + rewrite Hds. unfold DataSize; simpl. apply len_zdrop. lia.
  - rewrite i32_id by width. destruct (Htake (len p)) as [fl' Ht]; [lia|]. rewrite Ht.
    cbn [outcome_bind]. do 4 eexists. split; [done|].
    eapply consume_whole; [exact Hst|lia|]. by rewrite Hds.
Qed.

Lemma Consume_spec fl maxF wr n :
  flows_ok fl -> wr_ok fl wr -> 0 < maxF ->
  exists fl' c r k, Consume fl maxF wr n = Ret (fl', c, r, k) /\
    consume_result fl wr (budget fl maxF wr n) fl' c r k.
Proof.
  intros Hfl Hok Hmax. destruct (write wr) as [w|] eqn:Hw.
  2: { unfold Consume. rewrite Hw. do 4 eexists. split; [done|]. apply consume_free.
       unfold DataSize. by rewrite Hw. }
  destruct (decide (DataSize wr = 0)) as [Hz|Hz].
  - unfold Consume. rewrite Hw. unfold DataSize in Hz. rewrite Hw in Hz.
    assert (Hfree : consume_result fl wr (budget fl maxF wr n) fl wr emptyWR 1).
    { apply consume_free. unfold DataSize. by rewrite Hw. }
    destruct w; try (by eauto 10). rewrite Hz. simpl. eauto 10.
  - pose proof Hz as Hz'. unfold DataSize in Hz'. rewrite Hw in Hz'.
    destruct w; try done. by eapply Consume_data.
Qed.

(** The octets Consume hands out are charged to the window of the stream and
    to the window of its connection, exactly and to no other window; there are at
    most as many as either window, the caller's limit and the peer's frame size
    allow; and what is handed out followed by what is kept is the request. *)
Theorem Consume_charges fl maxF wr n fl' c r k :
  flows_ok fl -> wr_ok fl wr -> 0 < maxF ->
  Consume fl maxF wr n = Ret (fl', c, r, k) -> DataSize c <> 0 ->
  tokens wr = tokens c ++ (if k =? 2 then tokens r else []) /\
  DataSize c <= n /\ DataSize c <= maxF /\
  exists st f cn cf, stream wr = Some st /\ fl !! ws_flow st = Some f /\
    flow_conn f = Some cn /\ fl !! cn = Some cf /\
    DataSize c <= flow_n f /\ DataSize c <= flow_n cf /\
    fl' = alter (set_n (flow_n cf - DataSize c)) cn
            (alter (set_n (flow_n f - DataSize c)) (ws_flow st) fl).
Proof.
  intros Hfl Hok Hmax E Hc. destruct (Consume_spec fl maxF wr n Hfl Hok Hmax) as (fl2 & c2 & r2 & k2 & E2 & Hres).
  rewrite E in E2. injection E2 as <- <- <- <-.
  assert (Hdata : DataSize wr <> 0 /\ tokens wr = tokens c ++ (if k =? 2 then tokens r else []) /\
    DataSize c <= budget fl maxF wr n /\
    exists st, stream wr = Some st /\ flow_take fl (ws_flow st) (DataSize c) = Ret fl').
  { destruct Hres; try done; simpl; rewrite ?app_nil_r; split_and!; eauto with lia.
    subst b. eauto. }
  destruct Hdata as (Hds & Htok & Hb & st & Hst & Ht). split; [done|].
  destruct (Hok Hds) as (st' & f & cn & cf & Hst' & Hf & Hcn & Hcf).
  assert (st' = st) as -> by congruence.
  assert (0 <= DataSize c) by (unfold DataSize; destruct (write c) as [[]|]; auto with go; lia).
  unfold budget, flow_available in Hb. rewrite Hst, Hf in Hb. cbn [deref outcome_bind] in Hb.
  rewrite Hcn, Hcf in Hb. cbn [deref outcome_bind] in Hb.
  rewrite (flow_take_both fl _ f cn cf) in Ht by done.
  case_bool_decide as Hle; [|done]. injection Ht as <-.
  split; [lia|]. split; [lia|]. exists st, f, cn, cf. split_and!; try done; lia.
Qed.

(** ** The scheduler as queues per stream *)

(** The requests waiting for a stream, 0 being the control frames. *)
Definition qof (ws : randomWriteScheduler) (id : Z) : list FrameWriteRequest :=
  if id =? 0 then zero ws
  else match sq ws !! id with Some q => default [] (queues ws !! q) | None => [] end.

Record sched_ok (ws : randomWriteScheduler) : Prop := {
  ok_zero : Forall (fun wr => WR_StreamID wr = 0) (zero ws);
  ok_sq : forall id q, sq ws !! id = Some q -> id <> 0 /\
    exists l, queues ws !! q = Some l /\ l <> [] /\ Forall (fun wr => WR_StreamID wr = id) l;
  ok_inj : forall i j q, sq ws !! i = Some q -> sq ws !! j = Some q -> i = j;
  ok_pool : NoDup (queuePool ws);
  ok_free : forall q, q ∈ queuePool ws -> queues ws !! q = Some []
}.

Lemma sched_ok_new : sched_ok NewRandomWriteScheduler.
Proof. split; simpl; try done; try constructor; set_solver. Qed.

(** A queue in use is not in the pool. *)
Lemma sq_not_free ws id q : sched_ok ws -> sq ws !! id = Some q -> q ∉ queuePool ws.
Proof.
  intros Hok Hq Hin. destruct (ok_sq _ Hok _ _ Hq) as (_ & l & Hl & Hne & _).
  rewrite (ok_free _ Hok _ Hin) in Hl. by injection Hl as <-.
Qed.

Lemma qof_sq ws id q l :
  sched_ok ws -> sq ws !! id = Some q -> queues ws !! q = Some l -> qof ws id = l.
Proof.
  intros Hok Hq Hl. unfold qof. destruct (ok_sq _ Hok _ _ Hq) as (Hne & _).
  apply Z.eqb_neq in Hne. by rewrite Hne, Hq, Hl.
Qed.

Lemma qof_ids ws id : sched_ok ws -> Forall (fun wr => WR_StreamID wr = id) (qof ws id).
Proof.
  intros Hok. unfold qof. destruct (id =? 0) eqn:E; breflect; [subst; apply (ok_zero _ Hok)|].
  destruct (sq ws !! id) as [q|] eqn:Hq; [|constructor].
  destruct (ok_sq _ Hok _ _ Hq) as (_ & l & -> & _ & Hf). done.
Qed.

(** Replacing the queue of a stream that has one. *)
Lemma set_queue_ok ws id q l :
  sched_ok ws -> sq ws !! id = Some q -> l <> [] -> Forall (fun wr => WR_StreamID wr = id) l ->
  sched_ok (set_queue ws q l) /\
  forall j, qof (set_queue ws q l) j = if decide (j = id) then l else qof ws j.
Proof.
  intros Hok Hq Hne Hl. pose proof (sq_not_free _ _ _ Hok Hq) as Hfree.
  destruct (ok_sq _ Hok _ _ Hq) as (Hid & l0 & Hl0 & _ & _).
  pose proof (lookup_lt_Some _ _ _ Hl0) as Hlt. split.
  - split; simpl.
    + apply (ok_zero _ Hok).
    + intros j p Hp. destruct (ok_sq _ Hok _ _ Hp) as (Hj & lp & Hlp & Hlpne & Hlpf).
      split; [done|]. destruct (decide (p = q)) as [->|Hpq].
      * rewrite (ok_inj _ Hok _ _ _ Hp Hq) in *. exists l. by rewrite list_lookup_insert_eq.
      * exists lp. by rewrite list_lookup_insert_ne.
    + apply (ok_inj _ Hok).
    + apply (ok_pool _ Hok).
    + intros p Hp. rewrite list_lookup_insert_ne by set_solver. by apply (ok_free _ Hok).
  - intros j. unfold qof. simpl. destruct (j =? 0) eqn:Ej; breflect.
    { subst. by rewrite decide_False. }
    destruct (decide (j = id)) as [->|Hji]; [by rewrite Hq, list_lookup_insert_eq|].
    destruct (sq ws !! j) as [p|] eqn:Hp; [|done].
    rewrite list_lookup_insert_ne; [done|]. intros <-. apply Hji. by eapply (ok_inj _ Hok).
Qed.

(** Giving the queue of a stream back to the pool. *)
Lemma release_ok ws id q :
  sched_ok ws -> sq ws !! id = Some q ->
  let ws' := pool_put (set_sq ws (delete id (sq ws))) q in
  sched_ok ws' /\ forall j, qof ws' j = if decide (j = id) then [] else qof ws j.
Proof.
  intros Hok Hq. pose proof (sq_not_free _ _ _ Hok Hq) as Hfree.
  destruct (ok_sq _ Hok _ _ Hq) as (Hid & l0 & Hl0 & _ & _).
  pose proof (lookup_lt_Some _ _ _ Hl0) as Hlt.
  assert (Hother : forall j p, delete id (sq ws) !! j = Some p -> sq ws !! j = Some p /\ p <> q).
  { intros j p [Hne Hp]%lookup_delete_Some. split; [done|]. intros ->.
    apply Hne. by eapply (ok_inj _ Hok). }
  split.
  - split; simpl.
    + apply (ok_zero _ Hok).
    + intros j p [Hp Hpq]%Hother. rewrite list_lookup_insert_ne by done. by apply (ok_sq _ Hok).
    + intros i j p [Hi _]%Hother [Hj _]%Hother. by eapply (ok_inj _ Hok).
    + apply NoDup_app. split; [apply (ok_pool _ Hok)|]. split; [set_solver|apply NoDup_singleton].
    + intros p [Hp| ->%list_elem_of_singleton]%elem_of_app; [|by apply list_lookup_insert_eq].
      rewrite list_lookup_insert_ne by set_solver. by apply (ok_free _ Hok).
  - intros j. unfold qof. simpl. destruct (j =? 0) eqn:Ej; breflect.
    { subst. by rewrite decide_False. }
    destruct (decide (j = id)) as [->|Hji]; [by rewrite lookup_delete_eq|].
    destruct (delete id (sq ws) !! j) as [p|] eqn:Hp.
    + destruct (Hother _ _ Hp) as [-> Hpq]. by rewrite list_lookup_insert_ne.
    + rewrite lookup_delete_ne in Hp by done. by rewrite Hp.
Qed.

Lemma CloseStream_ok ws id :
  sched_ok ws -> id <> 0 ->
  sched_ok (CloseStream ws id) /\
  forall j, qof (CloseStream ws id) j = if decide (j = id) then [] else qof ws j.
Proof.
  intros Hok Hid. unfold CloseStream. destruct (sq ws !! id) as [q|] eqn:Hq.
  { by apply release_ok. }
  split; [done|]. intros j. destruct (decide (j = id)) as [->|]; [|done].
  unfold qof. apply Z.eqb_neq in Hid. by rewrite Hid, Hq.
Qed.

(** An empty queue for a stream that has none, from the pool or new. *)
Lemma pool_get_ok ws ws1 q :
  sched_ok ws -> pool_get ws = (ws1, q) ->
  zero ws1 = zero ws /\ sq ws1 = sq ws /\ queues ws1 !! q = Some [] /\
  NoDup (queuePool ws1) /\ (forall p, p ∈ queuePool ws1 -> p <> q /\ p ∈ queuePool ws) /\
  (forall i p, sq ws !! i = Some p -> p <> q) /\
  forall p l, queues ws !! p = Some l -> queues ws1 !! p = Some l.
Proof.
  intros Hok. unfold pool_get. destruct (last (queuePool ws)) as [p|] eqn:El; intros [= <- <-]; simpl.
  - apply last_Some in El as [pre Hpre]. rewrite Hpre, removelast_last.
    pose proof (ok_pool _ Hok) as Hnd. rewrite Hpre in Hnd.
    apply NoDup_app in Hnd as (Hnd & Hdisj & _).
    assert (Hp : p ∈ queuePool ws) by (rewrite Hpre; set_solver).
    split_and!; try done.
    + by apply (ok_free _ Hok).
    + intros x Hx. split; [|set_solver]. intros ->. apply (Hdisj p Hx). set_solver.
    + intros i x Hi ->. by eapply sq_not_free.
  - apply last_None in El. rewrite El. split_and!; try done.
    + by apply list_lookup_middle.
    + constructor.
    + intros p Hp. set_solver.
    + intros i p Hi ->. destruct (ok_sq _ Hok _ _ Hi) as (_ & l & Hl & _).
      apply lookup_lt_Some in Hl. lia.
    + intros p l Hl. by apply lookup_app_l_Some.
Qed.

Lemma open_queue_ok ws ws1 q wr :
  sched_ok ws -> WR_StreamID wr <> 0 -> sq ws !! WR_StreamID wr = None -> pool_get ws = (ws1, q) ->
  let ws' := set_queue (set_sq ws1 (<[WR_StreamID wr := q]> (sq ws1))) q [wr] in
  sched_ok ws' /\
  forall j, qof ws' j = qof ws j ++ (if decide (j = WR_StreamID wr) then [wr] else []).
Proof.
  intros Hok Hid Hnone Hg. set (id := WR_StreamID wr) in *.
  destruct (pool_get_ok _ _ _ Hok Hg) as (Hz & Hs & Hq & Hnd & Hpool & Hnew & Hkeep).
  assert (Hlt : (q < length (queues ws1))%nat) by (by eapply lookup_lt_Some).
  assert (Hsq : forall j p, <[id := q]> (sq ws1) !! j = Some p ->
    (j = id /\ p = q) \/ (j <> id /\ sq ws !! j = Some p /\ p <> q)).
  { intros j p [[-> ->]|[Hne Hp]]%lookup_insert_Some; [by left|]. rewrite Hs in Hp. right.
    split_and!; [done|done|]. by eapply Hnew. }
  split.
  - split; simpl.
    + rewrite Hz. apply (ok_zero _ Hok).
    + intros j p [[-> ->]|(Hne & Hp & Hpq)]%Hsq.
      * split; [done|]. exists [wr]. rewrite list_lookup_insert_eq by done.
        split_and!; [done|done|by repeat constructor].
      * destruct (ok_sq _ Hok _ _ Hp) as (Hj & l & Hl & ?). split; [done|]. exists l.
        rewrite list_lookup_insert_ne by done. split; [by apply Hkeep|done].
    + intros i j p [[-> ->]|(Hi & Hpi & Hpq)]%Hsq [[-> ?]|(Hj & Hpj & Hpq')]%Hsq; try done.
      by eapply (ok_inj _ Hok).
    + done.
    + intros p [Hpq Hp]%Hpool. rewrite list_lookup_insert_ne by done.
      by apply Hkeep, (ok_free _ Hok).
  - intros j. unfold qof. simpl. rewrite Hz, Hs. destruct (j =? 0) eqn:Ej; breflect.
    { subst. by rewrite decide_False, app_nil_r by congruence. }
    destruct (decide (j = id)) as [->|Hji].
    + by rewrite lookup_insert_eq, list_lookup_insert_eq, Hnone.
    + rewrite lookup_insert_ne, app_nil_r by done. destruct (sq ws !! j) as [p|] eqn:Hp; [|done].
      rewrite list_lookup_insert_ne by (intros <-; by eapply Hnew).
      destruct (ok_sq _ Hok _ _ Hp) as (_ & l & Hl & _). by rewrite (Hkeep _ _ Hl), Hl.
Qed.

Lemma Push_ok ws wr :
  sched_ok ws ->
  exists ws', Push ws wr = Ret ws' /\ sched_ok ws' /\
    forall j, qof ws' j = qof ws j ++ (if decide (j = WR_StreamID wr) then [wr] else []).
Proof.
  intros Hok. unfold Push. destruct (WR_StreamID wr =? 0) eqn:E; breflect.
  { eexists. split; [done|]. split.
    - destruct Hok. split; simpl; try done. unfold queue_push. rewrite Forall_app. auto.
    - intros j. unfold qof. simpl. rewrite E. destruct (j =? 0) eqn:Ej; breflect.
      + by rewrite decide_True.
      + by rewrite decide_False, app_nil_r. }
  destruct (sq ws !! WR_StreamID wr) as [q|] eqn:Hq.
  - destruct (ok_sq _ Hok _ _ Hq) as (_ & l & Hl & Hne & Hf). rewrite Hl. cbn [deref outcome_bind].
    eexists. split; [done|].
    destruct (set_queue_ok ws _ q (queue_push l wr) Hok Hq) as [Hok' Hqof].
    { unfold queue_push. by destruct l. }
    { unfold queue_push. rewrite Forall_app. auto. }
    split; [done|]. intros j. rewrite Hqof. destruct (decide _) as [->|]; [|by rewrite app_nil_r].
    by rewrite (qof_sq _ _ _ _ Hok Hq Hl).
  - destruct (pool_get ws) as [ws1 q] eqn:Hg.
    destruct (pool_get_ok _ _ _ Hok Hg) as (_ & _ & Hq0 & _).
    cbn [queues set_sq]. rewrite Hq0. cbn [deref outcome_bind]. eexists. split; [done|].
    by apply open_queue_ok.
Qed.

(** *** Pop *)

(** Every waiting request may be consumed. *)
Definition queued_ok (fl : flows) (ws : randomWriteScheduler) : Prop :=
  forall id, Forall (wr_ok fl) (qof ws id).

(** Nothing waiting on the stream can be written. *)
Definition stream_blocked (fl : flows) (maxF : Z) (ws : randomWriteScheduler) (id : Z) : Prop :=
  match qof ws id with
  | [] => True
  | wr :: _ => DataSize wr <> 0 /\ budget fl maxF wr (2 ^ 31 - 1) <= 0
  end.

(** The step of one stream: the head of its queue, or part of it, comes out. *)
Definition popped (fl : flows) (maxF : Z) (ws : randomWriteScheduler) (id : Z) (wr : FrameWriteRequest)
    (fl' : flows) (ws' : randomWriteScheduler) : Prop :=
  exists head q r k, qof ws id = head :: q /\ WR_StreamID wr = id /\
    consume_result fl head (budget fl maxF head (2 ^ 31 - 1)) fl' wr r k /\ k <> 0 /\
    forall j, qof ws' j = if decide (j = id) then (if k =? 2 then r :: q else q) else qof ws j.

Lemma set_queue_same ws q l : queues ws !! q = Some l -> set_queue ws q l = ws.
Proof. intros Hl. destruct ws. unfold set_queue. simpl in *. by rewrite list_insert_id. Qed.

Lemma consume_ids fl wr b fl' c r k :
  consume_result fl wr b fl' c r k -> k <> 0 ->
  WR_StreamID c = WR_StreamID wr /\ (k = 2 -> WR_StreamID r = WR_StreamID wr).
Proof.
  intros [b0|b0|b0 st fl0|b0 st fl0 c0 r0 Hst _ _ _ _ Hid Hr] Hk; try done.
  split; [done|]. intros _. unfold WR_StreamID. by rewrite Hr, Hst.
Qed.

Lemma pop_loop_ok fl maxF ws order :
  sched_ok ws -> flows_ok fl -> queued_ok fl ws -> 0 < maxF ->
  (forall id, id ∈ order -> is_Some (sq ws !! id)) ->
  exists fl' ws' res, pop_loop fl maxF ws order = Ret (fl', ws', res) /\ sched_ok ws' /\
    match res with
    | None => fl' = fl /\ ws' = ws /\ forall id, id ∈ order -> stream_blocked fl maxF ws id
    | Some wr => exists id, id ∈ order /\ popped fl maxF ws id wr fl' ws'
    end.
Proof.
  intros Hok Hfl Hqo Hmax. induction order as [|id order IH]; intros Hord.
  { do 3 eexists. split; [done|]. split; [done|]. set_solver. }
  destruct (Hord id) as [q Hq]; [set_solver|].
  destruct (ok_sq _ Hok _ _ Hq) as (Hid & l & Hl & Hne & Hf).
  cbn [pop_loop]. rewrite Hq. cbn [deref outcome_bind]. rewrite Hl. cbn [deref outcome_bind].
  pose proof (qof_sq _ _ _ _ Hok Hq Hl) as Hqof. destruct l as [|wr l]; [done|].
  assert (Hwr : wr_ok fl wr). { specialize (Hqo id). rewrite Hqof in Hqo. by apply Forall_cons in Hqo as [? _]. }
  destruct (Consume_spec fl maxF wr (2 ^ 31 - 1) Hfl Hwr Hmax) as (fl' & c & r & k & E & Hres).
  cbn [queue_consume]. rewrite E. cbn [outcome_bind queue_shift].
  apply Forall_cons in Hf as [Hwid Hf].
  assert (Hk : (k = 0 /\ fl' = fl /\ DataSize wr <> 0 /\ budget fl maxF wr (2 ^ 31 - 1) <= 0)
               \/ k = 1 \/ k = 2).
  { destruct Hres; auto 10. }
  destruct Hk as [(-> & -> & Hds & Hb)|Hk].
  - cbn [Z.eqb outcome_bind]. rewrite set_queue_same by done.
    destruct IH as (fl2 & ws2 & res & -> & Hok2 & Hr2); [set_solver|].
    do 3 eexists. split; [done|]. split; [done|]. destruct res as [w|].
    + destruct Hr2 as (j & Hj & Hp). exists j. split; [set_solver|done].
    + destruct Hr2 as (-> & -> & Hbl). split_and!; try done.
      intros j [->|Hj]%elem_of_cons; [|by apply Hbl]. unfold stream_blocked. by rewrite Hqof.
  - destruct (consume_ids _ _ _ _ _ _ _ Hres) as [Hcid Hrid]; [lia|].
    set (l' := if k =? 2 then r :: l else l).
    assert (E2 : (if k =? 0 then Ret (fl', wr :: l, None)
      else if k =? 1 then Ret (fl', l, Some c)
      else if k =? 2 then Ret (fl', r :: l, Some c) else Ret (fl', wr :: l, Some c))
      = Ret (fl', l', Some c)) by (subst l'; destruct Hk as [-> | ->]; reflexivity).
    rewrite E2. cbn [outcome_bind]. clear E2.
    do 3 eexists. split; [done|]. unfold popped.
    destruct (queue_empty l') eqn:Ee; unfold queue_empty in Ee; breflect.
    + apply len_0_inv in Ee. destruct (release_ok ws id q Hok Hq) as [Hok' Hq'].
      assert (Hsame : pool_put (set_sq (set_queue ws q l') (delete id (sq (set_queue ws q l')))) q
        = pool_put (set_sq ws (delete id (sq ws))) q).
      { unfold pool_put. simpl. by rewrite list_insert_insert_eq. }
      rewrite Hsame. split; [done|]. exists id. split; [set_solver|].
      exists wr, l, r, k. split_and!; try done; [congruence|lia|].
      intros j. rewrite Hq'. case_decide; [|done]. by subst l'.
    + assert (Hne' : l' <> []) by (intros ->; done).
      destruct (set_queue_ok ws id q l' Hok Hq Hne') as [Hok' Hq'].
      { subst l'. destruct (k =? 2) eqn:E2; breflect; [|done]. constructor; [|done].
        rewrite Hrid; done. }
      split; [done|]. exists id. split; [set_solver|]. exists wr, l, r, k.
      split_and!; try done; [congruence|lia].
Qed.

(** The map iteration visits every stream with a queue. *)
Definition visits (ws : randomWriteScheduler) (order : list Z) : Prop :=
  forall id, id ∈ order <-> is_Some (sq ws !! id).

Definition pop_result (fl : flows) (maxF : Z) (ws : randomWriteScheduler)
    (fl' : flows) (ws' : randomWriteScheduler) (res : option FrameWriteRequest) : Prop :=
  match res with
  | None => fl' = fl /\ ws' = ws /\ qof ws 0 = [] /\ forall id, stream_blocked fl maxF ws id
  | Some wr =>
      (exists q, qof ws 0 = wr :: q /\ WR_StreamID wr = 0 /\ fl' = fl /\
                 forall j, qof ws' j = if decide (j = 0) then q else qof ws j) \/
      (qof ws 0 = [] /\ exists id, popped fl maxF ws id wr fl' ws')
  end.

Lemma Pop_ok fl maxF ws order :
  sched_ok ws -> flows_ok fl -> queued_ok fl ws -> 0 < maxF -> visits ws order ->
  exists fl' ws' res, Pop fl maxF ws order = Ret (fl', ws', res) /\ sched_ok ws' /\
    pop_result fl maxF ws fl' ws' res.
Proof.
  intros Hok Hfl Hqo Hmax Hv. unfold Pop, queue_empty. destruct (zero ws) as [|wr z] eqn:Hz.
  - cbn [negb]. change (len [] =? 0) with true. cbn [negb].
    destruct (pop_loop_ok fl maxF ws order Hok Hfl Hqo Hmax) as (fl' & ws' & res & -> & Hok' & Hres).
    { intros id. apply Hv. }
    do 3 eexists. split; [done|]. split; [done|]. destruct res as [wr|]; simpl.
    + destruct Hres as (id & _ & Hp). right. split; [done|]. by exists id.
    + destruct Hres as (-> & -> & Hbl). split_and!; try done. intros id.
      destruct (decide (id = 0)) as [->|Hid]; [unfold stream_blocked, qof; simpl; by rewrite Hz|].
      destruct (sq ws !! id) as [q|] eqn:Hq; [apply Hbl, Hv; by rewrite Hq|].
      unfold stream_blocked, qof. apply Z.eqb_neq in Hid. by rewrite Hid, Hq.
  - assert (El : (len (wr :: z) =? 0) = false) by (apply Z.eqb_neq; glen). rewrite El.
    cbn [negb queue_shift outcome_bind]. do 3 eexists. split; [done|].
    pose proof (ok_zero _ Hok) as H0. rewrite Hz, Forall_cons in H0. destruct H0 as [Hw H0].
    split; [destruct Hok; by split|]. left. exists z. split; [unfold qof; simpl; done|].
    split; [done|]. split; [done|]. intros j. unfold qof. simpl.
    destruct (decide (j = 0)) as [->|Hj]; [done|]. apply Z.eqb_neq in Hj. by rewrite Hj.
Qed.

(** Pop always answers.  A control frame comes out first, whole and without
    touching a window; otherwise the head of one stream's queue comes out, whole
    or cut, every other queue being left alone; and Pop gives up, changing
    nothing, only when every stream that waits is blocked by flow control. *)
Theorem Pop_answers fl maxF ws order :
  sched_ok ws -> flows_ok fl -> queued_ok fl ws -> 0 < maxF -> visits ws order ->
  exists fl' ws' res, Pop fl maxF ws order = Ret (fl', ws', res) /\
    pop_result fl maxF ws fl' ws' res.
Proof.
  intros Hok Hfl Hqo Hmax Hv.
  destruct (Pop_ok fl maxF ws order Hok Hfl Hqo Hmax Hv) as (fl' & ws' & res & E & _ & Hr). eauto.
Qed.

(** *** Runs of the scheduler *)

(** A change of the windows by the rest of the server: streams are opened, the
    windows of others move. *)
Definition flows_extend (fl fl' : flows) : Prop :=
  flows_ok fl' /\
  forall a f, fl !! a = Some f -> exists f', fl' !! a = Some f' /\ flow_conn f' = flow_conn f.

(** The scheduler, and for each stream what went in and came out since it was
    closed last. *)
Record sched_run := mkRun {
  run_flows : flows;
  run_ws : randomWriteScheduler;
  went_in : Z -> list token;
  came_out : Z -> list token
}.

Inductive sched_step (maxF : Z) : sched_run -> sched_run -> Prop :=
| step_push fl ws i o wr ws' :
    wr_ok fl wr -> Push ws wr = Ret ws' ->
    sched_step maxF (mkRun fl ws i o)
      (mkRun fl ws' (fun j => i j ++ (if decide (j = WR_StreamID wr) then tokens wr else [])) o)
| step_pop fl ws i o order fl' ws' wr :
    visits ws order -> Pop fl maxF ws order = Ret (fl', ws', Some wr) ->
    sched_step maxF (mkRun fl ws i o)
      (mkRun fl' ws' i (fun j => o j ++ (if decide (j = WR_StreamID wr) then tokens wr else [])))
| step_close fl ws i o id :
    id <> 0 ->
    sched_step maxF (mkRun fl ws i o)
      (mkRun fl (CloseStream ws id) (fun j => if decide (j = id) then [] else i j)
         (fun j => if decide (j = id) then [] else o j))
| step_window fl fl' ws i o :
    flows_extend fl fl' -> sched_step maxF (mkRun fl ws i o) (mkRun fl' ws i o).

(** What every run keeps. *)
Definition run_ok (r : sched_run) : Prop :=
  sched_ok (run_ws r) /\ flows_ok (run_flows r) /\ queued_ok (run_flows r) (run_ws r) /\
  forall j, went_in r j = came_out r j ++ concat (map tokens (qof (run_ws r) j)).

Lemma wr_ok_extend fl fl' wr : flows_extend fl fl' -> wr_ok fl wr -> wr_ok fl' wr.
Proof.
  intros [_ He] Hw Hd. destruct (Hw Hd) as (st & f & c & cf & Hst & Hf & Hc & Hcf).
  destruct (He _ _ Hf) as (f' & Hf' & Hfc). destruct (He _ _ Hcf) as (cf' & Hcf' & _).
  exists st, f', c, cf'. split_and!; congruence.
Qed.

Lemma flow_take_extend fl a k fl' :
  flows_ok fl -> flow_take fl a k = Ret fl' -> flows_extend fl fl'.
Proof.
  intros Hok. assert (Hset : forall fl0 b v, flows_ok fl0 -> is_i32 v ->
    flows_extend fl0 (alter (set_n v) b fl0)).
  { intros fl0 b v H0 Hv. split; [by apply flows_ok_set|]. intros x f Hf.
    destruct (decide (x = b)) as [->|]; [rewrite list_lookup_alter_eq, Hf; by eexists|].
    rewrite list_lookup_alter_ne by done. eauto. }
  unfold flow_take. destruct (flow_available fl a) as [av| |]; [|done..]. cbn [outcome_bind].
  case_if; [done|]. destruct (fl !! a) as [f|] eqn:Hf; [|done]. cbn [deref outcome_bind].
  pose proof (Hset fl a (i32 (flow_n f - k)) Hok (is_i32_i32 _)) as H1.
  destruct (flow_conn f) as [c|]; [|by intros [= <-]].
  destruct (_ !! c) as [cf|]; [|done]. cbn [deref outcome_bind]. intros [= <-].
  destruct (Hset _ c (i32 (flow_n cf - k)) (proj1 H1) (is_i32_i32 _)) as [H2 H3].
  split; [done|]. intros x g Hg. destruct (proj2 H1 _ _ Hg) as (g1 & Hg1 & E1).
  destruct (H3 _ _ Hg1) as (g2 & Hg2 & E2). exists g2. split; [done|congruence].
Qed.

Lemma consume_extend fl wr b fl' c r k :
  flows_ok fl -> consume_result fl wr b fl' c r k -> flows_extend fl fl'.
Proof. intros Hok [| | |]; try by eapply flow_take_extend. all: split; [done|eauto]. Qed.

Lemma consume_tokens fl wr b fl' c r k :
  consume_result fl wr b fl' c r k -> k <> 0 ->
  tokens wr = tokens c ++ (if k =? 2 then tokens r else []).
Proof. intros [] Hk; simpl; rewrite ?app_nil_r; done. Qed.

Lemma consume_rest_ok fl wr b fl' c r :
  flows_ok fl -> consume_result fl wr b fl' c r 2 -> wr_ok fl wr -> wr_ok fl' r.
Proof.
  intros Hok Hres Hw. apply (wr_ok_extend fl); [by eapply consume_extend|].
  inversion Hres; subst. intros Hd. destruct Hw as (st' & f & cn & cf & Hst & Hrest); [lia|].
  exists st', f, cn, cf. split; [congruence|done].
Qed.

Lemma sched_step_ok maxF r r' : 0 < maxF -> sched_step maxF r r' -> run_ok r -> run_ok r'.
Proof.
  intros Hmax Hst (Hok & Hfl & Hqo & Hhist). unfold run_ok.
  destruct Hst as [fl ws i o wr ws' Hwr E|fl ws i o order fl' ws' wr Hv E|fl ws i o id Hid
                  |fl fl' ws i o Hext]; cbn [run_ws run_flows went_in came_out] in *.
  - destruct (Push_ok ws wr Hok) as (ws2 & E2 & Hok' & Hq). rewrite E in E2. injection E2 as <-.
    split_and!; try done.
    + intros j. rewrite Hq. apply Forall_app. split; [apply Hqo|]. case_decide; auto.
    + intros j. rewrite Hq, Hhist, map_app, concat_app, <- app_assoc. f_equal. f_equal.
      case_decide; [by simpl; rewrite app_nil_r|done].
  - destruct (Pop_ok fl maxF ws order Hok Hfl Hqo Hmax Hv) as (fl2 & ws2 & res & E2 & Hok' & Hres).
    rewrite E in E2. injection E2 as <- <- <-. destruct Hres as [(q & H0 & Hid & -> & Hq)|(_ & id & Hp)].
    + split_and!; try done.
      * intros j. rewrite Hq. case_decide; [|apply Hqo]. pose proof (Hqo 0) as Hz.
        rewrite H0 in Hz. by apply Forall_cons in Hz as [_ ?].
      * intros j. rewrite Hhist, Hq, Hid, <- app_assoc. f_equal.
        case_decide as Hj; [|done]. subst. by rewrite H0.
    + destruct Hp as (head & q & r & k & Hh & Hid & Hc & Hk & Hq).
      pose proof (consume_extend _ _ _ _ _ _ _ Hfl Hc) as Hext.
      pose proof (Hqo id) as Hall. rewrite Hh, Forall_cons in Hall. destruct Hall as [Hhead Htail].
      split_and!; [done|by apply Hext| |].
      * intros j. rewrite Hq. assert (Himp : forall l, Forall (wr_ok fl) l -> Forall (wr_ok fl') l).
        { intros l Hl. eapply Forall_impl; [exact Hl|]. intros w. by apply wr_ok_extend. }
        case_decide; [|by apply Himp]. destruct (k =? 2) eqn:Ek; [|by apply Himp].
        apply Z.eqb_eq in Ek as ->. constructor; [by eapply consume_rest_ok|by apply Himp].
      * intros j. rewrite Hhist, Hq, Hid, <- app_assoc. f_equal. case_decide as Hj; [|done]. subst j.
        rewrite Hh. simpl. rewrite (consume_tokens _ _ _ _ _ _ _ Hc Hk), <- app_assoc.
        f_equal. by destruct (k =? 2).
  - destruct (CloseStream_ok ws id Hok Hid) as [Hok' Hq]. split_and!; try done.
    + intros j. rewrite Hq. case_decide; [constructor|apply Hqo].
    + intros j. rewrite Hq. case_decide; [done|apply Hhist].
  - split_and!; try done; [apply Hext|]. intros j. eapply Forall_impl; [apply Hqo|].
    intros wr. by apply wr_ok_extend.
Qed.

Definition run_new (fl : flows) : sched_run :=
  mkRun fl NewRandomWriteScheduler (fun _ => []) (fun _ => []).

(** C21: "Frames with a given wr.StreamID() are Pop'd in the same order they are
    Push'd. No frames should be discarded except by CloseStream": in every run of
    the scheduler, whatever order the map is visited in and however the windows
    move, what went into a stream since it was last closed is what came out of
    it followed by what its queue holds, cutting DATA frames apart. *)
Theorem sched_fifo maxF fl r :
  0 < maxF -> flows_ok fl -> rtc (sched_step maxF) (run_new fl) r ->
  forall id, went_in r id = came_out r id ++ concat (map tokens (qof (run_ws r) id)).
Proof.
  intros Hmax Hfl Hr. assert (Hnew : run_ok (run_new fl)).
  { split; [apply sched_ok_new|]. split; [done|]. split; intros j; unfold qof; simpl;
      rewrite lookup_empty; by case_if. }
  assert (Hok : run_ok r); [|apply Hok].
  revert Hnew. induction Hr as [|r1 r2 r3 Hs Hr IH]; [done|]. intros H1. apply IH.
  by eapply sched_step_ok.
Qed.

(** ** A sample run: 10 octets for a stream whose window is 7 *)

Definition sample_flows : flows := [mkFlow 100 None; mkFlow 7 (Some 0%nat)].
Definition sample_wr : FrameWriteRequest :=
  mkWR (Some (writeData 1 [1; 2; 3; 4; 5; 6; 7; 8; 9; 10] true)) (Some (mkWStream 1 1)) (Some 0%nat).

Lemma sample_flows_ok : flows_ok sample_flows.
Proof.
  split.
  - intros a f. destruct a as [|[|a]]; intros [= <-]; split; done.
  - intros a f c. destruct a as [|[|a]]; intros [= <-]; intros [= <-].
    split; [done|]. exists (mkFlow 100 None). done.
Qed.

Lemma sample_wr_ok : wr_ok sample_flows sample_wr.
Proof. intros _. exists (mkWStream 1 1), (mkFlow 7 (Some 0%nat)), 0%nat, (mkFlow 100 None). done. Qed.

Definition outcome_else {A} (d : A) (o : outcome A) : A := match o with Ret a => a | _ => d end.
Definition sample_ws : randomWriteScheduler :=
  outcome_else NewRandomWriteScheduler (Push NewRandomWriteScheduler sample_wr).

Lemma sample_push : Push NewRandomWriteScheduler sample_wr = Ret sample_ws.
Proof. reflexivity. Qed.

Lemma sample_ws_ok : sched_ok sample_ws /\ queued_ok sample_flows sample_ws /\ visits sample_ws [1].
Proof.
  destruct (Push_ok _ sample_wr sched_ok_new) as (ws & E & Hok & Hq).
  rewrite sample_push in E. injection E as <-. split; [done|]. split.
  - intros id. rewrite Hq. apply Forall_app. split.
    + unfold qof. simpl. rewrite lookup_empty. by case_if.
    + case_decide; [|constructor]. constructor; [apply sample_wr_ok | constructor].
  - intros id. change (sq sample_ws) with (<[1 := 0%nat]> (∅ : gmap Z nat)).
    rewrite lookup_insert_is_Some, lookup_empty, list_elem_of_singleton.
    split; [by left|]. intros [->|[_ [? ?]]]; done.
Qed.

Lemma Consume_charges_witness :
  tokens sample_wr = tokens (mkWR (Some (writeData 1 [1; 2; 3; 4; 5; 6; 7] false))
                               (Some (mkWStream 1 1)) None) ++
                     [TByte 8; TByte 9; TByte 10; TFin true (Some 0%nat)].
Proof.
  apply (Consume_charges sample_flows 16384 sample_wr (2 ^ 31 - 1)
    [mkFlow 93 None; mkFlow 0 (Some 0%nat)] _
    (mkWR (Some (writeData 1 [8; 9; 10] true)) (Some (mkWStream 1 1)) (Some 0%nat)) 2);
    [apply sample_flows_ok | apply sample_wr_ok | lia | reflexivity | done].
Defined.

Lemma Pop_answers_witness :
  exists fl' ws' res, Pop sample_flows 16384 sample_ws [1] = Ret (fl', ws', res) /\
    pop_result sample_flows 16384 sample_ws fl' ws' res.
Proof.
  apply (Pop_answers sample_flows 16384 sample_ws [1]);
    [apply sample_ws_ok | apply sample_flows_ok | apply sample_ws_ok | lia | apply sample_ws_ok].
Defined.

Definition sample_run : sched_run :=
  mkRun sample_flows sample_ws
    (fun j => [] ++ (if decide (j = WR_StreamID sample_wr) then tokens sample_wr else []))
    (fun _ => []).

Lemma sched_fifo_witness :
  went_in sample_run 1 = came_out sample_run 1 ++ concat (map tokens (qof (run_ws sample_run) 1)).
Proof.
  apply (sched_fifo 16384 sample_flows sample_run); [lia | apply sample_flows_ok |].
  eapply rtc_l; [|apply rtc_refl]. apply step_push; [apply sample_wr_ok | apply sample_push].
Defined.
