(* ===== verification/H2Pipe.v ===== *)
(** * HTTP/2: request bodies

    [web/protocol/http2/databuffer.go] and [pipe.go]: the buffer a stream's DATA
    goes into, and the pipe that hands it to the handler.  Every method of the
    pipe runs under its mutex, so a run of the pipe is a sequence of methods; a
    Read that has to wait is the result [Blocked], and is tried again when
    another method has run. *)

From S2P Require Import Prelude Bytes H2Base.

(** ** databuffer.go *)

Record dataBuffer := mkDataBuffer {
  buf : bytes;       (* b.buf.B *)
  offset : Z
}.

Definition newDataBuffer (b : bytes) : dataBuffer := mkDataBuffer b 0.

Definition dataBuffer_Len (b : dataBuffer) : Z := len (buf b) - offset b.

(** Read into a slice of [m] octets: the octets copied, or EOF. *)
Definition dataBuffer_Read (b : dataBuffer) (m : Z) : dataBuffer * result error bytes :=
  if dataBuffer_Len b =? 0 then (b, Err EOF)
  else
    let p := ztake m (zdrop (offset b) (buf b)) in
    (mkDataBuffer (buf b) (offset b + len p), Ok p).

Definition dataBuffer_Write (b : dataBuffer) (p : bytes) : dataBuffer :=
  mkDataBuffer (buf b ++ p) (offset b).

Definition dataBuffer_Reset (b : dataBuffer) : dataBuffer := mkDataBuffer [] 0.

(** ** pipe.go *)

(** [readFn] is a closure, here an identifier; [ran] records the ones that ran. *)
Record pipe := mkPipe {
  p_b : option dataBuffer;       (* nil when done reading *)
  unread : Z;
  p_err : option error;
  breakErr : option error;
  donec : option bool;           (* the channel, and whether it is closed *)
  readFn : option nat;
  ran : list nat
}.

(** pipe{}. *)
Definition zeroPipe : pipe := mkPipe None 0 None None None None [].

Definition set_b (p : pipe) (b : option dataBuffer) : pipe :=
  mkPipe b (unread p) (p_err p) (breakErr p) (donec p) (readFn p) (ran p).
Definition set_donec (p : pipe) (d : option bool) : pipe :=
  mkPipe (p_b p) (unread p) (p_err p) (breakErr p) d (readFn p) (ran p).
Definition set_unread (p : pipe) (u : Z) : pipe :=
  mkPipe (p_b p) u (p_err p) (breakErr p) (donec p) (readFn p) (ran p).
Definition set_readFn (p : pipe) (f : option nat) : pipe :=
  mkPipe (p_b p) (unread p) (p_err p) (breakErr p) (donec p) f (ran p).

(** [p.err != nil || p.breakErr != nil]. *)
Definition failed (p : pipe) : bool :=
  bool_decide (is_Some (p_err p)) || bool_decide (is_Some (breakErr p)).

Definition setBuffer (p : pipe) (b : dataBuffer) : pipe :=
  if failed p then p else set_b p (Some b).

Definition pipe_Len (p : pipe) : Z :=
  match p_b p with
  | None => unread p
  | Some b => dataBuffer_Len b
  end.

Inductive read_res : Type :=
| Got (d : bytes)
| Failed (e : error)
| Blocked.

(** Read into a slice of [m] octets. *)
Definition pipe_Read (p : pipe) (m : Z) : pipe * read_res :=
  match breakErr p with
  | Some e => (p, Failed e)
  | None =>
      let next :=
        match p_err p with
        | Some e =>
            let p := match readFn p with
                     | Some f => mkPipe (p_b p) (unread p) (p_err p) (breakErr p) (donec p) None
                                   (ran p ++ [f])
                     | None => p
                     end in
            (set_b p None, Failed e)
        | None => (p, Blocked)
        end in
      match p_b p with
      | Some b =>
          if dataBuffer_Len b >? 0 then
            let '(b, res) := dataBuffer_Read b m in
            (set_b p (Some b), match res with Ok d => Got d | Err e => Failed e end)
          else next
      | None => next
      end
  end.

(** Write: the number of octets accepted, or errClosedPipeWrite; a pipe without
    buffer is dereferenced. *)
Definition pipe_Write (p : pipe) (d : bytes) : outcome (pipe * result error Z) :=
  match p_err p with
  | Some _ => Ret (p, Err errClosedPipeWrite)
  | None =>
      match breakErr p with
      | Some _ => Ret (set_unread p (unread p + len d), Ok (len d))
      | None =>
          run b <- deref (p_b p);
          Ret (set_b p (Some (dataBuffer_Write b d)), Ok (len d))
      end
  end.

Definition closeDoneLocked (p : pipe) : pipe :=
  match donec p with
  | None => p
  | Some _ => set_donec p (Some true)
  end.

(** closeWithError(&p.err, err, fn) when [brk] is false, and
    closeWithError(&p.breakErr, err, fn) when it is true. *)
Definition closeWithError (p : pipe) (brk : bool) (err : option error) (fn : option nat) :
    outcome pipe :=
  match err with
  | None => Panic
  | Some e =>
      let dst := if brk then breakErr p else p_err p in
      match dst with
      | Some _ => Ret p
      | None =>
          let p := set_readFn p fn in
          if brk then
            let p := match p_b p with
                     | Some b => set_b (set_unread p (unread p + dataBuffer_Len b)) None
                     | None => p
                     end in
            Ret (closeDoneLocked (mkPipe (p_b p) (unread p) (p_err p) (Some e) (donec p)
                                    (readFn p) (ran p)))
          else
            Ret (closeDoneLocked (mkPipe (p_b p) (unread p) (Some e) (breakErr p) (donec p)
                                    (readFn p) (ran p)))
      end
  end.

Definition CloseWithError (p : pipe) (err : option error) : outcome pipe :=
  closeWithError p false err None.
Definition BreakWithError (p : pipe) (err : option error) : outcome pipe :=
  closeWithError p true err None.
Definition closeWithErrorAndCode (p : pipe) (err : option error) (fn : nat) : outcome pipe :=
  closeWithError p false err (Some fn).

(** pipe.Err. *)
Definition pipe_Err (p : pipe) : option error :=
  match breakErr p with
  | Some e => Some e
  | None => p_err p
  end.

Definition pipe_Done (p : pipe) : pipe :=
  match donec p with
  | None =>
      let p := set_donec p (Some false) in
      if failed p then closeDoneLocked p else p
  | Some _ => p
  end.

(** ** Runs of a pipe *)

(** A pipe, the octets its writer had accepted, and those its reader got. *)
Record pipe_run := mkPipeRun { r_pipe : pipe; accepted : bytes; r_read : bytes }.

Inductive pipe_step : pipe_run -> pipe_run -> Prop :=
| pstep_buffer p w r :
    p_b p = None -> pipe_step (mkPipeRun p w r) (mkPipeRun (setBuffer p (newDataBuffer [])) w r)
| pstep_write p w r d p' k :
    pipe_Write p d = Ret (p', Ok k) -> pipe_step (mkPipeRun p w r) (mkPipeRun p' (w ++ d) r)
| pstep_refused p w r d p' e :
    pipe_Write p d = Ret (p', Err e) -> pipe_step (mkPipeRun p w r) (mkPipeRun p' w r)
| pstep_read p w r m p' d :
    0 <= m -> pipe_Read p m = (p', Got d) -> pipe_step (mkPipeRun p w r) (mkPipeRun p' w (r ++ d))
| pstep_read_err p w r m p' e :
    pipe_Read p m = (p', Failed e) -> pipe_step (mkPipeRun p w r) (mkPipeRun p' w r)
| pstep_close p w r brk e fn p' :
    closeWithError p brk (Some e) fn = Ret p' -> pipe_step (mkPipeRun p w r) (mkPipeRun p' w r)
| pstep_done p w r : pipe_step (mkPipeRun p w r) (mkPipeRun (pipe_Done p) w r).

(** The octets of a buffer not read yet. *)
Definition rest_of (b : dataBuffer) : bytes := zdrop (offset b) (buf b).

(** What holds in every run. *)
Definition pipe_ok (s : pipe_run) : Prop :=
  let p := r_pipe s in
  (forall b, p_b p = Some b -> 0 <= offset b <= len (buf b)) /\
  len (accepted s) = len (r_read s) + pipe_Len p /\ 0 <= pipe_Len p /\
  r_read s `prefix_of` accepted s /\
  match breakErr p with
  | Some _ => p_b p = None
  | None => unread p = 0 /\
            accepted s = r_read s ++ from_option rest_of [] (p_b p)
  end.

Lemma len_rest b : 0 <= offset b <= len (buf b) -> len (rest_of b) = dataBuffer_Len b.
Proof. intros H. unfold rest_of, dataBuffer_Len. by rewrite len_zdrop. Qed.

Lemma dataBuffer_Read_rest b m b' d :
  0 <= offset b <= len (buf b) -> 0 <= m -> dataBuffer_Read b m = (b', Ok d) ->
  rest_of b = d ++ rest_of b' /\ 0 <= offset b' <= len (buf b').
Proof.
  unfold dataBuffer_Read. case_if; [done|]. intros Ho Hm [= <- <-]. unfold rest_of. cbn [offset buf].
  set (l := zdrop (offset b) (buf b)).
  assert (Hl : len l = len (buf b) - offset b) by (apply len_zdrop; lia).
  assert (Hz : zdrop (offset b + len (ztake m l)) (buf b) = zdrop (len (ztake m l)) l).
  { unfold l, zdrop. rewrite drop_drop. f_equal. pose proof (len_nonneg (ztake m (drop (Z.to_nat (offset b)) (buf b)))). 
    fold (zdrop (offset b) (buf b)) in *. lia. }
  rewrite Hz. destruct (decide (m <= len l)) as [Hle|Hgt].
  - rewrite len_ztake by lia. rewrite ztake_zdrop. split; [done|]. lia.
  - rewrite ztake_ge by lia. split; [|lia].
    replace (zdrop (len l) l) with (@nil Z); [by rewrite app_nil_r|].
    symmetry. apply len_0_inv. rewrite len_zdrop; lia.
Qed.

(** The invariant reads only the buffer, the count and the break error. *)
Lemma pipe_ok_ext p p' w r :
  p_b p' = p_b p -> unread p' = unread p -> breakErr p' = breakErr p ->
  pipe_ok (mkPipeRun p w r) -> pipe_ok (mkPipeRun p' w r).
Proof. unfold pipe_ok, pipe_Len. cbn [r_pipe accepted r_read]. intros -> -> ->. done. Qed.

Lemma closeDoneLocked_same p :
  p_b (closeDoneLocked p) = p_b p /\ unread (closeDoneLocked p) = unread p /\
  breakErr (closeDoneLocked p) = breakErr p.
Proof. unfold closeDoneLocked. by destruct (donec p). Qed.

Lemma pipe_ok_closeDone p w r :
  pipe_ok (mkPipeRun p w r) -> pipe_ok (mkPipeRun (closeDoneLocked p) w r).
Proof. destruct (closeDoneLocked_same p) as (? & ? & ?). by apply pipe_ok_ext. Qed.

(** A pipe that is not broken, by the buffer it holds. *)
Lemma pipe_ok_open p w r :
  breakErr p = None -> unread p = 0 -> (forall b, p_b p = Some b -> 0 <= offset b <= len (buf b)) ->
  w = r ++ from_option rest_of [] (p_b p) -> pipe_ok (mkPipeRun p w r).
Proof.
  intros Hbr Hu Hb ->. unfold pipe_ok. cbn [r_pipe accepted r_read]. rewrite Hbr, len_app.
  assert (Hl : len (from_option rest_of [] (p_b p)) = pipe_Len p).
  { unfold pipe_Len. destruct (p_b p) as [b|]; simpl; [apply len_rest; eauto | by rewrite Hu]. }
  rewrite Hl. pose proof (len_nonneg (from_option rest_of [] (p_b p))).
  split_and!; try done; [lia | by apply prefix_app_r].
Qed.

Lemma setBuffer_ok p w r :
  p_b p = None -> pipe_ok (mkPipeRun p w r) ->
  pipe_ok (mkPipeRun (setBuffer p (newDataBuffer [])) w r).
Proof.
  intros Hb Hok. pose proof Hok as (_ & _ & _ & _ & Hbrk). cbn in Hbrk.
  unfold setBuffer, failed. destruct (breakErr p) eqn:Eb; [by rewrite orb_true_r|].
  destruct (p_err p); [done|]. cbn. destruct Hbrk as [Hu Hacc]. rewrite Hb in Hacc.
  apply pipe_ok_open; simpl; [done|done|by intros b [= <-]|done].
Qed.

Lemma pipe_Write_ok p w r d p' k :
  pipe_Write p d = Ret (p', Ok k) -> pipe_ok (mkPipeRun p w r) -> pipe_ok (mkPipeRun p' (w ++ d) r).
Proof.
  intros E (Hoff & Hcount & Hnn & Hpre & Hbrk). cbn [r_pipe accepted r_read] in *.
  unfold pipe_Write in E. destruct (p_err p); [done|]. destruct (breakErr p) as [e|] eqn:Eb.
  - injection E as <- _. unfold pipe_ok, pipe_Len in *. cbn in *. rewrite Eb, Hbrk in *.
    pose proof (len_nonneg d). rewrite len_app. split_and!; try done; try lia.
    by apply prefix_app_r.
  - destruct (p_b p) as [b|] eqn:Hb; [|done]. injection E as <- _.
    destruct Hbrk as [Hu ->]. pose proof (Hoff b eq_refl) as Ho.
    apply pipe_ok_open; cbn; [done|done| |].
    + intros b' [= <-]. simpl. rewrite len_app. pose proof (len_nonneg d). lia.
    + rewrite <- app_assoc. f_equal. unfold rest_of, dataBuffer_Write, zdrop. simpl.
      rewrite drop_app_le; [done|]. unfold len in Ho. lia.
Qed.

Lemma pipe_Write_refused_ok p w r d p' e :
  pipe_Write p d = Ret (p', Err e) -> pipe_ok (mkPipeRun p w r) -> pipe_ok (mkPipeRun p' w r).
Proof.
  unfold pipe_Write. destruct (p_err p); [by intros [= <- _]|].
  destruct (breakErr p); [done|]. by destruct (p_b p).
Qed.

Lemma pipe_Read_ok p w r m p' d :
  0 <= m -> pipe_Read p m = (p', Got d) -> pipe_ok (mkPipeRun p w r) ->
  pipe_ok (mkPipeRun p' w (r ++ d)).
Proof.
  intros Hm E (Hoff & _ & _ & _ & Hbrk). cbn [r_pipe accepted r_read] in *.
  unfold pipe_Read in E. destruct (breakErr p) eqn:Eb; [done|]. destruct Hbrk as [Hu Hacc].
  destruct (p_b p) as [b|] eqn:Hb; [|by destruct (p_err p)].
  destruct (dataBuffer_Len b >? 0); [|by destruct (p_err p)].
  destruct (dataBuffer_Read b m) as [b' [d'|]] eqn:Er; [|done]. injection E as <- <-.
  destruct (dataBuffer_Read_rest _ _ _ _ (Hoff b eq_refl) Hm Er) as [Hrest Ho'].
  apply pipe_ok_open; cbn; [done|done|by intros ? [= <-]|].
  rewrite Hacc. simpl. by rewrite Hrest, app_assoc.
Qed.

(** A failing Read finds the pipe broken, or closed and drained. *)
Lemma pipe_Read_failed p w r m p' e :
  pipe_Read p m = (p', Failed e) -> pipe_ok (mkPipeRun p w r) ->
  (breakErr p = Some e /\ p' = p) \/
  (breakErr p = None /\ p_err p = Some e /\ w = r /\ p_b p' = None /\
   unread p' = unread p /\ breakErr p' = None).
Proof.
  intros E (Hoff & _ & Hnn & _ & Hbrk). cbn [r_pipe accepted r_read] in *.
  unfold pipe_Read in E. destruct (breakErr p) eqn:Eb; [injection E as <- <-; by left|].
  destruct Hbrk as [Hu Hacc]. right.
  assert (Hend : from_option rest_of [] (p_b p) = [] -> w = r).
  { intros Hr. by rewrite Hacc, Hr, app_nil_r. }
  destruct (p_b p) as [b|] eqn:Hb.
  - destruct (dataBuffer_Len b >? 0) eqn:El; breflect.
    + unfold dataBuffer_Read in E. destruct (dataBuffer_Len b =? 0) eqn:El2; breflect; [lia|done].
    + assert (rest_of b = []).
      { apply len_0_inv. rewrite len_rest by eauto. unfold pipe_Len in Hnn. rewrite Hb in Hnn. lia. }
      destruct (p_err p); [|done]. injection E as <- <-. split_and!; auto; by destruct (readFn p).
  - destruct (p_err p); [|done]. injection E as <- <-. split_and!; auto; by destruct (readFn p).
Qed.

Lemma pipe_Read_failed_ok p w r m p' e :
  pipe_Read p m = (p', Failed e) -> pipe_ok (mkPipeRun p w r) -> pipe_ok (mkPipeRun p' w r).
Proof.
  intros E Hok. pose proof Hok as (_ & _ & _ & _ & Hbrk). cbn in Hbrk.
  destruct (pipe_Read_failed _ _ _ _ _ _ E Hok) as [[_ ->]|(Hb & _ & -> & Hb' & Hu & Hbr)]; [done|].
  rewrite Hb in Hbrk. destruct Hbrk as [Hu0 _].
  apply pipe_ok_open; [done|congruence| |]; rewrite Hb'; [done|]. symmetry. apply app_nil_r.
Qed.

Lemma closeWithError_ok p w r brk e fn p' :
  closeWithError p brk (Some e) fn = Ret p' -> pipe_ok (mkPipeRun p w r) ->
  pipe_ok (mkPipeRun p' w r).
Proof.
  intros E Hok. pose proof Hok as (Hoff & Hcount & Hnn & Hpre & Hbrk).
  cbn [r_pipe accepted r_read] in *. unfold closeWithError in E. destruct brk.
  - destruct (breakErr p) eqn:Eb; [by injection E as <-|]. injection E as <-.
    destruct Hbrk as [Hu Hacc]. apply pipe_ok_closeDone. unfold pipe_ok, pipe_Len in *.
    cbn in *. destruct (p_b p) as [b|] eqn:Hb; cbn in *; rewrite ?Hb; split_and!; try done; lia.
  - destruct (p_err p); injection E as <-; [done|]. apply pipe_ok_closeDone.
    by apply (pipe_ok_ext p).
Qed.

Lemma pipe_Done_ok p w r : pipe_ok (mkPipeRun p w r) -> pipe_ok (mkPipeRun (pipe_Done p) w r).
Proof.
  unfold pipe_Done. destruct (donec p); [done|]. intros Hok.
  case_if; [apply pipe_ok_closeDone|]; by apply (pipe_ok_ext p).
Qed.

Lemma pipe_step_ok s s' : pipe_step s s' -> pipe_ok s -> pipe_ok s'.
Proof.
  intros []; eauto using setBuffer_ok, pipe_Write_ok, pipe_Write_refused_ok, pipe_Read_ok,
    pipe_Read_failed_ok, closeWithError_ok, pipe_Done_ok.
Qed.

Definition run_zero : pipe_run := mkPipeRun zeroPipe [] [].

Lemma pipe_reachable_ok s : rtc pipe_step run_zero s -> pipe_ok s.
Proof.
  intros Hr. assert (Hz : pipe_ok run_zero) by (by apply pipe_ok_open).
  revert Hz. induction Hr as [|s1 s2 s3 Hs _ IH]; [done|]. intros H1.
  by apply IH, (pipe_step_ok s1).
Qed.

(** C24: in every run of a pipe the reader gets the octets the writer had
    accepted, in order and from the first; until the pipe is broken the rest of
    them is in the buffer; and the octets accepted are always those read plus
    Len, which after a break counts the octets dropped, so that flow control can
    give the window back. *)
Theorem pipe_order s :
  rtc pipe_step run_zero s ->
  r_read s `prefix_of` accepted s /\
  len (accepted s) = len (r_read s) + pipe_Len (r_pipe s) /\
  (breakErr (r_pipe s) = None ->
   accepted s = r_read s ++ from_option rest_of [] (p_b (r_pipe s))).
Proof.
  intros (_ & Hc & _ & Hp & Hb)%pipe_reachable_ok. split; [done|]. split; [done|].
  intros Hn. rewrite Hn in Hb. apply Hb.
Qed.

(** What Read answers in a reachable state: the break error at once; else
    some of the octets that wait, as many as fit; else the error the pipe was
    closed with, which therefore the reader sees only after the last octet; and
    it waits only when there is neither data nor error. *)
Theorem pipe_Read_answers s m :
  rtc pipe_step run_zero s -> 0 <= m ->
  let p := r_pipe s in
  match snd (pipe_Read p m) with
  | Failed e => breakErr p = Some e \/ (p_err p = Some e /\ accepted s = r_read s)
  | Got d => breakErr p = None /\ len d = Z.min m (pipe_Len p) /\ 0 < pipe_Len p
  | Blocked => breakErr p = None /\ p_err p = None /\ accepted s = r_read s
  end.
Proof.
  intros Hr%pipe_reachable_ok Hm p. destruct s as [p0 w r]. cbn in p. subst p.
  destruct (pipe_Read p0 m) as [p' [d|e|]] eqn:E; cbn [snd r_pipe accepted r_read].
  - pose proof Hr as (Hoff & _). cbn in Hoff. unfold pipe_Read in E.
    destruct (breakErr p0); [done|]. split; [done|]. unfold pipe_Len.
    destruct (p_b p0) as [b|]; [|by destruct (p_err p0)].
    destruct (dataBuffer_Len b >? 0) eqn:El; breflect; [|by destruct (p_err p0)].
    unfold dataBuffer_Read in E. destruct (dataBuffer_Len b =? 0) eqn:El2; breflect; [lia|].
    injection E as <- <-. split; [|done]. rewrite <- len_rest in * by eauto.
    unfold rest_of in *. unfold len, ztake in *. rewrite length_take. lia.
  - destruct (pipe_Read_failed _ _ _ _ _ _ E Hr) as [[? _]|(_ & ? & ? & _)]; auto.
  - destruct Hr as (Hoff & _ & Hnn & _ & Hbrk). cbn in *. unfold pipe_Read in E.
    destruct (breakErr p0); [done|]. destruct Hbrk as [Hu Hacc]. split; [done|].
    assert (Hd : pipe_Len p0 = 0 /\ p_err p0 = None).
    { unfold pipe_Len in *. destruct (p_b p0) as [b|]; [|by destruct (p_err p0)].
      destruct (dataBuffer_Len b >? 0) eqn:El; breflect.
      - unfold dataBuffer_Read in E. by destruct (dataBuffer_Len b =? 0).
      - destruct (p_err p0); [done|]. split; [lia|done]. }
    destruct Hd as [Hl ->]. split; [done|]. rewrite Hacc.
    replace (from_option rest_of [] (p_b p0)) with (@nil Z); [apply app_nil_r|].
    symmetry. apply len_0_inv. unfold pipe_Len in Hl.
    destruct (p_b p0) as [b|]; simpl; [|done]. rewrite len_rest; eauto.
Qed.

(** Err does not report the error that was set first, as its comment says: a
    break after a close hides the error the pipe was closed with. *)
Theorem pipe_Err_not_first p e1 e2 :
  p_err p = None -> breakErr p = None ->
  exists p1 p2, CloseWithError p (Some e1) = Ret p1 /\ BreakWithError p1 (Some e2) = Ret p2 /\
    pipe_Err p1 = Some e1 /\ pipe_Err p2 = Some e2.
Proof.
  intros He Hb. unfold CloseWithError, BreakWithError, closeWithError. rewrite He.
  eexists _, _. split; [done|].
  assert (Hc : forall q, breakErr (closeDoneLocked q) = breakErr q /\ p_err (closeDoneLocked q) = p_err q).
  { intros q. unfold closeDoneLocked. by destruct (donec q). }
  rewrite (proj1 (Hc _)). cbn. rewrite Hb. split; [done|]. unfold pipe_Err.
  split; rewrite (proj1 (Hc _)), ?(proj2 (Hc _)); cbn; by rewrite ?Hb.
Qed.

(** ** A sample run: "abc" written, two octets read, then the pipe is closed *)

Definition sample_pipe : pipe :=
  mkPipe (Some (mkDataBuffer (str "abc") 2)) 0 (Some EOF) None None None [].

Lemma sample_pipe_run : rtc pipe_step run_zero (mkPipeRun sample_pipe (str "abc") (str "ab")).
Proof.
  eapply rtc_l; [by apply pstep_buffer|].
  eapply rtc_l; [eapply (pstep_write _ _ _ (str "abc")); reflexivity|].
  eapply rtc_l; [apply (pstep_read _ _ _ 2); [done|reflexivity]|].
  eapply rtc_l; [apply (pstep_close _ _ _ false EOF None); reflexivity|].
  apply rtc_refl.
Qed.

Lemma pipe_order_witness :
  str "ab" `prefix_of` str "abc" /\
  len (str "abc") = len (str "ab") + pipe_Len sample_pipe /\
  (breakErr sample_pipe = None -> str "abc" = str "ab" ++ str "c").
Proof. apply (pipe_order (mkPipeRun sample_pipe (str "abc") (str "ab"))), sample_pipe_run. Defined.

Lemma pipe_Read_answers_witness :
  breakErr sample_pipe = None /\ len (str "c") = Z.min 4 (pipe_Len sample_pipe) /\
  0 < pipe_Len sample_pipe.
Proof.
  apply (pipe_Read_answers (mkPipeRun sample_pipe (str "abc") (str "ab")) 4);
    [apply sample_pipe_run | lia].
Defined.

Lemma pipe_Err_not_first_witness :
  exists p1 p2, CloseWithError zeroPipe (Some EOF) = Ret p1 /\
    BreakWithError p1 (Some errClosedPipeWrite) = Ret p2 /\
    pipe_Err p1 = Some EOF /\ pipe_Err p2 = Some errClosedPipeWrite.
Proof. by apply (pipe_Err_not_first zeroPipe EOF errClosedPipeWrite). Defined.
