(* ===== verification/H2Conn.v ===== *)
(** * HTTP/2: the server connection

    [web/protocol/http2/server.go] and [stream.go]: the serve loop of a
    connection, which owns the streams, their flow-control windows, the write
    scheduler and the shutdown of the connection, and answers the frames of the
    client, the requests of the handlers and the timers one at a time.

    Stream objects outlive their entry in the map of streams (handlers and
    queued frames point to them); a stream identifier is used for one object, so
    it is the object's address.  The order in which the runtime visits a map is
    the parameter [visit]; writing a frame is the interface [ConnWriter].

    Not modelled: the contents of the request context that only the handler
    reads, tracing, logging, deadlines of the connection. *)

From S2P Require Import Prelude Bytes Trailer H2Base H2Frame H2Write H2Sched H2Pipe.

(** What write.go and the buffered writer do for the connection. *)
Class ConnWriter := {
  NW : Type;
  nw_Available : NW -> Z;
  nw_writeFrame : writeFramer -> NW -> outcome (NW * option error)
}.

(** ** Request headers

    The fields of protocol.RequestHeader the connection reads back. *)

Record RequestHeader := mkReqHeader {
  contentLength : Z;
  contentLengthBytes : bytes;
  connectionClose : bool;
  rq_h : list (bytes * bytes);
  rq_trailer : Trailer
}.

Fixpoint setArgBytes (h : list (bytes * bytes)) (k v : bytes) : list (bytes * bytes) :=
  match h with
  | [] => [(k, v)]
  | (k', v') :: h => if bytes_eqb k k' then (k', v) :: h else (k', v') :: setArgBytes h k v
  end.

Fixpoint peekArgStr (h : list (bytes * bytes)) (k : bytes) : bytes :=
  match h with
  | [] => []
  | (k', v) :: h => if bytes_eqb k' k then v else peekArgStr h k
  end.

Definition delAllArgs (h : list (bytes * bytes)) (k : bytes) : list (bytes * bytes) :=
  filter (fun kv => fst kv <> k) h.

(** RequestHeader.SetCanonical with setSpecialHeader.  What it does to the content type, the
    cookies, the host and the user agent is not read back.  A Trailer field names the
    trailers; SetTrailers panics on an empty name. *)
Definition SetCanonical (h : RequestHeader) (key value : bytes) : outcome RequestHeader :=
  let named s := CaseInsensitiveCompare (str s) key in
  if named "Content-Length" then
    Ret match ParseContentLength value with
        | Some n => mkReqHeader n value (connectionClose h) (rq_h h) (rq_trailer h)
        | None => h
        end
  else if named "Connection" then
    Ret (if bytes_eqb (str "close") value
         then mkReqHeader (contentLength h) (contentLengthBytes h) true (rq_h h) (rq_trailer h)
         else mkReqHeader (contentLength h) (contentLengthBytes h) false
                (setArgBytes (if connectionClose h then delAllArgs (rq_h h) (str "Connection") else rq_h h) key value) (rq_trailer h))
  else if named "Trailer" then
    run (t, _) <- SetTrailers (rq_trailer h) value;
    Ret (mkReqHeader (contentLength h) (contentLengthBytes h) (connectionClose h) (rq_h h) t)
  else if named "Content-Type" || named "Cookie" || named "Transfer-Encoding" || named "Host" || named "User-Agent"
  then Ret h
  else Ret (mkReqHeader (contentLength h) (contentLengthBytes h) (connectionClose h) (setArgBytes (rq_h h) key value) (rq_trailer h)).

(** The fields of a request, one after the other. *)
Fixpoint set_fields (h : RequestHeader) (fields : list (bytes * bytes)) : outcome RequestHeader :=
  match fields with
  | [] => Ret h
  | (key, value) :: fields => run h <- SetCanonical h key value; set_fields h fields
  end.

(** RequestHeader.Peek of a canonical key other than the special ones. *)
Definition Peek (h : RequestHeader) (key : bytes) : bytes :=
  if bytes_eqb key (str "Connection") && connectionClose h then str "close" else peekArgStr (rq_h h) key.

(** http.CanonicalHeaderKey, of the keys readMetaFrame lets through: letters
    after the start and after a hyphen become upper case, others lower case. *)
Fixpoint canonical_from (upper : bool) (k : bytes) : bytes :=
  match k with
  | [] => []
  | c :: k =>
      let c := if upper && between 97 c 122 then c - 32
               else if negb upper && between 65 c 90 then c + 32 else c in
      c :: canonical_from (c =? 45) k
  end.

Definition canonicalHeader (v : bytes) : bytes := canonical_from true v.

Definition connHeaders : list bytes :=
  map str ["Connection"; "Keep-Alive"; "Proxy-Connection"; "Transfer-Encoding"; "Upgrade"]%string.

(** checkValidHTTP2RequestHeaders: whether it returns nil. *)
Definition checkValidHTTP2RequestHeaders (h : RequestHeader) : bool :=
  forallb (fun k => len (Peek h k) =? 0) connHeaders &&
  (let te := Peek h (str "Te") in bytes_eqb te [] || bytes_eqb te (str "trailers")).

(** ** The state of a connection *)

(** The handler a stream is given. *)
Inductive handlerFunc : Type := Serve | handleHeaderListTooLong | new400Handler.

Record streamObj := mkStream {
  st_body : option pipe;            (* nil without a request body *)
  st_cw : bool;                     (* the channel is closed *)
  bodyBytes : Z;
  declBodyBytes : Z;
  st_flow : nat;
  st_inflow : nat;
  st_state : streamState;
  resetQueued : bool;
  gotTrailerHeader : bool;
  wroteHeaders : bool;
  trailer : list (bytes * bytes);
  handler : option handlerFunc
}.

(** Streams, counted and numbered. *)
Record idState := mkIds {
  clientMaxStreams : Z;
  advMaxStreams : Z;
  curClientStreams : Z;
  curPushedStreams : Z;
  maxClientStreamID : Z;
  maxPushPromiseID : Z
}.

(** What the client has told us. *)
Record peerState := mkPeer {
  pushEnabled : bool;
  sawFirstSettings : bool;
  unackedSettings : Z;
  initialStreamSendWindowSize : Z;
  sc_maxFrameSize : Z;
  headerTableSize : Z;
  peerMaxHeaderListSize : Z
}.

(** The writing of frames; [inFlight] is the request writeFrameAsync has. *)
Record writeState := mkWrite {
  writingFrame : bool;
  writingFrameAsync : bool;
  needsFrameFlush : bool;
  inFrameScheduleLoop : bool;
  needToSendSettingsAck : bool;
  queuedControlFrames : Z;
  inFlight : option FrameWriteRequest
}.

(** Shutdown; the timers by whether they are set and running. *)
Record awayState := mkAway {
  inGoAway : bool;
  needToSendGoAway : bool;
  goAwayCode : Z;
  shutdownTimer : bool;
  idleTimer : option bool;
  connClosed : bool
}.

(** The connection window for sending is the flow 0, that for receiving the flow
    1; [ticks] counts the choices the runtime has made. *)
Record serverConn `{ConnWriter} := mkConn {
  ids : idState;
  peer : peerState;
  wst : writeState;
  away : awayState;
  sc_flows : flows;
  sched : randomWriteScheduler;
  objs : gmap Z streamObj;
  streams : gset Z;
  chans : gmap nat (option (option error));
  net : NW;
  ticks : nat
}.

Record Config := mkConfig {
  MaxUploadBufferPerConnection : Z;
  MaxUploadBufferPerStream : Z;
  MaxReadFrameSize : Z;
  MaxConcurrentStreams : Z;
  IdleTimeout : bool                 (* not zero *)
}.

Definition initialConnRecvWindowSize (c : Config) : Z :=
  if MaxUploadBufferPerConnection c >=? initialWindowSize then MaxUploadBufferPerConnection c else 2 ^ 20.

Definition initialStreamRecvWindowSize (c : Config) : Z :=
  if MaxUploadBufferPerStream c >? 0 then MaxUploadBufferPerStream c else 2 ^ 20.

Definition maxReadFrameSize (c : Config) : Z :=
  let v := MaxReadFrameSize c in
  if (v >=? minMaxFrameSize) && (v <=? maxFrameSize) then v else defaultMaxReadFrameSize.

Definition maxConcurrentStreams (c : Config) : Z :=
  if MaxConcurrentStreams c >? 0 then MaxConcurrentStreams c else 250.

Definition maxQueuedControlFrames : Z := 10000.

Definition sc_maxHeaderListSize : Z := u32 (2 ^ 20 + 10 * 32).

(** A frame as ReadFrame returns it, with the pointers followed. *)
Inductive inFrame : Type :=
| InFrame (f : Frame)
| InMeta (h : FrameHeader) (prio : PriorityParam) (fields : list HeaderField) (truncated : bool).

Definition in_header (f : inFrame) : FrameHeader :=
  match f with InFrame f => Header f | InMeta h _ _ _ => h end.

Section Conn.
Context `{HPACK, ConnWriter}.
Variable cfg : Config.
(** The order in which the runtime visits the keys of a map, by choice. *)
Variable visit : nat -> list Z -> list Z.
(** h1ServerKeepAlivesDisabled, which may change at any time. *)
Variable h1ServerKeepAlivesDisabled : nat -> bool.

Implicit Types sc : serverConn.

(** *** Assignments *)

Definition on_ids (f : idState -> idState) sc : serverConn :=
  mkConn _ (f (ids sc)) (peer sc) (wst sc) (away sc) (sc_flows sc) (sched sc) (objs sc) (streams sc) (chans sc)
    (net sc) (ticks sc).
Definition on_peer (f : peerState -> peerState) sc : serverConn :=
  mkConn _ (ids sc) (f (peer sc)) (wst sc) (away sc) (sc_flows sc) (sched sc) (objs sc) (streams sc) (chans sc)
    (net sc) (ticks sc).
Definition on_wst (f : writeState -> writeState) sc : serverConn :=
  mkConn _ (ids sc) (peer sc) (f (wst sc)) (away sc) (sc_flows sc) (sched sc) (objs sc) (streams sc) (chans sc)
    (net sc) (ticks sc).
Definition on_away (f : awayState -> awayState) sc : serverConn :=
  mkConn _ (ids sc) (peer sc) (wst sc) (f (away sc)) (sc_flows sc) (sched sc) (objs sc) (streams sc) (chans sc)
    (net sc) (ticks sc).
Definition set_flows (v : flows) sc : serverConn :=
  mkConn _ (ids sc) (peer sc) (wst sc) (away sc) v (sched sc) (objs sc) (streams sc) (chans sc) (net sc) (ticks sc).
Definition set_sched (v : randomWriteScheduler) sc : serverConn :=
  mkConn _ (ids sc) (peer sc) (wst sc) (away sc) (sc_flows sc) v (objs sc) (streams sc) (chans sc) (net sc) (ticks sc).
Definition set_objs (v : gmap Z streamObj) sc : serverConn :=
  mkConn _ (ids sc) (peer sc) (wst sc) (away sc) (sc_flows sc) (sched sc) v (streams sc) (chans sc) (net sc) (ticks sc).
Definition set_streams (v : gset Z) sc : serverConn :=
  mkConn _ (ids sc) (peer sc) (wst sc) (away sc) (sc_flows sc) (sched sc) (objs sc) v (chans sc) (net sc) (ticks sc).
Definition set_chans (v : gmap nat (option (option error))) sc : serverConn :=
  mkConn _ (ids sc) (peer sc) (wst sc) (away sc) (sc_flows sc) (sched sc) (objs sc) (streams sc) v (net sc) (ticks sc).
Definition set_net (v : NW) sc : serverConn :=
  mkConn _ (ids sc) (peer sc) (wst sc) (away sc) (sc_flows sc) (sched sc) (objs sc) (streams sc) (chans sc) v (ticks sc).
Definition tick sc : serverConn :=
  mkConn _ (ids sc) (peer sc) (wst sc) (away sc) (sc_flows sc) (sched sc) (objs sc) (streams sc) (chans sc) (net sc)
    (S (ticks sc)).

Definition w_writing (b b' : bool) (w : writeState) : writeState :=
  mkWrite b b' (needsFrameFlush w) (inFrameScheduleLoop w) (needToSendSettingsAck w) (queuedControlFrames w) (inFlight w).
Definition w_flush (b : bool) (w : writeState) : writeState :=
  mkWrite (writingFrame w) (writingFrameAsync w) b (inFrameScheduleLoop w) (needToSendSettingsAck w)
    (queuedControlFrames w) (inFlight w).
Definition w_loop (b : bool) (w : writeState) : writeState :=
  mkWrite (writingFrame w) (writingFrameAsync w) (needsFrameFlush w) b (needToSendSettingsAck w)
    (queuedControlFrames w) (inFlight w).
Definition w_ack (b : bool) (w : writeState) : writeState :=
  mkWrite (writingFrame w) (writingFrameAsync w) (needsFrameFlush w) (inFrameScheduleLoop w) b
    (queuedControlFrames w) (inFlight w).
Definition w_control (n : Z) (w : writeState) : writeState :=
  mkWrite (writingFrame w) (writingFrameAsync w) (needsFrameFlush w) (inFrameScheduleLoop w)
    (needToSendSettingsAck w) n (inFlight w).
Definition w_flight (o : option FrameWriteRequest) (w : writeState) : writeState :=
  mkWrite (writingFrame w) (writingFrameAsync w) (needsFrameFlush w) (inFrameScheduleLoop w)
    (needToSendSettingsAck w) (queuedControlFrames w) o.

Definition a_goaway (b need : bool) (code : Z) (a : awayState) : awayState :=
  mkAway b need code (shutdownTimer a) (idleTimer a) (connClosed a).
Definition a_idle (o : option bool) (a : awayState) : awayState :=
  mkAway (inGoAway a) (needToSendGoAway a) (goAwayCode a) (shutdownTimer a) o (connClosed a).
Definition a_timer (a : awayState) : awayState :=
  mkAway (inGoAway a) (needToSendGoAway a) (goAwayCode a) true (idleTimer a) (connClosed a).
Definition a_close (a : awayState) : awayState :=
  mkAway (inGoAway a) (needToSendGoAway a) (goAwayCode a) (shutdownTimer a) (idleTimer a) true.

Definition s_state (v : streamState) (o : streamObj) : streamObj :=
  mkStream (st_body o) (st_cw o) (bodyBytes o) (declBodyBytes o) (st_flow o) (st_inflow o) v (resetQueued o)
    (gotTrailerHeader o) (wroteHeaders o) (trailer o) (handler o).
Definition s_body (v : option pipe) (o : streamObj) : streamObj :=
  mkStream v (st_cw o) (bodyBytes o) (declBodyBytes o) (st_flow o) (st_inflow o) (st_state o) (resetQueued o)
    (gotTrailerHeader o) (wroteHeaders o) (trailer o) (handler o).
Definition s_bytes (v : Z) (o : streamObj) : streamObj :=
  mkStream (st_body o) (st_cw o) v (declBodyBytes o) (st_flow o) (st_inflow o) (st_state o) (resetQueued o)
    (gotTrailerHeader o) (wroteHeaders o) (trailer o) (handler o).
Definition s_decl (v : Z) (o : streamObj) : streamObj :=
  mkStream (st_body o) (st_cw o) (bodyBytes o) v (st_flow o) (st_inflow o) (st_state o) (resetQueued o)
    (gotTrailerHeader o) (wroteHeaders o) (trailer o) (handler o).
Definition s_cw (o : streamObj) : streamObj :=
  mkStream (st_body o) true (bodyBytes o) (declBodyBytes o) (st_flow o) (st_inflow o) (st_state o) (resetQueued o)
    (gotTrailerHeader o) (wroteHeaders o) (trailer o) (handler o).
Definition s_reset (o : streamObj) : streamObj :=
  mkStream (st_body o) (st_cw o) (bodyBytes o) (declBodyBytes o) (st_flow o) (st_inflow o) (st_state o) true
    (gotTrailerHeader o) (wroteHeaders o) (trailer o) (handler o).
Definition s_wrote (o : streamObj) : streamObj :=
  mkStream (st_body o) (st_cw o) (bodyBytes o) (declBodyBytes o) (st_flow o) (st_inflow o) (st_state o)
    (resetQueued o) (gotTrailerHeader o) true (trailer o) (handler o).
Definition s_trailer (got : bool) (t : list (bytes * bytes)) (o : streamObj) : streamObj :=
  mkStream (st_body o) (st_cw o) (bodyBytes o) (declBodyBytes o) (st_flow o) (st_inflow o) (st_state o)
    (resetQueued o) got (wroteHeaders o) t (handler o).
Definition s_handler (v : handlerFunc) (o : streamObj) : streamObj :=
  mkStream (st_body o) (st_cw o) (bodyBytes o) (declBodyBytes o) (st_flow o) (st_inflow o) (st_state o)
    (resetQueued o) (gotTrailerHeader o) (wroteHeaders o) (trailer o) (Some v).

Definition on_obj (id : Z) (f : streamObj -> streamObj) sc : serverConn := set_objs (alter f id (objs sc)) sc.

(** [st], a pointer to the stream object. *)
Definition obj sc (id : Z) : outcome streamObj := deref (objs sc !! id).

Definition curOpenStreams sc : Z := u32 (curClientStreams (ids sc) + curPushedStreams (ids sc)).

(** isPushed. *)
Definition isPushed (id : Z) : bool := Z.even id.

(** serverConn.state: the state of a stream, and whether it has an object. *)
Definition conn_state sc (id : Z) : outcome (streamState * bool) :=
  if bool_decide (id ∈ streams sc) then run o <- obj sc id; Ret (st_state o, true)
  else if Z.odd id then
    if id <=? maxClientStreamID (ids sc) then Ret (stateClosed, false) else Ret (stateIdle, false)
  else
    if id <=? maxPushPromiseID (ids sc) then Ret (stateClosed, false) else Ret (stateIdle, false).

(** The pointer a frame write request carries. *)
Definition wstream_of sc (id : Z) : outcome wstream := run o <- obj sc id; Ret (mkWStream id (st_flow o)).

(** *** Writing frames

    [again] is scheduleFrameWrite, called from the functions it calls itself. *)

Section Schedule.
Variable again : serverConn -> outcome serverConn.

(** Whether the frame is to be dropped; notes that headers are being written. *)
Definition ignore_write sc (wr : FrameWriteRequest) : outcome (serverConn * bool) :=
  run closed <-
    (if WR_StreamID wr =? 0 then Ret false
     else
       run (state, _) <- conn_state sc (WR_StreamID wr);
       Ret (bool_decide (state = stateClosed) &&
            negb (match H2Sched.write wr with Some (writeStreamError _ _) => true | _ => false end)));
  match H2Sched.write wr with
  | Some (writeResHeaders_ _) =>
      run st <- deref (stream wr);
      run _ <- obj sc (ws_id st);
      Ret (on_obj (ws_id st) s_wrote sc, closed)
  | Some (write100ContinueHeadersFrame _) =>
      run st <- deref (stream wr);
      run o <- obj sc (ws_id st);
      if wroteHeaders o then
        match H2Sched.done wr with Some _ => Panic | None => Ret (sc, true) end
      else Ret (sc, closed)
  | _ => Ret (sc, closed)
  end.

(** [sc.queuedControlFrames++] for control frames. *)
Definition count_control (wr : FrameWriteRequest) sc : serverConn :=
  if isControl wr then
    let n := i64 (queuedControlFrames (wst sc) + 1) in
    let sc := on_wst (w_control n) sc in
    if n <? 0 then on_away a_close sc else sc
  else sc.

Definition conn_writeFrame sc (wr : FrameWriteRequest) : outcome serverConn :=
  run (sc, ignoreWrite) <- ignore_write sc wr;
  run sc <-
    (if ignoreWrite : bool then Ret sc
     else
       let sc := count_control wr sc in
       run ws <- Push (sched sc) wr;
       Ret (set_sched ws sc));
  again sc.

(** goAway. *)
Definition goAway sc (code : Z) : outcome serverConn :=
  let a := away sc in
  if inGoAway a then
    if goAwayCode a =? ErrCodeNo then Ret (on_away (a_goaway true (needToSendGoAway a) code) sc) else Ret sc
  else again (on_away (a_goaway true true code) sc).

Definition startGracefulShutdownInternal sc : outcome serverConn := goAway sc ErrCodeNo.

(** resetStream of a StreamError. *)
Definition resetStream sc (id code : Z) : outcome serverConn :=
  run sc <- conn_writeFrame sc (mkWR (Some (writeStreamError id code)) None None);
  if bool_decide (id ∈ streams sc) then run _ <- obj sc id; Ret (on_obj id s_reset sc) else Ret sc.

(** sendWindowUpdate32; [None] is the connection. *)
Definition sendWindowUpdate32 sc (st : option Z) (n : Z) : outcome serverConn :=
  if n =? 0 then Ret sc
  else if n <? 0 then Panic
  else
    run p <- (match st with None => Ret None | Some id => run p <- wstream_of sc id; Ret (Some p) end);
    run sc <- conn_writeFrame sc (mkWR (Some (writeWindowUpdate (default 0 st) (u32 n))) p None);
    run a <- (match st with None => Ret 1%nat | Some id => run o <- obj sc id; Ret (st_inflow o) end);
    run (fl, ok) <- flow_add (sc_flows sc) a n;
    if ok : bool then Ret (set_flows fl sc) else Panic.

Definition maxUint31 : Z := 2 ^ 31 - 1.

(** Each round takes [maxUint31] off [n]. *)
Fixpoint window_loop (rounds : nat) sc (st : option Z) (n : Z) : outcome serverConn :=
  if n >=? maxUint31 then
    match rounds with
    | O => OutOfFuel
    | S rounds => run sc <- sendWindowUpdate32 sc st maxUint31; window_loop rounds sc st (n - maxUint31)
    end
  else sendWindowUpdate32 sc st (i32 n).

Definition sendWindowUpdate sc (st : option Z) (n : Z) : outcome serverConn :=
  window_loop (Z.to_nat (n / maxUint31)) sc st n.

(** [if len(sc.streams) == 0] of closeStream. *)
Definition last_closed sc : outcome serverConn :=
  if bool_decide (streams sc = ∅) then
    run sc <- (if IdleTimeout cfg then
                 match idleTimer (away sc) with
                 | None => Panic
                 | Some _ => Ret (on_away (a_idle (Some true)) sc)
                 end
               else Ret sc);
    if h1ServerKeepAlivesDisabled (ticks sc) then startGracefulShutdownInternal (tick sc) else Ret (tick sc)
  else Ret sc.

Definition closeStream sc (id : Z) (err : error) : outcome serverConn :=
  run o <- obj sc id;
  if bool_decide (st_state o = stateIdle) || bool_decide (st_state o = stateClosed) then Panic
  else
    let sc := on_obj id (s_state stateClosed) sc in
    let sc := on_ids (fun i =>
      if isPushed id
      then mkIds (clientMaxStreams i) (advMaxStreams i) (curClientStreams i) (u32 (curPushedStreams i - 1))
             (maxClientStreamID i) (maxPushPromiseID i)
      else mkIds (clientMaxStreams i) (advMaxStreams i) (u32 (curClientStreams i - 1)) (curPushedStreams i)
             (maxClientStreamID i) (maxPushPromiseID i)) sc in
    let sc := set_streams (streams sc ∖ {[id]}) sc in
    run sc <- last_closed sc;
    run sc <-
      (match st_body o with
       | None => Ret sc
       | Some p =>
           run sc <- sendWindowUpdate sc None (pipe_Len p);
           run o <- obj sc id;
           run p <- deref (st_body o);
           run p <- CloseWithError p (Some err);
           Ret (on_obj id (s_body (Some p)) sc)
       end);
    run o <- obj sc id;
    if st_cw o then Panic
    else
      let sc := on_obj id s_cw sc in
      Ret (set_sched (CloseStream (sched sc) id) sc).

(** wroteFrame, for a request and the error of writing it. *)
Definition errHandlerPanicked : error := errReason (str "http2: handler panicked").

Definition wroteFrame sc (wr : FrameWriteRequest) (err : option error) : outcome serverConn :=
  if negb (writingFrame (wst sc)) then Panic
  else
    let sc := on_wst (w_writing false false) sc in
    run ends <- writeEndsStream (H2Sched.write wr);
    run sc <-
      (if ends : bool then
         run st <- deref (stream wr);
         run o <- obj sc (ws_id st);
         match st_state o with
         | stateOpen => resetStream (on_obj (ws_id st) (s_state stateHalfClosedLocal) sc) (ws_id st) ErrCodeNo
         | stateHalfClosedRemote => closeStream sc (ws_id st) errHandlerComplete
         | _ => Ret sc
         end
       else
         match H2Sched.write wr with
         | Some (writeStreamError id code) =>
             if bool_decide (id ∈ streams sc) then closeStream sc id (streamError id code) else Ret sc
         | Some (handlerPanicRST _) =>
             run st <- deref (stream wr); closeStream sc (ws_id st) errHandlerPanicked
         | _ => Ret sc
         end);
    run (ch, _) <- replyToWriter (chans sc) wr err;
    again (set_chans ch sc).

(** newStream. *)
Definition newStream sc (id : Z) (state : streamState) : outcome serverConn :=
  if id =? 0 then Panic
  else
    let a := length (sc_flows sc) in
    let fl := sc_flows sc ++ [mkFlow 0 (Some 0%nat); mkFlow 0 (Some 1%nat)] in
    run (fl, _) <- flow_add fl a (initialStreamSendWindowSize (peer sc));
    run (fl, _) <- flow_add fl (S a) (initialStreamRecvWindowSize cfg);
    let st := mkStream None false 0 0 a (S a) state false false false [] None in
    let sc := set_objs (<[id := st]> (objs sc)) (set_flows fl sc) in
    let sc := set_streams (streams sc ∪ {[id]}) sc in
    let sc := set_sched (OpenStream (sched sc) id) sc in
    Ret (on_ids (fun i =>
      if isPushed id
      then mkIds (clientMaxStreams i) (advMaxStreams i) (curClientStreams i) (u32 (curPushedStreams i + 1))
             (maxClientStreamID i) (maxPushPromiseID i)
      else mkIds (clientMaxStreams i) (advMaxStreams i) (u32 (curClientStreams i + 1)) (curPushedStreams i)
             (maxClientStreamID i) (maxPushPromiseID i)) sc).

Definition ErrNotSupported : error := errReason (str "feature not supported").
Definition ErrPushLimitReached : error :=
  errReason (str "http2: push would exceed peer's SETTINGS_MAX_CONCURRENT_STREAMS").

(** The closure allocatePromisedID of startPush. *)
Definition allocatePromisedID sc : outcome (serverConn * result error Z) :=
  if negb (pushEnabled (peer sc)) then Ret (sc, Err ErrNotSupported)
  else if u32 (curPushedStreams (ids sc) + 1) >? clientMaxStreams (ids sc) then Ret (sc, Err ErrPushLimitReached)
  else if u32 (maxPushPromiseID (ids sc) + 2) >=? 2 ^ 31 then
    run sc <- startGracefulShutdownInternal sc; Ret (sc, Err ErrPushLimitReached)
  else
    let promisedID := u32 (maxPushPromiseID (ids sc) + 2) in
    let sc := on_ids (fun i => mkIds (clientMaxStreams i) (advMaxStreams i) (curClientStreams i)
                                 (curPushedStreams i) (maxClientStreamID i) promisedID) sc in
    run sc <- newStream sc promisedID stateHalfClosedRemote;
    Ret (on_obj promisedID (s_handler Serve) sc, Ok promisedID).

(** The check of startFrameWrite: frames a closed stream cannot send. *)
Definition may_write sc (wr : FrameWriteRequest) : outcome unit :=
  match stream wr with
  | None => Ret tt
  | Some st =>
      run o <- obj sc (ws_id st);
      match st_state o with
      | stateHalfClosedLocal =>
          match H2Sched.write wr with
          | Some (writeStreamError _ _) | Some (handlerPanicRST _) | Some (writeWindowUpdate _ _) => Ret tt
          | _ => Panic
          end
      | stateClosed => Panic
      | _ => Ret tt
      end
  end.

(** The rest of startFrameWrite. *)
Definition begin_write sc (wr : FrameWriteRequest) : outcome serverConn :=
  let sc := on_wst (w_flush true) (on_wst (w_writing true (writingFrameAsync (wst sc))) sc) in
  run w <- deref (H2Sched.write wr);
  if staysWithinBuffer w (nw_Available (net sc)) then
    let sc := on_wst (w_writing true false) sc in
    run (n, err) <- nw_writeFrame w (net sc);
    wroteFrame (set_net n sc) wr err
  else Ret (on_wst (w_flight (Some wr)) (on_wst (w_writing true true) sc)).

Definition startFrameWrite sc (wr : FrameWriteRequest) : outcome serverConn :=
  if writingFrame (wst sc) then Panic
  else
    run _ <- may_write sc wr;
    match H2Sched.write wr with
    | Some (writePushPromise_ wpp) =>
        run (sc, r) <- allocatePromisedID sc;
        match r with
        | Err e =>
            let sc := on_wst (w_writing (writingFrame (wst sc)) false) sc in
            run (ch, _) <- replyToWriter (chans sc) wr (Some e);
            Ret (set_chans ch sc)
        | Ok id =>
            begin_write sc (mkWR (Some (writePushPromise_ (mkWritePushPromise (wp_streamID wpp) (wp_method wpp)
              (wp_scheme wpp) (wp_host wpp) (wp_requestURI wpp) id))) (stream wr) (H2Sched.done wr))
        end
    | _ => begin_write sc wr
    end.

(** One round of the loop of scheduleFrameWrite: [inl] goes on, [inr] breaks. *)
Definition schedule_round sc : outcome (serverConn + serverConn) :=
  let a := away sc in
  if needToSendGoAway a then
    let sc := on_away (a_goaway (inGoAway a) false (goAwayCode a)) sc in
    run sc <- startFrameWrite sc
      (mkWR (Some (writeGoAway (maxClientStreamID (ids sc)) (goAwayCode a))) None None);
    Ret (inl sc)
  else if needToSendSettingsAck (wst sc) then
    run sc <- startFrameWrite (on_wst (w_ack false) sc) (mkWR (Some writeSettingsAck) None None);
    Ret (inl sc)
  else
    run (sc, popped) <-
      (if negb (inGoAway a) || (goAwayCode a =? ErrCodeNo) then
         run (fl, ws, res) <- Pop (sc_flows sc) (sc_maxFrameSize (peer sc)) (sched sc)
                                (visit (ticks sc) (elements (dom (sq (sched sc)))));
         Ret (tick (set_sched ws (set_flows fl sc)), res)
       else Ret (sc, None));
    match popped with
    | Some wr =>
        let sc := if isControl wr
                  then on_wst (w_control (i64 (queuedControlFrames (wst sc) - 1))) sc else sc in
        run sc <- startFrameWrite sc wr;
        Ret (inl sc)
    | None =>
        if needsFrameFlush (wst sc) then
          run sc <- startFrameWrite sc (mkWR (Some flushFrameWriter) None None);
          Ret (inl (on_wst (w_flush false) sc))
        else Ret (inr sc)
    end.
End Schedule.

(** scheduleFrameWrite around its loop. *)
Definition schedule_with (loop : serverConn -> outcome serverConn) sc : outcome serverConn :=
  if writingFrame (wst sc) || inFrameScheduleLoop (wst sc) then Ret sc
  else
    run sc <- loop (on_wst (w_loop true) sc);
    Ret (on_wst (w_loop false) sc).

Fixpoint schedule_loop (fuel : nat) sc : outcome serverConn :=
  match fuel with
  | O => OutOfFuel
  | S fuel =>
      if writingFrameAsync (wst sc) then Ret sc
      else
        run next <- schedule_round (schedule_with (schedule_loop fuel)) sc;
        match next with
        | inl sc => schedule_loop fuel sc
        | inr sc => Ret sc
        end
  end.

(** The work a queued request can still make: itself, the octets of its data, a
    RST_STREAM after the end of a stream and a WINDOW_UPDATE after a RST_STREAM. *)
Definition request_work (wr : FrameWriteRequest) : nat :=
  match H2Sched.write wr with
  | Some (writeData _ p es) => (1 + length p + (if es then 2 else 0))%nat
  | Some (writeResHeaders_ _) => 3
  | Some (writeStreamError _ _) | Some (handlerPanicRST _) => 2
  | _ => 1
  end.

Definition queue_work (q : list FrameWriteRequest) : nat := sum_list (map request_work q).

Definition sched_work (ws : randomWriteScheduler) : nat :=
  (queue_work (zero ws) + sum_list (map queue_work (queues ws)))%nat.

Definition schedule_fuel sc : nat := (sched_work (sched sc) + 3)%nat.

Definition scheduleFrameWrite sc : outcome serverConn := schedule_with (schedule_loop (schedule_fuel sc)) sc.

(** *** Frames from the client

    The results are the new state and the error, [None] being nil. *)

Abbreviation reply := (outcome (serverConn * option error)).

Definition nothing (o : outcome serverConn) : reply := run sc <- o; Ret (sc, None).

Definition processPing sc (h : FrameHeader) (data : bytes) : reply :=
  if IsAck h then Ret (sc, None)
  else if negb (StreamID h =? 0) then Ret (sc, Some (ConnectionError ErrCodeProtocol))
  else if inGoAway (away sc) && negb (goAwayCode (away sc) =? ErrCodeNo) then Ret (sc, None)
  else nothing (conn_writeFrame scheduleFrameWrite sc (mkWR (Some (writePingAck data)) None None)).

Definition processWindowUpdate sc (h : FrameHeader) (increment : Z) : reply :=
  if negb (StreamID h =? 0) then
    run (state, found) <- conn_state sc (StreamID h);
    if bool_decide (state = stateIdle) then Ret (sc, Some (ConnectionError ErrCodeProtocol))
    else if negb found then Ret (sc, None)
    else
      run o <- obj sc (StreamID h);
      run (fl, ok) <- flow_add (sc_flows sc) (st_flow o) (i32 increment);
      if ok : bool then nothing (scheduleFrameWrite (set_flows fl sc))
      else Ret (sc, Some (streamError (StreamID h) ErrCodeFlowControl))
  else
    run (fl, ok) <- flow_add (sc_flows sc) 0 (i32 increment);
    if ok : bool then nothing (scheduleFrameWrite (set_flows fl sc)) else Ret (sc, Some goAwayFlowError).

Definition processResetStream sc (h : FrameHeader) (code : Z) : reply :=
  run (state, found) <- conn_state sc (StreamID h);
  if bool_decide (state = stateIdle) then Ret (sc, Some (ConnectionError ErrCodeProtocol))
  else if found : bool
  then nothing (closeStream scheduleFrameWrite sc (StreamID h) (streamError (StreamID h) code))
  else Ret (sc, None).

(** The loop over the streams of processSettingInitialWindowSize. *)
Fixpoint grow_windows sc (growth : Z) (order : list Z) : reply :=
  match order with
  | [] => Ret (sc, None)
  | id :: order =>
      run o <- obj sc id;
      run (fl, ok) <- flow_add (sc_flows sc) (st_flow o) growth;
      if ok : bool then grow_windows (set_flows fl sc) growth order
      else Ret (sc, Some (ConnectionError ErrCodeFlowControl))
  end.

Definition p_window (v : Z) (p : peerState) : peerState :=
  mkPeer (pushEnabled p) (sawFirstSettings p) (unackedSettings p) v (sc_maxFrameSize p) (headerTableSize p)
    (peerMaxHeaderListSize p).
Definition p_push (v : bool) (p : peerState) : peerState :=
  mkPeer v (sawFirstSettings p) (unackedSettings p) (initialStreamSendWindowSize p) (sc_maxFrameSize p)
    (headerTableSize p) (peerMaxHeaderListSize p).
Definition p_saw (p : peerState) : peerState :=
  mkPeer (pushEnabled p) true (unackedSettings p) (initialStreamSendWindowSize p) (sc_maxFrameSize p)
    (headerTableSize p) (peerMaxHeaderListSize p).
Definition p_unacked (v : Z) (p : peerState) : peerState :=
  mkPeer (pushEnabled p) (sawFirstSettings p) v (initialStreamSendWindowSize p) (sc_maxFrameSize p)
    (headerTableSize p) (peerMaxHeaderListSize p).
Definition p_frame (v : Z) (p : peerState) : peerState :=
  mkPeer (pushEnabled p) (sawFirstSettings p) (unackedSettings p) (initialStreamSendWindowSize p) v
    (headerTableSize p) (peerMaxHeaderListSize p).
Definition p_table (v : Z) (p : peerState) : peerState :=
  mkPeer (pushEnabled p) (sawFirstSettings p) (unackedSettings p) (initialStreamSendWindowSize p)
    (sc_maxFrameSize p) v (peerMaxHeaderListSize p).
Definition p_list (v : Z) (p : peerState) : peerState :=
  mkPeer (pushEnabled p) (sawFirstSettings p) (unackedSettings p) (initialStreamSendWindowSize p)
    (sc_maxFrameSize p) (headerTableSize p) v.

Definition processSettingInitialWindowSize sc (val : Z) : reply :=
  let growth := i32 (i32 val - initialStreamSendWindowSize (peer sc)) in
  grow_windows (tick (on_peer (p_window (i32 val)) sc)) growth (visit (ticks sc) (elements (streams sc))).

Definition processSetting (s : Setting) sc : reply :=
  match Setting_Valid s with
  | Some e => Ret (sc, Some e)
  | None =>
      if ID s =? SettingHeaderTableSize then Ret (on_peer (p_table (Val s)) sc, None)
      else if ID s =? SettingEnablePush then Ret (on_peer (p_push (negb (Val s =? 0))) sc, None)
      else if ID s =? SettingMaxConcurrentStreams then
        Ret (on_ids (fun i => mkIds (Val s) (advMaxStreams i) (curClientStreams i) (curPushedStreams i)
                                (maxClientStreamID i) (maxPushPromiseID i)) sc, None)
      else if ID s =? SettingInitialWindowSize then processSettingInitialWindowSize sc (Val s)
      else if ID s =? SettingMaxFrameSize then Ret (on_peer (p_frame (i32 (Val s))) sc, None)
      else if ID s =? SettingMaxHeaderListSize then Ret (on_peer (p_list (Val s)) sc, None)
      else Ret (sc, None)
  end.

(** ForeachSetting(sc.processSetting). *)
Fixpoint each_setting sc (ss : list Setting) : reply :=
  match ss with
  | [] => Ret (sc, None)
  | s :: ss =>
      run (sc, err) <- processSetting s sc;
      match err with
      | Some e => Ret (sc, Some e)
      | None => each_setting sc ss
      end
  end.

Definition settings_of (p : bytes) : list Setting :=
  map (fun i => SettingsFrame_Setting p (Z.of_nat i)) (seq 0 (Z.to_nat (NumSettings p))).

Definition processSettings sc (h : FrameHeader) (p : bytes) : reply :=
  if IsAck h then
    let n := unackedSettings (peer sc) - 1 in
    let sc := on_peer (p_unacked n) sc in
    Ret (sc, if n <? 0 then Some (ConnectionError ErrCodeProtocol) else None)
  else if (NumSettings p >? 100) || HasDuplicates p then Ret (sc, Some (ConnectionError ErrCodeProtocol))
  else
    run _ <- checkValid h;
    run (sc, err) <- each_setting sc (settings_of p);
    match err with
    | Some e => Ret (sc, Some e)
    | None => nothing (scheduleFrameWrite (on_wst (w_ack true) sc))
    end.

(** endStream; the closure copyTrailer is the identifier 0. *)
Definition endStream sc (id : Z) : outcome serverConn :=
  run o <- obj sc id;
  run p <- deref (st_body o);
  run p <-
    (if negb (declBodyBytes o =? -1) && negb (declBodyBytes o =? bodyBytes o)
     then CloseWithError p (Some (errReason (str "request declared a Content-Length of " ++ itoa (declBodyBytes o) ++
            str " but only wrote " ++ itoa (bodyBytes o) ++ str " bytes")))
     else run p <- closeWithErrorAndCode p (Some EOF) 0; CloseWithError p (Some EOF));
  Ret (on_obj id (fun o => s_state stateHalfClosedRemote (s_body (Some p) o)) sc).

(** The branch of processData for streams that take no more data. *)
Definition refuse_data sc (id length : Z) (found queued : bool) : reply :=
  run av <- flow_available (sc_flows sc) 1;
  if av <? i32 length then Ret (sc, Some (streamError id ErrCodeFlowControl))
  else
    run fl <- flow_take (sc_flows sc) 1 (i32 length);
    run sc <- sendWindowUpdate scheduleFrameWrite (set_flows fl sc) None length;
    if found && queued then Ret (sc, None) else Ret (sc, Some (streamError id ErrCodeStreamClosed)).

(** The branch [if f.Length > 0]: the error, if any. *)
Definition take_data sc (id length : Z) (o : streamObj) (data : bytes) : reply :=
  run av <- flow_available (sc_flows sc) (st_inflow o);
  if av <? i32 length then Ret (sc, Some (streamError id ErrCodeFlowControl))
  else
    run fl <- flow_take (sc_flows sc) (st_inflow o) (i32 length);
    let sc := set_flows fl sc in
    run (sc, err) <-
      (if len data >? 0 then
         run p <- deref (st_body o);
         run (p, res) <- pipe_Write p data;
         let sc := on_obj id (s_body (Some p)) sc in
         match res with
         | Err _ => Ret (sc, Some (streamError id ErrCodeStreamClosed))
         | Ok wrote =>
             if negb (wrote =? len data) then Panic
             else Ret (on_obj id (s_bytes (i64 (bodyBytes o + len data))) sc, None)
         end
       else Ret (sc, None));
    match err with
    | Some e => Ret (sc, Some e)
    | None =>
        let pad := i32 (i32 length - i32 (len data)) in
        if pad >? 0 then
          run sc <- sendWindowUpdate32 scheduleFrameWrite sc None pad;
          nothing (sendWindowUpdate32 scheduleFrameWrite sc (Some id) pad)
        else Ret (sc, None)
    end.

Definition processData sc (h : FrameHeader) (payload : bytes) : reply :=
  if inGoAway (away sc) && negb (goAwayCode (away sc) =? ErrCodeNo) then Ret (sc, None)
  else
    run data <- DataFrame_Data h payload;
    let id := StreamID h in
    run (state, found) <- conn_state sc id;
    if (id =? 0) || bool_decide (state = stateIdle) then Ret (sc, Some (ConnectionError ErrCodeProtocol))
    else if negb found then refuse_data sc id (Length h) false false
    else
      run o <- obj sc id;
      if negb (bool_decide (state = stateOpen)) || gotTrailerHeader o || resetQueued o
      then refuse_data sc id (Length h) true (resetQueued o)
      else
        run p <- deref (st_body o);
        if negb (declBodyBytes o =? -1) && (i64 (bodyBytes o + len data) >? declBodyBytes o) then
          run p <- CloseWithError p (Some (errReason (str "sender tried to send more than declared Content-Length of "
                     ++ itoa (declBodyBytes o) ++ str " bytes")));
          Ret (on_obj id (s_body (Some p)) sc, Some (streamError id ErrCodeProtocol))
        else
          run (sc, err) <- (if Length h >? 0 then take_data sc id (Length h) o data else Ret (sc, None));
          match err with
          | Some e => Ret (sc, Some e)
          | None => if StreamEnded h then nothing (endStream sc id) else Ret (sc, None)
          end.

Definition processGoAway sc : reply :=
  run sc <- startGracefulShutdownInternal scheduleFrameWrite sc;
  Ret (on_peer (p_push false) sc, None).

Definition checkPriority (streamID : Z) (p : PriorityParam) : option error :=
  if streamID =? StreamDep p then Some (streamError streamID ErrCodeProtocol) else None.

Definition processPriority sc (h : FrameHeader) (p : PriorityParam) : reply :=
  if inGoAway (away sc) then Ret (sc, None)
  else
    match checkPriority (StreamID h) p with
    | Some e => Ret (sc, Some e)
    | None => Ret (set_sched (AdjustStream (sched sc) (StreamID h) p) sc, None)
    end.

Definition processTrailerHeaders sc (id : Z) (h : FrameHeader) (fields : list HeaderField) : reply :=
  run o <- obj sc id;
  if gotTrailerHeader o then Ret (sc, Some (streamError id ErrCodeProtocol))
  else
    let sc := on_obj id (s_trailer true (trailer o)) sc in
    if negb (StreamEnded h) then Ret (sc, Some (streamError id ErrCodeProtocol))
    else if len (PseudoFields fields) >? 0 then Ret (sc, Some (streamError id ErrCodeProtocol))
    else
      let t := trailer o ++ map (fun hf => (canonicalHeader (Name hf), Value hf)) (RegularFields fields) in
      nothing (endStream (on_obj id (s_trailer true t) sc) id).

(** newWriterAndRequest: the request headers, [declBodyBytes] and the body of the
    stream, or an error. *)
Definition newWriterAndRequest sc (id : Z) (h : FrameHeader) (fields : list HeaderField) :
    outcome (serverConn * result error RequestHeader) :=
  let pseudo s := PseudoValue fields (str s) in
  let malformed :=
    if bytes_eqb (pseudo "method") (str "CONNECT")
    then negb (bytes_eqb (pseudo "path") []) || negb (bytes_eqb (pseudo "scheme") []) ||
         bytes_eqb (pseudo "authority") []
    else bytes_eqb (pseudo "method") [] || bytes_eqb (pseudo "path") [] ||
         (negb (bytes_eqb (pseudo "scheme") (str "https")) && negb (bytes_eqb (pseudo "scheme") (str "http"))) in
  if malformed then Ret (sc, Err (streamError id ErrCodeProtocol))
  else
    let bodyOpen := negb (StreamEnded h) in
    if bytes_eqb (pseudo "method") (str "HEAD") && bodyOpen then Ret (sc, Err (streamError id ErrCodeProtocol))
    else
      run rh <- set_fields (mkReqHeader (-1) [] false [] newTrailer)
                  (map (fun hf => (canonicalHeader (Name hf), Value hf)) (RegularFields fields));
      let decl := if len (contentLengthBytes rh) >? 0 then contentLength rh else -1 in
      (* newWriterAndRequestNoBody *)
      let rh := if bytes_eqb (Peek rh (str "Expect")) (str "100-continue")
                then mkReqHeader (contentLength rh) (contentLengthBytes rh) (connectionClose rh)
                       (delAllArgs (rq_h rh) (str "Expect")) (rq_trailer rh)
                else rh in
      let body := if bodyOpen then Some (setBuffer zeroPipe (newDataBuffer [])) else None in
      Ret (on_obj id (fun o => s_body body (s_decl decl o)) sc, Ok rh).

Definition processHeaders sc (h : FrameHeader) (prio : PriorityParam) (fields : list HeaderField)
    (truncated : bool) : reply :=
  let id := StreamID h in
  if inGoAway (away sc) then Ret (sc, None)
  else if negb (id mod 2 =? 1) then Ret (sc, Some (ConnectionError ErrCodeProtocol))
  else if bool_decide (id ∈ streams sc) then
    run o <- obj sc id;
    if resetQueued o then Ret (sc, None)
    else if bool_decide (st_state o = stateHalfClosedRemote) then Ret (sc, Some (streamError id ErrCodeStreamClosed))
    else processTrailerHeaders sc id h fields
  else if id <=? maxClientStreamID (ids sc) then Ret (sc, Some (ConnectionError ErrCodeProtocol))
  else
    let sc := on_ids (fun i => mkIds (clientMaxStreams i) (advMaxStreams i) (curClientStreams i)
                                 (curPushedStreams i) id (maxPushPromiseID i)) sc in
    let sc := match idleTimer (away sc) with
              | Some _ => on_away (a_idle (Some false)) sc
              | None => sc
              end in
    if u32 (curClientStreams (ids sc) + 1) >? advMaxStreams (ids sc) then
      Ret (sc, Some (streamError id (if unackedSettings (peer sc) =? 0 then ErrCodeProtocol
                                     else ErrCodeRefusedStream)))
    else
      run sc <- newStream sc id (if StreamEnded h then stateHalfClosedRemote else stateOpen);
      match (if HasPriority h then checkPriority id prio else None) with
      | Some e => Ret (sc, Some e)
      | None =>
          run res <- newWriterAndRequest sc id h fields;
          match res with
          | (sc, Err e) => Ret (sc, Some e)
          | (sc, Ok rh) =>
              let hd := if truncated then handleHeaderListTooLong
                        else if checkValidHTTP2RequestHeaders rh then Serve else new400Handler in
              Ret (on_obj id (s_handler hd) sc, None)
          end
      end.

Definition processFrame sc (f : inFrame) : reply :=
  let body sc :=
    match f with
    | InFrame (SettingsFrame h p) => processSettings sc h p
    | InMeta h prio fields tr => processHeaders sc h prio fields tr
    | InFrame (WindowUpdateFrame h n) => processWindowUpdate sc h n
    | InFrame (PingFrame h d) => processPing sc h d
    | InFrame (DataFrame h d) => processData sc h d
    | InFrame (RSTStreamFrame h c) => processResetStream sc h c
    | InFrame (PriorityFrame h p) => processPriority sc h p
    | InFrame (GoAwayFrame _ _ _ _) => processGoAway sc
    | InFrame (PushPromiseFrame _ _ _) => Ret (sc, Some (ConnectionError ErrCodeProtocol))
    | InFrame _ => Ret (sc, None)
    end in
  if sawFirstSettings (peer sc) then body sc
  else
    match f with
    | InFrame (SettingsFrame _ _) => body (on_peer p_saw sc)
    | _ => Ret (sc, Some (ConnectionError ErrCodeProtocol))
    end.

(** *** The serve loop *)

(** What readFrames sends. *)
Abbreviation readFrameResult := (result error inFrame).

(** processFrameFromReader: whether the connection is kept open.  isClosedConnError
    tells errors of the network, here [ErrIO]. *)
Variable isClosedConnError : Z -> bool.

Definition client_gone (e : error) : bool :=
  match e with
  | EOF | ErrUnexpectedEOF => true
  | ErrIO n => isClosedConnError n
  | _ => false
  end.

Definition stay (o : outcome serverConn) : outcome (serverConn * bool) := run sc <- o; Ret (sc, true).

(** The switch on the error. *)
Definition answer_error sc (e : error) : outcome (serverConn * bool) :=
  match e with
  | StreamError id code _ => stay (resetStream scheduleFrameWrite sc id code)
  | goAwayFlowError => stay (goAway scheduleFrameWrite sc ErrCodeFlowControl)
  | ConnectionError code => stay (goAway scheduleFrameWrite sc code)
  | _ => Ret (sc, false)
  end.

Definition processFrameFromReader sc (res : readFrameResult) : outcome (serverConn * bool) :=
  match res with
  | Err ErrFrameTooLarge => stay (goAway scheduleFrameWrite sc ErrCodeFrameSize)
  | Err e => if client_gone e then Ret (sc, false) else answer_error sc e
  | Ok f =>
      run (sc, err) <- processFrame sc f;
      match err with
      | None => Ret (sc, true)
      | Some e => answer_error sc e
      end
  end.

(** noteBodyRead. *)
Definition noteBodyRead sc (id n : Z) : outcome serverConn :=
  run sc <- sendWindowUpdate scheduleFrameWrite sc None n;
  run o <- obj sc id;
  if bool_decide (st_state o = stateHalfClosedRemote) || bool_decide (st_state o = stateClosed) then Ret sc
  else sendWindowUpdate scheduleFrameWrite sc (Some id) n.

(** startPush; [inr] is the error sent to msg.done. *)
Record startPushRequest := mkPush {
  pr_parent : Z;
  pr_method : bytes;
  pr_scheme : bytes;
  pr_host : bytes;
  pr_requestURI : bytes;
  pr_done : option nat
}.

Definition startPush sc (msg : startPushRequest) : outcome serverConn :=
  run o <- obj sc (pr_parent msg);
  let refuse e :=
    run (ch, _) <- replyToWriter (chans sc) (mkWR None None (pr_done msg)) (Some e);
    Ret (set_chans ch sc) in
  if negb (bool_decide (st_state o = stateOpen)) && negb (bool_decide (st_state o = stateHalfClosedRemote))
  then refuse errStreamClosed
  else if negb (pushEnabled (peer sc)) then refuse ErrNotSupported
  else
    run st <- wstream_of sc (pr_parent msg);
    conn_writeFrame scheduleFrameWrite sc
      (mkWR (Some (writePushPromise_ (mkWritePushPromise (pr_parent msg) (pr_method msg) (pr_scheme msg)
                     (pr_host msg) (pr_requestURI msg) 0))) (Some st) (pr_done msg)).

(** writeFrameAsync's goroutine has finished: its result is received. *)
Definition receive_wrote sc : outcome serverConn :=
  match inFlight (wst sc) with
  | None => Ret sc
  | Some wr =>
      run w <- deref (H2Sched.write wr);
      run (n, err) <- nw_writeFrame w (net sc);
      wroteFrame scheduleFrameWrite (on_wst (w_flight None) (set_net n sc)) wr err
  end.

Inductive serverMessage : Type := settingsTimerMsg | idleTimerMsg | shutdownTimerMsg | gracefulShutdownMsg.

(** What the select of the loop receives.  [first] tells that the result of a
    frame being written was there when the frame of the client was received. *)
Inductive event : Type :=
| WantWriteFrame (wr : FrameWriteRequest)
| WroteFrame
| GotFrame (res : readFrameResult) (first : bool)
| BodyRead (id n : Z)
| ServeMsg (m : serverMessage)
| StartPush (msg : startPushRequest).

(** The cases of the select: whether the loop goes on. *)
Definition serve_event sc (e : event) : outcome (serverConn * bool) :=
  match e with
  | WantWriteFrame wr =>
      match H2Sched.write wr with
      | Some (writeStreamError id code) => stay (resetStream scheduleFrameWrite sc id code)
      | _ => stay (conn_writeFrame scheduleFrameWrite sc wr)
      end
  | WroteFrame => stay (receive_wrote sc)
  | GotFrame res first =>
      run sc <- (if writingFrameAsync (wst sc) && first then receive_wrote sc else Ret sc);
      processFrameFromReader sc res
  | BodyRead id n => stay (noteBodyRead sc id n)
  | ServeMsg settingsTimerMsg | ServeMsg shutdownTimerMsg => Ret (sc, false)
  | ServeMsg idleTimerMsg => stay (goAway scheduleFrameWrite sc ErrCodeNo)
  | ServeMsg gracefulShutdownMsg => stay (startGracefulShutdownInternal scheduleFrameWrite sc)
  | StartPush msg => stay (startPush sc msg)
  end.

(** The end of a round. *)
Definition serve_round sc (e : event) : outcome (serverConn * bool) :=
  run (sc, go) <- serve_event sc e;
  if negb go then Ret (sc, false)
  else if queuedControlFrames (wst sc) >? maxQueuedControlFrames then Ret (sc, false)
  else
    let a := away sc in
    let sentGoAway := inGoAway a && negb (needToSendGoAway a) && negb (writingFrame (wst sc)) in
    let gracefulShutdownComplete := (goAwayCode a =? ErrCodeNo) && (curOpenStreams sc =? 0) in
    if sentGoAway && negb (shutdownTimer a) && (negb (goAwayCode a =? ErrCodeNo) || gracefulShutdownComplete)
    then Ret (on_away a_timer sc, true) else Ret (sc, true).

(** closeAllStreamsOnConnClose. *)
Fixpoint close_all sc (order : list Z) : outcome serverConn :=
  match order with
  | [] => Ret sc
  | id :: order =>
      (* a stream closed meanwhile is not visited *)
      run sc <- (if bool_decide (id ∈ streams sc)
                 then closeStream scheduleFrameWrite sc id errClientDisconnected else Ret sc);
      close_all sc order
  end.

Definition closeAllStreamsOnConnClose sc : outcome serverConn :=
  close_all (tick sc) (visit (ticks sc) (elements (streams sc))).

(** The connection Serve makes, up to the loop: the settings and the first
    window update are written before the preface is read. *)
Definition Serve_conn (n : NW) : outcome serverConn :=
  run (fl, _) <- flow_add [mkFlow 0 None; mkFlow 0 None] 0 initialWindowSize;
  run (fl, _) <- flow_add fl 1 initialWindowSize;
  Ret (mkConn _ (mkIds (2 ^ 32 - 1) (maxConcurrentStreams cfg) 0 0 0 0)
         (mkPeer true false 0 initialWindowSize initialMaxFrameSize initialHeaderTableSize 0)
         (mkWrite false false false false false 0 None)
         (mkAway false false 0 false None false)
         fl NewRandomWriteScheduler ∅ ∅ ∅ n 0).

Definition serve_start (n : NW) : outcome serverConn :=
  run sc <- Serve_conn n;
  run sc <- conn_writeFrame scheduleFrameWrite sc
    (mkWR (Some (writeSettings
       [mkSetting SettingMaxFrameSize (maxReadFrameSize cfg);
        mkSetting SettingMaxConcurrentStreams (advMaxStreams (ids sc));
        mkSetting SettingMaxHeaderListSize sc_maxHeaderListSize;
        mkSetting SettingInitialWindowSize (u32 (initialStreamRecvWindowSize cfg))])) None None);
  let sc := on_peer (p_unacked (unackedSettings (peer sc) + 1)) sc in
  let diff := i32 (initialConnRecvWindowSize cfg - initialWindowSize) in
  run sc <- (if diff >? 0 then sendWindowUpdate scheduleFrameWrite sc None diff else Ret sc);
  Ret (if IdleTimeout cfg then on_away (a_idle (Some true)) sc else sc).

(** *** The body of a request, as its handler reads it

    The calls run on the goroutine of the handler; they change the pipe of the
    stream and send events to the loop. *)

Record requestBody := mkBody {
  rb_stream : Z;
  rb_closed : bool;
  rb_sawEOF : bool;
  rb_pipe : bool;                   (* the pipe is that of the stream, or nil *)
  rb_needsContinue : bool
}.

Definition errClosedBody : error := errReason (str "body closed by handler").

Definition requestBody_Close sc (b : requestBody) : outcome (serverConn * requestBody) :=
  run sc <-
    (if rb_pipe b && negb (rb_closed b) then
       run o <- obj sc (rb_stream b);
       run p <- deref (st_body o);
       run p <- BreakWithError p (Some errClosedBody);
       Ret (on_obj (rb_stream b) (s_body (Some p)) sc)
     else Ret sc);
  Ret (sc, mkBody (rb_stream b) true (rb_sawEOF b) (rb_pipe b) (rb_needsContinue b)).

(** noteBodyReadFromHandler: the message it sends. *)
Definition noteBodyReadFromHandler (id : Z) (n : Z) : list event := if n >? 0 then [BodyRead id n] else [].

(** Read into a slice of [m] octets, with the events it sends; [Blocked] waits
    for the pipe and reads again. *)
Definition requestBody_Read sc (b : requestBody) (m : Z) :
    outcome (serverConn * requestBody * read_res * list event) :=
  run st <- wstream_of sc (rb_stream b);
  let sent := if rb_needsContinue b
              then [WantWriteFrame (mkWR (Some (write100ContinueHeadersFrame (rb_stream b))) (Some st) None)] else [] in
  let b := mkBody (rb_stream b) (rb_closed b) (rb_sawEOF b) (rb_pipe b) false in
  if negb (rb_pipe b) || rb_sawEOF b then Ret (sc, b, Failed EOF, sent)
  else
    run o <- obj sc (rb_stream b);
    run p <- deref (st_body o);
    let '(p, res) := pipe_Read p m in
    let sc := on_obj (rb_stream b) (s_body (Some p)) sc in
    match res with
    | Got d => Ret (sc, b, res, sent ++ noteBodyReadFromHandler (rb_stream b) (len d))
    | Failed e =>
        Ret (sc, mkBody (rb_stream b) (rb_closed b) (match e with EOF => true | _ => rb_sawEOF b end) (rb_pipe b) false, res, sent)
    | Blocked => Ret (sc, b, res, sent)
    end.
End Conn.
