(* ===== verification/H2ConnInv.v ===== *)
(** * HTTP/2: what holds of a server connection

    The invariant of the serve loop of [H2Conn.v] and the lemmas on the parts of
    the state.  The loop can panic (the file [H2ConnRun.v] has the runs), so the
    statements are about outcomes: a computation is [safe] if it does not run out
    of fuel and what it returns has the property. *)

From S2P Require Import Prelude Bytes H2Base H2Frame H2Write H2Sched H2Pipe H2Conn.

Definition safe {A} (Q : A -> Prop) (o : outcome A) : Prop :=
  match o with Ret a => Q a | Panic => True | OutOfFuel => False end.

Lemma safe_bind {A B} (Q : B -> Prop) (c : outcome A) (k : A -> outcome B) :
  safe (fun a => safe Q (k a)) c -> safe Q (outcome_bind c k).
Proof. by destruct c. Qed.

Lemma safe_mono {A} (P Q : A -> Prop) (o : outcome A) : safe P o -> (forall a, P a -> Q a) -> safe Q o.
Proof. destruct o; simpl; auto. Qed.

Lemma safe_deref {A} (Q : A -> Prop) (o : option A) : (forall a, o = Some a -> Q a) -> safe Q (deref o).
Proof. destruct o; simpl; auto. Qed.

Lemma safe_ret {A} (P Q : A -> Prop) (o : outcome A) a : safe P o -> o = Ret a -> P a.
Proof. by intros Hs ->. Qed.

(** ** Streams, from outside *)

(** How far a stream has come. *)
Definition rank (s : streamState) : nat :=
  match s with
  | stateIdle => 0 | stateOpen => 1 | stateHalfClosedLocal => 2 | stateHalfClosedRemote => 3 | stateClosed => 4
  end.

Lemma rank_le_closed s : (rank s <= rank stateClosed)%nat.
Proof. destruct s; simpl; lia. Qed.

Definition odd_ids (S : gset Z) : gset Z := filter (fun id => Z.odd id = true) S.
Definition even_ids (S : gset Z) : gset Z := filter (fun id => Z.odd id = false) S.

Definition id_limit (i : idState) (id : Z) : Z := if Z.odd id then maxClientStreamID i else maxPushPromiseID i.

(** The streams that are open are counted, and the client's are within the limit
    it was told. *)
Record ids_ok (i : idState) (S : gset Z) : Prop := {
  n_client : curClientStreams i = Z.of_nat (size (odd_ids S));
  n_pushed : curPushedStreams i = Z.of_nat (size (even_ids S));
  n_limit : curClientStreams i <= advMaxStreams i < 2 ^ 32;
  n_half : 2 * curPushedStreams i <= maxPushPromiseID i;
  n_halfc : 2 * curClientStreams i <= maxClientStreamID i + 1;
  n_maxc : 0 <= maxClientStreamID i < 2 ^ 31 /\ (maxClientStreamID i = 0 \/ Z.odd (maxClientStreamID i) = true);
  n_maxp : 0 <= maxPushPromiseID i < 2 ^ 31 /\ Z.odd (maxPushPromiseID i) = false
}.

Lemma odd_ids_in S id : id ∈ odd_ids S <-> id ∈ S /\ Z.odd id = true.
Proof. unfold odd_ids. rewrite elem_of_filter. tauto. Qed.
Lemma even_ids_in S id : id ∈ even_ids S <-> id ∈ S /\ Z.odd id = false.
Proof. unfold even_ids. rewrite elem_of_filter. tauto. Qed.

(** Counting with one more and one less. *)
Lemma filter_size_add (P : Z -> Prop) `{HP : forall x, Decision (P x)} (S : gset Z) id :
  id ∉ S -> size (filter P (S ∪ {[id]})) = (size (filter P S) + (if decide (P id) then 1 else 0))%nat.
Proof.
  intros Hid. destruct (decide (P id)) as [Hp|Hp].
  - replace (filter P (S ∪ {[id]})) with (filter P S ∪ {[id]}).
    + rewrite size_union, size_singleton; [done|]. intros x. rewrite elem_of_filter, elem_of_singleton. intros [_ Hx] ->. done.
    + apply set_eq. intros x. rewrite elem_of_union, !elem_of_filter, elem_of_union, !elem_of_singleton. naive_solver.
  - rewrite Nat.add_0_r. f_equal. apply set_eq. intros x. rewrite !elem_of_filter, elem_of_union, elem_of_singleton. naive_solver.
Qed.

Lemma filter_size_del (P : Z -> Prop) `{HP : forall x, Decision (P x)} (S : gset Z) id :
  id ∈ S -> (size (filter P (S ∖ {[id]})) + (if decide (P id) then 1 else 0))%nat = size (filter P S).
Proof.
  intros Hid. rewrite <- filter_size_add.
  2: { rewrite elem_of_difference, elem_of_singleton. tauto. }
  f_equal. f_equal. rewrite difference_union_L. apply set_eq. intros x. rewrite elem_of_union, elem_of_singleton.
  split; [intros [?| ->]; done|auto].
Qed.

Section Inv.
Context `{ConnWriter}.

(** The state of a stream as serverConn.state tells it. *)
Definition view (sc : serverConn) (id : Z) : streamState :=
  if bool_decide (id ∈ streams sc) then match objs sc !! id with Some o => st_state o | None => stateIdle end
  else if id <=? id_limit (ids sc) id then stateClosed else stateIdle.

(** The request is not one of the stream's. *)
Definition not_of (id : Z) (wr : FrameWriteRequest) : Prop := forall st, stream wr = Some st -> ws_id st <> id.

(** Nothing of the stream is queued or being written. *)
Definition quiet (sc : serverConn) (id : Z) : Prop :=
  (forall wr, inFlight (wst sc) = Some wr -> not_of id wr) /\
  (forall j wr, wr ∈ qof (sched sc) j -> not_of id wr).

(** Windows are 32-bit integers, and the one for what the client sends is never
    negative. *)
Definition windows_ok (fl : flows) : Prop :=
  flows_ok fl /\ (exists f, fl !! 0%nat = Some f /\ flow_conn f = None) /\
  exists f, fl !! 1%nat = Some f /\ flow_conn f = None /\ 0 <= flow_n f.

(** The invariant; [L] tells whether the loop of scheduleFrameWrite is running. *)
Record Inv (L : bool) (sc : serverConn) : Prop := {
  i_loop : inFrameScheduleLoop (wst sc) = L;
  i_write : writingFrameAsync (wst sc) = writingFrame (wst sc) /\
    writingFrame (wst sc) = bool_decide (is_Some (inFlight (wst sc)));
  i_ids : ids_ok (ids sc) (streams sc);
  i_bound : forall id o, objs sc !! id = Some o ->
    0 < id <= id_limit (ids sc) id /\ (2 <= st_flow o)%nat /\ (2 <= st_inflow o)%nat;
  i_live : forall id, id ∈ streams sc -> exists o, objs sc !! id = Some o /\
    st_state o <> stateIdle /\ st_state o <> stateClosed;
  i_dead : forall id o, objs sc !! id = Some o -> id ∉ streams sc -> st_state o <> stateClosed -> quiet sc id;
  i_flows : windows_ok (sc_flows sc);
  i_peer : is_i32 (initialStreamSendWindowSize (peer sc));
  i_sched : sched_ok (sched sc)
}.

(** Objects stay those of their streams: they keep their windows. *)
Definition kept (sc sc' : serverConn) : Prop :=
  forall id o, objs sc !! id = Some o -> exists o', objs sc' !! id = Some o' /\ st_flow o' = st_flow o /\ st_inflow o' = st_inflow o.

Lemma kept_same sc sc' : objs sc' = objs sc -> kept sc sc'.
Proof. intros E id o Ho. exists o. by rewrite E. Qed.

#[local] Hint Extern 0 (kept _ _) => (apply kept_same; reflexivity) : core.

Lemma kept_trans sc1 sc2 sc3 : kept sc1 sc2 -> kept sc2 sc3 -> kept sc1 sc3.
Proof.
  intros H1 H2 id o Ho. destruct (H1 id o Ho) as (o1 & Ho1 & E1 & E2). destruct (H2 id o1 Ho1) as (o2 & Ho2 & E3 & E4).
  exists o2. split_and!; [done|congruence|congruence].
Qed.

Lemma kept_some sc sc' id : kept sc sc' -> is_Some (objs sc !! id) -> is_Some (objs sc' !! id).
Proof. intros Hk [o Ho]. destruct (Hk id o Ho) as (o' & -> & _). by eexists. Qed.

(** Streams only go forward, objects stay, and so does the limit the client was told. *)
Definition forward (sc sc' : serverConn) : Prop :=
  (forall id, (rank (view sc id) <= rank (view sc' id))%nat) /\
  kept sc sc' /\
  advMaxStreams (ids sc') = advMaxStreams (ids sc).

Lemma forward_refl sc : forward sc sc.
Proof. split_and!; [done|by apply kept_same|done]. Qed.

Lemma forward_trans sc1 sc2 sc3 : forward sc1 sc2 -> forward sc2 sc3 -> forward sc1 sc3.
Proof. intros (H1 & H2 & H3) (K1 & K2 & K3). split_and!; [|by eapply kept_trans|congruence]. intros id. specialize (H1 id). specialize (K1 id). lia. Qed.

(** A stream that is open, or of which nothing is left, stays so. *)
Definition settled (sc : serverConn) (id : Z) : Prop := id ∈ streams sc \/ quiet sc id.

Definition settles (sc sc' : serverConn) : Prop :=
  forall id, is_Some (objs sc !! id) -> settled sc id -> settled sc' id.

(** What a step of the connection does; [S] tells whether streams stay settled,
    and within the loop ([L]) it adds at most [k] to the work. *)
Definition step_ok (L S : bool) (k : nat) (sc sc' : serverConn) : Prop :=
  Inv L sc' /\ forward sc sc' /\ (S = true -> settles sc sc') /\
  (L = true -> (sched_work (sched sc') <= sched_work (sched sc) + k)%nat /\
     needToSendSettingsAck (wst sc') = needToSendSettingsAck (wst sc) /\ inFlight (wst sc') = inFlight (wst sc)).

Lemma settles_refl sc : settles sc sc.
Proof. by intros id _. Qed.

Lemma step_refl L S sc : Inv L sc -> step_ok L S 0 sc sc.
Proof. intros Hi. split_and!; [done|apply forward_refl|intros _; apply settles_refl|]. intros _. split_and!; lia || done. Qed.

Lemma step_trans L S k1 k2 k sc1 sc2 sc3 :
  step_ok L S k1 sc1 sc2 -> step_ok L S k2 sc2 sc3 -> (k1 + k2 <= k)%nat -> step_ok L S k sc1 sc3.
Proof.
  intros (I2 & F2 & S2 & W2) (I3 & F3 & S3 & W3) Hk. split_and!; [done|by eapply forward_trans| |].
  - intros HS id Hid Hs. apply (S3 HS); [eapply kept_some; [apply F2|done]|]. by apply (S2 HS).
  - intros HL. destruct (W2 HL) as (? & ? & ?), (W3 HL) as (? & ? & ?). split_and!; [lia|congruence|congruence].
Qed.

Lemma step_weaken L S S' k k' sc sc' :
  step_ok L S k sc sc' -> (k <= k')%nat -> (S' = true -> S = true) -> step_ok L S' k' sc sc'.
Proof.
  intros (Hi & Hf & Hs & Hw) Hk HS. split_and!; auto. intros HL. destruct (Hw HL) as (? & ? & ?). split_and!; [lia|done|done].
Qed.

(** scheduleFrameWrite as the functions it calls see it: within its own loop it
    does nothing. *)
Definition again_ok (L : bool) (again : serverConn -> outcome serverConn) : Prop :=
  forall sc, Inv L sc -> safe (fun sc' => step_ok L true 0 sc sc' /\ (L = true -> sc' = sc)) (again sc).

(** Sequences of steps. *)
Lemma safe_then L S k1 k2 k sc (c : outcome serverConn) (f : serverConn -> outcome serverConn) :
  safe (step_ok L S k1 sc) c -> (forall sc1, step_ok L S k1 sc sc1 -> safe (step_ok L S k2 sc1) (f sc1)) ->
  (k1 + k2 <= k)%nat -> safe (step_ok L S k sc) (outcome_bind c f).
Proof.
  intros Hc Hf Hk. apply safe_bind. eapply safe_mono; [exact Hc|]. intros sc1 H1. cbv beta.
  eapply safe_mono; [by apply Hf|]. intros sc2 H2. by eapply step_trans.
Qed.

Lemma safe_after L S k1 k2 k sc sc1 (o : outcome serverConn) :
  step_ok L S k1 sc sc1 -> safe (step_ok L S k2 sc1) o -> (k1 + k2 <= k)%nat -> safe (step_ok L S k sc) o.
Proof. intros H1 Ho Hk. eapply safe_mono; [exact Ho|]. intros sc2 H2. by eapply step_trans. Qed.

Lemma safe_weaken L S S' k k' sc (o : outcome serverConn) :
  safe (step_ok L S k sc) o -> (k <= k')%nat -> (S' = true -> S = true) -> safe (step_ok L S' k' sc) o.
Proof. intros Ho Hk HS. eapply safe_mono; [exact Ho|]. intros sc2 H2. by eapply step_weaken. Qed.

Lemma step_inv L S k sc sc' : step_ok L S k sc sc' -> Inv L sc'.
Proof. by intros (Hi & _). Qed.

(** ** Assignments *)

(** Two states with the same streams, windows, queues and writer. *)
Definition alike (sc sc' : serverConn) : Prop :=
  ids sc' = ids sc /\ streams sc' = streams sc /\ objs sc' = objs sc /\ sc_flows sc' = sc_flows sc /\
  initialStreamSendWindowSize (peer sc') = initialStreamSendWindowSize (peer sc) /\ sched sc' = sched sc /\
  inFrameScheduleLoop (wst sc') = inFrameScheduleLoop (wst sc) /\ writingFrame (wst sc') = writingFrame (wst sc) /\
  writingFrameAsync (wst sc') = writingFrameAsync (wst sc) /\ inFlight (wst sc') = inFlight (wst sc).

Lemma alike_inv L sc sc' : alike sc sc' -> Inv L sc -> Inv L sc'.
Proof.
  intros (E1 & E2 & E3 & E4 & E5 & E6 & E7 & E8 & E9 & E10) Hi.
  assert (Hq : forall id, quiet sc id -> quiet sc' id) by (intros id; unfold quiet; by rewrite E6, E10).
  destruct Hi. split; rewrite ?E1, ?E2, ?E3, ?E4, ?E5, ?E6, ?E7, ?E8, ?E9, ?E10; try done.
  intros id o Ho Hid Hs. apply Hq. by eapply i_dead0.
Qed.

Lemma alike_step L S sc sc' :
  alike sc sc' -> needToSendSettingsAck (wst sc') = needToSendSettingsAck (wst sc) -> Inv L sc -> step_ok L S 0 sc sc'.
Proof.
  intros Ha Hack Hi. pose proof Ha as (E1 & E2 & E3 & E4 & E5 & E6 & E7 & E8 & E9 & E10).
  split_and!; [by eapply alike_inv| | |].
  - split_and!; [|by apply kept_same|by rewrite E1]. intros id. unfold view. by rewrite E1, E2, E3.
  - intros _ id _. unfold settled, quiet. by rewrite E2, E6, E10.
  - intros _. rewrite E6. split_and!; [lia|done|done].
Qed.

Lemma step_flows L S sc fl : windows_ok fl -> Inv L sc -> step_ok L S 0 sc (set_flows fl sc).
Proof.
  intros Hfl Hi. split_and!; [destruct Hi; by split|split_and!; done|by intros _ id _|]. intros _. split_and!; simpl; lia || done.
Qed.

(** Changing a stream object, and with it perhaps the state of the stream. *)
Lemma step_obj L S sc id f :
  Inv L sc ->
  (forall o, objs sc !! id = Some o -> st_flow (f o) = st_flow o /\ st_inflow (f o) = st_inflow o /\
     (id ∈ streams sc -> st_state (f o) <> stateIdle /\ st_state (f o) <> stateClosed /\
        (rank (st_state o) <= rank (st_state (f o)))%nat) /\
     (id ∉ streams sc -> st_state (f o) = st_state o \/ quiet sc id)) ->
  step_ok L S 0 sc (on_obj id f sc).
Proof.
  intros Hi Hf.
  assert (Hlook : forall j o', alter f id (objs sc) !! j = Some o' -> exists o, objs sc !! j = Some o /\
    o' = if decide (j = id) then f o else o).
  { intros j o'. destruct (decide (j = id)) as [->|Hne].
    - rewrite lookup_alter_eq. destruct (objs sc !! id) as [o|]; [|done]. intros [= <-]. by exists o.
    - rewrite lookup_alter_ne by done. intros Ho. by exists o'. }
  split_and!.
  - split; try apply Hi; cbn [on_obj set_objs objs streams ids].
    + intros j o' Ho'. destruct (Hlook j o' Ho') as (o & Ho & ->). destruct (i_bound _ _ Hi j o Ho) as (H1 & H2 & H3).
      case_decide; [|done]. subst j. destruct (Hf o Ho) as (-> & -> & _). done.
    + intros j Hj. destruct (i_live _ _ Hi j Hj) as (o & Ho & H1 & H2). destruct (decide (j = id)) as [->|Hne].
      * rewrite lookup_alter_eq, Ho. exists (f o). split; [done|]. destruct (Hf o Ho) as (_ & _ & Hs & _).
        destruct (Hs Hj) as (? & ? & _). done.
      * rewrite lookup_alter_ne by done. by exists o.
    + intros j o' Ho' Hj Hs. destruct (Hlook j o' Ho') as (o & Ho & ->).
      case_decide; [|by eapply (i_dead _ _ Hi)]. subst j. destruct (Hf o Ho) as (_ & _ & _ & [E|Hq]); [done| |exact Hq].
      rewrite E in Hs. by eapply (i_dead _ _ Hi).
  - split_and!; [| |done].
    + intros j. unfold view. cbn [on_obj set_objs objs streams ids]. case_bool_decide as Hj; [|done].
      destruct (i_live _ _ Hi j Hj) as (o & Ho & _). rewrite Ho. destruct (decide (j = id)) as [->|Hne].
      * rewrite lookup_alter_eq, Ho. cbn [fmap option_fmap option_map]. by apply (Hf o Ho).
      * by rewrite lookup_alter_ne, Ho.
    + intros j o Ho. cbn [on_obj set_objs objs]. destruct (decide (j = id)) as [->|Hne].
      * rewrite lookup_alter_eq, Ho. exists (f o). split; [done|]. by destruct (Hf o Ho) as (? & ? & _).
      * rewrite lookup_alter_ne by done. by exists o.
  - by intros _ j _.
  - intros _. split_and!; simpl; lia || done.
Qed.

(** Changing anything but the state and the windows of a stream object. *)
Lemma step_obj_same L S sc id f :
  Inv L sc -> (forall o, st_flow (f o) = st_flow o /\ st_inflow (f o) = st_inflow o /\ st_state (f o) = st_state o) ->
  step_ok L S 0 sc (on_obj id f sc).
Proof.
  intros Hi Hf. apply step_obj; [done|]. intros o Ho. destruct (Hf o) as (-> & -> & ->). split_and!; try done; [|by left].
  intros Hid. destruct (i_live _ _ Hi id Hid) as (o' & Ho' & H1 & H2). rewrite Ho in Ho'. injection Ho' as <-. done.
Qed.
End Inv.

#[export] Hint Extern 0 (kept _ _) => (apply kept_same; reflexivity) : core.
