(* ===== verification/H2ConnParts.v ===== *)
(** * HTTP/2: the parts of a server connection under its operations

    Windows and the write scheduler: what adding, taking, queueing and popping
    leave true, whether or not the calls panic elsewhere. *)

From S2P Require Import Prelude Bytes H2Base H2Frame H2Write H2Sched H2Pipe H2Conn H2ConnInv.

(** ** Windows *)

Lemma windows_set fl a v :
  windows_ok fl -> is_i32 v -> (a = 1%nat -> 0 <= v) -> windows_ok (alter (set_n v) a fl).
Proof.
  intros (Hok & (f0 & Hf0 & Hc0) & (f & Hf & Hc & Hn)) Hv Ha. split; [by apply flows_ok_set|]. split.
  - destruct (decide (a = 0%nat)) as [->|Hne].
    + exists (set_n v f0). by rewrite list_lookup_alter_eq, Hf0.
    + exists f0. by rewrite list_lookup_alter_ne.
  - destruct (decide (a = 1%nat)) as [->|Hne].
    + exists (set_n v f). rewrite list_lookup_alter_eq, Hf. split_and!; auto.
    + exists f. by rewrite list_lookup_alter_ne.
Qed.

(** The window at [a], 0 if there is none. *)
Definition window (fl : flows) (a : nat) : Z := match fl !! a with Some f => flow_n f | None => 0 end.

Lemma window_lower fl : windows_ok fl -> 0 <= window fl 1.
Proof. intros (_ & _ & f & Hf & _ & Hn). unfold window. by rewrite Hf. Qed.

Lemma window_set fl a v b : is_Some (fl !! a) -> window (alter (set_n v) a fl) b = if decide (b = a) then v else window fl b.
Proof.
  intros [f Hf]. unfold window. destruct (decide (b = a)) as [->|Hne].
  - by rewrite list_lookup_alter_eq, Hf.
  - by rewrite list_lookup_alter_ne.
Qed.

(** add: the window grows by [k] if the sum fits, else nothing happens. *)
Lemma add_safe fl a k :
  windows_ok fl -> is_i32 k -> (a = 1%nat -> 0 <= k) ->
  safe (fun r => windows_ok (fst r) /\ length (fst r) = length fl /\
          (snd r = true -> forall b, window (fst r) b = window fl b + (if decide (b = a) then k else 0)) /\
          (snd r = true -> is_i32 (window (fst r) a)))
    (flow_add fl a k).
Proof.
  intros Hok Hk Ha. destruct (fl !! a) as [f|] eqn:Hf; [|by unfold flow_add; rewrite Hf].
  pose proof (window_lower fl Hok) as H1. pose proof Hok as [Hfo _].
  rewrite (flow_add_sum fl a f k Hf (proj1 Hfo a f Hf) Hk).
  case_bool_decide as Hb; cbn [safe fst snd]; [|done].
  assert (Hs : is_Some (fl !! a)) by (by rewrite Hf). split_and!.
  - apply windows_set; [done|done|]. intros E. specialize (Ha E). subst a. unfold window in H1. rewrite Hf in H1. lia.
  - apply length_alter.
  - intros _ b. rewrite window_set by done. case_decide; [|lia]. subst b. unfold window. rewrite Hf. done.
  - intros _. rewrite window_set by done. by rewrite decide_True.
Qed.

(** take: what it leaves. *)
Lemma take_safe fl a k :
  windows_ok fl -> 0 <= k -> safe (fun fl' => windows_ok fl' /\ length fl' = length fl) (flow_take fl a k).
Proof.
  intros Hok Hk. pose proof Hok as [Hfo _]. unfold flow_take, flow_available.
  destruct (fl !! a) as [f|] eqn:Hf; [|done]. cbn [deref outcome_bind].
  pose proof (proj1 Hfo a f Hf) as Hr. destruct (flow_conn f) as [c|] eqn:Hc.
  - destruct (proj2 Hfo a f c Hf Hc) as (Hne & cf & Hcf & _). rewrite Hcf. cbn [deref outcome_bind].
    pose proof (proj1 Hfo c cf Hcf) as Hrc.
    destruct (k >? (if flow_n cf <? flow_n f then flow_n cf else flow_n f)) eqn:E; [done|]. breflect.
    rewrite list_lookup_alter_ne by done. rewrite Hcf. cbn [deref outcome_bind safe]. rewrite !length_alter.
    assert (k <= flow_n cf /\ k <= flow_n f) as [? ?] by (destruct (flow_n cf <? flow_n f) eqn:E2; breflect; lia).
    split; [|done]. rewrite !i32_id by width. apply windows_set; [apply windows_set; [done|width|lia]|width|lia].
  - cbn [outcome_bind]. destruct (k >? flow_n f) eqn:E; [done|]. breflect. cbn [safe]. rewrite length_alter.
    split; [|done]. rewrite i32_id by width. apply windows_set; [done|width|lia].
Qed.

(** The windows of a new stream. *)
Lemma windows_new fl :
  windows_ok fl -> windows_ok (fl ++ [mkFlow 0 (Some 0%nat); mkFlow 0 (Some 1%nat)]).
Proof.
  intros ([Hr Hc] & (f0 & Hf0 & Hc0) & f1 & Hf1 & Hc1 & Hn1).
  assert (Hold : forall a f, fl !! a = Some f -> (fl ++ [mkFlow 0 (Some 0%nat); mkFlow 0 (Some 1%nat)]) !! a = Some f).
  { intros a f Hf. rewrite lookup_app_l; [done|]. by eapply lookup_lt_Some. }
  assert (Hcase : forall a f, (fl ++ [mkFlow 0 (Some 0%nat); mkFlow 0 (Some 1%nat)]) !! a = Some f ->
    fl !! a = Some f \/ (length fl <= a)%nat /\ flow_n f = 0 /\ (flow_conn f = Some 0%nat \/ flow_conn f = Some 1%nat)).
  { intros a f [Hf|[Hl Hf]]%lookup_app_Some; [by left|right]. split; [done|].
    destruct (a - length fl)%nat as [|[|]]; [injection Hf as <-; auto..|done]. }
  pose proof (lookup_lt_Some _ _ _ Hf0) as Hl0. pose proof (lookup_lt_Some _ _ _ Hf1) as Hl1.
  split; [|split; [by eauto|exists f1; auto]]. split.
  - intros a f Hf. destruct (Hcase a f Hf) as [Hf'|(_ & -> & _)]; [by eapply Hr|split; lia].
  - intros a f x Hf Hx. destruct (Hcase a f Hf) as [Hf'|(Hl & _ & [Hy|Hy])].
    + destruct (Hc a f x Hf' Hx) as (Hne & cf & Hcf & Hcn). split; [done|]. exists cf. auto.
    + rewrite Hx in Hy. injection Hy as ->. split; [lia|]. eauto.
    + rewrite Hx in Hy. injection Hy as ->. split; [lia|]. eauto.
Qed.

(** ** The scheduler *)

Lemma queue_work_app l l' : queue_work (l ++ l') = (queue_work l + queue_work l')%nat.
Proof. unfold queue_work. rewrite map_app. induction (map request_work l); simpl; lia. Qed.

Lemma queues_work_insert (Q : list (list FrameWriteRequest)) q l l' :
  Q !! q = Some l ->
  (sum_list (map queue_work (<[q := l']> Q)) + queue_work l = sum_list (map queue_work Q) + queue_work l')%nat.
Proof.
  revert q. induction Q as [|l0 Q IH]; intros [|q]; simpl; try done.
  - intros [= ->]. lia.
  - intros Hq. specialize (IH q Hq). lia.
Qed.

Lemma set_queue_work ws q l l' :
  queues ws !! q = Some l -> (sched_work (set_queue ws q l') + queue_work l = sched_work ws + queue_work l')%nat.
Proof. intros Hq. unfold sched_work. simpl. pose proof (queues_work_insert _ q l l' Hq). lia. Qed.

Lemma pool_put_work ws q : (sched_work (pool_put ws q) <= sched_work ws)%nat.
Proof.
  unfold sched_work. simpl. destruct (queues ws !! q) as [l|] eqn:Hq.
  - pose proof (queues_work_insert _ q l [] Hq). change (queue_work []) with 0%nat in *. lia.
  - rewrite list_insert_ge by (by apply lookup_ge_None). lia.
Qed.

Lemma close_work ws id : (sched_work (CloseStream ws id) <= sched_work ws)%nat.
Proof.
  unfold CloseStream. destruct (sq ws !! id) as [q|]; [|lia].
  pose proof (pool_put_work (set_sq ws (delete id (sq ws))) q) as Hp. unfold sched_work in *. simpl in *. lia.
Qed.

Lemma push_work ws wr ws' : Push ws wr = Ret ws' -> sched_work ws' = (sched_work ws + request_work wr)%nat.
Proof.
  assert (Hone : queue_work [wr] = request_work wr) by (unfold queue_work; simpl; lia).
  unfold Push. destruct (WR_StreamID wr =? 0).
  { intros [= <-]. unfold sched_work, queue_push. simpl. rewrite queue_work_app. lia. }
  assert (Hset : forall w q l, queues w !! q = Some l -> sched_work w = sched_work ws ->
    sched_work (set_queue w q (queue_push l wr)) = (sched_work ws + request_work wr)%nat).
  { intros w q l Hq E. pose proof (set_queue_work w q l (queue_push l wr) Hq) as Hw.
    unfold queue_push in Hw at 2. rewrite queue_work_app in Hw. lia. }
  destruct (sq ws !! WR_StreamID wr) as [q|].
  - destruct (queues ws !! q) as [l|] eqn:Hq; [|done]. intros [= <-]. by apply Hset.
  - destruct (pool_get ws) as [w q] eqn:Hg.
    assert (E : sched_work w = sched_work ws).
    { unfold pool_get in Hg. destruct (last (queuePool ws)); injection Hg as <- <-; [done|].
      unfold sched_work. simpl. rewrite map_app. simpl. unfold queue_work at 3. simpl.
      induction (map queue_work (queues ws)); simpl; lia. }
    destruct (queues (set_sq w (<[WR_StreamID wr := q]> (sq w))) !! q) as [l|] eqn:Hq; [|done].
    intros [= <-]. by apply Hset.
Qed.

(** What writing a request puts into the queues. *)
Definition gain (wr : FrameWriteRequest) : nat :=
  match H2Sched.write wr with
  | Some (writeData _ _ es) => if es then 2 else 0
  | Some (writeResHeaders_ _) => 2
  | Some (writeStreamError _ _) | Some (handlerPanicRST _) => 1
  | _ => 0
  end.

Lemma available_safe fl a : safe (fun _ => True) (flow_available fl a).
Proof.
  unfold flow_available. destruct (fl !! a) as [f|]; [|done]. cbn [deref outcome_bind].
  destruct (flow_conn f) as [c|]; [|done]. by destruct (fl !! c).
Qed.

Lemma gain_work wr : (gain wr + 1 <= request_work wr)%nat.
Proof.
  unfold gain, request_work. destruct (H2Sched.write wr) as [w|]; [|lia]. destruct w; lia || (destruct endStream; lia).
Qed.

(** Whole, blocked or cut: what Consume leaves. *)
Lemma consume_safe fl maxF wr :
  windows_ok fl ->
  safe (fun '(fl', c, r, k) => (k = 0 /\ fl' = fl) \/
          (windows_ok fl' /\ length fl' = length fl /\ stream c = stream wr /\
           (k = 1 /\ (gain c + 1 <= request_work wr)%nat \/
            k = 2 /\ stream r = stream wr /\ WR_StreamID r = WR_StreamID wr /\
              (request_work r + gain c + 1 <= request_work wr)%nat)))
    (Consume fl maxF wr (2 ^ 31 - 1)).
Proof.
  intros Hok. unfold Consume. pose proof (gain_work wr) as Hg.
  destruct (H2Sched.write wr) as [w|] eqn:Hw; [|by right; auto 10].
  destruct w as [| | |sid p es| | | | | | | |]; try (by right; auto 10).
  destruct (len p =? 0) eqn:El; [by right; auto 10|]. breflect.
  destruct (stream wr) as [st|] eqn:Hst; [|done]. cbn [deref outcome_bind].
  apply safe_bind. eapply safe_mono; [apply available_safe|]. intros av _.
  set (al := if maxF <? (if 2 ^ 31 - 1 <? av then 2 ^ 31 - 1 else av) then maxF
             else if 2 ^ 31 - 1 <? av then 2 ^ 31 - 1 else av).
  assert (Hal : al <= 2 ^ 31 - 1) by (subst al; repeat case_if; breflect; lia). clearbody al.
  destruct (al <=? 0) eqn:E0; breflect; [by left|]. pose proof (len_nonneg p).
  destruct (len p >? al) eqn:E1; breflect; apply safe_bind; (eapply safe_mono; [apply take_safe; [done|]|]);
    [lia| |rewrite i32_id by width; lia|]; intros fl' [Hok' Hlen]; right; split_and!; try done.
  - right. split_and!; try done; [unfold WR_StreamID; simpl; by rewrite Hst|].
    unfold request_work, gain. simpl. rewrite Hw. unfold zdrop. rewrite length_drop. unfold len in *.
    destruct es; lia.
  - by left.
Qed.

(** What is in the queues after a Pop was there before, or is a part of it. *)
Definition from_queues (ws : randomWriteScheduler) (wr : FrameWriteRequest) : Prop :=
  exists j y, y ∈ qof ws j /\ stream wr = stream y.

Definition pop_safe_post (fl : flows) (ws : randomWriteScheduler)
    (r : flows * randomWriteScheduler * option FrameWriteRequest) : Prop :=
  let '(fl', ws', res) := r in
  sched_ok ws' /\ windows_ok fl' /\ length fl' = length fl /\ (forall j x, x ∈ qof ws' j -> from_queues ws x) /\
  match res with
  | None => sched_work ws' = sched_work ws
  | Some wr => (sched_work ws' + gain wr + 1 <= sched_work ws)%nat /\ from_queues ws wr
  end.

Lemma from_queues_in ws j x : x ∈ qof ws j -> from_queues ws x.
Proof. intros Hx. by exists j, x. Qed.

(** The queue [l] of a stream gives way to [l']. *)
Lemma replace_queue_safe ws id q l l' :
  sched_ok ws -> sq ws !! id = Some q -> queues ws !! q = Some l -> Forall (fun wr => WR_StreamID wr = id) l' ->
  let ws1 := set_queue ws q l' in
  let ws' := if queue_empty l' then pool_put (set_sq ws1 (delete id (sq ws1))) q else ws1 in
  sched_ok ws' /\ (forall j x, x ∈ qof ws' j -> x ∈ l' \/ x ∈ qof ws j) /\
  (sched_work ws' + queue_work l = sched_work ws + queue_work l')%nat.
Proof.
  intros Hok Hq Hl Hids. pose proof (set_queue_work ws q l l' Hl) as Hw. cbv zeta.
  destruct (queue_empty l') eqn:Ee; unfold queue_empty in Ee; breflect.
  - apply len_0_inv in Ee. subst l'. destruct (release_ok ws id q Hok Hq) as [Hok' Hq'].
    assert (Hsame : pool_put (set_sq (set_queue ws q []) (delete id (sq (set_queue ws q [])))) q
      = pool_put (set_sq ws (delete id (sq ws))) q).
    { unfold pool_put. simpl. by rewrite list_insert_insert_eq. }
    rewrite Hsame. split_and!; [done| |].
    + intros j x. rewrite Hq'. case_decide; [by intros ?%not_elem_of_nil|auto].
    + rewrite <- Hw. unfold sched_work. done.
  - assert (Hne : l' <> []) by (by intros ->). destruct (set_queue_ok ws id q l' Hok Hq Hne Hids) as [Hok' Hq'].
    split_and!; [done| |done]. intros j x. rewrite Hq'. case_decide; auto.
Qed.

Lemma pop_loop_safe fl maxF ws order :
  sched_ok ws -> windows_ok fl -> safe (pop_safe_post fl ws) (pop_loop fl maxF ws order).
Proof.
  intros Hok Hfl. induction order as [|id order IH]; cbn [pop_loop].
  { split_and!; try done. apply from_queues_in. }
  destruct (sq ws !! id) as [q|] eqn:Hq; [|done]. cbn [deref outcome_bind].
  destruct (ok_sq _ Hok _ _ Hq) as (Hid & l & Hl & Hne & Hf). rewrite Hl. cbn [deref outcome_bind].
  pose proof (qof_sq _ _ _ _ Hok Hq Hl) as Hqof. destruct l as [|wr l]; [done|].
  apply Forall_cons in Hf as [Hwid Hf]. cbn [queue_consume]. apply safe_bind, safe_bind.
  eapply safe_mono; [by apply consume_safe|]. intros [[[fl' c] r] k] Hc.
  assert (Hwork : queue_work (wr :: l) = (request_work wr + queue_work l)%nat) by done.
  assert (Hin : forall x, x ∈ wr :: l -> x ∈ qof ws id) by (by rewrite Hqof).
  destruct Hc as [[-> ->]|(Hok' & Hlen & Hcs & [[-> Hg]|(-> & Hrs & Hrid & Hg)])];
    cbn [Z.eqb outcome_bind safe queue_shift].
  - rewrite set_queue_same by done. done.
  - destruct (replace_queue_safe ws id q (wr :: l) l Hok Hq Hl Hf) as (H1 & H2 & H3).
    split_and!; try done; [|lia|exists id, wr; split; [apply Hin; by left|done]].
    intros j x [Hx|Hx]%H2; [|by eapply from_queues_in]. apply (from_queues_in _ id), Hin. by right.
  - destruct (replace_queue_safe ws id q (wr :: l) (r :: l) Hok Hq Hl) as (H1 & H2 & H3).
    { constructor; [congruence|done]. }
    assert (Hw2 : queue_work (r :: l) = (request_work r + queue_work l)%nat) by done.
    split_and!; try done; [|lia|exists id, wr; split; [apply Hin; by left|done]].
    intros j x [Hx|Hx]%H2; [|by eapply from_queues_in]. apply elem_of_cons in Hx as [->|Hx].
    + exists id, wr. split; [apply Hin; by left|done].
    + apply (from_queues_in _ id), Hin. by right.
Qed.

Lemma pop_safe fl maxF ws order :
  sched_ok ws -> windows_ok fl -> safe (pop_safe_post fl ws) (Pop fl maxF ws order).
Proof.
  intros Hok Hfl. unfold Pop, queue_empty. destruct (zero ws) as [|wr z] eqn:Hz; [by apply pop_loop_safe|].
  assert (El : (len (wr :: z) =? 0) = false) by (apply Z.eqb_neq; glen). rewrite El.
  cbn [negb queue_shift outcome_bind safe]. pose proof (ok_zero _ Hok) as H0. rewrite Hz, Forall_cons in H0.
  assert (Hq0 : qof ws 0 = wr :: z) by (unfold qof; simpl; done).
  split_and!; try done.
  - destruct H0 as [_ H0], Hok. by split.
  - intros j x Hx. destruct (decide (j = 0)) as [->|Hj].
    + unfold qof in Hx. simpl in Hx. apply (from_queues_in _ 0). rewrite Hq0. by right.
    + apply (from_queues_in _ j). unfold qof in *. simpl in Hx. apply Z.eqb_neq in Hj. by rewrite Hj in *.
  - pose proof (gain_work wr). unfold sched_work. simpl. rewrite Hz.
    change (queue_work (wr :: z)) with (request_work wr + queue_work z)%nat. lia.
  - exists 0, wr. rewrite Hq0. split; [by left|done].
Qed.
