(* ===== verification/H2ConnWrite.v ===== *)
(** * HTTP/2: writing on a server connection

    The functions around scheduleFrameWrite keep the invariant, only move streams
    forward and leave no more work than their frames announce, so that the loop of
    scheduleFrameWrite ends. *)

From S2P Require Import Prelude Bytes H2Base H2Frame H2Write H2Sched H2Pipe H2Conn H2ConnInv H2ConnParts.

Section Steps.
Context `{ConnWriter}.
Variable cfg : Config.
Variable h1ServerKeepAlivesDisabled : nat -> bool.
Variables (L : bool) (again : serverConn -> outcome serverConn).
Hypothesis Hagain : again_ok L again.
Implicit Types sc : serverConn.

Lemma again_step sc : Inv L sc -> safe (step_ok L true 0 sc) (again sc).
Proof. intros Hi. eapply safe_mono; [by apply Hagain|]. by intros sc' [? _]. Qed.

Lemma obj_safe sc id (Q : streamObj -> Prop) :
  (forall o, objs sc !! id = Some o -> Q o) -> safe Q (obj sc id).
Proof. apply safe_deref. Qed.

Lemma conn_state_safe sc id :
  safe (fun r => fst r = view sc id /\ snd r = bool_decide (id ∈ streams sc)) (conn_state sc id).
Proof.
  unfold conn_state, view, id_limit. case_bool_decide as Hid.
  - apply safe_bind, obj_safe. intros o Ho. by rewrite Ho.
  - destruct (Z.odd id); case_if; done.
Qed.

(** A stream with an object that is not closed is open. *)
Lemma view_open sc id : Inv L sc -> is_Some (objs sc !! id) -> view sc id <> stateClosed -> id ∈ streams sc.
Proof.
  intros Hi [o Ho] Hv. unfold view in Hv. case_bool_decide as Hid; [done|].
  destruct (i_bound _ _ Hi id o Ho) as ((_ & Hb) & _). rewrite (proj2 (Z.leb_le _ _) Hb) in Hv. done.
Qed.

(** ** writeFrame *)

(** A request that may be queued: it is not of a closed stream. *)
Definition pushable sc (wr : FrameWriteRequest) : Prop :=
  forall st, stream wr = Some st -> is_Some (objs sc !! ws_id st) -> ws_id st ∈ streams sc.

Lemma count_control_alike wr sc : alike sc (count_control wr sc) /\
  needToSendSettingsAck (wst (count_control wr sc)) = needToSendSettingsAck (wst sc).
Proof. unfold count_control. destruct (isControl wr); [|by repeat split]. case_if; by repeat split. Qed.

Lemma step_push S sc wr ws :
  Inv L sc -> pushable sc wr -> Push (sched sc) wr = Ret ws ->
  step_ok L S (request_work wr) sc (set_sched ws sc).
Proof.
  intros Hi Hp E. destruct (Push_ok (sched sc) wr (i_sched _ _ Hi)) as (ws' & E' & Hok & Hq).
  rewrite E in E'. injection E' as <-.
  assert (Hquiet : forall id, is_Some (objs sc !! id) -> id ∉ streams sc -> quiet sc id -> quiet (set_sched ws sc) id).
  { intros id Hob Hid [Hf Hqs]. split; [done|]. intros j x. cbn [set_sched sched]. rewrite Hq.
    intros [Hx|Hx]%elem_of_app; [by eapply Hqs|]. case_decide; [|by apply not_elem_of_nil in Hx].
    apply list_elem_of_singleton in Hx as ->. intros st Hst <-. by apply Hid, Hp. }
  split_and!.
  - destruct Hi as [I1 I2 I3 I4 I5 I6 I7 I8 I9]. split; try done. intros id o Ho Hid Hs.
    apply Hquiet; [by exists o|done|]. by eapply I6.
  - split_and!; done.
  - intros _ id Hob [Hid|Hqu]; [by left|]. destruct (decide (id ∈ streams sc)) as [Hin|Hid]; [by left|]. right. by apply Hquiet.
  - intros _. cbn [set_sched sched wst]. rewrite (push_work _ _ _ E). split_and!; [lia|done|done].
Qed.

Lemma ignore_write_safe sc wr :
  Inv L sc -> (is_Some (stream wr) -> forall id c, H2Sched.write wr <> Some (writeStreamError id c)) ->
  safe (fun r => step_ok L true 0 sc (fst r) /\ sc_flows (fst r) = sc_flows sc /\ (snd r = false -> pushable (fst r) wr))
    (ignore_write sc wr).
Proof.
  intros Hi Hre. unfold ignore_write. apply safe_bind.
  set (P := fun closed : bool => closed = false -> pushable sc wr).
  apply (safe_mono P).
  - destruct (WR_StreamID wr =? 0) eqn:E0; breflect.
    + cbn [safe]. intros _ st Hst [o Ho]. unfold WR_StreamID in E0. rewrite Hst in E0.
      destruct (i_bound _ _ Hi _ o Ho) as ((? & _) & _). lia.
    + apply safe_bind. eapply safe_mono; [apply conn_state_safe|]. intros [s b] [Hs _]. cbn [fst snd safe] in *.
      intros Hc st Hst Ho. rewrite andb_false_iff, negb_false_iff in Hc. apply view_open; [done|done|].
      assert (Hid : WR_StreamID wr = ws_id st) by (unfold WR_StreamID; by rewrite Hst). rewrite <- Hid, <- Hs.
      destruct Hc as [Hc|Hc]; [by apply bool_decide_eq_false in Hc|]. exfalso.
      destruct (H2Sched.write wr) as [w|] eqn:Hw; [|done]. destruct w; try done. by eapply (Hre ltac:(by rewrite Hst)).
  - intros closed HP.
    assert (Hret : forall b, (b = false -> pushable sc wr) ->
      safe (fun r => step_ok L true 0 sc (fst r) /\ sc_flows (fst r) = sc_flows sc /\ (snd r = false -> pushable (fst r) wr))
        (Ret (sc, b))).
    { intros b Hb. split; [by apply step_refl|done]. }
    destruct (H2Sched.write wr) as [w|]; [|by apply Hret]. destruct w; try (by apply Hret); apply safe_bind, safe_deref;
      intros st Hst; apply safe_bind, obj_safe; intros o Ho.
    + cbn [safe fst snd]. split; [by apply step_obj_same|]. split; [done|]. intros Hc st' Hst' Hob. apply (HP Hc st' Hst').
      cbn [on_obj set_objs objs] in Hob. destruct (decide (ws_id st = ws_id st')) as [E|E].
      * by rewrite <- E, Ho.
      * by rewrite lookup_alter_ne in Hob.
    + destruct (wroteHeaders o); [|by apply Hret]. destruct (H2Sched.done wr); [done|by apply Hret].
Qed.

Lemma writeFrame_step sc wr :
  Inv L sc -> (is_Some (stream wr) -> forall id c, H2Sched.write wr <> Some (writeStreamError id c)) ->
  safe (fun sc' => step_ok L true (request_work wr) sc sc' /\ (L = true -> sc_flows sc' = sc_flows sc))
    (conn_writeFrame again sc wr).
Proof.
  intros Hi Hre. unfold conn_writeFrame. apply safe_bind. eapply safe_mono; [by apply ignore_write_safe|].
  intros [sc1 ign] (H1 & Hfl & Hp). cbn [fst snd] in *. apply safe_bind. destruct ign.
  - cbn [safe]. eapply safe_mono; [apply Hagain; by eapply step_inv|]. intros sc2 [H2 Heq].
    split; [eapply step_trans; [exact H1|exact H2|lia]|]. intros HL. rewrite (Heq HL). done.
  - apply safe_bind. destruct (Push (sched (count_control wr sc1)) wr) as [ws| |] eqn:E; [|done|].
    + cbn [safe]. destruct (count_control_alike wr sc1) as [Ha Hack].
      pose proof (alike_step L true _ _ Ha Hack (step_inv _ _ _ _ _ H1)) as H2.
      assert (H3 : step_ok L true (request_work wr) (count_control wr sc1) (set_sched ws (count_control wr sc1))).
      { apply step_push; [by eapply step_inv| |done]. destruct Ha as (_ & Es & Eo & _). unfold pushable. rewrite Es, Eo. by apply Hp. }
      eapply safe_mono; [apply Hagain; by eapply step_inv|]. intros sc2 [H4 Heq]. split.
      * pose proof (step_trans _ _ _ _ _ _ _ _ H1 H2 (Nat.le_refl _)) as H12.
        pose proof (step_trans _ _ _ _ _ _ _ _ H12 H3 (Nat.le_refl _)) as H13.
        eapply step_trans; [exact H13|exact H4|lia].
      * intros HL. rewrite (Heq HL). cbn [set_sched sc_flows]. destruct Ha as (_ & _ & _ & -> & _). done.
    + exfalso. destruct (count_control_alike wr sc1) as [(_ & _ & _ & _ & _ & Es & _) _].
      destruct (Push_ok (sched (count_control wr sc1)) wr) as (ws & Ew & _); [|congruence].
      rewrite Es. by eapply i_sched, step_inv.
Qed.

(** The same without the windows. *)
Lemma write_step sc wr :
  Inv L sc -> (is_Some (stream wr) -> forall id c, H2Sched.write wr <> Some (writeStreamError id c)) ->
  safe (step_ok L true (request_work wr) sc) (conn_writeFrame again sc wr).
Proof. intros Hi Hre. eapply safe_mono; [by apply writeFrame_step|]. by intros sc' [? _]. Qed.

(** ** Shutdown and resets *)

Lemma goAway_step sc code : Inv L sc -> safe (fun sc' => step_ok L true 0 sc sc' /\ (L = true -> streams sc' = streams sc))
  (goAway again sc code).
Proof.
  intros Hi. assert (Hs : forall f, step_ok L true 0 sc (on_away f sc)) by (intros f; by apply alike_step; [repeat split|..]).
  unfold goAway. destruct (inGoAway (away sc)).
  - destruct (goAwayCode (away sc) =? ErrCodeNo); cbn [safe]; split; auto using step_refl.
  - eapply safe_mono; [apply Hagain; by eapply step_inv|]. intros sc' [H1 Heq].
    split; [eapply step_trans; [apply Hs|exact H1|lia]|]. intros HL. by rewrite (Heq HL).
Qed.

Lemma resetStream_step sc id code : Inv L sc -> safe (step_ok L true 2 sc) (resetStream again sc id code).
Proof.
  intros Hi. unfold resetStream. eapply (safe_then _ _ 2 0); [by apply write_step; [|intros []]| |lia].
  intros sc1 H1. case_bool_decide as Hid; [|by eapply step_refl, step_inv].
  apply safe_bind, obj_safe. intros o Ho. by apply step_obj_same; [eapply step_inv|].
Qed.

(** ** Window updates *)

Lemma sendWindowUpdate32_step sc st n :
  Inv L sc -> is_i32 n ->
  safe (fun sc' => step_ok L true (if n =? 0 then 0 else 1) sc sc' /\
          (L = true -> st = None -> 0 <= n /\ window (sc_flows sc') 1 = window (sc_flows sc) 1 + n /\
             is_i32 (window (sc_flows sc') 1)))
    (sendWindowUpdate32 again sc st n).
Proof.
  intros Hi Hn. unfold sendWindowUpdate32. destruct (n =? 0) eqn:E0; breflect.
  { cbn [safe]. split; [by apply step_refl|]. intros _ _. split_and!; [lia|lia|].
    destruct (i_flows _ _ Hi) as (Hfo & _ & f & Hf & _). unfold window. rewrite Hf. by eapply (proj1 Hfo). }
  destruct (n <? 0) eqn:E1; breflect; [done|]. apply safe_bind.
  apply (safe_mono (fun _ => True)).
  { destruct st as [id|]; [|done]. apply safe_bind. unfold wstream_of. apply safe_bind, obj_safe. done. }
  intros p _. apply safe_bind. eapply safe_mono; [by apply writeFrame_step|]. intros sc1 [H1 Hfl].
  change (request_work _) with 1%nat in H1. apply safe_bind. apply (safe_mono (fun a => st = None -> a = 1%nat)).
  { destruct st as [id|]; [|done]. apply safe_bind, obj_safe. done. }
  intros a Ha. apply safe_bind. eapply safe_mono; [apply (add_safe (sc_flows sc1) a n)|].
  - by eapply i_flows, step_inv.
  - done.
  - lia.
  - intros [fl ok] (Hw & _ & Hadd & Hrange). cbn [fst snd] in *. destruct ok; [|done]. cbn [safe]. split.
    + eapply step_trans; [exact H1|apply step_flows; [done|by eapply step_inv]|lia].
    + intros HL Hst. rewrite (Ha Hst) in *. cbn [set_flows sc_flows]. rewrite (Hadd eq_refl), (Hfl HL), decide_True by done.
      split_and!; [lia|done|]. rewrite <- (Hfl HL). specialize (Hadd eq_refl 1%nat). rewrite decide_True in Hadd by done.
      rewrite <- Hadd. by apply Hrange.
Qed.

(** Rounds there are enough of; together they add at most one frame, since two
    would exceed the window. *)
Lemma window_loop_step rounds sc st n :
  Inv L sc -> (n < (Z.of_nat rounds + 1) * maxUint31) ->
  safe (fun sc' => step_ok L true (S rounds) sc sc' /\
          (L = true -> st = None ->
             step_ok L true (if window (sc_flows sc) 1 =? maxUint31 then 0 else 1) sc sc'))
    (window_loop again rounds sc st n).
Proof.
  revert sc n. induction rounds as [|rounds IH]; intros sc n Hi Hn; cbn [window_loop];
    destruct (n >=? maxUint31) eqn:E; breflect; unfold maxUint31 in *; try lia.
  1,3: eapply safe_mono; [apply sendWindowUpdate32_step; [done|apply is_i32_i32]|]; intros sc' [H1 Hw];
    (split; [eapply step_weaken; [exact H1|destruct (i32 n =? 0); lia|done]|]); intros HL Hst;
    destruct (Hw HL Hst) as (? & E2 & ?);
    (eapply step_weaken; [exact H1| |done]); destruct (i32 n =? 0) eqn:En; breflect; [lia|];
    destruct (window (sc_flows sc) 1 =? 2 ^ 31 - 1) eqn:E3; breflect; [|lia]; exfalso; unfold is_i32 in *; lia.
  apply safe_bind. eapply safe_mono; [apply (sendWindowUpdate32_step sc st (2 ^ 31 - 1)); [done|width]|].
  intros sc1 [H1 Hw]. change (2 ^ 31 - 1 =? 0) with false in H1. cbv iota in H1.
  eapply safe_mono; [apply IH; [by eapply step_inv|lia]|]. intros sc2 [H2 Hone]. split.
  - eapply step_trans; [exact H1|exact H2|lia].
  - intros HL Hst. destruct (Hw HL Hst) as (_ & E1 & Hr). specialize (Hone HL Hst).
    pose proof (window_lower _ (i_flows _ _ Hi)) as Hlo.
    assert (E0 : window (sc_flows sc) 1 = 0) by width. rewrite E0. rewrite E1, E0 in Hone.
    change (0 + (2 ^ 31 - 1) =? 2 ^ 31 - 1) with true in Hone. change (0 =? 2 ^ 31 - 1) with false. cbv iota in Hone |- *.
    eapply step_trans; [exact H1|exact Hone|lia].
Qed.

Lemma sendWindowUpdate_step sc st n :
  Inv L sc ->
  safe (fun sc' => exists k, step_ok L true k sc sc' /\ (L = true -> st = None -> step_ok L true 1 sc sc'))
    (sendWindowUpdate again sc st n).
Proof.
  intros Hi. unfold sendWindowUpdate. eapply safe_mono; [apply window_loop_step; [done|]|].
  - assert (Hm : 0 < maxUint31) by (unfold maxUint31; lia).
    pose proof (Z.mod_pos_bound n maxUint31 Hm). pose proof (Z.div_mod n maxUint31 ltac:(lia)).
    destruct (Z_le_gt_dec 0 (n / maxUint31)); [rewrite Z2Nat.id by done; lia|].
    replace (Z.to_nat (n / maxUint31)) with 0%nat by lia. nia.
  - intros sc' [H1 H2]. eexists. split; [exact H1|]. intros HL Hst.
    eapply step_weaken; [by apply H2| |done]. destruct (window (sc_flows sc) 1 =? maxUint31); lia.
Qed.

(** ** Closing *)

(** The counters and the map when a stream closes. *)
Definition mark_closed (id : Z) sc : serverConn :=
  set_streams (streams sc ∖ {[id]})
    (on_ids (fun i =>
      if isPushed id
      then mkIds (clientMaxStreams i) (advMaxStreams i) (curClientStreams i) (u32 (curPushedStreams i - 1))
             (maxClientStreamID i) (maxPushPromiseID i)
      else mkIds (clientMaxStreams i) (advMaxStreams i) (u32 (curClientStreams i - 1)) (curPushedStreams i)
             (maxClientStreamID i) (maxPushPromiseID i))
    (on_obj id (s_state stateClosed) sc)).

Lemma isPushed_odd id : isPushed id = negb (Z.odd id).
Proof. unfold isPushed. by rewrite <- Z.negb_odd. Qed.

Lemma ids_ok_close i S id :
  ids_ok i S -> id ∈ S ->
  ids_ok (if isPushed id
          then mkIds (clientMaxStreams i) (advMaxStreams i) (curClientStreams i) (u32 (curPushedStreams i - 1))
                 (maxClientStreamID i) (maxPushPromiseID i)
          else mkIds (clientMaxStreams i) (advMaxStreams i) (u32 (curClientStreams i - 1)) (curPushedStreams i)
                 (maxClientStreamID i) (maxPushPromiseID i)) (S ∖ {[id]}).
Proof.
  intros [N1 N2 N3 N4 N5 N6 N7] Hid. rewrite isPushed_odd.
  pose proof (filter_size_del (fun x => Z.odd x = true) S id Hid) as Ho.
  pose proof (filter_size_del (fun x => Z.odd x = false) S id Hid) as He.
  fold (odd_ids S) (odd_ids (S ∖ {[id]})) in Ho. fold (even_ids S) (even_ids (S ∖ {[id]})) in He.
  destruct (Z.odd id) eqn:E; cbn [negb]; repeat case_decide; try congruence; split;
    cbn [curClientStreams curPushedStreams advMaxStreams maxClientStreamID maxPushPromiseID]; rewrite ?u32_id by width;
    try done; lia.
Qed.

Lemma id_limit_close i id j a b :
  id_limit (if (b : bool) then mkIds (clientMaxStreams i) (advMaxStreams i) (curClientStreams i) a
              (maxClientStreamID i) (maxPushPromiseID i)
            else mkIds (clientMaxStreams i) (advMaxStreams i) id (curPushedStreams i)
              (maxClientStreamID i) (maxPushPromiseID i)) j = id_limit i j.
Proof. unfold id_limit. by destruct b, (Z.odd j). Qed.

Lemma mark_closed_step sc id :
  Inv L sc -> id ∈ streams sc ->
  Inv L (mark_closed id sc) /\ forward sc (mark_closed id sc) /\
  (forall j, j <> id -> settled sc j -> settled (mark_closed id sc) j).
Proof.
  intros Hi Hid. destruct (i_live _ _ Hi id Hid) as (o0 & Ho0 & _).
  assert (Hlook : forall j o', alter (s_state stateClosed) id (objs sc) !! j = Some o' -> exists o, objs sc !! j = Some o /\
    st_flow o' = st_flow o /\ st_inflow o' = st_inflow o /\ st_state o' = if decide (j = id) then stateClosed else st_state o).
  { intros j o'. destruct (decide (j = id)) as [->|Hne].
    - rewrite lookup_alter_eq, Ho0. intros [= <-]. by exists o0.
    - rewrite lookup_alter_ne by done. intros Ho. by exists o'. }
  split_and!.
  - split; try apply Hi; cbn [mark_closed set_streams on_ids on_obj set_objs objs streams ids].
    + by apply ids_ok_close; [apply Hi|].
    + intros j o' Ho'. destruct (Hlook j o' Ho') as (o & Ho & -> & -> & _). rewrite id_limit_close. by apply (i_bound _ _ Hi).
    + intros j. rewrite elem_of_difference, elem_of_singleton. intros [Hj Hne].
      destruct (i_live _ _ Hi j Hj) as (o & Ho & ? & ?). exists o. by rewrite lookup_alter_ne.
    + intros j o' Ho' Hj Hs. destruct (Hlook j o' Ho') as (o & Ho & _ & _ & E). rewrite E in Hs. case_decide; [done|].
      apply (i_dead _ _ Hi j o); try done. rewrite elem_of_difference, elem_of_singleton in Hj. tauto.
  - split_and!; [| |by cbn; destruct (isPushed id)].
    + intros j. unfold view. cbn [mark_closed set_streams on_ids on_obj set_objs objs streams ids].
      rewrite id_limit_close. destruct (decide (j = id)) as [->|Hne].
      * rewrite (bool_decide_false (id ∈ streams sc ∖ {[id]})) by set_solver.
        rewrite (proj2 (Z.leb_le _ _)) by (by apply (i_bound _ _ Hi id o0 Ho0)). apply rank_le_closed.
      * rewrite lookup_alter_ne by done. assert (E : j ∈ streams sc ∖ {[id]} <-> j ∈ streams sc) by set_solver.
        by rewrite (bool_decide_ext _ _ E).
    + intros j o Ho. cbn. destruct (decide (j = id)) as [->|Hne]; [rewrite lookup_alter_eq, Ho; by eexists|rewrite lookup_alter_ne by done; by exists o].
  - intros j Hne [Hj|Hq]; [left|by right]. cbn. set_solver.
Qed.

(** [last_closed] touches only the shutdown of the connection. *)
Lemma last_closed_step sc : Inv L sc -> safe (step_ok L true 0 sc) (last_closed cfg h1ServerKeepAlivesDisabled again sc).
Proof.
  intros Hi. unfold last_closed. case_bool_decide as Hs; [|by apply step_refl].
  apply (safe_then _ _ 0 0); [| |lia].
  - destruct (IdleTimeout cfg); [|by apply step_refl]. destruct (idleTimer (away sc)); [|done].
    apply alike_step; [by repeat split|done|done].
  - intros sc1 H1. assert (H2 : step_ok L true 0 sc1 (tick sc1)).
    { apply alike_step; [by repeat split|done|by eapply step_inv]. }
    destruct (h1ServerKeepAlivesDisabled (ticks sc1)); [|done].
    eapply (safe_after _ _ 0 0); [exact H2| |lia]. eapply safe_mono; [apply goAway_step; by eapply step_inv|].
    by intros sc2 [? _].
Qed.

(** The end of closeStream: nothing of the stream is left in the queues. *)
Lemma step_unqueue sc id :
  Inv L sc -> 0 < id ->
  step_ok L true 0 sc (set_sched (CloseStream (sched sc) id) sc) /\
  (inFlight (wst sc) = None -> quiet (set_sched (CloseStream (sched sc) id) sc) id).
Proof.
  intros Hi Hid. destruct (CloseStream_ok (sched sc) id (i_sched _ _ Hi) ltac:(lia)) as [Hok Hq].
  assert (Hsub : forall j x, x ∈ qof (CloseStream (sched sc) id) j -> j <> id /\ x ∈ qof (sched sc) j).
  { intros j x. rewrite Hq. case_decide; [by intros ?%not_elem_of_nil|done]. }
  assert (Hquiet : forall j, quiet sc j -> quiet (set_sched (CloseStream (sched sc) id) sc) j).
  { intros j [H1 H2]. split; [done|]. intros k x [_ Hx]%Hsub. by eapply H2. }
  split; [split_and!|].
  - destruct Hi as [I1 I2 I3 I4 I5 I6 I7 I8 I9]. split; try done. intros j o Ho Hj Hs. apply Hquiet. by eapply I6.
  - split_and!; done.
  - intros _ j _ [Hj|Hj]; [by left|right; by apply Hquiet].
  - intros _. cbn [set_sched sched wst]. pose proof (close_work (sched sc) id). split_and!; [lia|done|done].
  - intros Hf. split; [cbn; by rewrite Hf|]. intros j x [Hne Hx]%Hsub st Hst E. apply Hne.
    pose proof (qof_ids (sched sc) j (i_sched _ _ Hi)) as Hids. rewrite Forall_forall in Hids.
    rewrite <- (Hids x Hx). unfold WR_StreamID. by rewrite Hst.
Qed.

Lemma closeStream_step sc id err :
  Inv L sc -> id ∈ streams sc -> (L = true -> inFlight (wst sc) = None) ->
  safe (fun sc' => exists k, step_ok L L k sc sc' /\ (L = true -> step_ok L L 1 sc sc'))
    (closeStream cfg h1ServerKeepAlivesDisabled again sc id err).
Proof.
  intros Hi Hid Hfl. unfold closeStream. apply safe_bind, obj_safe. intros o Ho.
  destruct (bool_decide (st_state o = stateIdle) || bool_decide (st_state o = stateClosed)); [done|].
  change (set_streams _ _) with (mark_closed id sc). destruct (mark_closed_step sc id Hi Hid) as (H1 & F1 & S1).
  destruct (i_bound _ _ Hi id o Ho) as ((Hpos & _) & _).
  apply safe_bind. eapply safe_mono; [by apply last_closed_step|]. intros sc2 H2. apply safe_bind.
  apply (safe_mono (fun sc3 => exists k, step_ok L true k (mark_closed id sc) sc3 /\
    (L = true -> step_ok L true 1 (mark_closed id sc) sc3))).
  { destruct (st_body o) as [p|]; [|exists 0%nat; split; [done|]; intros _; by eapply step_weaken; [exact H2|lia|]].
    apply safe_bind. eapply safe_mono; [apply sendWindowUpdate_step; by eapply step_inv|]. intros sc3 (k & H3 & H3').
    apply safe_bind, obj_safe. intros o3 Ho3. apply safe_bind, safe_deref. intros p3 Hp3. apply safe_bind.
    apply (safe_mono (fun _ => True)); [unfold CloseWithError, closeWithError; by destruct (p_err p3)|]. intros p4 _.
    cbn [safe]. assert (H4 : step_ok L true 0 sc3 (on_obj id (s_body (Some p4)) sc3)).
    { apply step_obj_same; [by eapply step_inv|done]. }
    exists k. split; [|intros HL; specialize (H3' HL eq_refl)]; (eapply step_trans; [exact H2| |]);
      [eapply step_trans; [exact H3|exact H4|apply Nat.le_refl]|lia|eapply step_trans; [exact H3'|exact H4|apply Nat.le_refl]|lia]. }
  intros sc3 (k & H3 & H3'). apply safe_bind, obj_safe. intros o3 Ho3. destruct (st_cw o3); [done|]. cbn [safe].
  assert (H4 : step_ok L true 0 sc3 (on_obj id s_cw sc3)) by (apply step_obj_same; [by eapply step_inv|done]).
  destruct (step_unqueue (on_obj id s_cw sc3) id (step_inv _ _ _ _ _ H4) Hpos) as [H5 Hq].
  pose proof (step_trans _ _ _ _ _ _ _ _ H4 H5 (Nat.le_refl _)) as H45.
  assert (Hall : forall k, step_ok L true k (mark_closed id sc) sc3 ->
    step_ok L L k sc (set_sched (CloseStream (sched (on_obj id s_cw sc3)) id) (on_obj id s_cw sc3))).
  { intros k' Hk. pose proof (step_trans _ _ _ _ _ _ _ _ Hk H45 (Nat.le_refl _)) as (I6 & F6 & S6 & W6).
    split_and!; [done|by eapply forward_trans| |].
    - intros HL j Hj Hs. destruct (decide (j = id)) as [->|Hne].
      + right. apply Hq. destruct (W6 HL) as (_ & _ & E). cbn in E |- *. rewrite E. by apply Hfl.
      + apply (S6 eq_refl); [|by apply S1]. cbn. by rewrite lookup_alter_ne.
    - intros HL. destruct (W6 HL) as (? & ? & ?). split_and!; [change (sched (mark_closed id sc)) with (sched sc) in *; lia|done|done]. }
  exists k. split; [by apply Hall|]. intros HL. apply Hall, H3', HL.
Qed.

(** The stream of a request is open, or its object says that it is closed. *)
Definition live_req sc (wr : FrameWriteRequest) : Prop :=
  forall st o, stream wr = Some st -> objs sc !! ws_id st = Some o -> ws_id st ∈ streams sc \/ st_state o = stateClosed.

Lemma closeStream_live sc id err :
  Inv L sc -> (forall o, objs sc !! id = Some o -> id ∈ streams sc \/ st_state o = stateClosed) ->
  (L = true -> inFlight (wst sc) = None) ->
  safe (fun sc' => exists k, step_ok L L k sc sc' /\ (L = true -> step_ok L L 1 sc sc'))
    (closeStream cfg h1ServerKeepAlivesDisabled again sc id err).
Proof.
  intros Hi Hl Hfl. destruct (objs sc !! id) as [o|] eqn:Ho.
  - destruct (Hl o eq_refl) as [Hid|Hs]; [by apply closeStream_step|].
    unfold closeStream, obj. rewrite Ho. cbn [deref outcome_bind]. rewrite Hs. done.
  - unfold closeStream, obj. by rewrite Ho.
Qed.

Lemma reply_safe ch wr err : safe (fun _ => True) (replyToWriter ch wr err).
Proof. unfold replyToWriter. destruct (H2Sched.done wr) as [c|]; [|done]. by destruct (ch !! c) as [[|]|]. Qed.

(** Up to [gain] when the loop is running, without a bound otherwise. *)
Definition step_gain (k : nat) sc sc' : Prop := exists k', step_ok L L k' sc sc' /\ (L = true -> step_ok L L k sc sc').

Lemma step_gain_of k sc sc' : step_ok L true k sc sc' -> step_gain k sc sc'.
Proof. intros Hs. assert (step_ok L L k sc sc') by (by eapply step_weaken; [exact Hs|lia|]). by exists k. Qed.

Lemma step_gain_weaken k k' sc sc' : step_gain k sc sc' -> (k <= k')%nat -> step_gain k' sc sc'.
Proof. intros (x & H1 & H2) Hk. exists x. split; [done|]. intros HL. by eapply step_weaken; [apply (H2 HL)| |]. Qed.

Lemma step_gain_trans k1 k2 k sc1 sc2 sc3 :
  step_gain k1 sc1 sc2 -> step_gain k2 sc2 sc3 -> (k1 + k2 <= k)%nat -> step_gain k sc1 sc3.
Proof.
  intros (x & H1 & H1') (y & H2 & H2') Hk. exists (x + y)%nat. split; [by eapply step_trans|].
  intros HL. by eapply step_trans; [apply (H1' HL)|apply (H2' HL)|].
Qed.

Lemma step_gain_inv k sc sc' : step_gain k sc sc' -> Inv L sc'.
Proof. intros (x & (Hi & _) & _). done. Qed.

(** ** A frame has been written *)

Lemma wroteFrame_step sc wr err :
  let sc0 := on_wst (w_writing false false) sc in
  Inv L sc0 -> (L = true -> inFlight (wst sc) = None) -> live_req sc wr ->
  safe (step_gain (gain wr) sc0) (wroteFrame cfg h1ServerKeepAlivesDisabled again sc wr err).
Proof.
  intros sc0 Hi Hfl Hl. unfold wroteFrame. destruct (negb (writingFrame (wst sc))); [done|]. fold sc0.
  apply safe_bind. apply (safe_mono (fun b => b = true -> gain wr = 2%nat)).
  { unfold writeEndsStream, gain. destruct (H2Sched.write wr) as [w|]; [|done]. destruct w; simpl; try done. by intros ->. }
  intros b Hb. apply safe_bind. apply (safe_mono (step_gain (gain wr) sc0)).
  - destruct b.
    + rewrite (Hb eq_refl). apply safe_bind, safe_deref. intros st Hst. apply safe_bind, obj_safe. intros o Ho.
      destruct (st_state o) eqn:Es; try (by apply step_gain_of; eapply step_weaken; [by apply step_refl|lia|]).
      * destruct (Hl st o Hst Ho) as [Hid|Hc]; [|congruence].
        assert (H1 : step_ok L true 0 sc0 (on_obj (ws_id st) (s_state stateHalfClosedLocal) sc0)).
        { apply step_obj; [done|]. intros o' Ho'. cbn in Ho, Ho'. rewrite Ho in Ho'. injection Ho' as <-.
          rewrite Es. split_and!; try done. simpl. intros _. split_and!; try done. lia. }
        eapply safe_mono; [apply resetStream_step; by eapply step_inv|]. intros sc1 H2. apply step_gain_of.
        by eapply step_trans; [exact H1|exact H2|lia].
      * eapply safe_mono; [apply closeStream_live; [done| |done]|].
        { intros o' Ho'. cbn in Ho, Ho'. rewrite Ho in Ho'. injection Ho' as <-. by apply (Hl st). }
        intros sc1 H1. by eapply step_gain_weaken; [exact H1|lia].
    + assert (Hnone : safe (step_gain (gain wr) sc0) (Ret sc0)).
      { apply step_gain_of. by eapply step_weaken; [by apply step_refl|lia|]. }
      unfold gain. destruct (H2Sched.write wr) as [w|] eqn:Hw; [|by apply step_gain_of, step_refl].
      destruct w; try (by unfold gain in Hnone; rewrite Hw in Hnone).
      * apply safe_bind, safe_deref. intros st Hst. apply closeStream_live; try done. intros o Ho. by apply (Hl st).
      * case_bool_decide as Hid; [by apply closeStream_step|]. by unfold gain in Hnone; rewrite Hw in Hnone.
  - intros sc1 H1. apply safe_bind. eapply safe_mono; [apply reply_safe|]. intros [ch wr'] _.
    assert (H2 : step_ok L true 0 sc1 (set_chans ch sc1)).
    { apply alike_step; [by repeat split|done|by eapply step_gain_inv]. }
    eapply safe_mono; [apply again_step; by eapply step_inv|]. intros sc2 H3.
    eapply step_gain_trans; [exact H1| |].
    + eapply step_gain_trans; [apply step_gain_of, H2|apply step_gain_of, H3|apply Nat.le_refl].
    + lia.
Qed.
End Steps.
