(* ===== verification/H2ConnSched.v ===== *)
(** * HTTP/2: opening streams and scheduling writes

    newStream, allocatePromisedID, startFrameWrite and scheduleFrameWrite keep the
    invariant, and scheduleFrameWrite returns: the fuel of its loop is enough. *)

From S2P Require Import Prelude Bytes H2Base H2Frame H2Write H2Sched H2Pipe H2Conn H2ConnInv H2ConnParts H2ConnWrite.

(** ** The writer

    Writing a frame always comes to an end. *)
Class ConnWriterLaws `{ConnWriter} := nw_returns w n : safe (fun _ => True) (nw_writeFrame w n).

(** The writers of write.go, over a buffered writer of which [avail] tells the
    room that is left. *)
Section Writers.
Context `{HPACKEnc}.
Variable avail : writeContext -> Z.

Definition ctx_writer : ConnWriter :=
  {| NW := writeContext; nw_Available := avail; nw_writeFrame := writeFrame |}.

Lemma split_returns first_op sid fn ctx block :
  writes_block first_op sid fn -> safe (fun _ => True) (splitHeaderBlock ctx block fn).
Proof.
  intros Hfn. unfold splitHeaderBlock.
  by destruct (split_loop_spec first_op sid fn (S (length block)) ctx block true Hfn ltac:(lia)) as (? & ? & -> & _).
Qed.

Lemma ctx_writer_returns : @ConnWriterLaws ctx_writer.
Proof.
  intros w ctx. simpl. destruct w; simpl; repeat case_match; try done.
  - unfold res_writeFrame, res_fields, encodeHeaders. destruct (rs_h w) as [h|]; cbn [deref outcome_bind].
    all: repeat case_match; simplify_eq/=; try done; eapply split_returns, res_writes_block.
  - unfold push_writeFrame. repeat case_match; [done|]. eapply split_returns, push_writes_block.
Qed.
End Writers.

Section Open.
Context `{ConnWriter}.
Variable cfg : Config.
Variable L : bool.
Implicit Types sc : serverConn.

(** The windows of the configuration fit their type. *)
Definition cfg_ok : Prop :=
  is_i32 (MaxUploadBufferPerConnection cfg) /\ is_i32 (MaxUploadBufferPerStream cfg) /\
  is_u32 (MaxConcurrentStreams cfg).

(** A new identifier of its kind. *)
Definition raised (id : Z) (i : idState) : idState :=
  if Z.odd id
  then mkIds (clientMaxStreams i) (advMaxStreams i) (curClientStreams i) (curPushedStreams i) id (maxPushPromiseID i)
  else mkIds (clientMaxStreams i) (advMaxStreams i) (curClientStreams i) (curPushedStreams i) (maxClientStreamID i) id.

Definition counted (id : Z) (i : idState) : idState :=
  if isPushed id
  then mkIds (clientMaxStreams i) (advMaxStreams i) (curClientStreams i) (u32 (curPushedStreams i + 1))
         (maxClientStreamID i) (maxPushPromiseID i)
  else mkIds (clientMaxStreams i) (advMaxStreams i) (u32 (curClientStreams i + 1)) (curPushedStreams i)
         (maxClientStreamID i) (maxPushPromiseID i).

Lemma id_limit_raised id i j : id_limit i id < id -> id_limit i j <= id_limit (raised id i) j.
Proof. unfold raised, id_limit. destruct (Z.odd id), (Z.odd j); simpl; lia. Qed.

Lemma id_limit_counted id i j : id_limit (counted id i) j = id_limit i j.
Proof. apply id_limit_close. Qed.

Lemma odd_gap a b : Z.odd a = Z.odd b -> a < b -> a + 2 <= b.
Proof.
  intros E Hl. destruct (Z_le_gt_dec (a + 2) b); [done|]. assert (b = a + 1) as -> by lia.
  rewrite Z.odd_add in E. simpl in E. by destruct (Z.odd a).
Qed.

Lemma ids_ok_raised i S id : ids_ok i S -> id_limit i id < id < 2 ^ 31 -> ids_ok (raised id i) S.
Proof.
  intros [N1 N2 N3 N4 N5 N6 N7] Hid. unfold raised, id_limit in *.
  destruct (Z.odd id) eqn:E; split; simpl; try done; try lia; split; lia || auto.
Qed.

Lemma ids_ok_new i S id :
  ids_ok i S -> id ∉ S -> id_limit i id < id < 2 ^ 31 ->
  (Z.odd id = true -> curClientStreams i + 1 <= advMaxStreams i) ->
  ids_ok (counted id (raised id i)) (S ∪ {[id]}).
Proof.
  intros [N1 N2 N3 N4 N5 N6 N7] Hn Hid Hadv. unfold counted, raised, id_limit in *. rewrite isPushed_odd.
  pose proof (filter_size_add (fun x => Z.odd x = true) S id Hn) as Ho.
  pose proof (filter_size_add (fun x => Z.odd x = false) S id Hn) as He.
  fold (odd_ids S) (odd_ids (S ∪ {[id]})) in Ho. fold (even_ids S) (even_ids (S ∪ {[id]})) in He.
  destruct (Z.odd id) eqn:E; cbn [negb]; repeat case_decide; try congruence.
  - specialize (Hadv eq_refl). assert (2 * (curClientStreams i + 1) <= id + 1).
    { destruct N6 as [? [E0|E0]]; [lia|]. pose proof (odd_gap (maxClientStreamID i) id ltac:(congruence) ltac:(lia)). lia. }
    split; cbn [curClientStreams curPushedStreams advMaxStreams maxClientStreamID maxPushPromiseID];
      rewrite ?u32_id by width; try done; try lia. split; [lia|by right].
  - assert (2 * (curPushedStreams i + 1) <= id).
    { pose proof (odd_gap (maxPushPromiseID i) id ltac:(destruct N7; congruence) ltac:(lia)). lia. }
    split; cbn [curClientStreams curPushedStreams advMaxStreams maxClientStreamID maxPushPromiseID];
      rewrite ?u32_id by width; try done; try lia. split; [lia|done].
Qed.

(** Raising the limit alone: the stream is refused. *)
Lemma raise_step S sc id :
  Inv L sc -> id_limit (ids sc) id < id < 2 ^ 31 -> step_ok L S 0 sc (on_ids (raised id) sc).
Proof.
  intros Hi Hid. assert (Hlim : forall j, id_limit (ids sc) j <= id_limit (raised id (ids sc)) j).
  { intros j. apply id_limit_raised. lia. }
  split_and!.
  - destruct Hi as [I1 I2 I3 I4 I5 I6 I7 I8 I9]. split; try done.
    + by apply ids_ok_raised.
    + intros j o Ho. destruct (I4 j o Ho) as ((? & ?) & ?). specialize (Hlim j). cbn. split; [lia|done].
  - split_and!; [|done|cbn; unfold raised; by destruct (Z.odd id)]. intros j. unfold view. cbn. case_bool_decide; [done|]. specialize (Hlim j).
    destruct (j <=? id_limit (ids sc) j) eqn:E; breflect; [|simpl; lia].
    rewrite (proj2 (Z.leb_le _ _)) by lia. done.
  - by intros _ j _.
  - intros _. split_and!; simpl; lia || done.
Qed.

(** The state newStream leaves, but for the windows. *)
Definition opened (id : Z) (st : streamObj) (fl : flows) sc : serverConn :=
  on_ids (counted id)
    (set_sched (OpenStream (sched sc) id)
       (set_streams (streams sc ∪ {[id]}) (set_objs (<[id := st]> (objs sc)) (set_flows fl sc)))).

Lemma opened_step sc id st fl :
  Inv L sc -> id_limit (ids sc) id < id < 2 ^ 31 -> windows_ok fl ->
  (Z.odd id = true -> curClientStreams (ids sc) + 1 <= advMaxStreams (ids sc)) ->
  (2 <= st_flow st)%nat -> (2 <= st_inflow st)%nat -> st_state st <> stateIdle -> st_state st <> stateClosed ->
  step_ok L true 0 sc (opened id st fl (on_ids (raised id) sc)).
Proof.
  intros Hi Hid Hfl Hadv Hf Hif Hs1 Hs2. pose proof (i_ids _ _ Hi) as Hok.
  assert (Hpos : 0 <= id_limit (ids sc) id).
  { destruct Hok as [_ _ _ _ _ [? _] [? _]]. unfold id_limit. destruct (Z.odd id); lia. }
  assert (Hno : objs sc !! id = None).
  { destruct (objs sc !! id) as [o|] eqn:Ho; [|done]. destruct (i_bound _ _ Hi id o Ho) as ((_ & ?) & _). lia. }
  assert (Hns : id ∉ streams sc).
  { intros Hin. destruct (i_live _ _ Hi id Hin) as (o & Ho & _). congruence. }
  assert (Hlim : forall j, id_limit (ids sc) j <= id_limit (raised id (ids sc)) j) by (intros j; apply id_limit_raised; lia).
  assert (Hme : id_limit (raised id (ids sc)) id = id) by (unfold id_limit, raised; by destruct (Z.odd id) eqn:E; simpl; rewrite ?E).
  split_and!.
  - destruct Hi as [I1 I2 I3 I4 I5 I6 I7 I8 I9].
    split; try done; cbn [opened on_ids set_sched set_streams set_objs set_flows streams objs ids].
    + by apply ids_ok_new.
    + intros j o. rewrite id_limit_counted. destruct (decide (j = id)) as [->|Hne].
      * rewrite lookup_insert_eq. intros [= <-]. rewrite Hme. split; [lia|done].
      * rewrite lookup_insert_ne by done. intros Ho. destruct (I4 j o Ho) as ((? & ?) & ?). specialize (Hlim j).
        split; [lia|done].
    + intros j Hj. destruct (decide (j = id)) as [->|Hne]; [exists st; by rewrite lookup_insert_eq|].
      rewrite lookup_insert_ne by done. apply I5. set_solver.
    + intros j o Ho Hj Hs. destruct (decide (j = id)) as [->|Hne]; [set_solver|].
      rewrite lookup_insert_ne in Ho by done. eapply I6; [done|set_solver|done].
  - split_and!; [intros j; destruct (decide (j = id)) as [->|Hne]|intros j o Ho|
      cbn; unfold counted, raised; by destruct (isPushed id), (Z.odd id)].
    + unfold view. rewrite (bool_decide_false (id ∈ streams sc)) by done.
      rewrite (proj2 (Z.leb_gt _ _)) by lia. simpl. lia.
    + unfold view. cbn. rewrite lookup_insert_ne by done. rewrite id_limit_counted.
      assert (E : j ∈ streams sc ∪ {[id]} <-> j ∈ streams sc) by set_solver. rewrite (bool_decide_ext _ _ E).
      case_bool_decide; [done|]. specialize (Hlim j). destruct (j <=? id_limit (ids sc) j) eqn:E1; breflect; [|simpl; lia].
      rewrite (proj2 (Z.leb_le _ _)) by lia. done.
    + exists o. cbn. rewrite lookup_insert_ne; [done|]. intros ->. by rewrite Hno in Ho.
  - intros _ j _ [Hj|Hq]; [left; cbn; set_solver|by right].
  - intros _. split_and!; [apply Nat.le_add_r|done|done].
Qed.

Hypothesis Hcfg : cfg_ok.

Lemma recv_window_range : is_i32 (initialStreamRecvWindowSize cfg).
Proof. destruct Hcfg as (_ & ? & _). unfold initialStreamRecvWindowSize. case_if; [done|width]. Qed.

Lemma newStream_step sc id state :
  Inv L sc -> id_limit (ids sc) id < id < 2 ^ 31 ->
  (Z.odd id = true -> curClientStreams (ids sc) + 1 <= advMaxStreams (ids sc)) ->
  state <> stateIdle -> state <> stateClosed ->
  safe (fun sc' => step_ok L true 0 sc sc' /\ streams sc' = streams sc ∪ {[id]})
    (newStream cfg (on_ids (raised id) sc) id state).
Proof.
  intros Hi Hid Hadv Hs1 Hs2. unfold newStream. destruct (id =? 0); [done|].
  pose proof (i_flows _ _ Hi) as Hfl. cbn [on_ids sc_flows peer].
  assert (Hlen : (2 <= length (sc_flows sc))%nat).
  { destruct Hfl as (_ & _ & f & Hf & _). apply lookup_lt_Some in Hf. lia. }
  apply safe_bind. eapply safe_mono; [apply add_safe; [by apply windows_new|apply (i_peer _ _ Hi)|lia]|].
  intros [fl1 b1] (Hw1 & _). cbn [fst snd] in *. apply safe_bind.
  eapply safe_mono; [apply add_safe; [done|apply recv_window_range|lia]|].
  intros [fl2 b2] (Hw2 & _). cbn [fst snd safe] in *. split; [|done].
  apply (opened_step sc id (mkStream None false 0 0 (length (sc_flows sc)) (S (length (sc_flows sc))) state
           false false false [] None)); simpl; try done; lia.
Qed.
End Open.

Section Push.
Context `{ConnWriter}.
Variable cfg : Config.
Hypothesis Hcfg : cfg_ok cfg.
Variables (L : bool) (again : serverConn -> outcome serverConn).
Hypothesis Hagain : again_ok L again.
Implicit Types sc : serverConn.

Lemma allocatePromisedID_step sc :
  Inv L sc ->
  safe (fun r => step_ok L true 0 sc (fst r) /\ (L = true -> streams sc ⊆ streams (fst r)))
    (allocatePromisedID cfg again sc).
Proof.
  intros Hi. unfold allocatePromisedID.
  assert (Hsame : step_ok L true 0 sc sc /\ (L = true -> streams sc ⊆ streams sc)) by (split; [by apply step_refl|done]).
  destruct (negb (pushEnabled (peer sc))); [done|]. case_if; [done|].
  destruct (n_maxp _ _ (i_ids _ _ Hi)) as [Hr Ho]. rewrite u32_id by width. case_if; breflect.
  - apply safe_bind. unfold startGracefulShutdownInternal. eapply safe_mono; [by apply goAway_step|].
    intros sc1 [H1 E]. cbn [safe fst]. split; [done|]. intros HL. by rewrite (E HL).
  - set (id := maxPushPromiseID (ids sc) + 2) in *.
    assert (Hodd : Z.odd id = false) by (subst id; by rewrite Z.odd_add, Ho).
    assert (Hlim : id_limit (ids sc) id = maxPushPromiseID (ids sc)) by (unfold id_limit; by rewrite Hodd).
    apply safe_bind.
    replace (on_ids _ sc) with (on_ids (raised id) sc) by (unfold raised, on_ids; by rewrite Hodd).
    eapply safe_mono; [apply (newStream_step cfg L Hcfg); try done; [lia|congruence]|].
    intros sc1 [H1 E]. cbn [safe fst]. split.
    + eapply step_trans; [exact H1|apply step_obj_same; [by eapply step_inv|done]|lia].
    + intros _. cbn. rewrite E. set_solver.
Qed.
End Push.

(** ** startFrameWrite *)

Section Start.
Context `{ConnWriterLaws}.
Variable cfg : Config.
Hypothesis Hcfg : cfg_ok cfg.
Variable h1ServerKeepAlivesDisabled : nat -> bool.
Variable again : serverConn -> outcome serverConn.
Hypothesis Hagain : again_ok true again.
Implicit Types sc : serverConn.

(** What a round of the loop comes to: the frame has gone to a goroutine, or it
    is written and left [k] more to write. *)
Definition round_ok (k : nat) sc sc' : Prop :=
  Inv true sc' /\ forward sc sc' /\ settles sc sc' /\
  (writingFrameAsync (wst sc') = true \/
   writingFrameAsync (wst sc') = false /\ (sched_work (sched sc') <= sched_work (sched sc) + k)%nat /\
   needToSendSettingsAck (wst sc') = needToSendSettingsAck (wst sc)).

Lemma step_round k sc sc' :
  step_ok true true k sc sc' -> inFlight (wst sc) = None -> round_ok k sc sc'.
Proof.
  intros (Hi & Hf & Hs & Hw) Hfl. destruct (Hw eq_refl) as (? & ? & E). split_and!; auto. right. split; [|done].
  destruct (i_write _ _ Hi) as [-> ->]. by rewrite E, Hfl.
Qed.

Lemma round_after k1 k2 k sc sc1 sc2 :
  step_ok true true k1 sc sc1 -> round_ok k2 sc1 sc2 -> (k1 + k2 <= k)%nat -> round_ok k sc sc2.
Proof.
  intros (I1 & F1 & S1 & W1) (I2 & F2 & S2 & W2) Hk. split_and!; [done|by eapply forward_trans| |].
  - intros id Hid Hs. apply S2; [eapply kept_some; [apply F1|done]|]. by apply S1.
  - destruct (W1 eq_refl) as (? & ? & _). destruct W2 as [W2|(? & ? & ?)]; [by left|right]. split_and!; [done|lia|congruence].
Qed.

(** A frame handed to writeFrameAsync. *)
Lemma flight_round k sc wr :
  Inv true sc -> (forall st, stream wr = Some st -> ws_id st ∈ streams sc) ->
  round_ok k sc (on_wst (w_flight (Some wr)) (on_wst (w_writing true true) sc)).
Proof.
  intros Hi Hin. set (sc' := on_wst _ _).
  assert (Hq : forall id, id ∉ streams sc -> quiet sc id -> quiet sc' id).
  { intros id Hid [_ Hq]. split; [|exact Hq]. intros wr'. cbn. intros [= <-] st Hst <-. by apply Hid, Hin. }
  split_and!.
  - destruct Hi as [I1 I2 I3 I4 I5 I6 I7 I8 I9]. split; try done. intros id o Ho Hid Hs. apply Hq; [done|]. by eapply I6.
  - split_and!; done.
  - intros id _ [Hid|Hqu]; [by left|]. destruct (decide (id ∈ streams sc)); [by left|right; by apply Hq].
  - by left.
Qed.

Lemma begin_write_round sc wr :
  Inv true sc -> inFlight (wst sc) = None -> (forall st, stream wr = Some st -> ws_id st ∈ streams sc) ->
  safe (fun sc' => round_ok (gain wr) sc sc' /\
          ((forall w, H2Sched.write wr = Some w -> forall n, staysWithinBuffer w n = false) ->
           writingFrameAsync (wst sc') = true))
    (begin_write cfg h1ServerKeepAlivesDisabled again sc wr).
Proof.
  intros Hi Hfl Hin. destruct (i_write _ _ Hi) as [Ha Hw]. rewrite Hfl in Hw.
  unfold begin_write. apply safe_bind, safe_deref. intros w Ew.
  set (sc0 := on_wst (w_flush true) sc).
  assert (Hf0 : step_ok true true 0 sc sc0) by (by apply alike_step; [repeat split|..]).
  case_if.
  - apply safe_bind. eapply safe_mono; [apply nw_returns|]. intros [n err] _.
    assert (E : forall sc1, sc1 = set_net n (on_wst (w_flush true) (on_wst (w_writing true false) sc)) ->
      step_ok true true 0 sc (on_wst (w_writing false false) sc1)).
    { intros sc1 ->. apply alike_step; [|done..]. repeat split; cbn; [by rewrite Hw|by rewrite Ha, Hw]. }
    set (sc1 := set_net n _). specialize (E sc1 eq_refl).
    eapply safe_mono; [apply wroteFrame_step; [exact Hagain|by eapply step_inv|by intros _; exact Hfl|]|].
    + intros st o Hst Ho. left. by apply Hin.
    + intros sc2 (k & _ & H2). split; [|intros Hno; by rewrite (Hno w Ew) in *].
      eapply round_after; [exact E|apply step_round; [by apply H2|exact Hfl]|lia].
  - cbn [safe]. split; [|done]. eapply round_after; [exact Hf0| |apply Nat.le_refl].
    apply (flight_round (gain wr) sc0 wr); [by eapply step_inv|done].
Qed.

(** A frame that may be written is of an open stream. *)
Lemma may_write_open sc wr :
  live_req sc wr -> safe (fun _ => forall st, stream wr = Some st -> ws_id st ∈ streams sc) (may_write sc wr).
Proof.
  intros Hl. unfold may_write. destruct (stream wr) as [st|] eqn:Hst; [|done]. apply safe_bind, obj_safe. intros o Ho.
  specialize (Hl st o Hst Ho). destruct (st_state o); try done;
    repeat case_match; try done; intros st' [= <-]; by destruct Hl.
Qed.

Lemma startFrameWrite_round sc wr :
  Inv true sc -> inFlight (wst sc) = None -> live_req sc wr ->
  safe (fun sc' => round_ok (gain wr) sc sc' /\
          ((forall w, H2Sched.write wr = Some w -> forall n, staysWithinBuffer w n = false) ->
           (forall wpp, H2Sched.write wr <> Some (writePushPromise_ wpp)) -> writingFrameAsync (wst sc') = true))
    (startFrameWrite cfg h1ServerKeepAlivesDisabled again sc wr).
Proof.
  intros Hi Hfl Hl. unfold startFrameWrite. destruct (writingFrame (wst sc)) eqn:Ew; [done|].
  apply safe_bind. eapply safe_mono; [by apply may_write_open|]. intros [] Hin. cbv beta in Hin.
  assert (Hplain : safe (fun sc' => round_ok (gain wr) sc sc' /\
          ((forall w, H2Sched.write wr = Some w -> forall n, staysWithinBuffer w n = false) ->
           (forall wpp, H2Sched.write wr <> Some (writePushPromise_ wpp)) -> writingFrameAsync (wst sc') = true))
      (begin_write cfg h1ServerKeepAlivesDisabled again sc wr)).
  { eapply safe_mono; [by apply begin_write_round|]. intros sc' [? ?]. auto. }
  destruct (H2Sched.write wr) as [[]|] eqn:Hw; try exact Hplain. clear Hplain.
  apply safe_bind. eapply safe_mono; [by apply allocatePromisedID_step|]. intros [sc1 r] [S1 Hsub]. cbn [fst] in *.
  assert (Hfl1 : inFlight (wst sc1) = None) by (destruct S1 as (_ & _ & _ & Hk); destruct (Hk eq_refl) as (_ & _ & ->); done).
  assert (Hg : gain wr = 0%nat) by (unfold gain; by rewrite Hw). rewrite Hg.
  destruct r as [id|e].
  - eapply safe_mono; [apply begin_write_round; [by eapply step_inv|done|]|].
    + intros st Hst. by apply (Hsub eq_refl), Hin.
    + intros sc2 [H2 _]. split; [|by intros _ Hno; exfalso; eapply Hno]. by eapply round_after; [exact S1|exact H2|].
  - pose proof (step_inv _ _ _ _ _ S1) as Hi1. destruct (i_write _ _ Hi1) as [Ha1 Hw1]. rewrite Hfl1 in Hw1.
    apply safe_bind. eapply safe_mono; [apply reply_safe|]. intros [ch wr'] _. cbn [safe].
    split; [|by intros _ Hno; exfalso; eapply Hno].
    apply step_round; [|done]. eapply step_trans; [exact S1| |apply Nat.le_refl].
    apply alike_step; [|done..]. repeat split. cbn. by rewrite Ha1, Hw1.
Qed.

(** ** The loop of scheduleFrameWrite *)

Variable visit : nat -> list Z -> list Z.

(** What is left to write: what is queued, and an acknowledgement of settings. *)
Definition loop_work sc : nat := (sched_work (sched sc) + (if needToSendSettingsAck (wst sc) then 1 else 0))%nat.

Lemma step_pop sc fl ws res :
  Inv true sc -> pop_safe_post (sc_flows sc) (sched sc) (fl, ws, res) ->
  Inv true (tick (set_sched ws (set_flows fl sc))) /\ forward sc (tick (set_sched ws (set_flows fl sc))) /\
  settles sc (tick (set_sched ws (set_flows fl sc))) /\
  (forall wr, res = Some wr -> live_req (tick (set_sched ws (set_flows fl sc))) wr).
Proof.
  intros Hi (Hok & Hfl & _ & Hsub & Hres). set (sc' := tick _).
  assert (Hq : forall id, quiet sc id -> quiet sc' id).
  { intros id [Hf Hq]. split; [exact Hf|]. intros j x Hx. destruct (Hsub j x Hx) as (i & y & Hy & E).
    intros st Hst. rewrite E in Hst. by apply (Hq i y Hy). }
  split_and!.
  - destruct Hi as [I1 I2 I3 I4 I5 I6 I7 I8 I9]. split; try done. intros id o Ho Hid Hs. apply Hq. by eapply I6.
  - split_and!; done.
  - intros id _ [Hid|Hqu]; [by left|right; by apply Hq].
  - intros wr ->. destruct Hres as [_ (j & y & Hy & E)]. intros st o Hst Ho.
    destruct (decide (ws_id st ∈ streams sc)) as [Hid|Hid]; [by left|]. right.
    destruct (decide (st_state o = stateClosed)) as [Hc|Hc]; [done|]. exfalso.
    destruct (i_dead _ _ Hi _ o Ho Hid Hc) as [_ Hqu]. rewrite E in Hst. by apply (Hqu j y Hy st).
Qed.

(** From [sc] on, without the bounds. *)
Definition reached sc sc' : Prop := Inv true sc' /\ forward sc sc' /\ settles sc sc'.

Lemma reached_trans sc1 sc2 sc3 : reached sc1 sc2 -> reached sc2 sc3 -> reached sc1 sc3.
Proof.
  intros (I1 & F1 & S1) (I2 & F2 & S2). split_and!; [done|by eapply forward_trans|].
  intros id Hid Hs. apply S2; [eapply kept_some; [apply F1|done]|by apply S1].
Qed.

Lemma step_reached S k sc sc' : step_ok true S k sc sc' -> S = true -> reached sc sc'.
Proof. intros (Hi & Hf & Hs & _) ->. split_and!; auto. Qed.

Lemma round_reached k sc sc' : round_ok k sc sc' -> reached sc sc'.
Proof. by intros (Hi & Hf & Hs & _). Qed.

(** One round: the loop ends, or a frame goes to a goroutine, or there is less
    left to write. *)
Lemma schedule_round_ok sc :
  Inv true sc -> writingFrameAsync (wst sc) = false ->
  safe (fun r => match r with
                 | inl sc' => reached sc sc' /\
                     (writingFrameAsync (wst sc') = true \/ (loop_work sc' < loop_work sc)%nat)
                 | inr sc' => reached sc sc'
                 end) (schedule_round cfg visit h1ServerKeepAlivesDisabled again sc).
Proof.
  intros Hi Ha. destruct (i_write _ _ Hi) as [Ew Ef]. rewrite Ha in Ew. rewrite <- Ew in Ef.
  assert (Hfl : inFlight (wst sc) = None).
  { destruct (inFlight (wst sc)); [|done]. rewrite bool_decide_true in Ef; done. }
  assert (Hlike : forall sc', alike sc sc' -> Inv true sc') by (intros sc' H'; by eapply alike_inv).
  assert (Hnone : forall sc' w, live_req sc' (mkWR (Some w) None None)) by (by intros sc' w st o [=]).
  unfold schedule_round. destruct (needToSendGoAway (away sc)).
  { apply safe_bind. set (sc1 := on_away _ sc).
    assert (S1 : step_ok true true 0 sc sc1) by (by apply alike_step; [repeat split|..]).
    eapply safe_mono; [apply startFrameWrite_round; [by eapply step_inv|done|apply Hnone]|].
    intros sc2 [H2 Hasync]. cbn [safe]. split.
    - eapply reached_trans; [by eapply step_reached|by eapply round_reached].
    - left. apply Hasync; [by intros w [= <-]|done]. }
  destruct (needToSendSettingsAck (wst sc)) eqn:Eack.
  { apply safe_bind. set (sc1 := on_wst (w_ack false) sc).
    assert (I1 : Inv true sc1) by (apply Hlike; by repeat split).
    assert (R1 : reached sc sc1) by (split_and!; [done|split_and!; done|by intros id _]).
    eapply safe_mono; [apply startFrameWrite_round; [done|done|apply Hnone]|].
    intros sc2 [H2 _]. cbn [safe]. split; [eapply reached_trans; [exact R1|by eapply round_reached]|].
    destruct H2 as (_ & _ & _ & [Hy|(_ & Hwk & E)]); [by left|right].
    change (gain _) with 0%nat in Hwk. change (sched sc1) with (sched sc) in Hwk.
    unfold loop_work. rewrite E, Eack. cbn. lia. }
  assert (Hwork : loop_work sc = sched_work (sched sc)) by (unfold loop_work; rewrite Eack; lia).
  apply safe_bind.
  apply (safe_mono (fun r => reached sc (fst r) /\ wst (fst r) = wst sc /\
           match snd r with
           | Some wr => live_req (fst r) wr /\ (sched_work (sched (fst r)) + gain wr + 1 <= sched_work (sched sc))%nat
           | None => True
           end)).
  { case_if; [|cbn; split_and!; [by eapply step_reached; [by apply step_refl|]|done|done]].
    apply safe_bind. eapply safe_mono; [apply pop_safe; [apply (i_sched _ _ Hi)|apply (i_flows _ _ Hi)]|].
    intros [[fl ws] res] Hpop. destruct (step_pop sc fl ws res Hi Hpop) as (I1 & F1 & S1 & Hl). cbn [safe fst snd].
    split_and!; [done|done|]. destruct res as [wr|]; [|done]. split; [by apply Hl|].
    by destruct Hpop as (_ & _ & _ & _ & ? & _). }
  intros [sc1 [wr|]] (R1 & E1 & Hpost); cbn [fst snd] in *.
  - destruct Hpost as [Hl Hwk]. set (sc2 := if isControl wr then _ else sc1).
    assert (A2 : alike sc1 sc2 /\ needToSendSettingsAck (wst sc2) = needToSendSettingsAck (wst sc1)).
    { subst sc2. by destruct (isControl wr); repeat split. }
    destruct A2 as [A2 Eack2]. pose proof (alike_step true true _ _ A2 Eack2 (proj1 R1)) as S2.
    destruct A2 as (_ & Es & Eo & _ & _ & Esch & _ & _ & _ & Efl).
    apply safe_bind. eapply safe_mono; [apply startFrameWrite_round; [by eapply step_inv|by rewrite Efl, E1|]|].
    { intros st o. rewrite Es, Eo. apply Hl. }
    intros sc3 [H3 _]. cbn [safe]. split.
    { eapply reached_trans; [exact R1|]. eapply reached_trans; [by eapply step_reached|by eapply round_reached]. }
    destruct H3 as (_ & _ & _ & [Hy|(_ & Hk & E)]); [by left|right]. rewrite Hwork. unfold loop_work.
    rewrite E, Eack2, E1, Eack. rewrite Esch in Hk. lia.
  - destruct (needsFrameFlush (wst sc1)); [|done]. apply safe_bind.
    eapply safe_mono; [apply startFrameWrite_round; [apply R1|by rewrite E1|apply Hnone]|].
    intros sc2 [H2 Hasync]. cbn [safe].
    assert (S3 : step_ok true true 0 sc2 (on_wst (w_flush false) sc2)).
    { apply alike_step; [by repeat split|done|apply H2]. }
    split; [|left; apply Hasync; [by intros w [= <-]|done]].
    eapply reached_trans; [exact R1|]. eapply reached_trans; [by eapply round_reached|by eapply step_reached].
Qed.

End Start.

Section Loop.
Context `{ConnWriterLaws}.
Variable cfg : Config.
Hypothesis Hcfg : cfg_ok cfg.
Variable visit : nat -> list Z -> list Z.
Variable h1ServerKeepAlivesDisabled : nat -> bool.
Implicit Types sc : serverConn.

(** While the loop is running, scheduleFrameWrite returns at once. *)
Lemma schedule_with_again loop : again_ok true (schedule_with loop).
Proof.
  intros sc Hi. unfold schedule_with. rewrite (i_loop _ _ Hi), orb_true_r. cbn [safe]. split; [by apply step_refl|done].
Qed.

Lemma schedule_loop_ok fuel sc :
  Inv true sc -> (if writingFrameAsync (wst sc) then 1 <= fuel else loop_work sc + 2 <= fuel)%nat ->
  safe (reached sc) (schedule_loop cfg visit h1ServerKeepAlivesDisabled fuel sc).
Proof.
  revert sc. induction fuel as [|fuel IH]; intros sc Hi Hf; [destruct (writingFrameAsync (wst sc)); lia|].
  cbn [schedule_loop]. destruct (writingFrameAsync (wst sc)) eqn:Ha.
  { eapply step_reached; [by apply (step_refl true true)|done]. }
  apply safe_bind. eapply safe_mono; [apply schedule_round_ok; [done|apply schedule_with_again|done|done]|].
  intros [sc1|sc1]; [|done]. intros [R1 Hp]. eapply safe_mono; [apply IH; [apply R1|]|].
  - destruct (writingFrameAsync (wst sc1)); [lia|]. destruct Hp as [?|?]; [done|lia].
  - intros sc2 R2. by eapply reached_trans.
Qed.

Lemma loop_flag b sc : Inv (negb b) sc -> Inv b (on_wst (w_loop b) sc).
Proof. intros []. by split. Qed.

Lemma scheduleFrameWrite_again : again_ok false (scheduleFrameWrite cfg visit h1ServerKeepAlivesDisabled).
Proof.
  intros sc Hi. unfold scheduleFrameWrite, schedule_with. rewrite (i_loop _ _ Hi), orb_false_r.
  destruct (writingFrame (wst sc)) eqn:Ew; [cbn [safe]; split; [by apply step_refl|done]|].
  apply safe_bind. eapply safe_mono; [apply schedule_loop_ok; [by apply loop_flag|]|].
  - cbn. destruct (i_write _ _ Hi) as [-> _]. rewrite Ew. unfold loop_work, schedule_fuel. cbn.
    destruct (needToSendSettingsAck (wst sc)); lia.
  - intros sc1 (I1 & F1 & S1). cbn [safe]. split; [|done]. split_and!; [by apply loop_flag|exact F1| |done].
    intros _ id Hid Hs. by apply (S1 id).
Qed.
End Loop.
