(* ===== verification/H2ConnServe.v ===== *)
(** * HTTP/2: the serve loop

    Every case of the serve loop, for every frame of the client, request of a
    handler and timer, keeps the invariant and returns unless it panics. *)

From S2P Require Import Prelude Bytes Trailer H2Base H2Frame H2Write H2Sched H2Pipe H2Conn H2ConnInv H2ConnParts H2ConnWrite.
From S2P Require Import H2ConnSched.

Section Serve.
Context `{ConnWriterLaws}.
Variable cfg : Config.
Hypothesis Hcfg : cfg_ok cfg.
Variable visit : nat -> list Z -> list Z.
Variable h1ServerKeepAlivesDisabled : nat -> bool.
Variable isClosedConnError : Z -> bool.
Implicit Types sc : serverConn.

Local Abbreviation again := (scheduleFrameWrite cfg visit h1ServerKeepAlivesDisabled).
Let Hagain : again_ok false again := scheduleFrameWrite_again cfg Hcfg visit h1ServerKeepAlivesDisabled.

(** Outside the loop of scheduleFrameWrite the work does not matter. *)
Lemma step_any S S' k sc sc' : step_ok false S k sc sc' -> (S' = true -> S = true) -> step_ok false S' 0 sc sc'.
Proof. intros (Hi & Hf & Hs & _) HS. split_and!; auto. done. Qed.

Local Abbreviation moved S sc o := (safe (step_ok false S 0 sc) o).
Local Abbreviation answered S sc o := (safe (fun r => step_ok false S 0 sc (fst r)) o).

Lemma nothing_answers S sc (o : outcome serverConn) : moved S sc o -> answered S sc (nothing o).
Proof. intros Ho. by apply safe_bind. Qed.

Lemma stay_answers S sc (o : outcome serverConn) : moved S sc o -> answered S sc (stay o).
Proof. intros Ho. by apply safe_bind. Qed.

Lemma answered_same S sc x : Inv false sc -> answered S sc (Ret (sc, x) : outcome (serverConn * option error)).
Proof. intros Hi. by apply step_refl. Qed.

Lemma answered_after S sc sc1 {X} (o : outcome (serverConn * X)) :
  step_ok false S 0 sc sc1 -> answered S sc1 o -> answered S sc o.
Proof. intros H1 Ho. eapply safe_mono; [exact Ho|]. intros r Hr. eapply step_trans; [exact H1|exact Hr|done]. Qed.

Lemma moved_weaken S sc (o : outcome serverConn) : moved true sc o -> moved S sc o.
Proof. intros Ho. eapply safe_mono; [exact Ho|]. intros sc' Hs. by eapply step_any. Qed.

Lemma answered_weaken S sc {X} (o : outcome (serverConn * X)) : answered true sc o -> answered S sc o.
Proof. intros Ho. eapply safe_mono; [exact Ho|]. intros sc' Hs. eapply step_any; [exact Hs|done]. Qed.

(** ** The functions of the write path *)

Lemma again_moved S sc : Inv false sc -> moved S sc (again sc).
Proof. intros Hi. apply moved_weaken. by apply again_step. Qed.

Lemma write_moved S sc wr :
  Inv false sc -> (is_Some (stream wr) -> forall id c, H2Sched.write wr <> Some (writeStreamError id c)) ->
  moved S sc (conn_writeFrame again sc wr).
Proof. intros Hi Hw. eapply safe_mono; [by apply write_step|]. intros sc' Hs. by eapply step_any. Qed.

Lemma goAway_moved S sc code : Inv false sc -> moved S sc (goAway again sc code).
Proof. intros Hi. eapply safe_mono; [by apply goAway_step|]. intros sc' [Hs _]. by eapply step_any. Qed.

Lemma reset_moved S sc id code : Inv false sc -> moved S sc (resetStream again sc id code).
Proof. intros Hi. eapply safe_mono; [by apply resetStream_step|]. intros sc' Hs. by eapply step_any. Qed.

Lemma update32_moved S sc st n : Inv false sc -> is_i32 n -> moved S sc (sendWindowUpdate32 again sc st n).
Proof. intros Hi Hn. eapply safe_mono; [by apply sendWindowUpdate32_step|]. intros sc' [Hs _]. by eapply step_any. Qed.

Lemma update_moved S sc st n : Inv false sc -> moved S sc (sendWindowUpdate again sc st n).
Proof. intros Hi. eapply safe_mono; [by apply sendWindowUpdate_step|]. intros sc' (k & Hs & _). by eapply step_any. Qed.

Lemma close_moved sc id err :
  Inv false sc -> id ∈ streams sc -> moved false sc (closeStream cfg h1ServerKeepAlivesDisabled again sc id err).
Proof. intros Hi Hid. eapply safe_mono; [by apply closeStream_step|]. intros sc' (k & Hs & _). by eapply step_any. Qed.

(** Assignments outside of the streams, windows, queues and the writer. *)
Lemma like_moved S sc sc' : alike sc sc' -> Inv false sc -> step_ok false S 0 sc sc'.
Proof.
  intros Ha Hi. pose proof Ha as (E1 & E2 & E3 & E4 & E5 & E6 & E7 & E8 & E9 & E10).
  split_and!; [by eapply alike_inv| | |done].
  - split_and!; [|by apply kept_same|by rewrite E1]. intros id. unfold view. by rewrite E1, E2, E3.
  - intros _ id _. unfold settled, quiet. by rewrite E2, E6, E10.
Qed.

Lemma moved_after S sc sc1 (o : outcome serverConn) : step_ok false S 0 sc sc1 -> moved S sc1 o -> moved S sc o.
Proof. intros H1 Ho. by eapply safe_after. Qed.

(** ** Frames of the client *)

Lemma processPing_ok sc h data : Inv false sc -> answered true sc (processPing cfg visit h1ServerKeepAlivesDisabled sc h data).
Proof.
  intros Hi. unfold processPing. repeat (case_if; [by apply answered_same|]). apply nothing_answers. by apply write_moved; [|intros []].
Qed.

Lemma add_moved S sc a k :
  Inv false sc -> is_i32 k -> (a = 1%nat -> 0 <= k) ->
  safe (fun r => step_ok false S 0 sc (set_flows (fst r) sc)) (flow_add (sc_flows sc) a k).
Proof.
  intros Hi Hk Ha. eapply safe_mono; [apply add_safe; [apply (i_flows _ _ Hi)|done|done]|].
  intros [fl ok] (Hw & _). by apply step_flows.
Qed.

Lemma take_moved S sc a k :
  Inv false sc -> 0 <= k -> safe (fun fl => step_ok false S 0 sc (set_flows fl sc)) (flow_take (sc_flows sc) a k).
Proof.
  intros Hi Hk. eapply safe_mono; [apply take_safe; [apply (i_flows _ _ Hi)|done]|].
  intros fl [Hw _]. by apply step_flows.
Qed.

Lemma obj_flow sc id o : Inv false sc -> objs sc !! id = Some o -> st_flow o <> 1%nat.
Proof. intros Hi Ho. destruct (i_bound _ _ Hi id o Ho) as (_ & ? & _). lia. Qed.

Lemma processWindowUpdate_ok sc h n :
  Inv false sc -> answered true sc (processWindowUpdate cfg visit h1ServerKeepAlivesDisabled sc h n).
Proof.
  intros Hi. unfold processWindowUpdate.
  assert (Hadd : forall a e, a <> 1%nat -> answered true sc (run (fl, ok) <- flow_add (sc_flows sc) a (i32 n);
    if ok : bool then nothing (again (set_flows fl sc)) else Ret (sc, Some e))).
  { intros a e Ha. apply safe_bind. eapply safe_mono; [apply (add_moved true sc a (i32 n)); [done|apply is_i32_i32|done]|].
    intros [fl ok] H1. cbn [fst] in H1. destruct ok; [|by apply answered_same].
    eapply answered_after; [exact H1|]. apply nothing_answers, again_moved. by eapply step_inv. }
  case_if; [|by apply Hadd]. apply safe_bind. eapply safe_mono; [apply conn_state_safe|]. intros [s b] _. cbn [fst snd].
  case_bool_decide; [by apply answered_same|]. destruct (negb b); [by apply answered_same|].
  apply safe_bind, obj_safe. intros o Ho. apply Hadd. by eapply obj_flow.
Qed.

Lemma processResetStream_ok sc h code :
  Inv false sc -> answered false sc (processResetStream cfg visit h1ServerKeepAlivesDisabled sc h code).
Proof.
  intros Hi. unfold processResetStream. apply safe_bind. eapply safe_mono; [apply conn_state_safe|].
  intros [s b] [_ Hb]. cbn [fst snd] in *. destruct (bool_decide (s = stateIdle)); [by apply answered_same|].
  destruct b; [|by apply answered_same]. symmetry in Hb. apply bool_decide_eq_true in Hb. apply nothing_answers. by apply close_moved.
Qed.

Lemma grow_windows_ok sc growth order :
  Inv false sc -> is_i32 growth -> answered true sc (grow_windows sc growth order).
Proof.
  revert sc. induction order as [|id order IH]; intros sc Hi Hg; cbn [grow_windows]; [by apply answered_same|].
  apply safe_bind, obj_safe. intros o Ho. apply safe_bind.
  eapply safe_mono; [apply (add_moved true sc (st_flow o) growth); [done|done|by intros E; destruct (obj_flow _ _ _ Hi Ho)]|].
  intros [fl ok] H1. cbn [fst] in H1. destruct ok; [|by apply answered_same].
  eapply answered_after; [exact H1|]. apply IH; [by eapply step_inv|done].
Qed.

Lemma window_size_step S sc v : Inv false sc -> step_ok false S 0 sc (tick (on_peer (p_window (i32 v)) sc)).
Proof.
  intros []. split_and!; [|split_and!; done|by intros _ id _|done]. split; try done. apply is_i32_i32.
Qed.

Lemma processSetting_ok sc s : Inv false sc -> answered true sc (processSetting visit s sc).
Proof.
  intros Hi. unfold processSetting. destruct (Setting_Valid s); [by apply answered_same|].
  case_if; [by apply like_moved; [repeat split|]|]. case_if; [by apply like_moved; [repeat split|]|].
  case_if.
  { cbn [safe fst]. split_and!; [|split_and!; done|by intros _ id _|done]. destruct Hi as [I1 I2 [] I4 I5 I6 I7 I8 I9]. by split. }
  case_if.
  { unfold processSettingInitialWindowSize. eapply answered_after; [by apply window_size_step|].
    apply grow_windows_ok; [by eapply step_inv, (window_size_step true)|apply is_i32_i32]. }
  repeat (case_if; [by apply like_moved; [repeat split|]|]). by apply answered_same.
Qed.

Lemma each_setting_ok ss sc : Inv false sc -> answered true sc (each_setting visit sc ss).
Proof.
  revert sc. induction ss as [|s ss IH]; intros sc Hi; cbn [each_setting]; [by apply answered_same|].
  apply safe_bind. eapply safe_mono; [by apply processSetting_ok|]. intros [sc1 [e|]] H1; [done|].
  eapply answered_after; [exact H1|]. apply IH. by eapply step_inv.
Qed.

Lemma ack_step S sc b : Inv false sc -> step_ok false S 0 sc (on_wst (w_ack b) sc).
Proof. intros Hi. apply like_moved; [by repeat split|done]. Qed.

Lemma processSettings_ok sc h p : Inv false sc -> answered true sc (processSettings cfg visit h1ServerKeepAlivesDisabled sc h p).
Proof.
  intros Hi. unfold processSettings. case_if; [by apply like_moved; [repeat split|]|]. case_if; [by apply answered_same|].
  apply safe_bind. apply (safe_mono (fun _ => True)); [unfold checkValid; by case_if|]. intros ? _. apply safe_bind.
  eapply safe_mono; [by apply each_setting_ok|]. intros [sc1 [e|]] H1; [done|]. cbn [fst] in H1.
  eapply answered_after; [exact H1|]. eapply answered_after; [by eapply ack_step, step_inv|].
  apply nothing_answers, again_moved. by eapply step_inv, (ack_step true), step_inv.
Qed.

Lemma closeWithError_safe p brk err fn : safe (fun _ => True) (closeWithError p brk err fn).
Proof. unfold closeWithError. by repeat case_match. Qed.

(** The end of the body: the stream is open, or closed meanwhile. *)
Lemma endStream_moved sc id : Inv false sc -> settled sc id -> moved true sc (endStream sc id).
Proof.
  intros Hi Hset. unfold endStream. apply safe_bind, obj_safe. intros o Ho. apply safe_bind, safe_deref. intros p Hp.
  apply safe_bind. apply (safe_mono (fun _ => True)).
  { unfold CloseWithError, closeWithErrorAndCode. case_if; [apply closeWithError_safe|]. apply safe_bind.
    eapply safe_mono; [apply closeWithError_safe|]. intros p1 _. apply closeWithError_safe. }
  intros p1 _. cbn [safe]. apply step_obj; [done|]. intros o' Ho'. split_and!; [done|done| |].
  - intros Hid. destruct (i_live _ _ Hi id Hid) as (o2 & Ho2 & H1 & H2). rewrite Ho' in Ho2. injection Ho2 as <-.
    cbn. split_and!; try done. destruct (st_state o'); simpl; lia || done.
  - intros Hid. right. by destruct Hset.
Qed.

Lemma refuse_data_ok sc id n found queued :
  Inv false sc -> 0 <= n < 2 ^ 31 ->
  answered true sc (refuse_data cfg visit h1ServerKeepAlivesDisabled sc id n found queued).
Proof.
  intros Hi Hn. unfold refuse_data. apply safe_bind. eapply safe_mono; [apply available_safe|]. intros av _.
  case_if; [by apply answered_same|]. apply safe_bind.
  eapply safe_mono; [apply (take_moved true sc 1 (i32 n)); [done|rewrite i32_id by width; lia]|]. intros fl H1.
  eapply answered_after; [exact H1|]. apply safe_bind.
  eapply safe_mono; [apply (update_moved true); exact (step_inv _ _ _ _ _ H1)|]. intros sc2 H2. case_if; exact H2.
Qed.

Lemma take_data_ok sc id n o data :
  Inv false sc -> 0 <= n < 2 ^ 31 -> answered true sc (take_data cfg visit h1ServerKeepAlivesDisabled sc id n o data).
Proof.
  intros Hi Hn. unfold take_data. apply safe_bind. eapply safe_mono; [apply available_safe|]. intros av _.
  case_if; [by apply answered_same|]. apply safe_bind.
  eapply safe_mono; [apply (take_moved true sc (st_inflow o) (i32 n)); [done|rewrite i32_id by width; lia]|]. intros fl H1.
  cbv beta in H1. apply safe_bind.
  apply (safe_mono (fun r => step_ok false true 0 sc (fst r))).
  - case_if; [|exact H1]. apply safe_bind, safe_deref. intros p Hp. apply safe_bind.
    apply (safe_mono (fun _ => True)).
    { unfold pipe_Write. destruct (p_err p); [done|]. destruct (breakErr p); [done|]. apply safe_bind, safe_deref. done. }
    intros [p1 res] _.
    assert (H2 : step_ok false true 0 sc (on_obj id (s_body (Some p1)) (set_flows fl sc))).
    { eapply step_trans; [exact H1|apply step_obj_same; [by eapply step_inv|done]|done]. }
    destruct res as [wrote|e]; [|exact H2]. case_if; [done|]. cbn [safe fst].
    eapply step_trans; [exact H2|apply step_obj_same; [by eapply step_inv|done]|done].
  - intros [sc1 [e|]] H2; [done|]. cbn [fst] in H2. eapply answered_after; [exact H2|].
    pose proof (step_inv _ _ _ _ _ H2) as Hi1. case_if; [|by apply answered_same]. apply safe_bind.
    eapply safe_mono; [apply (update32_moved true sc1 None); [done|apply is_i32_i32]|]. intros sc2 H3. cbv beta in H3.
    eapply answered_after; [exact H3|]. apply nothing_answers, update32_moved; [by eapply step_inv|apply is_i32_i32].
Qed.

Lemma processData_ok sc h payload :
  Inv false sc -> 0 <= Length h < 2 ^ 31 ->
  answered true sc (processData cfg visit h1ServerKeepAlivesDisabled sc h payload).
Proof.
  intros Hi Hn. unfold processData. case_if; [by apply answered_same|]. apply safe_bind.
  apply (safe_mono (fun _ => True)); [unfold DataFrame_Data, checkValid; by destruct (valid h)|]. intros data _.
  apply safe_bind. eapply safe_mono; [apply conn_state_safe|]. intros [s b] [_ Hb]. cbn [fst snd] in *.
  case_if; [by apply answered_same|]. destruct b; cbn [negb]; [|by apply refuse_data_ok].
  symmetry in Hb. apply bool_decide_eq_true in Hb. apply safe_bind, obj_safe. intros o Ho.
  case_if; [by apply refuse_data_ok|]. apply safe_bind, safe_deref. intros p Hp. case_if.
  { apply safe_bind. eapply safe_mono; [apply closeWithError_safe|]. intros p1 _. by apply step_obj_same. }
  apply safe_bind. apply (safe_mono (fun r => step_ok false true 0 sc (fst r))).
  { case_if; [by apply take_data_ok|by apply answered_same]. }
  intros [sc1 [e|]] H1; [done|]. cbn [fst] in H1. eapply answered_after; [exact H1|].
  case_if; [|by eapply answered_same, step_inv]. apply nothing_answers, endStream_moved; [by eapply step_inv|].
  destruct H1 as (_ & _ & Hs & _). apply Hs; [done|by rewrite Ho|by left].
Qed.

Lemma processGoAway_ok sc : Inv false sc -> answered true sc (processGoAway cfg visit h1ServerKeepAlivesDisabled sc).
Proof.
  intros Hi. unfold processGoAway. apply safe_bind. eapply safe_mono; [by apply (goAway_moved true)|].
  intros sc1 H1. cbv beta in H1. eapply answered_after; [exact H1|].
  apply like_moved; [by repeat split|by eapply step_inv].
Qed.

Lemma processPriority_ok sc h p : Inv false sc -> answered true sc (processPriority sc h p).
Proof.
  intros Hi. unfold processPriority. case_if; [by apply answered_same|].
  destruct (checkPriority (StreamID h) p); [by apply answered_same|]. by apply like_moved; [repeat split|].
Qed.

Lemma processTrailerHeaders_ok sc id h fields :
  Inv false sc -> id ∈ streams sc -> answered true sc (processTrailerHeaders sc id h fields).
Proof.
  intros Hi Hid. unfold processTrailerHeaders. apply safe_bind, obj_safe. intros o Ho.
  case_if; [by apply answered_same|].
  assert (H1 : step_ok false true 0 sc (on_obj id (s_trailer true (trailer o)) sc)) by (by apply step_obj_same).
  case_if; [exact H1|]. case_if; [exact H1|]. eapply answered_after; [exact H1|]. eapply answered_after.
  { apply (step_obj_same false true _ id); [by eapply step_inv|]. intros o'. instantiate (1 := s_trailer true _). done. }
  apply nothing_answers, endStream_moved; [|by left].
  eapply step_inv, (step_obj_same false true); [by eapply step_inv|done].
Qed.

Lemma SetCanonical_safe rh key value : safe (fun _ => True) (SetCanonical rh key value).
Proof.
  unfold SetCanonical. repeat case_if; try done. destruct (SetTrailers_ends (rq_trailer rh) value) as [Hn _].
  by destruct (SetTrailers (rq_trailer rh) value) as [[]| |].
Qed.

Lemma set_fields_safe fields : forall rh, safe (fun _ => True) (set_fields rh fields).
Proof.
  induction fields as [|[key value] fields IH]; intros rh; [done|]. cbn [set_fields]. apply safe_bind.
  eapply safe_mono; [apply SetCanonical_safe|]. intros rh' _. apply IH.
Qed.

Lemma newWriterAndRequest_ok S sc id h fields :
  Inv false sc -> safe (fun res => step_ok false S 0 sc (fst res)) (newWriterAndRequest sc id h fields).
Proof.
  intros Hi. unfold newWriterAndRequest. case_if; [by apply step_refl|]. case_if; [by apply step_refl|].
  apply safe_bind. eapply safe_mono; [apply set_fields_safe|]. intros rh _. by apply step_obj_same.
Qed.

(** A new stream of the client, within the limit. *)
Lemma processHeaders_ok sc h prio fields tr :
  Inv false sc -> 0 <= StreamID h < 2 ^ 31 -> answered true sc (processHeaders cfg sc h prio fields tr).
Proof.
  intros Hi Hr. unfold processHeaders. set (id := StreamID h) in *.
  case_if; [by apply answered_same|]. case_if; [by apply answered_same|]. case_bool_decide as Hid.
  { apply safe_bind, obj_safe. intros o Ho. case_if; [by apply answered_same|]. case_if; [by apply answered_same|].
    by apply processTrailerHeaders_ok. }
  case_if; [by apply answered_same|]. breflect.
  assert (Eodd : Z.odd id = true).
  { rewrite Zodd_mod. apply Zeq_is_eq_bool. done. }
  assert (Elim : id_limit (ids sc) id = maxClientStreamID (ids sc)) by (unfold id_limit; by rewrite Eodd).
  set (sc0 := match idleTimer (away sc) with Some _ => on_away (a_idle (Some false)) sc | None => sc end).
  assert (H0' : step_ok false true 0 sc sc0).
  { subst sc0. destruct (idleTimer (away sc)); [by apply like_moved; [repeat split|]|by apply step_refl]. }
  assert (Eids : ids sc0 = ids sc) by (subst sc0; by destruct (idleTimer (away sc))).
  replace (match _ with Some _ => on_away _ _ | None => _ end) with (on_ids (raised id) sc0).
  2: { subst sc0. unfold raised. cbn [on_ids away]. rewrite Eodd. by destruct (idleTimer (away sc)). }
  eapply answered_after; [exact H0'|]. pose proof (step_inv _ _ _ _ _ H0') as Hi0.
  cbn [on_ids ids peer]. unfold raised at 1 2. rewrite Eodd. cbn [curClientStreams advMaxStreams].
  pose proof (i_ids _ _ Hi0) as [N1 _ N3 _ N5 [N6 _] _]. rewrite u32_id by width.
  case_if; breflect; [cbn [safe fst]; apply raise_step; [done|rewrite Eids, Elim; lia]|].
  apply safe_bind. eapply safe_mono; [apply (newStream_step cfg false Hcfg); [done|rewrite Eids, Elim; lia|lia|by case_if|by case_if]|].
  intros sc1 [H1 _]. eapply answered_after; [exact H1|]. pose proof (step_inv _ _ _ _ _ H1) as Hi1.
  destruct (if HasPriority h then checkPriority id prio else None); [by apply answered_same|].
  apply safe_bind. eapply safe_mono; [by apply (newWriterAndRequest_ok true)|].
  intros [sc2 [rh|e]] H2; cbn [fst] in H2; [|exact H2].
  cbn [safe fst]. eapply step_trans; [exact H2|apply step_obj_same; [by eapply step_inv|done]|done].
Qed.

(** Frames as readFrameHeader makes them. *)
Definition frame_ok (f : inFrame) : Prop :=
  0 <= Length (in_header f) < 2 ^ 24 /\ 0 <= StreamID (in_header f) < 2 ^ 31.

Lemma processFrame_ok sc f :
  Inv false sc -> frame_ok f -> answered false sc (processFrame cfg visit h1ServerKeepAlivesDisabled sc f).
Proof.
  intros Hi [Hl Hid]. unfold processFrame. case_if.
  2: { destruct f as [[]|]; try (by apply answered_same).
       assert (H1 : step_ok false false 0 sc (on_peer p_saw sc)) by (by apply like_moved; [repeat split|]).
       eapply answered_after; [exact H1|]. eapply answered_weaken, processSettings_ok, step_inv. exact H1. }
  destruct f as [[]|]; cbn [in_header Header] in *;
    auto using answered_same, answered_weaken, processSettings_ok, processWindowUpdate_ok, processPing_ok,
      processResetStream_ok, processPriority_ok, processGoAway_ok, processHeaders_ok.
  apply answered_weaken, processData_ok; [done|lia].
Qed.

(** ** The loop *)

Lemma answer_error_ok S sc e : Inv false sc -> answered S sc (answer_error cfg visit h1ServerKeepAlivesDisabled sc e).
Proof.
  intros Hi. unfold answer_error.
  assert (Hret : forall b, answered S sc (Ret (sc, b) : outcome (serverConn * bool))) by (intros b; by apply step_refl).
  destruct e; auto using stay_answers, reset_moved, goAway_moved.
Qed.

Lemma processFrameFromReader_ok sc res :
  Inv false sc -> (forall f, res = Ok f -> frame_ok f) ->
  answered false sc (processFrameFromReader cfg visit h1ServerKeepAlivesDisabled isClosedConnError sc res).
Proof.
  intros Hi Hok. unfold processFrameFromReader. destruct res as [f|e].
  - apply safe_bind. eapply safe_mono; [apply processFrame_ok; [done|by apply Hok]|].
    intros [sc1 [e|]] H1; [|exact H1]. cbn [fst] in H1. eapply answered_after; [exact H1|].
    apply answer_error_ok. by eapply step_inv.
  - assert (Hret : answered false sc (Ret (sc, false) : outcome (serverConn * bool))) by (by apply step_refl).
    destruct e; try (case_if; [exact Hret|]); auto using answer_error_ok, stay_answers, goAway_moved.
Qed.

Lemma noteBodyRead_ok sc id n : Inv false sc -> moved true sc (noteBodyRead cfg visit h1ServerKeepAlivesDisabled sc id n).
Proof.
  intros Hi. unfold noteBodyRead. apply safe_bind. eapply safe_mono; [by apply (update_moved true)|].
  intros sc1 H1. cbv beta in H1. apply safe_bind, obj_safe. intros o Ho. case_if; [exact H1|].
  eapply moved_after; [exact H1|]. apply update_moved. by eapply step_inv.
Qed.

Lemma startPush_ok sc msg : Inv false sc -> moved true sc (startPush cfg visit h1ServerKeepAlivesDisabled sc msg).
Proof.
  intros Hi. unfold startPush. apply safe_bind, obj_safe. intros o Ho.
  assert (Href : forall e, moved true sc (run (ch, _) <- replyToWriter (chans sc) (mkWR None None (pr_done msg)) (Some e);
    Ret (set_chans ch sc))).
  { intros e. apply safe_bind. eapply safe_mono; [apply reply_safe|]. intros [ch wr] _. by apply like_moved; [repeat split|]. }
  case_if; [apply Href|]. case_if; [apply Href|]. apply safe_bind. unfold wstream_of. apply safe_bind, obj_safe.
  intros o' Ho'. cbn [safe]. by apply write_moved.
Qed.

Lemma receive_wrote_ok sc : Inv false sc -> moved false sc (receive_wrote cfg visit h1ServerKeepAlivesDisabled sc).
Proof.
  intros Hi. unfold receive_wrote. destruct (inFlight (wst sc)) as [wr|] eqn:Hf; [|by apply step_refl].
  apply safe_bind, safe_deref. intros w Ew. apply safe_bind. eapply safe_mono; [apply nw_returns|]. intros [n err] _.
  set (sc1 := on_wst (w_flight None) (set_net n sc)).
  assert (Hq : forall id, quiet sc id -> quiet (on_wst (w_writing false false) sc1) id) by (intros id [? ?]; by split).
  assert (H1 : step_ok false false 0 sc (on_wst (w_writing false false) sc1)).
  { split_and!; [|split_and!; done|done|done]. destruct Hi as [I1 I2 I3 I4 I5 I6 I7 I8 I9]. split; try done.
    intros id o Ho Hid Hs. apply Hq. by eapply I6. }
  eapply safe_mono; [apply wroteFrame_step; [exact Hagain|by eapply step_inv|done|]|].
  - intros st o Hst Ho. destruct (decide (ws_id st ∈ streams sc)) as [Hid|Hid]; [by left|].
    destruct (decide (st_state o = stateClosed)) as [Hc|Hc]; [by right|].
    destruct (i_dead _ _ Hi _ o Ho Hid Hc) as [Hq1 _]. by destruct (Hq1 wr Hf st Hst).
  - intros sc2 (k & H2 & _). eapply step_any; [eapply step_trans; [exact H1|exact H2|apply Nat.le_refl]|done].
Qed.

(** What the loop receives: any request, and frames as the reader makes them. *)
Definition event_ok (e : event) : Prop := forall f b, e = GotFrame (Ok f) b -> frame_ok f.

Lemma serve_event_ok sc e :
  Inv false sc -> event_ok e ->
  answered false sc (serve_event cfg visit h1ServerKeepAlivesDisabled isClosedConnError sc e).
Proof.
  intros Hi He. destruct e as [wr| |res first|id n|m|msg]; cbn [serve_event].
  - assert (Hw : (forall id c, H2Sched.write wr <> Some (writeStreamError id c)) ->
      answered false sc (stay (conn_writeFrame again sc wr))).
    { intros Hno. by apply stay_answers, write_moved. }
    destruct (H2Sched.write wr) as [[]|] eqn:E; try (by apply Hw). by apply stay_answers, reset_moved.
  - by apply stay_answers, receive_wrote_ok.
  - apply safe_bind. apply (safe_mono (step_ok false false 0 sc)); [case_if; [by apply receive_wrote_ok|by apply step_refl]|].
    intros sc1 H1. eapply answered_after; [exact H1|]. apply processFrameFromReader_ok; [by eapply step_inv|].
    intros f ->. by eapply He.
  - by apply stay_answers, moved_weaken, noteBodyRead_ok.
  - destruct m; try (by apply step_refl); by apply stay_answers, goAway_moved.
  - by apply stay_answers, moved_weaken, startPush_ok.
Qed.

Lemma serve_round_ok sc e :
  Inv false sc -> event_ok e ->
  answered false sc (serve_round cfg visit h1ServerKeepAlivesDisabled isClosedConnError sc e).
Proof.
  intros Hi He. unfold serve_round. apply safe_bind. eapply safe_mono; [by apply serve_event_ok|].
  intros [sc1 go] H1. cbn [fst] in H1. case_if; [exact H1|]. case_if; [exact H1|]. case_if; [|exact H1].
  eapply answered_after; [exact H1|]. apply like_moved; [by repeat split|by eapply step_inv].
Qed.
End Serve.
