(* ===== verification/H2ConnRun.v ===== *)
(** * HTTP/2: runs of a server connection

    The steps a connection makes, of its serve loop and of the handlers that read
    request bodies, and what holds in every state they lead to. *)

From S2P Require Import Prelude Bytes H2Base H2Frame H2Write H2Sample H2Sched H2Pipe H2Conn H2ConnInv H2ConnParts H2ConnWrite.
From S2P Require Import H2ConnSched H2ConnServe.

Section Run.
Context `{ConnWriterLaws}.
Variable cfg : Config.
Variable visit : nat -> list Z -> list Z.
Variable h1ServerKeepAlivesDisabled : nat -> bool.
Variable isClosedConnError : Z -> bool.
Implicit Types sc : serverConn.

(** The steps: the loop receives something, a handler reads or closes the body of
    its request, makes a channel for the outcome of a write or receives from it,
    the connection is torn down. *)
Inductive conn_step sc : serverConn -> Prop :=
| conn_serve e sc' go :
    event_ok e -> serve_round cfg visit h1ServerKeepAlivesDisabled isClosedConnError sc e = Ret (sc', go) ->
    conn_step sc sc'
| conn_body_read b m sc' b' r es : requestBody_Read sc b m = Ret (sc', b', r, es) -> conn_step sc sc'
| conn_body_close b sc' b' : requestBody_Close sc b = Ret (sc', b') -> conn_step sc sc'
| conn_chan c : conn_step sc (set_chans (<[c := None]> (chans sc)) sc)
| conn_end sc' : closeAllStreamsOnConnClose cfg visit h1ServerKeepAlivesDisabled sc = Ret sc' -> conn_step sc sc'.

Definition conn_start sc : Prop := exists n, serve_start cfg visit h1ServerKeepAlivesDisabled n = Ret sc.

Definition conn_reaches sc : Prop := exists sc0, conn_start sc0 /\ rtc conn_step sc0 sc.

Hypothesis Hcfg : cfg_ok cfg.

(** ** The first state *)

Lemma cfg_limit : 0 <= maxConcurrentStreams cfg < 2 ^ 32.
Proof. destruct Hcfg as (_ & _ & Hm). unfold maxConcurrentStreams. case_if; breflect; [width|lia]. Qed.

Lemma Serve_conn_inv n :
  safe (fun sc => Inv false sc /\ advMaxStreams (ids sc) = maxConcurrentStreams cfg) (Serve_conn cfg n).
Proof.
  pose proof cfg_limit. unfold Serve_conn. cbn -[maxConcurrentStreams].
  split; [|done]. split; cbn -[maxConcurrentStreams]; try done.
  - split; cbn -[maxConcurrentStreams]; try done; lia || auto.
  - split_and!; [split|eexists; split; done|eexists; split_and!; done].
    + intros a f Hf. destruct a as [|[|a]]; simplify_eq/=; width.
    + intros a f c Hf. by destruct a as [|[|a]]; simplify_eq/=.
  - apply sched_ok_new.
Qed.

Lemma serve_start_inv n :
  safe (fun sc => Inv false sc /\ advMaxStreams (ids sc) = maxConcurrentStreams cfg)
    (serve_start cfg visit h1ServerKeepAlivesDisabled n).
Proof.
  unfold serve_start. apply safe_bind. eapply safe_mono; [apply Serve_conn_inv|]. intros sc [Hi Hadv].
  apply safe_bind. eapply safe_mono; [by apply (write_moved cfg Hcfg visit _ true); [|intros []]|].
  intros sc1 H1. cbv beta in H1. apply safe_bind.
  assert (H2 : step_ok false true 0 sc (on_peer (p_unacked (unackedSettings (peer sc1) + 1)) sc1)).
  { eapply step_trans; [exact H1|apply like_moved; [by repeat split|by eapply step_inv]|done]. }
  apply (safe_mono (step_ok false true 0 sc)).
  - case_if; [|exact H2]. eapply moved_after; [exact H2|]. apply (update_moved cfg Hcfg). by eapply step_inv.
  - intros sc2 (I2 & (_ & _ & E2) & _). cbn [safe]. case_if; [|split; congruence || done].
    split; [|cbn; congruence]. eapply alike_inv; [|exact I2]. by repeat split.
Qed.

(** ** Steps *)

Lemma requestBody_Read_moved sc b m :
  Inv false sc -> safe (fun r => step_ok false false 0 sc (fst (fst (fst r)))) (requestBody_Read sc b m).
Proof.
  intros Hi. unfold requestBody_Read. apply safe_bind. unfold wstream_of. apply safe_bind, obj_safe. intros o Ho.
  cbn [safe rb_pipe rb_sawEOF rb_stream]. case_if; [by apply step_refl|]. apply safe_bind, obj_safe. intros o' Ho'.
  apply safe_bind, safe_deref. intros p Hp. destruct (pipe_Read p m) as [p1 []]; cbn [safe fst]; by apply step_obj_same.
Qed.

Lemma requestBody_Close_moved sc b :
  Inv false sc -> safe (fun r => step_ok false false 0 sc (fst r)) (requestBody_Close sc b).
Proof.
  intros Hi. unfold requestBody_Close. apply safe_bind. apply (safe_mono (step_ok false false 0 sc)); [|done].
  case_if; [|by apply step_refl]. apply safe_bind, obj_safe. intros o Ho. apply safe_bind, safe_deref. intros p Hp.
  apply safe_bind. eapply safe_mono; [apply closeWithError_safe|]. intros p1 _. by apply step_obj_same.
Qed.

Lemma close_all_moved sc order :
  Inv false sc -> safe (step_ok false false 0 sc) (close_all cfg visit h1ServerKeepAlivesDisabled sc order).
Proof.
  revert sc. induction order as [|id order IH]; intros sc Hi; cbn [close_all]; [by apply step_refl|].
  apply safe_bind. apply (safe_mono (step_ok false false 0 sc)).
  - case_bool_decide; [by apply close_moved|by apply step_refl].
  - intros sc1 H1. eapply moved_after; [exact H1|]. apply IH. by eapply step_inv.
Qed.

Lemma closeAll_moved sc :
  Inv false sc -> safe (step_ok false false 0 sc) (closeAllStreamsOnConnClose cfg visit h1ServerKeepAlivesDisabled sc).
Proof.
  intros Hi. assert (H1 : step_ok false false 0 sc (tick sc)) by (by apply like_moved; [repeat split|]).
  eapply moved_after; [exact H1|]. apply close_all_moved. by eapply step_inv.
Qed.

Lemma conn_step_moved sc sc' : Inv false sc -> conn_step sc sc' -> step_ok false false 0 sc sc'.
Proof.
  intros Hi [e sc2 go He E|b m sc2 b' r es E|b sc2 b' E|c|sc2 E].
  - pose proof (serve_round_ok cfg Hcfg visit h1ServerKeepAlivesDisabled isClosedConnError sc e Hi He) as Hs. by rewrite E in Hs.
  - pose proof (requestBody_Read_moved sc b m Hi) as Hs. by rewrite E in Hs.
  - pose proof (requestBody_Close_moved sc b Hi) as Hs. by rewrite E in Hs.
  - by apply like_moved; [repeat split|].
  - pose proof (closeAll_moved sc Hi) as Hs. by rewrite E in Hs.
Qed.

Lemma conn_steps_moved sc sc' : Inv false sc -> rtc conn_step sc sc' -> step_ok false false 0 sc sc'.
Proof.
  intros Hi Hs. induction Hs as [|sc sc1 sc2 H1 _ IH]; [by apply step_refl|].
  pose proof (conn_step_moved _ _ Hi H1) as S1.
  eapply step_trans; [exact S1|apply IH; by eapply step_inv|done].
Qed.

Lemma conn_reaches_inv sc : conn_reaches sc -> Inv false sc /\ advMaxStreams (ids sc) = maxConcurrentStreams cfg.
Proof.
  intros (sc0 & (n & E) & Hs). pose proof (serve_start_inv n) as H0'. rewrite E in H0'. destruct H0' as [I0 A0].
  destruct (conn_steps_moved _ _ I0 Hs) as (I1 & (_ & _ & A1) & _). split; [done|congruence].
Qed.

(** The loop over a list of events, while it goes on. *)
Fixpoint serve_events sc (es : list event) : outcome serverConn :=
  match es with
  | [] => Ret sc
  | e :: es =>
      run (sc, go) <- serve_round cfg visit h1ServerKeepAlivesDisabled isClosedConnError sc e;
      if go : bool then serve_events sc es else Ret sc
  end.

Lemma serve_events_steps es sc sc' : Forall event_ok es -> serve_events sc es = Ret sc' -> rtc conn_step sc sc'.
Proof.
  intros Hes. revert sc. induction Hes as [|e es He _ IH]; intros sc; cbn [serve_events]; [intros [= ->]; constructor|].
  destruct (serve_round _ _ _ _ sc e) as [[sc1 go]| |] eqn:E; try done. cbn [outcome_bind]. intros Hgo.
  eapply rtc_l; [by eapply conn_serve|]. destruct go; [by apply IH|]. by injection Hgo as ->.
Qed.

(** ** What holds in every state *)

Lemma conn_state_view L sc id : Inv L sc -> conn_state sc id = Ret (view sc id, bool_decide (id ∈ streams sc)).
Proof.
  intros Hi. unfold conn_state, view, id_limit. case_bool_decide as Hid.
  - destruct (i_live _ _ Hi id Hid) as (o & Ho & _). unfold obj. by rewrite Ho.
  - destruct (Z.odd id); by case_if.
Qed.

(** C2: in every state a connection reaches, the counters are the numbers of open
    streams of the client and of pushed streams, no more streams of the client are
    open than the limit the server announced, and an open stream has an object
    that is neither idle nor closed and an identifier that was opened. *)
Theorem conn_counts_streams sc :
  conn_reaches sc ->
  curClientStreams (ids sc) = Z.of_nat (size (odd_ids (streams sc))) /\
  curPushedStreams (ids sc) = Z.of_nat (size (even_ids (streams sc))) /\
  curClientStreams (ids sc) <= maxConcurrentStreams cfg /\
  forall id, id ∈ streams sc ->
    0 < id <= id_limit (ids sc) id /\ exists s, conn_state sc id = Ret (s, true) /\ s <> stateIdle /\ s <> stateClosed.
Proof.
  intros Hr. destruct (conn_reaches_inv sc Hr) as [Hi Hadv]. destruct (i_ids _ _ Hi) as [N1 N2 N3 _ _ _ _].
  split_and!; [done|done|lia|]. intros id Hid. destruct (i_live _ _ Hi id Hid) as (o & Ho & H1 & H2).
  split; [by apply (i_bound _ _ Hi id o)|]. exists (st_state o). unfold conn_state, obj. rewrite bool_decide_true, Ho by done.
  done.
Qed.

(** C8: whatever happens on a connection, a stream only goes forward, from idle
    through open and half-closed to closed; in particular an identifier that was
    closed is closed for good.  The object of a stream stays, with the two windows it
    was given: it is never dropped, nor replaced by another one. *)
Theorem conn_streams_forward sc sc' id :
  conn_reaches sc -> rtc conn_step sc sc' ->
  exists s b s' b', conn_state sc id = Ret (s, b) /\ conn_state sc' id = Ret (s', b') /\
    (rank s <= rank s')%nat /\ (s = stateClosed -> s' = stateClosed /\ b' = false) /\
    (forall o, objs sc !! id = Some o ->
       exists o', objs sc' !! id = Some o' /\ st_flow o' = st_flow o /\ st_inflow o' = st_inflow o).
Proof.
  intros Hr Hs. destruct (conn_reaches_inv sc Hr) as [Hi _]. destruct (conn_steps_moved _ _ Hi Hs) as (Hi' & (F1 & F2 & _) & _).
  eexists _, _, _, _. split_and!; [by eapply conn_state_view|by eapply conn_state_view|done| |intros o; apply F2].
  intros Hc. specialize (F1 id). rewrite Hc in F1. assert (Hv : view sc' id = stateClosed) by (destruct (view sc' id); simpl in F1; lia || done).
  split; [done|]. apply bool_decide_eq_false. intros Hid. destruct (i_live _ _ Hi' id Hid) as (o & Ho & _ & Hn). apply Hn.
  unfold view in Hv. by rewrite bool_decide_true, Ho in Hv.
Qed.

(** C9: every round of the serve loop comes to an end, whatever it receives: in
    particular the loop of scheduleFrameWrite, which writes frames that queue
    further frames, never needs more rounds than there is work queued. *)
Theorem serve_round_returns sc e :
  conn_reaches sc -> event_ok e ->
  serve_round cfg visit h1ServerKeepAlivesDisabled isClosedConnError sc e <> OutOfFuel /\
  scheduleFrameWrite cfg visit h1ServerKeepAlivesDisabled sc <> OutOfFuel.
Proof.
  intros Hr He. destruct (conn_reaches_inv sc Hr) as [Hi _]. split; intros E.
  - pose proof (serve_round_ok cfg Hcfg visit h1ServerKeepAlivesDisabled isClosedConnError sc e Hi He) as Hs. by rewrite E in Hs.
  - pose proof (again_moved cfg Hcfg visit h1ServerKeepAlivesDisabled true sc Hi) as Hs. by rewrite E in Hs.
Qed.

(** C27: the state of a connection is well-formed throughout: all flow-control
    windows are 32-bit integers and that of the connection for what it receives is
    not negative, the identifiers seen are 31-bit integers, the queues of the
    scheduler are consistent, and a frame is being written exactly if writeFrameAsync
    has one. *)
Theorem conn_well_formed sc :
  conn_reaches sc ->
  (forall a f, sc_flows sc !! a = Some f -> is_i32 (flow_n f)) /\ 0 <= window (sc_flows sc) 1 /\
  is_i32 (initialStreamSendWindowSize (peer sc)) /\
  0 <= maxClientStreamID (ids sc) < 2 ^ 31 /\ 0 <= maxPushPromiseID (ids sc) < 2 ^ 31 /\
  sched_ok (sched sc) /\ inFrameScheduleLoop (wst sc) = false /\
  writingFrame (wst sc) = writingFrameAsync (wst sc) /\ (writingFrame (wst sc) = true <-> is_Some (inFlight (wst sc))).
Proof.
  intros Hr. destruct (conn_reaches_inv sc Hr) as [Hi _].
  destruct (n_maxc _ _ (i_ids _ _ Hi)) as [? _], (n_maxp _ _ (i_ids _ _ Hi)) as [? _], (i_write _ _ Hi) as [E1 E2].
  split_and!; try apply Hi; try done; try lia.
  - apply window_lower, Hi.
  - rewrite E2. apply bool_decide_eq_true.
Qed.
End Run.

(** ** A run *)

Module Sample.

#[local] Instance writer : ConnWriter := ctx_writer (fun _ => 4096).
#[local] Instance writer_laws : ConnWriterLaws := ctx_writer_returns (fun _ => 4096).

Definition cfg : Config := mkConfig 0 0 0 0 false.
Definition visit (n : nat) (l : list Z) : list Z := l.
Definition no (n : nat) : bool := false.
Definition no_error (n : Z) : bool := false.

Lemma cfg_fits : cfg_ok cfg.
Proof. repeat split; vm_compute; congruence. Qed.

Definition start (c : Config) : outcome serverConn := serve_start c visit no (sample_ctx : NW).

(** A handler has made the channel 0, empty. *)
Definition play (c : Config) (es : list event) : outcome serverConn :=
  run sc <- start c; serve_events c visit no no_error (set_chans (<[0%nat := None]> (chans sc)) sc) es.

Definition header (t flags len id : Z) : FrameHeader := mkFrameHeader true t flags len id.

Definition got (f : inFrame) : event := GotFrame (Ok f) false.

Definition settings : event := got (InFrame (SettingsFrame (header FrameSettings 0 0 0) [])).

(** A POST with a body to come, on the stream [id]. *)
Definition request (id : Z) : event :=
  got (InMeta (header FrameHeaders 4 10 id) zeroPriority
    [mkField (str ":method") (str "POST"); mkField (str ":path") (str "/"); mkField (str ":scheme") (str "https")] false).

(** The settings of both sides are exchanged and a request has arrived. *)
Definition opening : list event := [WroteFrame; settings; WroteFrame; WroteFrame; WroteFrame; request 1].

Definition state : serverConn := match play cfg opening with Ret sc => sc | _ => mkConn _ (mkIds 0 0 0 0 0 0)
  (mkPeer false false 0 0 0 0 0) (mkWrite false false false false false 0 None) (mkAway false false 0 false None false) []
  NewRandomWriteScheduler ∅ ∅ ∅ sample_ctx 0 end.

Definition event_okb (e : event) : bool :=
  match e with
  | GotFrame (Ok f) _ => between 0 (Length (in_header f)) (2 ^ 24 - 1) && between 0 (StreamID (in_header f)) (2 ^ 31 - 1)
  | _ => true
  end.

Lemma event_okb_ok e : event_okb e = true -> event_ok e.
Proof. intros He f b ->. unfold event_okb, between in He. breflect. split; lia. Qed.

Lemma events_ok es : forallb event_okb es = true -> Forall event_ok es.
Proof.
  induction es as [|e es IH]; [constructor|]. cbn [forallb]. intros [He Hes]%andb_true_iff. constructor; [by apply event_okb_ok|auto].
Qed.

Definition returns {A} (o : outcome A) : bool := match o with Ret _ => true | _ => false end.

Lemma opening_returns : returns (play cfg opening) = true.
Proof. vm_compute. reflexivity. Qed.

Lemma play_reaches es sc : forallb event_okb es = true -> play cfg es = Ret sc -> conn_reaches cfg visit no no_error sc.
Proof.
  intros He. unfold play, start. destruct (serve_start cfg visit no _) as [sc0| |] eqn:E0; cbn [outcome_bind]; [|done..].
  intros Hs. exists sc0. split; [by eexists|]. eapply rtc_l; [apply (conn_chan _ _ _ _ _ 0%nat)|].
  eapply serve_events_steps; [by apply events_ok|exact Hs].
Qed.

Lemma state_reached : conn_reaches cfg visit no no_error state.
Proof.
  apply (play_reaches opening); [done|]. pose proof opening_returns as Ht. unfold state.
  by destruct (play cfg opening).
Qed.

Lemma conn_counts_streams_witness :
  curClientStreams (ids state) = 1 /\ odd_ids (streams state) = {[1]} /\ curClientStreams (ids state) <= 250.
Proof.
  destruct (conn_counts_streams cfg visit no no_error cfg_fits state state_reached) as (_ & _ & Hle & _).
  split; [vm_compute; reflexivity|]. split; [vm_compute; reflexivity|exact Hle].
Defined.

(** The client resets the stream it has opened, and its reset is followed by a window
    update of the stream. *)
Definition reset1 : event := got (InFrame (RSTStreamFrame (header FrameRSTStream 0 4 1) 8)).
Definition update1 : event := got (InFrame (WindowUpdateFrame (header FrameWindowUpdate 0 4 1) 5)).

Definition after (sc : serverConn) (es : list event) : serverConn := match serve_events cfg visit no no_error sc es with Ret sc => sc | _ => sc end.

Lemma after_steps sc es : forallb event_okb es = true -> returns (serve_events cfg visit no no_error sc es) = true ->
  rtc (conn_step cfg visit no no_error) sc (after sc es).
Proof.
  intros He Hr. unfold after. destruct (serve_events cfg visit no no_error sc es) as [sc'| |] eqn:E; [|done|done].
  eapply serve_events_steps; [by apply events_ok|exact E].
Qed.

Definition state_reset : serverConn := after state [reset1].
Definition state_later : serverConn := after state_reset [update1].

Lemma reset_steps : rtc (conn_step cfg visit no no_error) state state_reset.
Proof. apply after_steps; vm_eq. Qed.

Lemma later_steps : rtc (conn_step cfg visit no no_error) state_reset state_later.
Proof. apply after_steps; vm_eq. Qed.

Lemma reset_reached : conn_reaches cfg visit no no_error state_reset.
Proof. destruct state_reached as (sc0 & H0 & Hs). exists sc0. split; [done|]. etrans; [exact Hs|apply reset_steps]. Qed.

Lemma state_object : (fun o => (st_flow o, st_inflow o)) <$> objs state !! 1 = Some (2%nat, 3%nat).
Proof. vm_eq. Qed.

Lemma states_of_1 : conn_state state 1 = Ret (stateOpen, true) /\ conn_state state_reset 1 = Ret (stateClosed, false).
Proof. split; vm_eq. Qed.

(** From open to closed, and closed for good; the object keeps its windows. *)
Lemma conn_streams_forward_witness :
  conn_state state 1 = Ret (stateOpen, true) /\ conn_state state_reset 1 = Ret (stateClosed, false) /\
  (exists o', objs state_reset !! 1 = Some o' /\ st_flow o' = 2%nat /\ st_inflow o' = 3%nat) /\
  conn_state state_later 1 = Ret (stateClosed, false).
Proof.
  destruct states_of_1 as [T1 T2]. split; [exact T1|]. split; [exact T2|]. split.
  - destruct (conn_streams_forward cfg visit no no_error cfg_fits state state_reset 1 state_reached reset_steps) as (_ & _ & _ & _ & _ & _ & _ & _ & Ho).
    pose proof state_object as Eo. destruct (objs state !! 1) as [o|]; [|discriminate Eo]. injection Eo as F1 F2.
    destruct (Ho o eq_refl) as (o' & Eo' & G1 & G2). exists o'. split_and!; congruence.
  - destruct (conn_streams_forward cfg visit no no_error cfg_fits state_reset state_later 1 reset_reached later_steps) as (s & b & s' & b' & E1 & E2 & _ & Hc & _).
    rewrite T2 in E1. injection E1 as <- <-. destruct (Hc eq_refl) as [-> ->]. exact E2.
Defined.

Lemma serve_round_returns_witness : serve_round cfg visit no no_error state (request 3) <> OutOfFuel.
Proof. apply (serve_round_returns cfg visit no no_error cfg_fits state (request 3) state_reached). by apply event_okb_ok. Defined.

Lemma conn_well_formed_witness : 0 <= window (sc_flows state) 1 /\ sched_ok (sched state).
Proof.
  destruct (conn_well_formed cfg visit no no_error cfg_fits state state_reached) as (_ & Hw & _ & _ & _ & Hs & _). done.
Defined.

(** *** Two runs that go wrong *)

Definition data (flags len : Z) (d : bytes) : event := got (InFrame (DataFrame (header FrameData flags len 1) d)).

(** The handler answers without a body while the request is still coming in: the
    response is being written when padded data and the end of the body arrive. *)
Definition early_answer : list event :=
  [WantWriteFrame (mkWR (Some (writeResHeaders_ (mkWriteResHeaders 1 200 (Some (mkResponseHeader [] [] [] [] [])) false true [] []
     (str "0")))) (Some (mkWStream 1 2)) (Some 0%nat));
   data 8 10 [1; 2; 3; 4; 5]; data 1 1 [6]].

(** CloseStream frees the window of unread data, and so writes frames, while the
    queue of the stream it closes is still with the scheduler: if a WINDOW_UPDATE of
    the stream is queued, startFrameWrite panics, and the panic is on the goroutine of
    the serve loop.  A client gets there with a padded DATA frame and the end of its
    body while the response is being written. *)
Theorem conn_close_panics :
  forallb event_okb (opening ++ early_answer) = true /\ returns (play cfg (opening ++ early_answer)) = true /\
  play cfg (opening ++ early_answer ++ [WroteFrame]) = Panic.
Proof. split_and!; vm_eq. Qed.

(** The client sends six octets of a body and resets the stream; the handler, which
    still holds the body, reads them afterwards. *)
Definition read_after_reset (c : Config) : outcome (Z * Z * read_res) :=
  run sc <- play c (opening ++ [data 0 6 [1; 2; 3; 4; 5; 6]; got (InFrame (RSTStreamFrame (header FrameRSTStream 0 4 1) 8))]);
  let before := window (sc_flows sc) 1 in
  run (sc, _, res, sent) <- requestBody_Read sc (mkBody 1 false false true false) 100;
  run sc <- serve_events c visit no no_error sc sent;
  Ret (before, window (sc_flows sc) 1, res).

(** Data a handler reads after its stream was closed is given back to the client
    a second time: closeStream returns the window of the unread octets of the body but
    leaves them in the pipe, and noteBodyRead returns it again.  The window grows past
    the one the server configured; if that is the largest there is, the serve loop
    panics. *)
Theorem conn_window_returned_twice :
  read_after_reset cfg = Ret (2 ^ 20, 2 ^ 20 + 6, Got [1; 2; 3; 4; 5; 6]) /\
  read_after_reset (mkConfig (2 ^ 31 - 1) 0 0 0 false) = Panic.
Proof. split; vm_eq. Qed.
End Sample.
