(* ===== verification/H2ConnFrames.v ===== *)
(** * HTTP/2: the answers of a server connection

    What processHeaders and processData do with a frame, case by case, and how the
    length a request declares is read. *)

From S2P Require Import Prelude Bytes HeaderScan Trailer H2Base H2Frame H2Write H2Sample H2Sched H2Pipe H2Conn H2ConnInv H2ConnParts H2ConnWrite.
From S2P Require Import H2ConnSched H2ConnServe H2ConnRun.

(** ** Content-Length *)

(** The length a request declares is the number its digits write if that fits a
    63-bit integer, and a value with anything but digits is refused.  The guard
    against overflow compares the wrapped value with the one before, which does not
    catch every overflow: twenty digits can declare another length than they write. *)
Theorem ParseContentLength_decimal b :
  Forall is_u8 b -> b <> [] ->
  (forallb digitb b = false -> ParseContentLength b = None) /\
  (forallb digitb b = true -> decimal 0 b < 2 ^ 63 -> ParseContentLength b = Some (decimal 0 b)) /\
  ParseContentLength (str "25000000000000000000") = Some (25000000000000000000 - 2 ^ 64).
Proof.
  intros Hw Hne. unfold ParseContentLength, ParseUintBuf. destruct b as [|c b]; [done|]. split_and!.
  - intros Hb. destruct (uint_loop_stops (c :: b) 0 0 Hw Hb) as [->|(x & n & -> & Hn)]; [done|].
    rewrite (proj2 (Z.eqb_neq n (len (c :: b)))); [done|lia].
  - intros Hb Hlt. rewrite (uint_loop_decimal (c :: b) 0 0) by done. by rewrite Z.add_0_l, Z.eqb_refl.
  - reflexivity.
Qed.

Lemma ParseContentLength_decimal_witness : ParseContentLength (str "1048576") = Some 1048576.
Proof.
  apply (ParseContentLength_decimal (str "1048576")); [|done|reflexivity|reflexivity].
  repeat constructor; vm_compute; congruence.
Defined.

(** ** New streams *)

Section Headers.
Context `{ConnWriterLaws}.
Variable cfg : Config.
Variable visit : nat -> list Z -> list Z.
Variable h1ServerKeepAlivesDisabled : nat -> bool.
Variable isClosedConnError : Z -> bool.
Hypothesis Hcfg : cfg_ok cfg.
Implicit Types sc : serverConn.

(** A request of RFC 7540, 8.1.2.3: CONNECT names an authority only, the others a
    method, a path and a scheme; HEAD has no body. *)
Definition request_wf (h : FrameHeader) (fields : list HeaderField) : bool :=
  let pseudo s := PseudoValue fields (str s) in
  (if bytes_eqb (pseudo "method") (str "CONNECT")
   then bytes_eqb (pseudo "path") [] && bytes_eqb (pseudo "scheme") [] && negb (bytes_eqb (pseudo "authority") [])
   else negb (bytes_eqb (pseudo "method") []) && negb (bytes_eqb (pseudo "path") []) &&
        (bytes_eqb (pseudo "scheme") (str "https") || bytes_eqb (pseudo "scheme") (str "http"))) &&
  (StreamEnded h || negb (bytes_eqb (pseudo "method") (str "HEAD"))).

(** No Trailer field has an empty name in its list. *)
Definition trailers_named (fields : list HeaderField) : Prop :=
  Forall (fun hf => CaseInsensitiveCompare (str "Trailer") (canonicalHeader (Name hf)) = true ->
    Forall (fun k => stripSpace k <> []) (trailer_names (Value hf))) (RegularFields fields).

Lemma set_fields_named fields : forall rh,
  Forall (fun hf => CaseInsensitiveCompare (str "Trailer") (canonicalHeader (Name hf)) = true ->
    Forall (fun k => stripSpace k <> []) (trailer_names (Value hf))) fields ->
  exists rh', set_fields rh (map (fun hf => (canonicalHeader (Name hf), Value hf)) fields) = Ret rh'.
Proof.
  induction fields as [|hf fields IH]; intros rh Hn; [by eexists|]. apply Forall_cons in Hn as [Hf Hn]. cbn [map set_fields].
  assert (exists rh', SetCanonical rh (canonicalHeader (Name hf)) (Value hf) = Ret rh') as [rh' ->]; [|cbn [outcome_bind]; by apply IH].
  unfold SetCanonical. case_if; [by eexists|]. case_if; [by eexists|]. destruct (CaseInsensitiveCompare (str "Trailer") _) eqn:Ht; [|case_if; by eexists].
  destruct (SetTrailers_ends (rq_trailer rh) (Value hf)) as [_ Hs]. destruct (Hs (Hf eq_refl)) as (t & e & ->). by eexists.
Qed.

Lemma newWriterAndRequest_wf sc id h fields : trailers_named fields ->
  match newWriterAndRequest sc id h fields with
  | Ret (sc', Ok _) => request_wf h fields = true /\ exists f, sc' = on_obj id f sc /\
      forall o, st_state (f o) = st_state o /\ st_flow (f o) = st_flow o /\ st_inflow (f o) = st_inflow o /\
        (is_Some (st_body (f o)) <-> StreamEnded h = false)
  | Ret (sc', Err e) => request_wf h fields = false /\ sc' = sc /\ e = streamError id ErrCodeProtocol
  | _ => False
  end.
Proof.
  intros Hn. unfold newWriterAndRequest, request_wf. cbv zeta.
  destruct (set_fields_named (RegularFields fields) (mkReqHeader (-1) [] false [] newTrailer) Hn) as [rh0 ->]. cbn [outcome_bind].
  destruct (bytes_eqb (PseudoValue fields (str "method")) (str "CONNECT")) eqn:Ec.
  - apply bytes_eqb_eq in Ec. rewrite Ec.
    destruct (bytes_eqb (PseudoValue fields (str "path")) []); [|done].
    destruct (bytes_eqb (PseudoValue fields (str "scheme")) []); [|done].
    destruct (bytes_eqb (PseudoValue fields (str "authority")) []); [done|]. cbn.
    rewrite orb_true_r. split; [done|]. eexists. split; [done|]. intros o. split_and!; try done.
    simpl. destruct (StreamEnded h); split; try done. by intros [].
  - destruct (bytes_eqb (PseudoValue fields (str "method")) []); [done|].
    destruct (bytes_eqb (PseudoValue fields (str "path")) []); [done|].
    destruct (bytes_eqb (PseudoValue fields (str "scheme")) (str "https")),
      (bytes_eqb (PseudoValue fields (str "scheme")) (str "http")); try done;
      destruct (bytes_eqb (PseudoValue fields (str "method")) (str "HEAD")), (StreamEnded h) eqn:Es; cbn; try done;
      (split; [done|]; eexists; split; [done|]; intros o; split_and!; try done; simpl; split; try done; by intros []).
Qed.

(** newStream gives a stream its windows. *)
Lemma newStream_returns sc id state :
  Inv false sc -> id <> 0 ->
  exists sc' o, newStream cfg sc id state = Ret sc' /\ objs sc' !! id = Some o /\ st_state o = state /\
    streams sc' = streams sc ∪ {[id]} /\ ids sc' = counted id (ids sc) /\
    window (sc_flows sc') (st_flow o) = initialStreamSendWindowSize (peer sc) /\
    window (sc_flows sc') (st_inflow o) = initialStreamRecvWindowSize cfg.
Proof.
  intros Hi Hid. unfold newStream. rewrite (proj2 (Z.eqb_neq id 0)) by done.
  set (fl := sc_flows sc ++ [mkFlow 0 (Some 0%nat); mkFlow 0 (Some 1%nat)]). set (a := length (sc_flows sc)).
  assert (Ha : fl !! a = Some (mkFlow 0 (Some 0%nat))) by (subst fl a; by rewrite lookup_app_r, Nat.sub_diag).
  assert (Hb : fl !! S a = Some (mkFlow 0 (Some 1%nat))).
  { subst fl a. rewrite lookup_app_r by lia. by replace (S (length (sc_flows sc)) - length (sc_flows sc))%nat with 1%nat by lia. }
  pose proof (i_peer _ _ Hi) as Hp. pose proof (recv_window_range cfg Hcfg) as Hr.
  rewrite (flow_add_sum fl a _ _ Ha) by (done || width). cbn [flow_n]. rewrite bool_decide_true, Z.add_0_l by done.
  cbn [outcome_bind].
  assert (Hb' : alter (set_n (initialStreamSendWindowSize (peer sc))) a fl !! S a = Some (mkFlow 0 (Some 1%nat))).
  { by rewrite list_lookup_alter_ne by lia. }
  rewrite (flow_add_sum _ (S a) _ _ Hb') by (done || width). cbn [flow_n]. rewrite bool_decide_true, Z.add_0_l by done.
  cbn [outcome_bind]. eexists _, _. split; [done|]. cbn. rewrite lookup_insert_eq. split_and!; try done; cbn.
  - rewrite window_set, decide_False by (done || lia). rewrite window_set, decide_True by done. done.
  - rewrite window_set, decide_True by done. done.
Qed.

(** The end of processHeaders: the request is checked and given a handler. *)
Lemma accept_request sc id h prio fields tr o :
  objs sc !! id = Some o -> trailers_named fields ->
  exists sc' err o',
    match (if HasPriority h then checkPriority id prio else None) with
    | Some e => Ret (sc, Some e)
    | None =>
        run res <- newWriterAndRequest sc id h fields;
        match res with
        | (sc, Err e) => Ret (sc, Some e)
        | (sc, Ok rh) =>
            Ret (on_obj id (s_handler (if (tr : bool) then handleHeaderListTooLong
                                       else if checkValidHTTP2RequestHeaders rh then Serve else new400Handler)) sc, None)
        end
    end = Ret (sc', err) /\
    streams sc' = streams sc /\ ids sc' = ids sc /\ sc_flows sc' = sc_flows sc /\ objs sc' !! id = Some o' /\
    st_state o' = st_state o /\ st_flow o' = st_flow o /\ st_inflow o' = st_inflow o /\
    (err = None -> (is_Some (st_body o') <-> StreamEnded h = false) /\ is_Some (handler o')) /\
    err = (if (HasPriority h && (id =? StreamDep prio)) || negb (request_wf h fields)
           then Some (streamError id ErrCodeProtocol) else None).
Proof.
  intros Ho Ht. unfold checkPriority. pose proof (newWriterAndRequest_wf sc id h fields Ht) as Hn.
  destruct (HasPriority h && (id =? StreamDep prio)) eqn:Ep.
  { apply andb_true_iff in Ep as [-> ->]. by eexists _, _, _. }
  assert (E : (if HasPriority h then if id =? StreamDep prio then Some (streamError id ErrCodeProtocol) else None else None)
    = (None : option error)) by (destruct (HasPriority h); [cbn in Ep; by rewrite Ep|done]).
  rewrite E. destruct (newWriterAndRequest sc id h fields) as [[sc1 [rh|e]]| |]; [| |done|done]; cbn [outcome_bind].
  - destruct Hn as (-> & f & -> & Hf). destruct (Hf o) as (H1 & H2 & H3 & H4). eexists _, None, _. split; [done|]. cbn.
    rewrite !lookup_alter_eq, Ho. split_and!; try done.
  - destruct Hn as (-> & -> & ->). by eexists _, _, _.
Qed.

(** processHeaders for a new stream, with the timer out of the way. *)
Definition idle_stopped sc : serverConn :=
  match idleTimer (away sc) with Some _ => on_away (a_idle (Some false)) sc | None => sc end.

Lemma processHeaders_unfold sc h prio fields tr :
  let id := StreamID h in
  inGoAway (away sc) = false -> id mod 2 = 1 -> id ∉ streams sc -> maxClientStreamID (ids sc) < id ->
  processHeaders cfg sc h prio fields tr =
  let sc := on_ids (raised id) (idle_stopped sc) in
  if u32 (curClientStreams (ids sc) + 1) >? advMaxStreams (ids sc) then
    Ret (sc, Some (streamError id (if unackedSettings (peer sc) =? 0 then ErrCodeProtocol else ErrCodeRefusedStream)))
  else
    run sc <- newStream cfg sc id (if StreamEnded h then stateHalfClosedRemote else stateOpen);
    match (if HasPriority h then checkPriority id prio else None) with
    | Some e => Ret (sc, Some e)
    | None =>
        run res <- newWriterAndRequest sc id h fields;
        match res with
        | (sc, Err e) => Ret (sc, Some e)
        | (sc, Ok rh) =>
            Ret (on_obj id (s_handler (if tr then handleHeaderListTooLong
                                       else if checkValidHTTP2RequestHeaders rh then Serve else new400Handler)) sc, None)
        end
    end.
Proof.
  intros id Hg Hodd Hid Hmax. unfold processHeaders. fold id. rewrite Hg, Hodd, bool_decide_false by done.
  cbn [Z.eqb Pos.eqb negb]. rewrite (proj2 (Z.leb_gt _ _)) by done. unfold idle_stopped, raised.
  assert (Eodd : Z.odd id = true) by (rewrite Zodd_mod; by apply Zeq_is_eq_bool). rewrite Eodd.
  cbn [on_ids away]. by destruct (idleTimer (away sc)).
Qed.

(** C25: a HEADERS frame with a new identifier of the client, on a connection that is
    not shutting down.  If as many streams as announced are open it is refused with a
    stream error, of REFUSED_STREAM while the client may not know the limit, and the
    identifier is closed.  Otherwise the stream is open, or half-closed if the request
    has no body, it is counted, has the windows the client and the configuration give
    it, and the frame is accepted exactly if it is a well-formed request that does not
    depend on itself; a malformed one is a stream error.  The names of a Trailer field
    must not be empty: for those see [empty_trailer_panics]. *)
Theorem processHeaders_opens sc h prio fields tr :
  let id := StreamID h in
  conn_reaches cfg visit h1ServerKeepAlivesDisabled isClosedConnError sc ->
  inGoAway (away sc) = false -> id mod 2 = 1 -> maxClientStreamID (ids sc) < id < 2 ^ 31 -> trailers_named fields ->
  exists sc' err, processHeaders cfg sc h prio fields tr = Ret (sc', err) /\
    if curClientStreams (ids sc) <? maxConcurrentStreams cfg then
      streams sc' = streams sc ∪ {[id]} /\ curClientStreams (ids sc') = curClientStreams (ids sc) + 1 /\
      (exists o, objs sc' !! id = Some o /\ st_state o = (if StreamEnded h then stateHalfClosedRemote else stateOpen) /\
         window (sc_flows sc') (st_flow o) = initialStreamSendWindowSize (peer sc) /\
         window (sc_flows sc') (st_inflow o) = initialStreamRecvWindowSize cfg /\
         (err = None -> (is_Some (st_body o) <-> StreamEnded h = false) /\ is_Some (handler o))) /\
      err = (if (HasPriority h && (id =? StreamDep prio)) || negb (request_wf h fields)
             then Some (streamError id ErrCodeProtocol) else None)
    else
      streams sc' = streams sc /\ conn_state sc' id = Ret (stateClosed, false) /\
      err = Some (streamError id (if unackedSettings (peer sc) =? 0 then ErrCodeProtocol else ErrCodeRefusedStream)).
Proof.
  intros id Hr Hg Hodd Hid Htr. destruct (conn_reaches_inv _ _ _ _ Hcfg sc Hr) as [Hi Hadv].
  assert (Eodd : Z.odd id = true) by (rewrite Zodd_mod; by apply Zeq_is_eq_bool).
  assert (Elim : id_limit (ids sc) id = maxClientStreamID (ids sc)) by (unfold id_limit; by rewrite Eodd).
  pose proof (i_ids _ _ Hi) as [N1 _ N3 _ N5 [N6 _] _].
  assert (Hns : id ∉ streams sc).
  { intros Hin. destruct (i_live _ _ Hi id Hin) as (o & Ho & _). destruct (i_bound _ _ Hi id o Ho) as ((_ & ?) & _). lia. }
  rewrite processHeaders_unfold by (done || lia). fold id.
  set (sc0 := idle_stopped sc).
  assert (A0 : alike sc sc0) by (subst sc0; unfold idle_stopped; by destruct (idleTimer (away sc)); repeat split).
  assert (Ep : peer sc0 = peer sc) by (subst sc0; unfold idle_stopped; by destruct (idleTimer (away sc))).
  pose proof A0 as (Eids & Est & _). pose proof (alike_inv _ _ _ A0 Hi) as Hi0.
  assert (S1 : step_ok false true 0 sc0 (on_ids (raised id) sc0)) by (apply raise_step; [done|rewrite Eids, Elim; lia]).
  cbv zeta. cbn [on_ids ids peer]. unfold raised at 1 2. rewrite Eids, Eodd, Ep. cbn [curClientStreams advMaxStreams].
  rewrite u32_id, Hadv by width.
  destruct (curClientStreams (ids sc) <? maxConcurrentStreams cfg) eqn:Ef; breflect.
  2: { destruct (curClientStreams (ids sc) + 1 >? maxConcurrentStreams cfg) eqn:E1; breflect; [|lia].
       eexists _, _. split; [done|]. cbn [on_ids streams]. split_and!; [done| |done].
       erewrite conn_state_view by (by eapply step_inv). unfold view. cbn [on_ids streams ids].
       rewrite Est, !bool_decide_false by done. unfold id_limit, raised. rewrite Eodd. cbn. by rewrite Z.leb_refl. }
  destruct (curClientStreams (ids sc) + 1 >? maxConcurrentStreams cfg) eqn:E1; breflect; [lia|].
  destruct (newStream_returns (on_ids (raised id) sc0) id (if StreamEnded h then stateHalfClosedRemote else stateOpen)
    (step_inv _ _ _ _ _ S1) ltac:(lia)) as (sc1 & o & En & Ho & Hs & Hst & Hids & Hw1 & Hw2).
  rewrite En. cbn [outcome_bind]. clear En. cbn [on_ids streams ids peer] in Hst, Hids, Hw1. rewrite Est in Hst. rewrite Ep in Hw1.
  assert (Hcount : curClientStreams (ids sc1) = curClientStreams (ids sc) + 1).
  { rewrite Hids. unfold counted, raised. rewrite isPushed_odd, Eodd, Eids. cbn. by rewrite u32_id by width. }
  destruct (accept_request sc1 id h prio fields tr o Ho Htr)
    as (sc2 & err & o2 & E2 & Hst2 & Hids2 & Hfl2 & Ho2 & Hs2 & Hf2 & Hi2 & Hok & Herr).
  exists sc2, err. split; [exact E2|]. split_and!; [congruence|congruence| |done].
  exists o2. rewrite Hfl2, Hf2, Hi2, Hs2. done.
Qed.
End Headers.

(** ** Data *)

Section Data.
Context `{ConnWriter}.
Variable cfg : Config.
Variable visit : nat -> list Z -> list Z.
Variable h1ServerKeepAlivesDisabled : nat -> bool.
Implicit Types sc : serverConn.

(** An open stream that takes data, the object and the pipe of its body. *)
Record takes_data sc (id : Z) (o : streamObj) (p : pipe) (b : dataBuffer) : Prop := {
  td_in : id ∈ streams sc;
  td_obj : objs sc !! id = Some o;
  td_open : st_state o = stateOpen;
  td_trailer : gotTrailerHeader o = false;
  td_reset : resetQueued o = false;
  td_body : st_body o = Some p;
  td_pipe : p_err p = None /\ breakErr p = None /\ p_b p = Some b;
  td_count : 0 <= bodyBytes o < 2 ^ 62
}.

(** The declared length allows for [n] more octets. *)
Definition declared_ok (o : streamObj) (n : Z) : bool :=
  (declBodyBytes o =? -1) || (bodyBytes o + n <=? declBodyBytes o).

(** What is available can be taken. *)
Lemma flow_take_available fl a av k : flow_available fl a = Ret av -> k <= av -> exists fl', flow_take fl a k = Ret fl'.
Proof.
  intros Hav Hk. unfold flow_take. rewrite Hav. cbn [outcome_bind]. rewrite Z.gtb_ltb, (proj2 (Z.ltb_ge _ _)) by lia.
  unfold flow_available in Hav. destruct (fl !! a) as [f|] eqn:Ef; [|done]. cbn [deref outcome_bind] in *.
  destruct (flow_conn f) as [c|]; [|by eexists]. destruct (fl !! c) as [cf|] eqn:Ec; [|done].
  assert (is_Some (alter (set_n (i32 (flow_n f - k))) a fl !! c)) as [cf' Hcf].
  { apply lookup_lt_is_Some. rewrite length_alter. by eapply lookup_lt_Some. }
  rewrite Hcf. by eexists.
Qed.

(** Closing a pipe that is open. *)
Lemma closeWithError_open p e fn :
  p_err p = None ->
  exists p', closeWithError p false (Some e) fn = Ret p' /\ p_err p' = Some e /\ p_b p' = p_b p /\ unread p' = unread p.
Proof. intros He. unfold closeWithError. rewrite He. eexists. split; [done|]. by destruct p as [? ? ? ? [[]|]]. Qed.

Lemma closeWithError_closed p e e' fn :
  p_err p = Some e -> closeWithError p false (Some e') fn = Ret p.
Proof. intros He. unfold closeWithError. by rewrite He. Qed.

Lemma endStream_body sc id o p :
  objs sc !! id = Some o -> st_body o = Some p -> p_err p = None ->
  exists sc' o' p' e, endStream sc id = Ret sc' /\ sc_flows sc' = sc_flows sc /\ streams sc' = streams sc /\
    objs sc' !! id = Some o' /\ st_state o' = stateHalfClosedRemote /\ bodyBytes o' = bodyBytes o /\ st_body o' = Some p' /\
    p_b p' = p_b p /\ p_err p' = Some e /\ (e = EOF <-> declBodyBytes o = -1 \/ declBodyBytes o = bodyBytes o).
Proof.
  intros Ho Hb He. unfold endStream, obj. rewrite Ho. cbn [deref outcome_bind]. rewrite Hb. cbn [deref outcome_bind].
  unfold CloseWithError, closeWithErrorAndCode.
  destruct (negb (declBodyBytes o =? -1) && negb (declBodyBytes o =? bodyBytes o)) eqn:E.
  - edestruct closeWithError_open as (p' & -> & He' & Hb' & _); [exact He|]. cbn [outcome_bind].
    eexists _, _, p', _. split; [done|]. cbn. rewrite lookup_alter_eq, Ho. breflect. split_and!; try done. split; [done|lia].
  - destruct (closeWithError_open p EOF (Some 0%nat) He) as (p' & -> & He' & Hb' & _). cbn [outcome_bind].
    rewrite (closeWithError_closed p' EOF) by done. cbn [outcome_bind].
    eexists _, _, p', _. split; [done|]. cbn. rewrite lookup_alter_eq, Ho. split_and!; try done.
    split; [|done]. intros _. breflect. destruct E as [E|E]; breflect; auto.
Qed.

(** C26: an unpadded DATA frame on an open stream that takes data.  Beyond the declared
    length, or beyond the window of the stream or of the connection, it is a stream
    error and the windows stay as they are.  Otherwise both windows shrink by its
    length, the body grows by exactly its octets, and END_STREAM closes the body, with
    EOF exactly if the declared length was reached or none was declared. *)
Theorem processData_accepts sc h payload o p b av :
  let id := StreamID h in
  valid h = true -> inGoAway (away sc) && negb (goAwayCode (away sc) =? ErrCodeNo) = false -> id <> 0 ->
  takes_data sc id o p b -> Length h = len payload -> 0 < len payload < 2 ^ 31 ->
  flow_available (sc_flows sc) (st_inflow o) = Ret av ->
  exists sc' err, processData cfg visit h1ServerKeepAlivesDisabled sc h payload = Ret (sc', err) /\
    if declared_ok o (len payload) && (len payload <=? av) then
      err = None /\ flow_take (sc_flows sc) (st_inflow o) (len payload) = Ret (sc_flows sc') /\
      exists o' p' b', objs sc' !! id = Some o' /\ st_body o' = Some p' /\ p_b p' = Some b' /\
        buf b' = buf b ++ payload /\ offset b' = offset b /\ bodyBytes o' = bodyBytes o + len payload /\
        st_state o' = (if StreamEnded h then stateHalfClosedRemote else stateOpen) /\
        (p_err p' = Some EOF <-> StreamEnded h = true /\ (declBodyBytes o = -1 \/ declBodyBytes o = bodyBytes o'))
    else
      err = Some (streamError id (if declared_ok o (len payload) then ErrCodeFlowControl else ErrCodeProtocol)) /\
      sc_flows sc' = sc_flows sc.
Proof.
  intros id Hv Hg Hid [T1 T2 T3 T4 T5 T6 (T7 & T8 & T9) T10] Hl Hn Hav.
  unfold processData, DataFrame_Data, checkValid. rewrite Hg, Hv. cbn [outcome_bind].
  unfold conn_state, obj. fold id. rewrite bool_decide_true by done. rewrite T2. cbn [deref outcome_bind].
  rewrite T3, T4, T5, T6. rewrite (proj2 (Z.eqb_neq id 0)) by done. rewrite bool_decide_false by done.
  rewrite bool_decide_true by done. cbn [negb orb deref outcome_bind]. rewrite i64_id by width. rewrite Hl.
  destruct (declared_ok o (len payload)) eqn:Ed; unfold declared_ok in Ed.
  2: { apply orb_false_iff in Ed as [-> Ed]. rewrite Z.gtb_ltb, Z.ltb_antisym, Ed. cbn [negb andb].
       unfold CloseWithError. edestruct closeWithError_open as (p' & -> & _); [exact T7|]. cbn [outcome_bind]. by eexists _, _. }
  assert (En : negb (declBodyBytes o =? -1) && (bodyBytes o + len payload >? declBodyBytes o) = false).
  { apply orb_true_iff in Ed as [->|Ed]; [done|]. by rewrite Z.gtb_ltb, Z.ltb_antisym, Ed, andb_false_r. }
  rewrite En. rewrite Z.gtb_ltb, (proj2 (Z.ltb_lt 0 (len payload))) by lia. unfold take_data. rewrite Hav. cbn [outcome_bind andb].
  rewrite !i32_id by width. rewrite Z.ltb_antisym. destruct (len payload <=? av) eqn:Ea; cbn [negb].
  2: { cbn [outcome_bind]. by eexists _, _. }
  breflect. destruct (flow_take_available _ _ _ _ Hav Ea) as (fl & Et). rewrite Et. cbn [outcome_bind].
  rewrite Z.gtb_ltb, (proj2 (Z.ltb_lt 0 (len payload))) by lia. rewrite T6. cbn [deref outcome_bind].
  unfold pipe_Write. rewrite T7, T8, T9. cbn [deref outcome_bind]. rewrite Z.eqb_refl. cbn [negb outcome_bind].
  rewrite Z.sub_diag. change (0 >? 0) with false. cbn [outcome_bind].
  set (sc1 := on_obj id (s_bytes _) _).
  assert (Ho1 : exists o1, objs sc1 !! id = Some o1 /\ st_body o1 = Some (set_b p (Some (dataBuffer_Write b payload))) /\
    bodyBytes o1 = bodyBytes o + len payload /\ declBodyBytes o1 = declBodyBytes o /\ st_state o1 = stateOpen).
  { eexists. subst sc1. cbn. rewrite !lookup_alter_eq, T2. split; [done|]. cbn. rewrite i64_id by width. done. }
  destruct Ho1 as (o1 & Ho1 & Hb1 & Hn1 & Hd1 & Hs1).
  destruct (StreamEnded h).
  - destruct (endStream_body sc1 id o1 _ Ho1 Hb1 T7)
      as (sc2 & o2 & p2 & e & E2 & Hf2 & _ & Ho2 & Hs2 & Hn2 & Hb2 & Hpb & Hpe & Heof).
    unfold nothing. rewrite E2. cbn [outcome_bind]. eexists _, _. split; [done|]. split; [done|]. split; [by rewrite Hf2|].
    exists o2, p2, (dataBuffer_Write b payload). split_and!; try done; [congruence|].
    rewrite Hpe, Hn2, <- Hd1. split.
    + intros [= ->]. split; [done|]. by apply Heof.
    + intros [_ Hc]. f_equal. by apply Heof.
  - eexists _, _. split; [done|]. split; [done|]. split; [done|].
    eexists o1, _, (dataBuffer_Write b payload). split; [done|]. split; [done|]. split_and!; try done.
    cbn. rewrite T7. split; [done|]. by intros [? _].
Qed.
End Data.

#[local] Existing Instances Sample.writer Sample.writer_laws.

Definition get_with_trailer (v : string) : list HeaderField :=
  [mkField (str ":method") (str "GET"); mkField (str ":path") (str "/"); mkField (str ":scheme") (str "https"); mkField (str "trailer") (str v)].

(** A request that announces a trailer is accepted on stream 3. *)
Lemma processHeaders_opens_witness :
  exists sc' err, processHeaders Sample.cfg Sample.state (Sample.header FrameHeaders 5 10 3) zeroPriority (get_with_trailer "Digest, ETag") false = Ret (sc', err) /\
    streams sc' = streams Sample.state ∪ {[3]} /\ err = None.
Proof.
  destruct (processHeaders_opens Sample.cfg Sample.visit Sample.no Sample.no_error Sample.cfg_fits Sample.state
    (Sample.header FrameHeaders 5 10 3) zeroPriority (get_with_trailer "Digest, ETag") false Sample.state_reached) as (sc' & err & E & Hres).
  - vm_compute. reflexivity.
  - reflexivity.
  - vm_compute. split; congruence.
  - constructor; [|constructor]. intros _. repeat constructor; vm_compute; congruence.
  - exists sc', err. split; [exact E|].
    assert (Ef : (curClientStreams (ids Sample.state) <? maxConcurrentStreams Sample.cfg) = true) by (vm_compute; reflexivity).
    rewrite Ef in Hres. destruct Hres as (H1 & _ & _ & H2). split; [exact H1|]. rewrite H2. vm_compute. reflexivity.
Defined.

(** A list of trailers with an empty name panics, on the goroutine of the serve loop. *)
Lemma empty_trailer_panics :
  processHeaders Sample.cfg Sample.state (Sample.header FrameHeaders 5 10 3) zeroPriority (get_with_trailer "a,,b") false = Panic.
Proof. vm_eq. Qed.

(** Stream 1 of the sample. *)
Definition sample_pipe : pipe := setBuffer zeroPipe (newDataBuffer []).
Definition sample_stream : streamObj :=
  mkStream (Some sample_pipe) false 0 (-1) 2 3 stateOpen false false false [] (Some Serve).

Lemma processData_accepts_witness :
  exists sc' err, processData Sample.cfg Sample.visit Sample.no Sample.state (Sample.header FrameData 1 3 1) [7; 8; 9] = Ret (sc', err) /\
    err = None /\ exists o', objs sc' !! 1 = Some o' /\ st_state o' = stateHalfClosedRemote.
Proof.
  destruct (processData_accepts Sample.cfg Sample.visit Sample.no Sample.state (Sample.header FrameData 1 3 1) [7; 8; 9]
    sample_stream sample_pipe (newDataBuffer []) (2 ^ 20)) as (sc' & err & E & Hres).
  - reflexivity.
  - vm_compute. reflexivity.
  - done.
  - split; try done; vm_compute; reflexivity.
  - reflexivity.
  - done.
  - vm_compute. reflexivity.
  - exists sc', err. split; [exact E|]. destruct Hres as (He & _ & o' & p' & b' & Ho & _ & _ & _ & _ & _ & Hs & _).
    split; [exact He|]. exists o'. split; [exact Ho|exact Hs].
Defined.
