(* ===== verification/H2Response.v ===== *)
(** * HTTP/2: responses

    [web/protocol/http2/response_writer.go] and runHandler of [server.go]: the
    writer a handler answers with.  It collects the body in a bufio.Writer and
    turns it into the frames of the response, which it hands to the serve loop one
    at a time; what it finds in the channels then is the parameter [reply].

    The sniffing of content types (net/http) and the date of the server are
    parameters.  Not modelled: CloseNotify and the pool of states. *)

From S2P Require Import Prelude Bytes H2Base H2Frame H2Write H2Sample H2Sched H2Pipe H2Conn H2ConnInv.

(** strconv.ParseUint(s, 10, 63). *)
Definition ParseUint63 (s : bytes) : option Z :=
  match s with
  | [] => None
  | _ => match parse_digits 0 s with
         | Some v => if v <? 2 ^ 63 then Some v else None
         | None => None
         end
  end.

(** What the writer reads of the response. *)
Record Response := mkResponse {
  rp_h : ResponseHeader;
  rp_contentLength : bytes;
  rp_contentType : bytes;
  rp_noDefaultContentType : bool;
  rp_connectionClose : bool
}.

Definition DefaultContentType : bytes := str "text/plain; charset=utf-8".

(** ResponseHeader.ContentType. *)
Definition ContentType (r : Response) : bytes :=
  if negb (rp_noDefaultContentType r) && (len (rp_contentType r) =? 0) then DefaultContentType else rp_contentType r.

Definition peekConnection (r : Response) : bytes :=
  if rp_connectionClose r then str "close" else peekArgStr (rh_h (rp_h r)) (str "Connection").

(** ResponseHeader.Del of Date and of Connection. *)
Definition without (r : Response) (k : bytes) (close : bool) : Response :=
  let h := rp_h r in
  mkResponse (mkResponseHeader (rh_server h) (rh_contentEncoding h) (rh_trailer h) (rh_cookies h) (delAllArgs (rh_h h) k))
    (rp_contentLength r) (rp_contentType r) (rp_noDefaultContentType r) close.

Definition DelDate (r : Response) : Response := without r (str "Date") (rp_connectionClose r).
Definition DelConnection (r : Response) : Response := without r (str "Connection") false.

(** bodyAllowedForStatus. *)
Definition bodyAllowedForStatus (status : Z) : bool :=
  if (status >=? 100) && (status <=? 199) then false
  else if status =? 204 then false
  else if status =? 304 then false
  else true.

(** responseWriterState with its bufio.Writer, and what it has sent: the frames and
    whether it asked the connection to shut down. *)
Record responseWriterState := mkRws {
  rws_res : Response;
  bw_buf : bytes;
  bw_err : option error;
  rws_status : Z;
  wroteHeader : bool;
  sentHeader : bool;
  handlerDone : bool;
  dirty : bool;
  sentContentLen : Z;
  wroteBytes : Z;
  sent : list writeFramer;
  shutdown : bool
}.

(** What a handler meets at the channels of the connection: whether the serve loop
    takes its request, and which case of the select that follows is chosen; when it is
    the closed stream, the outcome of the write may have come too. *)
Inductive selectCase : Type :=
| GotReply (err : option error)
| DoneServing
| StreamClosed (late : option (option error)).

Record moment := mkMoment { accepted : bool; selected : selectCase }.

Section Response.
Variable stream_id : Z.
Variable isHeadResp : bool.
Variable DetectContentType : bytes -> bytes.
Variable server_date : bytes.
(** The moments at which the frames are handed over, in their order. *)
Variable reply : nat -> moment.

Implicit Types r : responseWriterState.

Definition set_res (v : Response) r : responseWriterState :=
  mkRws v (bw_buf r) (bw_err r) (rws_status r) (wroteHeader r) (sentHeader r) (handlerDone r) (dirty r)
    (sentContentLen r) (wroteBytes r) (sent r) (shutdown r).
Definition set_bw (b : bytes) (e : option error) r : responseWriterState :=
  mkRws (rws_res r) b e (rws_status r) (wroteHeader r) (sentHeader r) (handlerDone r) (dirty r)
    (sentContentLen r) (wroteBytes r) (sent r) (shutdown r).
Definition set_status (v : Z) r : responseWriterState :=
  mkRws (rws_res r) (bw_buf r) (bw_err r) v true (sentHeader r) (handlerDone r) (dirty r)
    (sentContentLen r) (wroteBytes r) (sent r) (shutdown r).
Definition set_sentHeader r : responseWriterState :=
  mkRws (rws_res r) (bw_buf r) (bw_err r) (rws_status r) (wroteHeader r) true (handlerDone r) (dirty r)
    (sentContentLen r) (wroteBytes r) (sent r) (shutdown r).
Definition set_done r : responseWriterState :=
  mkRws (rws_res r) (bw_buf r) (bw_err r) (rws_status r) (wroteHeader r) (sentHeader r) true (dirty r)
    (sentContentLen r) (wroteBytes r) (sent r) (shutdown r).
Definition set_dirty r : responseWriterState :=
  mkRws (rws_res r) (bw_buf r) (bw_err r) (rws_status r) (wroteHeader r) (sentHeader r) (handlerDone r) true
    (sentContentLen r) (wroteBytes r) (sent r) (shutdown r).
Definition set_clen (v : Z) r : responseWriterState :=
  mkRws (rws_res r) (bw_buf r) (bw_err r) (rws_status r) (wroteHeader r) (sentHeader r) (handlerDone r) (dirty r)
    v (wroteBytes r) (sent r) (shutdown r).
Definition add_bytes (n : Z) r : responseWriterState :=
  mkRws (rws_res r) (bw_buf r) (bw_err r) (rws_status r) (wroteHeader r) (sentHeader r) (handlerDone r) (dirty r)
    (sentContentLen r) (i64 (wroteBytes r + n)) (sent r) (shutdown r).
Definition set_shutdown r : responseWriterState :=
  mkRws (rws_res r) (bw_buf r) (bw_err r) (rws_status r) (wroteHeader r) (sentHeader r) (handlerDone r) (dirty r)
    (sentContentLen r) (wroteBytes r) (sent r) true.

Definition add_sent (w : writeFramer) r : responseWriterState :=
  mkRws (rws_res r) (bw_buf r) (bw_err r) (rws_status r) (wroteHeader r) (sentHeader r) (handlerDone r) (dirty r)
    (sentContentLen r) (wroteBytes r) (sent r ++ [w]) (shutdown r).

Definition writeFrameFromHandler (w : writeFramer) r : responseWriterState * option error :=
  if accepted (reply (length (sent r))) then (add_sent w r, None) else (r, Some errClientDisconnected).

Definition writeDataFromHandler (w : writeFramer) r : responseWriterState * option error :=
  let m := reply (length (sent r)) in
  let '(r, err) := writeFrameFromHandler w r in
  match err with
  | Some e => (r, Some e)
  | None =>
      (r, match selected m with
          | GotReply e => e
          | DoneServing => Some errClientDisconnected
          | StreamClosed (Some e) => e
          | StreamClosed None => Some errStreamClosed
          end)
  end.

(** writeHeaders; the response header is never nil here. *)
Definition writeHeaders (w : writeFramer) r : responseWriterState * option error :=
  let m := reply (length (sent r)) in
  let '(r, err) := writeFrameFromHandler w r in
  match err with
  | Some e => (r, Some e)
  | None =>
      (r, match selected m with
          | GotReply e => e
          | DoneServing => Some errClientDisconnected
          | StreamClosed _ => Some errStreamClosed
          end)
  end.

Definition hasTrailers r : bool := negb (len (rh_trailer (rp_h (rws_res r))) =? 0).

(** checkWriteHeaderCode and writeHeader. *)
Definition checkWriteHeaderCode (code : Z) : outcome unit :=
  if (code <? 100) || (code >? 999) then Panic else Ret tt.

Definition writeHeader (code : Z) r : outcome responseWriterState :=
  if wroteHeader r then Ret r
  else run _ <- checkWriteHeaderCode code; Ret (set_status code r).

(** The parts of the branch [if !rws.sentHeader] of writeChunk: the length the
    handler declared, dropped if it is not a number; the date; Connection, where
    "close" asks for a shutdown. *)
Definition take_length r : responseWriterState * bytes :=
  let clen := rp_contentLength (rws_res r) in
  if bytes_eqb clen [] then (r, clen)
  else match ParseUint63 clen with Some cl => (set_clen cl r, clen) | None => (r, []) end.

Definition take_date r : responseWriterState * bytes :=
  let date := peekArgStr (rh_h (rp_h (rws_res r))) (str "Date") in
  if len date =? 0 then (r, server_date) else (set_res (DelDate (rws_res r)) r, date).

Definition take_connection r : responseWriterState :=
  let connection := peekConnection (rws_res r) in
  if len connection >? 0 then
    let r := if bytes_eqb connection (str "close") then set_shutdown r else r in
    set_res (DelConnection (rws_res r)) r
  else r.

(** The branch itself: the state, whether the stream ends, and the error of writing
    the headers. *)
Definition send_header (p : bytes) r : responseWriterState * bool * option error :=
  let r := set_sentHeader r in
  let '(r, clen) := take_length r in
  let clen := if bytes_eqb clen [] && handlerDone r && bodyAllowedForStatus (rws_status r) &&
                 ((len p >? 0) || negb isHeadResp)
              then itoa (len p) else clen in
  let ctype := ContentType (rws_res r) in
  let ctype := if (len (rh_contentEncoding (rp_h (rws_res r))) =? 0) && (len ctype =? 0) &&
                  bodyAllowedForStatus (rws_status r) && (len p >? 0)
               then DetectContentType p else ctype in
  let '(r, date) := take_date r in
  let r := take_connection r in
  let endStream := (handlerDone r && negb (hasTrailers r) && (len p =? 0)) || isHeadResp in
  let '(r, err) := writeHeaders (writeResHeaders_ (mkWriteResHeaders stream_id (rws_status r) (Some (rp_h (rws_res r))) false
                           endStream date ctype clen)) r in
  match err with
  | Some e => (set_dirty r, endStream, Some e)
  | None => (r, endStream, None)
  end.

(** The end of writeChunk: data and trailers. *)
Definition send_body (p : bytes) r : responseWriterState * Z * option error :=
  let endStream := handlerDone r && negb (hasTrailers r) in
  let '(r, err) := if (len p >? 0) || endStream then writeDataFromHandler (writeData stream_id p endStream) r else (r, None) in
  match err with
  | Some e => (set_dirty r, 0, Some e)
  | None =>
      if handlerDone r && hasTrailers r then
        let '(r, err) := writeHeaders (writeResHeaders_ (mkWriteResHeaders stream_id 0 (Some (rp_h (rws_res r))) true true
                                 [] [] [])) r in
        match err with
        | Some e => (set_dirty r, len p, Some e)
        | None => (r, len p, None)
        end
      else (r, len p, None)
  end.

(** writeChunk: the octets written and the error. *)
Definition writeChunk (p : bytes) r : outcome (responseWriterState * Z * option error) :=
  run r <- writeHeader 200 r;
  let '(r, stop) :=
    (if sentHeader r then (r, None)
     else
       let '(r, endStream, err) := send_header p r in
       match err with
       | Some e => (r, Some (Some e))
       | None => (r, if endStream then Some None else None)
       end) in
  match stop with
  | Some err => Ret (r, 0, err)
  | None =>
      if isHeadResp then Ret (r, len p, None)
      else if (len p =? 0) && negb (handlerDone r) then Ret (r, 0, None)
      else Ret (send_body p r)
  end.

(** *** bufio.Writer, over writeChunk *)

Definition handlerChunkWriteSize : Z := 4096.

Definition ErrShortWrite : error := errReason (str "short write").

Definition bw_Flush r : outcome (responseWriterState * option error) :=
  match bw_err r with
  | Some e => Ret (r, Some e)
  | None =>
      if len (bw_buf r) =? 0 then Ret (r, None)
      else
        let b := bw_buf r in
        run (r, n, err) <- writeChunk b r;
        let err := if (n <? len b) && bool_decide (err = None) then Some ErrShortWrite else err in
        match err with
        | Some e => Ret (set_bw (zdrop n b) (Some e) r, Some e)
        | None => Ret (set_bw [] None r, None)
        end
  end.

(** The loop of Write. *)
Fixpoint bw_loop (fuel : nat) (p : bytes) (nn : Z) r : outcome (responseWriterState * bytes * Z) :=
  if (len p >? handlerChunkWriteSize - len (bw_buf r)) && bool_decide (bw_err r = None) then
    match fuel with
    | O => OutOfFuel
    | S fuel =>
        if len (bw_buf r) =? 0 then
          run (r, n, err) <- writeChunk p r;
          bw_loop fuel (zdrop n p) (nn + n) (set_bw (bw_buf r) err r)
        else
          let n := handlerChunkWriteSize - len (bw_buf r) in
          let r := set_bw (bw_buf r ++ ztake n p) (bw_err r) r in
          run (r, _) <- bw_Flush r;
          bw_loop fuel (zdrop n p) (nn + n) r
    end
  else Ret (r, p, nn).

Definition bw_Write (p : bytes) r : outcome (responseWriterState * Z * option error) :=
  run (r, p, nn) <- bw_loop (S (S (S (length p)))) p 0 r;
  match bw_err r with
  | Some e => Ret (r, nn, Some e)
  | None => Ret (set_bw (bw_buf r ++ p) None r, nn + len p, None)
  end.

(** *** The methods of responseWriter *)

Definition WriteHeader (code : Z) r : outcome responseWriterState := writeHeader code r.

Definition errTooMuch : error := errReason (str "http2: handler wrote more than declared Content-Length").

(** write, called with a slice of octets. *)
Definition rw_Write (p : bytes) r : outcome (responseWriterState * Z * option error) :=
  let r := add_bytes (len p) r in
  if negb (sentContentLen r =? 0) && (wroteBytes r >? sentContentLen r) then Ret (r, 0, Some errTooMuch)
  else bw_Write p r.

Definition rw_Flush r : outcome responseWriterState :=
  if len (bw_buf r) >? 0 then run (r, _) <- bw_Flush r; Ret r
  else run (r, _, _) <- writeChunk [] r; Ret r.

Definition rw_handlerDone r : outcome responseWriterState := rw_Flush (set_done r).

(** *** runHandler *)

(** A body: octets, or what the calls of Read of a stream return. *)
Inductive responseBody : Type :=
| BodyBytes (b : bytes)
| BodyStream (reads : list (bytes * option error)).

Definition errEmptyRead : error := errReason (str "response bodyStream().Read(buf) returns 0, nil").

(** The loop of writeResponseBody; a stream that is used up is at its end. *)
Fixpoint write_stream (reads : list (bytes * option error)) r : outcome (responseWriterState * option error) :=
  match reads with
  | [] => Ret (r, None)
  | (b, err) :: reads =>
      if len b =? 0 then
        Ret (r, match err with None => Some errEmptyRead | Some EOF => None | Some e => Some e end)
      else
        run (r, _, err) <- rw_Write b r;
        match err with
        | Some e => Ret (r, Some e)
        | None => write_stream reads r
        end
  end.

Definition writeResponseBody (status : Z) (body : responseBody) r : outcome (responseWriterState * option error) :=
  if negb (bodyAllowedForStatus status) then Ret (r, None)
  else
    match body with
    | BodyStream reads => write_stream reads r
    | BodyBytes b => run (r, _, err) <- rw_Write b r; Ret (r, err)
    end.

(** How the handler ended: it panicked, it took the writer over, or it left a
    status and a body. *)
Inductive handlerEnd : Type :=
| Panicked
| Hijacked
| Answered (status : Z) (body : responseBody).

(** The deferred function of runHandler. *)
Definition runHandler (e : handlerEnd) r : outcome responseWriterState :=
  let reset r := Ret (fst (writeFrameFromHandler (handlerPanicRST stream_id) r)) in
  match e with
  | Panicked => reset r
  | Hijacked => rw_handlerDone r
  | Answered status body =>
      run r <- WriteHeader status r;
      run (r, err) <- writeResponseBody status body r;
      match err with
      | Some _ => reset r
      | None => rw_handlerDone r
      end
  end.

(** newWriterAndRequestNoBody's writer. *)
Definition new_rws (res : Response) : responseWriterState :=
  mkRws res [] None 0 false false false false 0 0 [] false.
End Response.

(** ** The frames of a response *)

(** What a frame carries. *)
Definition frame_data (w : writeFramer) : bytes := match w with writeData _ p _ => p | _ => [] end.
Definition frame_stream (w : writeFramer) : Z :=
  match w with writeData id _ _ => id | writeResHeaders_ h => rs_streamID h | _ => 0 end.
Definition ends_stream (w : writeFramer) : bool :=
  match w with writeData _ _ e => e | writeResHeaders_ h => rs_endStream h | _ => false end.

Definition body_of (l : list writeFramer) : bytes := concat (map frame_data l).

Section Frames.
Variable stream_id : Z.
Variable DetectContentType : bytes -> bytes.
Variable server_date : bytes.
Implicit Types r : responseWriterState.

(** Every frame is written. *)
Local Abbreviation all_written := (fun _ : nat => mkMoment true (GotReply None)).
Local Abbreviation chunk := (writeChunk stream_id false DetectContentType server_date all_written).
Local Abbreviation header := (send_header stream_id false DetectContentType server_date all_written).
Local Abbreviation flush := (bw_Flush stream_id false DetectContentType server_date all_written).

(** The length a response declares, if it can be parsed. *)
Definition declared (res : Response) : option Z := ParseUint63 (rp_contentLength res).

(** The parts of the state that writing headers leaves alone. *)
Definition same_writer r r' : Prop :=
  bw_buf r' = bw_buf r /\ bw_err r' = bw_err r /\ rws_status r' = rws_status r /\ wroteHeader r' = wroteHeader r /\
  handlerDone r' = handlerDone r /\ wroteBytes r' = wroteBytes r /\ hasTrailers r' = hasTrailers r /\
  declared (rws_res r') = declared (rws_res r).

Definition same_sent r r' : Prop :=
  same_writer r r' /\ sentHeader r' = sentHeader r /\ sent r' = sent r.

(** The length given in the headers: the one declared, or that of the body when all
    of it is known. *)
Definition clen_of r (p : bytes) : bytes :=
  match declared (rws_res r) with
  | Some _ => rp_contentLength (rws_res r)
  | None => if handlerDone r && bodyAllowedForStatus (rws_status r) then itoa (len p) else []
  end.

Lemma take_length_ok r :
  exists r' clen, take_length r = (r', clen) /\ same_sent r r' /\
    sentContentLen r' = default (sentContentLen r) (declared (rws_res r)) /\
    (if bytes_eqb clen [] then declared (rws_res r) = None
     else is_Some (declared (rws_res r)) /\ clen = rp_contentLength (rws_res r)).
Proof.
  unfold take_length, declared. destruct (bytes_eqb (rp_contentLength (rws_res r)) []) eqn:Ec.
  - eexists _, _. split; [done|]. rewrite Ec. apply bytes_eqb_eq in Ec. rewrite Ec. by repeat split.
  - destruct (ParseUint63 (rp_contentLength (rws_res r))) as [cl|] eqn:Ep; eexists _, _; (split; [done|]).
    + rewrite Ec. split; [by repeat split|]. split; [done|]. by split; [eexists|].
    + by repeat split.
Qed.

Lemma take_date_ok r :
  exists r' d, take_date server_date r = (r', d) /\ same_sent r r' /\ sentContentLen r' = sentContentLen r.
Proof. unfold take_date. case_if; eexists _, _; (split; [done|]); by repeat split. Qed.

Lemma take_connection_ok r : same_sent r (take_connection r) /\ sentContentLen (take_connection r) = sentContentLen r.
Proof. unfold take_connection. case_if; [case_if|]; by repeat split. Qed.

Lemma same_sent_trans r1 r2 r3 : same_sent r1 r2 -> same_sent r2 r3 -> same_sent r1 r3.
Proof.
  intros ((A1 & A2 & A3 & A4 & A5 & A6 & A7 & A8) & A9 & A10) ((B1 & B2 & B3 & B4 & B5 & B6 & B7 & B8) & B9 & B10).
  repeat split; congruence.
Qed.

Lemma send_header_ok p r :
  exists r' hdr, header p r = (r', handlerDone r && negb (hasTrailers r) && (len p =? 0), None) /\ same_writer r r' /\ sentHeader r' = true /\
    sent r' = sent r ++ [writeResHeaders_ hdr] /\
    sentContentLen r' = default (sentContentLen r) (declared (rws_res r)) /\
    rs_streamID hdr = stream_id /\ rs_httpResCode hdr = rws_status r /\ rs_isTrailer hdr = false /\
    rs_endStream hdr = (handlerDone r && negb (hasTrailers r) && (len p =? 0)) /\ rs_contentLength hdr = clen_of r p.
Proof.
  unfold send_header. cbv zeta.
  destruct (take_length_ok (set_sentHeader r)) as (r1 & clen & -> & S1 & L1 & C1).
  destruct (take_date_ok r1) as (r2 & date & -> & S2 & L2). destruct (take_connection_ok r2) as [S3 L3].
  pose proof (same_sent_trans _ _ _ S1 (same_sent_trans _ _ _ S2 S3)) as ((E1 & E2 & E3 & E4 & E5 & E6 & E7 & E8) & E9 & E10).
  destruct S1 as ((_ & _ & F3 & _ & F5 & _) & _).
  set (r3 := take_connection r2) in *. unfold writeHeaders, writeDataFromHandler, writeFrameFromHandler, add_sent. rewrite orb_false_r, E5, E7.
  match goal with |- context [writeResHeaders_ ?h] => set (hdr := h) end.
  eexists _, hdr. split; [reflexivity|]. subst hdr. cbn -[hasTrailers body_of] in *. split_and!; try done; try congruence.
  unfold clen_of. rewrite orb_true_r, andb_true_r, F3, F5. destruct (bytes_eqb clen []) eqn:Ec; cbn [andb].
  - rewrite C1. apply bytes_eqb_eq in Ec. by rewrite Ec.
  - by destruct C1 as [[x ->] ->].
Qed.

(** The octets of a body that can be read to its end. *)
Fixpoint stream_octets (reads : list (bytes * option error)) : option bytes :=
  match reads with
  | [] => Some []
  | (b, err) :: reads =>
      if len b =? 0 then match err with Some EOF => Some [] | _ => None end
      else match stream_octets reads with Some w => Some (b ++ w) | None => None end
  end.

Definition body_octets (body : responseBody) : option bytes :=
  match body with BodyBytes b => Some b | BodyStream reads => stream_octets reads end.

(** *** While the handler runs *)

(** What the frames sent so far and the buffer hold: [w], in this order.  The header
    is not sent before it must be. *)
Record writing (res : Response) (st : Z) r (w : bytes) : Prop := {
  wr_status : rws_status r = st /\ wroteHeader r = true;
  wr_open : handlerDone r = false /\ bw_err r = None;
  wr_buf : len (bw_buf r) <= handlerChunkWriteSize;
  wr_bytes : body_of (sent r) ++ bw_buf r = w;
  wr_res : hasTrailers r = negb (len (rh_trailer (rp_h res)) =? 0) /\ declared (rws_res r) = declared res;
  wr_clen : sentContentLen r = if sentHeader r then default 0 (declared res) else 0;
  wr_sent : if sentHeader r
            then exists hdr l, sent r = writeResHeaders_ hdr :: l /\ rs_streamID hdr = stream_id /\ rs_httpResCode hdr = st /\
                   rs_isTrailer hdr = false /\ rs_endStream hdr = false /\
                   (declared res = None -> rs_contentLength hdr = []) /\
                   Forall (fun f => exists d, f = writeData stream_id d false) l
            else sent r = []
}.

Lemma body_of_snoc l f : body_of (l ++ [f]) = body_of l ++ frame_data f.
Proof. unfold body_of. rewrite map_app, concat_app. simpl. by rewrite app_nil_r. Qed.

(** A chunk that is not empty is sent, after the headers. *)
Lemma writeChunk_writing res st r w p :
  writing res st r w -> 0 < len p ->
  exists r', chunk p r = Ret (r', len p, None) /\ bw_buf r' = bw_buf r /\ wroteBytes r' = wroteBytes r /\
    forall b, len b <= handlerChunkWriteSize -> writing res st (set_bw b None r') (body_of (sent r) ++ p ++ b).
Proof.
  intros [[W1 W2] [W3 W4] W5 W6 [W7 W8] W9 W10] Hp. unfold writeChunk, writeHeader. rewrite W2. cbn [outcome_bind].
  assert (Ep : (len p =? 0) = false) by (apply Z.eqb_neq; lia).
  assert (Eg : (len p >? 0) = true) by (rewrite Z.gtb_ltb; apply Z.ltb_lt; lia).
  destruct (sentHeader r) eqn:Es.
  - rewrite Ep. cbn [andb]. unfold send_body. rewrite W3, Eg. cbn [andb orb]. unfold writeHeaders, writeDataFromHandler, writeFrameFromHandler, add_sent. cbn -[hasTrailers body_of].
    rewrite W3. cbn [andb]. eexists. split; [done|]. split; [done|]. split; [done|].
    intros b Hb. split; cbn -[hasTrailers body_of]; try done; rewrite ?Es; try done.
    + by rewrite body_of_snoc, <- app_assoc.
    + destruct W10 as (hdr & l & E & H1 & H2 & H3 & H4 & H5 & H6). exists hdr, (l ++ [writeData stream_id p false]).
      rewrite E. split_and!; try done. apply Forall_app. split; [done|]. constructor; [by eexists|done].
  - destruct (send_header_ok p r) as (r1 & hdr & E1 & (S1 & S2 & S3 & S4 & S5 & S6 & S7 & S8) & S9 & S10 & S11 & D1 & D2 & D3 & D4 & D5).
    rewrite E1, W3. cbn [andb]. rewrite Ep. cbn [andb]. unfold send_body. rewrite S5, W3, Eg. cbn [andb orb]. unfold writeHeaders, writeDataFromHandler, writeFrameFromHandler, add_sent. cbn -[hasTrailers body_of].
    rewrite S5, W3. cbn [andb]. eexists. split; [done|]. split; [done|]. split; [done|].
    intros b Hb. split; cbn -[hasTrailers body_of]; rewrite ?S9; try done; try (split; congruence).
    + rewrite S10, !body_of_snoc, <- !app_assoc. done.
    + split; [|congruence]. transitivity (hasTrailers r1); [done|congruence].
    + rewrite S11, W9, W8. done.
    + exists hdr, [writeData stream_id p false]. rewrite S10, W10. split_and!; try done.
      * congruence.
      * by rewrite D4, W3.
      * intros Hn. rewrite D5. unfold clen_of. by rewrite W8, Hn, W3.
      * constructor; [by eexists|done].
Qed.

Lemma Flush_writing res st r w :
  writing res st r w -> 0 < len (bw_buf r) ->
  exists r', flush r = Ret (r', None) /\ bw_buf r' = [] /\ wroteBytes r' = wroteBytes r /\ writing res st r' w.
Proof.
  intros Hw Hb. destruct (writeChunk_writing _ _ _ _ _ Hw Hb) as (r1 & E & Eb & Ew & Hnext).
  destruct Hw as [_ [_ W4] _ W6 _ _ _]. unfold bw_Flush. rewrite W4, (proj2 (Z.eqb_neq _ _)) by lia. rewrite E.
  cbn [outcome_bind]. rewrite Z.ltb_irrefl. cbn [andb]. eexists. split; [done|]. split; [done|]. split; [done|].
  specialize (Hnext []). rewrite app_nil_r, W6 in Hnext. apply Hnext. rewrite len_nil. unfold handlerChunkWriteSize. lia.
Qed.

Lemma zdrop_all (l : bytes) : zdrop (len l) l = [].
Proof. apply len_0_inv. rewrite len_zdrop; glen. Qed.

(** The loop of Write when the buffer is empty: all or nothing goes out at once. *)
Lemma bw_loop_direct res st r w p nn fuel :
  writing res st r w -> bw_buf r = [] ->
  exists r' p', bw_loop stream_id false DetectContentType server_date all_written (S fuel) p nn r = Ret (r', p', nn + (len p - len p')) /\
    bw_buf r' = [] /\ wroteBytes r' = wroteBytes r /\ len p' <= handlerChunkWriteSize /\
    exists w', writing res st r' w' /\ w' ++ p' = w ++ p.
Proof.
  intros Hw Hb. pose proof Hw as [_ [_ W4] _ W6 _ _ _]. cbn [bw_loop]. rewrite Hb, W4, len_nil, Z.sub_0_r.
  rewrite bool_decide_true by done. rewrite andb_true_r. destruct (len p >? handlerChunkWriteSize) eqn:E; breflect.
  - cbn [Z.eqb]. assert (Hp : 0 < len p) by (unfold handlerChunkWriteSize in *; lia).
    destruct (writeChunk_writing _ _ _ _ _ Hw Hp) as (r1 & Ec & Eb & Ew & Hnext). rewrite Ec. cbn [outcome_bind].
    rewrite zdrop_all. set (r2 := set_bw (bw_buf r1) None r1).
    assert (Hr2 : bw_buf r2 = [] /\ bw_err r2 = None) by (split; [cbn; congruence|done]). destruct Hr2 as [B2 E2].
    assert (Hend : forall f, bw_loop stream_id false DetectContentType server_date all_written f [] (nn + len p) r2 = Ret (r2, [], nn + len p)).
    { intros f. destruct f; cbn [bw_loop]; rewrite B2; done. }
    rewrite Hend. exists r2, []. rewrite len_nil. split; [do 2 f_equal; lia|]. split_and!; try done; try lia.
    exists (w ++ p). split; [|by rewrite app_nil_r]. specialize (Hnext []). rewrite Hb, app_nil_r in W6. rewrite app_nil_r, W6 in Hnext.
    replace r2 with (set_bw [] None r1) by (subst r2; by rewrite Eb, Hb). apply Hnext. by rewrite len_nil.
  - exists r, p. split; [do 2 f_equal; lia|]. split_and!; try done. by exists w.
Qed.

Lemma bw_Write_writing res st r w p :
  writing res st r w ->
  exists r', bw_Write stream_id false DetectContentType server_date all_written p r = Ret (r', len p, None) /\
    wroteBytes r' = wroteBytes r /\ writing res st r' (w ++ p).
Proof.
  intros Hw.
  assert (Hfill : forall r1 p1 w1, writing res st r1 w1 -> len (bw_buf r1) + len p1 <= handlerChunkWriteSize ->
    writing res st (set_bw (bw_buf r1 ++ p1) None r1) (w1 ++ p1)).
  { intros r1 p1 w1 [] Hl. split; cbn -[hasTrailers body_of]; try done; [by split; [apply wr_open0|]|rewrite len_app; lia|by rewrite app_assoc, wr_bytes0]. }
  unfold bw_Write. destruct (Z_le_gt_dec (len p) (handlerChunkWriteSize - len (bw_buf r))) as [Hle|Hgt].
  - cbn [bw_loop]. rewrite Z.gtb_ltb, (proj2 (Z.ltb_ge _ _)) by lia. cbn [andb outcome_bind].
    destruct (wr_open _ _ _ _ Hw) as [_ ->]. eexists. split; [done|]. split; [done|]. apply Hfill; [done|lia].
  - destruct (decide (bw_buf r = [])) as [Hb|Hb].
    + destruct (bw_loop_direct res st r w p 0 (S (S (length p))) Hw Hb) as (r1 & p1 & E & Eb & Ew & Hp1 & w1 & Hw1 & Ew1).
      rewrite E. cbn [outcome_bind]. destruct (wr_open _ _ _ _ Hw1) as [_ ->]. eexists. split; [do 3 f_equal; lia|].
      split; [done|]. rewrite <- Ew1. apply Hfill; [done|]. rewrite Eb, len_nil. lia.
    + pose proof (wr_buf _ _ _ _ Hw) as Hbuf. destruct (wr_open _ _ _ _ Hw) as [_ He].
      assert (0 < len (bw_buf r)).
      { pose proof (len_nonneg (bw_buf r)). destruct (Z.eq_dec (len (bw_buf r)) 0) as [E0|]; [by apply len_0_inv in E0|lia]. }
      remember (S (S (length p))) as f eqn:Ef. cbn [bw_loop]. rewrite Z.gtb_ltb, (proj2 (Z.ltb_lt _ _)) by lia.
      rewrite He, bool_decide_true by done. cbn [andb]. rewrite (proj2 (Z.eqb_neq _ _)) by lia.
      set (n := handlerChunkWriteSize - len (bw_buf r)) in *.
      assert (Hn : len (ztake n p) = n) by (apply len_ztake; lia).
      pose proof (Hfill r (ztake n p) w Hw ltac:(lia)) as Hw1. set (r1 := set_bw _ None r) in *.
      destruct (Flush_writing _ _ _ _ Hw1) as (r2 & E2 & Eb2 & Ew2 & Hw2); [cbn; rewrite len_app; lia|].
      rewrite E2. cbn [outcome_bind]. subst f.
      destruct (bw_loop_direct res st r2 _ (zdrop n p) (0 + n) (S (length p)) Hw2 Eb2) as (r3 & p3 & E3 & Eb3 & Ew3 & Hp3 & w3 & Hw3 & Ewr).
      rewrite E3. cbn [outcome_bind]. destruct (wr_open _ _ _ _ Hw3) as [_ ->]. rewrite len_zdrop by lia.
      eexists. split; [do 3 f_equal; lia|]. split; [cbn; by rewrite Ew3, Ew2|].
      rewrite <- (ztake_zdrop n p), app_assoc, <- Ewr. apply Hfill; [done|]. rewrite Eb3, len_nil. lia.
Qed.

(** The octets written fit the declared length. *)
Definition fits (res : Response) (w : bytes) : Prop :=
  len w < 2 ^ 63 /\ forall cl, declared res = Some cl -> cl = 0 \/ len w <= cl.

Lemma rw_Write_writing res st r w p :
  writing res st r w -> wroteBytes r = len w -> fits res (w ++ p) ->
  exists r', rw_Write stream_id false DetectContentType server_date all_written p r = Ret (r', len p, None) /\
    wroteBytes r' = len (w ++ p) /\ writing res st r' (w ++ p).
Proof.
  intros Hw Hb [Hlt Hfit]. unfold rw_Write. cbn [add_bytes sentContentLen wroteBytes]. pose proof (len_nonneg w). pose proof (len_nonneg p).
  rewrite len_app in Hlt. rewrite Hb, i64_id by width.
  assert (E : negb (sentContentLen r =? 0) && (len w + len p >? sentContentLen r) = false).
  { rewrite (wr_clen _ _ _ _ Hw). destruct (sentHeader r); [|done]. destruct (declared res) as [cl|]; [|done]. change (default 0 (Some cl)) with cl.
    destruct (Hfit cl eq_refl) as [->|Hle]; [done|]. rewrite len_app in Hle. rewrite Z.gtb_ltb, (proj2 (Z.ltb_ge _ _)) by lia.
    apply andb_false_r. }
  cbn [sentContentLen wroteBytes add_bytes]. rewrite E.
  assert (Hw1 : writing res st (add_bytes (len p) r) w) by (destruct Hw; by split).
  destruct (bw_Write_writing _ _ _ _ p Hw1) as (r1 & E1 & Eb & Hw2). exists r1. split; [done|]. split; [|done].
  rewrite Eb. cbn [add_bytes wroteBytes]. by rewrite Hb, i64_id, len_app by width.
Qed.

(** *** The end *)

(** A whole response: its headers first, then its body in data frames, then trailers
    if there are any, all of the stream, and the stream ends with the last frame. *)
Definition complete_response (res : Response) (st : Z) (l : list writeFramer) (w : bytes) : Prop :=
  exists hdr rest init last,
    l = writeResHeaders_ hdr :: rest /\ rs_httpResCode hdr = st /\ rs_isTrailer hdr = false /\
    l = init ++ [last] /\ ends_stream last = true /\ Forall (fun f => ends_stream f = false) init /\
    Forall (fun f => frame_stream f = stream_id) l /\ body_of l = w /\
    (declared res = None -> rs_contentLength hdr = [] \/ rs_contentLength hdr = itoa (len w)) /\
    Forall (fun f => match f with writeResHeaders_ h => rs_isTrailer h = true /\ rh_trailer (rp_h res) <> [] | _ => True end) rest.

(** The last frames. *)
Definition trailer_frame r : writeFramer :=
  writeResHeaders_ (mkWriteResHeaders stream_id 0 (Some (rp_h (rws_res r))) true true [] [] []).

Definition last_frames r (p : bytes) : list writeFramer :=
  if hasTrailers r then (if len p >? 0 then [writeData stream_id p false] else []) ++ [trailer_frame r]
  else [writeData stream_id p true].

Lemma send_body_end p r :
  handlerDone r = true ->
  exists r', send_body stream_id all_written p r = (r', len p, None) /\ sent r' = sent r ++ last_frames r p.
Proof.
  intros Hd. unfold send_body, last_frames, trailer_frame. rewrite Hd. cbn [andb].
  destruct (hasTrailers r) eqn:Et; cbn [negb orb].
  - destruct (len p >? 0) eqn:Ep; unfold writeHeaders, writeDataFromHandler, writeFrameFromHandler, add_sent; cbn -[hasTrailers]; rewrite Hd.
    + change (hasTrailers (mkRws _ _ _ _ _ _ _ _ _ _ _ _)) with (hasTrailers r). rewrite Et. cbn.
      eexists. split; [done|]. cbn. by rewrite <- app_assoc.
    + rewrite Et. cbn. by eexists.
  - rewrite orb_true_r. unfold writeHeaders, writeDataFromHandler, writeFrameFromHandler, add_sent. cbn -[hasTrailers]. rewrite Hd.
    change (hasTrailers (mkRws _ _ _ _ _ _ _ _ _ _ _ _)) with (hasTrailers r). rewrite Et. cbn. by eexists.
Qed.

Lemma body_of_app l l' : body_of (l ++ l') = body_of l ++ body_of l'.
Proof. unfold body_of. by rewrite map_app, concat_app. Qed.

Lemma body_of_last r p : body_of (last_frames r p) = p.
Proof.
  unfold last_frames, body_of. destruct (hasTrailers r); [|simpl; by rewrite app_nil_r].
  destruct (len p >? 0) eqn:E; breflect; simpl; [by rewrite !app_nil_r|]. symmetry. apply len_0_inv. pose proof (len_nonneg p). lia.
Qed.

(** Headers that do not end the stream, data, and the last frames. *)
Lemma complete_last res st r hdr l p w :
  hasTrailers r = negb (len (rh_trailer (rp_h res)) =? 0) ->
  rs_streamID hdr = stream_id -> rs_httpResCode hdr = st -> rs_isTrailer hdr = false -> rs_endStream hdr = false ->
  (declared res = None -> rs_contentLength hdr = [] \/ rs_contentLength hdr = itoa (len w)) ->
  Forall (fun f => exists d, f = writeData stream_id d false) l -> body_of l ++ p = w ->
  complete_response res st (writeResHeaders_ hdr :: l ++ last_frames r p) w.
Proof.
  intros Ht H1 H2 H3 H4 H5 Hl Hw.
  assert (Hsplit : exists i x, last_frames r p = i ++ [x] /\ ends_stream x = true /\
    Forall (fun f => ends_stream f = false) i).
  { unfold last_frames. destruct (hasTrailers r); [|by exists [], (writeData stream_id p true)].
    eexists _, _. split; [done|]. split; [done|]. destruct (len p >? 0); repeat constructor. }
  destruct Hsplit as (i & x & E & Hx & Hi).
  exists hdr, (l ++ last_frames r p), (writeResHeaders_ hdr :: l ++ i), x. split_and!; try done.
  - rewrite E. cbn. by rewrite app_assoc.
  - constructor; [done|]. apply Forall_app. split; [|done]. eapply Forall_impl; [exact Hl|]. by intros f [d ->].
  - constructor; [done|]. apply Forall_app. split; [eapply Forall_impl; [exact Hl|]; by intros f [d ->]|].
    unfold last_frames. destruct (hasTrailers r); [destruct (len p >? 0)|]; repeat constructor.
  - change (writeResHeaders_ hdr :: l ++ last_frames r p) with ([writeResHeaders_ hdr] ++ l ++ last_frames r p).
    rewrite !body_of_app, body_of_last. exact Hw.
  - apply Forall_app. split; [eapply Forall_impl; [exact Hl|]; by intros f [d ->]|].
    unfold last_frames. rewrite Ht. destruct (len (rh_trailer (rp_h res)) =? 0) eqn:El; cbn [negb]; [by repeat constructor|].
    apply Z.eqb_neq in El. assert (rh_trailer (rp_h res) <> []) by (intros E0; rewrite E0 in El; by apply El).
    destruct (len p >? 0); repeat constructor; done.
Qed.

(** The last chunk, when the handler is done. *)
Lemma writeChunk_end res st r w :
  writing res st r w ->
  exists r' n, chunk (bw_buf r) (set_done r) = Ret (r', n, None) /\ (0 < len (bw_buf r) -> n = len (bw_buf r)) /\
    complete_response res st (sent r') w.
Proof.
  intros [[W1 W2] [W3 W4] W5 W6 [W7 W8] W9 W10]. set (p := bw_buf r) in *. unfold writeChunk, writeHeader.
  cbn [set_done wroteHeader]. rewrite W2. cbn [outcome_bind set_done sentHeader]. destruct (sentHeader r) eqn:Es.
  - cbn [set_done handlerDone]. rewrite andb_false_r. destruct (send_body_end p (set_done r) eq_refl) as (r1 & E1 & Hs1).
    rewrite E1. exists r1, (len p). split; [done|]. split; [done|]. rewrite Hs1. cbn [set_done sent].
    destruct W10 as (hdr & l & E & H1 & H2 & H3 & H4 & H5 & H6). rewrite E. apply complete_last; try done.
    + intros Hn. left. by apply H5.
    + rewrite E in W6. exact W6.
  - destruct (send_header_ok p (set_done r)) as (r1 & hdr & E1 & (S1 & S2 & S3 & S4 & S5 & S6 & S7 & S8) & S9 & S10 & S11 & D1 & D2 & D3 & D4 & D5).
    rewrite E1. cbn [set_done handlerDone andb] in *. change (hasTrailers (set_done r)) with (hasTrailers r) in *.
    change (rws_res (set_done r)) with (rws_res r) in *. cbn [set_done sent rws_status] in *. rewrite W10 in S10, W6.
    change (body_of [] ++ p) with p in W6. cbn [app] in S10.
    assert (Hclen : declared res = None -> rs_contentLength hdr = [] \/ rs_contentLength hdr = itoa (len w)).
    { intros Hn. rewrite D5. unfold clen_of. cbn [set_done rws_res rws_status handlerDone]. rewrite W8, Hn, <- W6. case_if; auto. }
    destruct (negb (hasTrailers r) && (len p =? 0)) eqn:Ee.
    + exists r1, 0. apply andb_true_iff in Ee as [_ Ep]. apply Z.eqb_eq in Ep. split; [done|]. split; [lia|].
      apply len_0_inv in Ep. rewrite Ep in W6. subst w. rewrite S10. exists hdr, [], [], (writeResHeaders_ hdr).
      split_and!; try done; [congruence|]. by constructor.
    + rewrite S5. cbn [negb]. rewrite andb_false_r. destruct (send_body_end p r1 S5) as (r2 & E2 & Hs2). rewrite E2.
      exists r2, (len p). split; [done|]. split; [done|]. rewrite Hs2, S10. cbn [app].
      apply (complete_last res st r1 hdr [] p); try done; congruence.
Qed.

Lemma handlerDone_complete res st r w :
  writing res st r w ->
  exists r', rw_handlerDone stream_id false DetectContentType server_date all_written r = Ret r' /\
    complete_response res st (sent r') w.
Proof.
  intros Hw. destruct (writeChunk_end _ _ _ _ Hw) as (r1 & n & E & Hn & Hc). unfold rw_handlerDone, rw_Flush.
  cbn [set_done bw_buf]. destruct (len (bw_buf r) >? 0) eqn:El; breflect.
  - unfold bw_Flush. cbn [set_done bw_err bw_buf]. destruct (wr_open _ _ _ _ Hw) as [_ ->]. rewrite (proj2 (Z.eqb_neq _ _)) by lia.
    rewrite E, (Hn El). cbn [outcome_bind]. rewrite Z.ltb_irrefl. cbn. by eexists.
  - pose proof (len_nonneg (bw_buf r)). assert (E0 : bw_buf r = []) by (apply len_0_inv; lia). rewrite E0 in E. rewrite E. by eexists.
Qed.

Lemma fits_prefix res w x : fits res (w ++ x) -> fits res w.
Proof.
  intros [H1 H2]. rewrite len_app in *. pose proof (len_nonneg x). split; [lia|]. intros cl Hcl.
  destruct (H2 cl Hcl); [by left|right; lia].
Qed.

Lemma write_stream_writing res st reads r w x :
  writing res st r w -> wroteBytes r = len w -> stream_octets reads = Some x -> fits res (w ++ x) ->
  exists r', write_stream stream_id false DetectContentType server_date all_written reads r = Ret (r', None) /\
    writing res st r' (w ++ x).
Proof.
  revert r w x. induction reads as [|[b err] reads IH]; intros r w x Hw Hb Hx Hfit; cbn [stream_octets write_stream] in *.
  { injection Hx as <-. exists r. by rewrite app_nil_r. }
  destruct (len b =? 0) eqn:E.
  { destruct err as [[]|]; try done. injection Hx as <-. exists r. by rewrite app_nil_r. }
  destruct (stream_octets reads) as [y|]; [|done]. injection Hx as <-. rewrite app_assoc in Hfit.
  destruct (rw_Write_writing _ _ _ _ b Hw Hb (fits_prefix _ _ _ Hfit)) as (r1 & E1 & Hb1 & Hw1). rewrite E1. cbn [outcome_bind].
  rewrite app_assoc. by apply IH.
Qed.

(** C10: a handler that answers with a status and a body, when the connection writes
    every frame: the frames are one response on its stream, HEADERS with the status,
    DATA frames that hold exactly the octets of the body in order (none if the
    status allows no body), a trailer block only if there are trailers, and END_STREAM
    on the last frame and on no other.  A length that the handler did not declare is
    given only if it is that of the body. *)
Theorem runHandler_response res status body w :
  100 <= status <= 999 -> body_octets body = Some w -> fits res w ->
  exists r, runHandler stream_id false DetectContentType server_date all_written (Answered status body) (new_rws res) = Ret r /\
    complete_response res status (sent r) (if bodyAllowedForStatus status then w else []).
Proof.
  intros Hst Hbody Hfit. unfold runHandler, WriteHeader, writeHeader, checkWriteHeaderCode. cbn [new_rws wroteHeader].
  rewrite (proj2 (Z.ltb_ge _ _)), Z.gtb_ltb, (proj2 (Z.ltb_ge _ _)) by lia. cbn [orb outcome_bind].
  set (r0 := set_status status (new_rws res)).
  assert (H0 : writing res status r0 []) by (by split).
  assert (Hmain : forall r1 x, writing res status r1 x -> exists r, rw_handlerDone stream_id false DetectContentType server_date all_written r1
    = Ret r /\ complete_response res status (sent r) x) by (intros r1 x Hx; by apply handlerDone_complete).
  unfold writeResponseBody. destruct (bodyAllowedForStatus status); cbn [negb].
  - destruct body as [b|reads]; cbn [body_octets] in Hbody.
    + injection Hbody as ->. destruct (rw_Write_writing res status r0 [] w H0 eq_refl Hfit) as (r1 & E1 & _ & Hw1).
      rewrite E1. cbn [outcome_bind]. by apply Hmain.
    + destruct (write_stream_writing res status reads r0 [] w H0 eq_refl Hbody Hfit) as (r1 & E1 & Hw1).
      rewrite E1. cbn [outcome_bind]. by apply Hmain.
  - cbn [outcome_bind]. by apply Hmain.
Qed.
End Frames.

(** ** Runs *)

Definition plain_response (clen : bytes) : Response := mkResponse (mkResponseHeader [] [] [] [] []) clen [] false false.

Lemma runHandler_response_witness :
  exists r, runHandler 1 false (fun _ => []) [] (fun _ => mkMoment true (GotReply None)) (Answered 200 (BodyBytes (str "hello"))) (new_rws (plain_response []))
    = Ret r /\ body_of (sent r) = str "hello".
Proof.
  destruct (runHandler_response 1 (fun _ => []) [] (plain_response []) 200 (BodyBytes (str "hello")) (str "hello"))
    as (r & E & hdr & rest & init & last & _ & _ & _ & _ & _ & _ & _ & Hb & _).
  - lia.
  - reflexivity.
  - split; [reflexivity|]. intros cl [=].
  - exists r. split; [exact E|exact Hb].
Defined.

(** The frames a handler makes when every frame is written. *)
Definition frames_of (head : bool) (res : Response) (e : handlerEnd) : outcome (list writeFramer) :=
  run r <- runHandler 1 head (fun _ => []) [] (fun _ => mkMoment true (GotReply None)) e (new_rws res); Ret (sent r).

(** Three ways a response goes wrong.  A status outside 100 to 999 panics in the
    deferred function of runHandler, after the point where it recovers from panics.
    A body longer than the length the handler declared is sent as it is if it is
    written before the headers are.  A HEAD request whose handler streams a body
    longer than the buffer ends in a short write, and after the finished response
    the handler asks for RST_STREAM. *)
Theorem runHandler_defects :
  frames_of false (plain_response []) (Answered 42 (BodyBytes [])) = Panic /\
  (exists hdr, frames_of false (plain_response (str "2")) (Answered 200 (BodyBytes (str "hello"))) =
     Ret [writeResHeaders_ hdr; writeData 1 (str "hello") true] /\ rs_contentLength hdr = str "2") /\
  (exists hdr, frames_of true (plain_response []) (Answered 200 (BodyStream [(replicate 4000 0, None); (replicate 4000 0, None)])) =
     Ret [writeResHeaders_ hdr; handlerPanicRST 1] /\ rs_endStream hdr = true).
Proof.
  split_and!; [reflexivity| |]; eexists; split; vm_compute; reflexivity.
Qed.
