(* ===== verification/SSE.v ===== *)
(** * Server-sent events

    [web/protocol/sse]: events, the writer that prints them and the reader that
    parses a response body, with the bufio.Scanner the reader runs.

    What the body gives to each call of Read is a [source]: the octets still to
    come, the error that ends them and a schedule of sizes.  The connection the
    writer prints to is the class [ExtWriter].  The pool of events is not
    modelled: an event out of the pool is reset, so it is a new one. *)

From S2P Require Import Prelude Bytes.

Inductive sseErr : Type :=
| ErrEOF
| ErrTooLong
| ErrNoProgress
| errNotSSEContentType
| errIDContainsCRLR
| errTypeContainsCRLR
| ErrOther (m : bytes).

#[export] Instance sseErr_eq_dec : EqDecision sseErr.
Proof. solve_decision. Defined.

Definition CR : Z := 13.
Definition LF : Z := 10.

(** ** Events *)

Definition fieldID : Z := 1.
Definition fieldType : Z := 2.
Definition fieldData : Z := 4.
Definition fieldRetry : Z := 8.

(** [Retry] is a time.Duration, in nanoseconds. *)
Record Event := mkEvent {
  ID : bytes;
  Type_ : bytes;
  Data : bytes;
  Retry : Z;
  bitset : Z
}.

#[export] Instance Event_eq_dec : EqDecision Event.
Proof. solve_decision. Defined.

Definition NewEvent : Event := mkEvent [] [] [] 0 0.

Definition Reset (e : Event) : Event := mkEvent [] [] [] 0 0.

Definition Clone (e : Event) : Event :=
  let p := NewEvent in
  mkEvent (ID e) (Type_ e) (ztake 0 (Data p) ++ Data e) (Retry e) (bitset e).

Definition IsSetID (e : Event) : bool := negb (Z.land (bitset e) fieldID =? 0) || (len (ID e) >? 0).
Definition IsSetType (e : Event) : bool := negb (Z.land (bitset e) fieldType =? 0) || (len (Type_ e) >? 0).
Definition IsSetRetry (e : Event) : bool := negb (Z.land (bitset e) fieldRetry =? 0) || negb (Retry e =? 0).
Definition IsSetData (e : Event) : bool := negb (Z.land (bitset e) fieldData =? 0) || (len (Data e) >? 0).

Definition SetID (e : Event) (id : bytes) : Event :=
  mkEvent id (Type_ e) (Data e) (Retry e) (Z.lor (bitset e) fieldID).
Definition SetEvent (e : Event) (t : bytes) : Event :=
  mkEvent (ID e) t (Data e) (Retry e) (Z.lor (bitset e) fieldType).
Definition SetData (e : Event) (d : bytes) : Event :=
  mkEvent (ID e) (Type_ e) d (Retry e) (Z.lor (bitset e) fieldData).
Definition AppendData (e : Event) (d : bytes) : Event :=
  mkEvent (ID e) (Type_ e) (Data e ++ d) (Retry e) (Z.lor (bitset e) fieldData).
Definition SetRetry (e : Event) (r : Z) : Event :=
  mkEvent (ID e) (Type_ e) (Data e) r (Z.lor (bitset e) fieldRetry).

(** ** Lines *)

Definition sseEventType (v : bytes) : bytes :=
  if bytes_eqb v (str "message") then str "message" else v.

Definition hasCRLF (s : bytes) : bool := existsb (fun c => (c =? CR) || (c =? LF)) (rev s).

(** The split function: how far to advance, and the token if there is one.  Its
    error is always nil. *)
Definition scanEOL (data : bytes) (atEOF : bool) : Z * option bytes :=
  if atEOF && (len data =? 0) then (0, None)
  else
    let i := IndexByte data CR in
    let j := IndexByte data LF in
    let rest := if atEOF then (len data, Some data) else (0, None) in
    if i >=? 0 then
      if i + 1 =? j then (i + 2, Some (ztake i data))
      else if j >=? 0 then
        if i <? j then (i + 1, Some (ztake i data))
        else (j + 1, Some (ztake j data))
      else if (i <? len data - 1) || atEOF then (i + 1, Some (ztake i data))
      else rest
    else if j >=? 0 then (j + 1, Some (ztake j data))
    else rest.

(** ** The scanner (bufio.Scanner) *)

(** A body: the octets to come, the error after them, and for the next calls of
    Read how much they give at most and whether the error comes with the last
    octets.  Without a schedule Read fills the room it gets. *)
Record source := mkSource {
  src_rest : bytes;
  src_err : sseErr;
  src_reads : list (nat * bool)
}.

Definition src_read (room : Z) (s : source) : bytes * option sseErr * source :=
  let '(n, early, reads) := match src_reads s with
                            | [] => (Z.to_nat room, false, [])
                            | (n, early) :: reads => (n, early, reads)
                            end in
  let got := take (Nat.min n (Z.to_nat room)) (src_rest s) in
  let rest := drop (Nat.min n (Z.to_nat room)) (src_rest s) in
  let ends := bool_decide (rest = []) && negb (Nat.eqb n 0) && (early || bool_decide (got = [])) in
  (got, if ends then Some (src_err s) else None, mkSource rest (src_err s) reads).

(** [sc_data] is [buf[start:end]]. *)
Record Scanner := mkScanner {
  sc_r : source;
  sc_max : Z;
  sc_buflen : Z;
  sc_start : Z;
  sc_data : bytes;
  sc_err : option sseErr;
  sc_token : bytes;
  sc_called : bool
}.

Definition MaxScanTokenSize : Z := 65536.
Definition startBufSize : Z := 4096.
Definition maxConsecutiveEmptyReads : nat := 100.

Definition NewScanner (r : source) : Scanner := mkScanner r MaxScanTokenSize 0 0 [] None [] false.

(** Scanner.Err. *)
Definition sc_Err (s : Scanner) : option sseErr :=
  match sc_err s with Some ErrEOF => None | e => e end.

(** The reads of one round: at most [n] of them, until one gives something. *)
Fixpoint fill (n : nat) (room : Z) (r : source) : bytes * option sseErr * source :=
  match n with
  | O => ([], Some ErrNoProgress, r)
  | S n =>
      let '(p, err, r) := src_read room r in
      match err with
      | Some e => (p, Some e, r)
      | None => if len p >? 0 then (p, None, r) else fill n room r
      end
  end.

(** Makes room in a full buffer; [None] is ErrTooLong. *)
Definition sc_room (s : Scanner) : option Scanner :=
  let sc_end := sc_start s + len (sc_data s) in
  let start := if (sc_start s >? 0) && ((sc_end =? sc_buflen s) || (sc_start s >? sc_buflen s / 2))
               then 0 else sc_start s in
  if start + len (sc_data s) =? sc_buflen s then
    if (sc_buflen s >=? sc_max s) || (sc_buflen s >? (2 ^ 63 - 1) / 2) then None
    else
      let newSize := sc_buflen s * 2 in
      let newSize := if newSize =? 0 then startBufSize else newSize in
      Some (mkScanner (sc_r s) (sc_max s) (Z.min newSize (sc_max s)) 0 (sc_data s) (sc_err s) (sc_token s) (sc_called s))
  else Some (mkScanner (sc_r s) (sc_max s) (sc_buflen s) start (sc_data s) (sc_err s) (sc_token s) (sc_called s)).

Definition sc_fail (s : Scanner) (e : sseErr) : Scanner :=
  mkScanner (sc_r s) (sc_max s) (sc_buflen s) (sc_start s) (sc_data s) (Some e) (sc_token s) true.

(** The loop of Scan with scanEOL as the split function. *)
Fixpoint scan_loop (fuel : nat) (s : Scanner) : outcome (bool * Scanner) :=
  match fuel with
  | O => OutOfFuel
  | S fuel =>
      let failed := bool_decide (is_Some (sc_err s)) in
      let '(advance, token) := if (len (sc_data s) >? 0) || failed then scanEOL (sc_data s) failed else (0, None) in
      match token with
      | Some t => Ret (true, mkScanner (sc_r s) (sc_max s) (sc_buflen s) (sc_start s + advance)
                               (zdrop advance (sc_data s)) (sc_err s) t true)
      | None =>
          if failed
          then Ret (false, mkScanner (sc_r s) (sc_max s) (sc_buflen s) 0 [] (sc_err s) [] true)
          else match sc_room s with
               | None => Ret (false, sc_fail s ErrTooLong)
               | Some s =>
                   let '(p, err, r) := fill (S maxConsecutiveEmptyReads)
                                         (sc_buflen s - (sc_start s + len (sc_data s))) (sc_r s) in
                   scan_loop fuel (mkScanner r (sc_max s) (sc_buflen s) (sc_start s) (sc_data s ++ p) err [] true)
               end
      end
  end.

(** Every round but the last two gets an octet. *)
Definition Scan (s : Scanner) : outcome (bool * Scanner) := scan_loop (S (S (length (src_rest (sc_r s))))) s.

(** What the scanner has not given out yet. *)
Definition pending (s : Scanner) : bytes := sc_data s ++ src_rest (sc_r s).

(** ** The reader *)

Record Reader := mkReader {
  r_s : Scanner;
  events : Z;
  lastEventID : bytes
}.

(** NewReader, given what it asks of the response. *)
Definition NewReader (contentType : bytes) (body : source) : result sseErr Reader :=
  if negb (has_prefix (str "text/event-stream") contentType) then Err errNotSSEContentType
  else Ok (mkReader (NewScanner body) 0 []).

(** Buffer of the scanner panics once scanning has started. *)
Definition SetMaxBufferSize (r : Reader) (max : Z) : outcome Reader :=
  let s := r_s r in
  if sc_called s then Panic
  else Ret (mkReader (mkScanner (sc_r s) max 0 (sc_start s) (sc_data s) (sc_err s) (sc_token s) false)
              (events r) (lastEventID r)).

Definition onEventRead (r : Reader) (e : Event) : Reader :=
  mkReader (r_s r) (i32 (events r + 1)) (if IsSetID e then ID e else lastEventID r).

Definition BOM : bytes := [239; 187; 191].

(** The switch on the name of a field. *)
Definition set_field (e : Event) (f v : bytes) : Event :=
  if bytes_eqb f (str "event") then SetEvent e (sseEventType v)
  else if bytes_eqb f (str "data") then
    let e := if len (Data e) >? 0 then mkEvent (ID e) (Type_ e) (Data e ++ [LF]) (Retry e) (bitset e) else e in
    AppendData e v
  else if bytes_eqb f (str "id") then
    if negb (bool_decide (0 ∈ v)) then SetID e v else e
  else if bytes_eqb f (str "retry") then
    match ParseInt64 v with
    | Some retry => SetRetry e (i64 (retry * 1000000))
    | None => e
    end
  else e.

(** The field a line holds, put in the event. *)
Definition read_field (e : Event) (line : bytes) : Event :=
  let i := IndexByte line 58 in
  let '(f, v) :=
    if i <? 0 then (line, [])
    else (ztake i line,
          if (i + 1 <? len line) && bool_decide (znth line (i + 1) = Some 32)
          then zdrop (i + 2) line else zdrop (i + 1) line) in
  set_field e f v.

(** The loop of Read; [i] counts the lines of this call. *)
Fixpoint read_loop (fuel : nat) (r : Reader) (e : Event) (i : Z) : outcome (Reader * Event * option sseErr) :=
  match fuel with
  | O => OutOfFuel
  | S fuel =>
      run (ok, s) <- Scan (r_s r);
      let r := mkReader s (events r) (lastEventID r) in
      if ok then
        let line := sc_token s in
        let line := if (i =? 0) && (events r =? 0) && has_prefix BOM line then zdrop 3 line else line in
        if len line =? 0 then
          if negb (bitset e =? 0) then Ret (onEventRead r e, e, None)
          else read_loop fuel r e (i + 1)
        else if bool_decide (head line = Some 58) then read_loop fuel r e (i + 1)
        else read_loop fuel r (read_field e line) (i + 1)
      else match sc_Err s with
           | Some err => Ret (r, e, Some err)
           | None => if bitset e =? 0 then Ret (r, e, Some ErrEOF)
                     else Ret (onEventRead r e, e, None)
           end
  end.

(** A line takes an octet at least. *)
Definition Read (r : Reader) (e : Event) : outcome (Reader * Event * option sseErr) :=
  read_loop (S (length (pending (r_s r)))) r (Reset e) 0.

Section ForEach.
Context {S0 : Type} (f : S0 -> Event -> S0 * option sseErr).
(** What the n-th call of ctx.Err gives. *)
Context (ctx_Err : nat -> option sseErr).

(** The loop of ForEach.  The handler [f] keeps its own state. *)
Fixpoint forEach_loop (fuel n : nat) (r : Reader) (st : S0) (e : Event) : outcome (Reader * S0 * option sseErr) :=
  match fuel with
  | O => OutOfFuel
  | S fuel =>
      match ctx_Err n with
      | Some err => Ret (r, st, Some err)
      | None =>
          run (r, e, err) <- Read r e;
          match err with
          | Some ErrEOF => Ret (r, st, None)
          | Some err => Ret (r, st, Some (match ctx_Err (S n) with Some er => er | None => err end))
          | None => let '(st, err) := f st e in
                    match err with
                    | Some err => Ret (r, st, Some err)
                    | None => forEach_loop fuel (S n) r st e
                    end
          end
      end
  end.

(** An event takes an octet at least. *)
Definition ForEach (r : Reader) (st : S0) : outcome (Reader * S0 * option sseErr) :=
  forEach_loop (S (S (length (pending (r_s r))))) 0 r st NewEvent.
End ForEach.

(** ** The writer *)

(** network.ExtWriter. *)
Class ExtWriter (W : Type) := {
  ew_Write : W -> bytes -> W * option sseErr;
  ew_Flush : W -> W * option sseErr;
  ew_Finalize : W -> W * option sseErr
}.

(** [for len(data) > 0]: one line of output for each line of [data]; [fuel] is the
    length of [data], of which every round takes an octet. *)
Fixpoint put_lines (fuel : nat) (prefix data : bytes) : bytes :=
  match fuel with
  | O => []
  | S fuel =>
      if len data >? 0 then
        let '(i, b) := scanEOL data true in
        prefix ++ default [] b ++ [LF] ++ put_lines fuel prefix (zdrop i data)
      else []
  end.

(** The buffer Write fills. *)
Definition event_text (e : Event) : result sseErr bytes :=
  let buf := [] in
  try buf <- (if IsSetID e then
                if hasCRLF (ID e) then Err errIDContainsCRLR
                else Ok (buf ++ str "id: " ++ ID e ++ [LF])
              else Ok buf);
  try buf <- (if IsSetType e then
                if bytes_eqb (Type_ e) (str "message") then Ok (buf ++ str "event: message" ++ [LF])
                else if hasCRLF (Type_ e) then Err errTypeContainsCRLR
                else Ok (buf ++ str "event: " ++ Type_ e ++ [LF])
              else Ok buf);
  let buf := if IsSetRetry e then buf ++ str "retry: " ++ itoa (Z.quot (Retry e) 1000000) ++ [LF] else buf in
  let buf := if IsSetData e then buf ++ put_lines (length (Data e)) (str "data: ") (Data e) else buf in
  Ok (buf ++ [LF]).

(** The buffer WriteComment fills. *)
Definition comment_text (s : bytes) : bytes :=
  let buf := put_lines (length s) [58] s in
  if len buf =? 0 then [58] else buf.

Section Writer.
Context {W : Type} `{ExtWriter W}.

Definition write_flush (w : W) (b : bytes) : W * option sseErr :=
  let '(w, err) := ew_Write w b in
  match err with
  | Some e => (w, Some e)
  | None => ew_Flush w
  end.

Definition Write (w : W) (e : Event) : W * option sseErr :=
  match event_text e with
  | Err err => (w, Some err)
  | Ok b => write_flush w b
  end.

Definition WriteComment (w : W) (s : bytes) : W * option sseErr := write_flush w (comment_text s).

Definition WriteKeepAlive (w : W) : W * option sseErr := WriteComment w (str "keep-alive").

Definition WriteEvent (w : W) (id eventType data : bytes) : W * option sseErr :=
  Write w (mkEvent id eventType data 0 0).

Definition Close (w : W) : W * option sseErr := ew_Finalize w.
End Writer.

(** AddAcceptMIME: the value to set, given the one of the header; [None] leaves it. *)
Definition AddAcceptMIME (v : bytes) : option bytes :=
  let mime := str "text/event-stream" in
  if len v >? 0 then
    if existsb (fun n => has_prefix mime (drop n v)) (seq 0 (S (length v))) then None
    else Some (v ++ str ", " ++ mime)
  else Some mime.
