(* ===== verification/SSESpec.v ===== *)
(** * Server-sent events: what is read and what is written

    The lines of an event stream (ended by CR LF, CR or LF), and the scanner and the reader
    refined to a walk over them, for every way the body arrives.  What the fields in the
    lines mean is the subject of [SSEGrammar]. *)

From S2P Require Import Prelude Bytes SSE.

(** ** Lines *)

(** The lines of a text; [cur] is the line under way.  What follows the last end of
    line is a line only if it is not empty. *)
Fixpoint eol_lines (cur s : bytes) : list bytes :=
  match s with
  | [] => match cur with [] => [] | _ => [cur] end
  | c :: t =>
      if c =? LF then cur :: eol_lines [] t
      else if c =? CR then
        cur :: match t with
               | d :: t' => if d =? LF then eol_lines [] t' else eol_lines [] t
               | [] => []
               end
      else eol_lines (cur ++ [c]) t
  end.

Definition text_lines (s : bytes) : list bytes := eol_lines [] s.

Definition plain (l : bytes) : Prop := CR ∉ l /\ LF ∉ l.

Lemma plain_cons c l : plain (c :: l) <-> c <> CR /\ c <> LF /\ plain l.
Proof. unfold plain. rewrite !not_elem_of_cons. naive_solver. Qed.

Lemma plain_nil : plain [].
Proof. split; apply not_elem_of_nil. Qed.

Lemma plain_app a b : plain (a ++ b) <-> plain a /\ plain b.
Proof. unfold plain. rewrite !not_elem_of_app. tauto. Qed.

Lemma eol_lines_plain l t cur : plain l -> eol_lines cur (l ++ t) = eol_lines (cur ++ l) t.
Proof.
  revert cur. induction l as [|c l IH]; intros cur Hl; [by rewrite app_nil_r|].
  apply plain_cons in Hl as (Hc & Hd & Hl). cbn [app eol_lines].
  destruct (c =? LF) eqn:E; breflect; [done|]. destruct (c =? CR) eqn:E2; breflect; [done|].
  rewrite IH by done. by rewrite <- app_assoc.
Qed.

Lemma text_lines_LF l t : plain l -> text_lines (l ++ LF :: t) = l :: text_lines t.
Proof. intros. unfold text_lines. by rewrite eol_lines_plain. Qed.

Lemma text_lines_CRLF l t : plain l -> text_lines (l ++ CR :: LF :: t) = l :: text_lines t.
Proof. intros. unfold text_lines. by rewrite eol_lines_plain. Qed.

Lemma text_lines_CR l t : plain l -> head t <> Some LF -> text_lines (l ++ CR :: t) = l :: text_lines t.
Proof.
  intros Hl Ht. unfold text_lines. rewrite eol_lines_plain by done. cbn [app eol_lines]. simpl (CR =? _).
  cbv iota. f_equal. destruct t as [|d t]; [done|]. destruct (d =? LF) eqn:E; breflect; [|done]. by subst.
Qed.

Lemma text_lines_end l : plain l -> l <> [] -> text_lines l = [l].
Proof.
  intros Hl Hn. unfold text_lines. rewrite <- (app_nil_r l) at 1. rewrite eol_lines_plain by done.
  by destruct l.
Qed.

(** How a text starts. *)
Inductive starts : bytes -> Prop :=
| starts_plain l : plain l -> starts l
| starts_LF l t : plain l -> starts (l ++ LF :: t)
| starts_CR l t : plain l -> starts (l ++ CR :: t).

Lemma starts_all s : starts s.
Proof.
  induction s as [|c s IH]; [constructor; apply plain_nil|].
  destruct (decide (c = LF)) as [->|Hl]; [apply (starts_LF []), plain_nil|].
  destruct (decide (c = CR)) as [->|Hr]; [apply (starts_CR []), plain_nil|].
  assert (Hp : forall l, plain l -> plain (c :: l)) by (intros; by rewrite plain_cons).
  destruct IH as [l Hp'|l t Hp'|l t Hp'].
  - constructor. auto.
  - apply (starts_LF (c :: l)). auto.
  - apply (starts_CR (c :: l)). auto.
Qed.

Lemma length_eol_lines cur s : (length (eol_lines cur s) <= length cur + length s)%nat.
Proof.
  revert cur. induction s as [s IH] using (induction_ltof1 _ length). unfold ltof in IH.
  intros cur. destruct s as [|c t]; [destruct cur; simpl; lia|]. cbn [eol_lines].
  destruct (c =? LF); [|destruct (c =? CR)].
  - simpl. specialize (IH t ltac:(simpl; lia) []). simpl in *. lia.
  - destruct t as [|d t']; [simpl; lia|]. destruct (d =? LF); simpl.
    + specialize (IH t' ltac:(simpl; lia) []). simpl in *. lia.
    + specialize (IH (d :: t') ltac:(simpl; lia) []). simpl in *. lia.
  - specialize (IH t ltac:(simpl; lia) (cur ++ [c])). rewrite length_app in IH. simpl in *. lia.
Qed.

Lemma length_text_lines s : (length (text_lines s) <= length s)%nat.
Proof. apply (length_eol_lines [] s). Qed.

(** The first line is at least the line under way. *)
Lemma eol_lines_first cur s : cur <> [] ->
  exists l ls, eol_lines cur s = l :: ls /\ (length cur <= length l)%nat.
Proof.
  revert cur. induction s as [|c t IH]; intros cur Hc; cbn [eol_lines].
  { destruct cur; [done|]. by eexists _, _. }
  destruct (c =? LF); [by eexists _, _|]. destruct (c =? CR); [by eexists _, _|].
  destruct (IH (cur ++ [c])) as (l & ls & E & Hl); [by destruct cur|]. rewrite length_app in Hl.
  exists l, ls. split; [done|]. lia.
Qed.

(** ** The split function *)

Lemma IndexByte_range b c : -1 <= IndexByte b c < len b \/ IndexByte b c = -1.
Proof.
  induction b as [|x b IH]; simpl; [by right|]. rewrite len_cons. pose proof (len_nonneg b).
  repeat case_if; breflect; lia.
Qed.

Lemma scanEOL_plain l atEOF : plain l ->
  scanEOL l atEOF = if atEOF && negb (len l =? 0) then (len l, Some l) else (0, None).
Proof.
  intros [H1 H2]. unfold scanEOL. rewrite (proj2 (IndexByte_none l CR)), (proj2 (IndexByte_none l LF)) by done.
  destruct atEOF; simpl; [|done]. by destruct (len l =? 0).
Qed.

Lemma scanEOL_LF l t atEOF : plain l -> scanEOL (l ++ LF :: t) atEOF = (len l + 1, Some l).
Proof.
  intros [H1 H2]. unfold scanEOL.
  assert (E0 : (len (l ++ LF :: t) =? 0) = false) by (apply Z.eqb_neq; glen). rewrite E0, andb_false_r.
  rewrite IndexByte_at, IndexByte_app by done. pose proof (len_nonneg l). cbn [IndexByte].
  simpl (LF =? CR). cbv iota. pose proof (IndexByte_range t CR).
  rewrite (ztake_app l).
  repeat (case_if; breflect; try lia; try done).
Qed.

Lemma scanEOL_CRLF l t atEOF : plain l -> scanEOL (l ++ CR :: LF :: t) atEOF = (len l + 2, Some l).
Proof.
  intros [H1 H2]. unfold scanEOL.
  assert (E0 : (len (l ++ CR :: LF :: t) =? 0) = false) by (apply Z.eqb_neq; glen). rewrite E0, andb_false_r.
  rewrite IndexByte_at, IndexByte_app by done. pose proof (len_nonneg l). cbn [IndexByte].
  simpl (CR =? LF). simpl (LF =? LF). cbv iota. simpl (0 =? -1). cbv iota. simpl (0 + 1). simpl (1 =? -1). cbv iota.
  rewrite (ztake_app l).
  repeat (case_if; breflect; try lia; try done).
Qed.

Lemma scanEOL_CR l t atEOF : plain l -> head t <> Some LF ->
  scanEOL (l ++ CR :: t) atEOF = if atEOF || negb (len t =? 0) then (len l + 1, Some l) else (0, None).
Proof.
  intros [H1 H2] Ht. unfold scanEOL.
  assert (E0 : (len (l ++ CR :: t) =? 0) = false) by (apply Z.eqb_neq; glen). rewrite E0, andb_false_r.
  rewrite IndexByte_at, IndexByte_app by done. pose proof (len_nonneg l). cbn [IndexByte].
  simpl (CR =? LF). cbv iota. pose proof (IndexByte_range t LF). rewrite (ztake_app l).
  assert (Hz : IndexByte t LF <> 0).
  { destruct t as [|d t]; simpl; [done|]. destruct (d =? LF) eqn:E; breflect; [by subst|].
    case_if; breflect; pose proof (IndexByte_range t LF); lia. }
  rewrite len_app, len_cons in *. pose proof (len_nonneg t).
  destruct atEOF; simpl orb; repeat (case_if; breflect; try lia; try done).
Qed.

(** A token is the first line of the text, whatever is still to come. *)
Lemma scanEOL_token data atEOF rest adv tok :
  scanEOL data atEOF = (adv, Some tok) -> (atEOF = true -> rest = []) ->
  text_lines (data ++ rest) = tok :: text_lines (zdrop adv data ++ rest) /\ 0 < adv <= len data.
Proof.
  intros H Hr. destruct (starts_all data) as [l Hl|l t Hl|l t Hl].
  - rewrite scanEOL_plain in H by done. destruct atEOF; [|done]. rewrite (Hr eq_refl), !app_nil_r.
    destruct (len l =? 0) eqn:E; [done|]. breflect. simpl in H. injection H as <- <-.
    rewrite text_lines_end; [|done|by intros ->].
    unfold zdrop, len. rewrite Nat2Z.id, drop_all. split; [done|]. unfold len in E. lia.
  - rewrite scanEOL_LF in H by done. injection H as <- <-.
    rewrite <- app_assoc. cbn [app]. rewrite text_lines_LF by done.
    replace (l ++ LF :: t) with ((l ++ [LF]) ++ t) by (by rewrite <- app_assoc).
    rewrite zdrop_app_at by glen. split; [done|]. glen.
  - destruct t as [|d t]; [|destruct (decide (d = LF)) as [->|Hd]].
    + rewrite scanEOL_CR in H by done. destruct atEOF; [|done]. injection H as <- <-.
      rewrite (Hr eq_refl), !app_nil_r, text_lines_CR by done.
      rewrite <- (app_nil_r (l ++ [CR])) at 1. rewrite zdrop_app_at by glen. split; [done|]. glen.
    + rewrite scanEOL_CRLF in H by done. injection H as <- <-.
      rewrite <- app_assoc. cbn [app]. rewrite text_lines_CRLF by done.
      replace (l ++ CR :: LF :: t) with ((l ++ [CR; LF]) ++ t) by (by rewrite <- app_assoc).
      rewrite zdrop_app_at by glen. split; [done|]. glen.
    + rewrite scanEOL_CR in H by (simpl; congruence).
      destruct (len (d :: t) =? 0) eqn:E; breflect; [glen|]. simpl negb in H. rewrite orb_true_r in H.
      injection H as <- <-. rewrite <- app_assoc. cbn [app]. rewrite text_lines_CR by (simpl; congruence || done).
      replace (l ++ CR :: d :: t) with ((l ++ [CR]) ++ d :: t) by (by rewrite <- app_assoc).
      rewrite zdrop_app_at by glen. split; [done|]. glen.
Qed.

(** Without a token the text has no complete line. *)
Lemma scanEOL_none data atEOF adv : scanEOL data atEOF = (adv, None) ->
  if atEOF then data = [] else exists l, plain l /\ (data = l \/ data = l ++ [CR]).
Proof.
  intros H. destruct (starts_all data) as [l Hl|l t Hl|l t Hl].
  - rewrite scanEOL_plain in H by done. destruct atEOF; [|by eauto].
    destruct (len l =? 0) eqn:E; [|done]. breflect. by apply len_0_inv.
  - by rewrite scanEOL_LF in H.
  - destruct t as [|d t]; [|destruct (decide (d = LF)) as [->|Hd]].
    + rewrite scanEOL_CR in H by done. destruct atEOF; [done|]. by eauto.
    + by rewrite scanEOL_CRLF in H.
    + rewrite scanEOL_CR in H by (simpl; congruence). destruct (len (d :: t) =? 0) eqn:E; breflect; [glen|].
      simpl negb in H. by rewrite orb_true_r in H.
Qed.

(** ** The scanner *)

(** What holds of a scanner between calls, when every line and its end fit the
    buffer and no read comes back empty-handed. *)
Record sc_ok (s : Scanner) : Prop := {
  ok_buf : 0 <= sc_start s /\ sc_start s + len (sc_data s) <= sc_buflen s;
  ok_max : 0 < sc_max s <= 2 ^ 62;
  ok_reads : Forall (fun r => (0 < r.1)%nat) (src_reads (sc_r s));
  ok_err : forall e, sc_err s = Some e -> src_rest (sc_r s) = [] /\ e = src_err (sc_r s);
  ok_lines : Forall (fun l => len l + 1 < sc_max s) (text_lines (pending s))
}.

Lemma src_read_some room r p err r' :
  0 < room -> Forall (fun r => (0 < r.1)%nat) (src_reads r) -> src_read room r = (p, err, r') ->
  src_rest r = p ++ src_rest r' /\ src_err r' = src_err r /\ len p <= room /\
  Forall (fun r => (0 < r.1)%nat) (src_reads r') /\
  match err with
  | Some e => src_rest r' = [] /\ e = src_err r
  | None => p <> []
  end.
Proof.
  intros Hroom Hreads. unfold src_read.
  destruct (match src_reads r with [] => _ | _ => _ end) as [[n early] reads] eqn:E.
  assert (0 < n /\ Forall (fun r => 0 < r.1) reads)%nat as [Hn Hreads'].
  { destruct (src_reads r) as [|[n0 e0] reads0]; injection E as <- <- <-; [split; [lia|done]|].
    by apply Forall_cons in Hreads. }
  intros [= <- <- <-]. cbn [src_rest src_err src_reads]. rewrite take_drop.
  split; [done|]. split; [done|]. split; [unfold len; rewrite length_take; lia|]. split; [done|].
  destruct (Nat.eqb n 0) eqn:En; [apply Nat.eqb_eq in En; lia|].
  case_bool_decide as H1; cbn [andb negb].
  - destruct early; cbn [orb]; [done|]. case_bool_decide as H2; [done|]. done.
  - intros H2. apply H1. apply length_zero_iff_nil in H2. rewrite length_take in H2.
    apply length_zero_iff_nil. rewrite length_drop. lia.
Qed.

Lemma fill_some room r p err r' :
  0 < room -> Forall (fun r => (0 < r.1)%nat) (src_reads r) ->
  fill (S maxConsecutiveEmptyReads) room r = (p, err, r') -> src_read room r = (p, err, r').
Proof.
  intros Hroom Hreads. cbn [fill]. destruct (src_read room r) as [[p0 err0] r0] eqn:E.
  destruct err0 as [e|]; [done|]. pose proof (src_read_some _ _ _ _ _ Hroom Hreads E) as (_ & _ & _ & _ & Hp).
  destruct (len p0 >? 0) eqn:El; [done|]. breflect. destruct Hp. apply len_0_inv. pose proof (len_nonneg p0). lia.
Qed.

(** A line that is not complete leaves room. *)
Lemma sc_room_some s adv :
  sc_ok s -> scanEOL (sc_data s) false = (adv, None) ->
  exists start buflen, sc_room s =
    Some (mkScanner (sc_r s) (sc_max s) buflen start (sc_data s) (sc_err s) (sc_token s) (sc_called s)) /\
    0 <= start /\ start + len (sc_data s) < buflen.
Proof.
  intros Hok Hs. destruct (ok_buf _ Hok) as [Hst Hb]. pose proof (ok_max _ Hok) as Hm.
  assert (Hfit : len (sc_data s) < sc_max s).
  { destruct (scanEOL_none _ _ _ Hs) as (l & Hl & Hd). pose proof (ok_lines _ Hok) as Hls. unfold pending in Hls.
    destruct (decide (l = [])) as [->|Hn].
    { destruct Hd as [Hd|Hd]; rewrite Hd; [rewrite len_nil; lia|]. rewrite Hd in Hls. cbn in Hls.
      apply Forall_cons in Hls as [Hls _]. rewrite len_nil in Hls. glen. }
    assert (exists l0 ls, text_lines (sc_data s ++ src_rest (sc_r s)) = l0 :: ls /\ len l <= len l0) as (l0 & ls & E & Hlen).
    { destruct Hd as [Hd|Hd]; rewrite Hd; unfold text_lines; rewrite <- ?app_assoc, eol_lines_plain by done.
      - destruct (eol_lines_first ([] ++ l) (src_rest (sc_r s))) as (l0 & ls & E & Hlen); [done|].
        exists l0, ls. split; [done|]. unfold len. simpl in Hlen. lia.
      - cbn. eexists _, _. split; [done|]. lia. }
    rewrite E in Hls. apply Forall_cons in Hls as [Hls _]. destruct Hd as [Hd|Hd]; rewrite Hd; glen. }
  unfold sc_room. set (start := if _ && _ then 0 else sc_start s).
  assert (Hstart : 0 <= start <= sc_start s) by (unfold start; case_if; lia).
  destruct (start + len (sc_data s) =? sc_buflen s) eqn:E1; breflect.
  - assert (start = 0).
    { unfold start in *. destruct (sc_start s >? 0) eqn:E2; breflect; cbn [andb] in *; [|lia].
      destruct (sc_start s + len (sc_data s) =? sc_buflen s) eqn:E3; breflect; cbn [orb] in *; [done|].
      case_if; lia. }
    destruct ((sc_buflen s >=? sc_max s) || _) eqn:E2; breflect.
    { assert ((2 ^ 63 - 1) / 2 = 2 ^ 62 - 1) by done. destruct E2 as [E2|E2]; breflect; lia. }
    eexists _, _. split; [done|]. split; [lia|]. pose proof (len_nonneg (sc_data s)).
    destruct (sc_buflen s * 2 =? 0) eqn:E3; breflect; unfold startBufSize; lia.
  - eexists _, _. split; [done|]. lia.
Qed.

(** What a call of Scan does: it takes the next line, or there is none left. *)
Definition scanned (s : Scanner) (b : bool) (s' : Scanner) : Prop :=
  sc_ok s' /\ src_err (sc_r s') = src_err (sc_r s) /\
  match text_lines (pending s) with
  | [] => b = false /\ sc_err s' = Some (src_err (sc_r s)) /\ pending s' = []
  | l :: ls => b = true /\ sc_token s' = l /\ text_lines (pending s') = ls /\
               (length (pending s') < length (pending s))%nat
  end.

Lemma scan_loop_lines fuel s :
  sc_ok s -> (length (src_rest (sc_r s)) + (if sc_err s then 1 else 2) <= fuel)%nat ->
  exists b s', scan_loop fuel s = Ret (b, s') /\ scanned s b s'.
Proof.
  revert s. induction fuel as [|fuel IH]; intros s Hok Hf; [destruct (sc_err s); lia|]. cbn [scan_loop].
  set (failed := bool_decide (is_Some (sc_err s))).
  assert (Hrest : failed = true -> src_rest (sc_r s) = []).
  { unfold failed. rewrite bool_decide_eq_true. intros [e He]. by destruct (ok_err _ Hok e He). }
  destruct (if (len (sc_data s) >? 0) || failed then scanEOL (sc_data s) failed else (0, None)) as [adv [tok|]] eqn:E.
  - destruct ((len (sc_data s) >? 0) || failed); [|done].
    destruct (scanEOL_token _ _ (src_rest (sc_r s)) _ _ E Hrest) as [Hl Hadv].
    eexists _, _. split; [done|]. unfold scanned, pending in *. rewrite Hl. cbn [sc_data sc_r sc_token].
    destruct (ok_buf _ Hok) as [Hst Hb]. pose proof (ok_lines _ Hok) as Hls. unfold pending in Hls.
    rewrite Hl in Hls. apply Forall_cons in Hls as [_ Hls].
    split; [|split; [done|]].
    + split; cbn; try apply Hok; [|by unfold pending]. rewrite len_zdrop by lia. lia.
    + split; [done|]. split; [done|]. split; [done|]. rewrite !length_app.
      unfold zdrop. rewrite length_drop. unfold len in Hadv. lia.
  - destruct failed eqn:Efail.
    + rewrite orb_true_r in E. pose proof (scanEOL_none _ _ _ E) as Hd. cbn in Hd.
      unfold failed in Efail. apply bool_decide_eq_true in Efail as [e He].
      destruct (ok_err _ Hok e He) as [Hr ->].
      eexists _, _. split; [done|]. unfold scanned, pending. rewrite Hd, Hr. cbn [app text_lines eol_lines sc_data sc_r sc_err].
      destruct (ok_buf _ Hok) as [Hst Hb]. pose proof (len_nonneg (sc_data s)).
      split; [|split; [done|]]; [|by rewrite Hr]. split; cbn; try apply Hok; [unfold len; simpl; lia|]. unfold pending. cbn. by rewrite Hr.
    + assert (Es : exists adv, scanEOL (sc_data s) false = (adv, None)).
      { rewrite orb_false_r in E. destruct (len (sc_data s) >? 0) eqn:El; [by eauto|]. breflect.
        assert (sc_data s = []) as -> by (apply len_0_inv; pose proof (len_nonneg (sc_data s)); lia). by eexists. }
      destruct Es as [adv' Es]. destruct (sc_room_some _ _ Hok Es) as (start & buflen & -> & Hs0 & Hroom).
      cbn [sc_r sc_max sc_buflen sc_start sc_data].
      destruct (fill _ _ _) as [[p err] r] eqn:Ef.
      apply fill_some in Ef; [|lia|apply Hok].
      apply src_read_some in Ef as (Hr & Her & Hp & Hreads & Herr); [|lia|apply Hok].
      set (s1 := mkScanner _ _ _ _ _ _ _ _).
      assert (Hpend : pending s1 = pending s) by (unfold pending; cbn; rewrite Hr; by rewrite <- app_assoc).
      assert (Hok1 : sc_ok s1).
      { split; cbn; try apply Hok; [rewrite len_app; lia|done| |].
        2: { change (Forall (fun l => len l + 1 < sc_max s) (text_lines (pending s1))). rewrite Hpend. apply Hok. }
        intros e ->. by rewrite Her. }
      assert (Hnone : sc_err s = None) by (unfold failed in Efail; destruct (sc_err s); [done|done]).
      rewrite Hnone in Hf. apply (f_equal length) in Hr as Hlr. rewrite length_app in Hlr.
      destruct (IH s1 Hok1) as (b & s' & E' & Hsc).
      { cbn. destruct err as [e|]; [destruct Herr as [-> _]; simpl; lia|].
        destruct p; [done|]. simpl in Hlr. lia. }
      exists b, s'. split; [done|]. unfold scanned in *. rewrite Hpend in Hsc. cbn [sc_r s1] in Hsc.
      by rewrite Her in Hsc.
Qed.

Lemma Scan_lines s : sc_ok s -> exists b s', Scan s = Ret (b, s') /\ scanned s b s'.
Proof. intros Hok. apply scan_loop_lines; [done|]. destruct (sc_err s); lia. Qed.

(** ** The reader *)

(** The event after a line that is not empty. *)
Definition line_event (e : Event) (l : bytes) : Event :=
  if bool_decide (head l = Some 58) then e else read_field e l.

(** The event the lines complete and what is left, or the event under way at the end. *)
Fixpoint next_event (e : Event) (ls : list bytes) : Event * option (list bytes) :=
  match ls with
  | [] => (e, None)
  | [] :: ls => if bitset e =? 0 then next_event e ls else (e, Some ls)
  | l :: ls => next_event (line_event e l) ls
  end.

(** The events the lines of a stream make up; an event that the end of the body
    leaves incomplete counts if the body ended well ([fin]). *)
Fixpoint dispatch (fin : bool) (e : Event) (ls : list bytes) : list Event :=
  match ls with
  | [] => if fin && negb (bitset e =? 0) then [e] else []
  | [] :: ls => if bitset e =? 0 then dispatch fin e ls else e :: dispatch fin NewEvent ls
  | l :: ls => dispatch fin (line_event e l) ls
  end.

(** A byte order mark before the first line is not part of it. *)
Definition strip_bom (ls : list bytes) : list bytes :=
  match ls with
  | l :: ls => (if has_prefix BOM l then drop 3 l else l) :: ls
  | [] => []
  end.

Definition stream_events (fin : bool) (text : bytes) : list Event :=
  dispatch fin NewEvent (strip_bom (text_lines text)).

Lemma dispatch_next fin e ls :
  dispatch fin e ls = match next_event e ls with
                      | (e', Some ls') => e' :: dispatch fin NewEvent ls'
                      | (e', None) => if fin && negb (bitset e' =? 0) then [e'] else []
                      end.
Proof.
  revert e. induction ls as [|[|c l] ls IH]; intros e; cbn [dispatch next_event]; [done| |apply IH].
  destruct (bitset e =? 0); [apply IH|done].
Qed.

Lemma next_event_shorter e ls e' ls' : next_event e ls = (e', Some ls') -> (length ls' < length ls)%nat.
Proof.
  revert e. induction ls as [|[|c l] ls IH]; intros e; cbn [next_event length]; [done| |].
  - destruct (bitset e =? 0); [intros H; apply IH in H; lia|]. intros [= <- <-]. lia.
  - intros H. apply IH in H. lia.
Qed.

(** What a call of Read does, when [nx] is what the lines it finds hold. *)
Definition was_read (r : Reader) (nx : Event * option (list bytes)) (r' : Reader) (e' : Event) (err : option sseErr) : Prop :=
  sc_ok (r_s r') /\ src_err (sc_r (r_s r')) = src_err (sc_r (r_s r)) /\
  let last e := if IsSetID e then ID e else lastEventID r in
  match nx with
  | (e, Some ls) => err = None /\ e' = e /\ text_lines (pending (r_s r')) = ls /\
                    events r' = i32 (events r + 1) /\ lastEventID r' = last e
  | (e, None) =>
      pending (r_s r') = [] /\
      if decide (src_err (sc_r (r_s r)) = ErrEOF) then
        if bitset e =? 0 then err = Some ErrEOF /\ lastEventID r' = lastEventID r
        else err = None /\ e' = e /\ events r' = i32 (events r + 1) /\ lastEventID r' = last e
      else err = Some (src_err (sc_r (r_s r))) /\ lastEventID r' = lastEventID r
  end.

Definition bom_due (r : Reader) (i : Z) : bool := (i =? 0) && (events r =? 0).

Lemma read_loop_lines fuel r e i :
  sc_ok (r_s r) -> 0 <= i -> (length (text_lines (pending (r_s r))) < fuel)%nat ->
  let ls := text_lines (pending (r_s r)) in
  exists r' e' err, read_loop fuel r e i = Ret (r', e', err) /\
    was_read r (next_event e (if bom_due r i then strip_bom ls else ls)) r' e' err.
Proof.
  revert r e i. induction fuel as [|fuel IH]; intros r e i Hok Hi Hf ls; [lia|]. cbn [read_loop].
  destruct (Scan_lines _ Hok) as (b & s & -> & Hok' & Hse & Hsc). cbn [outcome_bind].
  fold ls in Hsc, Hf. destruct ls as [|l ls'].
  - destruct Hsc as (-> & Herr & Hp). unfold sc_Err. rewrite Herr.
    assert (Hnil : (if bom_due r i then strip_bom [] else []) = []) by (by destruct (bom_due r i)). rewrite Hnil.
    cbn [next_event]. destruct (src_err (sc_r (r_s r))) eqn:Ee; destruct (bitset e =? 0) eqn:Eb;
      eexists _, _, _; (split; [done|]); unfold was_read, onEventRead; cbn;
      rewrite ?Hse, ?Ee, ?Eb; repeat (split; [done|]); by try (rewrite decide_True by done; rewrite Eb || done).
  - destruct Hsc as (-> & Htok & Hls & _). rewrite Htok. cbn [events length] in *.
    set (l1 := if (i =? 0) && (events r =? 0) && has_prefix BOM l then zdrop 3 l else l).
    assert (Ebom : (if bom_due r i then strip_bom (l :: ls') else l :: ls') = l1 :: ls').
    { unfold bom_due, l1. destruct ((i =? 0) && (events r =? 0)); cbn [andb strip_bom]; [|done].
      by destruct (has_prefix BOM l). }
    rewrite Ebom. clearbody l1. clear Ebom.
    set (r1 := mkReader s (events r) (lastEventID r)).
    assert (Hnb : bom_due r1 (i + 1) = false) by (unfold bom_due; destruct (i + 1 =? 0) eqn:E; breflect; [lia|done]).
    assert (Hstep : forall e1, exists r' e' err, read_loop fuel r1 e1 (i + 1) = Ret (r', e', err) /\
              was_read r (next_event e1 ls') r' e' err).
    { intros e1. destruct (IH r1 e1 (i + 1)) as (r' & e' & err & E & Hw); [done|lia|cbn; rewrite Hls; lia|].
      exists r', e', err. split; [done|]. cbn in Hw. rewrite Hls, Hnb in Hw. unfold was_read in *. cbn in Hw.
      by rewrite Hse in Hw. }
    destruct l1 as [|c l1]; cbn [next_event].
    + rewrite len_nil, Z.eqb_refl. destruct (bitset e =? 0) eqn:Eb; cbn [negb]; [apply Hstep|].
      eexists _, _, _. split; [done|]. unfold was_read, onEventRead. cbn. by rewrite Hse.
    + assert (E0 : (len (c :: l1) =? 0) = false) by (apply Z.eqb_neq; glen). rewrite E0.
      unfold line_event. case_bool_decide; apply Hstep.
Qed.

Lemma Read_lines r e :
  sc_ok (r_s r) ->
  let ls := text_lines (pending (r_s r)) in
  exists r' e' err, Read r e = Ret (r', e', err) /\
    was_read r (next_event NewEvent (if events r =? 0 then strip_bom ls else ls)) r' e' err.
Proof.
  intros Hok ls. apply (read_loop_lines _ r NewEvent 0); [done|lia|].
  pose proof (length_text_lines (pending (r_s r))). lia.
Qed.

(** ** Reading a whole body *)

Section Feed.
Context {S0 : Type} (f : S0 -> Event -> S0 * option sseErr).

(** Hands events to the handler until it fails, with the last id seen. *)
Fixpoint feed (st : S0) (last : bytes) (es : list Event) : S0 * bytes * option sseErr :=
  match es with
  | [] => (st, last, None)
  | e :: es =>
      let last := if IsSetID e then ID e else last in
      let '(st, err) := f st e in
      match err with
      | Some err => (st, last, Some err)
      | None => feed st last es
      end
  end.

(** What ForEach answers: the handler's error, else the error that ended the body
    unless that is its end. *)
Definition end_of (err : sseErr) (handler : option sseErr) : option sseErr :=
  match handler with
  | Some e => Some e
  | None => if decide (err = ErrEOF) then None else Some err
  end.

Definition at_eof (err : sseErr) : bool := bool_decide (err = ErrEOF).

Lemma forEach_loop_lines fuel n r st e err :
  sc_ok (r_s r) -> src_err (sc_r (r_s r)) = err ->
  let ls := text_lines (pending (r_s r)) in
  0 <= events r -> events r + len ls < 2 ^ 31 -> (length ls < fuel)%nat ->
  exists r', forEach_loop f (fun _ => None) fuel n r st e =
    (let '(st', last, herr) := feed st (lastEventID r)
        (dispatch (at_eof err) NewEvent (if events r =? 0 then strip_bom ls else ls)) in
     Ret (r', st', end_of err herr)) /\
    lastEventID r' = (feed st (lastEventID r)
        (dispatch (at_eof err) NewEvent (if events r =? 0 then strip_bom ls else ls))).1.2.
Proof.
  revert n r st e. induction fuel as [|fuel IH]; intros n r st e Hok Herr ls Hev Hmax Hf; [lia|]. cbn [forEach_loop].
  destruct (Read_lines r e Hok) as (r1 & e1 & rerr & -> & Hw). cbn [outcome_bind].
  destruct Hw as (Hok1 & Herr1 & Hw). rewrite dispatch_next. fold ls in Hw. rewrite Herr in *.
  set (ls0 := if events r =? 0 then strip_bom ls else ls) in *.
  assert (Hlen : length ls0 = length ls) by (unfold ls0; case_if; [by destruct ls|done]).
  destruct (next_event NewEvent ls0) as [e0 [ls1|]] eqn:Enx.
  - destruct Hw as (-> & -> & Hls & Hev1 & Hlast). cbn [feed]. rewrite <- Hlast.
    destruct (f st e0) as [st1 [herr|]]; [by exists r1|].
    apply next_event_shorter in Enx. rewrite Hlen in Enx.
    assert (Hi : events r1 = events r + 1).
    { rewrite Hev1. apply i32_id. unfold len in *. width. }
    destruct (IH (S n) r1 st1 e0) as (r' & E & Hl'); rewrite ?Hls; try done.
    + lia.
    + unfold len in *. lia.
    + lia.
    + rewrite Hls in E, Hl'. destruct (events r1 =? 0) eqn:E0; breflect; [lia|]. by exists r'.
  - destruct Hw as (Hp & Hw). unfold at_eof, end_of. case_decide as Heof.
    + rewrite (bool_decide_true _ Heof). cbn [andb]. destruct (bitset e0 =? 0) eqn:Eb; cbn [negb].
      * destruct Hw as [-> Hlast]. cbn [feed]. by exists r1.
      * destruct Hw as (-> & -> & Hev1 & Hlast). cbn [feed]. rewrite <- Hlast.
        destruct (f st e0) as [st1 [herr|]]; [by exists r1|].
        assert (Hne : ls <> []).
        { intros E. rewrite E in Hlen. destruct ls0; [|done]. simpl in Enx. injection Enx as <-. done. }
        assert (Hi : events r1 = events r + 1).
        { rewrite Hev1. apply i32_id. unfold len in *. destruct ls; [done|]. simpl in Hmax. width. }
        destruct (IH (S n) r1 st1 e0) as (r' & E & Hl'); rewrite ?Hp; try done.
        -- lia.
        -- unfold len in *. destruct ls; [done|]. cbn in *. lia.
        -- destruct ls; [done|]. cbn in *. lia.
        -- rewrite Hp in E, Hl'. destruct (events r1 =? 0) eqn:E0; breflect; [lia|].
           cbn in E, Hl'. rewrite andb_false_r in E, Hl'. exists r'. rewrite E. cbn [feed end_of].
           by rewrite decide_True.
    + rewrite (bool_decide_false _ Heof). cbn [andb feed]. destruct Hw as [-> Hlast].
      exists r1. destruct err; done.
Qed.

Definition positive_reads (reads : list (nat * bool)) : Prop := Forall (fun r => (0 < r.1)%nat) reads.

(** Every line and its end fit a buffer of [max] octets. *)
Definition lines_fit (max : Z) (text : bytes) : Prop := Forall (fun l => len l + 1 < max) (text_lines text).

(** However the octets of a body are split among the reads, ForEach walks over its lines. *)
Lemma ForEach_reads (st : S0) ct text err reads max r r1 :
  NewReader ct (mkSource text err reads) = Ok r -> SetMaxBufferSize r max = Ret r1 ->
  positive_reads reads -> 0 < max <= 2 ^ 62 -> lines_fit max text -> len text < 2 ^ 31 ->
  let '(st', last, herr) := feed st [] (stream_events (at_eof err) text) in
  exists r2, ForEach f (fun _ => None) r1 st = Ret (r2, st', end_of err herr) /\ lastEventID r2 = last.
Proof.
  unfold NewReader. case_if; [done|]. intros [= <-]. unfold SetMaxBufferSize. cbn. intros [= <-] Hreads Hmax Hfit Hlen.
  set (r1 := mkReader _ _ _).
  assert (Hok : sc_ok (r_s r1)) by (split; cbn; done || (unfold len; simpl; lia)).
  destruct (forEach_loop_lines (S (S (length text))) 0 r1 st NewEvent err Hok eq_refl) as (r' & E & Hl).
  - done.
  - change (0 + len (text_lines text) < 2 ^ 31). pose proof (length_text_lines text). unfold len in *. lia.
  - change (length (text_lines text) < S (S (length text)))%nat. pose proof (length_text_lines text). lia.
  - cbn in E, Hl. unfold stream_events.
    destruct (feed st [] _) as [[st' last] herr] eqn:Ef. by exists r'.
Qed.
End Feed.
