(* ===== verification/SSERound.v ===== *)
(** * Server-sent events: from the writer to the reader

    What Write and WriteComment print, as lines; what the reader makes of those
    lines; and the round trip through a connection that keeps what it is given. *)

From S2P Require Import Prelude Bytes SSE SSESpec.

(** ** Lines that are printed *)

(** A text that ends each of these lines with LF. *)
Definition print_lines (ls : list bytes) : bytes := mjoin ((fun l => l ++ [LF]) <$> ls).

Lemma print_lines_app a b : print_lines (a ++ b) = print_lines a ++ print_lines b.
Proof. unfold print_lines. by rewrite fmap_app, join_app. Qed.

Lemma print_lines_cons l ls : print_lines (l :: ls) = l ++ LF :: print_lines ls.
Proof. unfold print_lines. cbn. by rewrite <- app_assoc. Qed.

Lemma text_lines_print ls t : Forall plain ls -> text_lines (print_lines ls ++ t) = ls ++ text_lines t.
Proof.
  induction 1 as [|l ls Hl _ IH]; [done|]. rewrite print_lines_cons, <- app_assoc. cbn [app].
  by rewrite text_lines_LF, IH.
Qed.

Lemma eol_lines_all_plain cur s : plain cur -> Forall plain (eol_lines cur s).
Proof.
  revert cur. induction s as [s IH] using (induction_ltof1 _ length). unfold ltof in IH.
  intros cur Hc. destruct s as [|c t]; cbn [eol_lines]; [destruct cur; repeat (done || constructor)|].
  destruct (c =? LF) eqn:E1; [|destruct (c =? CR) eqn:E2]; breflect.
  - constructor; [done|]. apply IH; [simpl; lia|apply plain_nil].
  - constructor; [done|]. destruct t as [|d t]; [constructor|].
    destruct (d =? LF); apply IH; (simpl; lia) || apply plain_nil.
  - apply IH; [simpl; lia|]. apply plain_app. split; [done|]. apply plain_cons. split; [done|]. split; [done|apply plain_nil].
Qed.

Lemma text_lines_plain s : Forall plain (text_lines s).
Proof. apply eol_lines_all_plain, plain_nil. Qed.

Lemma text_lines_nil s : text_lines s = [] -> s = [].
Proof.
  destruct (starts_all s) as [l Hl|l t Hl|l t Hl]; intros E.
  - destruct (decide (l = [])) as [->|Hn]; [done|]. by rewrite text_lines_end in E.
  - by rewrite text_lines_LF in E.
  - destruct t as [|d t]; [by rewrite text_lines_CR in E|].
    destruct (decide (d = LF)) as [->|Hd]; [by rewrite text_lines_CRLF in E|].
    rewrite text_lines_CR in E; [done|done|simpl; congruence].
Qed.

Lemma put_lines_text fuel prefix data : (length data <= fuel)%nat ->
  put_lines fuel prefix data = print_lines ((fun l => prefix ++ l) <$> text_lines data).
Proof.
  revert data. induction fuel as [|fuel IH]; intros data Hf; [by destruct data; [|simpl in Hf; lia]|].
  cbn [put_lines]. destruct (len data >? 0) eqn:E; breflect.
  - destruct (scanEOL data true) as [adv [tok|]] eqn:Es.
    + destruct (scanEOL_token _ _ [] _ _ Es) as [El Hadv]; [done|]. rewrite !app_nil_r in El. rewrite El, fmap_cons.
      rewrite print_lines_cons, <- app_assoc. cbn [default app]. rewrite IH; [done|].
      unfold zdrop, len in *. rewrite length_drop. lia.
    + apply scanEOL_none in Es. cbn in Es. subst. by cbn in E.
  - by assert (data = []) as -> by (apply len_0_inv; pose proof (len_nonneg data); lia).
Qed.

(** ** What Write prints *)

Definition event_lines (e : Event) : list bytes :=
  (if IsSetID e then [str "id: " ++ ID e] else []) ++
  (if IsSetType e then [str "event: " ++ Type_ e] else []) ++
  (if IsSetRetry e then [str "retry: " ++ itoa (Z.quot (Retry e) 1000000)] else []) ++
  (if IsSetData e then (fun l => str "data: " ++ l) <$> text_lines (Data e) else []).

Lemma hasCRLF_plain s : hasCRLF s = false <-> plain s.
Proof.
  unfold hasCRLF, plain. rewrite <- not_true_iff_false, existsb_exists. split.
  - intros H. split; intros Hin; apply H; eexists; (split; [rewrite <- in_rev; by apply list_elem_of_In|]); reflexivity.
  - intros [H1 H2] (c & Hin & Hc). rewrite <- in_rev in Hin. apply list_elem_of_In in Hin.
    apply orb_true_iff in Hc as [Hc|Hc]; breflect; by subst.
Qed.

Lemma event_text_lines e :
  plain (ID e) -> plain (Type_ e) -> event_text e = Ok (print_lines (event_lines e ++ [[]])).
Proof.
  intros H1 H2. apply hasCRLF_plain in H1 as E1. apply hasCRLF_plain in H2 as E2.
  unfold event_text, event_lines. rewrite E1, E2. rewrite !print_lines_app, put_lines_text by lia.
  destruct (IsSetID e), (IsSetType e); cbn [result_bind];
    try (destruct (bytes_eqb (Type_ e) (str "message")) eqn:Em; [apply bytes_eqb_eq in Em; rewrite Em|]);
    destruct (IsSetRetry e), (IsSetData e); cbn [result_bind];
    unfold print_lines; cbn [fmap list_fmap mjoin list_join app]; rewrite ?app_nil_r, <- ?app_assoc; reflexivity.
Qed.

(** An id or a type with an end of line is refused, and nothing is written. *)
Lemma event_text_refuses e :
  (IsSetID e = true -> ~ plain (ID e) -> event_text e = Err errIDContainsCRLR) /\
  (plain (ID e) -> IsSetType e = true -> ~ plain (Type_ e) -> event_text e = Err errTypeContainsCRLR).
Proof.
  unfold event_text. split.
  - intros -> H. rewrite <- hasCRLF_plain in H. apply not_false_iff_true in H. by rewrite H.
  - intros H1 -> H. apply hasCRLF_plain in H1. rewrite H1. destruct (bytes_eqb (Type_ e) (str "message")) eqn:E.
    { apply bytes_eqb_eq in E. destruct H. rewrite E. apply hasCRLF_plain. reflexivity. }
    rewrite <- hasCRLF_plain in H. apply not_false_iff_true in H. rewrite H. by destruct (IsSetID e).
Qed.

Lemma parse_digits_plain v b w : parse_digits v b = Some w -> plain b.
Proof.
  revert v. induction b as [|c b IH]; intros v; cbn [parse_digits]; [intros; apply plain_nil|].
  unfold between. destruct ((48 <=? c) && (c <=? 57)) eqn:E; [|done]. breflect. intros Hp.
  apply plain_cons. unfold CR, LF. split; [lia|]. split; [lia|]. by eapply IH.
Qed.

Lemma itoa_plain n : plain (itoa n).
Proof.
  destruct (decide (0 <= n)); [eapply parse_digits_plain, parse_digits_itoa; lia|].
  replace n with (- (- n)) by lia. rewrite itoa_opp by lia. apply plain_cons. split; [done|]. split; [done|].
  eapply parse_digits_plain, parse_digits_itoa. lia.
Qed.

Lemma event_lines_plain e : plain (ID e) -> plain (Type_ e) -> Forall plain (event_lines e).
Proof.
  intros H1 H2. assert (Hs : forall s l, hasCRLF (str s) = false -> plain l -> plain (str s ++ l)).
  { intros s l Hs Hl. apply plain_app. split; [by apply hasCRLF_plain|done]. }
  unfold event_lines. rewrite !Forall_app. split; [|split; [|split]].
  - destruct (IsSetID e); [apply Forall_singleton|constructor]. by apply Hs.
  - destruct (IsSetType e); [apply Forall_singleton|constructor]. by apply Hs.
  - destruct (IsSetRetry e); [apply Forall_singleton|constructor]. apply Hs; [done|apply itoa_plain].
  - destruct (IsSetData e); [|constructor]. apply Forall_fmap. eapply Forall_impl; [apply text_lines_plain|].
    intros l Hl. by apply Hs.
Qed.

(** ** What the reader makes of it *)

(** The data an event arrives with: its lines, each after the first that is not
    empty with a LF before it. *)
Definition add_data (d l : bytes) : bytes := if len d >? 0 then (d ++ [LF]) ++ l else d ++ l.

Definition read_data (d : bytes) : bytes := foldl add_data [] (text_lines d).

Definition bit (b : bool) (m : Z) : Z := if b then m else 0.

(** The event that arrives for [e], if any does: an id with a NUL is dropped, so are
    data without a line, and the retry time is in milliseconds. *)
Definition delivered (e : Event) : option Event :=
  let id := IsSetID e && negb (bool_decide (0 ∈ ID e)) in
  let data := IsSetData e && negb (len (Data e) =? 0) in
  let bits := bit id fieldID + bit (IsSetType e) fieldType + bit (IsSetRetry e) fieldRetry + bit data fieldData in
  if bits =? 0 then None
  else Some (mkEvent (if id then ID e else []) (if IsSetType e then Type_ e else [])
               (if data then read_data (Data e) else [])
               (if IsSetRetry e then Z.quot (Retry e) 1000000 * 1000000 else 0) bits).

Lemma read_field_at e f v : 58 ∉ f -> read_field e (f ++ 58 :: 32 :: v) = set_field e f v.
Proof.
  intros Hf. unfold read_field. rewrite IndexByte_at by done. pose proof (len_nonneg f). pose proof (len_nonneg v).
  destruct (len f <? 0) eqn:E1; breflect; [lia|]. rewrite ztake_app.
  assert (E2 : (len f + 1 <? len (f ++ 58 :: 32 :: v)) = true) by (apply Z.ltb_lt; glen). rewrite E2.
  assert (E3 : znth (f ++ 58 :: 32 :: v) (len f + 1) = Some 32).
  { unfold znth. rewrite decide_True by lia.
    replace (Z.to_nat (len f + 1)) with (length f + 1)%nat by (unfold len; lia). rewrite lookup_app_r by lia. by replace (length f + 1 - length f)%nat with 1%nat by lia. }
  rewrite E3, bool_decide_true by done. cbn [andb].
  replace (f ++ 58 :: 32 :: v) with ((f ++ [58; 32]) ++ v) by (by rewrite <- app_assoc).
  rewrite zdrop_app_at by glen. done.
Qed.

Lemma line_event_at e f v : f <> [] -> 58 ∉ f -> line_event e (f ++ 58 :: 32 :: v) = set_field e f v.
Proof.
  intros Hn Hf. unfold line_event. rewrite bool_decide_false; [by apply read_field_at|].
  destruct f as [|c f]; [done|]. apply not_elem_of_cons in Hf as [Hf _]. cbn. congruence.
Qed.

(** The name of a field is not empty and has no colon. *)
Ltac field_name := first [done | vm_compute; set_solver by lia].

(** The four kinds of line Write prints. *)
Lemma line_event_id e v : line_event e (str "id: " ++ v) = if bool_decide (0 ∈ v) then e else SetID e v.
Proof.
  change (str "id: " ++ v) with (str "id" ++ 58 :: 32 :: v). rewrite line_event_at by field_name.
  unfold set_field. cbn. by case_bool_decide.
Qed.

Lemma line_event_type e v : line_event e (str "event: " ++ v) = SetEvent e v.
Proof.
  change (str "event: " ++ v) with (str "event" ++ 58 :: 32 :: v). rewrite line_event_at by field_name.
  unfold set_field. cbn. unfold sseEventType. destruct (bytes_eqb v (str "message")) eqn:E; [|done].
  apply bytes_eqb_eq in E. by subst.
Qed.

Lemma line_event_retry e n : is_i64 n -> line_event e (str "retry: " ++ itoa n) = SetRetry e (i64 (n * 1000000)).
Proof.
  intros Hn. change (str "retry: " ++ itoa n) with (str "retry" ++ 58 :: 32 :: itoa n). rewrite line_event_at by field_name.
  unfold set_field. cbn [bytes_eqb]. rewrite ParseInt64_itoa by done. done.
Qed.

Lemma line_event_data e v :
  line_event e (str "data: " ++ v) =
  mkEvent (ID e) (Type_ e) (add_data (Data e) v) (Retry e) (Z.lor (bitset e) fieldData).
Proof.
  change (str "data: " ++ v) with (str "data" ++ 58 :: 32 :: v). rewrite line_event_at by field_name.
  unfold set_field. cbn. unfold add_data, AppendData. by destruct (len (Data e) >? 0).
Qed.

Lemma lor_idem_r a b : Z.lor (Z.lor a b) b = Z.lor a b.
Proof. by rewrite <- Z.lor_assoc, Z.lor_diag. Qed.

Lemma line_event_datas ls e : ls <> [] ->
  foldl line_event e ((fun l => str "data: " ++ l) <$> ls) =
  mkEvent (ID e) (Type_ e) (foldl add_data (Data e) ls) (Retry e) (Z.lor (bitset e) fieldData).
Proof.
  intros Hn. destruct ls as [|l ls]; [done|]. clear Hn. cbn [fmap list_fmap foldl]. rewrite line_event_data.
  revert e l. induction ls as [|l' ls IH]; intros e l; [done|]. cbn [fmap list_fmap foldl].
  rewrite line_event_data. cbn [ID Type_ Data Retry bitset]. rewrite lor_idem_r.
  specialize (IH (mkEvent (ID e) (Type_ e) (add_data (Data e) l) (Retry e) (bitset e)) l'). cbn in IH. exact IH.
Qed.

Lemma quot_ms n : is_i64 n -> is_i64 (Z.quot n 1000000) /\ i64 (Z.quot n 1000000 * 1000000) = Z.quot n 1000000 * 1000000.
Proof.
  intros Hn. pose proof (Z.quot_rem n 1000000 ltac:(lia)) as E. pose proof (Z.rem_bound_abs n 1000000 ltac:(lia)) as Hb.
  destruct (decide (0 <= n)) as [Hp|Hp].
  - pose proof (Z.rem_bound_pos n 1000000 Hp ltac:(lia)). pose proof (Z.quot_pos n 1000000 Hp ltac:(lia)).
    split; [width|]. apply i64_id. width.
  - pose proof (Z.rem_bound_pos_neg n 1000000 ltac:(lia) ltac:(lia)) as Hr.
    assert (Z.quot n 1000000 <= 0) by (rewrite <- (Z.opp_involutive n), Z.quot_opp_l by lia;
      pose proof (Z.quot_pos (- n) 1000000); lia).
    split; [width|]. apply i64_id. width.
Qed.

Lemma event_lines_read e :
  is_i64 (Retry e) -> foldl line_event NewEvent (event_lines e) = default NewEvent (delivered e).
Proof.
  intros Hr. destruct (quot_ms _ Hr) as [Hq Ei]. unfold event_lines, delivered. rewrite !foldl_app.
  assert (Hd : forall e0, Data e0 = [] ->
    foldl line_event e0 (if IsSetData e then (fun l => str "data: " ++ l) <$> text_lines (Data e) else []) =
    if IsSetData e && negb (len (Data e) =? 0)
    then mkEvent (ID e0) (Type_ e0) (read_data (Data e)) (Retry e0) (Z.lor (bitset e0) fieldData) else e0).
  { intros e0 H0. destruct (IsSetData e); [|done]. destruct (len (Data e) =? 0) eqn:E; breflect; cbn [andb negb].
    - by rewrite (len_0_inv _ E).
    - rewrite line_event_datas; [by rewrite H0|]. intros Hn. apply text_lines_nil in Hn. by rewrite Hn in E. }
  destruct (IsSetID e), (IsSetType e), (IsSetRetry e); cbn [foldl];
    rewrite ?line_event_id, ?line_event_type, ?line_event_retry, ?Ei by done;
    try case_bool_decide; rewrite Hd by done; destruct (IsSetData e && _); reflexivity.
Qed.

Lemma dispatch_app fin e ls1 ls2 : Forall (fun l => l <> []) ls1 ->
  dispatch fin e (ls1 ++ ls2) = dispatch fin (foldl line_event e ls1) ls2.
Proof.
  intros Hl. revert e. induction Hl as [|l ls1 Hl _ IH]; intros e; [done|]. cbn [app foldl].
  destruct l as [|c l]; [done|]. apply IH.
Qed.

(** No line Write or WriteComment prints is empty or starts like a byte order mark. *)
Definition told (l : bytes) : Prop := l <> [] /\ head l <> Some 239.

Lemma event_lines_told e : Forall told (event_lines e).
Proof.
  unfold event_lines. rewrite !Forall_app. split; [|split; [|split]].
  - destruct (IsSetID e); [by apply Forall_singleton|constructor].
  - destruct (IsSetType e); [by apply Forall_singleton|constructor].
  - destruct (IsSetRetry e); [by apply Forall_singleton|constructor].
  - destruct (IsSetData e); [|constructor]. apply Forall_fmap, Forall_true. done.
Qed.

Lemma delivered_bits e e' : delivered e = Some e' -> (bitset e' =? 0) = false.
Proof. unfold delivered. case_if; [done|]. by intros [= <-]. Qed.

Lemma dispatch_event fin e ls : is_i64 (Retry e) ->
  dispatch fin NewEvent (event_lines e ++ [] :: ls) =
  match delivered e with Some e' => [e'] | None => [] end ++ dispatch fin NewEvent ls.
Proof.
  intros Hr. rewrite dispatch_app by (eapply Forall_impl; [apply event_lines_told|by intros l []]).
  rewrite event_lines_read by done. cbn [dispatch].
  destruct (delivered e) as [e'|] eqn:E; cbn [default id]; [|done]. by rewrite (delivered_bits _ _ E).
Qed.

Lemma dispatch_comment fin e ls1 ls : dispatch fin e (((fun l => 58 :: l) <$> ls1) ++ ls) = dispatch fin e ls.
Proof. induction ls1 as [|l ls1 IH]; [done|]. cbn [fmap list_fmap app dispatch]. exact IH. Qed.

(** ** The data that survive *)

Lemma last_tail (l : bytes) c t : t <> [] -> last (l ++ c :: t) = last t.
Proof.
  intros Ht. rewrite last_app. destruct t as [|d t]; [done|]. rewrite last_cons_cons.
  destruct (last (d :: t)) eqn:E; [done|]. by apply last_None in E.
Qed.

Lemma add_data_rest d s : d <> [] -> CR ∉ s -> s <> [] -> last s <> Some LF ->
  foldl add_data d (text_lines s) = d ++ LF :: s.
Proof.
  revert d. induction s as [s IH] using (induction_ltof1 _ length). unfold ltof in IH. intros d Hd Hc Hn Hlast.
  assert (Hd' : (len d >? 0) = true) by (destruct d; done).
  destruct (starts_all s) as [l Hl|l t Hl|l t Hl].
  - rewrite text_lines_end by done. cbn. unfold add_data. rewrite Hd'. by rewrite <- app_assoc.
  - rewrite text_lines_LF by done. cbn [foldl]. destruct (decide (t = [])) as [->|Ht].
    { destruct Hlast. by rewrite last_app. }
    rewrite IH.
    + unfold add_data. rewrite Hd'. by rewrite <- !app_assoc.
    + rewrite length_app. simpl. lia.
    + unfold add_data. rewrite Hd'. by destruct d.
    + set_solver.
    + done.
    + by rewrite last_tail in Hlast.
  - set_solver.
Qed.

(** Data without CR, and without a LF at either end, arrive as they are. *)
Lemma read_data_same d : d <> [] -> CR ∉ d -> head d <> Some LF -> last d <> Some LF -> read_data d = d.
Proof.
  intros Hn Hc Hh Hlast. unfold read_data. destruct (starts_all d) as [l Hl|l t Hl|l t Hl].
  - by rewrite text_lines_end.
  - rewrite text_lines_LF by done. cbn [foldl]. change (add_data [] l) with l.
    destruct l as [|c l]; [done|]. destruct (decide (t = [])) as [->|Ht].
    { destruct Hlast. by rewrite last_app. }
    apply add_data_rest; [done|set_solver|done|].
    by rewrite last_tail in Hlast.
  - set_solver.
Qed.

(** Events that arrive as they were sent. *)
Definition canonical (e : Event) : Prop :=
  0 ∉ ID e /\ Z.rem (Retry e) 1000000 = 0 /\
  (IsSetData e = true -> Data e <> [] /\ CR ∉ Data e /\ head (Data e) <> Some LF /\ last (Data e) <> Some LF) /\
  (IsSetID e || IsSetType e || IsSetRetry e || IsSetData e = true).

(** The bits of the fields that are set. *)
Definition set_bits (e : Event) : Z :=
  bit (IsSetID e) fieldID + bit (IsSetType e) fieldType + bit (IsSetRetry e) fieldRetry + bit (IsSetData e) fieldData.

Lemma unset_empty e :
  (IsSetID e = false -> ID e = []) /\ (IsSetType e = false -> Type_ e = []) /\
  (IsSetRetry e = false -> Retry e = 0) /\ (IsSetData e = false -> Data e = []).
Proof.
  assert (Hlen : forall l : bytes, (len l >? 0) = false -> l = []).
  { intros l Hl. breflect. apply len_0_inv. pose proof (len_nonneg l). lia. }
  unfold IsSetID, IsSetType, IsSetRetry, IsSetData. repeat split; intros Hs; apply orb_false_iff in Hs as [_ Hs]; auto.
  by breflect.
Qed.

Lemma delivered_canonical e :
  canonical e -> delivered e = Some (mkEvent (ID e) (Type_ e) (Data e) (Retry e) (set_bits e)).
Proof.
  intros (Hid & Hre & Hda & Hset). unfold delivered, set_bits. rewrite bool_decide_false by done. cbn [negb].
  destruct (unset_empty e) as (U1 & U2 & U3 & U4). rewrite andb_true_r.
  assert (Er : Z.quot (Retry e) 1000000 * 1000000 = Retry e).
  { pose proof (Z.quot_rem (Retry e) 1000000 ltac:(lia)). lia. }
  rewrite Er. destruct (IsSetData e) eqn:Ed.
  - destruct (Hda eq_refl) as (Hn & Hc & Hh & Hl). rewrite read_data_same by done.
    assert (E : (len (Data e) =? 0) = false) by (apply Z.eqb_neq; intros Hz; by apply len_0_inv in Hz). rewrite E.
    destruct (IsSetID e), (IsSetType e), (IsSetRetry e); cbn; rewrite ?U1, ?U2, ?U3 by done; done.
  - destruct (IsSetID e), (IsSetType e), (IsSetRetry e); cbn; rewrite ?U1, ?U2, ?U3, ?U4 by done; done.
Qed.

(** ** The round trip *)

(** What a connection that works promises: it takes everything, in order. *)
Class ExtWriterLaws (W : Type) `{ExtWriter W} := {
  ew_out : W -> bytes;
  ew_Write_out : forall w b, exists w', ew_Write w b = (w', None) /\ ew_out w' = ew_out w ++ b;
  ew_Flush_out : forall w, exists w', ew_Flush w = (w', None) /\ ew_out w' = ew_out w
}.

Inductive call : Type :=
| CallWrite (e : Event)
| CallComment (s : bytes).

Definition call_events (cs : list call) : list Event :=
  omap (fun c => match c with CallWrite e => delivered e | CallComment _ => None end) cs.

(** Calls that succeed; an empty comment is left out, see [sse_losses]. *)
Definition sendable (c : call) : Prop :=
  match c with
  | CallWrite e => plain (ID e) /\ plain (Type_ e) /\ is_i64 (Retry e)
  | CallComment s => s <> []
  end.

Definition call_lines (c : call) : list bytes :=
  match c with
  | CallWrite e => event_lines e ++ [[]]
  | CallComment s => (fun l => 58 :: l) <$> text_lines s
  end.

Definition sent_lines (cs : list call) : list bytes := mjoin (call_lines <$> cs).

Lemma sent_lines_cons c cs : sent_lines (c :: cs) = call_lines c ++ sent_lines cs.
Proof. done. Qed.

Section Calls.
Context {W : Type} `{ExtWriterLaws W}.

Definition do_call (w : W) (c : call) : W * option sseErr :=
  match c with
  | CallWrite e => Write w e
  | CallComment s => WriteComment w s
  end.

(** The calls one after the other, until one fails. *)
Fixpoint do_calls (w : W) (cs : list call) : W * option sseErr :=
  match cs with
  | [] => (w, None)
  | c :: cs => let '(w, err) := do_call w c in
               match err with Some e => (w, Some e) | None => do_calls w cs end
  end.

Lemma write_flush_out (w : W) b : exists w', write_flush w b = (w', None) /\ ew_out w' = ew_out w ++ b.
Proof.
  unfold write_flush. destruct (ew_Write_out w b) as (w1 & -> & E1). destruct (ew_Flush_out w1) as (w2 & -> & E2).
  exists w2. by rewrite E2, E1.
Qed.

Lemma comment_text_lines s : s <> [] -> comment_text s = print_lines (call_lines (CallComment s)).
Proof.
  intros Hs. unfold comment_text. rewrite put_lines_text by lia. cbn [call_lines].
  destruct (len _ =? 0) eqn:E; [|done]. breflect. exfalso. apply len_0_inv in E.
  destruct (text_lines s) as [|l ls] eqn:El; [by apply text_lines_nil in El|]. done.
Qed.

Lemma do_call_out (w : W) c : sendable c ->
  exists w', do_call w c = (w', None) /\ ew_out w' = ew_out w ++ print_lines (call_lines c).
Proof.
  destruct c as [e|s]; cbn [sendable do_call].
  - intros (H1 & H2 & _). unfold Write. rewrite event_text_lines by done. apply write_flush_out.
  - intros Hs. unfold WriteComment. rewrite comment_text_lines by done. apply write_flush_out.
Qed.

Lemma do_calls_out (w : W) cs : Forall sendable cs ->
  exists w', do_calls w cs = (w', None) /\ ew_out w' = ew_out w ++ print_lines (sent_lines cs).
Proof.
  intros Hc. revert w. induction Hc as [|c cs Hc _ IH]; intros w; cbn [do_calls].
  { exists w. split; [done|]. by rewrite app_nil_r. }
  destruct (do_call_out w c Hc) as (w1 & -> & E1). destruct (IH w1) as (w2 & -> & E2). exists w2. split; [done|].
  rewrite E2, E1, sent_lines_cons. by rewrite print_lines_app, <- app_assoc.
Qed.
End Calls.

Lemma sent_lines_plain cs : Forall sendable cs -> Forall plain (sent_lines cs).
Proof.
  intros Hc. unfold sent_lines. apply Forall_join, Forall_fmap. eapply Forall_impl; [done|].
  intros [e|s]; cbn.
  - intros (H1 & H2 & _). apply Forall_app. split; [by apply event_lines_plain|].
    apply Forall_singleton, plain_nil.
  - intros _. apply Forall_fmap. eapply Forall_impl; [apply text_lines_plain|]. intros l Hl. by apply plain_cons.
Qed.

Lemma dispatch_sent cs : Forall sendable cs -> dispatch true NewEvent (sent_lines cs) = call_events cs.
Proof.
  induction 1 as [|[e|s] cs Hc _ IH]; [done| |].
  - destruct Hc as (_ & _ & Hr). rewrite sent_lines_cons. cbn [call_lines].
    rewrite <- app_assoc. cbn [app]. rewrite dispatch_event, IH by done.
    unfold call_events. cbn. by destruct (delivered e).
  - rewrite sent_lines_cons. cbn [call_lines]. by rewrite dispatch_comment.
Qed.

Lemma strip_bom_told ls : (forall l, head ls = Some l -> head l <> Some 239) -> strip_bom ls = ls.
Proof.
  destruct ls as [|l ls]; [done|]. intros Hl. specialize (Hl l eq_refl). cbn [strip_bom].
  destruct (has_prefix BOM l) eqn:E; [|done]. unfold has_prefix in E. apply bytes_eqb_eq in E. by destruct l as [|c l]; [|injection E as -> _].
Qed.

Lemma sent_lines_head cs l : Forall sendable cs -> head (sent_lines cs) = Some l -> head l <> Some 239.
Proof.
  destruct 1 as [|[e|s] cs Hc _]; [done| |]; rewrite sent_lines_cons; cbn [call_lines].
  - pose proof (event_lines_told e) as Ht. destruct (event_lines e) as [|l0 ls0]; cbn; intros [= <-]; [done|].
    apply Forall_cons in Ht as [[_ Ht] _]. done.
  - cbn in Hc. destruct (text_lines s) as [|l0 ls0] eqn:E; [by apply text_lines_nil in E|]. cbn. by intros [= <-].
Qed.

Lemma stream_events_sent cs : Forall sendable cs ->
  stream_events true (print_lines (sent_lines cs)) = call_events cs.
Proof.
  intros Hc. unfold stream_events. rewrite <- (app_nil_r (print_lines _)), text_lines_print by (by apply sent_lines_plain).
  change (text_lines []) with (@nil bytes). rewrite app_nil_r, strip_bom_told; [by apply dispatch_sent|].
  intros l. by apply sent_lines_head.
Qed.

(** The handler that keeps every event. *)
Definition collect (st : list Event) (e : Event) : list Event * option sseErr := (st ++ [e], None).

Lemma feed_collect st last es : exists last', feed collect st last es = (st ++ es, last', None).
Proof.
  revert st last. induction es as [|e es IH]; intros st last; cbn [feed]; [rewrite app_nil_r; by eexists|].
  destruct (IH (st ++ [e]) (if IsSetID e then ID e else last)) as [last' E]. rewrite <- app_assoc in E. by exists last'.
Qed.

(** C13: what is written with Write and WriteComment is read back.  On a connection
    that takes everything every call succeeds, and ForEach on the octets sent,
    however they are split among reads, gives for every event written what is left
    of it ([delivered]), in order, and nothing for a comment.  An event whose data
    have no CR and no LF at either end, whose id has no NUL and whose retry time is
    in milliseconds arrives as it was, with the fields set that were. *)
Theorem sse_roundtrip {W} `{ExtWriterLaws W} (w : W) cs ct max reads r r1 :
  Forall sendable cs -> ew_out w = [] ->
  exists w', do_calls w cs = (w', None) /\
    (NewReader ct (mkSource (ew_out w') ErrEOF reads) = Ok r -> SetMaxBufferSize r max = Ret r1 ->
     positive_reads reads -> 0 < max <= 2 ^ 62 -> lines_fit max (ew_out w') -> len (ew_out w') < 2 ^ 31 ->
     exists r2, ForEach collect (fun _ => None) r1 [] = Ret (r2, call_events cs, None)) /\
    (forall e, canonical e -> delivered e = Some (mkEvent (ID e) (Type_ e) (Data e) (Retry e) (set_bits e))).
Proof.
  intros Hc Hw. destruct (do_calls_out w cs Hc) as (w' & E & Ho). rewrite Hw in Ho. cbn [app] in Ho.
  exists w'. split; [done|]. split; [|apply delivered_canonical]. intros Hr Hr1 Hp Hm Hf Hl.
  pose proof (ForEach_reads collect [] ct _ _ _ _ _ _ Hr Hr1 Hp Hm Hf Hl) as HF.
  change (at_eof ErrEOF) with true in HF. rewrite Ho, stream_events_sent in HF by done.
  destruct (feed_collect [] [] (call_events cs)) as [last Ef]. rewrite Ef in HF.
  destruct HF as (r2 & HF & _). by exists r2.
Qed.

(** ** On samples *)

(** A connection in memory. *)
#[export] Instance mem_writer : ExtWriter bytes := {|
  ew_Write w b := (w ++ b, None);
  ew_Flush w := (w, None);
  ew_Finalize w := (w, None)
|}.

#[export] Instance mem_writer_laws : ExtWriterLaws bytes.
Proof. by refine {| ew_out w := w |}; intros; eexists. Defined.

Definition sse_type : bytes := str "text/event-stream; charset=utf-8".

Definition sample_event : Event := mkEvent (str "7") (str "tick") (str "one" ++ LF :: str "two") 3000000 0.

Definition sample_calls : list call :=
  [CallComment (str "keep-alive"); CallWrite sample_event; CallWrite (mkEvent [] [] (str "x") 0 0)].

Definition sample_reads : list (nat * bool) := [(1%nat, false); (3%nat, true); (2%nat, false)].

Definition sample_reader (text : bytes) : Reader :=
  mkReader (mkScanner (mkSource text ErrEOF sample_reads) 64 0 0 [] None [] false) 0 [].

Lemma sse_roundtrip_witness : exists w', do_calls (W := bytes) [] sample_calls = (w', None) /\
  exists r2, ForEach collect (fun _ => None) (sample_reader w') [] =
    Ret (r2, [mkEvent (str "7") (str "tick") (str "one" ++ LF :: str "two") 3000000 15;
              mkEvent [] [] (str "x") 0 4], None).
Proof.
  set (text := (do_calls (W := bytes) [] sample_calls).1).
  destruct (sse_roundtrip (W := bytes) [] sample_calls sse_type 64 sample_reads
              (mkReader (NewScanner (mkSource text ErrEOF sample_reads)) 0 []) (sample_reader text)) as (w' & E & HF & _).
  - repeat constructor; cbn; try done; try (apply hasCRLF_plain; reflexivity); width.
  - done.
  - exists w'. split; [done|].
    assert (Ew : w' = text) by (unfold text; by rewrite E). rewrite Ew in HF |- *. apply HF.
    + vm_compute. reflexivity.
    + reflexivity.
    + repeat constructor.
    + lia.
    + vm_compute. repeat constructor.
    + vm_compute. reflexivity.
Defined.

(** What does not survive: an empty comment has no end of line, so the line that
    follows is a comment too; LF at the ends of data, and CR in them; data that are
    set but empty. *)
Definition read_back (cs : list call) : option (list Event) :=
  match ForEach collect (fun _ => None) (sample_reader (do_calls (W := bytes) [] cs).1) [] with
  | Ret (_, es, _) => Some es
  | _ => None
  end.

Theorem sse_losses :
  read_back [CallComment []; CallWrite (mkEvent (str "1") [] (str "x") 0 0)] = Some [mkEvent [] [] (str "x") 0 4] /\
  read_back [CallWrite (mkEvent [] [] (LF :: str "x" ++ [LF]) 0 0)] = Some [mkEvent [] [] (str "x") 0 4] /\
  read_back [CallWrite (mkEvent [] [] (str "a" ++ CR :: str "b") 0 0)] = Some [mkEvent [] [] (str "a" ++ LF :: str "b") 0 4] /\
  read_back [CallWrite (SetData NewEvent [])] = Some [].
Proof. repeat split; vm_compute; reflexivity. Qed.
