(* ===== verification/SSEGrammar.v ===== *)
(** * Server-sent events: the grammar

    Events as the standard has them: a stream is cut into blocks at the empty lines, a
    line of a block is a field with a name and a value, and the event of a block is what
    the values of its fields say.  The reader is compared with that. *)

From S2P Require Import Prelude Bytes ArgsSpec SSE SSESpec SSERound.

(** ** The standard *)

(** The blocks of a list of lines that an empty line ends, and the lines behind the last
    of them; [cur] is the block under way. *)
Fixpoint blocks (cur ls : list bytes) : list (list bytes) * list bytes :=
  match ls with
  | [] => ([], cur)
  | [] :: ls => let '(bs, rest) := blocks [] ls in (cur :: bs, rest)
  | l :: ls => blocks (cur ++ [l]) ls
  end.

(** Behind a colon one space is not part of the value. *)
Definition unpad (v : bytes) : bytes := match v with 32 :: v => v | _ => v end.

(** The name of a field is what stands before the first colon, its value what stands
    behind it.  The name of a comment is empty. *)
Fixpoint field_of (l : bytes) : bytes * bytes :=
  match l with
  | [] => ([], [])
  | c :: t => if c =? 58 then ([], unpad t) else let '(n, v) := field_of t in (c :: n, v)
  end.

(** The values of the fields called [name]. *)
Definition values (name : string) (b : list bytes) : list bytes :=
  omap (fun l => let '(n, v) := field_of l in if bytes_eqb n (str name) then Some v else None) b.

(** The values an id and a retry may have: no NUL, and digits only. *)
Definition id_values (b : list bytes) : list bytes := filter (fun v => 0 ∉ v) (values "id" b).
Definition retry_values (b : list bytes) : list bytes := filter (fun v => v <> [] /\ forallb digitb v = true) (values "retry" b).

Definition flag {A} (f : Z) (vs : list A) : Z := match vs with [] => 0 | _ => f end.

(** The event of a block: the last id, the last name, the data lines with LF between
    them, the last time to wait, in nanoseconds; none if no field says anything. *)
Definition block_event (b : list bytes) : option Event :=
  let set := flag fieldID (id_values b) + flag fieldType (values "event" b) + flag fieldData (values "data" b) + flag fieldRetry (retry_values b) in
  if set =? 0 then None
  else Some (mkEvent (default [] (last (id_values b))) (default [] (last (values "event" b))) (join_with LF (values "data" b))
               (1000000 * default 0 (decimal 0 <$> last (retry_values b))) set).

(** The blocks of a body; a byte order mark in front is not part of it. *)
Definition stream_blocks (text : bytes) : list (list bytes) * list bytes := blocks [] (strip_bom (text_lines text)).

(** The events of a body.  Those behind the last empty line count if the body ended well
    ([fin]), which the standard does not do. *)
Definition standard_events (fin : bool) (text : bytes) : list Event :=
  let '(bs, rest) := stream_blocks text in omap block_event bs ++ (if fin then option_list (block_event rest) else []).

(** Where the reader follows the standard: data do not start with an empty line unless it
    is the only one, and times to wait have no sign and fit. *)
Record regular (b : list bytes) : Prop := {
  rg_data : head (values "data" b) = Some [] -> values "data" b = [[]];
  rg_sign : Forall (fun v => head v <> Some 43 /\ head v <> Some 45) (values "retry" b);
  rg_size : Forall (fun v => decimal 0 v * 1000000 < 2 ^ 63) (retry_values b)
}.

(** ** A field *)

Lemma field_of_none l : 58 ∉ l -> field_of l = (l, []).
Proof.
  induction l as [|c l IH]; intros H; [done|]. apply not_elem_of_cons in H as [Hc H]. cbn [field_of].
  rewrite (proj2 (Z.eqb_neq c 58)) by done. by rewrite IH.
Qed.

Lemma field_of_colon a t : 58 ∉ a -> field_of (a ++ 58 :: t) = (a, unpad t).
Proof.
  induction a as [|c a IH]; intros H; [done|]. apply not_elem_of_cons in H as [Hc H]. cbn [field_of app].
  rewrite (proj2 (Z.eqb_neq c 58)) by done. by rewrite IH.
Qed.

(** The code cuts a line the same way. *)
Lemma read_field_of e l : line_event e l = set_field e (field_of l).1 (field_of l).2.
Proof.
  assert (read_field e l = set_field e (field_of l).1 (field_of l).2) as Hr.
  { unfold read_field. destruct (decide (58 ∈ l)) as [Hin|Hn].
    - apply list_elem_of_split_l in Hin as (a & t & -> & Ha). rewrite field_of_colon, IndexByte_at by done.
      pose proof (len_nonneg a). pose proof (len_nonneg t). rewrite (proj2 (Z.ltb_ge _ _)) by lia. cbn [fst snd]. f_equal; [apply ztake_app|].
      replace (a ++ 58 :: t) with ((a ++ [58]) ++ t) by (by rewrite <- app_assoc). assert (len (a ++ [58]) = len a + 1) as E by (by rewrite len_app).
      rewrite <- E, (len_app (a ++ [58]) t). destruct t as [|c t]; [rewrite len_nil, (proj2 (Z.ltb_ge _ _)) by lia; apply zdrop_app|].
      rewrite len_cons, (proj2 (Z.ltb_lt _ _)) by (pose proof (len_nonneg t); lia). cbn [andb].
      rewrite <- (Z.add_0_r (len (a ++ [58]))), znth_app_r by lia. change (znth (c :: t) 0) with (Some c). case_bool_decide as Hc.
      + injection Hc as ->. replace (len a + 2) with (len ((a ++ [58]) ++ [32])) by glen.
        replace ((a ++ [58]) ++ 32 :: t) with (((a ++ [58]) ++ [32]) ++ t) by (by rewrite <- app_assoc). apply zdrop_app.
      + rewrite Z.add_0_r, zdrop_app. unfold unpad. destruct c as [|c|c]; try done. do 6 (destruct c as [c|c|]; try done).
    - rewrite field_of_none by done. by rewrite (proj2 (IndexByte_none l 58)). }
  unfold line_event. case_bool_decide as Hh; [|done]. destruct l as [|c l]; [done|]. injection Hh as ->. done.
Qed.

(** ** The fields of a block *)

Lemma values_snoc name b l :
  values name (b ++ [l]) = values name b ++ (if bytes_eqb (field_of l).1 (str name) then [(field_of l).2] else []).
Proof. unfold values. rewrite omap_app. f_equal. cbn. destruct (field_of l) as [n v]. cbn. by destruct (bytes_eqb n (str name)). Qed.

Lemma flag_snoc {A} f (vs : list A) v : flag f (vs ++ [v]) = f.
Proof. by destruct vs. Qed.

(** What the code keeps of the data lines and of the times to wait. *)
Definition kept_data (vs : list bytes) : bytes := foldl (fun d v => (if len d >? 0 then d ++ [LF] else d) ++ v) [] vs.

Lemma kept_data_snoc vs v : kept_data (vs ++ [v]) = (if len (kept_data vs) >? 0 then kept_data vs ++ [LF] else kept_data vs) ++ v.
Proof. unfold kept_data. by rewrite foldl_snoc. Qed.

Definition kept_retry (v : bytes) : option Z := (fun r => i64 (r * 1000000)) <$> ParseInt64 v.
Definition kept_retries (b : list bytes) : list Z := omap kept_retry (values "retry" b).

Definition bits {A B C D} (ids : list A) (types : list B) (datas : list C) (retries : list D) : Z :=
  flag fieldID ids + flag fieldType types + flag fieldData datas + flag fieldRetry retries.

Lemma bits_lor {A B C D} (ids : list A) (types : list B) (datas : list C) (retries : list D) a b c d :
  Z.lor (bits ids types datas retries) fieldID = bits (ids ++ [a]) types datas retries /\
  Z.lor (bits ids types datas retries) fieldType = bits ids (types ++ [b]) datas retries /\
  Z.lor (bits ids types datas retries) fieldData = bits ids types (datas ++ [c]) retries /\
  Z.lor (bits ids types datas retries) fieldRetry = bits ids types datas (retries ++ [d]).
Proof. unfold bits. rewrite !flag_snoc. by destruct ids, types, datas, retries. Qed.

(** The event under way behind the lines [b]. *)
Definition walk (b : list bytes) : Event := foldl line_event NewEvent b.

Lemma walk_form b :
  walk b = mkEvent (default [] (last (id_values b))) (default [] (last (values "event" b))) (kept_data (values "data" b))
             (default 0 (last (kept_retries b))) (bits (id_values b) (values "event" b) (values "data" b) (kept_retries b)).
Proof.
  induction b as [|l b IH] using rev_ind; [done|]. unfold walk in *. rewrite foldl_snoc, IH, read_field_of. unfold id_values, kept_retries.
  rewrite !values_snoc. destruct (field_of l) as [n v]. cbn [fst snd]. unfold set_field.
  pose proof (bits_lor (id_values b) (values "event" b) (values "data" b) (kept_retries b) v v v) as Hb. unfold id_values, kept_retries in Hb.
  destruct (bytes_eqb n (str "event")) eqn:E1; [apply bytes_eqb_eq in E1 as ->|].
  { change (bytes_eqb (str "event") (str "id")) with false. change (bytes_eqb (str "event") (str "data")) with false. change (bytes_eqb (str "event") (str "retry")) with false.
    cbv iota. rewrite !app_nil_r, last_snoc. unfold SetEvent. cbn. f_equal; [|apply (Hb 0)]. unfold sseEventType. case_if; [|done]. by apply bytes_eqb_eq in Heqb0. }
  destruct (bytes_eqb n (str "data")) eqn:E2; [apply bytes_eqb_eq in E2 as ->|].
  { change (bytes_eqb (str "data") (str "id")) with false. change (bytes_eqb (str "data") (str "retry")) with false.
    cbv iota. rewrite !app_nil_r. rewrite kept_data_snoc. unfold AppendData. cbn.
    case_if; cbn; f_equal; apply (Hb 0). }
  destruct (bytes_eqb n (str "id")) eqn:E3; [apply bytes_eqb_eq in E3 as ->|].
  { change (bytes_eqb (str "id") (str "retry")) with false. cbv iota. rewrite !app_nil_r, filter_app. cbn. case_bool_decide as H0; cbn.
    - rewrite decide_False by tauto. by rewrite app_nil_r.
    - rewrite decide_True by done. rewrite last_snoc. unfold SetID. cbn. f_equal. apply (Hb 0). }
  rewrite !app_nil_r. destruct (bytes_eqb n (str "retry")) eqn:E4; [|by rewrite app_nil_r].
  rewrite omap_app. cbn. assert (kept_retry v = (fun r => i64 (r * 1000000)) <$> ParseInt64 v) as -> by done.
  destruct (ParseInt64 v) as [r|]; cbn; [|by rewrite app_nil_r].
  rewrite last_snoc. unfold SetRetry. cbn. f_equal. apply Hb.
Qed.

Lemma walk_nothing b : bitset (walk b) = 0 -> walk b = NewEvent.
Proof.
  rewrite walk_form. cbn [bitset]. unfold bits. destruct (id_values b), (values "event" b), (values "data" b), (kept_retries b); try done.
Qed.

(** ** Where the code follows the standard *)

Lemma kept_data_more d vs : d <> [] -> foldl (fun d v => (if len d >? 0 then d ++ [LF] else d) ++ v) d vs = d ++ concat ((fun v => LF :: v) <$> vs).
Proof.
  revert d. induction vs as [|v vs IH]; intros d Hd; cbn [foldl fmap list_fmap concat]; [by rewrite app_nil_r|].
  assert ((len d >? 0) = true) as -> by (destruct d; [done|]; apply Z.gtb_lt; glen). rewrite IH; [|by destruct d]. by rewrite <- !app_assoc.
Qed.

Lemma join_with_cons c v vs : join_with c (v :: vs) = v ++ concat ((fun v => c :: v) <$> vs).
Proof. revert v. induction vs as [|w vs IH]; intros v; [by rewrite app_nil_r|]. change (join_with c (v :: w :: vs)) with (v ++ c :: join_with c (w :: vs)). by rewrite IH. Qed.

Lemma kept_data_join vs : (head vs = Some [] -> vs = [[]]) -> kept_data vs = join_with LF vs.
Proof.
  intros H. destruct vs as [|v vs]; [done|]. destruct v as [|c v]; [by rewrite H|]. unfold kept_data. cbn [foldl]. rewrite kept_data_more by done.
  by rewrite join_with_cons.
Qed.

Lemma parse_digits_decimal b : forall v, parse_digits v b = if forallb digitb b then Some (decimal v b) else None.
Proof. induction b as [|c b IH]; intros v; cbn; [done|]. unfold digitb at 1. destruct (between 48 c 57); [apply IH|done]. Qed.

Lemma kept_retry_standard v : head v <> Some 43 /\ head v <> Some 45 -> (v <> [] /\ forallb digitb v = true -> decimal 0 v * 1000000 < 2 ^ 63) ->
  kept_retry v = if decide (v <> [] /\ forallb digitb v = true) then Some (1000000 * decimal 0 v) else None.
Proof.
  intros [H1 H2] Hs. unfold kept_retry, ParseInt64. destruct v as [|c v]; [by rewrite decide_False by tauto|]. cbn in H1, H2.
  rewrite (proj2 (Z.eqb_neq c 45)), (proj2 (Z.eqb_neq c 43)) by congruence. rewrite parse_digits_decimal.
  destruct (forallb digitb (c :: v)) eqn:Ed; [|rewrite decide_False by naive_solver; done]. assert (decimal 0 (c :: v) * 1000000 < 2 ^ 63) as Hlt by (by apply Hs).
  pose proof (decimal_grows 0 (c :: v) ltac:(lia) Ed). rewrite decide_True by done.
  set (n := decimal 0 (c :: v)) in *. clearbody n. rewrite (proj2 (Z.ltb_lt _ _)) by lia. cbn. f_equal. rewrite i64_id by width. lia.
Qed.

Lemma kept_retries_standard b : regular b -> kept_retries b = (fun v => 1000000 * decimal 0 v) <$> retry_values b.
Proof.
  intros [_ H1 H2]. unfold kept_retries, retry_values in *. induction (values "retry" b) as [|v vs IH]; [done|].
  apply Forall_cons in H1 as [Hv H1]. cbn. rewrite kept_retry_standard; [|done|].
  - rewrite filter_cons in *. case_decide; [|by apply IH]. apply Forall_cons in H2 as [_ H2]. cbn. f_equal. by apply IH.
  - intros Hd. rewrite filter_cons, decide_True in H2 by done. by apply Forall_cons in H2 as [H2 _].
Qed.

(** The event of a block, as the code finds it. *)
Definition found (b : list bytes) : option Event := if bitset (walk b) =? 0 then None else Some (walk b).

Lemma found_standard b : regular b -> found b = block_event b.
Proof.
  intros Hr. unfold found. rewrite walk_form, kept_retries_standard by done. cbn [bitset]. rewrite kept_data_join by apply Hr. unfold block_event, bits.
  assert (forall g : bytes -> Z, flag fieldRetry (g <$> retry_values b) = flag fieldRetry (retry_values b)) as -> by (intros g; by destruct (retry_values b)).
  case_if; [done|]. repeat f_equal. rewrite fmap_last. by destruct (last (retry_values b)).
Qed.

Lemma dispatch_blocks fin ls : forall cur,
  dispatch fin (walk cur) ls = let '(bs, rest) := blocks cur ls in omap found bs ++ (if fin then option_list (found rest) else []).
Proof.
  induction ls as [|[|c l] ls IH]; intros cur; cbn [dispatch blocks].
  - unfold found. destruct fin; [|done]. cbn. destruct (bitset (walk cur) =? 0); done.
  - specialize (IH []). destruct (blocks [] ls) as [bs rest]. cbn. unfold found at 1. case_if; breflect.
    + by rewrite (walk_nothing cur).
    + cbn. f_equal. exact IH.
  - rewrite <- IH. unfold walk at 2. by rewrite foldl_snoc.
Qed.

Lemma stream_standard fin text : Forall regular (stream_blocks text).1 -> regular (stream_blocks text).2 -> stream_events fin text = standard_events fin text.
Proof.
  unfold stream_events, standard_events, stream_blocks. change NewEvent with (walk []). rewrite dispatch_blocks. destruct (blocks [] _) as [bs rest]. cbn [fst snd].
  intros Hb Hr. rewrite found_standard by done. f_equal. induction Hb as [|b bs H _ IH]; [done|]. cbn. rewrite found_standard by done. destruct (block_event b); by rewrite IH.
Qed.


(** A body whose lines end in CR LF, CR and LF, with a byte order mark, a comment, fields
    without a value, without a space and with two, a time to wait, an id with a NUL, a field
    that is none, a block that says nothing, and an event that the end leaves incomplete. *)
Definition sample_body : bytes :=
  BOM ++ str "data: a" ++ [CR; LF] ++ str "id: 7" ++ [LF] ++ str "data" ++ [LF] ++ str "data:  b" ++ [LF] ++ str "id: 8" ++ 0 :: LF :: str "retry: 250" ++ [CR] ++
  str "retry: soon" ++ [LF; LF] ++ str ": c" ++ [CR; LF; CR; LF] ++ str "event" ++ [LF] ++ str "Data: x" ++ [LF] ++ str "data:b".

Definition regularb (b : list bytes) : bool :=
  bool_decide (head (values "data" b) = Some [] -> values "data" b = [[]]) &&
  bool_decide (Forall (fun v => head v <> Some 43 /\ head v <> Some 45) (values "retry" b)) &&
  bool_decide (Forall (fun v => decimal 0 v * 1000000 < 2 ^ 63) (retry_values b)).

Lemma regularb_regular b : regularb b = true -> regular b.
Proof. unfold regularb. intros [[H1 H2]%andb_true_iff H3]%andb_true_iff. apply bool_decide_eq_true in H1, H2, H3. by split. Qed.

Lemma regularb_all bs : forallb regularb bs = true -> Forall regular bs.
Proof. rewrite forallb_forall. intros H. apply Forall_forall. intros b Hb. by apply regularb_regular, H, list_elem_of_In. Qed.


(** Where the reader leaves the standard: an empty data line in front, and a time to wait
    with a sign. *)
Lemma reader_leaves_standard :
  let body := str "data" ++ [LF] ++ str "data: x" ++ [LF] ++ str "retry: -1" ++ [LF; LF] in
  stream_events true body = [mkEvent [] [] (str "x") (-1000000) 12] /\ standard_events true body = [mkEvent [] [] (LF :: str "x") 0 4].
Proof. split; vm_compute; reflexivity. Qed.
