(* ===== verification/Uri.v ===== *)
(** * URIs

    [web/protocol/uri.go] with [uri_unix.go]: parsing, normalizing of paths, printing
    and updating.  The buffers behind FullURI and RequestURI are not modelled: both
    are computed anew by every call.  The Windows variant of the path functions is
    not modelled. *)

From S2P Require Import Prelude Bytes BytesConv Args.

(** ** What is used of package bytes *)

(** bytes.LastIndex. *)
Fixpoint LastIndex (b sub : bytes) : Z :=
  match b with
  | [] => if has_prefix sub b then 0 else -1
  | _ :: t => let i := LastIndex t sub in
              if i =? -1 then if has_prefix sub b then 0 else -1 else i + 1
  end.

(** bytes.LastIndexByte. *)
Definition LastIndexByte (b : bytes) (c : Z) : Z := LastIndex b [c].

Definition Contains (b sub : bytes) : bool := negb (Index b sub =? -1).

(** ** Data *)

Record URI := mkURI {
  pathOriginal : bytes;
  scheme : bytes;
  path : bytes;
  queryString : bytes;
  hash : bytes;
  host : bytes;
  queryArgs : kvs;
  parsedQueryArgs : bool;
  DisablePathNormalizing : bool;
  username : bytes;
  password : bytes
}.

(** URI.Reset; the entries of the arguments stay in their array. *)
Definition Reset (u : URI) : URI :=
  mkURI [] [] [] [] [] [] (Args.Reset (queryArgs u)) false false [] [].

Definition newURI : URI := mkURI [] [] [] [] [] [] (mkKVs [] 0) false false [] [].

(** ** Paths *)

Definition addLeadingSlash (dst src : bytes) : bytes :=
  if (len src =? 0) || negb (bool_decide (head src = Some 47)) then dst ++ [47] else dst.

(** The loops that edit a path in place.  Each round takes an octet away, so the
    length of the path is enough fuel; [front] is what the loop has passed. *)
Fixpoint slashes_loop (fuel : nat) (front b : bytes) : bytes :=
  match fuel with
  | O => front ++ b
  | S fuel =>
      let n := Index b (str "//") in
      if n <? 0 then front ++ b
      else slashes_loop fuel (front ++ ztake n b) (zdrop 1 (zdrop n b))
  end.

Fixpoint dots_loop (fuel : nat) (b : bytes) : bytes :=
  match fuel with
  | O => b
  | S fuel =>
      let n := Index b (str "/./") in
      if n <? 0 then b
      else dots_loop fuel (ztake n b ++ zdrop (n + 2) b)
  end.

Fixpoint parents_loop (fuel : nat) (b : bytes) : bytes :=
  match fuel with
  | O => b
  | S fuel =>
      let n := Index b (str "/../") in
      if n <? 0 then b
      else
        let nn := LastIndexByte (ztake n b) 47 in
        let nn := if nn <? 0 then 0 else nn in
        parents_loop fuel (ztake nn b ++ zdrop (n + 3) b)
  end.

Definition normalizePath (src : bytes) : bytes :=
  let dst := addLeadingSlash [] src in
  let dst := decodeArgAppendNoPlus dst src in
  let dst := slashes_loop (length dst) [] dst in
  let b := dots_loop (length dst) dst in
  let b := parents_loop (length b) b in
  let n := LastIndex b (str "/..") in
  if (n >=? 0) && (n + 3 =? len b) then
    let nn := LastIndexByte (ztake n b) 47 in
    if nn <? 0 then str "/" else ztake (nn + 1) b
  else b.

(** ** Parsing *)

Definition stringContainsCTLByte (s : bytes) : bool := existsb (fun b => (b <? 32) || (b =? 127)) s.

Definition checkSchemeWhenCharIsColon (i : Z) (rawURL : bytes) : option bytes * bytes :=
  if i =? 0 then (None, []) else (Some (ztake i rawURL), zdrop (i + 1) rawURL).

(** The loop of getScheme over what is left of [rawURL] from [i] on. *)
Fixpoint getScheme_loop (rawURL rest : bytes) (i : Z) : option bytes * bytes :=
  match rest with
  | [] => (None, rawURL)
  | c :: rest =>
      if between 97 c 122 || between 65 c 90 then getScheme_loop rawURL rest (i + 1)
      else if between 48 c 57 || (c =? 43) || (c =? 45) || (c =? 46) then
        if i =? 0 then (None, rawURL) else getScheme_loop rawURL rest (i + 1)
      else if c =? 58 then checkSchemeWhenCharIsColon i rawURL
      else (None, rawURL)
  end.

Definition getScheme (rawURL : bytes) : option bytes * bytes := getScheme_loop rawURL rawURL 0.

(** [path[2:]] panics on a shorter path. *)
Definition splitHostURI (host uri : bytes) : outcome (bytes * bytes * bytes) :=
  let '(scheme, path) := getScheme uri in
  match scheme with
  | None => Ret (str "http", host, uri)
  | Some scheme =>
      if len path <? 2 then Panic
      else
        let uri := zdrop 2 path in
        let n := IndexByte uri 47 in
        if n <? 0 then
          let n := IndexByte uri 63 in
          if n >=? 0 then Ret (scheme, ztake n uri, zdrop n uri)
          else Ret (scheme, uri, str "/")
        else Ret (scheme, ztake n uri, zdrop n uri)
  end.

(** User and password of a host, and the host without them. *)
Definition split_auth (host : bytes) : bytes * bytes * bytes :=
  let n := Index host (str "@") in
  if n >=? 0 then
    let auth := ztake n host in
    let host := zdrop (n + 1) host in
    let n := Index auth (str ":") in
    if n >=? 0 then (ztake n auth, zdrop (n + 1) auth, host) else (auth, [], host)
  else ([], [], host).

(** Path, query string and hash of the part behind the host. *)
Definition split_target (b : bytes) : bytes * bytes * bytes :=
  let queryIndex := IndexByte b 63 in
  let fragmentIndex := IndexByte b 35 in
  let queryIndex := if (fragmentIndex >=? 0) && (queryIndex >? fragmentIndex) then -1 else queryIndex in
  if (queryIndex <? 0) && (fragmentIndex <? 0) then (b, [], [])
  else if queryIndex >=? 0 then
    if fragmentIndex <? 0 then (ztake queryIndex b, zdrop (queryIndex + 1) b, [])
    else (ztake queryIndex b, zdrop (queryIndex + 1) (ztake fragmentIndex b), zdrop (fragmentIndex + 1) b)
  else (ztake fragmentIndex b, [], zdrop (fragmentIndex + 1) b).

Definition parse (u : URI) (host uri : bytes) (isTLS : bool) : outcome URI :=
  let u := Reset u in
  if stringContainsCTLByte uri then Ret u
  else
    run (sch, host, uri) <-
      (if (len host =? 0) || Contains uri (str "://") then
         run (sch, host, uri) <- splitHostURI host uri;
         Ret (LowercaseBytes sch, host, uri)
       else Ret ([], host, uri));
    let sch := if isTLS then str "https" else sch in
    let '(user, pass, host) := split_auth host in
    let '(p, q, h) := split_target uri in
    Ret (mkURI p sch (normalizePath p) q h (LowercaseBytes host) (queryArgs u) false false user pass).

Definition Parse (u : URI) (host uri : bytes) : outcome URI := parse u host uri false.

(** ** Reading and setting parts *)

Definition Path (u : URI) : bytes := if len (path u) =? 0 then str "/" else path u.
Definition Scheme (u : URI) : bytes := if len (scheme u) =? 0 then str "http" else scheme u.

Definition SetHash (u : URI) (h : bytes) : URI :=
  mkURI (pathOriginal u) (scheme u) (path u) (queryString u) h (host u) (queryArgs u) (parsedQueryArgs u)
    (DisablePathNormalizing u) (username u) (password u).
Definition SetQueryString (u : URI) (q : bytes) : URI :=
  mkURI (pathOriginal u) (scheme u) (path u) q (hash u) (host u) (queryArgs u) false
    (DisablePathNormalizing u) (username u) (password u).
Definition SetPath (u : URI) (p : bytes) : URI :=
  mkURI p (scheme u) (normalizePath p) (queryString u) (hash u) (host u) (queryArgs u) (parsedQueryArgs u)
    (DisablePathNormalizing u) (username u) (password u).
Definition with_scheme (u : URI) (s : bytes) : URI :=
  mkURI (pathOriginal u) s (path u) (queryString u) (hash u) (host u) (queryArgs u) (parsedQueryArgs u)
    (DisablePathNormalizing u) (username u) (password u).
Definition SetScheme (u : URI) (s : bytes) : URI := with_scheme u (LowercaseBytes s).
Definition SetHost (u : URI) (h : bytes) : URI :=
  mkURI (pathOriginal u) (scheme u) (path u) (queryString u) (hash u) (LowercaseBytes h) (queryArgs u) (parsedQueryArgs u)
    (DisablePathNormalizing u) (username u) (password u).
Definition SetUsername (u : URI) (x : bytes) : URI :=
  mkURI (pathOriginal u) (scheme u) (path u) (queryString u) (hash u) (host u) (queryArgs u) (parsedQueryArgs u)
    (DisablePathNormalizing u) x (password u).
Definition SetPassword (u : URI) (x : bytes) : URI :=
  mkURI (pathOriginal u) (scheme u) (path u) (queryString u) (hash u) (host u) (queryArgs u) (parsedQueryArgs u)
    (DisablePathNormalizing u) (username u) x.

Definition with_args (u : URI) (a : kvs) (parsed : bool) : URI :=
  mkURI (pathOriginal u) (scheme u) (path u) (queryString u) (hash u) (host u) a parsed
    (DisablePathNormalizing u) (username u) (password u).

Definition LastPathSegment (u : URI) : bytes :=
  let p := Path u in
  let n := LastIndexByte p 47 in
  if n <? 0 then p else zdrop (n + 1) p.

Section Spare.
Context (spare : nat -> nat).

(** parseQueryArgs, and so QueryArgs. *)
Definition parseQueryArgs (u : URI) : outcome URI :=
  if parsedQueryArgs u then Ret u
  else run a <- ParseBytes spare (queryArgs u) (queryString u);
       Ret (with_args u a true).
End Spare.

Definition uri_CopyTo (u dst : URI) : URI :=
  mkURI (pathOriginal u) (scheme u) (path u) (queryString u) (hash u) (host u)
    (Args.CopyTo (queryArgs u) (queryArgs (Reset dst))) (parsedQueryArgs u) (DisablePathNormalizing u) (username u) (password u).

(** ** Printing *)

Definition RequestURI (u : URI) : bytes :=
  let dst := if DisablePathNormalizing u then pathOriginal u else AppendQuotedPath [] (Path u) in
  if (0 <? Len (queryArgs u))%nat then AppendBytes (queryArgs u) (dst ++ [63])
  else if len (queryString u) >? 0 then dst ++ [63] ++ queryString u
  else dst.

Definition appendSchemeHost (u : URI) (dst : bytes) : bytes := dst ++ Scheme u ++ str "://" ++ host u.

Definition FullURI (u : URI) : bytes :=
  let dst := appendSchemeHost u [] ++ RequestURI u in
  if len (hash u) >? 0 then dst ++ [35] ++ hash u else dst.

(** ** Updating *)

Definition UpdateBytes (u : URI) (new : bytes) : outcome URI :=
  if len new =? 0 then Ret u
  else
    let n := Index new (str "//") in
    if n >=? 0 then
      let schemeOriginal := scheme u in
      let new := if n =? 0 then scheme u ++ str ":" ++ new else new in
      run u <- Parse u [] new;
      Ret (if (len schemeOriginal >? 0) && (len (scheme u) =? 0) then with_scheme u schemeOriginal else u)
    else if bool_decide (head new = Some 47) then Parse u [] (appendSchemeHost u [] ++ new)
    else if bool_decide (head new = Some 63) then Ret (SetQueryString u (zdrop 1 new))
    else if bool_decide (head new = Some 35) then Ret (SetHash u (zdrop 1 new))
    else
      let p := Path u in
      let n := LastIndexByte p 47 in
      if n <? 0 then Panic
      else Parse u [] (AppendQuotedPath (appendSchemeHost u []) (ztake (n + 1) p) ++ new).
