(* ===== verification/UriPath.v ===== *)
(** * URIs: paths

    The editing loops of normalizePath refined to one pass over the segments of the
    path, and what a normalized path can be. *)

From S2P Require Import Prelude Bytes BytesConv Args ArgsSpec Uri.

(** ** Paths as segments *)

Definition slash_free (s : bytes) : Prop := 47 ∉ s.

(** Each segment with the slash before it. *)
Definition path_of (segs : list bytes) : bytes := segs ≫= fun s => 47 :: s.

Lemma path_of_app a b : path_of (a ++ b) = path_of a ++ path_of b.
Proof. apply bind_app. Qed.

Lemma path_of_cons s segs : path_of (s :: segs) = 47 :: s ++ path_of segs.
Proof. done. Qed.

Lemma path_of_split cur s : path_of (split_on 47 cur s) = 47 :: cur ++ s.
Proof.
  revert cur. induction s as [|x t IH]; intros cur; cbn [split_on].
  { cbn. by rewrite app_nil_r. }
  destruct (x =? 47) eqn:E; breflect.
  - subst. rewrite path_of_cons, IH. done.
  - rewrite IH, <- app_assoc. done.
Qed.

Lemma split_on_free c cur s : c ∉ cur -> Forall (fun l => c ∉ l) (split_on c cur s).
Proof.
  revert cur. induction s as [|x t IH]; intros cur Hc; cbn [split_on]; [by repeat constructor|].
  destruct (x =? c) eqn:E; breflect.
  - constructor; [done|]. apply IH. apply not_elem_of_nil.
  - apply IH. set_solver.
Qed.

Lemma split_on_ne c cur s : split_on c cur s <> [].
Proof. revert cur. induction s as [|x t IH]; intros cur; cbn [split_on]; [done|]. by case_if. Qed.

Lemma length_path_of segs : (length segs <= length (path_of segs))%nat.
Proof. induction segs as [|s segs IH]; [done|]. rewrite path_of_cons. cbn. rewrite length_app. lia. Qed.

(** ** Searching for a segment *)

Lemma has_prefix_app p b : has_prefix p b = true <-> exists t, b = p ++ t.
Proof.
  unfold has_prefix. rewrite bytes_eqb_eq. split.
  - intros E. exists (drop (length p) b). by rewrite <- E at 1; rewrite take_drop.
  - intros [t ->]. by rewrite take_app_length.
Qed.

Lemma Index_ge b sub : -1 <= Index b sub.
Proof. induction b as [|c t IH]; cbn [Index]; repeat case_if; lia. Qed.

(** Octets that cannot start the pattern are passed over. *)
Lemma Index_skip a t sub :
  47 ∉ a -> Index (a ++ t) (47 :: sub) = let i := Index t (47 :: sub) in if i =? -1 then -1 else i + len a.
Proof.
  induction a as [|c a IH]; intros Hn; cbn [app].
  { cbv zeta. destruct (_ =? -1) eqn:E; breflect; [done|]. rewrite len_nil. lia. }
  apply not_elem_of_cons in Hn as [Hc Hn]. cbn [Index]. rewrite IH by done.
  destruct (has_prefix (47 :: sub) (c :: a ++ t)) eqn:E.
  { apply has_prefix_app in E as [t' E]. by injection E. }
  cbv zeta. rewrite len_cons. pose proof (len_nonneg a). pose proof (Index_ge t (47 :: sub)).
  destruct (Index t (47 :: sub) =? -1) eqn:E2; breflect; [done|].
  destruct (_ =? -1) eqn:E3; breflect; lia.
Qed.

Lemma seg_pattern x s t : slash_free x -> slash_free s ->
  has_prefix (47 :: x ++ [47]) (47 :: s ++ 47 :: t) = bytes_eqb s x.
Proof.
  intros Hx Hs. destruct (bytes_eqb s x) eqn:E.
  - apply bytes_eqb_eq in E as ->. apply has_prefix_app. exists t. cbn. by rewrite <- app_assoc.
  - apply bytes_eqb_neq in E. apply not_true_iff_false. intros Hp. apply has_prefix_app in Hp as [t' Hp].
    cbn in Hp. injection Hp as Hp. rewrite <- app_assoc in Hp. cbn in Hp. apply (f_equal (cut 47)) in Hp.
    rewrite !cut_at in Hp by done. congruence.
Qed.

(** A segment is found where it first is, unless it is the last. *)
Lemma Index_found x pre post :
  slash_free x -> Forall slash_free pre -> x ∉ pre -> post <> [] ->
  Index (path_of (pre ++ x :: post)) (47 :: x ++ [47]) = len (path_of pre).
Proof.
  intros Hx Hpre. induction Hpre as [|s pre Hs _ IH]; intros Hn Hpost; cbn [app].
  - rewrite path_of_cons. destruct post as [|p post]; [done|]. rewrite path_of_cons.
    cbn [Index]. rewrite seg_pattern by done. by rewrite (proj2 (bytes_eqb_eq x x) eq_refl).
  - apply not_elem_of_cons in Hn as [Hne Hn]. rewrite path_of_cons. cbn [Index].
    specialize (IH Hn Hpost). pose proof (len_nonneg (path_of pre)).
    assert (Hp : has_prefix (47 :: x ++ [47]) (47 :: s ++ path_of (pre ++ x :: post)) = false).
    { destruct (pre ++ x :: post) as [|q l] eqn:El; [by destruct pre|]. rewrite path_of_cons, seg_pattern by done.
      apply bytes_eqb_neq. congruence. }
    rewrite Hp, Index_skip, IH by done. cbv zeta. rewrite path_of_cons, len_cons, len_app.
    pose proof (len_nonneg s). destruct (len (path_of pre) =? -1) eqn:E1; breflect; [lia|].
    destruct (_ =? -1) eqn:E2; breflect; lia.
Qed.

Lemma Index_absent x init l :
  slash_free x -> Forall slash_free init -> slash_free l -> x ∉ init ->
  Index (path_of (init ++ [l])) (47 :: x ++ [47]) = -1.
Proof.
  intros Hx Hi Hl. induction Hi as [|s init Hs _ IH]; intros Hn; cbn [app].
  - rewrite path_of_cons. change (path_of []) with (@nil Z). rewrite app_nil_r. cbn [Index].
    destruct (has_prefix (47 :: x ++ [47]) (47 :: l)) eqn:E.
    { exfalso. apply has_prefix_app in E as [t E]. injection E as ->. apply Hl. set_solver. }
    rewrite <- (app_nil_r l), Index_skip by done. done.
  - apply not_elem_of_cons in Hn as [Hne Hn]. rewrite path_of_cons. cbn [Index].
    assert (Hp : has_prefix (47 :: x ++ [47]) (47 :: s ++ path_of (init ++ [l])) = false).
    { destruct (init ++ [l]) as [|q r] eqn:El; [by destruct init|]. rewrite path_of_cons, seg_pattern by done.
      apply bytes_eqb_neq. congruence. }
    by rewrite Hp, Index_skip, IH.
Qed.

(** The first of the segments equal to [x]. *)
Lemma first_seg (x : bytes) init : x ∈ init -> exists pre post, init = pre ++ x :: post /\ x ∉ pre.
Proof. apply list_elem_of_split_l. Qed.

(** ** Searching from the end *)

Lemma LastIndex_ge b sub : -1 <= LastIndex b sub.
Proof. induction b as [|c t IH]; cbn [LastIndex]; repeat case_if; breflect; lia. Qed.

Lemma LastIndex_absent b sub c : head sub = Some c -> c ∉ b -> LastIndex b sub = -1.
Proof.
  intros Hs. induction b as [|x t IH]; intros Hn; cbn [LastIndex].
  - by destruct sub.
  - apply not_elem_of_cons in Hn as [Hx Hn]. rewrite IH by done. cbn [Z.eqb Pos.eqb].
    destruct (has_prefix sub (x :: t)) eqn:E; [|done]. apply has_prefix_app in E as [t' E].
    destruct sub as [|y sub]; [done|]. injection E as -> _. injection Hs as ->. done.
Qed.

Lemma LastIndex_app a b sub : LastIndex b sub <> -1 -> LastIndex (a ++ b) sub = len a + LastIndex b sub.
Proof.
  intros Hb. pose proof (LastIndex_ge b sub). induction a as [|c a IH]; cbn [app LastIndex]; [rewrite len_nil; lia|].
  rewrite IH, len_cons. pose proof (len_nonneg a). destruct (_ =? -1) eqn:E; breflect; lia.
Qed.

(** The last slash is that of the last segment. *)
Lemma LastIndexByte_path pre l : slash_free l ->
  LastIndexByte (path_of (pre ++ [l])) 47 = len (path_of pre).
Proof.
  intros Hl. unfold LastIndexByte. rewrite path_of_app. cbn. rewrite app_nil_r.
  assert (E : LastIndex (47 :: l) [47] = 0).
  { cbn [LastIndex]. rewrite (LastIndex_absent l [47] 47) by done. done. }
  rewrite LastIndex_app by lia. lia.
Qed.

Lemma LastIndex_short b sub : (length b < length sub)%nat -> LastIndex b sub = -1.
Proof.
  assert (Hp : forall b, (length b < length sub)%nat -> has_prefix sub b = false).
  { intros b0 Hb. apply not_true_iff_false. intros H. apply has_prefix_app in H as [t ->]. rewrite length_app in Hb. lia. }
  induction b as [|c t IH]; intros Hl; cbn [LastIndex]; rewrite Hp by done; [done|]. cbn in Hl. by rewrite IH by lia.
Qed.

Lemma LastIndex_prefix b sub : LastIndex b sub <> -1 -> exists t r, b = t ++ sub ++ r /\ len t = LastIndex b sub.
Proof.
  induction b as [|c b IH]; cbn [LastIndex].
  - case_if; [|done]. intros _. apply has_prefix_app in Heqb as [r E]. by exists [], r.
  - destruct (LastIndex b sub =? -1) eqn:E; breflect.
    + destruct (has_prefix sub (c :: b)) eqn:Ep; [|done]. intros _. apply has_prefix_app in Ep as [r Ep]. by exists [], r.
    + intros _. destruct (IH E) as (t & r & -> & Ht). exists (c :: t), r. split; [done|]. rewrite len_cons. lia.
Qed.

(** The test for a suffix. *)
Lemma LastIndex_suffix b sub : sub <> [] ->
  (LastIndex b sub >=? 0) && (LastIndex b sub + len sub =? len b) = true <-> exists t, b = t ++ sub.
Proof.
  intros Hs. split.
  - intros H. breflect. destruct (LastIndex_prefix b sub) as (t & r & E & Ht); [lia|]. exists t.
    rewrite E, !len_app in H0. pose proof (len_nonneg r). rewrite <- E in H0.
    assert (r = []) as -> by (apply len_0_inv; lia). by rewrite app_nil_r in E.
  - intros [t ->]. assert (E : LastIndex sub sub = 0).
    { destruct sub as [|c sub]; [done|]. cbn [LastIndex]. rewrite LastIndex_short by (cbn; lia). cbn [Z.eqb Pos.eqb].
      rewrite (proj2 (has_prefix_app (c :: sub) (c :: sub))); [done|]. exists []. by rewrite app_nil_r. }
    rewrite LastIndex_app by lia. rewrite E, len_app. pose proof (len_nonneg t).
    apply andb_true_iff. split; [apply Z.geb_le|apply Z.eqb_eq]; lia.
Qed.

Lemma path_of_last segs l : path_of (segs ++ [l]) = path_of segs ++ 47 :: l.
Proof. rewrite path_of_app. unfold path_of at 2. cbn [mbind list_bind]. by rewrite app_nil_r. Qed.

(** A path ends in ["/.."] when its last segment is [".."]. *)
Lemma path_of_suffix segs l s : slash_free l -> slash_free s ->
  (exists t, path_of (segs ++ [l]) = t ++ 47 :: s) <-> l = s.
Proof.
  intros Hl Hs. rewrite path_of_last. split; [|intros ->; by eexists]. intros [t E].
  apply (f_equal (fun b => (cut 47 (reverse b)).1)) in E. rewrite !reverse_app, !reverse_cons, <- !app_assoc in E. cbn [app] in E.
  rewrite !cut_at in E by (unfold slash_free in *; by rewrite elem_of_reverse). cbn in E.
  by apply (inj reverse) in E.
Qed.

Lemma ends_in_parent segs l : slash_free l ->
  let b := path_of (segs ++ [l]) in
  let n := LastIndex b (str "/..") in
  (n >=? 0) && (n + 3 =? len b) = bytes_eqb l (str "..").
Proof.
  intros Hl b n. apply eq_true_iff_eq. rewrite bytes_eqb_eq. change 3 with (len (str "/..")).
  unfold n. rewrite LastIndex_suffix by done. apply (path_of_suffix segs l (str "..")); [done|]. vm_compute. set_solver by lia.
Qed.

Lemma parent_index segs : LastIndex (path_of (segs ++ [str ".."])) (str "/..") = len (path_of segs).
Proof.
  rewrite path_of_last. change (47 :: str "..") with (str "/.."). rewrite LastIndex_app by done.
  change (LastIndex (str "/..") (str "/..")) with 0. lia.
Qed.

(** ** The loops on segments *)

(** The segments other than [x]. *)
Definition without_seg (x : bytes) (l : list bytes) : list bytes := List.filter (fun s => negb (bytes_eqb s x)) l.

(** A step up leaves the last segment, another segment is entered. *)
Definition enter (st : list bytes) (s : bytes) : list bytes :=
  if bytes_eqb s (str "..") then removelast st else st ++ [s].

Lemma without_seg_none x l : x ∉ l -> without_seg x l = l.
Proof.
  induction l as [|s l IH]; intros Hn; [done|]. apply not_elem_of_cons in Hn as [Hs Hn]. cbn.
  rewrite (proj2 (bytes_eqb_neq s x)) by congruence. cbn. f_equal. by apply IH.
Qed.

Lemma without_seg_first x pre post : x ∉ pre -> without_seg x (pre ++ x :: post) = pre ++ without_seg x post.
Proof.
  intros Hn. unfold without_seg. rewrite List.filter_app. fold (without_seg x pre) (without_seg x (x :: post)).
  rewrite without_seg_none by done. cbn. by rewrite (proj2 (bytes_eqb_eq x x) eq_refl).
Qed.

Lemma without_seg_free x l : Forall slash_free l -> Forall slash_free (without_seg x l).
Proof. intros Hl. unfold without_seg. induction Hl as [|s l Hs _ IH]; cbn; [done|]. case_if; [by constructor|done]. Qed.

(** What a search for [x] does on segments. *)
Lemma search_seg x init l :
  slash_free x -> Forall slash_free init -> slash_free l ->
  (x ∉ init /\ Index (path_of (init ++ [l])) (47 :: x ++ [47]) = -1) \/
  exists pre post, init = pre ++ x :: post /\ x ∉ pre /\ Forall slash_free pre /\ Forall slash_free post /\
    Index (path_of (init ++ [l])) (47 :: x ++ [47]) = len (path_of pre) /\
    path_of (init ++ [l]) = path_of pre ++ 47 :: x ++ path_of (post ++ [l]).
Proof.
  intros Hx Hi Hl. destruct (decide (x ∈ init)) as [Hin|Hn].
  - right. destruct (first_seg x init Hin) as (pre & post & -> & Hn). exists pre, post.
    apply Forall_app in Hi as [Hpre Hi]. apply Forall_cons in Hi as [_ Hpost].
    rewrite <- app_assoc. cbn [app]. rewrite Index_found; [|done|done|done|by destruct post].
    repeat split; try done. by rewrite path_of_app, path_of_cons.
  - left. split; [done|]. by apply Index_absent.
Qed.

Lemma slashes_loop_segs fuel front init l :
  Forall slash_free init -> slash_free l -> (length init <= fuel)%nat ->
  slashes_loop fuel front (path_of (init ++ [l])) = front ++ path_of (without_seg [] init ++ [l]).
Proof.
  revert front init. induction fuel as [|fuel IH]; intros front init Hi Hl Hf; cbn [slashes_loop].
  { by destruct init; [|cbn in Hf; lia]. }
  destruct (search_seg [] init l) as [[Hn E]|(pre & post & -> & Hn & Hpre & Hpost & E & Ep)];
    [by apply not_elem_of_nil|done|done| |]; cbn [app] in E; change (str "//") with [47; 47]; rewrite E.
  - cbn. by rewrite without_seg_none.
  - pose proof (len_nonneg (path_of pre)). destruct (_ <? 0) eqn:E0; breflect; [lia|].
    rewrite Ep, ztake_app, zdrop_app. cbn [app].
    rewrite length_app in Hf. cbn in Hf. change (zdrop 1 (47 :: path_of (post ++ [l]))) with (path_of (post ++ [l])).
    rewrite IH by (done || lia). rewrite without_seg_first by done.
    by rewrite <- !app_assoc, (path_of_app pre).
Qed.

Lemma dots_loop_segs fuel init l :
  Forall slash_free init -> slash_free l -> (length init <= fuel)%nat ->
  dots_loop fuel (path_of (init ++ [l])) = path_of (without_seg (str ".") init ++ [l]).
Proof.
  revert init. induction fuel as [|fuel IH]; intros init Hi Hl Hf; cbn [dots_loop].
  { by destruct init; [|cbn in Hf; lia]. }
  destruct (search_seg (str ".") init l) as [[Hn E]|(pre & post & -> & Hn & Hpre & Hpost & E & Ep)];
    [vm_compute; set_solver by lia|done|done| |]; cbn [app] in E;
    change (str "/./") with (47 :: str "." ++ [47]); rewrite E.
  - cbn [Z.ltb Z.compare]. by rewrite without_seg_none.
  - pose proof (len_nonneg (path_of pre)). destruct (_ <? 0) eqn:E0; breflect; [lia|].
    rewrite Ep, ztake_app. change (47 :: str "." ++ path_of (post ++ [l])) with ([47; 46] ++ path_of (post ++ [l])).
    rewrite app_assoc, zdrop_app_at by glen. rewrite length_app in Hf. cbn in Hf.
    rewrite <- path_of_app, app_assoc. rewrite IH; [|by apply Forall_app|done|rewrite length_app; lia].
    rewrite without_seg_first by done. unfold without_seg at 1. rewrite List.filter_app.
    fold (without_seg (str ".") pre) (without_seg (str ".") post). by rewrite (without_seg_none _ pre).
Qed.

Lemma enter_plain st l : str ".." ∉ l -> foldl enter st l = st ++ l.
Proof.
  revert st. induction l as [|s l IH]; intros st Hn; cbn [foldl]; [by rewrite app_nil_r|].
  apply not_elem_of_cons in Hn as [Hs Hn]. unfold enter at 2. rewrite (proj2 (bytes_eqb_neq _ _)) by congruence.
  by rewrite IH, <- app_assoc.
Qed.

Lemma removelast_path pre : Forall slash_free pre ->
  let nn := LastIndexByte (path_of pre) 47 in
  (if nn <? 0 then 0 else nn) = len (path_of (removelast pre)) /\ (nn <? 0) = bool_decide (pre = []).
Proof.
  intros Hp. destruct pre as [|s pre _] using rev_ind; [done|]. apply Forall_app in Hp as [_ Hs].
  rewrite Forall_singleton in Hs. cbv zeta. rewrite (LastIndexByte_path pre s Hs), removelast_last.
  pose proof (len_nonneg (path_of pre)). rewrite bool_decide_false by (by destruct pre).
  destruct (_ <? 0) eqn:E; breflect; [lia|done].
Qed.

Lemma removelast_prefix (pre : list bytes) : exists t, pre = removelast pre ++ t.
Proof. destruct pre as [|s pre _] using rev_ind; [by exists []|]. exists [s]. by rewrite removelast_last. Qed.

Lemma removelast_sub (P : bytes -> Prop) pre : Forall P pre -> Forall P (removelast pre).
Proof. destruct (removelast_prefix pre) as [t E]. rewrite E at 1. by intros [? _]%Forall_app. Qed.

(** A step up that is not among [st] is behind it. *)
Lemma parent_split (st init pre post : list bytes) x :
  st ++ init = pre ++ x :: post -> x ∉ st -> exists pre1, pre = st ++ pre1 /\ init = pre1 ++ x :: post.
Proof.
  revert pre. induction st as [|s st IH]; intros pre E Hn; [by exists pre|].
  apply not_elem_of_cons in Hn as [Hs Hn]. destruct pre as [|p pre]; cbn in E; injection E as -> E; [done|].
  destruct (IH pre E Hn) as (pre1 & -> & ->). by exists pre1.
Qed.

Lemma parents_loop_segs fuel st init l :
  Forall slash_free st -> str ".." ∉ st -> Forall slash_free init -> slash_free l -> (length init <= fuel)%nat ->
  parents_loop fuel (path_of ((st ++ init) ++ [l])) = path_of (foldl enter st init ++ [l]).
Proof.
  revert st init. induction fuel as [|fuel IH]; intros st init Hst Hns Hi Hl Hf; cbn [parents_loop].
  { by destruct init; [rewrite app_nil_r|cbn in Hf; lia]. }
  destruct (search_seg (str "..") (st ++ init) l) as [[Hn E]|(pre & post & Hsplit & Hn & Hpre & Hpost & E & Ep)];
    [vm_compute; set_solver by lia|by apply Forall_app|done| |]; cbn [app] in E;
    change (str "/../") with (47 :: str ".." ++ [47]); rewrite E.
  - cbn [Z.ltb Z.compare]. rewrite enter_plain by set_solver. done.
  - pose proof (len_nonneg (path_of pre)). destruct (len (path_of pre) <? 0) eqn:E0; breflect; [lia|].
    rewrite Ep, ztake_app. destruct (removelast_path pre Hpre) as [Enn _]. cbv zeta in Enn. rewrite Enn.
    change (47 :: str ".." ++ path_of (post ++ [l])) with ([47; 46; 46] ++ path_of (post ++ [l])).
    assert (Et : ztake (len (path_of (removelast pre))) (path_of pre ++ [47; 46; 46] ++ path_of (post ++ [l])) = path_of (removelast pre)).
    { destruct (removelast_prefix pre) as [t Ht]. rewrite Ht at 2. rewrite path_of_app, <- app_assoc. apply ztake_app. }
    rewrite Et, app_assoc, zdrop_app_at by glen.
    assert (Hin : exists pre1, pre = st ++ pre1 /\ init = pre1 ++ str ".." :: post) by (by apply parent_split).
    destruct Hin as (pre1 & -> & ->). rewrite length_app in Hf. cbn in Hf.
    rewrite <- path_of_app, app_assoc, IH; [|by apply removelast_sub|..|done|done|lia].
    + rewrite foldl_app, (enter_plain st pre1) by (by apply not_elem_of_app in Hn as [_ Hn]). done.
    + destruct (removelast_prefix (st ++ pre1)) as [t Ht]. rewrite Ht in Hn. set_solver.
Qed.

(** ** Normalized paths *)

(** The path a source stands for, without its leading slash. *)
Definition decoded (src : bytes) : bytes :=
  decode_loop false (if bool_decide (head src = Some 47) then tail src else src).

(** One pass over the segments: empty ones and ["."] are left out, [".."] goes up;
    the last segment is kept as it is, unless it goes up. *)
Definition norm_segs (segs : list bytes) : list bytes :=
  let st := foldl enter [] (without_seg (str ".") (without_seg [] (removelast segs))) in
  let l := List.last segs [] in
  if bytes_eqb l (str "..") then removelast st ++ [[]] else st ++ [l].

Lemma decoded_slash src : decodeArgAppendNoPlus (addLeadingSlash [] src) src = 47 :: decoded src.
Proof.
  rewrite decodeArgAppendNoPlus_loop. unfold addLeadingSlash, decoded. case_bool_decide as E.
  - destruct src as [|c src]; [done|]. injection E as ->. cbn [tail]. rewrite len_cons. pose proof (len_nonneg src).
    destruct (1 + len src =? 0) eqn:E0; breflect; [lia|]. done.
  - by rewrite orb_true_r.
Qed.

Lemma enter_free st l : Forall slash_free st -> Forall slash_free l -> Forall slash_free (foldl enter st l).
Proof.
  intros Hst Hl. revert st Hst. induction Hl as [|s l Hs _ IH]; intros st Hst; cbn [foldl]; [done|]. apply IH.
  unfold enter. case_if; [by apply removelast_sub|]. apply Forall_app. split; [done|]. by apply Forall_singleton.
Qed.

Lemma normalize_segs src : normalizePath src = path_of (norm_segs (split_on 47 [] (decoded src))).
Proof.
  unfold normalizePath. rewrite decoded_slash.
  pose proof (path_of_split [] (decoded src)) as E. cbn [app] in E. rewrite <- E. clear E.
  pose proof (split_on_free 47 [] (decoded src) (not_elem_of_nil _)) as Hfree.
  pose proof (split_on_ne 47 [] (decoded src)) as Hne.
  set (segs := split_on 47 [] (decoded src)) in *. clearbody segs.
  destruct (exists_last Hne) as (init & l & ->). apply Forall_app in Hfree as [Hi Hl]. rewrite Forall_singleton in Hl.
  assert (Hfuel : forall s : list bytes, (length s <= length (path_of (s ++ [l])))%nat).
  { intros s. rewrite path_of_app, length_app. pose proof (length_path_of s). lia. }
  rewrite slashes_loop_segs by (done || apply Hfuel). cbn [app].
  set (i1 := without_seg [] init). assert (H1 : Forall slash_free i1) by (by apply without_seg_free).
  rewrite dots_loop_segs by (done || apply Hfuel).
  set (i2 := without_seg (str ".") i1). assert (H2 : Forall slash_free i2) by (by apply without_seg_free).
  pose proof (parents_loop_segs (length (path_of (i2 ++ [l]))) [] i2 l (Forall_nil_2 _) (not_elem_of_nil _) H2 Hl (Hfuel i2)) as Ep.
  cbn [app] in Ep. rewrite Ep. unfold norm_segs. rewrite removelast_last, last_last. fold i1. fold i2.
  assert (H3 : Forall slash_free (foldl enter [] i2)) by (apply enter_free; done).
  set (st := foldl enter [] i2) in *. rewrite ends_in_parent by done.
  destruct (bytes_eqb l (str "..")) eqn:El; [|done]. apply bytes_eqb_eq in El as ->.
  rewrite parent_index, path_of_last, ztake_app. destruct (removelast_path st H3) as [Enn Eneg]. cbv zeta in Enn, Eneg.
  rewrite Eneg in Enn |- *. case_bool_decide as Est; [by rewrite Est|]. rewrite Enn, path_of_last.
  destruct st as [|s st _] using rev_ind; [done|]. rewrite removelast_last, path_of_last, <- app_assoc.
  cbn [app]. change (path_of st ++ 47 :: s ++ 47 :: str "..") with (path_of st ++ [47] ++ s ++ 47 :: str "..").
  rewrite app_assoc. apply ztake_app_at. glen.
Qed.

(** Segments of a normalized path. *)
Definition normal (segs : list bytes) : Prop :=
  exists init l, segs = init ++ [l] /\ Forall slash_free init /\ slash_free l /\
    [] ∉ init /\ str "." ∉ init /\ str ".." ∉ init /\ l <> str "..".

Lemma without_seg_not x l : x ∉ without_seg x l.
Proof.
  unfold without_seg. rewrite list_elem_of_In, filter_In. intros [_ H]. by rewrite (proj2 (bytes_eqb_eq x x) eq_refl) in H.
Qed.

Lemma without_seg_in x y l : y ∈ without_seg x l -> y ∈ l.
Proof. unfold without_seg. rewrite !list_elem_of_In, filter_In. by intros []. Qed.

Lemma enter_in st l s : s ∈ foldl enter st l -> s ∈ st \/ (s ∈ l /\ s <> str "..").
Proof.
  revert st. induction l as [|x l IH]; intros st Hs; cbn [foldl] in Hs; [by left|].
  apply IH in Hs as [Hs|[Hs Hn]]; [|right; split; [by right|done]]. unfold enter in Hs.
  destruct (bytes_eqb x (str "..")) eqn:E.
  - left. destruct (removelast_prefix st) as [t ->]. apply elem_of_app. by left.
  - apply bytes_eqb_neq in E. apply elem_of_app in Hs as [Hs|Hs]; [by left|]. apply list_elem_of_singleton in Hs as ->.
    right. split; [left|done].
Qed.

Lemma norm_segs_normal segs : segs <> [] -> Forall slash_free segs -> normal (norm_segs segs).
Proof.
  intros Hne Hfree. destruct (exists_last Hne) as (init & l & ->). apply Forall_app in Hfree as [Hi Hl].
  rewrite Forall_singleton in Hl. unfold norm_segs. rewrite removelast_last, last_last.
  set (l2 := without_seg (str ".") (without_seg [] init)). set (st := foldl enter [] l2).
  assert (Hst : Forall slash_free st) by (apply enter_free; [done|]; by repeat apply without_seg_free).
  assert (Hin : forall s, s ∈ st -> s <> [] /\ s <> str "." /\ s <> str "..").
  { intros s Hs. apply enter_in in Hs as [Hs|[Hs Hn]]; [by apply not_elem_of_nil in Hs|].
    split; [|split]; [| |done]; intros ->.
    - apply without_seg_in in Hs. by apply without_seg_not in Hs.
    - by apply without_seg_not in Hs. }
  assert (Hsub : forall s, s ∈ removelast st -> s ∈ st).
  { intros s Hs. destruct (removelast_prefix st) as [t ->]. apply elem_of_app. by left. }
  destruct (bytes_eqb l (str "..")) eqn:El.
  - exists (removelast st), []. split; [done|]. split; [by apply removelast_sub|]. split; [by apply not_elem_of_nil|].
    repeat split; try (intros Hs; apply Hsub, Hin in Hs; tauto). done.
  - apply bytes_eqb_neq in El. exists st, l. repeat split; try done; intros Hs; apply Hin in Hs; tauto.
Qed.

Lemma normalize_normal src : exists segs, normalizePath src = path_of segs /\ normal segs.
Proof.
  exists (norm_segs (split_on 47 [] (decoded src))). split; [apply normalize_segs|].
  apply norm_segs_normal; [apply split_on_ne|]. apply split_on_free, not_elem_of_nil.
Qed.

(** NormalizePath, which edits the decoded path in place with one search and copy
    after the other, computes what one pass over the segments of the decoded path
    computes: empty segments and ["."] are left out and [".."] leaves the segment
    before it, never the root.  It returns on every input. *)
Theorem normalizePath_segments src :
  normalizePath src = path_of (norm_segs (split_on 47 [] (decoded src))).
Proof. apply normalize_segs. Qed.

(** C12: no request can climb out of the root: a normalized path starts with a slash
    and has no ["//"], ["/./"] or ["/../"] in it nor ["/.."] at its end, however the
    slashes and dots were encoded. *)
Theorem normalizePath_safe src :
  let p := normalizePath src in
  head p = Some 47 /\ Index p (str "//") = -1 /\ Index p (str "/./") = -1 /\ Index p (str "/../") = -1 /\
  ~ exists t, p = t ++ str "/..".
Proof.
  destruct (normalize_normal src) as (segs & -> & init & l & -> & Hi & Hl & H0 & H1 & H2 & Hlast). cbv zeta.
  split; [by destruct init|].
  split; [apply (Index_absent []); try done; apply not_elem_of_nil|]. split; [apply (Index_absent (str ".")); try done; vm_compute; set_solver by lia|].
  split; [apply (Index_absent (str "..")); try done; vm_compute; set_solver by lia|].
  change (str "/..") with (47 :: str ".."). rewrite path_of_suffix; [done|done|vm_compute; set_solver by lia].
Qed.

(** ** Normalizing again *)

Lemma path_of_join segs : segs <> [] -> path_of segs = 47 :: join_with 47 segs.
Proof.
  induction segs as [|s segs IH]; [done|]. intros _. rewrite path_of_cons. destruct segs as [|s' segs].
  - cbn. by rewrite app_nil_r.
  - cbn [join_with]. by rewrite IH.
Qed.

Lemma norm_segs_same segs : normal segs -> norm_segs segs = segs.
Proof.
  intros (init & l & -> & Hi & Hl & H0 & H1 & H2 & Hlast). unfold norm_segs. rewrite removelast_last, last_last.
  rewrite (without_seg_none [] init), without_seg_none, enter_plain by done. by rewrite (proj2 (bytes_eqb_neq l _)).
Qed.

Lemma quoted_slash t : exists q, AppendQuotedPath [] (47 :: t) = 47 :: q.
Proof. unfold AppendQuotedPath. rewrite (bool_decide_false (_ = Some 42)), andb_false_r by done. by eexists. Qed.

(** A normalized path survives quoting and normalizing. *)
Lemma normalize_quoted segs : normal segs -> wf_bytes (path_of segs) ->
  normalizePath (AppendQuotedPath [] (path_of segs)) = path_of segs.
Proof.
  intros Hn Hw. rewrite normalize_segs. pose proof Hn as (init & l & Es & Hi & Hl & _).
  assert (Hne : segs <> []) by (rewrite Es; by destruct init).
  assert (E : 47 :: decoded (AppendQuotedPath [] (path_of segs)) = 47 :: join_with 47 segs).
  { rewrite <- path_of_join by done. rewrite <- (decode_quoted_path (path_of segs)) at 2 by done.
    rewrite <- decoded_slash. f_equal. rewrite path_of_join by done.
    destruct (quoted_slash (join_with 47 segs)) as [q ->]. unfold addLeadingSlash. cbn. rewrite len_cons.
    pose proof (len_nonneg q). destruct (1 + len q =? 0) eqn:E; breflect; [lia|done]. }
  injection E as ->. rewrite split_on_join; [by rewrite norm_segs_same|done|].
  rewrite Es. apply Forall_app. split; [done|by apply Forall_singleton].
Qed.
