(* ===== verification/UriRound.v ===== *)
(** * URIs: parsing what was printed

    Parsing a full URI takes it apart where printing put it together; from that the
    round trip through FullURI and the resolution of references by UpdateBytes. *)

From S2P Require Import Prelude Bytes BytesConv Args ArgsSpec Uri UriPath.

(** ** Octets *)

Definition ctl (c : Z) : bool := (c <? 32) || (c =? 127).

Definition no_ctl (s : bytes) : Prop := stringContainsCTLByte s = false.

Lemma no_ctl_app a b : no_ctl (a ++ b) <-> no_ctl a /\ no_ctl b.
Proof. unfold no_ctl, stringContainsCTLByte. rewrite existsb_app. apply orb_false_iff. Qed.

Lemma no_ctl_Forall s : no_ctl s <-> Forall (fun c => ctl c = false) s.
Proof.
  unfold no_ctl, stringContainsCTLByte. induction s as [|c s IH]; cbn; [done|].
  rewrite orb_false_iff, IH, Forall_cons. done.
Qed.

(** Octets that neither control anything nor start a query or a hash. *)
Definition clean (c : Z) : bool := (32 <? c) && (c <? 127) && negb (c =? 35) && negb (c =? 63).

Lemma clean_spec c : clean c = true -> ctl c = false /\ c <> 35 /\ c <> 63.
Proof. unfold clean, ctl. intros H. breflect. split; [|lia]. apply orb_false_iff. split; [apply Z.ltb_ge|apply Z.eqb_neq]; lia. Qed.

Lemma clean_all s : Forall (fun c => clean c = true) s -> no_ctl s /\ 35 ∉ s /\ 63 ∉ s.
Proof.
  rewrite Forall_forall. intros H. split; [|split; intros Hin; by apply H in Hin].
  apply no_ctl_Forall, Forall_forall. intros c Hc. by apply clean_spec, H.
Qed.

Lemma quoted_arg_clean src : wf_bytes src -> Forall (fun c => clean c = true) (AppendQuotedArg [] src).
Proof.
  intros Hw. unfold AppendQuotedArg. cbn [app]. induction Hw as [|c t Hc _ IH]; [constructor|].
  cbn [mbind list_bind]. apply Forall_app. split; [|exact IH]. apply Forall_forall. intros x Hx.
  set (out c := if c =? 32 then [43] else if negb (tab QuotedArgShouldEscapeTable c =? 0) then quote_octet c else [c]).
  assert (H : forallb clean (out c) = true) by octets (fun c => forallb clean (out c)).
  rewrite forallb_forall in H. apply H. by apply list_elem_of_In.
Qed.

Lemma quoted_path_clean src : wf_bytes src -> Forall (fun c => clean c = true) (AppendQuotedPath [] src).
Proof.
  intros Hw. unfold AppendQuotedPath. cbn [app]. case_if; [by repeat constructor|]. clear Heqb.
  induction Hw as [|c t Hc _ IH]; [constructor|].
  cbn [mbind list_bind]. apply Forall_app. split; [|exact IH]. apply Forall_forall. intros x Hx.
  set (out c := if negb (tab QuotedPathShouldEscapeTable c =? 0) then quote_octet c else [c]).
  assert (H : forallb clean (out c) = true) by octets (fun c => forallb clean (out c)).
  rewrite forallb_forall in H. apply H. by apply list_elem_of_In.
Qed.

(** ** Taking a URI apart *)

Lemma Index_byte_absent c b : c ∉ b -> Index b [c] = -1.
Proof.
  induction b as [|x b IH]; intros Hn; [done|]. apply not_elem_of_cons in Hn as [Hx Hn]. cbn [Index].
  destruct (has_prefix [c] (x :: b)) eqn:E; [apply has_prefix_app in E as [t E]; by injection E|]. by rewrite IH.
Qed.

Definition lower (c : Z) : bool := between 97 c 122.
Definition scheme_octet (c : Z) : bool := lower c || between 48 c 57 || (c =? 43) || (c =? 45) || (c =? 46).

(** A scheme as it is kept: a lower-case letter, then letters, digits and [+-.]. *)
Definition valid_scheme (s : bytes) : Prop :=
  match s with [] => False | c :: t => lower c = true /\ Forall (fun c => scheme_octet c = true) t end.

Lemma getScheme_loop_ok raw s t i : 0 < i -> Forall (fun c => scheme_octet c = true) s ->
  getScheme_loop raw (s ++ 58 :: t) i = checkSchemeWhenCharIsColon (i + len s) raw.
Proof.
  intros Hi Hs. revert i Hi. induction Hs as [|c s Hc _ IH]; intros i Hi; cbn [app getScheme_loop].
  { cbn. rewrite len_nil. f_equal. lia. }
  rewrite len_cons. replace (i + (1 + len s)) with (i + 1 + len s) by lia.
  unfold scheme_octet, lower in Hc. destruct (between 97 c 122) eqn:E1; cbn [orb] in *; [by rewrite IH by lia|].
  destruct (between 65 c 90); [by rewrite IH by lia|]. rewrite Hc.
  destruct (i =? 0) eqn:E0; breflect; [lia|]. by rewrite IH by lia.
Qed.

Lemma getScheme_ok s t : valid_scheme s -> getScheme (s ++ 58 :: t) = (Some s, t).
Proof.
  destruct s as [|c s]; [done|]. intros [Hc Hs]. unfold getScheme. cbn [app getScheme_loop].
  unfold lower in Hc. rewrite Hc. cbn [orb]. rewrite getScheme_loop_ok by (lia || done).
  unfold checkSchemeWhenCharIsColon. pose proof (len_nonneg s).
  replace (0 + 1 + len s) with (len (c :: s)) by (rewrite len_cons; lia).
  destruct (len (c :: s) =? 0) eqn:E; breflect; [rewrite len_cons in E; lia|].
  change (c :: s ++ 58 :: t) with ((c :: s) ++ 58 :: t). rewrite ztake_app. f_equal.
  replace ((c :: s) ++ 58 :: t) with (((c :: s) ++ [58]) ++ t) by (by rewrite <- app_assoc).
  by rewrite zdrop_app_at by glen.
Qed.

Definition lowered (s : bytes) : Prop := LowercaseBytes s = s.

Lemma valid_scheme_lowered s : valid_scheme s -> wf_bytes s -> lowered s.
Proof.
  intros Hs Hw. unfold lowered, LowercaseBytes.
  assert (H : Forall (fun c => scheme_octet c = true) s).
  { destruct s as [|c s]; [done|]. destruct Hs as [Hc Hs]. constructor; [|done]. unfold scheme_octet. by rewrite Hc. }
  clear Hs. induction H as [|c s Hc _ IH]; [done|]. apply Forall_cons in Hw as [Hc8 Hw]. cbn. f_equal; [|by apply IH].
  assert (H : (negb (scheme_octet c) || (tab ToLowerTable c =? c)) = true)
    by octets (fun c => negb (scheme_octet c) || (tab ToLowerTable c =? c)).
  rewrite Hc in H. cbn in H. by apply Z.eqb_eq in H.
Qed.

(** A host as it is kept and printed. *)
Definition valid_host (h : bytes) : Prop := 47 ∉ h /\ 64 ∉ h /\ lowered h /\ no_ctl h.

(** What Parse makes of [scheme://host] and what follows. *)
Lemma Parse_full u s h t :
  valid_scheme s -> lowered s -> valid_host h -> no_ctl (s ++ str "://" ++ h ++ 47 :: t) ->
  Parse u [] (s ++ str "://" ++ h ++ 47 :: t) =
  Ret (let '(p, q, f) := split_target (47 :: t) in
       mkURI p s (normalizePath p) q f h (Args.Reset (queryArgs u)) false false [] []).
Proof.
  intros Hs Hlow (Hh1 & Hh2 & Hh3 & _) Hctl. unfold Parse, parse. rewrite Hctl. change (len (@nil Z) =? 0) with true. cbn [orb].
  unfold splitHostURI. change (str "://" ++ h ++ 47 :: t) with (58 :: [47; 47] ++ h ++ 47 :: t).
  rewrite getScheme_ok by done. pose proof (len_nonneg h).
  destruct (len ([47; 47] ++ h ++ 47 :: t) <? 2) eqn:E; breflect; [glen|].
  rewrite zdrop_app_at by done. rewrite IndexByte_at by done.
  destruct (len h <? 0) eqn:E2; breflect; [lia|]. rewrite ztake_app, zdrop_app. cbn [outcome_bind]. rewrite Hlow.
  unfold split_auth. change (str "@") with [64]. rewrite Index_byte_absent by done. cbn [Z.geb Z.compare].
  destruct (split_target (47 :: t)) as [[p q] f]. cbn [outcome_bind Reset queryArgs]. by rewrite Hh3.
Qed.

(** The query and the hash, each with the octet before it if it is not empty. *)
Definition with_mark (c : Z) (s : bytes) : bytes := match s with [] => [] | _ => c :: s end.

Lemma IndexByte_ge b c : -1 <= IndexByte b c.
Proof. induction b; cbn; repeat case_if; breflect; lia. Qed.

(** Behind a prefix without it, an octet is found behind the prefix. *)
Lemma IndexByte_behind a b c : c ∉ a -> IndexByte (a ++ b) c = -1 \/ len a <= IndexByte (a ++ b) c.
Proof.
  intros Hn. rewrite IndexByte_app by done. pose proof (IndexByte_ge b c). case_if; [by left|]. right. breflect. lia.
Qed.

Lemma split_target_join p q f :
  63 ∉ p -> 35 ∉ p -> 35 ∉ q -> split_target (p ++ with_mark 63 q ++ with_mark 35 f) = (p, q, f).
Proof.
  intros H1 H2 H3. unfold split_target. pose proof (len_nonneg p). destruct q as [|c q]; destruct f as [|d f].
  - cbn [with_mark]. rewrite !app_nil_r, (proj2 (IndexByte_none p 63)), (proj2 (IndexByte_none p 35)) by done. done.
  - cbn [with_mark app]. rewrite IndexByte_at by done.
    assert (Hq : IndexByte (p ++ 35 :: d :: f) 63 = -1 \/ len p < IndexByte (p ++ 35 :: d :: f) 63).
    { replace (p ++ 35 :: d :: f) with ((p ++ [35]) ++ d :: f) by (by rewrite <- app_assoc).
      destruct (IndexByte_behind (p ++ [35]) (d :: f) 63) as [E|E]; [set_solver by lia|by left|right]. glen. }
    set (qi := IndexByte _ 63) in *.
    assert (Eq : (if (len p >=? 0) && (qi >? len p) then -1 else qi) = -1).
    { destruct ((len p >=? 0) && (qi >? len p)) eqn:E; [done|]. apply andb_false_iff in E as [E|E]; breflect; lia. }
    rewrite Eq. cbn [Z.ltb Z.compare andb Z.geb]. destruct (len p <? 0) eqn:E; breflect; [lia|]. rewrite ztake_app.
    replace (p ++ 35 :: d :: f) with ((p ++ [35]) ++ d :: f) by (by rewrite <- app_assoc). by rewrite zdrop_app_at by glen.
  - cbn [with_mark app]. rewrite !app_nil_r, (IndexByte_at p) by done.
    rewrite (proj2 (IndexByte_none (p ++ 63 :: c :: q) 35)) by set_solver by lia. cbn [Z.geb Z.compare andb].
    destruct (len p <? 0) eqn:E; breflect; [lia|]. destruct (len p >=? 0) eqn:E2; breflect; [|lia]. cbn. rewrite ztake_app.
    replace (p ++ 63 :: c :: q) with ((p ++ [63]) ++ c :: q) by (by rewrite <- app_assoc). by rewrite zdrop_app_at by glen.
  - cbn [with_mark app]. rewrite (IndexByte_at p) by done.
    replace (p ++ 63 :: c :: q ++ 35 :: d :: f) with ((p ++ 63 :: c :: q) ++ 35 :: d :: f) by (by rewrite <- app_assoc).
    rewrite IndexByte_at by set_solver by lia.
    assert (El : len (p ++ 63 :: c :: q) = len p + 2 + len q) by (rewrite len_app, !len_cons; lia).
    pose proof (len_nonneg q). destruct (len (p ++ 63 :: c :: q) >=? 0) eqn:E1; breflect; [|lia].
    destruct (len p >? len (p ++ 63 :: c :: q)) eqn:E2; breflect; [lia|]. cbn [andb].
    destruct (len p <? 0) eqn:E3; breflect; [lia|]. destruct (len p >=? 0) eqn:E4; breflect; [|lia]. cbn [andb].
    destruct (len (p ++ 63 :: c :: q) <? 0) eqn:E5; breflect; [lia|]. rewrite ztake_app.
    replace ((p ++ 63 :: c :: q) ++ 35 :: d :: f) with (p ++ 63 :: c :: q ++ 35 :: d :: f) at 1 by (by rewrite <- app_assoc).
    rewrite ztake_app. replace (p ++ 63 :: c :: q) with ((p ++ [63]) ++ c :: q) at 1 by (by rewrite <- app_assoc).
    rewrite zdrop_app_at by glen. f_equal.
    replace ((p ++ 63 :: c :: q) ++ 35 :: d :: f) with (((p ++ 63 :: c :: q) ++ [35]) ++ d :: f) by (by rewrite <- app_assoc).
    rewrite zdrop_app_at; [done|]. rewrite (len_app _ [35]). done.
Qed.

(** ** The round trip *)

(** The query a URI prints. *)
Definition query (u : URI) : bytes :=
  if (0 <? Len (queryArgs u))%nat then QueryString (queryArgs u) else queryString u.

(** A URI whose parts can stand in its text. *)
Record uri_ok (u : URI) : Prop := {
  uo_norm : DisablePathNormalizing u = false;
  uo_scheme : valid_scheme (Scheme u) /\ lowered (Scheme u) /\ no_ctl (Scheme u);
  uo_host : valid_host (host u);
  uo_path : exists src, Path u = normalizePath src;
  uo_octets : wf_bytes (Path u);
  uo_query : no_ctl (queryString u) /\ 35 ∉ queryString u;
  uo_args : Forall parsed (entries (queryArgs u)) /\ kvs_ok (queryArgs u);
  uo_hash : no_ctl (hash u)
}.

Lemma render_clean kv : parsed kv -> Forall (fun c => clean c = true) (render kv) /\ render kv <> [].
Proof.
  intros (Hk & Hv & Hf & Hn). unfold render. split.
  - apply Forall_app. split; [by apply quoted_arg_clean|]. destruct (kv_noValue kv); [constructor|].
    constructor; [done|]. by apply quoted_arg_clean.
  - destruct (kv_noValue kv) eqn:E; [|by destruct (AppendQuotedArg [] (kv_key kv))].
    rewrite app_nil_r. intros Hq. unfold filled in Hf. rewrite (Hn eq_refl) in Hf. cbn in Hf. rewrite orb_false_r in Hf.
    destruct (kv_key kv) as [|c k] eqn:Ek; [done|]. unfold AppendQuotedArg in Hq. cbn in Hq.
    apply app_eq_nil in Hq as [Hq _]. repeat case_if; done.
Qed.

Lemma join_clean ls : Forall (fun l => Forall (fun c => clean c = true) l) ls -> Forall (fun c => clean c = true) (join_with 38 ls).
Proof.
  induction 1 as [|l ls Hl _ IH]; [constructor|]. destruct ls as [|l' ls]; [exact Hl|].
  change (Forall (fun c => clean c = true) (l ++ 38 :: join_with 38 (l' :: ls))).
  apply Forall_app. split; [done|]. by constructor.
Qed.

(** The printed query is free of what would end it. *)
Lemma query_ok u : uri_ok u -> no_ctl (query u) /\ 35 ∉ query u.
Proof.
  intros Hok. unfold query. case_if; [|apply Hok]. unfold QueryString, AppendBytes. rewrite append_loop_join. cbn [app].
  destruct (uo_args _ Hok) as [Hp _].
  destruct (clean_all (join_with 38 (render <$> entries (queryArgs u)))) as (H1 & H2 & _); [|done].
  apply join_clean, Forall_fmap. eapply Forall_impl; [exact Hp|]. intros kv Hkv. by apply render_clean.
Qed.

Lemma RequestURI_parts u : uri_ok u -> RequestURI u = AppendQuotedPath [] (Path u) ++ with_mark 63 (query u).
Proof.
  intros Hok. unfold RequestURI, query. rewrite (uo_norm _ Hok). destruct (uo_args _ Hok) as [Hp Hk].
  destruct (0 <? Len (queryArgs u))%nat eqn:E.
  - apply Nat.ltb_lt in E. unfold QueryString, AppendBytes. rewrite !append_loop_join, <- app_assoc. cbn [app]. f_equal.
    assert (Hne : join_with 38 (render <$> entries (queryArgs u)) <> []).
    { pose proof (length_entries _ Hk) as Hl. unfold Len in E. destruct (entries (queryArgs u)) as [|kv l]; [cbn in Hl; lia|].
      apply Forall_cons in Hp as [Hkv _]. destruct (render_clean kv Hkv) as [_ Hr]. cbn [fmap list_fmap].
      destruct l; [exact Hr|]. cbn [join_with]. by destruct (render kv). }
    by destruct (join_with 38 _).
  - destruct (queryString u) as [|c q]; [cbn; by rewrite app_nil_r|]. rewrite len_cons. pose proof (len_nonneg q).
    destruct (1 + len q >? 0) eqn:E2; breflect; [|lia]. done.
Qed.

Lemma FullURI_parts u : uri_ok u ->
  FullURI u = Scheme u ++ str "://" ++ host u ++ AppendQuotedPath [] (Path u) ++ with_mark 63 (query u) ++ with_mark 35 (hash u).
Proof.
  intros Hok. unfold FullURI, appendSchemeHost. rewrite RequestURI_parts by done. cbn [app].
  destruct (hash u) as [|c f]; [cbn; by rewrite app_nil_r, <- !app_assoc|]. rewrite len_cons. pose proof (len_nonneg f).
  destruct (1 + len f >? 0) eqn:E; breflect; [|lia]. by rewrite <- !app_assoc.
Qed.

Lemma normal_slash segs : normal segs -> exists t, path_of segs = 47 :: t.
Proof. intros (init & l & -> & _). destruct init; by eexists. Qed.

Lemma Path_quoted u : uri_ok u ->
  exists t, AppendQuotedPath [] (Path u) = 47 :: t /\ normalizePath (47 :: t) = Path u.
Proof.
  intros Hok. destruct (uo_path _ Hok) as [src Hp]. destruct (normalize_normal src) as (segs & E & Hn). rewrite E in Hp.
  pose proof (uo_octets _ Hok) as Hw. rewrite Hp in *. pose proof (normalize_quoted segs Hn Hw) as Hq.
  destruct (normal_slash segs Hn) as [t0 Et]. rewrite Et in *. destruct (quoted_slash t0) as [t Eq].
  exists t. rewrite Eq in Hq |- *. done.
Qed.

Lemma no_ctl_mark c s : ctl c = false -> no_ctl s -> no_ctl (with_mark c s).
Proof.
  intros Hc Hs. destruct s as [|x s]; [done|]. cbn [with_mark]. unfold no_ctl, stringContainsCTLByte in *. cbn [existsb] in *.
  unfold ctl in Hc. by rewrite Hc, Hs.
Qed.

(** C11: parsing the full URI of a URI gives its scheme, host, path, query and hash
    back, whatever octets the path, the arguments and their values hold. *)
Theorem uri_roundtrip u v : uri_ok u ->
  Parse v [] (FullURI u) =
  Ret (mkURI (AppendQuotedPath [] (Path u)) (Scheme u) (Path u) (query u) (hash u) (host u)
         (Args.Reset (queryArgs v)) false false [] []).
Proof.
  intros Hok. rewrite FullURI_parts by done. destruct (Path_quoted u Hok) as (t & Eq & En).
  destruct (uo_scheme _ Hok) as (Hs1 & Hs2 & Hs3). destruct (query_ok u Hok) as [Hq1 Hq2].
  destruct (clean_all _ (quoted_path_clean _ (uo_octets _ Hok))) as (Hp1 & Hp2 & Hp3). rewrite Eq in *.
  rewrite <- (app_comm_cons t).
  rewrite Parse_full; [|done|done|apply Hok|].
  - rewrite app_comm_cons, split_target_join by done. by rewrite En.
  - rewrite app_comm_cons, !no_ctl_app. repeat split; try done; [apply (uo_host _ Hok)|by apply no_ctl_mark|].
    apply no_ctl_mark; [done|]. apply (uo_hash _ Hok).
Qed.

(** ** References *)

Lemma ztake_app_plus (a b : bytes) n : 0 <= n -> ztake (len a + n) (a ++ b) = a ++ ztake n b.
Proof. intros Hn. unfold ztake, len. rewrite take_app_ge by lia. f_equal. f_equal. lia. Qed.

Lemma zdrop_app_plus (a b : bytes) n : 0 <= n -> zdrop (len a + n) (a ++ b) = zdrop n b.
Proof. intros Hn. unfold zdrop, len. rewrite drop_app_ge by lia. f_equal. lia. Qed.

(** Decides the comparisons of the goal by arithmetic. *)
Ltac zdec :=
  repeat (match goal with
  | |- context [?x =? ?y] => first [rewrite (proj2 (Z.eqb_eq x y)) by lia | rewrite (proj2 (Z.eqb_neq x y)) by lia]
  | |- context [?x <? ?y] => first [rewrite (proj2 (Z.ltb_lt x y)) by lia | rewrite (proj2 (Z.ltb_ge x y)) by lia]
  | |- context [?x >=? ?y] => rewrite (Z.geb_leb x y)
  | |- context [?x >? ?y] => rewrite (Z.gtb_ltb x y)
  | |- context [?x <=? ?y] => first [rewrite (proj2 (Z.leb_le x y)) by lia | rewrite (proj2 (Z.leb_gt x y)) by lia]
  end; cbn [andb orb negb]).

(** What is before the query and the hash belongs to the path. *)
Lemma split_target_prefix a b : 63 ∉ a -> 35 ∉ a ->
  split_target (a ++ b) = let '(p, q, f) := split_target b in (a ++ p, q, f).
Proof.
  intros H1 H2. unfold split_target. rewrite !IndexByte_app by done. pose proof (len_nonneg a).
  pose proof (IndexByte_ge b 63) as Hq. pose proof (IndexByte_ge b 35) as Hf.
  set (qi := IndexByte b 63) in *. set (fi := IndexByte b 35) in *. clearbody qi fi.
  assert (Ht : forall n, 0 <= n -> ztake (len a + n) (a ++ b) = a ++ ztake n b) by (intros; by apply ztake_app_plus).
  assert (Hd : forall n, 0 <= n -> zdrop (len a + n + 1) (a ++ b) = zdrop (n + 1) b).
  { intros n Hn. rewrite <- Z.add_assoc. by apply zdrop_app_plus; lia. }
  assert (Hm : forall n m, 0 <= n -> 0 <= m -> zdrop (len a + n + 1) (ztake (len a + m) (a ++ b)) = zdrop (n + 1) (ztake m b)).
  { intros n m Hn Hm. rewrite Ht by done. rewrite <- Z.add_assoc. by apply zdrop_app_plus; lia. }
  destruct (decide (qi = -1)) as [->|], (decide (fi = -1)) as [->|].
  - done.
  - zdec. by rewrite Ht, Hd by lia.
  - zdec. by rewrite Ht, Hd by lia.
  - destruct (decide (fi < qi)); zdec; by rewrite ?Hm, ?Ht, ?Hd by lia.
Qed.

Lemma decode_quoted_dir d t : wf_bytes d ->
  decode_loop false (AppendQuotedPath [] (47 :: d) ++ t) = 47 :: d ++ decode_loop false t.
Proof.
  intros Hw. unfold AppendQuotedPath. rewrite (bool_decide_false (_ = Some 42)), andb_false_r by done. cbn [app].
  change (47 :: d ++ decode_loop false t) with ((47 :: d) ++ decode_loop false t).
  assert (Hw' : wf_bytes (47 :: d)) by (by constructor).
  induction Hw' as [|c s Hc _ IH]; [done|]. cbn [mbind list_bind]. rewrite <- app_assoc.
  destruct (tab QuotedPathShouldEscapeTable c =? 0) eqn:E2; cbn [negb].
  - breflect. pose proof (unescaped_path c Hc E2). cbn [app decode_loop].
    destruct (c =? 37) eqn:E3; breflect; [done|]. cbn [andb]. by rewrite IH.
  - rewrite decode_quoted by done. by rewrite IH.
Qed.

(** The path of a reference that is relative to the path with these segments: the last
    segment gives way to those of the reference. *)
Definition resolve (segs : list bytes) (p : bytes) : bytes :=
  path_of (norm_segs (removelast segs ++ split_on 47 [] (decode_loop false p))).

Lemma normalize_relative init p : Forall slash_free init -> wf_bytes (path_of init) ->
  normalizePath (AppendQuotedPath [] (path_of init ++ [47]) ++ p) =
  path_of (norm_segs (init ++ split_on 47 [] (decode_loop false p))).
Proof.
  intros Hi Hw. rewrite normalize_segs. f_equal. f_equal.
  set (D := decode_loop false p).
  assert (Hd : exists d, path_of init ++ [47] = 47 :: d /\ wf_bytes d).
  { destruct init as [|s init]; [by exists []|]. rewrite path_of_cons in *. eexists. split; [done|].
    apply Forall_cons in Hw as [_ Hw]. apply Forall_app. split; [done|]. by repeat constructor. }
  destruct Hd as (d & Ed & Hwd). rewrite Ed.
  assert (E : 47 :: decoded (AppendQuotedPath [] (47 :: d) ++ p) = path_of (init ++ split_on 47 [] D)).
  { rewrite path_of_app, path_of_split. cbn [app]. change (47 :: D) with ([47] ++ D). rewrite app_assoc, Ed.
    cbn [app]. unfold D. rewrite <- decode_quoted_dir by done. destruct (quoted_slash d) as [q ->]. done. }
  rewrite path_of_join in E by (pose proof (split_on_ne 47 [] D); by destruct init). injection E as ->.
  apply split_on_join; [pose proof (split_on_ne 47 [] D); by destruct init|].
  apply Forall_app. split; [done|]. apply split_on_free, not_elem_of_nil.
Qed.

(** A reference without ["//"] keeps scheme and host.  One that starts with a slash
    replaces the path, a relative one replaces the last segment of the path and is
    normalized with it; query and hash are those of the reference.  A reference that
    is only a query, or only a hash, replaces just that. *)
Theorem UpdateBytes_resolves u new segs : uri_ok u -> Path u = path_of segs -> normal segs ->
  no_ctl new -> Index new (str "//") = -1 -> new <> [] ->
  let '(p, q, f) := split_target new in
  let moved p0 p := mkURI p0 (Scheme u) p q f (host u) (Args.Reset (queryArgs u)) false false [] [] in
  UpdateBytes u new = Ret
    (if bool_decide (head new = Some 47) then moved p (normalizePath p)
     else if bool_decide (head new = Some 63) then SetQueryString u (tail new)
     else if bool_decide (head new = Some 35) then SetHash u (tail new)
     else moved (AppendQuotedPath [] (path_of (removelast segs) ++ [47]) ++ p) (resolve segs p)).
Proof.
  intros Hok Hpath Hn Hctl Hidx Hne. destruct (split_target new) as [[p q] f] eqn:Es. unfold UpdateBytes.
  destruct (len new =? 0) eqn:E0; breflect; [by apply len_0_inv in E0|]. rewrite Hidx. cbn [Z.geb Z.compare].
  destruct (uo_scheme _ Hok) as (Hs1 & Hs2 & Hs3). pose proof (uo_host _ Hok) as Hh.
  destruct new as [|c new]; [done|]. cbn [head tail]. change (zdrop 1 (c :: new)) with new.
  case_bool_decide as E47.
  { injection E47 as ->. unfold appendSchemeHost. cbn [app]. rewrite <- !app_assoc. rewrite Parse_full; [by rewrite Es|done|done|done|].
    rewrite !no_ctl_app. repeat split; try done. apply Hh. }
  case_bool_decide as E63; [done|]. case_bool_decide as E35; [done|].
  pose proof Hn as (init & l & -> & Hi & Hl & _). rewrite Hpath, LastIndexByte_path by done. rewrite removelast_last.
  pose proof (len_nonneg (path_of init)). destruct (len (path_of init) <? 0) eqn:E; breflect; [lia|].
  rewrite path_of_last. change (47 :: l) with ([47] ++ l). rewrite app_assoc, (ztake_app_at _ (path_of init ++ [47])) by glen.
  pose proof (uo_octets _ Hok) as Hw. rewrite Hpath, path_of_last in Hw. apply Forall_app in Hw as [Hw _].
  assert (Hd : wf_bytes (path_of init ++ [47])) by (apply Forall_app; split; [done|by repeat constructor]).
  destruct (clean_all _ (quoted_path_clean _ Hd)) as (Hc1 & Hc2 & Hc3).
  assert (Hq : exists d, AppendQuotedPath [] (path_of init ++ [47]) = 47 :: d).
  { destruct init as [|s init]; [by eexists|]. rewrite path_of_cons. cbn [app]. apply quoted_slash. }
  assert (Ea : AppendQuotedPath (appendSchemeHost u []) (path_of init ++ [47]) =
    appendSchemeHost u [] ++ AppendQuotedPath [] (path_of init ++ [47])) by (unfold AppendQuotedPath; by case_if).
  rewrite Ea. unfold appendSchemeHost. cbn [app]. destruct Hq as [d Eq]. rewrite Eq in *. rewrite <- !app_assoc.
  rewrite <- (app_comm_cons d), Parse_full; [|done|done|done|].
  - rewrite app_comm_cons, split_target_prefix, Es by done. rewrite <- Eq, normalize_relative by done.
    unfold resolve. by rewrite removelast_last.
  - rewrite app_comm_cons, !no_ctl_app. repeat split; try done. apply Hh.
Qed.

(** ** On samples *)

Definition sample_uri : URI :=
  mkURI [] (str "https") (str "/a b/%2e?#") [] (str "top") (str "example.org:8080")
    (mkKVs [mkKV (str "k&") (str "v=1") false; mkKV (str "flag") [] true; mkKV (str "old") [] false] 2) true false [] [].

Ltac octet_list := repeat (apply Forall_cons_2; [split; done|]); apply Forall_nil_2.

(** Decides that an octet is not among those of a closed text. *)
Ltac absent := apply (bool_decide_eq_true_1 _); vm_compute; reflexivity.

Lemma sample_uri_ok : uri_ok sample_uri.
Proof.
  split.
  - done.
  - split; [|split; reflexivity]. split; [done|]. repeat (apply Forall_cons_2; [done|]). apply Forall_nil_2.
  - split; [absent|]. split; [absent|]. split; reflexivity.
  - exists (str "/a%20b//./x/../%252e%3F#"). vm_compute. reflexivity.
  - octet_list.
  - split; [done|absent].
  - split; [|unfold kvs_ok; cbn; lia]. repeat apply Forall_cons_2; [..|apply Forall_nil_2]; repeat split; try done; octet_list.
  - done.
Qed.

Lemma uri_roundtrip_witness :
  Parse newURI [] (FullURI sample_uri) =
  Ret (mkURI (AppendQuotedPath [] (Path sample_uri)) (str "https") (str "/a b/%2e?#") (str "k%26=v%3D1&flag") (str "top")
         (str "example.org:8080") (mkKVs [] 0) false false [] []).
Proof. exact (uri_roundtrip sample_uri newURI sample_uri_ok). Defined.

Lemma UpdateBytes_resolves_witness :
  UpdateBytes sample_uri (str "../x/./y?q#h") =
  Ret (mkURI (str "/a%20b/../x/./y") (str "https") (str "/x/y") (str "q") (str "h") (str "example.org:8080")
         (mkKVs (kv_store (queryArgs sample_uri)) 0) false false [] []).
Proof.
  pose proof (UpdateBytes_resolves sample_uri (str "../x/./y?q#h") [str "a b"; str "%2e?#"] sample_uri_ok eq_refl) as H.
  apply H; [|reflexivity|reflexivity|done].
  exists [str "a b"], (str "%2e?#"). split; [done|].
  split; [apply Forall_singleton; absent|]. split; [absent|]. split; [absent|]. split; [absent|]. split; [absent|]. done.
Defined.

Definition hosted : URI := mkURI (str "/") (str "http") (str "/") [] [] (str "h") (mkKVs [] 0) false false [] [].

(** What goes wrong: a scheme without ["//"] behind it makes Parse slice out of range; a
    reference with ["//"] in its query loses the host, one that starts with ["//"]
    too if no scheme was set; and a query string set after the arguments were parsed
    is not printed. *)
Theorem uri_defects :
  Parse newURI [] (str "a:") = Panic /\
  (exists u, UpdateBytes hosted (str "/login?next=http://x/") = Ret u /\ host u = []) /\
  (exists u, UpdateBytes newURI (str "//h/p") = Ret u /\ host u = [] /\ path u = str "/:/h/p") /\
  (exists u, parseQueryArgs (fun _ => 0%nat) (SetQueryString hosted (str "a=1")) = Ret u /\
             RequestURI (SetQueryString u (str "b=2")) = str "/?a=1").
Proof. repeat split; try (eexists; split; [vm_compute; reflexivity|]; vm_compute; auto). Qed.
