(* ===== verification/Dll.v ===== *)
(** * Doubly linked nodes

    The nodes of [pkg/basic/linked_hash_map.go], [pkg/basic/linked_list.go] and
    [pkg/cache/lru.go]: a heap of cells with a key, a value and two pointers,
    and the predicate that a list of addresses is chained by them.  A non-nil Go
    pointer designates a live node, here an address of the heap. *)

From S2P Require Import Prelude.

Section Dll.
Context {K V : Type}.

Record node := mkNode {
  key : K;
  value : V;
  prev : option nat;
  next : option nat
}.

Definition set_value (v : V) (nd : node) : node := mkNode (key nd) v (prev nd) (next nd).
Definition set_prev (p : option nat) (nd : node) : node := mkNode (key nd) (value nd) p (next nd).
Definition set_next (n : option nat) (nd : node) : node := mkNode (key nd) (value nd) (prev nd) n.

Abbreviation nodes := (list node).

(** [p->next = n] and [p->prev = n] when [p] is not nil. *)
Definition link_next (p n : option nat) (h : nodes) : nodes :=
  match p with Some a => alter (set_next n) a h | None => h end.
Definition link_prev (p n : option nat) (h : nodes) : nodes :=
  match p with Some a => alter (set_prev n) a h | None => h end.

(** ** Chains *)

(** The first address of a list, [n] if there is none; the last, [p] if none. *)
Definition first_of (xs : list nat) (n : option nat) : option nat :=
  match xs with [] => n | a :: _ => Some a end.
Fixpoint last_of (p : option nat) (xs : list nat) : option nat :=
  match xs with [] => p | a :: r => last_of (Some a) r end.

(** [xs] is chained between [p] and [n]. *)
Fixpoint chain (h : nodes) (p : option nat) (xs : list nat) (n : option nat) : Prop :=
  match xs with
  | [] => True
  | a :: r => exists nd, h !! a = Some nd /\ prev nd = p /\ next nd = first_of r n /\
                         chain h (Some a) r n
  end.

Lemma last_of_app p l r : last_of p (l ++ r) = last_of (last_of p l) r.
Proof. revert p. induction l as [|a l IH]; intros p; simpl; [done|apply IH]. Qed.

Lemma first_of_app l r n : first_of (l ++ r) n = first_of l (first_of r n).
Proof. by destruct l. Qed.

Lemma last_of_cons p a r : exists z, last_of p (a :: r) = Some z /\ z ∈ a :: r.
Proof.
  revert p a. induction r as [|b r IH]; intros p a; simpl; [exists a; set_solver|].
  destruct (IH (Some a) b) as (z & Hz & Hin). exists z. split; [exact Hz|set_solver].
Qed.

Lemma last_of_None xs : last_of None xs = None -> xs = [].
Proof.
  destruct xs as [|a r]; [done|]. destruct (last_of_cons None a r) as (z & -> & _). done.
Qed.

Lemma chain_app h p l r n :
  chain h p (l ++ r) n <-> chain h p l (first_of r n) /\ chain h (last_of p l) r n.
Proof.
  revert p. induction l as [|a l IH]; intros p; simpl; [tauto|].
  split.
  - intros (nd & Hl & Hp & Hn & Hc). apply IH in Hc as [H1 H2]. split; [|done].
    exists nd. rewrite first_of_app in Hn. done.
  - intros [(nd & Hl & Hp & Hn & Hc) H2]. exists nd. rewrite first_of_app.
    split_and!; try done. by apply IH.
Qed.

Lemma chain_frame h h' p xs n :
  (forall a, a ∈ xs -> h' !! a = h !! a) -> chain h p xs n -> chain h' p xs n.
Proof.
  revert p. induction xs as [|a xs IH]; intros p Hf; simpl; [done|].
  intros (nd & Hl & Hp & Hn & Hc). exists nd. rewrite Hf by set_solver. split_and!; try done.
  apply IH; [|done]. intros b Hb. apply Hf. set_solver.
Qed.

Lemma chain_live h p xs n a : chain h p xs n -> a ∈ xs -> is_Some (h !! a).
Proof.
  revert p. induction xs as [|b xs IH]; intros p; simpl; [set_solver|].
  intros (nd & Hl & _ & _ & Hc) [->|Hin]%elem_of_cons; eauto.
Qed.

(** Linking the last node of a chain to another successor. *)
Lemma chain_link_next h p xs n n' :
  NoDup xs -> chain h p xs n -> match p with Some b => b ∉ xs | None => True end ->
  chain (link_next (last_of None xs) n' h) p xs n'.
Proof.
  intros Hnd Hc _. destruct xs as [|a xs]; [done|].
  destruct (@exists_last _ (a :: xs)) as (l & z & E); [done|]. rewrite E in *.
  rewrite last_of_app. simpl. apply chain_app in Hc as [H1 H2]. apply chain_app.
  apply NoDup_app in Hnd as (_ & Hd & _). split.
  - eapply chain_frame; [|exact H1]. intros b Hb. apply list_lookup_alter_ne.
    intros ->. apply (Hd b Hb). set_solver.
  - simpl in H2. destruct H2 as (nd & Hl & Hp & Hn & _). simpl.
    exists (set_next n' nd). by rewrite list_lookup_alter_eq, Hl.
Qed.

(** Linking the first node of a chain to another predecessor. *)
Lemma chain_link_prev h p xs n p' :
  NoDup xs -> chain h p xs n -> chain (link_prev (first_of xs None) p' h) p' xs n.
Proof.
  intros Hnd Hc. destruct xs as [|a xs]; [done|]. simpl in *.
  destruct Hc as (nd & Hl & Hp & Hn & Hc). apply NoDup_cons in Hnd as [Ha _].
  exists (set_prev p' nd). rewrite list_lookup_alter_eq, Hl. split_and!; try done.
  eapply chain_frame; [|exact Hc]. intros b Hb. apply list_lookup_alter_ne. congruence.
Qed.

Lemma link_next_frame h p n a : Some a <> p -> link_next p n h !! a = h !! a.
Proof. destruct p as [b|]; [|done]. intros Hne. apply list_lookup_alter_ne. congruence. Qed.

Lemma link_prev_frame h p n a : Some a <> p -> link_prev p n h !! a = h !! a.
Proof. destruct p as [b|]; [|done]. intros Hne. apply list_lookup_alter_ne. congruence. Qed.

(** ** Contents *)

Definition kv (nd : node) : K * V := (key nd, value nd).

(** Heaps that differ in their links only. *)
Definition same_kv (h h' : nodes) : Prop := forall a, kv <$> h' !! a = kv <$> h !! a.

Lemma same_kv_refl h : same_kv h h.
Proof. done. Qed.

Lemma same_kv_trans h1 h2 h3 : same_kv h1 h2 -> same_kv h2 h3 -> same_kv h1 h3.
Proof. intros H12 H23 a. by rewrite H23, H12. Qed.

Lemma same_kv_link_next h p n : same_kv h (link_next p n h).
Proof.
  intros a. destruct p as [b|]; [|done]. simpl. destruct (decide (a = b)) as [->|].
  - rewrite list_lookup_alter_eq. by destruct (h !! b).
  - by rewrite list_lookup_alter_ne.
Qed.

Lemma same_kv_link_prev h p n : same_kv h (link_prev p n h).
Proof.
  intros a. destruct p as [b|]; [|done]. simpl. destruct (decide (a = b)) as [->|].
  - rewrite list_lookup_alter_eq. by destruct (h !! b).
  - by rewrite list_lookup_alter_ne.
Qed.

(** The keys and values of a list of addresses. *)
Fixpoint items (h : nodes) (xs : list nat) : list (K * V) :=
  match xs with
  | [] => []
  | a :: r => match h !! a with Some nd => kv nd :: items h r | None => items h r end
  end.

Lemma items_same_kv h h' xs : same_kv h h' -> items h' xs = items h xs.
Proof.
  intros Hs. induction xs as [|a xs IH]; simpl; [done|]. specialize (Hs a).
  destruct (h' !! a) as [nd'|], (h !! a) as [nd|]; simpl in Hs; congruence.
Qed.

Lemma items_app h l r : items h (l ++ r) = items h l ++ items h r.
Proof. induction l as [|a l IH]; simpl; [done|]. rewrite IH. by destruct (h !! a). Qed.

Lemma items_frame h h' xs : (forall a, a ∈ xs -> h' !! a = h !! a) -> items h' xs = items h xs.
Proof.
  induction xs as [|a xs IH]; intros Hf; simpl; [done|].
  rewrite Hf, IH by set_solver. done.
Qed.

Lemma items_cons h a nd r : h !! a = Some nd -> items h (a :: r) = kv nd :: items h r.
Proof. intros Hl. simpl. by rewrite Hl. Qed.

Lemma items_elem h xs k v :
  (k, v) ∈ items h xs <-> exists a nd, a ∈ xs /\ h !! a = Some nd /\ kv nd = (k, v).
Proof.
  induction xs as [|b xs IH]; simpl; [set_solver|].
  destruct (h !! b) as [nb|] eqn:Hb; rewrite ?elem_of_cons, IH; split.
  - intros [E|(a & nd & Ha & Hl & E)]; [exists b, nb; set_solver | exists a, nd; set_solver].
  - intros (a & nd & [->|Ha]%elem_of_cons & Hl & E); [left; congruence | right; eauto].
  - intros (a & nd & Ha & Hl & E). exists a, nd. set_solver.
  - intros (a & nd & [->|Ha]%elem_of_cons & Hl & E); [congruence | eauto].
Qed.

(** Taking node [a] out between its neighbours:
    [a.prev.next = a.next; a.next.prev = a.prev], where they are not nil. *)
Definition unlink (h : nodes) (pa na : option nat) : nodes :=
  link_prev na pa (link_next pa na h).

Lemma unlink_chain h l a r :
  NoDup (l ++ a :: r) -> chain h None (l ++ a :: r) None ->
  exists nd, h !! a = Some nd /\ prev nd = last_of None l /\ next nd = first_of r None /\
    let h' := unlink h (last_of None l) (first_of r None) in
    chain h' None (l ++ r) None /\ same_kv h h' /\ h' !! a = Some nd /\
    forall b, b ∉ l ++ r -> h' !! b = h !! b.
Proof.
  intros Hnd Hc. apply NoDup_app in Hnd as (Hl & Hdisj & Hr). apply NoDup_cons in Hr as [Har Hr].
  apply chain_app in Hc as [H1 H2]. simpl in H2. destruct H2 as (nd & Hla & Hp & Hn & H2).
  exists nd. split; [done|]. split; [done|]. split; [done|]. cbv zeta. unfold unlink.
  assert (Hin : forall b, Some b = last_of None l -> b ∈ l).
  { intros b Hb. destruct l as [|x l]; [done|]. destruct (last_of_cons None x l) as (z & Hz & ?).
    rewrite Hz in Hb. congruence. }
  assert (Hfst : forall b, Some b = first_of r None -> b ∈ r).
  { intros b. destruct r; [done|]. intros [= ->]. set_solver. }
  assert (Hframe : forall b, b ∉ l ++ r ->
    link_prev (first_of r None) (last_of None l) (link_next (last_of None l) (first_of r None) h) !! b
    = h !! b).
  { intros b Hb. rewrite link_prev_frame, link_next_frame; [done| |].
    - intros Hx%Hin. apply Hb. set_solver.
    - intros Hx%Hfst. apply Hb. set_solver. }
  split; [|split; [|split]].
  - apply chain_app. split.
    + eapply chain_frame; [|apply (chain_link_next h None l (first_of (a :: r) None)); done].
      intros b Hb. apply link_prev_frame. intros Hx%Hfst. apply (Hdisj b Hb). set_solver.
    + apply (chain_link_prev _ (Some a)); [done|]. eapply chain_frame; [|exact H2].
      intros b Hb. apply link_next_frame. intros Hx%Hin. apply (Hdisj b Hx). set_solver.
  - eapply same_kv_trans; [apply same_kv_link_next|apply same_kv_link_prev].
  - rewrite Hframe; [done|]. intros [Hx|Hx]%elem_of_app; [|done]. apply (Hdisj a Hx). set_solver.
  - done.
Qed.

(** Putting an unlinked node in front of a chain:
    [a.prev = nil; a.next = head; head.prev = a]. *)
Definition push_front (h : nodes) (a : nat) (head : option nat) : nodes :=
  link_prev head (Some a) (alter (set_next head) a (alter (set_prev None) a h)).

Lemma push_front_chain h a xs :
  NoDup xs -> a ∉ xs -> is_Some (h !! a) -> chain h None xs None ->
  let h' := push_front h a (first_of xs None) in
  chain h' None (a :: xs) None /\ same_kv h h'.
Proof.
  intros Hnd Ha [nd Hl] Hc. cbv zeta. unfold push_front.
  set (h1 := alter (set_next (first_of xs None)) a (alter (set_prev None) a h)).
  assert (Hl1 : h1 !! a = Some (set_next (first_of xs None) (set_prev None nd))).
  { subst h1. by rewrite !list_lookup_alter_eq, Hl. }
  assert (Hf1 : forall b, b <> a -> h1 !! b = h !! b).
  { intros b Hb. subst h1. by rewrite !list_lookup_alter_ne. }
  split.
  - simpl. exists (set_next (first_of xs None) (set_prev None nd)).
    split; [|split; [done|split; [done|]]].
    + rewrite link_prev_frame; [done|]. destruct xs as [|b xs]; [done|]. simpl. intros [= ->].
      set_solver.
    + apply (chain_link_prev _ None); [done|]. eapply chain_frame; [|exact Hc].
      intros b Hb. apply Hf1. congruence.
  - eapply same_kv_trans; [|apply same_kv_link_prev]. intros b. subst h1.
    destruct (decide (b = a)) as [->|]; [by rewrite !list_lookup_alter_eq, Hl|].
    by rewrite !list_lookup_alter_ne.
Qed.

End Dll.

Arguments node : clear implicits.
Abbreviation nodes K V := (list (node K V)).
