(* ===== verification/LinkedHashMap.v ===== *)
(** * LinkedHashMap

    [pkg/basic/linked_hash_map.go]: a map whose keys stay in insertion order,
    made of a Go map to nodes and a doubly linked list of the nodes.  It is
    refined to an association list, and the class [OrderedMap] states what its
    clients ([pkg/cache/lfu.go]) may rely on. *)

From S2P Require Import Prelude Dll.

(** ** The promise: an association list *)

Section Assoc.
Context {K V : Type} `{EqDecision K}.
Implicit Types al : list (K * V).

Fixpoint al_get (k : K) al : option V :=
  match al with
  | [] => None
  | (k', v) :: t => if decide (k = k') then Some v else al_get k t
  end.

(** An existing key keeps its place; a new one goes to the end. *)
Fixpoint al_put (k : K) (v : V) al : list (K * V) :=
  match al with
  | [] => [(k, v)]
  | (k', v') :: t => if decide (k = k') then (k', v) :: t else (k', v') :: al_put k v t
  end.

Definition al_remove (k : K) al : list (K * V) := filter (fun p => fst p <> k) al.

Definition al_front (k : K) al : list (K * V) :=
  match al_get k al with
  | Some v => (k, v) :: al_remove k al
  | None => al
  end.

Lemma al_get_None k al : al_get k al = None <-> k ∉ map fst al.
Proof.
  induction al as [|[k' v] al IH]; simpl; [set_solver|]. case_decide as Hk.
  - subst. split; [done|set_solver].
  - rewrite IH. set_solver.
Qed.

Lemma al_get_Some k v al :
  NoDup (map fst al) -> al_get k al = Some v <-> (k, v) ∈ al.
Proof.
  induction al as [|[k' v'] al IH]; simpl; [set_solver|]. intros [Hn Hnd]%NoDup_cons.
  case_decide as Hk.
  - subst. split; [intros [= ->]; set_solver|]. intros [[= ->]|Hin]%elem_of_cons; [done|].
    exfalso. apply Hn. change k' with (fst (k', v)). by apply list_elem_of_fmap_2.
  - rewrite IH by done. set_solver.
Qed.

Lemma al_remove_absent k al : k ∉ map fst al -> al_remove k al = al.
Proof.
  unfold al_remove. induction al as [|[k' v'] al IH]; simpl; [done|]. intros Hn.
  rewrite filter_cons_True by (simpl; set_solver). by rewrite IH by set_solver.
Qed.

Lemma al_split k v l r :
  NoDup (map fst (l ++ (k, v) :: r)) ->
  al_get k (l ++ (k, v) :: r) = Some v /\
  (forall v', al_put k v' (l ++ (k, v) :: r) = l ++ (k, v') :: r) /\
  al_remove k (l ++ (k, v) :: r) = l ++ r.
Proof.
  induction l as [|[k' v'] l IH]; simpl; intros [Hn Hnd]%NoDup_cons.
  - rewrite decide_True by done. split_and!; try done.
    { intros v'. by rewrite decide_True. }
    unfold al_remove. rewrite filter_cons_False by (simpl; tauto). by apply al_remove_absent.
  - assert (Hk : k <> k').
    { intros ->. apply Hn. rewrite map_app. simpl. set_solver. }
    rewrite decide_False by done. destruct (IH Hnd) as (H1 & H2 & H3). split_and!; [done| |].
    + intros v2. rewrite decide_False by done. by rewrite H2.
    + unfold al_remove in *. rewrite filter_cons_True by (simpl; congruence). by rewrite H3.
Qed.

Lemma al_put_new k v al : k ∉ map fst al -> al_put k v al = al ++ [(k, v)].
Proof.
  induction al as [|[k' v'] al IH]; simpl; [done|]. intros Hn.
  rewrite decide_False by set_solver. rewrite IH by set_solver. done.
Qed.
End Assoc.

Class OrderedMap (K V : Type) `{EqDecision K} := {
  om : Type;
  om_rep : om -> list (K * V) -> Prop;
  om_new : om;
  om_Put : om -> K -> V -> om;
  om_Get : om -> K -> option V;
  om_Remove : om -> K -> om;
  om_RemoveFirst : om -> om * K;
  om_RemoveLast : om -> om * K;
  om_MoveToHead : om -> K -> om;
  om_Size : om -> Z;

  om_keys m al : om_rep m al -> NoDup (map fst al);
  om_new_rep : om_rep om_new [];
  om_Put_rep m al k v : om_rep m al -> om_rep (om_Put m k v) (al_put k v al);
  om_Get_rep m al k : om_rep m al -> om_Get m k = al_get k al;
  om_Remove_rep m al k : om_rep m al -> om_rep (om_Remove m k) (al_remove k al);
  om_RemoveFirst_rep m k v al :
    om_rep m ((k, v) :: al) -> exists m', om_RemoveFirst m = (m', k) /\ om_rep m' al;
  om_RemoveLast_rep m k v al :
    om_rep m (al ++ [(k, v)]) -> exists m', om_RemoveLast m = (m', k) /\ om_rep m' al;
  om_MoveToHead_rep m al k : om_rep m al -> om_rep (om_MoveToHead m k) (al_front k al);
  om_Size_rep m al : om_rep m al -> om_Size m = len al
}.

(** ** The implementation *)

Section LinkedHashMap.
Context {K V : Type} `{Countable K} (zeroK : K).

Record LinkedHashMap := mkLHM {
  itemMap : gmap K nat;
  head : option nat;
  tail : option nat;
  heap : nodes K V
}.

Definition NewLinkHashMap : LinkedHashMap := mkLHM ∅ None None [].

Definition Put (m : LinkedHashMap) (k : K) (v : V) : LinkedHashMap :=
  match itemMap m !! k with
  | Some n => mkLHM (itemMap m) (head m) (tail m) (alter (set_value v) n (heap m))
  | None =>
      let n := length (heap m) in
      let h := heap m ++ [mkNode k v None None] in
      let im := <[k := n]> (itemMap m) in
      match tail m with
      | None => mkLHM im (Some n) (Some n) h
      | Some t =>
          let h := alter (set_next (Some n)) t h in
          let h := alter (set_prev (Some t)) n h in
          mkLHM im (head m) (Some n) h
      end
  end.

(** [None] is [(zeroT, false)]. *)
Definition Get (m : LinkedHashMap) (k : K) : option V :=
  match itemMap m !! k with
  | Some n => value <$> heap m !! n
  | None => None
  end.

(** The first statements of Remove and moveToHead: the neighbours of [n] are
    linked with each other, or head and tail moved. *)
Definition cut (m : LinkedHashMap) (n : nat) : LinkedHashMap :=
  match heap m !! n with
  | None => m
  | Some nd =>
      let hd := match prev nd with Some _ => head m | None => next nd end in
      let h := link_next (prev nd) (next nd) (heap m) in
      match h !! n with
      | None => m
      | Some nd =>
          let tl := match next nd with Some _ => tail m | None => prev nd end in
          mkLHM (itemMap m) hd tl (link_prev (next nd) (prev nd) h)
      end
  end.

Definition Remove (m : LinkedHashMap) (k : K) : LinkedHashMap :=
  match itemMap m !! k with
  | None => m
  | Some n =>
      let m := cut m n in
      mkLHM (delete k (itemMap m)) (head m) (tail m) (heap m)
  end.

(** The new map and the key removed. *)
Definition RemoveFirst (m : LinkedHashMap) : LinkedHashMap * K :=
  match head m with
  | None => (m, zeroK)
  | Some n => let k := from_option key zeroK (heap m !! n) in (Remove m k, k)
  end.

Definition RemoveLast (m : LinkedHashMap) : LinkedHashMap * K :=
  match tail m with
  | None => (m, zeroK)
  | Some n => let k := from_option key zeroK (heap m !! n) in (Remove m k, k)
  end.

Definition Size (m : LinkedHashMap) : Z := Z.of_nat (size (itemMap m)).

Definition Contains (m : LinkedHashMap) (k : K) : bool := bool_decide (is_Some (itemMap m !! k)).

(** The loops of Keys and Values; a list cannot be longer than the heap. *)
Fixpoint walk (fuel : nat) (h : nodes K V) (p : option nat) : outcome (list (node K V)) :=
  match fuel with
  | O => OutOfFuel
  | S fuel =>
      match p with
      | None => Ret []
      | Some a => run nd <- deref (h !! a); run r <- walk fuel h (next nd); Ret (nd :: r)
      end
  end.

Definition Keys (m : LinkedHashMap) : outcome (list K) :=
  run l <- walk (S (length (heap m))) (heap m) (head m); Ret (map key l).
Definition Values (m : LinkedHashMap) : outcome (list V) :=
  run l <- walk (S (length (heap m))) (heap m) (head m); Ret (map value l).

(** moveToHead. *)
Definition moveToHead (m : LinkedHashMap) (n : nat) : LinkedHashMap :=
  let m := cut m n in
  let h := alter (set_prev None) n (heap m) in
  let h := alter (set_next (head m)) n h in
  let h := link_prev (head m) (Some n) h in
  mkLHM (itemMap m) (Some n) (match tail m with None => Some n | t => t end) h.

Definition MoveToHead (m : LinkedHashMap) (k : K) : LinkedHashMap :=
  match itemMap m !! k with
  | None => m
  | Some n => if decide (Some n = head m) then m else moveToHead m n
  end.

(** ** Refinement *)

(** The nodes of the map, in order, hold the entries of [al]. *)
Record lhm_at (m : LinkedHashMap) (xs : list nat) (al : list (K * V)) : Prop := {
  at_nodup : NoDup xs;
  at_chain : chain (heap m) None xs None;
  at_head : head m = first_of xs None;
  at_tail : tail m = last_of None xs;
  at_items : items (heap m) xs = al;
  at_keys : NoDup (map fst al);
  at_map : forall k a, itemMap m !! k = Some a <-> a ∈ xs /\ key <$> heap m !! a = Some k
}.

Definition lhm_rep (m : LinkedHashMap) (al : list (K * V)) : Prop := exists xs, lhm_at m xs al.

Lemma at_entry m xs al k a :
  lhm_at m xs al -> itemMap m !! k = Some a ->
  exists l r v nd, xs = l ++ a :: r /\ heap m !! a = Some nd /\ kv nd = (k, v) /\
    al = items (heap m) l ++ (k, v) :: items (heap m) r.
Proof.
  intros Hat Hk. apply (at_map _ _ _ Hat) in Hk as [Ha Hkey].
  destruct (heap m !! a) as [nd|] eqn:Hl; [|done]. injection Hkey as Hkey.
  apply list_elem_of_split in Ha as (l & r & ->). exists l, r, (value nd), nd.
  split_and!; try done; [by unfold kv; rewrite Hkey|].
  rewrite <- (at_items _ _ _ Hat), items_app, (items_cons _ _ _ _ Hl).
  unfold kv. by rewrite Hkey.
Qed.

Lemma at_absent m xs al k : lhm_at m xs al -> itemMap m !! k = None -> k ∉ map fst al.
Proof.
  intros Hat Hk Hin. apply list_elem_of_fmap in Hin as ([k' v] & -> & Hin). simpl in *.
  rewrite <- (at_items _ _ _ Hat) in Hin. apply items_elem in Hin as (a & nd & Ha & Hl & E).
  assert (itemMap m !! k' = Some a); [|congruence].
  apply (at_map _ _ _ Hat). split; [done|]. rewrite Hl. unfold kv in E. simpl. congruence.
Qed.

Lemma same_kv_key (h h' : nodes K V) a : same_kv h h' -> key <$> h' !! a = key <$> h !! a.
Proof.
  intros Hs. specialize (Hs a). unfold kv in Hs.
  destruct (h' !! a), (h !! a); simpl in *; congruence.
Qed.

(** Cutting a node out leaves the others chained, between the right ends. *)
Lemma cut_ok m l a r al :
  lhm_at m (l ++ a :: r) al ->
  chain (heap (cut m a)) None (l ++ r) None /\ same_kv (heap m) (heap (cut m a)) /\
  itemMap (cut m a) = itemMap m /\
  head (cut m a) = first_of (l ++ r) None /\ tail (cut m a) = last_of None (l ++ r).
Proof.
  intros Hat. pose proof (at_nodup _ _ _ Hat) as Hnd.
  destruct (unlink_chain _ _ _ _ Hnd (at_chain _ _ _ Hat))
    as (nd & Hl & Hp & Hn & Hc & Hs & Ha' & _).
  unfold cut. rewrite Hl, Hp, Hn.
  assert (Hl1 : link_next (last_of None l) (first_of r None) (heap m) !! a = Some nd).
  { rewrite link_next_frame; [done|]. intros E. apply NoDup_app in Hnd as (_ & Hd & _).
    destruct l as [|x l]; [done|]. destruct (last_of_cons None x l) as (z & Hz & Hin).
    rewrite Hz in E. injection E as <-. apply (Hd a Hin). set_solver. }
  rewrite Hl1, Hp, Hn. cbn [heap itemMap head tail]. split_and!; try done.
  - rewrite (at_head _ _ _ Hat). destruct l as [|x l]; [done|].
    destruct (last_of_cons None x l) as (z & -> & _). done.
  - rewrite (at_tail _ _ _ Hat), last_of_app, last_of_app. simpl.
    destruct r as [|y r]; [done|]. simpl. done.
Qed.

Lemma NoDup_fst_remove (l r : list (K * V)) k v :
  NoDup (map fst (l ++ (k, v) :: r)) -> NoDup (map fst (l ++ r)).
Proof.
  rewrite !map_app. simpl. intros (Hl & Hd & Hr)%NoDup_app. apply NoDup_cons in Hr as [_ Hr].
  apply NoDup_app. split_and!; try done. intros x Hx Hx'. apply (Hd x Hx). set_solver.
Qed.

Lemma Remove_rep m al k : lhm_rep m al -> lhm_rep (Remove m k) (al_remove k al).
Proof.
  intros [xs Hat]. unfold Remove. destruct (itemMap m !! k) as [a|] eqn:Hk.
  2: { rewrite al_remove_absent by (by eapply at_absent). by exists xs. }
  destruct (at_entry _ _ _ _ _ Hat Hk) as (l & r & v & nd & -> & Hl & Hkv & ->).
  destruct (cut_ok _ _ _ _ _ Hat) as (Hc & Hs & Him & Hh & Ht).
  pose proof (at_keys _ _ _ Hat) as Hkeys.
  destruct (al_split k v (items (heap m) l) (items (heap m) r) Hkeys) as (_ & _ & ->).
  exists (l ++ r). pose proof (at_nodup _ _ _ Hat) as Hnd. apply NoDup_app in Hnd as (Hnl & Hd & Hnr).
  apply NoDup_cons in Hnr as [Har Hnr]. split; cbn [heap head tail itemMap]; try done.
  - apply NoDup_app. split_and!; try done. intros x Hx Hx'. apply (Hd x Hx). set_solver.
  - by rewrite (items_same_kv _ _ _ Hs), items_app.
  - by eapply NoDup_fst_remove.
  - intros k' b. rewrite Him, lookup_delete_Some, (same_kv_key _ _ _ Hs), (at_map _ _ _ Hat).
    assert (Hak : itemMap m !! k = Some a) by done.
    split.
    + intros (Hne & Hb & Hbk). split; [|done]. apply elem_of_app in Hb as [Hb|Hb]; [set_solver|].
      apply elem_of_cons in Hb as [->|Hb]; [|set_solver]. rewrite Hl in Hbk. unfold kv in Hkv.
      simpl in Hbk. congruence.
    + intros [Hb Hbk]. split_and!; [|set_solver|done]. intros ->.
      assert (itemMap m !! k' = Some b) by (apply (at_map _ _ _ Hat); set_solver).
      assert (b = a) as -> by congruence. apply elem_of_app in Hb as [Hb|Hb]; [|done].
      apply (Hd a Hb). set_solver.
Qed.

Lemma Get_rep m al k : lhm_rep m al -> Get m k = al_get k al.
Proof.
  intros [xs Hat]. unfold Get. destruct (itemMap m !! k) as [a|] eqn:Hk.
  - destruct (at_entry _ _ _ _ _ Hat Hk) as (l & r & v & nd & -> & Hl & Hkv & ->).
    destruct (al_split k v (items (heap m) l) (items (heap m) r) (at_keys _ _ _ Hat)) as (-> & _).
    rewrite Hl. unfold kv in Hkv. simpl. congruence.
  - symmetry. apply al_get_None. by eapply at_absent.
Qed.

Lemma RemoveFirst_rep m k v al :
  lhm_rep m ((k, v) :: al) -> exists m', RemoveFirst m = (m', k) /\ lhm_rep m' al.
Proof.
  intros [xs Hat]. unfold RemoveFirst. rewrite (at_head _ _ _ Hat).
  pose proof (at_items _ _ _ Hat) as Hi. pose proof (at_chain _ _ _ Hat) as Hc.
  destruct xs as [|a xs]; [done|]. simpl in *. destruct Hc as (nd & Hl & _).
  rewrite Hl in *. injection Hi as Hk Hv Hi. simpl. rewrite Hk. eexists. split; [done|].
  replace al with (al_remove k ((k, v) :: al)).
  - apply Remove_rep. by exists (a :: xs).
  - by destruct (al_split k v [] al (at_keys _ _ _ Hat)) as (_ & _ & E).
Qed.

Lemma RemoveLast_rep m k v al :
  lhm_rep m (al ++ [(k, v)]) -> exists m', RemoveLast m = (m', k) /\ lhm_rep m' al.
Proof.
  intros [xs Hat]. unfold RemoveLast. rewrite (at_tail _ _ _ Hat).
  pose proof (at_items _ _ _ Hat) as Hi. pose proof (at_chain _ _ _ Hat) as Hc.
  destruct xs as [|x xs]; [by destruct al|].
  destruct (@exists_last _ (x :: xs)) as (l & a & E); [done|]. rewrite E in *.
  rewrite last_of_app. simpl. apply chain_app in Hc as [_ Hc]. simpl in Hc.
  destruct Hc as (nd & Hl & _). rewrite items_app, (items_cons _ _ _ _ Hl) in Hi. simpl in Hi.
  apply app_inj_tail in Hi as [Hi Hkv]. unfold kv in Hkv. injection Hkv as Hk Hv.
  rewrite Hl. simpl. rewrite Hk. eexists. split; [done|].
  replace al with (al_remove k (al ++ [(k, v)])).
  - apply Remove_rep. by exists (l ++ [a]).
  - destruct (al_split k v al [] (at_keys _ _ _ Hat)) as (_ & _ & ->). apply app_nil_r.
Qed.

Lemma MoveToHead_rep m al k : lhm_rep m al -> lhm_rep (MoveToHead m k) (al_front k al).
Proof.
  intros [xs Hat]. unfold MoveToHead. destruct (itemMap m !! k) as [a|] eqn:Hk.
  2: { unfold al_front. apply at_absent with (xs := xs) (al := al) in Hk; [|done].
       apply al_get_None in Hk. rewrite Hk. by exists xs. }
  destruct (at_entry _ _ _ _ _ Hat Hk) as (l & r & v & nd & -> & Hl & Hkv & ->).
  pose proof (at_keys _ _ _ Hat) as Hkeys.
  destruct (al_split k v (items (heap m) l) (items (heap m) r) Hkeys) as (Hget & _ & Hrem).
  unfold al_front. rewrite Hget, Hrem. case_decide as Hhd.
  { rewrite (at_head _ _ _ Hat) in Hhd. destruct l as [|x l]; [by exists (a :: r)|].
    exfalso. simpl in Hhd. injection Hhd as ->. pose proof (at_nodup _ _ _ Hat) as Hnd.
    simpl in Hnd. apply NoDup_cons in Hnd as [Hx _]. set_solver. }
  destruct (cut_ok _ _ _ _ _ Hat) as (Hc & Hs & Him & Hh & Ht).
  pose proof (at_nodup _ _ _ Hat) as Hnd. apply NoDup_app in Hnd as (Hnl & Hd & Hnr).
  apply NoDup_cons in Hnr as [Har Hnr].
  assert (Hndr : NoDup (l ++ r)).
  { apply NoDup_app. split_and!; try done. intros x Hx Hx'. apply (Hd x Hx). set_solver. }
  assert (Ha : a ∉ l ++ r).
  { intros [Hx|Hx]%elem_of_app; [|done]. apply (Hd a Hx). set_solver. }
  assert (Hlive : is_Some (heap (cut m a) !! a)).
  { specialize (Hs a). rewrite Hl in Hs. by destruct (heap (cut m a) !! a). }
  destruct (push_front_chain _ _ _ Hndr Ha Hlive Hc) as [Hc' Hs'].
  pose proof (same_kv_trans _ _ _ Hs Hs') as Hs2.
  exists (a :: l ++ r). unfold moveToHead. rewrite Hh. split; cbn [heap head tail itemMap].
  - by constructor.
  - exact Hc'.
  - done.
  - rewrite Ht. simpl. destruct (l ++ r) as [|y q] eqn:E; [done|]. simpl.
    destruct (last_of_cons (Some y) y q) as (z & Hz & _). simpl in Hz. by rewrite Hz.
  - etrans; [apply (items_same_kv _ _ _ Hs2)|].
    by rewrite (items_cons _ _ _ _ Hl), Hkv, items_app.
  - simpl. apply NoDup_cons. split; [|by eapply NoDup_fst_remove].
    rewrite !map_app in *. simpl in Hkeys. apply NoDup_app in Hkeys as (_ & Hd2 & Hn2).
    apply NoDup_cons in Hn2 as [Hn2 _]. intros [Hx|Hx]%elem_of_app; [|done].
    apply (Hd2 k Hx). set_solver.
  - intros k' b. rewrite Him.
    change (link_prev _ _ _) with (push_front (heap (cut m a)) a (first_of (l ++ r) None)).
    rewrite (same_kv_key _ _ _ Hs2), (at_map _ _ _ Hat). set_solver.
Qed.

Lemma items_value_update (h : nodes K V) l a r nd v :
  NoDup (l ++ a :: r) -> h !! a = Some nd ->
  items (alter (set_value v) a h) (l ++ a :: r) = items h l ++ (key nd, v) :: items h r.
Proof.
  intros (_ & Hd & Hr)%NoDup_app Hl. apply NoDup_cons in Hr as [Har _].
  assert (Hf : forall b, b <> a -> alter (set_value v) a h !! b = h !! b)
    by (intros b Hb; by rewrite list_lookup_alter_ne).
  rewrite items_app, (items_cons _ a (set_value v nd)) by (by rewrite list_lookup_alter_eq, Hl).
  f_equal; [|f_equal]; apply items_frame; intros b Hb; apply Hf; intros ->.
  - apply (Hd a Hb). set_solver.
  - done.
Qed.

Lemma chain_set_value (h : nodes K V) v a p xs n :
  chain h p xs n -> chain (alter (set_value v) a h) p xs n.
Proof.
  revert p. induction xs as [|b xs IH]; intros p; simpl; [done|].
  intros (nd & Hl & Hp & Hn & Hc). destruct (decide (b = a)) as [->|Hne].
  - exists (set_value v nd). rewrite list_lookup_alter_eq, Hl. split_and!; auto.
  - exists nd. rewrite list_lookup_alter_ne by done. split_and!; auto.
Qed.

(** Put on a key that is present. *)
Lemma Put_update_rep m xs l r a nd k v0 v :
  lhm_at m xs (items (heap m) l ++ (k, v0) :: items (heap m) r) -> xs = l ++ a :: r ->
  heap m !! a = Some nd -> kv nd = (k, v0) ->
  lhm_rep (mkLHM (itemMap m) (head m) (tail m) (alter (set_value v) a (heap m)))
    (items (heap m) l ++ (k, v) :: items (heap m) r).
Proof.
  intros Hat -> Hl Hkv. unfold kv in Hkv. injection Hkv as Hk Hv.
  exists (l ++ a :: r). split; cbn [heap head tail itemMap]; try by destruct Hat.
  - apply chain_set_value, (at_chain _ _ _ Hat).
  - rewrite (items_value_update _ _ _ _ nd) by (done || apply (at_nodup _ _ _ Hat)). by rewrite Hk.
  - pose proof (at_keys _ _ _ Hat) as Hkeys. rewrite map_app in *. done.
  - intros k' b. rewrite (at_map _ _ _ Hat).
    destruct (decide (b = a)) as [->|]; [|by rewrite list_lookup_alter_ne].
    by rewrite list_lookup_alter_eq, Hl.
Qed.

(** A node appended at the end of the list. *)
Lemma append_chain (h : nodes K V) k v xs :
  NoDup xs -> chain h None xs None -> length h ∉ xs ->
  let n := length h in
  let h0 := h ++ [mkNode k v None None] in
  let h' := match last_of None xs with
            | None => h0
            | Some t => alter (set_prev (Some t)) n (alter (set_next (Some n)) t h0)
            end in
  chain h' None (xs ++ [n]) None /\ items h' (xs ++ [n]) = items h xs ++ [(k, v)] /\
  forall a, key <$> h' !! a = key <$> h0 !! a.
Proof.
  intros Hnd Hc Hn n h0 h'.
  assert (Hframe : forall b, b ∈ xs -> h0 !! b = h !! b).
  { intros b Hb. destruct (chain_live _ _ _ _ _ Hc Hb) as [nd Hl]. rewrite Hl.
    by apply lookup_app_l_Some. }
  assert (Hc0 : chain h0 None xs None) by (by eapply chain_frame).
  assert (Hl0 : h0 !! n = Some (mkNode k v None None)) by (by apply list_lookup_middle).
  destruct (last_of None xs) as [t|] eqn:Et; subst h'.
  2: { apply last_of_None in Et as ->. simpl. rewrite Hl0. split; [eauto|]. done. }
  assert (Ht : t ∈ xs).
  { destruct xs as [|x xs]; [done|]. destruct (last_of_cons None x xs) as (z & Hz & ?).
    rewrite Hz in Et. congruence. }
  assert (Htn : t <> n) by (intros ->; done).
  change (alter (set_next (Some n)) t h0) with (link_next (Some t) (Some n) h0).
  change (alter (set_prev (Some t)) n (link_next (Some t) (Some n) h0))
    with (link_prev (Some n) (Some t) (link_next (Some t) (Some n) h0)).
  assert (Hs : same_kv h0 (link_prev (Some n) (Some t) (link_next (Some t) (Some n) h0))).
  { eapply same_kv_trans; [apply same_kv_link_next|apply same_kv_link_prev]. }
  split; [|split].
  - apply chain_app. rewrite Et. split.
    + pose proof (chain_link_next h0 None xs None (Some n) Hnd Hc0 I) as Hcn. rewrite Et in Hcn.
      eapply chain_frame; [|exact Hcn]. intros b Hb. apply link_prev_frame. intros [= ->]. done.
    + simpl. eexists. rewrite list_lookup_alter_eq, list_lookup_alter_ne, Hl0 by done. done.
  - rewrite (items_same_kv _ _ _ Hs), items_app, (items_cons _ _ _ _ Hl0). simpl.
    by rewrite (items_frame h h0).
  - intros a. by apply same_kv_key.
Qed.

Lemma Put_rep m al k v : lhm_rep m al -> lhm_rep (Put m k v) (al_put k v al).
Proof.
  intros [xs Hat]. unfold Put. destruct (itemMap m !! k) as [a|] eqn:Hk.
  { destruct (at_entry _ _ _ _ _ Hat Hk) as (l & r & v0 & nd & Hxs & Hl & Hkv & ->).
    destruct (al_split k v0 (items (heap m) l) (items (heap m) r) (at_keys _ _ _ Hat)) as (_ & -> & _).
    by eapply Put_update_rep. }
  pose proof (at_absent _ _ _ _ Hat Hk) as Habs. rewrite al_put_new by done.
  assert (Hn : length (heap m) ∉ xs).
  { intros Hin. destruct (chain_live _ _ _ _ _ (at_chain _ _ _ Hat) Hin) as [nd Hl].
    apply lookup_lt_Some in Hl. lia. }
  destruct (append_chain (heap m) k v xs (at_nodup _ _ _ Hat) (at_chain _ _ _ Hat) Hn)
    as (Hc & Hi & Hkey). rewrite (at_tail _ _ _ Hat).
  set (n := length (heap m)) in *. set (h0 := heap m ++ [mkNode k v None None]) in *.
  set (h' := match last_of None xs with None => h0 | Some t => _ end) in *.
  assert (Hm : forall hd tl, hd = first_of (xs ++ [n]) None -> tl = last_of None (xs ++ [n]) ->
    lhm_rep (mkLHM (<[k := n]> (itemMap m)) hd tl h') (al ++ [(k, v)])).
  { intros hd tl Hhd Htl. exists (xs ++ [n]). split; cbn [heap head tail itemMap]; try done.
    - apply NoDup_app. split_and!; [apply (at_nodup _ _ _ Hat)|set_solver|apply NoDup_singleton].
    - by rewrite Hi, (at_items _ _ _ Hat).
    - rewrite map_app. apply NoDup_app.
      split_and!; [apply (at_keys _ _ _ Hat)|set_solver|apply NoDup_singleton].
    - intros k' b. rewrite Hkey, lookup_insert_Some, (at_map _ _ _ Hat), elem_of_app,
        list_elem_of_singleton.
      assert (Hb0 : forall b, b ∈ xs -> h0 !! b = heap m !! b).
      { intros b' Hb'. destruct (chain_live _ _ _ _ _ (at_chain _ _ _ Hat) Hb') as [nd Hl].
        rewrite Hl. by apply lookup_app_l_Some. }
      assert (Hl0 : h0 !! n = Some (mkNode k v None None)) by (by apply list_lookup_middle).
      split.
      + intros [[<- <-]|(Hne & Hb & Hbk)]; [rewrite Hl0; auto|]. rewrite Hb0 by done. auto.
      + intros [[Hb| ->] Hbk]; [|rewrite Hl0 in Hbk; left; simpl in Hbk; split; congruence].
        rewrite Hb0 in Hbk by done. right. split; [|done]. intros <-.
        assert (itemMap m !! k = Some b) by (by apply (at_map _ _ _ Hat)). congruence. }
  destruct (last_of None xs) as [t|] eqn:Et; apply Hm; rewrite ?last_of_app; try done.
  - rewrite (at_head _ _ _ Hat). by destruct xs.
  - by apply last_of_None in Et as ->.
Qed.

Lemma New_rep : lhm_rep NewLinkHashMap [].
Proof.
  exists []. split; simpl; try done; try constructor.
  - by rewrite lookup_empty.
  - intros [? _]. set_solver.
Qed.

Lemma rep_dom m al : lhm_rep m al -> dom (itemMap m) = (list_to_set (map fst al) : gset K).
Proof.
  intros [xs Hat]. apply set_eq. intros k. rewrite elem_of_dom, elem_of_list_to_set. split.
  - intros [a Hk]. destruct (at_entry _ _ _ _ _ Hat Hk) as (l & r & v & nd & _ & _ & _ & ->).
    rewrite map_app. simpl. set_solver.
  - intros Hin. destruct (itemMap m !! k) eqn:Hk; [done|]. by destruct (at_absent _ _ _ _ Hat Hk).
Qed.

Lemma rep_keys m al : lhm_rep m al -> NoDup (map fst al).
Proof. intros [xs Hat]. apply (at_keys _ _ _ Hat). Qed.

Lemma Size_rep m al : lhm_rep m al -> Size m = len al.
Proof.
  intros Hr. unfold Size. rewrite <- (size_dom (D := gset K)), (rep_dom _ _ Hr).
  rewrite size_list_to_set by (by eapply rep_keys). unfold len. by rewrite length_map.
Qed.

Lemma Contains_rep m al k : lhm_rep m al -> Contains m k = bool_decide (k ∈ map fst al).
Proof.
  intros Hr. unfold Contains. apply bool_decide_ext.
  by rewrite <- elem_of_dom, (rep_dom _ _ Hr), elem_of_list_to_set.
Qed.

(** Following the list gives the entries, and never runs out of fuel. *)
Lemma walk_chain (h : nodes K V) p xs fuel :
  chain h p xs None -> (length xs < fuel)%nat ->
  exists nds, walk fuel h (first_of xs None) = Ret nds /\ map kv nds = items h xs.
Proof.
  revert p fuel. induction xs as [|a xs IH]; intros p fuel Hc Hf; (destruct fuel as [|fuel]; [simpl in Hf; lia|]).
  - by exists [].
  - simpl in Hc. destruct Hc as (nd & Hl & _ & Hn & Hc). cbn [walk first_of]. rewrite Hl.
    cbn [deref outcome_bind]. rewrite Hn. destruct (IH (Some a) fuel Hc) as (nds & -> & E); [simpl in Hf; lia|].
    exists (nd :: nds). split; [done|]. simpl. by rewrite E, Hl.
Qed.

Lemma walk_rep m al :
  lhm_rep m al ->
  exists nds, walk (S (length (heap m))) (heap m) (head m) = Ret nds /\ map kv nds = al.
Proof.
  intros [xs Hat]. rewrite (at_head _ _ _ Hat), <- (at_items _ _ _ Hat).
  apply (walk_chain _ None); [apply (at_chain _ _ _ Hat)|].
  assert (Hsub : xs ⊆+ seq 0 (length (heap m))).
  { apply NoDup_submseteq; [apply (at_nodup _ _ _ Hat)|]. intros a Ha. apply elem_of_seq.
    destruct (chain_live _ _ _ _ _ (at_chain _ _ _ Hat) Ha) as [nd Hl].
    apply lookup_lt_Some in Hl. lia. }
  apply submseteq_length in Hsub. rewrite length_seq in Hsub. lia.
Qed.
End LinkedHashMap.

#[global] Instance LinkedHashMap_OrderedMap {K V} `{Countable K} (zeroK : K) : OrderedMap K V := {
  om := @LinkedHashMap K V _ _;
  om_rep := lhm_rep;
  om_new := NewLinkHashMap;
  om_Put := Put;
  om_Get := Get;
  om_Remove := Remove;
  om_RemoveFirst := RemoveFirst zeroK;
  om_RemoveLast := RemoveLast zeroK;
  om_MoveToHead := MoveToHead;
  om_Size := Size;
  om_keys := rep_keys;
  om_new_rep := New_rep;
  om_Put_rep := Put_rep;
  om_Get_rep := Get_rep;
  om_Remove_rep := Remove_rep;
  om_RemoveFirst_rep := RemoveFirst_rep zeroK;
  om_RemoveLast_rep := RemoveLast_rep zeroK;
  om_MoveToHead_rep := MoveToHead_rep;
  om_Size_rep := Size_rep
}.

(** ** Every run agrees with the association list *)

Section Runs.
Context {K V : Type} `{Countable K} (zeroK : K).

Inductive lhm_op : Type :=
| OpPut (k : K) (v : V)
| OpRemove (k : K)
| OpRemoveFirst
| OpRemoveLast
| OpMoveToHead (k : K).

(** The new map and, for the two that have one, the key returned. *)
Definition lhm_step (m : @LinkedHashMap K V _ _) (op : lhm_op) : LinkedHashMap * option K :=
  match op with
  | OpPut k v => (Put m k v, None)
  | OpRemove k => (Remove m k, None)
  | OpRemoveFirst => let '(m, k) := RemoveFirst zeroK m in (m, Some k)
  | OpRemoveLast => let '(m, k) := RemoveLast zeroK m in (m, Some k)
  | OpMoveToHead k => (MoveToHead m k, None)
  end.

Definition al_step (al : list (K * V)) (op : lhm_op) : list (K * V) * option K :=
  match op with
  | OpPut k v => (al_put k v al, None)
  | OpRemove k => (al_remove k al, None)
  | OpRemoveFirst => match al with [] => ([], Some zeroK) | (k, _) :: t => (t, Some k) end
  | OpRemoveLast => match last al with
                    | None => (al, Some zeroK)
                    | Some (k, _) => (removelast al, Some k)
                    end
  | OpMoveToHead k => (al_front k al, None)
  end.

(** The state and the results of a sequence of operations. *)
Fixpoint run_ops {S} (step : S -> lhm_op -> S * option K) (s : S) (ops : list lhm_op) :
    S * list (option K) :=
  match ops with
  | [] => (s, [])
  | op :: ops => let '(s, r) := step s op in
                 let '(s, rs) := run_ops step s ops in (s, r :: rs)
  end.

Lemma lhm_step_rep m al op :
  lhm_rep m al ->
  snd (lhm_step m op) = snd (al_step al op) /\ lhm_rep (fst (lhm_step m op)) (fst (al_step al op)).
Proof.
  intros Hr. destruct op; simpl; auto using Put_rep, Remove_rep, MoveToHead_rep.
  - destruct al as [|[k v] al].
    + destruct Hr as [xs Hat]. unfold RemoveFirst. rewrite (at_head _ _ _ Hat).
      assert (xs = []) as ->.
      { destruct xs as [|a xs]; [done|]. pose proof (at_chain _ _ _ Hat) as (nd & Hl & _).
        pose proof (at_items _ _ _ Hat) as Hi. simpl in Hi. by rewrite Hl in Hi. }
      split; [done|]. by exists [].
    + destruct (RemoveFirst_rep zeroK _ _ _ _ Hr) as (m' & -> & Hr'). done.
  - destruct (last al) as [[k v]|] eqn:El.
    + apply last_Some in El as [pre ->].
      destruct (RemoveLast_rep zeroK _ _ _ _ Hr) as (m' & -> & Hr'). by rewrite removelast_last.
    + apply last_None in El as ->. destruct Hr as [xs Hat]. unfold RemoveLast.
      rewrite (at_tail _ _ _ Hat). assert (xs = []) as ->.
      { destruct xs as [|a xs]; [done|]. pose proof (at_chain _ _ _ Hat) as (nd & Hl & _).
        pose proof (at_items _ _ _ Hat) as Hi. simpl in Hi. by rewrite Hl in Hi. }
      split; [done|]. by exists [].
Qed.

Lemma run_ops_rep ops m al :
  lhm_rep m al ->
  snd (run_ops lhm_step m ops) = snd (run_ops al_step al ops) /\
  lhm_rep (fst (run_ops lhm_step m ops)) (fst (run_ops al_step al ops)).
Proof.
  revert m al. induction ops as [|op ops IH]; intros m al Hr; [done|]. cbn [run_ops].
  pose proof (lhm_step_rep m al op Hr) as [E Hr1].
  destruct (lhm_step m op) as [m1 r1], (al_step al op) as [al1 r2]. simpl in E, Hr1. subst.
  pose proof (IH _ _ Hr1) as [E Hr2].
  destruct (run_ops lhm_step m1 ops) as [m2 s1], (run_ops al_step al1 ops) as [al2 s2].
  simpl in *. by subst.
Qed.

(** The hash map with links behaves as an association list in insertion
    order: after any sequence of Put, Remove, RemoveFirst, RemoveLast and
    MoveToHead the keys those returned, and what Get, Contains, Size, Keys and
    Values answer, are those of the list; in particular the links never go
    astray and the loops of Keys and Values terminate. *)
Theorem LinkedHashMap_refines ops :
  let '(m, rs) := run_ops lhm_step NewLinkHashMap ops in
  let '(al, rs') := run_ops al_step [] ops in
  rs = rs' /\
  (forall k, Get m k = al_get k al) /\
  (forall k, Contains m k = bool_decide (k ∈ map fst al)) /\
  Size m = len al /\
  Keys m = Ret (map fst al) /\ Values m = Ret (map snd al).
Proof.
  pose proof (run_ops_rep ops _ _ New_rep) as [E Hr].
  destruct (run_ops lhm_step _ ops) as [m rs], (run_ops al_step _ ops) as [al rs'].
  simpl in E, Hr. split; [done|]. split; [intros k; by apply Get_rep|].
  split; [intros k; by apply Contains_rep|]. split; [by apply Size_rep|].
  destruct (walk_rep _ _ Hr) as (nds & Hw & <-). unfold Keys, Values. rewrite Hw.
  cbn [outcome_bind]. by rewrite !map_map.
Qed.
End Runs.
