(* ===== verification/LRU.v ===== *)
(** * LRUCache

    [pkg/cache/lru.go]: the least-recently-used cache, refined to a list of
    entries, most recently used first; and the interleaving of its locked
    sections.  Keys are equal to themselves: floating-point keys that are not (NaN), which
    a Go map never finds again, are left out. *)

From S2P Require Import Prelude Dll LinkedHashMap.

Section LRU.
Context {K V : Type} `{Countable K}.

Record LRUCache := mkLRU {
  capacity : Z;
  c_itemMap : gmap K nat;
  c_head : option nat;
  c_tail : option nat;
  c_heap : nodes K V
}.

(** A capacity that is not positive panics. *)
Definition NewLRUCache (cap : Z) : outcome LRUCache :=
  if cap <=? 0 then Panic else Ret (mkLRU cap ∅ None None []).

Definition set_links (c : LRUCache) (hd tl : option nat) (h : nodes K V) : LRUCache :=
  mkLRU (capacity c) (c_itemMap c) hd tl h.

Definition lru_moveToHead (c : LRUCache) (n : nat) : outcome LRUCache :=
  if decide (c_head c = Some n) then Ret c
  else
    run nd <- deref (c_heap c !! n);
    let h := link_next (prev nd) (next nd) (c_heap c) in
    run nd <- deref (h !! n);
    let h := link_prev (next nd) (prev nd) h in
    run nd <- deref (h !! n);
    let tl := if decide (Some n = c_tail c) then prev nd else c_tail c in
    match c_head c with
    | Some hd =>
        let h := alter (set_prev (Some n)) hd h in
        let h := alter (set_next (Some hd)) n h in
        let h := alter (set_prev None) n h in
        Ret (set_links c (Some n) tl h)
    | None => Ret (set_links c (Some n) (Some n) h)
    end.

Definition removeTail (c : LRUCache) : outcome LRUCache :=
  run t <- deref (c_tail c);
  run nd <- deref (c_heap c !! t);
  let k := key nd in
  run (hd, tl, h) <-
    (if Z.of_nat (size (c_itemMap c)) =? 1 then Ret (None, None, c_heap c)
     else
       run p <- deref (prev nd);
       let h := alter (set_next None) p (c_heap c) in
       run nd <- deref (h !! t);
       Ret (c_head c, prev nd, h));
  Ret (mkLRU (capacity c) (delete k (c_itemMap c)) hd tl h).

Definition lru_Put (c : LRUCache) (k : K) (v : V) : outcome LRUCache :=
  let '(c, n) :=
    match c_itemMap c !! k with
    | None => (set_links c (c_head c) (c_tail c) (c_heap c ++ [mkNode k v None None]),
               length (c_heap c))
    | Some n => (set_links c (c_head c) (c_tail c) (alter (set_value v) n (c_heap c)), n)
    end in
  run c <- lru_moveToHead c n;
  let c := mkLRU (capacity c) (<[k := n]> (c_itemMap c)) (c_head c) (c_tail c) (c_heap c) in
  if Z.of_nat (size (c_itemMap c)) >? capacity c then removeTail c else Ret c.

(** The part of Get under the read lock: the node, if the key is there. *)
Definition lru_Get_lookup (c : LRUCache) (k : K) : option nat := c_itemMap c !! k.

(** The part of Get under the write lock, with the node found before. *)
Definition lru_Get_move (c : LRUCache) (n : nat) : outcome (LRUCache * V) :=
  run c <- lru_moveToHead c n;
  run nd <- deref (c_heap c !! n);
  Ret (c, value nd).

(** Get without another goroutine in between; [None] is [(zero, false)]. *)
Definition lru_Get (c : LRUCache) (k : K) : outcome (LRUCache * option V) :=
  match lru_Get_lookup c k with
  | None => Ret (c, None)
  | Some n => run (c, v) <- lru_Get_move c n; Ret (c, Some v)
  end.

Definition lru_Size (c : LRUCache) : Z := Z.of_nat (size (c_itemMap c)).

(** ** Refinement *)

(** The map and the list of a cache have the shape of a linked hash map. *)
Definition view (c : LRUCache) : @LinkedHashMap K V _ _ :=
  mkLHM (c_itemMap c) (c_head c) (c_tail c) (c_heap c).

Definition lru_rep (c : LRUCache) (al : list (K * V)) : Prop :=
  lhm_rep (view c) al /\ len al <= capacity c /\ 0 < capacity c.

Lemma lru_push_front (h : nodes K V) hd n :
  hd <> n ->
  alter (set_prev None) n (alter (set_next (Some hd)) n (alter (set_prev (Some n)) hd h))
  = push_front h n (Some hd).
Proof.
  intros Hne. unfold push_front. cbn [link_prev]. apply list_eq. intros i.
  destruct (decide (i = n)) as [->|Hi].
  - rewrite !list_lookup_alter_eq, !list_lookup_alter_ne by done.
    rewrite !list_lookup_alter_eq. by destruct (h !! n).
  - rewrite (list_lookup_alter_ne _ _ n i) by done. rewrite (list_lookup_alter_ne _ _ n i) by done.
    destruct (decide (i = hd)) as [->|Hh].
    + by rewrite !list_lookup_alter_eq, !list_lookup_alter_ne.
    + by rewrite !list_lookup_alter_ne.
Qed.

(** Moving a node of the list to its front is what the linked hash map does. *)
Lemma lru_moveToHead_view c k n al :
  lhm_rep (view c) al -> c_itemMap c !! k = Some n ->
  exists c', lru_moveToHead c n = Ret c' /\ capacity c' = capacity c /\
    view c' = MoveToHead (view c) k.
Proof.
  intros [xs Hat] Hk. unfold MoveToHead, lru_moveToHead. cbn [itemMap view]. rewrite Hk.
  cbn [head view]. destruct (decide (Some n = c_head c)) as [Hh|Hh].
  { rewrite decide_True by done. by exists c. }
  rewrite decide_False by congruence.
  destruct (at_entry _ _ _ _ _ Hat Hk) as (l & r & v & nd & -> & Hl & _). cbn [heap view] in Hl.
  pose proof (cut_ok _ _ _ _ _ Hat) as (_ & _ & _ & Hh1 & Ht1).
  pose proof (at_head _ _ _ Hat) as Hhd. pose proof (at_tail _ _ _ Hat) as Htl.
  pose proof (at_nodup _ _ _ Hat) as Hnd.
  destruct (unlink_chain _ _ _ _ Hnd (at_chain _ _ _ Hat)) as (nd' & Hl' & Hp & Hn & _ & _ & Ha' & _).
  cbn [heap head tail view] in *. assert (nd' = nd) as -> by congruence.
  apply NoDup_app in Hnd as (_ & Hd & Hr). apply NoDup_cons in Hr as [Hnr _].
  destruct l as [|x l]; [by simpl in Hhd; rewrite Hhd in Hh|].
  destruct (last_of_cons None x l) as (z & Hz & Hzin).
  assert (Hl1 : link_next (prev nd) (next nd) (c_heap c) !! n = Some nd).
  { rewrite Hp, Hz, link_next_frame; [done|]. intros [= ->]. apply (Hd z Hzin). set_solver. }
  unfold moveToHead. assert (Hcut : heap (cut (view c) n) =
    link_prev (next nd) (prev nd) (link_next (prev nd) (next nd) (c_heap c))).
  { unfold cut. cbn [heap view]. by rewrite Hl, Hl1. }
  unfold unlink in Ha'. rewrite <- Hp, <- Hn in Ha'.
  rewrite Hl. cbn [deref outcome_bind]. rewrite Hl1. cbn [deref outcome_bind]. rewrite Ha'.
  cbn [deref outcome_bind]. rewrite Hhd. cbn [first_of app].
  eexists. split; [done|]. split; [done|].
  match goal with |- view (set_links _ ?a ?b ?h) = _ =>
    change (view (set_links c a b h)) with (mkLHM (c_itemMap c) a b h) end.
  assert (Him : itemMap (cut (view c) n) = c_itemMap c).
  { unfold cut. cbn [heap view]. by rewrite Hl, Hl1. }
  rewrite Him, Hh1, Hcut, Ht1, Htl, !last_of_app, Hz. cbn [first_of app link_prev last_of].
  assert (Hxn : x <> n) by (intros ->; apply (Hd n); set_solver).
  rewrite lru_push_front by done. unfold push_front. cbn [link_prev]. f_equal.
  destruct r as [|y r]; simpl.
  - rewrite decide_True by done. by rewrite Hp, Hz.
  - destruct (last_of_cons (Some n) y r) as (t & Ht & Htin). simpl in Ht. rewrite Ht.
    rewrite decide_False by (intros [= ->]; done). done.
Qed.

(** A new node at the front of the list. *)
Lemma front_new_rep (m : @LinkedHashMap K V _ _) al k v :
  lhm_rep m al -> itemMap m !! k = None ->
  let n := length (heap m) in
  let h0 := heap m ++ [mkNode k v None None] in
  lhm_rep (mkLHM (<[k := n]> (itemMap m)) (Some n)
             (match tail m with None => Some n | t => t end) (push_front h0 n (head m)))
    ((k, v) :: al).
Proof.
  intros [xs Hat] Hk n h0. pose proof (at_absent _ _ _ _ Hat Hk) as Habs.
  pose proof (at_chain _ _ _ Hat) as Hc.
  assert (Hn : n ∉ xs).
  { intros Hin. destruct (chain_live _ _ _ _ _ Hc Hin) as [nd Hl]. apply lookup_lt_Some in Hl. lia. }
  assert (Hb0 : forall b, b ∈ xs -> h0 !! b = heap m !! b).
  { intros b Hb. destruct (chain_live _ _ _ _ _ Hc Hb) as [nd Hl]. rewrite Hl.
    by apply lookup_app_l_Some. }
  assert (Hl0 : h0 !! n = Some (mkNode k v None None)) by (by apply list_lookup_middle).
  assert (Hc0 : chain h0 None xs None) by (by eapply chain_frame).
  destruct (push_front_chain h0 n xs (at_nodup _ _ _ Hat) Hn (mk_is_Some _ _ Hl0) Hc0) as [Hc' Hs].
  rewrite (at_head _ _ _ Hat). exists (n :: xs).
  split; cbn [heap head tail itemMap].
  - constructor; [done|apply (at_nodup _ _ _ Hat)].
  - exact Hc'.
  - done.
  - rewrite (at_tail _ _ _ Hat). simpl. destruct xs as [|y q]; [done|]. simpl.
    destruct (last_of_cons (Some y) y q) as (z & Hz & _). simpl in Hz. by rewrite Hz.
  - rewrite (items_same_kv _ _ _ Hs), (items_cons _ _ _ _ Hl0). simpl.
    rewrite (items_frame (heap m) h0) by done. by rewrite (at_items _ _ _ Hat).
  - simpl. constructor; [done|apply (at_keys _ _ _ Hat)].
  - intros k' b. rewrite (same_kv_key _ _ _ Hs), lookup_insert_Some, (at_map _ _ _ Hat), elem_of_cons.
    split.
    + intros [[<- <-]|(Hne & Hb & Hbk)]; [rewrite Hl0; auto|]. rewrite Hb0 by done. auto.
    + intros [[->|Hb] Hbk]; [rewrite Hl0 in Hbk; left; simpl in Hbk; split; congruence|].
      rewrite Hb0 in Hbk by done. right. split; [|done]. intros <-.
      assert (itemMap m !! k = Some b) by (by apply (at_map _ _ _ Hat)). congruence.
Qed.

(** removeTail takes the last entry out. *)
Lemma removeTail_view c al k v :
  lhm_rep (view c) (al ++ [(k, v)]) -> al <> [] ->
  exists c', removeTail c = Ret c' /\ capacity c' = capacity c /\ lhm_rep (view c') al.
Proof.
  intros Hrep Hne. pose proof (Size_rep _ _ Hrep) as Hsz.
  destruct (RemoveLast_rep k _ _ _ _ Hrep) as (m' & Hrl & Hrep').
  destruct Hrep as [xs Hat]. unfold RemoveLast in Hrl.
  pose proof (at_items _ _ _ Hat) as Hi. pose proof (at_chain _ _ _ Hat) as Hc.
  pose proof (at_tail _ _ _ Hat) as Htl. pose proof (at_nodup _ _ _ Hat) as Hnd.
  destruct xs as [|x xs]; [by destruct al|].
  destruct (@exists_last _ (x :: xs)) as (l & a & E); [done|]. rewrite E in *.
  rewrite last_of_app in Htl. cbn [last_of] in Htl. rewrite Htl in Hrl.
  apply chain_app in Hc as [Hc1 Hc]. simpl in Hc. destruct Hc as (nd & Hl & Hp & Hn & _).
  cbn [heap view tail] in *. rewrite Hl in Hrl. simpl in Hrl. injection Hrl as Hrm Hkey.
  assert (Hlne : l <> []).
  { intros ->. simpl in Hi. rewrite Hl in Hi. destruct al as [|? [|? ?]]; simplify_eq/=. }
  destruct l as [|y l]; [done|]. destruct (last_of_cons None y l) as (z & Hz & Hzin).
  rewrite Hz in Hp.
  assert (Hza : z <> a). { apply NoDup_app in Hnd as (_ & Hd & _). intros ->. apply (Hd a Hzin). set_solver. }
  unfold removeTail. rewrite Htl. cbn [deref outcome_bind]. rewrite Hl. cbn [deref outcome_bind].
  unfold Size in Hsz. cbn [itemMap view] in Hsz. rewrite Hsz, len_app.
  assert (Hlen : (len al + len [(k, v)] =? 1) = false).
  { apply Z.eqb_neq. destruct al; [done|]. glen. }
  rewrite Hlen, Hp. cbn [deref outcome_bind].
  assert (Hl2 : alter (set_next None) z (c_heap c) !! a = Some nd) by by rewrite list_lookup_alter_ne.
  rewrite Hl2. cbn [deref outcome_bind]. eexists. split; [done|]. split; [done|].
  replace (view _) with m'; [done|]. rewrite <- Hrm. unfold Remove.
  assert (Hk : itemMap (view c) !! key nd = Some a).
  { apply (at_map _ _ _ Hat). split; [set_solver|]. cbn [heap view]. by rewrite Hl. }
  rewrite Hk. unfold cut. cbn [heap view]. rewrite Hl, Hp, Hn. cbn [first_of link_next].
  by rewrite Hl2, Hp, Hn.
Qed.

(** ** The cache as a list, most recently used first *)

Definition spec_Get (k : K) (al : list (K * V)) : list (K * V) * option V :=
  (al_front k al, al_get k al).

Definition spec_Put (cap : Z) (k : K) (v : V) (al : list (K * V)) : list (K * V) :=
  let al' := (k, v) :: al_remove k al in
  if len al' >? cap then removelast al' else al'.

Lemma len_al_remove k (al : list (K * V)) : len (al_remove k al) <= len al.
Proof. unfold len, al_remove. pose proof (length_filter (fun p => fst p <> k) al). lia. Qed.

Lemma len_al_front k (al : list (K * V)) : NoDup (map fst al) -> len (al_front k al) = len al.
Proof.
  intros Hnd. unfold al_front. destruct (al_get k al) as [v|] eqn:Hg; [|done].
  apply al_get_Some in Hg; [|done]. apply list_elem_of_split in Hg as (l & r & ->).
  destruct (al_split k v l r Hnd) as (_ & _ & ->). glen.
Qed.

Lemma lru_Get_rep c al k :
  lru_rep c al ->
  exists c', lru_Get c k = Ret (c', snd (spec_Get k al)) /\ lru_rep c' (fst (spec_Get k al)) /\
    capacity c' = capacity c.
Proof.
  intros (Hrep & Hlen & Hcap). unfold lru_Get, lru_Get_lookup. simpl.
  pose proof (Get_rep _ _ k Hrep) as Hget. unfold Get in Hget. cbn [itemMap view heap] in Hget.
  destruct (c_itemMap c !! k) as [n|] eqn:Hk.
  - destruct (lru_moveToHead_view c k n al Hrep Hk) as (c' & E & Hc & Hv).
    pose proof (MoveToHead_rep _ _ k Hrep) as Hrep'. rewrite <- Hv in Hrep'.
    unfold lru_Get_move. rewrite E. cbn [outcome_bind].
    pose proof (Get_rep _ _ k Hrep') as Hget'. unfold Get in Hget'.
    assert (Hk' : itemMap (view c') !! k = Some n).
    { rewrite Hv. unfold MoveToHead. cbn [itemMap view head]. rewrite Hk. case_decide; [done|].
      unfold moveToHead. cbn [itemMap]. unfold cut. cbn [heap view itemMap].
      destruct (c_heap c !! n) as [nd|]; [|done]. by destruct (link_next _ _ _ !! n). }
    rewrite Hk' in Hget'. cbn [heap view] in Hget'.
    assert (Hsame : al_get k (al_front k al) = al_get k al).
    { unfold al_front. destruct (al_get k al) eqn:Eg; [simpl; by rewrite decide_True|done]. }
    assert (Hsome : exists v, al_get k al = Some v).
    { destruct (al_get k al) eqn:Eg; [eauto|]. apply al_get_None in Eg.
      destruct Hrep as [xs Hat]. destruct (at_entry _ _ _ _ _ Hat Hk) as (l & r & v & nd & _ & _ & _ & ->).
      exfalso. apply Eg. rewrite map_app. simpl. set_solver. }
    destruct Hsome as [v Hv']. rewrite Hsame, Hv' in Hget'.
    destruct (c_heap c' !! n) as [nd|]; [|done]. simpl in Hget'. injection Hget' as Hval.
    cbn [deref outcome_bind]. exists c'. rewrite Hv', Hval. split; [done|]. split; [|done].
    split; [done|]. rewrite len_al_front by (by eapply rep_keys). lia.
  - exists c. rewrite <- Hget. split; [done|]. split; [|done]. unfold al_front. rewrite <- Hget. done.
Qed.

(** moveToHead on a node that was just allocated. *)
Lemma lru_moveToHead_new c al k v :
  lhm_rep (view c) al -> c_itemMap c !! k = None ->
  let n := length (c_heap c) in
  let h0 := c_heap c ++ [mkNode k v None None] in
  exists c', lru_moveToHead (set_links c (c_head c) (c_tail c) h0) n = Ret c' /\
    capacity c' = capacity c /\
    view (mkLRU (capacity c') (<[k := n]> (c_itemMap c')) (c_head c') (c_tail c') (c_heap c'))
    = mkLHM (<[k := n]> (c_itemMap c)) (Some n) (match c_tail c with None => Some n | t => t end)
        (push_front h0 n (c_head c)).
Proof.
  intros [xs Hat] Hk n h0.
  assert (Hlive : forall b, b ∈ xs -> b <> n).
  { intros b Hb ->. destruct (chain_live _ _ _ _ _ (at_chain _ _ _ Hat) Hb) as [nd Hl].
    apply lookup_lt_Some in Hl. simpl in Hl. lia. }
  assert (Hl0 : h0 !! n = Some (mkNode k v None None)) by (by apply list_lookup_middle).
  pose proof (at_head _ _ _ Hat) as Hhd. pose proof (at_tail _ _ _ Hat) as Htl.
  cbn [head tail view] in *. unfold lru_moveToHead. cbn [c_head c_heap c_tail set_links].
  rewrite decide_False.
  2: { rewrite Hhd. destruct xs as [|x xs]; [done|]. simpl. intros [= Hx]. apply (Hlive x); set_solver. }
  rewrite Hl0. cbn [deref outcome_bind prev next link_next]. rewrite Hl0.
  cbn [deref outcome_bind prev next link_prev]. rewrite Hl0. cbn [deref outcome_bind prev].
  destruct xs as [|x xs].
  - simpl in Hhd, Htl. rewrite Hhd, Htl. eexists. split; [done|]. split; [done|].
    unfold view. cbn. f_equal. apply list_eq. intros i. destruct (decide (i = n)) as [->|].
    + by rewrite !list_lookup_alter_eq, Hl0.
    + by rewrite !list_lookup_alter_ne.
  - destruct (last_of_cons None x xs) as (z & Hz & Hzin). rewrite Hz in Htl.
    rewrite Hhd, Htl. cbn [first_of]. eexists. split; [done|]. split; [done|].
    rewrite decide_False by (intros [= Hx]; by apply (Hlive z)).
    rewrite lru_push_front by (apply Hlive; set_solver). done.
Qed.

Lemma al_front_put k v v0 (l r : list (K * V)) :
  NoDup (map fst (l ++ (k, v0) :: r)) ->
  al_front k (l ++ (k, v) :: r) = (k, v) :: al_remove k (l ++ (k, v0) :: r) /\
  NoDup (map fst (l ++ (k, v) :: r)).
Proof.
  intros Hnd. assert (Hnd' : NoDup (map fst (l ++ (k, v) :: r))) by (rewrite map_app in *; done).
  split; [|done]. destruct (al_split k v l r Hnd') as (Hg & _ & Hr). unfold al_front.
  rewrite Hg, Hr. by destruct (al_split k v0 l r Hnd) as (_ & _ & ->).
Qed.

Lemma lru_Put_present c al k v :
  lru_rep c al -> is_Some (c_itemMap c !! k) ->
  exists c', lru_Put c k v = Ret c' /\ lru_rep c' (spec_Put (capacity c) k v al) /\
    capacity c' = capacity c.
Proof.
  intros (Hrep & Hlen & Hcap) [n Hk]. unfold lru_Put, spec_Put. rewrite Hk.
  pose proof (Put_rep _ _ k v Hrep) as Hput. unfold Put in Hput. cbn [itemMap view head tail heap] in Hput.
  rewrite Hk in Hput. pose proof (rep_keys _ _ Hrep) as Hnd. destruct Hrep as [xs Hat].
  destruct (at_entry _ _ _ _ _ Hat Hk) as (l & r & v0 & nd & _ & _ & _ & Eal).
  set (al1 := items (heap (view c)) l) in *. set (al2 := items (heap (view c)) r) in *.
  rewrite Eal in Hnd, Hput, Hlen |- *.
  destruct (al_split k v0 al1 al2 Hnd) as (_ & Eput & Erem). rewrite Eput in Hput.
  destruct (al_front_put k v v0 al1 al2 Hnd) as [Efr Hnd'].
  set (c1 := set_links c (c_head c) (c_tail c) (alter (set_value v) n (c_heap c))).
  destruct (lru_moveToHead_view c1 k n _ Hput Hk) as (c2 & E & Hc2 & Hv2). rewrite E.
  cbn [outcome_bind].
  pose proof (MoveToHead_rep _ _ k Hput) as Hrep2. rewrite Efr in Hrep2.
  change (mkLHM _ _ _ _) with (view c1) in Hrep2. rewrite <- Hv2 in Hrep2.
  pose proof (len_al_front k _ Hnd') as Hl2. rewrite Efr in Hl2.
  assert (Hle : len ((k, v) :: al_remove k (al1 ++ (k, v0) :: al2)) <= capacity c) by glen.
  assert (Him : c_itemMap c2 !! k = Some n).
  { change (itemMap (view c2) !! k = Some n). rewrite Hv2. unfold MoveToHead.
    cbn [itemMap view head c1 set_links c_itemMap c_head]. rewrite Hk. case_decide; [done|].
    unfold moveToHead, cut. cbn [itemMap heap view].
    destruct (c_heap c1 !! n); [|done]. by destruct (link_next _ _ _ !! n). }
  rewrite (insert_id _ _ _ Him).
  pose proof (Size_rep _ _ Hrep2) as Hsz. unfold Size in Hsz. cbn [itemMap view] in Hsz.
  cbn [c_itemMap capacity]. rewrite Hsz, Hc2. change (capacity c1) with (capacity c).
  assert (Hgt : (len ((k, v) :: al_remove k (al1 ++ (k, v0) :: al2)) >? capacity c) = false).
  { rewrite Z.gtb_ltb. apply Z.ltb_ge. lia. }
  rewrite Hgt. eexists. split; [done|]. split; [|done]. split; [|done].
  by destruct c2.
Qed.

Lemma lru_Put_absent c al k v :
  lru_rep c al -> c_itemMap c !! k = None ->
  exists c', lru_Put c k v = Ret c' /\ lru_rep c' (spec_Put (capacity c) k v al) /\
    capacity c' = capacity c.
Proof.
  intros (Hrep & Hlen & Hcap) Hk. unfold lru_Put, spec_Put. rewrite Hk.
  destruct (lru_moveToHead_new c al k v Hrep Hk) as (c1 & E & Hc1 & Hv). rewrite E. cbn [outcome_bind].
  pose proof (front_new_rep _ al k v Hrep Hk) as Hrep1. cbn [itemMap heap view tail head] in Hrep1.
  rewrite <- Hv in Hrep1.
  destruct Hrep as [xs Hat]. pose proof (at_absent _ _ _ _ Hat Hk) as Habs.
  rewrite al_remove_absent by done.
  set (c2 := mkLRU _ _ _ _ _) in *. pose proof (Size_rep _ _ Hrep1) as Hsz.
  unfold Size in Hsz. cbn [itemMap view] in Hsz. rewrite Hsz.
  change (capacity c2) with (capacity c1). rewrite Hc1.
  destruct (len ((k, v) :: al) >? capacity c) eqn:Egt; breflect.
  - assert (Hne : al <> []) by (intros ->; rewrite len_cons, len_nil in Egt; lia).
    destruct (@exists_last _ ((k, v) :: al)) as (pre & [kz vz] & Ez); [done|].
    rewrite Ez in Hrep1 |- *. rewrite removelast_last.
    assert (Hpre : len pre = len al).
    { apply (f_equal len) in Ez. rewrite len_app, !len_cons, len_nil in Ez. lia. }
    destruct (removeTail_view c2 pre kz vz Hrep1) as (c3 & E3 & Hc3 & Hrep3).
    { intros ->. rewrite len_nil in Hpre. symmetry in Hpre. by apply len_0_inv in Hpre. }
    exists c3. rewrite Hc3. split; [done|]. split; [|done]. split; [done|].
    rewrite Hc3. change (capacity c2) with (capacity c1). rewrite Hc1. lia.
  - exists c2. split; [done|]. split; [|done]. split; [done|].
    change (capacity c2) with (capacity c1). rewrite Hc1. lia.
Qed.

Lemma lru_Put_rep c al k v :
  lru_rep c al ->
  exists c', lru_Put c k v = Ret c' /\ lru_rep c' (spec_Put (capacity c) k v al) /\
    capacity c' = capacity c.
Proof.
  intros Hrep. destruct (c_itemMap c !! k) as [n|] eqn:Hk.
  - apply lru_Put_present; [done|by exists n].
  - by apply lru_Put_absent.
Qed.

(** ** Runs *)

Inductive lru_op : Type :=
| OpGet (k : K)
| OpCachePut (k : K) (v : V).

(** A sequence of calls, one after the other: the results of the Gets. *)
Fixpoint lru_run (c : LRUCache) (ops : list lru_op) : outcome (LRUCache * list (option V)) :=
  match ops with
  | [] => Ret (c, [])
  | OpGet k :: ops =>
      run (c, r) <- lru_Get c k; run (c, rs) <- lru_run c ops; Ret (c, r :: rs)
  | OpCachePut k v :: ops => run c <- lru_Put c k v; lru_run c ops
  end.

Fixpoint spec_run (cap : Z) (al : list (K * V)) (ops : list lru_op) :
    list (K * V) * list (option V) :=
  match ops with
  | [] => (al, [])
  | OpGet k :: ops =>
      let '(al, r) := spec_Get k al in
      let '(al, rs) := spec_run cap al ops in (al, r :: rs)
  | OpCachePut k v :: ops => spec_run cap (spec_Put cap k v al) ops
  end.

Lemma lru_run_rep ops c al :
  lru_rep c al ->
  exists c', lru_run c ops = Ret (c', snd (spec_run (capacity c) al ops)) /\
    lru_rep c' (fst (spec_run (capacity c) al ops)) /\ capacity c' = capacity c.
Proof.
  revert c al. induction ops as [|[k|k v] ops IH]; intros c al Hrep; [by exists c| |].
  - destruct (lru_Get_rep c al k Hrep) as (c1 & E & Hrep1 & Hc).
    cbn [lru_run spec_run]. rewrite E. cbn [outcome_bind].
    destruct (spec_Get k al) as [al1 r]. cbn [fst snd] in *.
    destruct (IH c1 al1 Hrep1) as (c2 & E2 & Hrep2 & Hc2). rewrite E2, Hc in *. cbn [outcome_bind].
    destruct (spec_run (capacity c) al1 ops) as [al2 rs]. by exists c2.
  - destruct (lru_Put_rep c al k v Hrep) as (c1 & E & Hrep1 & Hc).
    cbn [lru_run spec_run]. rewrite E. cbn [outcome_bind].
    destruct (IH c1 _ Hrep1) as (c2 & E2 & Hrep2 & Hc2). rewrite Hc in *. by exists c2.
Qed.

(** C39: with a positive capacity, a sequence of Put and Get calls, one after the
    other, never panics and answers as the list of entries in order of last use,
    from which Put drops the last entry when there are more than the capacity;
    Size is then the length of that list, at most the capacity. *)
Theorem LRUCache_refines cap ops :
  match NewLRUCache cap with
  | Ret c => 0 < cap /\ exists c', lru_run c ops = Ret (c', snd (spec_run cap [] ops)) /\
               lru_Size c' = len (fst (spec_run cap [] ops)) /\ lru_Size c' <= cap
  | _ => cap <= 0
  end.
Proof.
  unfold NewLRUCache. destruct (cap <=? 0) eqn:E; breflect; [done|]. split; [done|].
  assert (Hrep : lru_rep (mkLRU cap ∅ None None []) []) 
    by (split; [apply New_rep | rewrite len_nil; simpl; lia]).
  destruct (lru_run_rep ops _ _ Hrep) as (c' & Er & (Hr & Hlen & _) & Hcap). cbn [capacity] in *.
  exists c'. split; [done|]. pose proof (Size_rep _ _ Hr) as Hsz. unfold Size in Hsz.
  cbn [itemMap view] in Hsz. unfold lru_Size. rewrite Hsz. split; [done|].
  lia.
Qed.

(** ** Goroutines *)

(** The sections of the methods that run under the lock, in the order the
    goroutines get it: Put, the lookup of a Get, and its second half, with the
    node its lookup found. *)
Inductive lru_event : Type :=
| EvPut (k : K) (v : V)
| EvLookup (k : K)
| EvMove (k : K).

(** [found] holds the nodes of the Gets between their two halves. *)
Fixpoint lru_events (c : LRUCache) (found : gmap K nat) (evs : list lru_event) : outcome LRUCache :=
  match evs with
  | [] => Ret c
  | EvPut k v :: evs => run c <- lru_Put c k v; lru_events c found evs
  | EvLookup k :: evs =>
      lru_events c (match lru_Get_lookup c k with Some n => <[k := n]> found | None => found end) evs
  | EvMove k :: evs =>
      match found !! k with
      | Some n => run (c, _) <- lru_Get_move c n; lru_events c (delete k found) evs
      | None => lru_events c found evs
      end
  end.
End LRU.

(** A Get of "1" is suspended between its locks while Put evicts "1"; its second
    half links the evicted node in again. *)
Definition race : list (@lru_event Z Z) :=
  [EvPut 1 10; EvLookup 1; EvPut 2 20; EvMove 1; EvPut 3 30; EvPut 4 40].

Definition race_start : @LRUCache Z Z _ _ := mkLRU 1 ∅ None None [].

(** The cache is not safe for concurrent use: Get gives up the read lock
    before it takes the write lock, and if its entry is evicted in between, the
    node goes back into the list but not into the map; evictions then drop nodes
    that hold no entry, and a cache of capacity 1 ends up with two entries. *)
Theorem lru_race_exceeds_capacity :
  NewLRUCache 1 = Ret race_start /\
  match lru_events race_start ∅ race with
  | Ret c => capacity c = 1 /\ lru_Size c = 2
  | _ => False
  end.
Proof. split; [reflexivity|]. vm_compute. done. Qed.
