(* ===== verification/LFU.v ===== *)
(** * LFUCache

    [pkg/cache/lfu.go]: the least-frequently-used cache.  Its buckets are used
    through the class [OrderedMap] only; the linked hash map discharges it.  The
    cache is refined to a list of entries with their use counts, most recently
    used first. *)

From S2P Require Import Prelude Dll LinkedHashMap.

Section LFU.
Context {K V : Type} `{Countable K} `{!OrderedMap K unit}.

Record LFUCache := mkLFU {
  l_itemMap : gmap K V;
  freq : gmap K Z;
  freqMap : gmap Z (@om K unit _ _);
  l_capacity : Z;
  minUsed : Z
}.

Definition NewLFUCache (capacity : Z) : LFUCache := mkLFU ∅ ∅ ∅ capacity 0.

Definition increase (c : LFUCache) (k : K) : outcome LFUCache :=
  let useCnt := default 0 (freq c !! k) in
  run c <-
    (if negb (useCnt =? 0) then
       run m <- deref (freqMap c !! useCnt);
       let m := om_Remove m k in
       let fm := <[useCnt := m]> (freqMap c) in
       if (useCnt =? minUsed c) && (om_Size m =? 0)
       then Ret (mkLFU (l_itemMap c) (freq c) (delete useCnt fm) (l_capacity c) (useCnt + 1))
       else Ret (mkLFU (l_itemMap c) (freq c) fm (l_capacity c) (minUsed c))
     else Ret c);
  let m := default om_new (freqMap c !! (useCnt + 1)) in
  let m := om_MoveToHead (om_Put m k tt) k in
  Ret (mkLFU (l_itemMap c) (<[k := useCnt + 1]> (freq c)) (<[useCnt + 1 := m]> (freqMap c))
         (l_capacity c) (minUsed c)).

(** The lines of Put that make room for a new key. *)
Definition evict (c : LFUCache) : outcome LFUCache :=
  run m <- deref (freqMap c !! minUsed c);
  let '(m, deleteKey) := om_RemoveLast m in
  Ret (mkLFU (delete deleteKey (l_itemMap c)) (delete deleteKey (freq c))
         (<[minUsed c := m]> (freqMap c)) (l_capacity c) (minUsed c)).

Definition lfu_Put (c : LFUCache) (k : K) (v : V) : outcome LFUCache :=
  run c <-
    (match l_itemMap c !! k with
     | None =>
         run c <- (if Z.of_nat (size (l_itemMap c)) =? l_capacity c then evict c else Ret c);
         Ret (mkLFU (l_itemMap c) (freq c) (freqMap c) (l_capacity c) 1)
     | Some _ => Ret c
     end);
  increase (mkLFU (<[k := v]> (l_itemMap c)) (freq c) (freqMap c) (l_capacity c) (minUsed c)) k.

(** [None] is [(zeroV, false)]. *)
Definition lfu_Get (c : LFUCache) (k : K) : outcome (LFUCache * option V) :=
  match l_itemMap c !! k with
  | Some v => run c <- increase c k; Ret (c, Some v)
  | None => Ret (c, None)
  end.

(** ** The promise *)

(** Entries with their use counts, most recently used first. *)
Abbreviation entries := (list (K * (V * Z))).

Definition count (p : K * (V * Z)) : Z := snd (snd p).

Fixpoint min_count (al : entries) : Z :=
  match al with
  | [] => 0
  | [p] => count p
  | p :: t => Z.min (count p) (min_count t)
  end.

(** The entry to evict: of those used least, the one not used for longest. *)
Definition victim (al : entries) : option (K * (V * Z)) :=
  last (filter (fun p => count p = min_count al) al).

Definition spec_evict (al : entries) : entries :=
  match victim al with Some p => al_remove (fst p) al | None => al end.

Definition lfu_spec_Get (k : K) (al : entries) : entries * option V :=
  match al_get k al with
  | Some (v, n) => ((k, (v, n + 1)) :: al_remove k al, Some v)
  | None => (al, None)
  end.

Definition lfu_spec_Put (cap : Z) (k : K) (v : V) (al : entries) : entries :=
  match al_get k al with
  | Some (_, n) => (k, (v, n + 1)) :: al_remove k al
  | None => (k, (v, 1)) :: (if len al =? cap then spec_evict al else al)
  end.

(** ** Refinement *)

(** The keys used [f] times, most recently used first. *)
Definition bucket (f : Z) (al : entries) : list (K * unit) :=
  map (fun p => (fst p, tt)) (filter (fun p => count p = f) al).

(** The counts and buckets of a cache are those of [al]. *)
Record lfu_counts (c : LFUCache) (al : entries) : Prop := {
  lc_keys : NoDup (map fst al);
  lc_freq : forall k, freq c !! k = snd <$> al_get k al;
  lc_pos : Forall (fun p => 1 <= count p) al;
  lc_bucket : forall f, match freqMap c !! f with
                        | Some m => om_rep m (bucket f al)
                        | None => bucket f al = []
                        end
}.

Definition lfu_rep (c : LFUCache) (al : entries) : Prop :=
  lfu_counts c al /\ (forall k, l_itemMap c !! k = fst <$> al_get k al) /\
  len al <= l_capacity c /\ 1 <= l_capacity c /\ (al <> [] -> minUsed c = min_count al).

Lemma bucket_cons f p al :
  bucket f (p :: al) = if decide (count p = f) then (fst p, tt) :: bucket f al else bucket f al.
Proof.
  unfold bucket. destruct (decide (count p = f)) as [Hc|Hc].
  - by rewrite filter_cons_True.
  - by rewrite filter_cons_False.
Qed.

Lemma bucket_remove f k al : bucket f (al_remove k al) = al_remove k (bucket f al).
Proof.
  unfold al_remove. induction al as [|[k' w] al IH]; [done|].
  destruct (decide (k' = k)) as [->|Hk].
  - rewrite filter_cons_False by (simpl; tauto). rewrite bucket_cons.
    case_decide; [rewrite filter_cons_False by (simpl; tauto)|]; exact IH.
  - rewrite filter_cons_True by done. rewrite !bucket_cons.
    case_decide; [rewrite filter_cons_True by done; by rewrite IH | exact IH].
Qed.

Lemma bucket_key f k al : k ∈ map fst (bucket f al) -> exists v, (k, (v, f)) ∈ al.
Proof.
  unfold bucket. rewrite map_map. intros Hin. apply list_elem_of_fmap in Hin as ([k' [v n]] & -> & Hin).
  apply list_elem_of_filter in Hin as [Hc Hin]. unfold count in Hc. simpl in *. subst. by exists v.
Qed.

Lemma bucket_absent f k v n al :
  NoDup (map fst al) -> al_get k al = Some (v, n) -> n <> f -> k ∉ map fst (bucket f al).
Proof.
  intros Hnd Hg Hn Hin. apply bucket_key in Hin as [v' Hin]. apply al_get_Some in Hin; [|done].
  congruence.
Qed.

Lemma bucket_keys f al : NoDup (map fst al) -> NoDup (map fst (bucket f al)).
Proof.
  intros Hnd. unfold bucket. rewrite map_map. simpl. change (map (fun x => fst x) ?l) with (map fst l).
  induction al as [|[k w] al IH]; [constructor|]. simpl in Hnd. apply NoDup_cons in Hnd as [Hk Hnd].
  rewrite filter_cons. destruct (decide (count (k, w) = f)); [|by apply IH]. simpl.
  constructor; [|by apply IH]. intros Hin. apply Hk.
  apply list_elem_of_fmap in Hin as (p & -> & Hin). apply list_elem_of_filter in Hin as [_ Hin].
  by apply list_elem_of_fmap_2.
Qed.

Lemma al_get_remove k k' (al : entries) :
  al_get k' (al_remove k al) = if decide (k' = k) then None else al_get k' al.
Proof.
  unfold al_remove. induction al as [|[k0 w] al IH]; simpl; [by case_decide|].
  rewrite filter_cons. simpl fst. destruct (decide (k0 <> k)) as [Hk|Hk].
  - simpl. rewrite IH. repeat case_decide; congruence.
  - rewrite IH. assert (k0 = k) as -> by (destruct (decide (k0 = k)); tauto).
    repeat case_decide; congruence.
Qed.

Lemma al_remove_keys k (al : entries) :
  NoDup (map fst al) -> NoDup (map fst (al_remove k al)) /\ k ∉ map fst (al_remove k al).
Proof.
  intros Hnd. split.
  - unfold al_remove. induction al as [|[k0 w] al IH]; [constructor|]. simpl in Hnd.
    apply NoDup_cons in Hnd as [Hk Hnd]. rewrite filter_cons. case_decide; [|by apply IH].
    simpl. constructor; [|by apply IH]. intros Hin. apply Hk.
    apply list_elem_of_fmap in Hin as (p & -> & Hin). apply list_elem_of_filter in Hin as [_ Hin].
    by apply list_elem_of_fmap_2.
  - rewrite <- al_get_None, al_get_remove. by rewrite decide_True.
Qed.

(** *** The least count *)

Lemma min_count_cons p al : al <> [] -> min_count (p :: al) = Z.min (count p) (min_count al).
Proof. by destruct al. Qed.

Lemma min_count_le p al : p ∈ al -> min_count al <= count p.
Proof.
  induction al as [|q al IH]; [set_solver|]. intros [->|Hin]%elem_of_cons.
  - destruct al as [|r al]; [done|]. rewrite min_count_cons by done. lia.
  - rewrite min_count_cons by (by intros ->; apply not_elem_of_nil in Hin). specialize (IH Hin). lia.
Qed.

Lemma min_count_in al : al <> [] -> exists p, p ∈ al /\ count p = min_count al.
Proof.
  induction al as [|q al IH]; [done|]. intros _. destruct al as [|r al]; [exists q; set_solver|].
  rewrite min_count_cons by done. destruct IH as (p & Hp & Hc); [done|].
  destruct (decide (count q <= min_count (r :: al))).
  - exists q. split; [set_solver|lia].
  - exists p. split; [set_solver|lia].
Qed.

Lemma min_count_unique m al :
  (exists p, p ∈ al /\ count p = m) -> Forall (fun p => m <= count p) al -> m = min_count al.
Proof.
  intros (p & Hp & Hm) Hall. pose proof (min_count_le _ _ Hp).
  destruct (min_count_in al) as (q & Hq & Hc); [by intros ->; apply not_elem_of_nil in Hp|].
  rewrite Forall_forall in Hall. specialize (Hall q Hq). lia.
Qed.

Lemma remove_elem p k (al : entries) : p ∈ al_remove k al <-> p ∈ al /\ fst p <> k.
Proof. unfold al_remove. rewrite list_elem_of_filter. tauto. Qed.

Lemma min_count_touch al k v n w :
  NoDup (map fst al) -> al_get k al = Some (v, n) ->
  min_count ((k, (w, n + 1)) :: al_remove k al)
  = if decide (n = min_count al /\ bucket n (al_remove k al) = []) then n + 1 else min_count al.
Proof.
  intros Hnd Hg. pose proof Hg as Hin. apply al_get_Some in Hin; [|done].
  pose proof (min_count_le _ _ Hin) as Hle. unfold count in Hle. simpl in Hle.
  symmetry. apply min_count_unique.
  - case_decide as Hd; [exists (k, (w, n + 1)); set_solver|].
    destruct (decide (n = min_count al)) as [Hn|Hn].
    + destruct (bucket n (al_remove k al)) as [|[k' []] b] eqn:Eb; [tauto|].
      destruct (bucket_key n k' (al_remove k al)) as [v' Hv']; [rewrite Eb; set_solver|].
      exists (k', (v', n)). split; [set_solver|done].
    + destruct (min_count_in al) as (p & Hp & Hc); [by intros ->; apply not_elem_of_nil in Hin|].
      exists p. split; [|done].
      apply elem_of_cons. right. apply remove_elem. split; [done|]. intros Hk.
      destruct p as [k' [v' n']]. simpl in Hk. subst k'. apply al_get_Some in Hp; [|done].
      unfold count in Hc. simpl in Hc. congruence.
  - constructor; [unfold count; simpl; case_decide; lia|]. apply Forall_forall. intros p Hp.
    pose proof Hp as [Hp' Hk]%remove_elem. pose proof (min_count_le _ _ Hp') as Hp2.
    case_decide as Hd; [|done]. destruct Hd as [Hn Hb]. destruct (decide (count p = n)); [|lia].
    exfalso. unfold bucket in Hb. apply fmap_nil_inv in Hb.
    assert (Hf : p ∈ filter (fun q => count q = n) (al_remove k al))
      by (apply list_elem_of_filter; done).
    rewrite Hb in Hf. set_solver.
Qed.

(** *** increase *)

(** The bucket a key arrives in. *)
Lemma bucket_arrive m b k :
  om_rep m b -> k ∉ map fst b -> om_rep (om_MoveToHead (om_Put m k tt) k) ((k, tt) :: b).
Proof.
  intros Hm Hk. pose proof (om_Put_rep _ _ k tt Hm) as Hp. rewrite al_put_new in Hp by done.
  pose proof (om_MoveToHead_rep _ _ k Hp) as Hh.
  destruct (al_split k tt b [] (om_keys _ _ Hp)) as (Hg & _ & Hr).
  unfold al_front in Hh. by rewrite Hg, Hr, app_nil_r in Hh.
Qed.

(** The last lines of increase: the key enters the bucket of its new count. *)
Lemma arrive_counts c al k w n :
  NoDup (map fst al) -> k ∉ map fst al -> 0 <= n ->
  (forall k', k' <> k -> freq c !! k' = snd <$> al_get k' al) ->
  Forall (fun p => 1 <= count p) al ->
  (forall f, match freqMap c !! f with Some m => om_rep m (bucket f al) | None => bucket f al = [] end) ->
  lfu_counts (mkLFU (l_itemMap c) (<[k := n + 1]> (freq c))
    (<[n + 1 := om_MoveToHead (om_Put (default om_new (freqMap c !! (n + 1))) k tt) k]> (freqMap c))
    (l_capacity c) (minUsed c)) ((k, (w, n + 1)) :: al).
Proof.
  intros Hnd Hk Hn Hf Hpos Hb. split; cbn [freq freqMap].
  - by constructor.
  - intros k'. cbn [al_get]. destruct (decide (k' = k)) as [->|Hne].
    + by rewrite lookup_insert_eq.
    + rewrite lookup_insert_ne by done. by apply Hf.
  - constructor; [unfold count; simpl; lia|done].
  - intros f. pose proof (bucket_cons f (k, (w, n + 1)) al) as Hbc. unfold count in Hbc at 1.
    cbn [fst snd] in Hbc. destruct (decide (n + 1 = f)) as [<-|Hne]; rewrite Hbc.
    + rewrite lookup_insert_eq. apply bucket_arrive.
      * specialize (Hb (n + 1)). destruct (freqMap c !! (n + 1)); simpl; [done|].
        rewrite Hb. apply om_new_rep.
      * intros Hin. apply bucket_key in Hin as [v Hin]. apply Hk.
        by apply (list_elem_of_fmap_2 fst) in Hin.
    + rewrite lookup_insert_ne by done. apply Hb.
Qed.

Lemma increase_new c al k w :
  lfu_counts c al -> al_get k al = None ->
  exists c', increase c k = Ret c' /\ lfu_counts c' ((k, (w, 1)) :: al) /\
    l_itemMap c' = l_itemMap c /\ l_capacity c' = l_capacity c /\ minUsed c' = minUsed c.
Proof.
  intros [Hnd Hf Hpos Hb] Hg. unfold increase. rewrite Hf, Hg. simpl.
  eexists. split; [done|]. split; [|done].
  apply (arrive_counts c al k w 0); auto; [by apply al_get_None | lia].
Qed.

Lemma increase_old c al k v n w :
  lfu_counts c al -> al_get k al = Some (v, n) -> minUsed c = min_count al ->
  let al' := (k, (w, n + 1)) :: al_remove k al in
  exists c', increase c k = Ret c' /\ lfu_counts c' al' /\
    l_itemMap c' = l_itemMap c /\ l_capacity c' = l_capacity c /\ minUsed c' = min_count al'.
Proof.
  intros [Hnd Hf Hpos Hb] Hg Hmin al'. subst al'. rewrite (min_count_touch al k v n w Hnd Hg).
  pose proof Hg as Hin. apply al_get_Some in Hin; [|done].
  assert (Hn1 : 1 <= n). { rewrite Forall_forall in Hpos. by apply (Hpos _ Hin). }
  destruct (al_remove_keys k al Hnd) as [Hnd' Hk'].
  unfold increase. rewrite Hf, Hg. cbn [fmap option_fmap option_map snd default from_option id].
  assert (E0 : (n =? 0) = false) by (apply Z.eqb_neq; lia). rewrite E0. cbn [negb].
  assert (Hbn : exists m, freqMap c !! n = Some m /\ om_rep m (bucket n al)).
  { specialize (Hb n). destruct (freqMap c !! n) as [m|]; [eauto|]. exfalso.
    unfold bucket in Hb. apply fmap_nil_inv in Hb.
    assert (Hx : (k, (v, n)) ∈ filter (fun p => count p = n) al) by (apply list_elem_of_filter; done).
    rewrite Hb in Hx. by apply not_elem_of_nil in Hx. }
  destruct Hbn as (m & Hm & Hrep). rewrite Hm. cbn [deref outcome_bind].
  pose proof (om_Remove_rep _ _ k Hrep) as Hrep'. rewrite <- bucket_remove in Hrep'.
  rewrite (om_Size_rep _ _ Hrep'), Hmin.
  assert (Hbk : forall f, f <> n -> bucket f (al_remove k al) = bucket f al).
  { intros f Hne. rewrite bucket_remove. apply al_remove_absent. by eapply bucket_absent. }
  assert (Hcond : (n =? min_count al) && (len (bucket n (al_remove k al)) =? 0)
    = bool_decide (n = min_count al /\ bucket n (al_remove k al) = [])).
  { apply eq_bool_prop_intro. rewrite bool_decide_spec. split.
    - intros [H1 H2]%andb_prop_elim. apply Is_true_true, Z.eqb_eq in H1, H2. by apply len_0_inv in H2.
    - intros [H1 ->]. rewrite H1, Z.eqb_refl. done. }
  rewrite Hcond. set (gone := bool_decide _). set (fm := <[n := om_Remove m k]> (freqMap c)).
  set (c1 := mkLFU (l_itemMap c) (freq c) (if gone then delete n fm else fm) (l_capacity c)
               (if gone then n + 1 else min_count al)).
  assert (E1 : (if gone
    then Ret (mkLFU (l_itemMap c) (freq c) (delete n fm) (l_capacity c) (n + 1))
    else Ret (mkLFU (l_itemMap c) (freq c) fm (l_capacity c) (minUsed c))) = Ret c1).
  { subst c1. rewrite Hmin. by destruct gone. }
  rewrite <- Hmin, E1. cbn [outcome_bind]. eexists. split; [done|]. split; [|split; [done|split; [done|]]].
  - apply (arrive_counts c1 (al_remove k al) k w n); try done; [lia| | |].
    + intros k' Hne. cbn [c1 freq]. rewrite Hf, al_get_remove, decide_False by done. done.
    + apply Forall_forall. intros p [Hp _]%remove_elem. rewrite Forall_forall in Hpos. auto.
    + intros f. subst c1 fm gone. cbn [freqMap]. case_bool_decide as Hg'.
      * destruct (decide (f = n)) as [->|Hne]; [rewrite lookup_delete_eq; apply Hg'|].
        rewrite lookup_delete_ne, lookup_insert_ne, Hbk by done. apply Hb.
      * destruct (decide (f = n)) as [->|Hne]; [by rewrite lookup_insert_eq|].
        rewrite lookup_insert_ne, Hbk by done. apply Hb.
  - subst c1 gone. cbn [minUsed]. rewrite ?Hmin. case_bool_decide; case_decide; tauto.
Qed.

(** *** evict *)

Lemma victim_last al :
  NoDup (map fst al) -> al <> [] ->
  exists p, victim al = Some p /\ p ∈ al /\ count p = min_count al /\
    bucket (min_count al) al = bucket (min_count al) (al_remove (fst p) al) ++ [(fst p, tt)].
Proof.
  intros Hnd Hne. unfold victim. set (m := min_count al). pose proof (bucket_keys m al Hnd) as Hbk.
  destruct (last (filter (fun p => count p = m) al)) as [p|] eqn:El.
  - exists p. apply last_Some in El as [fl Hfl].
    assert (Hp : p ∈ filter (fun q => count q = m) al) by (rewrite Hfl; set_solver).
    apply list_elem_of_filter in Hp as [Hc Hp]. split_and!; try done.
    rewrite bucket_remove. unfold bucket in *. rewrite Hfl, map_app in *. cbn [map] in *.
    by destruct (al_split (fst p) tt _ [] Hbk) as (_ & _ & ->); rewrite app_nil_r.
  - exfalso. apply last_None in El. destruct (min_count_in al Hne) as (p & Hp & Hc).
    assert (Hx : p ∈ filter (fun q => count q = m) al) by (apply list_elem_of_filter; done).
    rewrite El in Hx. by apply not_elem_of_nil in Hx.
Qed.

(** Making room removes exactly the victim. *)
Lemma evict_rep c al :
  lfu_rep c al -> al <> [] ->
  exists c', evict c = Ret c' /\ lfu_counts c' (spec_evict al) /\
    (forall k, l_itemMap c' !! k = fst <$> al_get k (spec_evict al)) /\
    l_capacity c' = l_capacity c /\ len (spec_evict al) < len al.
Proof.
  intros ([Hnd Hf Hpos Hb] & Hi & Hlen & Hcap & Hmin) Hne. specialize (Hmin Hne).
  destruct (victim_last al Hnd Hne) as ([k [v n]] & Ev & Hp & Hc & Hbk).
  unfold count in Hc. cbn [fst snd] in *. unfold spec_evict, evict. rewrite Ev, Hmin. cbn [fst].
  assert (Hbm : exists m, freqMap c !! min_count al = Some m /\ om_rep m (bucket (min_count al) al)).
  { specialize (Hb (min_count al)). destruct (freqMap c !! min_count al) as [m|]; [eauto|].
    exfalso. rewrite Hb in Hbk. by apply app_cons_not_nil in Hbk. }
  destruct Hbm as (m & Em & Hrep). rewrite Em, Hbk in *. cbn [deref outcome_bind].
  destruct (om_RemoveLast_rep _ _ _ _ Hrep) as (m' & -> & Hrep').
  pose proof Hp as Hg. apply al_get_Some in Hg; [|done]. destruct (al_remove_keys k al Hnd) as [Hnd' Hk'].
  eexists. split; [done|]. split_and!; cbn [l_itemMap l_capacity]; try done.
  - split; cbn [freq freqMap]; [done| | |].
    + intros k'. rewrite al_get_remove. case_decide as Hx; [subst; by rewrite lookup_delete_eq|].
      by rewrite lookup_delete_ne by done.
    + apply Forall_forall. intros p [Hq _]%remove_elem. rewrite Forall_forall in Hpos. auto.
    + intros f. destruct (decide (f = min_count al)) as [->|Hf']; [by rewrite lookup_insert_eq|].
      rewrite lookup_insert_ne by done. rewrite bucket_remove, al_remove_absent; [apply Hb|].
      eapply bucket_absent; [done..|]. congruence.
  - intros k'. rewrite al_get_remove. case_decide as Hx; [subst; by rewrite lookup_delete_eq|].
    by rewrite lookup_delete_ne by done.
  - unfold len, al_remove. apply list_elem_of_split in Hp as (l & r & ->).
    rewrite filter_app, filter_cons_False by (simpl; tauto). rewrite !length_app. simpl.
    pose proof (length_filter (fun p : K * (V * Z) => fst p <> k) l).
    pose proof (length_filter (fun p : K * (V * Z) => fst p <> k) r). lia.
Qed.

(** *** Put and Get *)

Lemma size_itemMap c (al : entries) :
  NoDup (map fst al) -> (forall k, l_itemMap c !! k = fst <$> al_get k al) ->
  Z.of_nat (size (l_itemMap c)) = len al.
Proof.
  intros Hnd Hi. assert (E : l_itemMap c = list_to_map (map (fun p => (fst p, fst (snd p))) al)).
  { apply map_eq. intros k. rewrite Hi. clear. induction al as [|[k' [v n]] al IH]; simpl; [done|].
    case_decide; [subst; by rewrite lookup_insert_eq | by rewrite lookup_insert_ne by done]. }
  rewrite E. unfold len. rewrite map_size_list_to_map; [by rewrite length_map|].
  by rewrite map_map.
Qed.

Lemma touch_items (g : gmap K V) (al : entries) k v n w :
  NoDup (map fst al) -> al_get k al = Some (v, n) -> (forall k, g !! k = fst <$> al_get k al) ->
  (forall k', <[k := w]> g !! k' = fst <$> al_get k' ((k, (w, n + 1)) :: al_remove k al)) /\
  len ((k, (w, n + 1)) :: al_remove k al) = len al.
Proof.
  intros Hnd Hg Hi. split.
  - intros k'. cbn [al_get]. case_decide as Hx; [subst; by rewrite lookup_insert_eq|].
    rewrite lookup_insert_ne by done. by rewrite al_get_remove, decide_False, Hi by done.
  - apply al_get_Some in Hg; [|done]. apply list_elem_of_split in Hg as (l & r & ->).
    destruct (al_split k (v, n) l r Hnd) as (_ & _ & ->). glen; lia.
Qed.

Lemma lfu_Get_rep c al k :
  lfu_rep c al ->
  exists c', lfu_Get c k = Ret (c', snd (lfu_spec_Get k al)) /\
    lfu_rep c' (fst (lfu_spec_Get k al)) /\ l_capacity c' = l_capacity c.
Proof.
  intros Hrep. pose proof Hrep as (Hc & Hi & Hlen & Hcap & Hmin). unfold lfu_Get, lfu_spec_Get.
  rewrite Hi. destruct (al_get k al) as [[v n]|] eqn:Hg; simpl; [|by exists c].
  assert (Hne : al <> []) by (by intros ->). specialize (Hmin Hne).
  destruct (increase_old c al k v n v Hc Hg Hmin) as (c' & -> & Hc' & Ei & Ec & Em). simpl.
  destruct (touch_items (l_itemMap c) al k v n v (lc_keys _ _ Hc) Hg Hi) as [Hi' Hl].
  exists c'. split; [done|]. split; [|done]. split; [done|]. rewrite Ei, Ec, Hl. split_and!; try done.
  intros k'. rewrite <- Hi'. rewrite insert_id; [done|]. by rewrite Hi, Hg.
Qed.

Lemma lfu_Put_rep c al k v :
  lfu_rep c al ->
  exists c', lfu_Put c k v = Ret c' /\ lfu_rep c' (lfu_spec_Put (l_capacity c) k v al) /\
    l_capacity c' = l_capacity c.
Proof.
  intros Hrep. pose proof Hrep as (Hc & Hi & Hlen & Hcap & Hmin). unfold lfu_Put, lfu_spec_Put.
  rewrite Hi. destruct (al_get k al) as [[v0 n]|] eqn:Hg; cbn [fmap option_fmap option_map outcome_bind].
  - assert (Hne : al <> []) by (by intros ->). specialize (Hmin Hne).
    set (c1 := mkLFU (<[k := v]> (l_itemMap c)) (freq c) (freqMap c) (l_capacity c) (minUsed c)).
    assert (Hc1 : lfu_counts c1 al) by (by destruct Hc).
    destruct (increase_old c1 al k v0 n v Hc1 Hg Hmin) as (c' & -> & Hc' & Ei & Ec & Em).
    destruct (touch_items (l_itemMap c) al k v0 n v (lc_keys _ _ Hc) Hg Hi) as [Hi' Hl].
    exists c'. split; [done|]. split; [|done]. split; [done|]. rewrite Ei, Ec, Hl. by split_and!.
  - rewrite (size_itemMap c al (lc_keys _ _ Hc) Hi).
    set (al1 := if len al =? l_capacity c then spec_evict al else al).
    assert (Hroom : exists c1, (if len al =? l_capacity c then evict c else Ret c) = Ret c1 /\
      lfu_counts c1 al1 /\ (forall k, l_itemMap c1 !! k = fst <$> al_get k al1) /\
      l_capacity c1 = l_capacity c /\ len al1 < l_capacity c /\ al_get k al1 = None).
    { subst al1. destruct (len al =? l_capacity c) eqn:E; breflect; [|exists c; split_and!; auto; lia].
      destruct (evict_rep c al Hrep) as (c1 & E1 & Hc1 & Hi1 & Ec1 & Hl1).
      { intros ->. rewrite len_nil in *. lia. }
      exists c1. split_and!; auto; [lia|]. unfold spec_evict. destruct (victim al); [|done].
      rewrite al_get_remove. by case_decide. }
    destruct Hroom as (c1 & -> & Hc1 & Hi1 & Ec1 & Hl1 & Hg1). cbn [outcome_bind].
    cbn [l_itemMap freq freqMap l_capacity minUsed].
    set (c2 := mkLFU (<[k := v]> (l_itemMap c1)) (freq c1) (freqMap c1) (l_capacity c1) 1).
    assert (Hc2 : lfu_counts c2 al1) by (by destruct Hc1).
    destruct (increase_new c2 al1 k v Hc2 Hg1) as (c' & -> & Hc' & Ei & Ec & Em).
    exists c'. split; [done|]. rewrite Ec. cbn [c2 l_capacity]. split; [|done].
    split; [done|]. rewrite Ei, Ec, Em. cbn [c2 l_itemMap l_capacity minUsed]. rewrite Ec1. split_and!.
    + intros k'. cbn [al_get]. case_decide as Hx; [subst; by rewrite lookup_insert_eq|].
      rewrite lookup_insert_ne by done. apply Hi1.
    + glen; lia.
    + done.
    + intros _. apply min_count_unique; [exists (k, (v, 1)); set_solver|].
      apply (lc_pos _ _ Hc').
Qed.

(** ** Runs *)

Inductive lfu_op : Type :=
| LfuGet (k : K)
| LfuPut (k : K) (v : V).

(** A sequence of calls: the results of the Gets. *)
Fixpoint lfu_run (c : LFUCache) (ops : list lfu_op) : outcome (LFUCache * list (option V)) :=
  match ops with
  | [] => Ret (c, [])
  | LfuGet k :: ops =>
      run (c, r) <- lfu_Get c k; run (c, rs) <- lfu_run c ops; Ret (c, r :: rs)
  | LfuPut k v :: ops => run c <- lfu_Put c k v; lfu_run c ops
  end.

Fixpoint lfu_spec_run (cap : Z) (al : entries) (ops : list lfu_op) : entries * list (option V) :=
  match ops with
  | [] => (al, [])
  | LfuGet k :: ops =>
      let '(al, r) := lfu_spec_Get k al in
      let '(al, rs) := lfu_spec_run cap al ops in (al, r :: rs)
  | LfuPut k v :: ops => lfu_spec_run cap (lfu_spec_Put cap k v al) ops
  end.

Lemma lfu_run_rep ops c al :
  lfu_rep c al ->
  exists c', lfu_run c ops = Ret (c', snd (lfu_spec_run (l_capacity c) al ops)) /\
    lfu_rep c' (fst (lfu_spec_run (l_capacity c) al ops)) /\ l_capacity c' = l_capacity c.
Proof.
  revert c al. induction ops as [|[k|k v] ops IH]; intros c al Hrep; [by exists c| |].
  - destruct (lfu_Get_rep c al k Hrep) as (c1 & E & Hrep1 & Hc).
    cbn [lfu_run lfu_spec_run]. rewrite E. cbn [outcome_bind].
    destruct (lfu_spec_Get k al) as [al1 r]. cbn [fst snd] in *.
    destruct (IH c1 al1 Hrep1) as (c2 & E2 & Hrep2 & Hc2). rewrite E2, Hc in *. cbn [outcome_bind].
    destruct (lfu_spec_run (l_capacity c) al1 ops) as [al2 rs]. by exists c2.
  - destruct (lfu_Put_rep c al k v Hrep) as (c1 & E & Hrep1 & Hc).
    cbn [lfu_run lfu_spec_run]. rewrite E. cbn [outcome_bind].
    destruct (IH c1 _ Hrep1) as (c2 & E2 & Hrep2 & Hc2). rewrite Hc in *. by exists c2.
Qed.

Lemma NewLFUCache_rep cap : 1 <= cap -> lfu_rep (NewLFUCache cap) [].
Proof.
  intros Hcap. split; [|split_and!; try done; rewrite len_nil; simpl; lia].
  split; [constructor | done | constructor | intros f; simpl; by rewrite lookup_empty].
Qed.

(** C38: With a capacity of at least 1, a sequence of Put and Get calls never
    panics and answers as the list of entries with use counts, from which Put of
    a new key to a full cache drops the entry used least and, among those, not
    used for longest; the cache never holds more entries than its capacity.  With
    capacity 0 the first Put panics: there is no bucket to evict from. *)
Theorem LFUCache_refines (cap : Z) (ops : list lfu_op) :
  (1 <= cap -> exists c', lfu_run (NewLFUCache cap) ops = Ret (c', snd (lfu_spec_run cap [] ops)) /\
     Z.of_nat (size (l_itemMap c')) = len (fst (lfu_spec_run cap [] ops)) /\
     Z.of_nat (size (l_itemMap c')) <= cap) /\
  (cap = 0 -> forall k v, lfu_run (NewLFUCache cap) (LfuPut k v :: ops) = Panic).
Proof.
  split.
  - intros Hcap. destruct (lfu_run_rep ops _ _ (NewLFUCache_rep cap Hcap))
      as (c' & E & (Hc & Hi & Hlen & _) & Ecap).
    exists c'. split; [done|]. pose proof (size_itemMap c' _ (lc_keys _ _ Hc) Hi) as Hs.
    rewrite Hs. split; [done|]. cbn [NewLFUCache l_capacity] in *. lia.
  - intros -> k v. done.
Qed.
End LFU.

(** The cache as the code builds it, on linked hash maps. *)
Definition lfu_sample : list (@lfu_op Z Z) :=
  [LfuPut 1 10; LfuPut 2 20; LfuGet 1; LfuPut 3 30; LfuGet 2; LfuGet 1; LfuGet 3].

Definition lfu_start : @LFUCache Z Z _ _ (LinkedHashMap_OrderedMap 0) := NewLFUCache 2.

Lemma LFUCache_refines_witness :
  exists c' : @LFUCache Z Z _ _ (LinkedHashMap_OrderedMap 0),
    lfu_run lfu_start lfu_sample = Ret (c', [Some 10; None; Some 10; Some 30]) /\
    Z.of_nat (size (l_itemMap c')) = 2 /\ Z.of_nat (size (l_itemMap c')) <= 2.
Proof.
  destruct (@LFUCache_refines Z Z _ _ (LinkedHashMap_OrderedMap 0) 2 lfu_sample) as [Hr _].
  apply Hr. lia.
Defined.
