(* ===== verification/PQueue.v ===== *)
(** * ObjectPriorityQueue

    [pkg/basic/object_priority_queue.go]: a binary heap in a slice, ordered by
    the strings of its elements.  Polling is refined to taking a first element
    of a bag. *)

From Stdlib Require Import ZifyNat Sorted.
From S2P Require Import Prelude Bytes.

(** The interface [Ordered]. *)
Class Ordered (T : Type) := String : T -> bytes.

Section PQueue.
Context {T : Type} `{!Ordered T}.

(** [arr] is the visible part of the slice and [acap] its capacity; [size] is
    the field of that name.  A zero ObjectPriorityQueue is [mkPQ [] 0 0 Max]. *)
Record ObjectPriorityQueue := mkPQ {
  arr : list T;
  acap : Z;
  qsize : nat;
  Max : bool
}.

Definition with_arr (h : ObjectPriorityQueue) (a : list T) : ObjectPriorityQueue :=
  mkPQ a (acap h) (qsize h) (Max h).

Definition compare (h : ObjectPriorityQueue) (i j : nat) : outcome bool :=
  run x <- deref (arr h !! i);
  run y <- deref (arr h !! j);
  if Max h then Ret (bytes_ltb (String x) (String y))
  else Ret (bytes_ltb (String y) (String x)).

Definition swap (h : ObjectPriorityQueue) (i j : nat) : outcome ObjectPriorityQueue :=
  run tmp <- deref (arr h !! i);
  run y <- deref (arr h !! j);
  Ret (with_arr h (<[j := tmp]> (<[i := y]> (arr h)))).

(** The two [if] statements of down: [t] or the child, whichever wins. *)
Definition better (h : ObjectPriorityQueue) (t _t : nat) : outcome nat :=
  if bool_decide (_t < qsize h)%nat
  then run c <- compare h t _t; Ret (if c then _t else t)
  else Ret t.

(** The recursion moves to a child, so [size] calls are enough. *)
Fixpoint down (fuel : nat) (h : ObjectPriorityQueue) (i : nat) : outcome ObjectPriorityQueue :=
  match fuel with
  | O => OutOfFuel
  | S fuel =>
      run t <- better h i (i * 2 + 1);
      run t <- better h t (i * 2 + 2);
      if bool_decide (t <> i)
      then run h <- swap h i t; down fuel h t
      else Ret h
  end.

(** The loop moves to the parent, so [i + 1] rounds are enough. *)
Fixpoint up (fuel : nat) (h : ObjectPriorityQueue) (i : nat) : outcome ObjectPriorityQueue :=
  match fuel with
  | O => OutOfFuel
  | S fuel =>
      if bool_decide (0 < i)%nat then
        let parent := ((i - 1) / 2)%nat in
        run c <- compare h parent i;
        if c then run h <- swap h parent i; up fuel h parent
        else Ret h
      else Ret h
  end.

(** The capacity [append] gives to a full slice is the runtime's choice. *)
Definition Offer (growslice : Z -> Z) (h : ObjectPriorityQueue) (e : T) : outcome ObjectPriorityQueue :=
  let h :=
    if Z.of_nat (qsize h) <? acap h
    then with_arr h (take (qsize h) (arr h) ++ [e])
    else mkPQ (arr h ++ [e]) (growslice (acap h)) (qsize h) (Max h) in
  let h := mkPQ (arr h) (acap h) (S (qsize h)) (Max h) in
  up (qsize h) h (qsize h - 1).

(** [None] is [(zero, ErrOfNilElement)]. *)
Definition Poll (h : ObjectPriorityQueue) : outcome (ObjectPriorityQueue * option T) :=
  match qsize h with
  | O => Ret (h, None)
  | S n =>
      run res <- deref (arr h !! 0%nat);
      let h := mkPQ (arr h) (acap h) n (Max h) in
      run h <-
        (if bool_decide (0 < qsize h)%nat then
           run l <- deref (arr h !! qsize h);
           down (qsize h) (with_arr h (<[0%nat := l]> (arr h))) 0
         else Ret h);
      let h := with_arr h (take (qsize h) (arr h)) in
      let half := acap h / 2 in
      let h := if (Z.of_nat (qsize h) <? half) && (512 <? acap h)
               then mkPQ (arr h) half (qsize h) (Max h) else h in
      Ret (h, Some res)
  end.

Definition Peek (h : ObjectPriorityQueue) : outcome (option T) :=
  match qsize h with
  | O => Ret None
  | S _ => run x <- deref (arr h !! 0%nat); Ret (Some x)
  end.

Definition Size (h : ObjectPriorityQueue) : Z := Z.of_nat (qsize h).

Fixpoint indexOf_from (fuel : nat) (h : ObjectPriorityQueue) (e : T) (i : nat) : outcome Z :=
  match fuel with
  | O => Ret (-1)
  | S fuel =>
      run x <- deref (arr h !! i);
      if bytes_eqb (String x) (String e) then Ret (Z.of_nat i) else indexOf_from fuel h e (S i)
  end.

(** The loop runs [size] times at most. *)
Definition indexOf (h : ObjectPriorityQueue) (e : T) : outcome Z := indexOf_from (qsize h) h e 0.

Definition Contains (h : ObjectPriorityQueue) (e : T) : outcome bool :=
  run i <- indexOf h e; Ret (negb (i =? -1)).

(** ** The order *)

(** [y] belongs above [x]: what [compare] computes. *)
Definition worse (m : bool) (x y : T) : bool :=
  if m then bytes_ltb (String x) (String y) else bytes_ltb (String y) (String x).

(** [x] may stand above [y]: its string is not larger, or with Max not smaller. *)
Definition above (m : bool) (x y : T) : Prop := worse m x y = false.

Lemma above_refl m x : above m x x.
Proof. unfold above, worse. destruct m; apply bytes_ltb_irrefl. Qed.

Lemma above_trans m x y z : above m x y -> above m y z -> above m x z.
Proof.
  unfold above, worse. destruct m; intros H1 H2; eapply bytes_ltb_false_trans; eassumption.
Qed.

Lemma worse_above m x y : worse m x y = true -> above m y x.
Proof.
  unfold above, worse. intros H. destruct m; destruct (bytes_ltb _ _) eqn:E in |- *; try done.
  all: pose proof (bytes_ltb_trans _ _ _ H E) as Hx; by rewrite bytes_ltb_irrefl in Hx.
Qed.

Lemma compare_worse h i j x y :
  arr h !! i = Some x -> arr h !! j = Some y -> compare h i j = Ret (worse (Max h) x y).
Proof. unfold compare, worse. intros -> ->. simpl. by destruct (Max h). Qed.

(** ** The heap *)

Definition parent (i : nat) : nat := ((i - 1) / 2)%nat.

Lemma parent_lt i : (0 < i)%nat -> (parent i < i)%nat.
Proof. unfold parent. lia. Qed.

Lemma parent_child i j : (0 < j)%nat -> parent j = i <-> (j = i * 2 + 1 \/ j = i * 2 + 2)%nat.
Proof. unfold parent. lia. Qed.

(** Among the first [n] elements, the links that [P] selects are in order. *)
Definition ordered (m : bool) (n : nat) (l : list T) (P : nat -> Prop) : Prop :=
  forall j x y, (0 < j < n)%nat -> P j -> l !! parent j = Some x -> l !! j = Some y -> above m x y.

Definition is_heap (m : bool) (n : nat) (l : list T) : Prop := ordered m n l (fun _ => True).

(** The grandchildren links over [i]: its children may stand below its parent. *)
Definition bridged (m : bool) (n : nat) (l : list T) (i : nat) : Prop :=
  forall j x y, (0 < i)%nat -> (0 < j < n)%nat -> parent j = i ->
    l !! parent i = Some x -> l !! j = Some y -> above m x y.

Definition swapped (l : list T) (i j : nat) (x y : T) : list T := <[j := x]> (<[i := y]> l).

Lemma swapped_lookup l i j x y k :
  l !! i = Some x -> l !! j = Some y ->
  swapped l i j x y !! k
  = if decide (k = j) then Some x else if decide (k = i) then Some y else l !! k.
Proof.
  intros Hi%lookup_lt_Some Hj%lookup_lt_Some. unfold swapped. case_decide; subst.
  - apply list_lookup_insert_eq. by rewrite length_insert.
  - rewrite list_lookup_insert_ne by done. case_decide; subst.
    + by apply list_lookup_insert_eq.
    + by rewrite list_lookup_insert_ne by done.
Qed.

Lemma swapped_perm l i j x y :
  l !! i = Some x -> l !! j = Some y -> swapped l i j x y ≡ₚ l.
Proof. intros. by apply Permutation_insert_swap. Qed.

Lemma swap_swapped h i j x y :
  arr h !! i = Some x -> arr h !! j = Some y -> swap h i j = Ret (with_arr h (swapped (arr h) i j x y)).
Proof. unfold swap, swapped. by intros -> ->. Qed.

(** Decides the places of a swapped slice that a link touches. *)
Ltac swapped_links :=
  match goal with
  | Hx : swapped _ _ _ _ _ !! _ = Some _, Hy : swapped _ _ _ _ _ !! _ = Some _ |- _ =>
      erewrite swapped_lookup in Hx, Hy by eassumption;
      repeat case_decide; simplify_eq
  end.

(** *** up *)

Lemma up_links m n l i x y :
  (0 < i)%nat -> l !! parent i = Some x -> l !! i = Some y -> worse m x y = true ->
  ordered m n l (fun j => j <> i) -> bridged m n l i -> (i < n)%nat ->
  let l' := swapped l (parent i) i x y in
  ordered m n l' (fun j => j <> parent i) /\ bridged m n l' (parent i).
Proof.
  intros Hi Hx Hy Hw%worse_above Ho Hb Hn l'. pose proof (parent_lt i Hi) as Hp. subst l'. split.
  - intros j u v Hj Hne Hu Hv. pose proof (parent_lt j ltac:(lia)). swapped_links; try done; try lia.
    + by eapply (Hb j).
    + apply above_trans with x; [done|]. eapply (Ho j); try done; congruence.
    + by eapply (Ho j).
  - intros j u v Hp0 Hj Hne Hu Hv. pose proof (parent_lt j ltac:(lia)).
    pose proof (parent_lt _ Hp0). assert (Hpx : above m u x).
    { erewrite swapped_lookup, !decide_False in Hu by (done || lia). eapply (Ho (parent i)); try done; lia. }
    swapped_links; try done; try lia.
    apply above_trans with x; [done|]. eapply (Ho j); try done. congruence.
Qed.

Lemma up_spec fuel h i :
  (i < fuel)%nat -> (i < length (arr h))%nat ->
  ordered (Max h) (length (arr h)) (arr h) (fun j => j <> i) -> bridged (Max h) (length (arr h)) (arr h) i ->
  exists a, up fuel h i = Ret (with_arr h a) /\ a ≡ₚ arr h /\ is_heap (Max h) (length (arr h)) a.
Proof.
  revert h i. induction fuel as [|fuel IH]; [lia|]. intros h i Hf Hi Ho Hb. cbn [up].
  case_bool_decide as H0.
  2: { exists (arr h). split; [by destruct h|]. split; [done|].
       intros j u v Hj _. apply Ho; lia. }
  fold (parent i). pose proof (parent_lt i H0) as Hp.
  destruct (lookup_lt_is_Some_2 (arr h) i Hi) as [y Hy].
  destruct (lookup_lt_is_Some_2 (arr h) (parent i) ltac:(lia)) as [x Hx].
  rewrite (compare_worse h _ _ x y Hx Hy). cbn [outcome_bind].
  destruct (worse (Max h) x y) eqn:Hw.
  - rewrite (swap_swapped h _ _ x y Hx Hy). cbn [outcome_bind].
    destruct (up_links (Max h) (length (arr h)) (arr h) i x y H0 Hx Hy Hw Ho Hb Hi) as [Ho' Hb'].
    set (l' := swapped (arr h) (parent i) i x y) in *.
    assert (Hperm : l' ≡ₚ arr h) by (by apply swapped_perm).
    pose proof (Permutation_length Hperm) as Hlen.
    destruct (IH (with_arr h l') (parent i)) as (a & Ha & Hpa & Hh); cbn [arr with_arr Max];
      rewrite ?Hlen; try done; try lia.
    exists a. rewrite Ha. cbn [arr with_arr Max] in *. rewrite Hlen in Hh. split; [done|]. split; [|done].
    by rewrite Hpa.
  - exists (arr h). split; [by destruct h|]. split; [done|]. intros j u v Hj _ Hu Hv.
    destruct (decide (j = i)) as [->|Hne]; [by simplify_eq|]. by eapply (Ho j).
Qed.

(** *** down *)

Lemma down_links m n l i t x z :
  l !! i = Some x -> l !! t = Some z -> (0 < t < n)%nat -> parent t = i -> above m z x ->
  (forall j y, (0 < j < n)%nat -> parent j = i -> l !! j = Some y -> above m z y) ->
  ordered m n l (fun j => parent j <> i) -> bridged m n l i ->
  let l' := swapped l i t x z in
  ordered m n l' (fun j => parent j <> t) /\ bridged m n l' t.
Proof.
  intros Hx Hz Ht Hp Hzx Hbest Ho Hb l'. pose proof (parent_lt t ltac:(lia)). subst l'. split.
  - intros j u v Hj Hne Hu Hv. pose proof (parent_lt j ltac:(lia)). swapped_links; try done; try lia.
    + eapply (Hb t); try done; lia.
    + by eapply (Hbest j).
    + by eapply (Ho j).
  - intros j u v _ Hj Hne Hu Hv. pose proof (parent_lt j ltac:(lia)).
    rewrite Hp in *. swapped_links; try done; try lia. eapply (Ho j); try done; lia.
Qed.

(** After the two tests [t] is the place of the best of [i] and its children. *)
Lemma best_spec h i x :
  (qsize h <= length (arr h))%nat -> arr h !! i = Some x ->
  exists t z, (run t <- better h i (i * 2 + 1); better h t (i * 2 + 2)) = Ret t /\
    arr h !! t = Some z /\ above (Max h) z x /\
    (t = i \/ (0 < t < qsize h)%nat /\ parent t = i) /\
    (forall j y, (0 < j < qsize h)%nat -> parent j = i -> arr h !! j = Some y -> above (Max h) z y).
Proof.
  intros Hlen Hx.
  assert (Hstep : forall t z c, arr h !! t = Some z -> (t = i \/ (0 < t < qsize h)%nat /\ parent t = i) ->
    (0 < c)%nat -> parent c = i ->
    exists t' z', better h t c = Ret t' /\ arr h !! t' = Some z' /\ above (Max h) z' z /\
      (t' = i \/ (0 < t' < qsize h)%nat /\ parent t' = i) /\
      (forall y, (c < qsize h)%nat -> arr h !! c = Some y -> above (Max h) z' y)).
  { intros t z c Hz Ht Hc0 Hc. unfold better. case_bool_decide as Hb.
    - destruct (lookup_lt_is_Some_2 (arr h) c ltac:(lia)) as [y Hy].
      rewrite (compare_worse h t c z y Hz Hy). cbn [outcome_bind].
      destruct (worse (Max h) z y) eqn:Hw.
      + exists c, y. split_and!; auto using worse_above. intros y' _ Hy'. simplify_eq. apply above_refl.
      + exists t, z. split_and!; auto using above_refl. intros y' _ Hy'. by simplify_eq.
    - exists t, z. split_and!; auto using above_refl. intros y' Hlt. lia. }
  destruct (Hstep i x (i * 2 + 1)%nat) as (t1 & z1 & E1 & Hz1 & Ha1 & Ht1 & Hb1); auto;
    [lia | apply parent_child; lia |].
  destruct (Hstep t1 z1 (i * 2 + 2)%nat) as (t2 & z2 & E2 & Hz2 & Ha2 & Ht2 & Hb2); auto;
    [lia | apply parent_child; lia |].
  exists t2, z2. rewrite E1. cbn [outcome_bind]. split_and!; auto; [by apply above_trans with z1|].
  intros j y Hj Hpj Hy. apply parent_child in Hpj as [->| ->]; [|by apply Hb2; [lia|]|lia].
  apply above_trans with z1; [done|]. apply Hb1; [lia|done].
Qed.

Lemma down_spec fuel h i :
  (qsize h <= fuel + i)%nat -> (i < qsize h)%nat -> (qsize h <= length (arr h))%nat ->
  ordered (Max h) (qsize h) (arr h) (fun j => parent j <> i) -> bridged (Max h) (qsize h) (arr h) i ->
  exists a, down fuel h i = Ret (with_arr h a) /\ a ≡ₚ arr h /\
    drop (qsize h) a = drop (qsize h) (arr h) /\ is_heap (Max h) (qsize h) a.
Proof.
  revert h i. induction fuel as [|fuel IH]; [lia|]. intros h i Hf Hi Hlen Ho Hb. cbn [down].
  destruct (lookup_lt_is_Some_2 (arr h) i ltac:(lia)) as [x Hx].
  destruct (best_spec h i x Hlen Hx) as (t & z & Et & Hz & Hzx & Ht & Hbest).
  destruct (better h i (i * 2 + 1)) as [t1| |]; cbn [outcome_bind] in *; try done. rewrite Et.
  cbn [outcome_bind]. case_bool_decide as Hne.
  - destruct Ht as [|[Ht Hp]]; [done|]. rewrite (swap_swapped h i t x z Hx Hz). cbn [outcome_bind].
    destruct (down_links (Max h) (qsize h) (arr h) i t x z Hx Hz Ht Hp Hzx Hbest Ho Hb) as [Ho' Hb'].
    set (l' := swapped (arr h) i t x z) in *.
    assert (Hperm : l' ≡ₚ arr h) by (by apply swapped_perm).
    pose proof (Permutation_length Hperm) as Hl. pose proof (parent_lt t ltac:(lia)).
    destruct (IH (with_arr h l') t) as (a & Ha & Hpa & Hd & Hh); cbn [arr with_arr Max qsize];
      rewrite ?Hl; try done; try lia.
    exists a. rewrite Ha. cbn [arr with_arr Max qsize] in *. split_and!; try done; [by rewrite Hpa|].
    rewrite Hd. unfold l', swapped. rewrite !drop_insert_lt by lia. done.
  - assert (t = i) as -> by (destruct (decide (t = i)); tauto). simplify_eq.
    exists (arr h). split_and!; try done; [by destruct h|]. intros j u v Hj _ Hu Hv.
    destruct (decide (parent j = i)) as [<-|Hpj]; [simplify_eq; by eapply Hbest|]. by eapply (Ho j).
Qed.

(** ** The promise: a bag that gives back a first element *)

Definition pq_rep (h : ObjectPriorityQueue) (bag : list T) : Prop :=
  qsize h = length (arr h) /\ arr h ≡ₚ bag /\ is_heap (Max h) (qsize h) (arr h).

Lemma heap_top m l x j y :
  is_heap m (length l) l -> l !! 0%nat = Some x -> l !! j = Some y -> above m x y.
Proof.
  intros Hh Hx. revert y. induction j as [j IH] using lt_wf_ind. intros y Hy.
  destruct (decide (j = 0%nat)) as [->|Hj]; [simplify_eq; apply above_refl|].
  pose proof (parent_lt j ltac:(lia)) as Hp. pose proof (lookup_lt_Some _ _ _ Hy).
  destruct (lookup_lt_is_Some_2 l (parent j) ltac:(lia)) as [z Hz].
  apply above_trans with z; [by apply (IH (parent j))|]. eapply (Hh j); done || lia.
Qed.

Lemma Offer_rep growslice h bag e :
  pq_rep h bag -> exists h', Offer growslice h e = Ret h' /\ pq_rep h' (e :: bag) /\ Max h' = Max h.
Proof.
  intros (Hs & Hb & Hh). unfold Offer.
  set (h1 := if Z.of_nat (qsize h) <? acap h then _ else _).
  assert (E1 : arr h1 = arr h ++ [e] /\ qsize h1 = qsize h /\ Max h1 = Max h).
  { subst h1. case_if; simpl; [|done]. rewrite Hs, firstn_all. done. }
  destruct E1 as (Ea & Eq & Em). set (h2 := mkPQ (arr h1) (acap h1) (S (qsize h1)) (Max h1)).
  assert (Hl : length (arr h2) = S (qsize h)) by (simpl; rewrite Ea, length_app; simpl; lia).
  destruct (up_spec (qsize h2) h2 (qsize h2 - 1)) as (a & E & Hp & Hheap).
  - simpl. lia.
  - rewrite Hl. simpl. lia.
  - rewrite Hl. cbn [h2 arr qsize Max]. rewrite Ea, Eq, Em. intros j x y Hj Hne Hx Hy.
    pose proof (parent_lt j ltac:(lia)). rewrite lookup_app_l in Hx, Hy by lia.
    eapply (Hh j); done || lia.
  - rewrite Hl. cbn [h2 arr qsize Max]. intros j x y Hj Hne Hpar.
    apply parent_child in Hpar; lia.
  - exists (with_arr h2 a). split; [done|]. split; [|done].
    pose proof (Permutation_length Hp) as Hla. split; [simpl; lia|]. cbn [arr with_arr].
    split; [|by rewrite Hl, <- Eq in Hheap]. rewrite Hp. cbn [h2 arr]. rewrite Ea, Hb.
    by rewrite Permutation_app_comm.
Qed.

Lemma Poll_empty h : pq_rep h [] -> Poll h = Ret (h, None).
Proof.
  intros (Hs & Hb & _). apply Permutation_nil_r in Hb. unfold Poll. by rewrite Hs, Hb.
Qed.

(** What is left after the first element is replaced by the last and moved down. *)
Lemma Poll_down h x rest n :
  arr h = x :: rest -> qsize h = S n -> length rest = n -> (0 < n)%nat -> is_heap (Max h) (S n) (arr h) ->
  exists l a, arr h !! n = Some l /\
    down n (mkPQ (<[0%nat := l]> (arr h)) (acap h) n (Max h)) 0
      = Ret (mkPQ a (acap h) n (Max h)) /\
    length a = S n /\ take n a ≡ₚ rest /\ is_heap (Max h) n (take n a).
Proof.
  intros Ha Hq Hr Hn Hh. rewrite Ha in *. destruct (lookup_lt_is_Some_2 (x :: rest) n) as [l Hl]; [simpl; lia|].
  cbn [list_insert insert]. set (h1 := mkPQ (l :: rest) (acap h) n (Max h)).
  destruct (down_spec n h1 0) as (a & E & Hp & Hd & Hheap).
  - simpl. lia.
  - simpl. lia.
  - simpl. lia.
  - cbn [h1 qsize arr Max]. intros j u v Hj Hne Hu Hv.
    destruct j as [|j]; [lia|]. destruct (parent (S j)) as [|p] eqn:Ep; [done|].
    eapply (Hh (S j)); [lia|done| |exact Hv]. by rewrite Ep.
  - intros j u v. lia.
  - exists l, a. cbn [h1 arr qsize Max] in *. split; [done|]. split; [exact E|].
    pose proof (Permutation_length Hp) as Hla. simpl in Hla. split; [lia|]. split.
    + assert (Hlast : drop n (l :: rest) = [l]).
      { destruct n as [|n]; [lia|]. simpl in Hl |- *. destruct rest as [|r rest] using rev_ind; [simpl in Hr; lia|].
        rewrite length_app in Hr. simpl in Hr. assert (length rest = n) as <- by lia.
        rewrite drop_app_length. rewrite lookup_app_r, Nat.sub_diag in Hl by lia. by simplify_eq/=. }
      rewrite Hlast in Hd. rewrite <- (take_drop n a), Hd, Permutation_app_comm in Hp. simpl in Hp.
      by apply Permutation_cons_inv in Hp.
    + intros j u v Hj _ Hu Hv. pose proof (parent_lt j ltac:(lia)).
      rewrite lookup_take_lt in Hu, Hv by lia. by eapply (Hheap j).
Qed.

Lemma Poll_rep h bag :
  pq_rep h bag -> bag <> [] ->
  exists h' x rest, Poll h = Ret (h', Some x) /\ bag ≡ₚ x :: rest /\ Forall (above (Max h) x) bag /\
    pq_rep h' rest /\ Max h' = Max h.
Proof.
  intros (Hs & Hb & Hh) Hne. destruct (arr h) as [|x rest] eqn:Ea.
  { by apply Permutation_nil_l in Hb. }
  assert (Htop : Forall (above (Max h) x) bag).
  { apply Forall_forall. intros y Hy. rewrite <- Hb in Hy. apply list_elem_of_lookup in Hy as [j Hj].
    rewrite Hs in Hh. by eapply heap_top. }
  unfold Poll. simpl in Hs. rewrite Hs, Ea. cbn [deref lookup list_lookup outcome_bind qsize].
  set (h0 := mkPQ _ _ _ _).
  assert (Hdown : exists a, (if bool_decide (0 < length rest)%nat then
      run l <- deref ((x :: rest) !! length rest);
      down (length rest) (with_arr h0 (<[0%nat := l]> (x :: rest))) 0 else Ret h0)
      = Ret (mkPQ a (acap h) (length rest) (Max h)) /\
      (length rest <= length a)%nat /\ take (length rest) a ≡ₚ rest /\
      is_heap (Max h) (length rest) (take (length rest) a)).
  { case_bool_decide as H0.
    - destruct (Poll_down h x rest (length rest)) as (l & a & El & Ed & Hla & Hp & Hheap); auto.
      { by rewrite <- Hs, Ea. }
      exists a. rewrite Ea in *. rewrite El. cbn [deref outcome_bind]. split_and!; auto. lia.
    - exists (x :: rest). destruct rest; [|simpl in H0; lia]. simpl. split_and!; auto.
      intros j u v Hj. lia. }
  destruct Hdown as (a & E & Hla & Hp & Hheap). cbn [arr h0]. rewrite E. cbn [outcome_bind].
  eexists _, x, rest. split; [done|]. split; [done|]. split; [done|].
  match goal with |- pq_rep ?h2 _ /\ _ =>
    assert (E2 : arr h2 = take (length rest) a /\ qsize h2 = length rest /\ Max h2 = Max h)
      by (case_if; done)
  end.
  destruct E2 as (Ea2 & Eq2 & Em2). split; [|done]. unfold pq_rep. rewrite Ea2, Eq2, Em2.
  split_and!; auto. rewrite length_take. lia.
Qed.

Lemma indexOf_found fuel h e i :
  (fuel + i = length (arr h))%nat ->
  exists z, indexOf_from fuel h e i = Ret z /\ -1 <= z /\
    (z <> -1 <-> exists x, x ∈ drop i (arr h) /\ String x = String e).
Proof.
  revert i. induction fuel as [|fuel IH]; intros i Hf; cbn [indexOf_from].
  - exists (-1). split; [done|]. split; [lia|]. rewrite drop_ge by lia. set_solver.
  - destruct (lookup_lt_is_Some_2 (arr h) i ltac:(lia)) as [x Hx]. rewrite Hx. cbn [deref outcome_bind].
    rewrite (drop_S _ _ _ Hx). destruct (bytes_eqb (String x) (String e)) eqn:E.
    + apply bytes_eqb_eq in E. exists (Z.of_nat i). split; [done|]. split; [lia|].
      split; [|lia]. intros _. exists x. set_solver.
    + apply bytes_eqb_neq in E. destruct (IH (S i)) as (z & Ez & Hz & Hi); [lia|].
      exists z. split; [done|]. split; [done|]. rewrite Hi. set_solver.
Qed.

Inductive pq_op : Type :=
| PqOffer (e : T)
| PqPoll
| PqPeek
| PqContains (e : T).

Inductive pq_answer : Type :=
| ADone
| AElem (o : option T)
| ABool (b : bool).

(** The answers a bag may give: Poll and Peek any of the first elements. *)
Inductive bag_call (m : bool) : list T -> pq_op -> pq_answer -> list T -> Prop :=
| bag_Offer bag e : bag_call m bag (PqOffer e) ADone (e :: bag)
| bag_Poll_empty : bag_call m [] PqPoll (AElem None) []
| bag_Poll bag x rest :
    bag ≡ₚ x :: rest -> Forall (above m x) bag -> bag_call m bag PqPoll (AElem (Some x)) rest
| bag_Peek_empty : bag_call m [] PqPeek (AElem None) []
| bag_Peek bag x : x ∈ bag -> Forall (above m x) bag -> bag_call m bag PqPeek (AElem (Some x)) bag
| bag_Contains bag e b :
    (b = true <-> exists x, x ∈ bag /\ String x = String e) ->
    bag_call m bag (PqContains e) (ABool b) bag.

Inductive bag_run (m : bool) : list T -> list pq_op -> list pq_answer -> list T -> Prop :=
| bag_nil bag : bag_run m bag [] [] bag
| bag_cons bag op a bag1 ops l bag2 :
    bag_call m bag op a bag1 -> bag_run m bag1 ops l bag2 -> bag_run m bag (op :: ops) (a :: l) bag2.

Lemma Peek_rep h bag :
  pq_rep h bag -> exists o, Peek h = Ret o /\ bag_call (Max h) bag PqPeek (AElem o) bag.
Proof.
  intros (Hs & Hb & Hh). unfold Peek. rewrite Hs in *. destruct (arr h) as [|x rest] eqn:Ea; simpl.
  - destruct bag; [|by apply Permutation_nil_l in Hb]. eexists. split; [done|]. constructor.
  - eexists. split; [done|]. constructor; [rewrite <- Hb; set_solver|].
    apply Forall_forall. intros y Hy. rewrite <- Hb in Hy. apply list_elem_of_lookup in Hy as [j Hj].
    by eapply heap_top.
Qed.

Lemma pq_Contains_rep h bag e :
  pq_rep h bag -> exists b, Contains h e = Ret b /\ bag_call (Max h) bag (PqContains e) (ABool b) bag.
Proof.
  intros (Hs & Hb & Hh). unfold Contains, indexOf.
  destruct (indexOf_found (qsize h) h e 0) as (z & -> & _ & Hz); [lia|]. cbn [outcome_bind].
  eexists. split; [done|]. constructor. rewrite drop_0 in Hz. rewrite negb_true_iff, Z.eqb_neq, Hz.
  by setoid_rewrite Hb.
Qed.

Section Runs.
Variable growslice : Z -> Z.

Definition pq_call (h : ObjectPriorityQueue) (op : pq_op) : outcome (ObjectPriorityQueue * pq_answer) :=
  match op with
  | PqOffer e => run h <- Offer growslice h e; Ret (h, ADone)
  | PqPoll => run (h, o) <- Poll h; Ret (h, AElem o)
  | PqPeek => run o <- Peek h; Ret (h, AElem o)
  | PqContains e => run b <- Contains h e; Ret (h, ABool b)
  end.

(** A sequence of calls and their answers. *)
Fixpoint pq_run (h : ObjectPriorityQueue) (ops : list pq_op) :
    outcome (ObjectPriorityQueue * list pq_answer) :=
  match ops with
  | [] => Ret (h, [])
  | op :: ops => run (h, a) <- pq_call h op; run (h, l) <- pq_run h ops; Ret (h, a :: l)
  end.

Lemma pq_call_rep h bag op :
  pq_rep h bag ->
  exists h' a bag', pq_call h op = Ret (h', a) /\ bag_call (Max h) bag op a bag' /\
    pq_rep h' bag' /\ Max h' = Max h.
Proof.
  intros Hr. destruct op as [e| | |e]; cbn [pq_call].
  - destruct (Offer_rep growslice h bag e Hr) as (h' & -> & Hr' & Hm).
    eexists _, _, _. split; [done|]. split; [constructor|done].
  - destruct bag as [|b bag].
    + rewrite (Poll_empty h Hr). eexists _, _, _. split; [done|]. split; [constructor|done].
    + destruct (Poll_rep h (b :: bag) Hr) as (h' & x & rest & -> & Hp & Ht & Hr' & Hm); [done|].
      eexists _, _, _. split; [done|]. split; [by econstructor|done].
  - destruct (Peek_rep h bag Hr) as (o & -> & Hc). eexists _, _, _. split; [done|]. done.
  - destruct (pq_Contains_rep h bag e Hr) as (b & -> & Hc). eexists _, _, _. split; [done|]. done.
Qed.

Lemma pq_run_rep ops h bag :
  pq_rep h bag ->
  exists h' l bag', pq_run h ops = Ret (h', l) /\ bag_run (Max h) bag ops l bag' /\ pq_rep h' bag'.
Proof.
  revert h bag. induction ops as [|op ops IH]; intros h bag Hr; cbn [pq_run].
  - eexists _, _, _. split; [done|]. split; [constructor|done].
  - destruct (pq_call_rep h bag op Hr) as (h1 & a & bag1 & -> & Hc & Hr1 & Hm). cbn [outcome_bind].
    destruct (IH h1 bag1 Hr1) as (h2 & l & bag2 & -> & Hrun & Hr2). cbn [outcome_bind].
    eexists _, _, _. split; [done|]. split; [|done]. rewrite Hm in Hrun. by econstructor.
Qed.

(** C29: Whatever is offered and polled, in whatever order, and whatever the
    runtime's growth of the slice, the queue never indexes out of range, up and
    down come to an end, and its answers are those of a bag: Poll takes out, and
    Peek shows, an element that no other precedes (the smallest string, or with
    Max the largest), or an error when there is none; Contains looks for an equal
    string. *)
Theorem ObjectPriorityQueue_refines (m : bool) (ops : list pq_op) :
  exists h l bag, pq_run (mkPQ [] 0 0 m) ops = Ret (h, l) /\ bag_run m [] ops l bag /\
    Size h = len bag.
Proof.
  destruct (pq_run_rep ops (mkPQ [] 0 0 m) []) as (h & l & bag & E & Hrun & Hs & Hb & _).
  { split; [done|]. split; [done|]. intros j x y Hj. simpl in Hj. lia. }
  exists h, l, bag. split; [done|]. split; [done|]. unfold Size, len. by rewrite Hs, Hb.
Qed.

(** Polling until nothing is left. *)
Fixpoint drain (fuel : nat) (h : ObjectPriorityQueue) : outcome (list T) :=
  match fuel with
  | O => OutOfFuel
  | S fuel =>
      run (h, o) <- Poll h;
      match o with
      | Some x => run l <- drain fuel h; Ret (x :: l)
      | None => Ret []
      end
  end.

Fixpoint offer_all (h : ObjectPriorityQueue) (l : list T) : outcome ObjectPriorityQueue :=
  match l with [] => Ret h | e :: l => run h <- Offer growslice h e; offer_all h l end.

Lemma drain_sorted fuel h bag :
  pq_rep h bag -> (length bag < fuel)%nat ->
  exists l, drain fuel h = Ret l /\ l ≡ₚ bag /\ StronglySorted (above (Max h)) l.
Proof.
  revert h bag. induction fuel as [|fuel IH]; [lia|]. intros h bag Hr Hf. cbn [drain].
  destruct bag as [|b bag].
  - rewrite (Poll_empty h Hr). exists []. split; [done|]. split; [done|constructor].
  - destruct (Poll_rep h (b :: bag) Hr) as (h' & x & rest & -> & Hp & Ht & Hr' & Hm); [done|].
    cbn [outcome_bind]. pose proof (Permutation_length Hp) as Hlen. simpl in Hlen, Hf.
    destruct (IH h' rest Hr' ltac:(lia)) as (l & -> & Hl & Hsort). cbn [outcome_bind].
    exists (x :: l). split; [done|]. split; [by rewrite Hl, Hp|]. rewrite Hm in Hsort.
    constructor; [done|]. rewrite Hl. rewrite Hp in Ht. by inversion Ht.
Qed.

Lemma offer_all_rep l h bag :
  pq_rep h bag -> exists h', offer_all h l = Ret h' /\ pq_rep h' (rev l ++ bag) /\ Max h' = Max h.
Proof.
  revert h bag. induction l as [|e l IH]; intros h bag Hr; cbn [offer_all]; [by exists h|].
  destruct (Offer_rep growslice h bag e Hr) as (h1 & -> & Hr1 & Hm1). cbn [outcome_bind].
  destruct (IH h1 (e :: bag) Hr1) as (h2 & -> & Hr2 & Hm2). exists h2. split; [done|].
  simpl. rewrite <- app_assoc. simpl. split; [done|congruence].
Qed.

(** Offering a list and polling until the queue is empty sorts the list: the
    answers are the elements offered, in the order of their strings. *)
Theorem offer_drain_sorts (m : bool) (l : list T) :
  exists h out, offer_all (mkPQ [] 0 0 m) l = Ret h /\ drain (S (length l)) h = Ret out /\
    out ≡ₚ l /\ StronglySorted (above m) out.
Proof.
  destruct (offer_all_rep l (mkPQ [] 0 0 m) []) as (h & E & Hr & Hm).
  { split; [done|]. split; [done|]. intros j x y Hj. simpl in Hj. lia. }
  rewrite app_nil_r in Hr. destruct (drain_sorted (S (length l)) h _ Hr) as (out & Eo & Hp & Hs).
  { rewrite length_rev. lia. }
  exists h, out. rewrite Hm in Hs. split_and!; try done.
  rewrite Hp. symmetry. apply Permutation_rev.
Qed.
End Runs.
End PQueue.
