(* ===== verification/DelayQueue.v ===== *)
(** * DelayQueue

    [pkg/basic/delay_queue.go]: items that are handed out when their time has
    come.  The methods' sections under the lock are the steps; each reads the
    clock once ([now], in nanoseconds since 1970), and the timer is the instant
    it will fire at. *)

From S2P Require Import Prelude Bytes PQueue.

Section DelayQueue.
Context {V : Type}.

Record delayItem := mkItem { priority : Z; value : V }.

#[export] Instance delayItem_String : Ordered delayItem := fun di => itoa (priority di).

(** time.Duration is an int64. *)
Definition getDelay (di : delayItem) (now : Z) : Z := i64 (priority di - now).

Definition Second : Z := 1000000000.
Definition Microsecond : Z := 1000.

Record DelayQueue := mkDQ {
  timer : Z;
  heap : @ObjectPriorityQueue delayItem
}.

(** timer.Reset. *)
Definition Reset (dq : DelayQueue) (now d : Z) : DelayQueue := mkDQ (now + d) (heap dq).

Definition NewDelayQueue (now : Z) : DelayQueue := mkDQ (now + 30 * Second) (mkPQ [] 0 0 false).

(** [growslice] is as in [PQueue.Offer]. *)
Definition Add (growslice : Z -> Z) (dq : DelayQueue) (v : V) (delay now : Z) : outcome DelayQueue :=
  let item := mkItem delay v in
  run h <- Offer growslice (heap dq) item;
  let dq := mkDQ (timer dq) h in
  run first <- Peek h;
  match first with
  | Some first =>
      if bytes_eqb (String first) (String item)
      then Ret (Reset dq now (getDelay first now)) else Ret dq
  | None => Ret dq
  end.

(** The function literal TakeWithStop calls: [Some] when it took a value. *)
Definition take_section (dq : DelayQueue) (now : Z) : outcome (DelayQueue * option V) :=
  run first <- Peek (heap dq);
  match first with
  | None => Ret (Reset dq now (30 * Second), None)
  | Some first =>
      let delay := getDelay first now in
      if delay <=? Microsecond then
        run (h, poll) <- Poll (heap dq);
        Ret (Reset (mkDQ (timer dq) h) now delay, value <$> poll)
      else Ret (Reset dq now delay, None)
  end.

(** What the select statement waits for: the timer, after which the clock shows
    [now], or the stop channel. *)
Inductive wake : Type :=
| Fired (now : Z)
| Stop.

Inductive taken : Type :=
| Got (v : V)
| Stopped
| Blocked.

(** The loop; when the wake-ups are used up the call is still waiting. *)
Fixpoint TakeWithStop (dq : DelayQueue) (now : Z) (wakes : list wake) :
    outcome (DelayQueue * taken) :=
  run (dq, o) <- take_section dq now;
  match o, wakes with
  | Some v, _ => Ret (dq, Got v)
  | None, [] => Ret (dq, Blocked)
  | None, Stop :: _ => Ret (dq, Stopped)
  | None, Fired now :: wakes => TakeWithStop dq now wakes
  end.

Definition dq_Size (dq : DelayQueue) : Z := Size (heap dq).

(** ** Order

    Nanoseconds since 1970 have nineteen digits from September 2001 to the end
    of their int64 range in 2262. *)

Definition in_range (t : Z) : Prop := 10 ^ 18 <= t < 2 ^ 63.
Definition clock (now : Z) : Prop := 0 <= now < 2 ^ 63.

Definition items_in_range (bag : list delayItem) : Prop := Forall (fun i => in_range (priority i)) bag.

Lemma above_priority x y :
  in_range (priority x) -> in_range (priority y) -> above false x y <-> priority x <= priority y.
Proof.
  unfold in_range. intros Hx Hy. unfold above, worse, String, delayItem_String.
  rewrite (itoa_ltb 18) by (simpl in *; lia). apply Z.ltb_ge.
Qed.

Lemma String_priority x y :
  in_range (priority x) -> in_range (priority y) ->
  bytes_eqb (String x) (String y) = (priority x =? priority y).
Proof.
  unfold in_range. intros Hx Hy. unfold String, delayItem_String.
  destruct (priority x =? priority y) eqn:E; breflect.
  - rewrite E. by apply bytes_eqb_eq.
  - apply bytes_eqb_neq. intros Hs. apply E. apply (itoa_inj 18) in Hs; simpl in *; lia.
Qed.

Lemma getDelay_exact di now :
  in_range (priority di) -> clock now -> getDelay di now = priority di - now.
Proof. unfold in_range, clock, getDelay. width. Qed.

Definition earliest (x : delayItem) (bag : list delayItem) : Prop :=
  Forall (fun y => priority x <= priority y) bag.

Lemma above_earliest x bag :
  items_in_range bag -> x ∈ bag -> Forall (above false x) bag -> earliest x bag.
Proof.
  unfold items_in_range, earliest. rewrite !Forall_forall. intros Hr Hx Ha y Hy.
  apply above_priority; auto.
Qed.

(** ** The promise: a bag of items *)

Inductive dq_event : Type :=
| EvAdd (v : V) (t now : Z)
| EvTake (now : Z).

Definition wf_event (e : dq_event) : Prop :=
  match e with EvAdd _ t now => in_range t /\ clock now | EvTake now => clock now end.

(** Sections in the order the goroutines get the lock: the answers of the takes. *)
Fixpoint dq_run (growslice : Z -> Z) (dq : DelayQueue) (evs : list dq_event) :
    outcome (DelayQueue * list (option V)) :=
  match evs with
  | [] => Ret (dq, [])
  | EvAdd v t now :: evs => run dq <- Add growslice dq v t now; dq_run growslice dq evs
  | EvTake now :: evs =>
      run (dq, o) <- take_section dq now; run (dq, l) <- dq_run growslice dq evs; Ret (dq, o :: l)
  end.

(** A take at [now] answers an earliest item if it is due within a microsecond,
    and nothing only if none is. *)
Inductive dq_spec : list delayItem -> list dq_event -> list (option V) -> list delayItem -> Prop :=
| spec_nil bag : dq_spec bag [] [] bag
| spec_Add bag v t now evs l bag' :
    dq_spec (mkItem t v :: bag) evs l bag' -> dq_spec bag (EvAdd v t now :: evs) l bag'
| spec_Take bag x rest now evs l bag' :
    bag ≡ₚ x :: rest -> earliest x bag -> priority x <= now + Microsecond ->
    dq_spec rest evs l bag' -> dq_spec bag (EvTake now :: evs) (Some (value x) :: l) bag'
| spec_Wait bag now evs l bag' :
    Forall (fun x => now + Microsecond < priority x) bag ->
    dq_spec bag evs l bag' -> dq_spec bag (EvTake now :: evs) (None :: l) bag'.

(** The timer fires no later than the first item is due. *)
Definition armed (dq : DelayQueue) (bag : list delayItem) : Prop :=
  Forall (fun x => timer dq <= priority x) bag.

Definition dq_rep (dq : DelayQueue) (bag : list delayItem) : Prop :=
  pq_rep (heap dq) bag /\ Max (heap dq) = false /\ items_in_range bag /\ armed dq bag.

Lemma bag_Peek_inv m bag (o : option delayItem) :
  bag_call m bag PqPeek (AElem o) bag ->
  match o with Some x => x ∈ bag /\ Forall (above m x) bag | None => bag = [] end.
Proof. intros Hc. by inversion Hc; subst. Qed.

(** What Peek shows of a delay queue. *)
Lemma Peek_earliest dq bag :
  dq_rep dq bag ->
  exists o, Peek (heap dq) = Ret o /\
    match o with Some x => x ∈ bag /\ in_range (priority x) /\ earliest x bag | None => bag = [] end.
Proof.
  intros (Hr & Hm & Hir & _). destruct (Peek_rep (heap dq) bag Hr) as (o & E & Hc).
  exists o. split; [done|]. apply bag_Peek_inv in Hc. destruct o as [x|]; [|done].
  destruct Hc as [Hx Ha]. rewrite Hm in Ha. split; [done|]. split; [|by apply above_earliest].
  unfold items_in_range in Hir. rewrite Forall_forall in Hir. auto.
Qed.

Lemma Add_rep growslice dq bag v t now :
  dq_rep dq bag -> in_range t -> clock now ->
  exists dq', Add growslice dq v t now = Ret dq' /\ dq_rep dq' (mkItem t v :: bag).
Proof.
  intros (Hr & Hm & Hir & Harm) Ht Hn. unfold Add.
  destruct (Offer_rep growslice (heap dq) bag (mkItem t v) Hr) as (h & -> & Hr' & Hm'). cbn [outcome_bind].
  destruct (Peek_rep h _ Hr') as (o & -> & Hc). cbn [outcome_bind]. apply bag_Peek_inv in Hc.
  assert (Hir' : items_in_range (mkItem t v :: bag)) by (by constructor).
  destruct o as [x|]; [|done]. destruct Hc as [Hx Ha]. rewrite Hm', Hm in Ha.
  assert (Hxr : in_range (priority x)).
  { unfold items_in_range in Hir'. rewrite Forall_forall in Hir'. auto. }
  pose proof (above_earliest _ _ Hir' Hx Ha) as He.
  rewrite String_priority by done. cbn [priority].
  destruct (priority x =? t) eqn:E; breflect; eexists; (split; [done|]).
  - split; [done|]. split; [simpl; congruence|]. split; [done|]. unfold armed. cbn [Reset timer].
    rewrite getDelay_exact by done. replace (now + _) with (priority x) by lia. exact He.
  - split; [done|]. split; [simpl; congruence|]. split; [done|]. unfold armed. cbn [timer].
    apply elem_of_cons in Hx as [->|Hx]; [done|].
    assert (Hle : timer dq <= priority x) by (unfold armed in Harm; rewrite Forall_forall in Harm; auto).
    unfold earliest in He. inversion He; subst. constructor; [simpl in *; lia|done].
Qed.

Lemma take_rep dq bag now :
  dq_rep dq bag -> clock now ->
  exists dq' o bag', take_section dq now = Ret (dq', o) /\ dq_rep dq' bag' /\
    match o with
    | Some v => exists x, v = value x /\ bag ≡ₚ x :: bag' /\ earliest x bag /\
                  priority x <= now + Microsecond
    | None => bag' = bag /\ Forall (fun x => now + Microsecond < priority x) bag /\
                (bag <> [] -> exists x, x ∈ bag /\ earliest x bag /\ timer dq' = priority x)
    end.
Proof.
  intros Hd Hn. pose proof Hd as (Hr & Hm & Hir & Harm). unfold take_section.
  destruct (Peek_earliest dq bag Hd) as ([x|] & E & Hp); rewrite E; cbn [outcome_bind].
  2: { subst bag. eexists _, _, _. split; [done|]. split; [split; [done|]; split; [done|]; by split; constructor|].
       split; [done|]. split; [constructor|done]. }
  destruct Hp as (Hx & Hxr & He). rewrite getDelay_exact by done.
  assert (Hne : bag <> []) by (intros ->; by apply not_elem_of_nil in Hx).
  destruct (priority x - now <=? Microsecond) eqn:Ed; breflect.
  - destruct (Poll_rep (heap dq) bag Hr Hne) as (h & y & rest & -> & Hp & Ht & Hr' & Hm').
    cbn [outcome_bind fmap option_fmap option_map]. rewrite Hm in Ht.
    assert (Hy : y ∈ bag) by (rewrite Hp; set_solver).
    pose proof (above_earliest _ _ Hir Hy Ht) as Hey.
    assert (Hxy : priority x = priority y).
    { unfold earliest in *. rewrite Forall_forall in He, Hey. specialize (He y Hy). specialize (Hey x Hx). lia. }
    eexists _, _, rest. split; [done|]. split.
    + split; [done|]. split; [simpl; congruence|]. unfold items_in_range, earliest in *. rewrite Hp in Hir, He.
      inversion Hir; subst. split; [done|]. unfold armed. cbn [Reset timer heap].
      replace (now + _) with (priority x) by lia. by inversion He.
    + exists y. split; [done|]. split; [done|]. split; [done|]. lia.
  - eexists _, _, bag. split; [done|]. split.
    + split; [done|]. split; [done|]. split; [done|]. unfold armed. cbn [Reset timer].
      replace (now + _) with (priority x) by lia. exact He.
    + split; [done|]. split.
      * apply Forall_forall. intros y Hy. unfold earliest in He. rewrite Forall_forall in He.
        specialize (He y Hy). simpl in He. lia.
      * intros _. exists x. split; [done|]. split; [done|]. cbn [Reset timer]. lia.
Qed.

Lemma dq_run_rep growslice evs dq bag :
  dq_rep dq bag -> Forall wf_event evs ->
  exists dq' l bag', dq_run growslice dq evs = Ret (dq', l) /\ dq_spec bag evs l bag' /\ dq_rep dq' bag'.
Proof.
  revert dq bag. induction evs as [|[v t now|now] evs IH]; intros dq bag Hd Hw; cbn [dq_run].
  - eexists _, _, _. split; [done|]. split; [constructor|done].
  - apply Forall_cons in Hw as [[Ht Hn] Hw].
    destruct (Add_rep growslice dq bag v t now Hd Ht Hn) as (dq1 & -> & Hd1). cbn [outcome_bind].
    destruct (IH dq1 _ Hd1 Hw) as (dq2 & l & bag2 & E & Hs & Hd2).
    eexists _, _, _. split; [done|]. split; [by constructor|done].
  - apply Forall_cons in Hw as [Hn Hw].
    destruct (take_rep dq bag now Hd Hn) as (dq1 & o & bag1 & -> & Hd1 & Ho). cbn [outcome_bind].
    destruct (IH dq1 _ Hd1 Hw) as (dq2 & l & bag2 & -> & Hs & Hd2). cbn [outcome_bind].
    eexists _, _, _. split; [done|]. split; [|done]. destruct o as [v|].
    + destruct Ho as (x & -> & Hp & He & Hle). by econstructor.
    + destruct Ho as (-> & Hall & _). by constructor.
Qed.

Lemma New_dq_rep now : dq_rep (NewDelayQueue now) [].
Proof.
  split; [|split; [done|]; by split; constructor].
  split; [done|]. split; [done|]. intros j x y Hj. simpl in Hj. lia.
Qed.

(** For items due between September 2001 and the end of the int64 range of
    nanoseconds, whatever the goroutines do, in whatever order they get the lock:
    a take hands out an earliest item once it is due within a microsecond, and
    nothing only when no item is; and the timer is always set to fire no later
    than the first item is due, so no item is overslept. *)
Theorem DelayQueue_refines (growslice : Z -> Z) (start : Z) (evs : list dq_event) (H : Forall wf_event evs) :
  exists dq l bag, dq_run growslice (NewDelayQueue start) evs = Ret (dq, l) /\ dq_spec [] evs l bag /\
    dq_Size dq = len bag /\ armed dq bag.
Proof.
  destruct (dq_run_rep growslice evs _ _ (New_dq_rep start) H) as (dq & l & bag & E & Hs & Hr).
  exists dq, l, bag. split; [done|]. split; [done|]. destruct Hr as ((Hsz & Hb & _) & _ & _ & Ha).
  split; [|done]. unfold dq_Size, Size, len. by rewrite Hsz, Hb.
Qed.

(** TakeWithStop on a queue that holds something answers after at most one
    wait: an earliest item at once if it is due within a microsecond; otherwise
    the timer is set for the instant it is due, and when the timer has fired, or
    later, the item is handed out. *)
Theorem TakeWithStop_delivers (dq : DelayQueue) (bag : list delayItem) (now fired : Z) (wakes : list wake)
    (Hr : dq_rep dq bag) (Hne : bag <> []) (Hn : clock now) (Hf : clock fired) :
  exists x, x ∈ bag /\ earliest x bag /\
    ((exists dq', priority x <= now + Microsecond /\
        TakeWithStop dq now wakes = Ret (dq', Got (value x))) \/
     (exists dq1, now + Microsecond < priority x /\
        TakeWithStop dq now [] = Ret (dq1, Blocked) /\
        TakeWithStop dq now (Stop :: wakes) = Ret (dq1, Stopped) /\ timer dq1 = priority x /\
        (timer dq1 <= fired -> exists y dq2, y ∈ bag /\ priority y = priority x /\
          TakeWithStop dq now (Fired fired :: wakes) = Ret (dq2, Got (value y))))).
Proof.
  assert (Hhead : forall dq now wakes dq1 v, take_section dq now = Ret (dq1, Some v) ->
    TakeWithStop dq now wakes = Ret (dq1, Got v)) by (by intros ? ? [|] ? ? E; simpl; rewrite E).
  destruct (take_rep dq bag now Hr Hn) as (dq1 & [v|] & bag1 & E & Hr1 & Ho).
  - destruct Ho as (x & -> & Hp & He & Hle). exists x. split; [rewrite Hp; set_solver|].
    split; [done|]. left. exists dq1. split; [done|]. by apply Hhead.
  - destruct Ho as (-> & Hall & Ht). destruct (Ht Hne) as (x & Hx & He & Etm).
    exists x. split; [done|]. split; [done|]. right. exists dq1. rewrite Forall_forall in Hall.
    split; [by apply Hall|]. simpl. rewrite E. simpl. split_and!; try done. intros Hle.
    destruct (take_rep dq1 bag fired Hr1 Hf) as (dq2 & [v|] & bag2 & E2 & _ & Ho2).
    + destruct Ho2 as (y & -> & Hp & Hey & _). assert (Hy : y ∈ bag) by (rewrite Hp; set_solver).
      exists y, dq2. split; [done|]. split; [|by apply Hhead]. unfold earliest in *.
      rewrite Forall_forall in He, Hey. specialize (He y Hy). specialize (Hey x Hx). simpl in *. lia.
    + destruct Ho2 as (_ & Hall2 & _). rewrite Forall_forall in Hall2. specialize (Hall2 x Hx).
      unfold Microsecond in Hall2. simpl in Hall2. lia.
Qed.
End DelayQueue.

(** How small slices grow. *)
Definition doubling (c : Z) : Z := Z.max 1 (2 * c).

(** Two items an hour apart, taken in their order as they become due. *)
Definition t0 : Z := 1700000000000000000.
Definition hour : Z := 3600 * Second.
Definition dq_sample : list (@dq_event Z) :=
  [EvAdd 1 (t0 + hour) t0; EvAdd 2 (t0 + 5) t0; EvTake t0; EvTake (t0 + 5); EvTake (t0 + hour - 1000)].

Lemma DelayQueue_refines_witness :
  exists dq l bag, dq_run doubling (NewDelayQueue t0) dq_sample = Ret (dq, l) /\
    dq_spec [] dq_sample l bag /\ dq_Size dq = len bag /\ armed dq bag.
Proof.
  apply DelayQueue_refines. unfold dq_sample. repeat constructor; unfold in_range, clock; vm_compute; done.
Defined.

Definition dq_two : @DelayQueue Z :=
  mkDQ (t0 + 5) (mkPQ [mkItem (t0 + 5000) 2; mkItem (t0 + hour) 1] 3 2 false).
Definition dq_two_bag : list (@delayItem Z) := [mkItem (t0 + 5000) 2; mkItem (t0 + hour) 1].

Lemma dq_two_rep : dq_rep dq_two dq_two_bag.
Proof.
  split; [|split; [done|split]].
  - split; [done|]. split; [done|]. intros j x y Hj _. cbn in Hj. assert (j = 1%nat) as -> by lia.
    intros [= <-] [= <-]. vm_compute. done.
  - repeat constructor; vm_compute; done.
  - repeat constructor; vm_compute; done.
Qed.

Lemma TakeWithStop_delivers_witness :
  exists x, x ∈ dq_two_bag /\ earliest x dq_two_bag /\
    ((exists dq', priority x <= t0 + Microsecond /\
        TakeWithStop dq_two t0 [] = Ret (dq', Got (value x))) \/
     (exists dq1, t0 + Microsecond < priority x /\
        TakeWithStop dq_two t0 [] = Ret (dq1, Blocked) /\
        TakeWithStop dq_two t0 [Stop] = Ret (dq1, Stopped) /\ timer dq1 = priority x /\
        (timer dq1 <= t0 + 5000 -> exists y dq2, y ∈ dq_two_bag /\ priority y = priority x /\
          TakeWithStop dq_two t0 [Fired (t0 + 5000)] = Ret (dq2, Got (value y))))).
Proof.
  apply (TakeWithStop_delivers dq_two dq_two_bag t0 (t0 + 5000) []).
  - exact dq_two_rep.
  - done.
  - split; vm_compute; done.
  - split; vm_compute; done.
Defined.

(** An item due in January 1970 and one due in an hour. *)
Definition dq_old : list (@dq_event Z) :=
  [EvAdd 1 (t0 + hour) t0; EvAdd 2 (2 * Second) t0; EvTake t0].

(** The items are compared by the decimal text of their nanoseconds, which is
    the order of the instants only among numbers of the same length: an item due
    two seconds after the epoch (2000000000) comes after one due in an hour
    (1700003600000000000), and a take that should hand it out finds nothing. *)
Theorem delay_text_order :
  2 * Second < t0 /\
  match dq_run doubling (NewDelayQueue t0) dq_old with
  | Ret (dq, l) => l = [None] /\ dq_Size dq = 2
  | _ => False
  end.
Proof. split; [done|]. vm_compute. done. Qed.
