(* ===== verification/RingQueue.v ===== *)
(** * SafeRingQueue

    [pkg/basic/safe_ring_queue.go]: a bounded FIFO queue in a ring of slots, with
    calls that fail and calls that wait.  The sequential calls are refined to a
    list; the waiting calls are a transition system on the queue and the
    goroutines waiting on its two condition variables. *)

From Stdlib Require Import ZifyNat.
From S2P Require Import Prelude.

Section RingQueue.
(** [interface{}] values, of which [nil] is one. *)
Context {V : Type} (nil_ : V).

Record SafeRingQueue := mkRQ {
  data : list V;
  rcapacity : nat;
  rhead : nat;
  rtail : nat;
  rsize : nat
}.

(** [make] panics on a negative length. *)
Definition NewSafeRingQueue (cap : Z) : outcome SafeRingQueue :=
  if cap <? 0 then Panic
  else Ret (mkRQ (replicate (Z.to_nat cap) nil_) (Z.to_nat cap) 0 0 0).

(** [x % y]: the division by zero panics. *)
Definition modulo (x y : nat) : outcome nat :=
  match y with O => Panic | _ => Ret (x mod y)%nat end.

(** [data[i] = v]: an index out of range panics. *)
Definition store (l : list V) (i : nat) (v : V) : outcome (list V) :=
  run _ <- deref (l !! i); Ret (<[i := v]> l).

(** The statements of Enqueue and BlockEnqueue once there is room. *)
Definition put (q : SafeRingQueue) (v : V) : outcome SafeRingQueue :=
  run d <- store (data q) (rtail q) v;
  run t <- modulo (rtail q + 1) (rcapacity q);
  Ret (mkRQ d (rcapacity q) (rhead q) t (rsize q + 1)).

(** The statements of Dequeue and BlockDequeue once there is an element. *)
Definition get (q : SafeRingQueue) : outcome (SafeRingQueue * V) :=
  run v <- deref (data q !! rhead q);
  run d <- store (data q) (rhead q) nil_;
  run h <- modulo (rhead q + 1) (rcapacity q);
  Ret (mkRQ d (rcapacity q) h (rtail q) (rsize q - 1), v).

Definition full (q : SafeRingQueue) : bool := bool_decide (rsize q = rcapacity q).
Definition empty (q : SafeRingQueue) : bool := bool_decide (rsize q = 0%nat).

(** [false] is the error "queue is full". *)
Definition Enqueue (q : SafeRingQueue) (v : V) : outcome (SafeRingQueue * bool) :=
  if full q then Ret (q, false) else run q <- put q v; Ret (q, true).

(** [None] is the error "queue is empty". *)
Definition Dequeue (q : SafeRingQueue) : outcome (SafeRingQueue * option V) :=
  if empty q then Ret (q, None) else run (q, v) <- get q; Ret (q, Some v).

Definition Peek (q : SafeRingQueue) : outcome (option V) :=
  if empty q then Ret None else run v <- deref (data q !! rhead q); Ret (Some v).

Definition Size (q : SafeRingQueue) : Z := Z.of_nat (rsize q).

(** ** Refinement to a list *)

(** The slot [i] places behind the head. *)
Definition slot (q : SafeRingQueue) (i : nat) : nat := ((rhead q + i) mod rcapacity q)%nat.

Definition ring_rep (q : SafeRingQueue) (l : list V) : Prop :=
  length (data q) = rcapacity q /\ rsize q = length l /\ (length l <= rcapacity q)%nat /\
  (rcapacity q = 0%nat \/ (rhead q < rcapacity q)%nat /\ rtail q = slot q (length l)) /\
  (forall i, (i < rcapacity q)%nat -> data q !! slot q i = Some (default nil_ (l !! i))).

Lemma mod_inj_range h c i j :
  (h < c)%nat -> (i < c)%nat -> (j < c)%nat -> ((h + i) mod c = (h + j) mod c)%nat -> i = j.
Proof.
  intros Hh Hi Hj E.
  assert (forall k, (k < c)%nat -> ((h + k) mod c = if decide (h + k < c) then h + k else h + k - c)%nat) as Hm.
  { intros k Hk. case_decide; [by apply Nat.mod_small|].
    replace (h + k)%nat with (h + k - c + 1 * c)%nat at 1 by lia.
    rewrite Nat.Div0.mod_add. apply Nat.mod_small. lia. }
  rewrite !Hm in E by done. repeat case_decide; lia.
Qed.

Lemma New_ring_rep cap : 0 <= cap ->
  exists q, NewSafeRingQueue cap = Ret q /\ ring_rep q [] /\ rcapacity q = Z.to_nat cap.
Proof.
  intros Hc. unfold NewSafeRingQueue. destruct (cap <? 0) eqn:E; breflect; [lia|].
  eexists. split; [done|]. split; [|done]. unfold ring_rep, slot. cbn [data rcapacity rhead rtail rsize length].
  rewrite length_replicate. split_and!; try done; [lia| |].
  - destruct (decide (Z.to_nat cap = 0)%nat) as [->|]; [by left|]. right. split; [lia|].
    symmetry. apply Nat.Div0.mod_0_l.
  - intros i Hi. apply lookup_replicate. split; [done|]. apply Nat.mod_upper_bound. lia.
Qed.

Lemma slot_lt q i : (0 < rcapacity q)%nat -> (slot q i < rcapacity q)%nat.
Proof. intros. apply Nat.mod_upper_bound. lia. Qed.

Lemma put_rep q l v :
  ring_rep q l -> rsize q <> rcapacity q ->
  exists q', put q v = Ret q' /\ ring_rep q' (l ++ [v]) /\ rcapacity q' = rcapacity q.
Proof.
  intros (Hd & Hs & Hle & Ht & Hl) Hroom. destruct Ht as [|[Hh Ht]]; [lia|].
  assert (Hc : (0 < rcapacity q)%nat) by lia. pose proof (slot_lt q (length l) Hc) as Hsl.
  unfold put, store, modulo. destruct (lookup_lt_is_Some_2 (data q) (rtail q)) as [x Hx]; [lia|].
  rewrite Hx. cbn [deref outcome_bind]. destruct (rcapacity q) as [|c] eqn:Ec; [lia|]. rewrite <- Ec in *.
  cbn [outcome_bind]. eexists. split; [done|]. split; [|done].
  unfold ring_rep, slot. cbn [data rcapacity rhead rtail rsize].
  rewrite length_insert, length_app. cbn [length]. split_and!; try done; try lia.
  - right. split; [done|]. rewrite Ht. unfold slot.
    rewrite Nat.Div0.add_mod_idemp_l. f_equal. lia.
  - intros i Hi. fold (slot q i). destruct (decide (i = length l)) as [->|Hne].
    + rewrite Ht, list_lookup_insert_eq by lia. by rewrite list_lookup_middle.
    + rewrite list_lookup_insert_ne, Hl by (try done; rewrite Ht; intros E; apply mod_inj_range in E; lia).
      f_equal. f_equal. destruct (decide (i < length l)%nat); [by rewrite lookup_app_l|].
      rewrite lookup_app_r by lia. rewrite lookup_ge_None_2 by lia.
      rewrite lookup_ge_None_2; [done|simpl; lia].
Qed.

Lemma get_rep q v l :
  ring_rep q (v :: l) ->
  exists q', get q = Ret (q', v) /\ ring_rep q' l /\ rcapacity q' = rcapacity q.
Proof.
  intros (Hd & Hs & Hle & Ht & Hl). cbn [length] in *. destruct Ht as [|[Hh Ht]]; [lia|].
  unfold get, store, modulo. assert (Hx : data q !! rhead q = Some v).
  { specialize (Hl 0%nat ltac:(lia)). unfold slot in Hl. by rewrite Nat.add_0_r, Nat.mod_small in Hl by done. }
  rewrite Hx. cbn [deref outcome_bind]. destruct (rcapacity q) as [|c] eqn:Ec; [lia|]. rewrite <- Ec in *.
  cbn [outcome_bind]. eexists. split; [done|]. split; [|done].
  assert (Hslot : forall i, ((((rhead q + 1) mod rcapacity q) + i) mod rcapacity q = slot q (S i))%nat).
  { intros i. unfold slot. rewrite Nat.Div0.add_mod_idemp_l. f_equal. lia. }
  unfold ring_rep, slot. cbn [data rcapacity rhead rtail rsize].
  rewrite length_insert. split_and!; try done; try lia.
  - right. split; [apply Nat.mod_upper_bound; lia|]. by rewrite Hslot.
  - intros i Hi. rewrite Hslot. destruct (decide (S i = rcapacity q)) as [Hlast|Hne].
    + assert (E : slot q (S i) = rhead q).
      { unfold slot. rewrite Hlast. replace (rhead q + rcapacity q)%nat with (rhead q + 1 * rcapacity q)%nat by lia.
        rewrite Nat.Div0.mod_add. by apply Nat.mod_small. }
      rewrite E, list_lookup_insert_eq by lia. rewrite lookup_ge_None_2 by lia. done.
    + rewrite list_lookup_insert_ne, Hl by
        (try lia; unfold slot; rewrite <- (Nat.mod_small (rhead q) (rcapacity q)) at 1 by done;
         rewrite <- (Nat.add_0_r (rhead q)) at 1; intros E; apply mod_inj_range in E; lia).
      done.
Qed.

Inductive rq_op : Type :=
| RqEnqueue (v : V)
| RqDequeue
| RqPeek
| RqSize.

Inductive rq_answer : Type :=
| RErr (full : bool)
| ROk
| RVal (v : V)
| RSize (n : Z).

Definition rq_call (q : SafeRingQueue) (op : rq_op) : outcome (SafeRingQueue * rq_answer) :=
  match op with
  | RqEnqueue v => run (q, ok) <- Enqueue q v; Ret (q, if ok : bool then ROk else RErr true)
  | RqDequeue => run (q, o) <- Dequeue q; Ret (q, match o with Some v => RVal v | None => RErr false end)
  | RqPeek => run o <- Peek q; Ret (q, match o with Some v => RVal v | None => RErr false end)
  | RqSize => Ret (q, RSize (Size q))
  end.

Fixpoint rq_run (q : SafeRingQueue) (ops : list rq_op) : outcome (SafeRingQueue * list rq_answer) :=
  match ops with
  | [] => Ret (q, [])
  | op :: ops => run (q, a) <- rq_call q op; run (q, l) <- rq_run q ops; Ret (q, a :: l)
  end.

(** The promise: a list of at most [cap] elements, oldest first. *)
Definition fifo_call (cap : Z) (l : list V) (op : rq_op) : list V * rq_answer :=
  match op, l with
  | RqEnqueue v, _ => if len l =? cap then (l, RErr true) else (l ++ [v], ROk)
  | RqDequeue, v :: l => (l, RVal v)
  | RqPeek, v :: _ => (l, RVal v)
  | RqDequeue, [] | RqPeek, [] => (l, RErr false)
  | RqSize, _ => (l, RSize (len l))
  end.

Fixpoint fifo_run (cap : Z) (l : list V) (ops : list rq_op) : list V * list rq_answer :=
  match ops with
  | [] => (l, [])
  | op :: ops =>
      let '(l, a) := fifo_call cap l op in let '(l, r) := fifo_run cap l ops in (l, a :: r)
  end.

Lemma rq_call_rep q l op :
  ring_rep q l ->
  exists q', rq_call q op = Ret (q', snd (fifo_call (Z.of_nat (rcapacity q)) l op)) /\
    ring_rep q' (fst (fifo_call (Z.of_nat (rcapacity q)) l op)) /\ rcapacity q' = rcapacity q.
Proof.
  intros Hr. pose proof Hr as (Hd & Hs & Hle & Ht & Hl).
  assert (Hempty : empty q = match l with [] => true | _ => false end)
    by (unfold empty; rewrite Hs; by destruct l).
  destruct op as [v| | |]; cbn [rq_call fifo_call].
  - unfold Enqueue, full. rewrite Hs. case_bool_decide as Hf.
    + replace (len l =? _) with true by (unfold len; lia). by exists q.
    + replace (len l =? _) with false by (unfold len; lia).
      destruct (put_rep q l v Hr) as (q' & -> & Hr' & Hc); [lia|]. by exists q'.
  - unfold Dequeue. rewrite Hempty. destruct l as [|v l]; [by exists q|].
    destruct (get_rep q v l Hr) as (q' & -> & Hr' & Hc). by exists q'.
  - unfold Peek. rewrite Hempty. destruct l as [|v l]; [by exists q|].
    destruct Ht as [Ht|[Hh _]]; [simpl in Hle; lia|]. specialize (Hl 0%nat ltac:(lia)). unfold slot in Hl.
    rewrite Nat.add_0_r, Nat.mod_small in Hl by done. rewrite Hl. by exists q.
  - exists q. unfold Size. by rewrite Hs.
Qed.

Lemma rq_run_rep ops q l :
  ring_rep q l ->
  exists q', rq_run q ops = Ret (q', snd (fifo_run (Z.of_nat (rcapacity q)) l ops)) /\
    ring_rep q' (fst (fifo_run (Z.of_nat (rcapacity q)) l ops)).
Proof.
  revert q l. induction ops as [|op ops IH]; intros q l Hr; cbn [rq_run fifo_run]; [by exists q|].
  destruct (rq_call_rep q l op Hr) as (q1 & -> & Hr1 & Hc1). cbn [outcome_bind].
  destruct (fifo_call (Z.of_nat (rcapacity q)) l op) as [l1 a]. cbn [fst snd] in *.
  destruct (IH q1 l1 Hr1) as (q2 & -> & Hr2). rewrite Hc1 in *. cbn [outcome_bind].
  destruct (fifo_run (Z.of_nat (rcapacity q)) l1 ops) as [l2 r]. by exists q2.
Qed.

(** The slots read from the head on are the list and then nil. *)
Lemma ring_rotation q l :
  ring_rep q l ->
  drop (rhead q) (data q) ++ take (rhead q) (data q)
  = l ++ replicate (rcapacity q - length l) nil_.
Proof.
  intros (Hd & Hs & Hle & Ht & Hl). destruct Ht as [Hc|[Hh _]].
  { rewrite Hc in *. destruct (data q); [|done]. destruct l; [|simpl in Hle; lia].
    by rewrite drop_nil, take_nil. }
  apply list_eq. intros i. destruct (decide (i < rcapacity q)%nat) as [Hi|Hi].
  - assert (Hslot : (drop (rhead q) (data q) ++ take (rhead q) (data q)) !! i = data q !! slot q i).
    { unfold slot. destruct (decide (rhead q + i < rcapacity q)%nat) as [Hlt|Hge].
      - rewrite lookup_app_l by (rewrite length_drop; lia). by rewrite lookup_drop, Nat.mod_small by done.
      - rewrite lookup_app_r by (rewrite length_drop; lia). rewrite length_drop, Hd, lookup_take_lt by lia.
        f_equal. replace (rhead q + i)%nat with (rhead q + i - rcapacity q + 1 * rcapacity q)%nat by lia.
        rewrite Nat.Div0.mod_add, Nat.mod_small by lia. lia. }
    rewrite Hslot, Hl by done. destruct (decide (i < length l)%nat) as [Hlt|Hge].
    + rewrite lookup_app_l by done. by destruct (lookup_lt_is_Some_2 l i Hlt) as [x ->].
    + rewrite lookup_app_r by lia. rewrite (lookup_ge_None_2 l) by lia. symmetry.
      apply lookup_replicate. split; [done|lia].
  - rewrite !lookup_ge_None_2; [done| |]; rewrite length_app, ?length_drop, ?length_take, ?length_replicate; lia.
Qed.

(** A queue made with a capacity that is not negative never indexes out of
    range or divides by zero (capacity 0 included), and its calls answer as a
    first-in first-out list that refuses an element when it holds as many as the
    capacity; read from the head on, the slots are the list and then nil, so that
    no reference to a dequeued value is kept. *)
Theorem SafeRingQueue_refines (cap : Z) (ops : list rq_op) :
  match NewSafeRingQueue cap with
  | Ret q => 0 <= cap /\ exists q', rq_run q ops = Ret (q', snd (fifo_run cap [] ops)) /\
      drop (rhead q') (data q') ++ take (rhead q') (data q')
      = fst (fifo_run cap [] ops) ++
        replicate (length (data q') - length (fst (fifo_run cap [] ops))) nil_
  | _ => cap < 0
  end.
Proof.
  destruct (NewSafeRingQueue cap) as [q| |] eqn:E; unfold NewSafeRingQueue in E;
    destruct (cap <? 0) eqn:Ec; breflect; try done.
  split; [done|]. destruct (New_ring_rep cap Ec) as (q0 & E0 & Hr & Hcap).
  unfold NewSafeRingQueue in E0. replace (cap <? 0) with false in E0 by lia. rewrite E in E0.
  injection E0 as <-. destruct (rq_run_rep ops q [] Hr) as (q' & Er & Hr').
  rewrite Hcap, Z2Nat.id in * by done. exists q'. split; [done|].
  rewrite (ring_rotation q' _ Hr'). by destruct Hr' as (-> & _).
Qed.

(** ** Waiting *)

(** A queue with the goroutines inside BlockEnqueue (with their values) and
    BlockDequeue: those asleep on the condition variable and those Signal has
    woken that do not yet have the lock. *)
Record shared := mkShared {
  queue : SafeRingQueue;
  asleepE : list V;
  wokenE : list V;
  asleepD : nat;
  wokenD : nat
}.

(** notEmpty.Signal and notFull.Signal wake the goroutine asleep for longest, if
    there is one. *)
Definition signal_notEmpty (s : shared) : shared :=
  match asleepD s with
  | O => s
  | S n => mkShared (queue s) (asleepE s) (wokenE s) n (S (wokenD s))
  end.

Definition signal_notFull (s : shared) : shared :=
  match asleepE s with
  | [] => s
  | v :: vs => mkShared (queue s) vs (wokenE s ++ [v]) (asleepD s) (wokenD s)
  end.

Definition with_queue (s : shared) (q : SafeRingQueue) : shared :=
  mkShared q (asleepE s) (wokenE s) (asleepD s) (wokenD s).

(** The loop of BlockEnqueue from where it tests the condition, and what follows. *)
Definition BlockEnqueue (s : shared) (v : V) : outcome shared :=
  if full (queue s)
  then Ret (mkShared (queue s) (asleepE s ++ [v]) (wokenE s) (asleepD s) (wokenD s))
  else run q <- put (queue s) v; Ret (signal_notEmpty (with_queue s q)).

(** The same of BlockDequeue; [None] when it goes to sleep. *)
Definition BlockDequeue (s : shared) : outcome (shared * option V) :=
  if empty (queue s)
  then Ret (mkShared (queue s) (asleepE s) (wokenE s) (S (asleepD s)) (wokenD s), None)
  else run (q, v) <- get (queue s); Ret (signal_notFull (with_queue s q), Some v).

(** One goroutine has the lock. *)
Inductive ring_step : shared -> shared -> Prop :=
| step_Enqueue s v q b s' :
    Enqueue (queue s) v = Ret (q, b) ->
    s' = (if b : bool then signal_notEmpty (with_queue s q) else s) -> ring_step s s'
| step_Dequeue s q o s' :
    Dequeue (queue s) = Ret (q, o) ->
    s' = (match o with Some _ => signal_notFull (with_queue s q) | None => s end) -> ring_step s s'
| step_BlockEnqueue s v s' : BlockEnqueue s v = Ret s' -> ring_step s s'
| step_BlockDequeue s s' o : BlockDequeue s = Ret (s', o) -> ring_step s s'
| step_resumeE s v l r s' :
    wokenE s = l ++ v :: r ->
    BlockEnqueue (mkShared (queue s) (asleepE s) (l ++ r) (asleepD s) (wokenD s)) v = Ret s' ->
    ring_step s s'
| step_resumeD s n s' o :
    wokenD s = S n ->
    BlockDequeue (mkShared (queue s) (asleepE s) (wokenE s) (asleepD s) n) = Ret (s', o) ->
    ring_step s s'.

Inductive ring_reachable (cap : Z) : shared -> Prop :=
| reach_new q : NewSafeRingQueue cap = Ret q -> ring_reachable cap (mkShared q [] [] 0 0)
| reach_step s s' : ring_reachable cap s -> ring_step s s' -> ring_reachable cap s'.

(** The queue is in order, and while an enqueuer sleeps there are at least as
    many woken enqueuers as free slots; likewise for dequeuers and elements. *)
Definition wake_inv (cap : nat) (s : shared) : Prop :=
  (exists l, ring_rep (queue s) l) /\ rcapacity (queue s) = cap /\
  (asleepE s = [] \/ (rcapacity (queue s) <= rsize (queue s) + length (wokenE s))%nat) /\
  (asleepD s = 0%nat \/ (rsize (queue s) <= wokenD s)%nat).

Lemma put_inv q v q' :
  (exists l, ring_rep q l) -> rsize q <> rcapacity q -> put q v = Ret q' ->
  (exists l, ring_rep q' l) /\ rcapacity q' = rcapacity q /\ rsize q' = (rsize q + 1)%nat.
Proof.
  intros [l Hr] Hne E. destruct (put_rep q l v Hr Hne) as (q1 & E1 & Hr1 & Hc). rewrite E in E1.
  injection E1 as <-. split; [eauto|]. split; [done|]. destruct Hr as (_ & -> & _).
  destruct Hr1 as (_ & -> & _). rewrite length_app. done.
Qed.

Lemma get_inv q q' v :
  (exists l, ring_rep q l) -> rsize q <> 0%nat -> get q = Ret (q', v) ->
  (exists l, ring_rep q' l) /\ rcapacity q' = rcapacity q /\ rsize q = (rsize q' + 1)%nat.
Proof.
  intros [l Hr] Hne E. pose proof Hr as (_ & Hs & _). destruct l as [|x l]; [done|].
  destruct (get_rep q x l Hr) as (q1 & E1 & Hr1 & Hc). rewrite E in E1. injection E1 as <- ->.
  split; [eauto|]. split; [done|]. rewrite Hs. destruct Hr1 as (_ & -> & _). simpl. lia.
Qed.

(** Putting an element and signalling; the enqueuer may be one that was woken. *)
Lemma put_wake_inv cap s v q :
  (exists l, ring_rep (queue s) l) -> rcapacity (queue s) = cap ->
  (asleepE s = [] \/ (rcapacity (queue s) <= rsize (queue s) + 1 + length (wokenE s))%nat) ->
  (asleepD s = 0%nat \/ (rsize (queue s) <= wokenD s)%nat) ->
  full (queue s) = false -> put (queue s) v = Ret q -> wake_inv cap (signal_notEmpty (with_queue s q)).
Proof.
  intros Hr Hc HE HD Hf E. unfold full in Hf. apply bool_decide_eq_false in Hf.
  destruct (put_inv _ v q Hr Hf E) as (Hr' & Hc' & Hs'). unfold signal_notEmpty, with_queue.
  cbn [asleepD]. destruct (asleepD s) eqn:Ea; unfold wake_inv; cbn [queue asleepE wokenE asleepD wokenD];
    rewrite Hc', Hs'; split_and!; try done; try lia; destruct HE; auto; right; lia.
Qed.

Lemma get_wake_inv cap s q v :
  (exists l, ring_rep (queue s) l) -> rcapacity (queue s) = cap ->
  (asleepE s = [] \/ (rcapacity (queue s) <= rsize (queue s) + length (wokenE s))%nat) ->
  (asleepD s = 0%nat \/ (rsize (queue s) <= wokenD s + 1)%nat) ->
  empty (queue s) = false -> get (queue s) = Ret (q, v) -> wake_inv cap (signal_notFull (with_queue s q)).
Proof.
  intros Hr Hc HE HD Hf E. unfold empty in Hf. apply bool_decide_eq_false in Hf.
  destruct (get_inv _ q v Hr Hf E) as (Hr' & Hc' & Hs'). unfold signal_notFull, with_queue.
  cbn [asleepE]. destruct (asleepE s) as [|w ws] eqn:Ea; unfold wake_inv;
    cbn [queue asleepE wokenE asleepD wokenD]; rewrite Hc', ?length_app; simpl; split_and!; try done;
    auto; try lia; destruct HE; try done; right; lia.
Qed.

Lemma BlockEnqueue_inv cap s v s' :
  (exists l, ring_rep (queue s) l) -> rcapacity (queue s) = cap ->
  (asleepE s = [] \/ (rcapacity (queue s) <= rsize (queue s) + 1 + length (wokenE s))%nat) ->
  (asleepD s = 0%nat \/ (rsize (queue s) <= wokenD s)%nat) ->
  BlockEnqueue s v = Ret s' -> wake_inv cap s'.
Proof.
  intros Hr Hc HE HD. unfold BlockEnqueue. destruct (full (queue s)) eqn:Ef.
  - intros [= <-]. unfold full in Ef. apply bool_decide_eq_true in Ef.
    split_and!; simpl; auto. right. lia.
  - destruct (put (queue s) v) as [q| |] eqn:Ep; simpl; try done. intros [= <-]. by eapply put_wake_inv.
Qed.

Lemma BlockDequeue_inv cap s s' o :
  (exists l, ring_rep (queue s) l) -> rcapacity (queue s) = cap ->
  (asleepE s = [] \/ (rcapacity (queue s) <= rsize (queue s) + length (wokenE s))%nat) ->
  (asleepD s = 0%nat \/ (rsize (queue s) <= wokenD s + 1)%nat) ->
  BlockDequeue s = Ret (s', o) -> wake_inv cap s'.
Proof.
  intros Hr Hc HE HD. unfold BlockDequeue. destruct (empty (queue s)) eqn:Ef.
  - intros [= <- <-]. unfold empty in Ef. apply bool_decide_eq_true in Ef.
    split_and!; simpl; auto. right. lia.
  - destruct (get (queue s)) as [[q v]| |] eqn:Ep; simpl; try done. intros [= <- <-].
    by eapply get_wake_inv.
Qed.

Lemma ring_step_inv cap s s' : wake_inv cap s -> ring_step s s' -> wake_inv cap s'.
Proof.
  intros Hi Hstep. pose proof Hi as (Hr & Hc & HE & HD).
  destruct Hstep as [s v q b s' E ->|s q o s' E ->|s v s' E|s s' o E|s v l r s' Ew E|s n s' o Ew E].
  - unfold Enqueue in E. destruct (full (queue s)) eqn:Ef; [by injection E as <- <-|].
    destruct (put (queue s) v) as [q1| |] eqn:Ep; simpl in E; try done. injection E as <- <-.
    eapply put_wake_inv; try done. destruct HE; [by left|right; lia].
  - unfold Dequeue in E. destruct (empty (queue s)) eqn:Ef; [by injection E as <- <-|].
    destruct (get (queue s)) as [[q1 v]| |] eqn:Ep; simpl in E; try done. injection E as <- <-.
    eapply get_wake_inv; try done. destruct HD; [by left|right; lia].
  - eapply BlockEnqueue_inv; try done. destruct HE; [by left|right; lia].
  - eapply BlockDequeue_inv; try done. destruct HD; [by left|right; lia].
  - eapply BlockEnqueue_inv in E; simpl; try done. destruct HE as [|HE]; [by left|]. right.
    rewrite Ew, length_app in HE. rewrite length_app. simpl in *. lia.
  - eapply BlockDequeue_inv in E; simpl; try done. destruct HD; [by left|]. right. lia.
Qed.

Lemma ring_reachable_inv cap s : ring_reachable cap s -> wake_inv (Z.to_nat cap) s.
Proof.
  induction 1 as [q E|s s' _ IH Hstep]; [|by eapply ring_step_inv].
  unfold NewSafeRingQueue in E. destruct (cap <? 0) eqn:Ec; breflect; [done|].
  destruct (New_ring_rep cap Ec) as (q0 & E0 & Hr & Hcap). unfold NewSafeRingQueue in E0.
  replace (cap <? 0) with false in E0 by lia. rewrite E in E0. injection E0 as <-.
  split_and!; simpl; eauto.
Qed.

(** C40: no wake-up is lost: in every reachable state, if an enqueuer sleeps while
    the queue has room, then some enqueuer has been woken and is about to look
    again, and if a dequeuer sleeps while the queue has an element, then some
    dequeuer is; and a woken goroutine's turn never panics.  A queue with a capacity
    above 0 is not full or not empty, so it cannot be stuck with enqueuers and dequeuers
    all asleep. *)
Theorem ring_no_lost_wakeup (cap : Z) (s : shared) (H : ring_reachable cap s) :
  (asleepE s <> [] -> full (queue s) = false -> wokenE s <> []) /\
  (asleepD s <> 0%nat -> empty (queue s) = false -> wokenD s <> 0%nat) /\
  (forall v, exists s', BlockEnqueue s v = Ret s') /\ (exists s' o, BlockDequeue s = Ret (s', o)).
Proof.
  apply ring_reachable_inv in H as ((l & Hr) & Hc & HE & HD). pose proof Hr as (_ & Hs & Hle & _).
  unfold BlockEnqueue, BlockDequeue, full, empty. split_and!.
  - intros Ha Hf%bool_decide_eq_false Hw. destruct HE as [|HE]; [done|]. rewrite Hw in HE. simpl in HE. lia.
  - intros Ha Hf%bool_decide_eq_false Hw. destruct HD as [|HD]; [done|]. lia.
  - intros v. case_bool_decide as Hf; [eauto|]. destruct (put_rep _ l v Hr Hf) as (q & -> & _). simpl. eauto.
  - case_bool_decide as Hf; [eauto|]. destruct l as [|x l]; [done|].
    destruct (get_rep _ x l Hr) as (q & -> & _). simpl. eauto.
Qed.
End RingQueue.

(** A queue of one slot: the second enqueuer sleeps and is woken by a dequeue. *)
Definition ring_one : SafeRingQueue := @mkRQ Z [10] 1 0 0 1.
Definition ring_taken : SafeRingQueue := @mkRQ Z [0] 1 0 0 0.

Lemma ring_woken_reachable :
  ring_reachable 0 1 (mkShared ring_taken [30] [20] 0 0).
Proof.
  eapply (reach_step 0 1 (mkShared ring_one [20; 30] [] 0 0)).
  { eapply (reach_step 0 1 (mkShared ring_one [20] [] 0 0)).
    { eapply (reach_step 0 1 (mkShared ring_one [] [] 0 0)).
      { eapply (reach_step 0 1 (mkShared (mkRQ [0] 1 0 0 0) [] [] 0 0)); [by apply reach_new|].
        by apply (step_BlockEnqueue 0 _ 10). }
      by apply (step_BlockEnqueue 0 _ 20). }
    by apply (step_BlockEnqueue 0 _ 30). }
  by apply (step_BlockDequeue 0 _ _ (Some 10)).
Qed.

Lemma ring_no_lost_wakeup_witness :
  wokenE (mkShared ring_taken [30] [20] 0 0) <> [] /\
  exists s', BlockEnqueue (mkShared ring_taken [30] [20] 0 0) 40 = Ret s'.
Proof.
  destruct (ring_no_lost_wakeup 0 1 (mkShared ring_taken [30] [20] 0 0) ring_woken_reachable) as (H1 & _ & H3 & _).
  split; [by apply H1 | apply H3].
Defined.
