(* ===== verification/LinkedList.v ===== *)
(** * LinkedList

    [pkg/basic/linked_list.go]: a doubly linked list of nodes in a shared heap.
    The removals leave the links of the removed node in place: used from one end
    the list behaves, and a run of removals from both ends shows how it does not. *)

From S2P Require Import Prelude.

Section LinkedList.
Context {T : Type} `{EqDecision T}.

Record linkedListNode := mkLN { item : T; prev : option nat; next : option nat }.

Record LinkedList := mkLL {
  size : Z;
  first : option nat;
  last : option nat;
  nodes : list linkedListNode
}.

Definition zeroList : LinkedList := mkLL 0 None None [].

Definition set_next (o : option nat) (n : linkedListNode) : linkedListNode := mkLN (item n) (prev n) o.
Definition set_prev (o : option nat) (n : linkedListNode) : linkedListNode := mkLN (item n) o (next n).

Definition AddFirst (l : LinkedList) (x : T) : LinkedList :=
  let n := length (nodes l) in
  let h := nodes l ++ [mkLN x None None] in
  match first l with
  | None => mkLL (size l + 1) (Some n) (Some n) h
  | Some f =>
      let h := alter (set_next (Some f)) n h in
      let h := alter (set_prev (Some n)) f h in
      mkLL (size l + 1) (Some n) (last l) h
  end.

Definition AddLast (l : LinkedList) (x : T) : LinkedList :=
  let n := length (nodes l) in
  let h := nodes l ++ [mkLN x None None] in
  match last l with
  | None => mkLL (size l + 1) (Some n) (Some n) h
  | Some t =>
      let h := alter (set_prev (Some t)) n h in
      let h := alter (set_next (Some n)) t h in
      mkLL (size l + 1) (first l) (Some n) h
  end.

(** [None] is [(zero, ErrOfNilElement)]; a nil [first] or [last] is dereferenced. *)
Definition RemoveFirst (l : LinkedList) : outcome (LinkedList * option T) :=
  if size l =? 0 then Ret (l, None)
  else
    run f <- deref (first l);
    run n <- deref (nodes l !! f);
    match next n with
    | Some g => Ret (mkLL (size l - 1) (Some g) (last l) (nodes l), Some (item n))
    | None => Ret (mkLL (size l - 1) None None (nodes l), Some (item n))
    end.

Definition RemoveLast (l : LinkedList) : outcome (LinkedList * option T) :=
  if size l =? 0 then Ret (l, None)
  else
    run t <- deref (last l);
    run n <- deref (nodes l !! t);
    match prev n with
    | Some g => Ret (mkLL (size l - 1) (first l) (Some g) (nodes l), Some (item n))
    | None => Ret (mkLL (size l - 1) None None (nodes l), Some (item n))
    end.

Definition Size (l : LinkedList) : Z := size l.

(** The loop; [index] stays 0. *)
Fixpoint indexOf_from (fuel : nat) (l : LinkedList) (p : option nat) (x : T) : outcome Z :=
  match fuel with
  | O => OutOfFuel
  | S fuel =>
      match p with
      | None => Ret (-1)
      | Some p =>
          run n <- deref (nodes l !! p);
          if bool_decide (item n = x) then Ret 0 else indexOf_from fuel l (next n) x
      end
  end.

(** A chain of nodes without repetition is no longer than the heap. *)
Definition indexOf (l : LinkedList) (x : T) : outcome Z :=
  indexOf_from (S (length (nodes l))) l (first l) x.

Definition Contains (l : LinkedList) (x : T) : outcome bool :=
  run i <- indexOf l x; Ret (negb (i =? -1)).

(** ** Refinement, without RemoveLast *)

(** [ids] is the chain of nodes with items [xs], followed by its next links. *)
Fixpoint nexts (h : list linkedListNode) (ids : list nat) (xs : list T) : Prop :=
  match ids, xs with
  | [], [] => True
  | i :: ids, x :: xs =>
      (exists n, h !! i = Some n /\ item n = x /\ next n = head ids) /\ nexts h ids xs
  | _, _ => False
  end.

Definition list_rep (l : LinkedList) (ids : list nat) (xs : list T) : Prop :=
  nexts (nodes l) ids xs /\ NoDup ids /\ first l = head ids /\ last l = list.last ids /\ size l = len xs.

Lemma nexts_length h ids xs : nexts h ids xs -> length ids = length xs.
Proof.
  revert xs. induction ids as [|i ids IH]; intros [|x xs]; simpl; try done.
  intros [_ Hn]. f_equal. by apply IH.
Qed.

Lemma nexts_lt h ids xs i : nexts h ids xs -> i ∈ ids -> (i < length h)%nat.
Proof.
  revert xs. induction ids as [|j ids IH]; intros [|x xs]; simpl; try done; [set_solver|].
  intros [(n & Hn & _) Hrest] [->|Hi]%elem_of_cons; [by eapply lookup_lt_Some|by eapply IH].
Qed.

(** Only the items and next links of the chain matter. *)
Lemma nexts_frame h h' ids xs :
  nexts h ids xs ->
  (forall i n, i ∈ ids -> h !! i = Some n ->
     exists n', h' !! i = Some n' /\ item n' = item n /\ next n' = next n) ->
  nexts h' ids xs.
Proof.
  revert xs. induction ids as [|j ids IH]; intros [|x xs]; simpl; try done.
  intros [(n & Hn & Hx & Hnext) Hrest] Hf. split.
  - destruct (Hf j n) as (n' & E & E1 & E2); [set_solver|done|]. exists n'. by rewrite E, E1, E2.
  - apply IH; [done|]. intros i m Hi. apply Hf. set_solver.
Qed.

Lemma nexts_snoc h h' ids t xs k x :
  nexts h (ids ++ [t]) xs -> NoDup (ids ++ [t]) ->
  (forall i n, i ∈ ids ++ [t] -> h !! i = Some n ->
     exists n', h' !! i = Some n' /\ item n' = item n /\
       next n' = if decide (i = t) then Some k else next n) ->
  (exists n, h' !! k = Some n /\ item n = x /\ next n = None) ->
  nexts h' ((ids ++ [t]) ++ [k]) (xs ++ [x]).
Proof.
  revert xs. induction ids as [|j ids IH]; intros [|y xs]; simpl; try done.
  - intros [(n & Hn & Hy & _) Hrest] _ Hf Hk. destruct xs; [|done]. simpl. split; [|done].
    destruct (Hf t n) as (n' & E & E1 & E2); [set_solver|done|]. rewrite decide_True in E2 by done.
    exists n'. by rewrite E, E1, E2.
  - intros [(n & Hn & Hy & Hnext) Hrest] [Hj Hnd]%NoDup_cons Hf Hk. split.
    + destruct (Hf j n) as (n' & E & E1 & E2); [set_solver|done|].
      rewrite decide_False in E2 by set_solver. exists n'. rewrite E, E1, E2, Hnext.
      split; [done|]. split; [done|]. by destruct ids.
    + apply IH; try done. intros i m Hi. apply Hf. set_solver.
Qed.

(** Looking up a node in a heap with one node more and one node changed. *)
Lemma alter_lookup (f : linkedListNode -> linkedListNode) (i : nat) (h : list linkedListNode) (j : nat) :
  alter f i h !! j = if decide (i = j) then f <$> h !! j else h !! j.
Proof.
  case_decide; [subst; apply list_lookup_alter_eq | by apply list_lookup_alter_ne].
Qed.

Lemma AddFirst_rep l ids xs x :
  list_rep l ids xs -> exists ids', list_rep (AddFirst l x) ids' (x :: xs).
Proof.
  intros (Hn & Hnd & Hf & Hl & Hs). exists (length (nodes l) :: ids).
  assert (Hfresh : length (nodes l) ∉ ids).
  { intros Hi. pose proof (nexts_lt _ _ _ _ Hn Hi). lia. }
  pose proof (nexts_length _ _ _ Hn) as Hlen.
  unfold AddFirst. rewrite Hf. destruct ids as [|i ids]; destruct xs as [|y xs]; try done.
  - split_and!; simpl; try done.
    + split; [|done]. exists (mkLN x None None). by rewrite list_lookup_middle.
    + by apply NoDup_singleton.
    + by rewrite Hs.
  - cbn [head]. split_and!; cbn [nodes first last size]; try done.
    + split.
      * exists (mkLN x None (Some i)). rewrite !alter_lookup, list_lookup_middle by done.
        rewrite decide_False by set_solver. by rewrite decide_True.
      * eapply nexts_frame; [exact Hn|]. intros j n Hj Hjn. rewrite !alter_lookup.
        rewrite lookup_app_l by (by eapply lookup_lt_Some). rewrite Hjn.
        rewrite (decide_False (P := length (nodes l) = j)) by (intros <-; done).
        case_decide; eexists; split; done.
    + by constructor.
    + rewrite Hs. glen.
Qed.

Lemma AddLast_rep l ids xs x :
  list_rep l ids xs -> exists ids', list_rep (AddLast l x) ids' (xs ++ [x]).
Proof.
  intros (Hn & Hnd & Hf & Hl & Hs). exists (ids ++ [length (nodes l)]).
  assert (Hfresh : length (nodes l) ∉ ids).
  { intros Hi. pose proof (nexts_lt _ _ _ _ Hn Hi). lia. }
  pose proof (nexts_length _ _ _ Hn) as Hlen. unfold AddLast. rewrite Hl.
  destruct ids as [|t ids _] using rev_ind.
  - destruct xs; [|done]. split_and!; simpl; try done.
    + split; [|done]. exists (mkLN x None None). by rewrite list_lookup_middle.
    + by apply NoDup_singleton.
    + by rewrite Hs.
  - rewrite last_snoc. split_and!; cbn [nodes first last size].
    + eapply nexts_snoc; [exact Hn|done| |].
      * intros j n Hj Hjn. rewrite !alter_lookup.
        rewrite lookup_app_l by (by eapply lookup_lt_Some). rewrite Hjn.
        rewrite (decide_False (P := length (nodes l) = j)) by (intros <-; done).
        repeat case_decide; try congruence; eexists; split; done.
      * exists (mkLN x (Some t) None). rewrite !alter_lookup, list_lookup_middle by done.
        rewrite (decide_False (P := t = _)) by set_solver. by rewrite decide_True.
    + apply NoDup_app. split; [done|]. split; [set_solver|apply NoDup_singleton].
    + rewrite Hf. by destruct ids.
    + by rewrite last_snoc.
    + rewrite Hs. glen.
Qed.

Lemma ll_RemoveFirst_rep l ids xs :
  list_rep l ids xs ->
  exists l' ids', RemoveFirst l = Ret (l', head xs) /\ list_rep l' ids' (tail xs).
Proof.
  intros (Hn & Hnd & Hf & Hl & Hs). unfold RemoveFirst. rewrite Hs.
  destruct ids as [|i ids]; destruct xs as [|x xs]; try done.
  - exists l, []. split; [done|]. by split_and!.
  - rewrite len_cons. pose proof (len_nonneg xs). replace (1 + len xs =? 0) with false by lia.
    rewrite Hf. cbn [head deref outcome_bind]. destruct Hn as [(n & Hi & Hx & Hnext) Hn].
    rewrite Hi. cbn [deref outcome_bind]. rewrite Hnext. apply NoDup_cons in Hnd as [_ Hnd].
    destruct ids as [|j ids]; cbn [head].
    + destruct xs; [|done]. eexists _, []. split; [by rewrite <- Hx|]. by split_and!.
    + eexists _, (j :: ids). split; [by rewrite <- Hx|]. split_and!; try done; simpl; lia.
Qed.

Lemma indexOf_chain l x ids xs fuel :
  nexts (nodes l) ids xs -> (length ids < fuel)%nat ->
  indexOf_from fuel l (head ids) x = Ret (if bool_decide (x ∈ xs) then 0 else -1).
Proof.
  revert xs fuel. induction ids as [|i ids IH]; intros [|y xs] [|fuel]; simpl; try lia; try done.
  intros [(n & Hi & Hy & Hnext) Hn] Hf. rewrite Hi. cbn [deref outcome_bind]. rewrite Hy, Hnext.
  case_bool_decide as Hyx.
  - rewrite bool_decide_true by set_solver. done.
  - rewrite (IH xs) by (done || lia). f_equal. 
    destruct (decide (x ∈ xs)); [rewrite !bool_decide_true by set_solver|rewrite !bool_decide_false by set_solver]; done.
Qed.

Lemma ll_Contains_rep l ids xs x : list_rep l ids xs -> Contains l x = Ret (bool_decide (x ∈ xs)).
Proof.
  intros (Hn & Hnd & Hf & _). unfold Contains, indexOf. rewrite Hf.
  rewrite (indexOf_chain l x ids xs _ Hn); [by case_bool_decide|].
  assert (length ids <= length (nodes l))%nat; [|lia].
  rewrite <- (length_seq (length (nodes l)) 0). apply submseteq_length, NoDup_submseteq; [done|].
  intros i Hi. apply elem_of_seq. pose proof (nexts_lt _ _ _ _ Hn Hi). lia.
Qed.

Inductive ll_op : Type :=
| LlAddFirst (x : T)
| LlAddLast (x : T)
| LlRemoveFirst
| LlRemoveLast
| LlContains (x : T).

Inductive ll_answer : Type :=
| LNone
| LElem (o : option T)
| LBool (b : bool).

Definition ll_call (l : LinkedList) (op : ll_op) : outcome (LinkedList * ll_answer) :=
  match op with
  | LlAddFirst x => Ret (AddFirst l x, LNone)
  | LlAddLast x => Ret (AddLast l x, LNone)
  | LlRemoveFirst => run (l, o) <- RemoveFirst l; Ret (l, LElem o)
  | LlRemoveLast => run (l, o) <- RemoveLast l; Ret (l, LElem o)
  | LlContains x => run b <- Contains l x; Ret (l, LBool b)
  end.

Fixpoint ll_run (l : LinkedList) (ops : list ll_op) : outcome (LinkedList * list ll_answer) :=
  match ops with
  | [] => Ret (l, [])
  | op :: ops => run (l, a) <- ll_call l op; run (l, r) <- ll_run l ops; Ret (l, a :: r)
  end.

(** The promise. *)
Definition seq_call (xs : list T) (op : ll_op) : list T * ll_answer :=
  match op with
  | LlAddFirst x => (x :: xs, LNone)
  | LlAddLast x => (xs ++ [x], LNone)
  | LlRemoveFirst => (tail xs, LElem (head xs))
  | LlRemoveLast => (removelast xs, LElem (list.last xs))
  | LlContains x => (xs, LBool (bool_decide (x ∈ xs)))
  end.

Fixpoint seq_run (xs : list T) (ops : list ll_op) : list T * list ll_answer :=
  match ops with
  | [] => (xs, [])
  | op :: ops => let '(xs, a) := seq_call xs op in let '(xs, r) := seq_run xs ops in (xs, a :: r)
  end.

Definition not_RemoveLast (op : ll_op) : Prop := match op with LlRemoveLast => False | _ => True end.

Lemma ll_call_rep l ids xs op :
  list_rep l ids xs -> not_RemoveLast op ->
  exists l' ids', ll_call l op = Ret (l', snd (seq_call xs op)) /\ list_rep l' ids' (fst (seq_call xs op)).
Proof.
  intros Hr Hop. destruct op as [x|x| | |x]; cbn [ll_call seq_call fst snd].
  - destruct (AddFirst_rep l ids xs x Hr) as [ids' Hr']. by exists (AddFirst l x), ids'.
  - destruct (AddLast_rep l ids xs x Hr) as [ids' Hr']. by exists (AddLast l x), ids'.
  - destruct (ll_RemoveFirst_rep l ids xs Hr) as (l' & ids' & -> & Hr'). by exists l', ids'.
  - done.
  - rewrite (ll_Contains_rep l ids xs x Hr). by exists l, ids.
Qed.

Lemma ll_run_rep ops l ids xs :
  list_rep l ids xs -> Forall not_RemoveLast ops ->
  exists l' ids', ll_run l ops = Ret (l', snd (seq_run xs ops)) /\ list_rep l' ids' (fst (seq_run xs ops)).
Proof.
  revert l ids xs. induction ops as [|op ops IH]; intros l ids xs Hr Hall; cbn [ll_run seq_run].
  - by exists l, ids.
  - apply Forall_cons in Hall as [Hop Hall].
    destruct (ll_call_rep l ids xs op Hr Hop) as (l1 & ids1 & -> & Hr1). cbn [outcome_bind].
    destruct (seq_call xs op) as [xs1 a]. cbn [fst snd] in *.
    destruct (IH l1 ids1 xs1 Hr1 Hall) as (l2 & ids2 & -> & Hr2). cbn [outcome_bind].
    destruct (seq_run xs1 ops) as [xs2 r]. by exists l2, ids2.
Qed.

(** Without RemoveLast (a queue, or a stack at its front), the linked list
    never dereferences nil, its walks end, and AddFirst, AddLast, RemoveFirst,
    Contains and Size answer as a list, errors on the empty list included. *)
Theorem LinkedList_refines (ops : list ll_op) (H : Forall not_RemoveLast ops) :
  exists l, ll_run zeroList ops = Ret (l, snd (seq_run [] ops)) /\ Size l = len (fst (seq_run [] ops)).
Proof.
  destruct (ll_run_rep ops zeroList [] []) as (l & ids & E & _ & _ & _ & _ & Hs); try done.
  - split_and!; try done. constructor.
  - by exists l.
Qed.
End LinkedList.

Definition ll_sample : list (@ll_op Z) :=
  [LlAddLast 1; LlAddLast 2; LlAddFirst 3; LlRemoveFirst; LlContains 3; LlContains 2; LlRemoveFirst].

Lemma LinkedList_refines_witness :
  exists l, ll_run zeroList ll_sample
    = Ret (l, [LNone; LNone; LNone; LElem (Some 3); LBool false; LBool true; LElem (Some 1)]) /\
    Size l = 1.
Proof.
  destruct (LinkedList_refines ll_sample) as (l & E & Hs); [repeat constructor|].
  exists l. split; [exact E | exact Hs].
Defined.

(** Two elements, one removed from each end, and a third added. *)
Definition ll_ends : list (@ll_op Z) :=
  [LlAddLast 1; LlAddLast 2; LlRemoveFirst; LlRemoveLast; LlAddLast 3; LlRemoveFirst].

(** With removals from both ends the list breaks: RemoveFirst leaves the
    removed node as the prev of the new first one, so that RemoveLast of the only
    element makes the removed node the last one; the next element added hangs
    behind it, and RemoveFirst answers the element already removed (2) where a
    list answers the one that was added (3). *)
Theorem LinkedList_ends_break :
  match ll_run zeroList ll_ends with
  | Ret (l, a) => list.last a = Some (LElem (Some 2)) /\ Size l = 0 /\ first l = None
  | _ => False
  end /\
  list.last (snd (seq_run [] ll_ends)) = Some (LElem (Some 3)).
Proof. vm_compute. done. Qed.
