(* ===== verification/Router.v ===== *)
(** * Route tree

    [web/router/tree.go]: the routes of a method in a radix tree whose nodes are
    shared objects with parent pointers.  This file is the model: registration
    ([addRoute], [insert]) and lookup ([find]) on a heap of nodes.

    Not modelled: [findCaseInsensitivePath], which nothing calls. *)

From S2P Require Import Prelude Bytes.

Inductive kind : Type := skind | pkind | akind.

#[export] Instance kind_eq_dec : EqDecision kind.
Proof. solve_decision. Defined.

Definition paramLabel : Z := 58.
Definition anyLabel : Z := 42.
Definition slash : Z := 47.

(** A single URL parameter. *)
Record Param := mkParam { Key : bytes; Value : bytes }.

(** The slice paramsPointer points to: its backing array, as long as the
    capacity, and the length of its visible part. *)
Record Params := mkParams { backing : list Param; plen : nat }.

Definition visible (ps : Params) : list Param := take (plen ps) (backing ps).

(** [ps[:k]]: up to the capacity, else a panic. *)
Definition reslice (ps : Params) (k : Z) : outcome Params :=
  if (0 <=? k) && (k <=? len (backing ps)) then Ret (mkParams (backing ps) (Z.to_nat k)) else Panic.

(** [ps[i]], and writing its fields. *)
Definition param_at (ps : Params) (i : Z) : outcome Param := deref (znth (visible ps) i).

Definition set_value (ps : Params) (i : Z) (v : bytes) : outcome Params :=
  run p <- param_at ps i;
  Ret (mkParams (<[Z.to_nat i := mkParam (Key p) v]> (backing ps)) (plen ps)).

Definition set_key (ps : Params) (i : Z) (k : bytes) : outcome Params :=
  run p <- param_at ps i;
  Ret (mkParams (<[Z.to_nat i := mkParam k (Value p)]> (backing ps)) (plen ps)).

(** [url.QueryUnescape]; [None] is an error. *)
Definition unhex (c : Z) : option Z :=
  if between 48 c 57 then Some (c - 48)
  else if between 97 c 102 then Some (c - 87)
  else if between 65 c 70 then Some (c - 55)
  else None.

Fixpoint QueryUnescape (s : bytes) : option bytes :=
  match s with
  | [] => Some []
  | 37 :: a :: b :: s =>
      match unhex a, unhex b with
      | Some x, Some y => cons (16 * x + y) <$> QueryUnescape s
      | _, _ => None
      end
  | 37 :: _ => None
  | 43 :: s => cons 32 <$> QueryUnescape s
  | c :: s => cons c <$> QueryUnescape s
  end.

Section Router.
(** [method.Method]. *)
Context {H : Type}.

(** A HandlersChain is nil ([None]) or a slice. *)
Abbreviation HandlersChain := (option (list H)).

(** Only nil or appended slices are stored in [children], so nil is [[]]. *)
Record node := mkNode {
  nkind : kind;
  label : Z;
  prefix : bytes;
  parent : option nat;
  children : list nat;
  ppath : bytes;
  pnames : list bytes;
  handlers : HandlersChain;
  paramChild : option nat;
  anyChild : option nat;
  isLeaf : bool
}.

(** [&node{}]. *)
Definition zero_node : node := mkNode skind 0 [] None [] [] [] None None None false.

(** The nodes, in the order they were allocated; the root is the first. *)
Record router := mkRouter { method : bytes; nodes : list node }.

Definition new_router (m : bytes) : router := mkRouter m [zero_node].

Definition MethodTrees := list router.

Fixpoint trees_get (trees : MethodTrees) (m : bytes) : option router :=
  match trees with
  | [] => None
  | t :: trees => if bytes_eqb (method t) m then Some t else trees_get trees m
  end.

(** [child == nil && paramChild == nil && anyChild == nil]. *)
Definition leaf_test (cs : list nat) (pc ac : option nat) : bool :=
  match cs, pc, ac with [], None, None => true | _, _, _ => false end.

(** [pre[0]] panics on an empty prefix. *)
Definition newNode (t : kind) (pre : bytes) (p : option nat) (child : list nat) (mh : HandlersChain)
    (pp : bytes) (pn : list bytes) (paramChildren anyChildren : option nat) : outcome node :=
  run l <- deref (head pre);
  Ret (mkNode t l pre p child pp pn mh paramChildren anyChildren
         (leaf_test child paramChildren anyChildren)).

Fixpoint find_label (hp : list node) (cs : list nat) (l : Z) : outcome (option nat) :=
  match cs with
  | [] => Ret None
  | c :: cs => run n <- deref (hp !! c); if label n =? l then Ret (Some c) else find_label hp cs l
  end.

Definition findChild (hp : list node) (n : node) (l : Z) : outcome (option nat) :=
  find_label hp (children n) l.

Definition findChildWithLabel (hp : list node) (n : node) (l : Z) : outcome (option nat) :=
  run c <- find_label hp (children n) l;
  match c with
  | Some c => Ret (Some c)
  | None =>
      if l =? paramLabel then Ret (paramChild n)
      else if l =? anyLabel then Ret (anyChild n)
      else Ret None
  end.

(** ** Registration *)

(** The loop [for ; i < len(path) && path[i] != '/'; i++]: no second wildcard in
    the rest of the segment. *)
Fixpoint one_wildcard (rest : bytes) : bool :=
  match rest with
  | [] => true
  | c :: rest =>
      if c =? slash then true
      else if (c =? paramLabel) || (c =? anyLabel) then false else one_wildcard rest
  end.

(** The cases of the switch, [before] being path[i-1] if there is one, [c]
    path[i] and [rest] path[i+1:]. *)
Definition check_at (before : option Z) (c : Z) (rest : bytes) : bool :=
  if c =? paramLabel then
    match rest with
    | [] => false
    | d :: _ => negb (d =? slash) && one_wildcard rest
    end
  else if c =? anyLabel then
    match rest with
    | [] => false
    | _ => match before with Some b => b =? slash | None => true end &&
           forallb (fun d => negb (d =? slash)) (c :: rest)
    end
  else true.

Fixpoint check_from (before : option Z) (path : bytes) : bool :=
  match path with
  | [] => true
  | c :: rest => check_at before c rest && check_from (Some c) rest
  end.

(** [true] if checkPathValid returns, [false] if it panics. *)
Definition checkPathValid (path : bytes) : bool :=
  match path with
  | [] => false
  | c :: _ => (c =? slash) && check_from None path
  end.

(** The first loop of insert: the length of the common prefix. *)
Fixpoint lcp (a b : bytes) : nat :=
  match a, b with
  | x :: a, y :: b => if x =? y then S (lcp a b) else 0
  | _, _ => 0
  end.

(** [child.parent = n] for every child. *)
Definition set_parent (p : nat) (n : node) : node :=
  mkNode (nkind n) (label n) (prefix n) (Some p) (children n) (ppath n) (pnames n) (handlers n)
    (paramChild n) (anyChild n) (isLeaf n).

Definition adopt (p : nat) (cs : list nat) (hp : list node) : list node :=
  foldl (fun hp c => alter (set_parent p) c hp) hp cs.

Definition opt_list {A} (o : option A) : list A := match o with Some x => [x] | None => [] end.

(** The body of the loop of insert at node [cur] without its [continue]:
    [inl] is the node to go on with and the rest of the search, [inr] the heap
    when it returns. *)
Definition insert_at (hp : list node) (cur : nat) (search : bytes) (h : HandlersChain) (t : kind)
    (pp : bytes) (pn : list bytes) : outcome ((nat * bytes) + list node) :=
  run n <- deref (hp !! cur);
  let searchLen := length search in
  let prefixLen := length (prefix n) in
  let lcpLen := lcp search (prefix n) in
  if bool_decide (lcpLen = 0%nat) then
    run l <- deref (head search);
    let leaf := leaf_test (children n) (paramChild n) (anyChild n) in
    let n := match h with
             | Some _ => mkNode t l search (parent n) (children n) pp pn h (paramChild n) (anyChild n) leaf
             | None => mkNode (nkind n) l search (parent n) (children n) (ppath n) (pnames n)
                         (handlers n) (paramChild n) (anyChild n) leaf
             end in
    Ret (inr (<[cur := n]> hp))
  else if bool_decide (lcpLen < prefixLen)%nat then
    run m <- newNode (nkind n) (drop lcpLen (prefix n)) (Some cur) (children n) (handlers n) (ppath n)
               (pnames n) (paramChild n) (anyChild n);
    let a := length hp in
    let hp := hp ++ [m] in
    let hp := adopt a (children n ++ opt_list (paramChild n) ++ opt_list (anyChild n)) hp in
    run l <- deref (head (prefix n));
    let pre := take lcpLen (prefix n) in
    if bool_decide (lcpLen = searchLen)
    then Ret (inr (<[cur := mkNode t l pre (parent n) [a] pp pn h None None false]> hp))
    else
      run c <- newNode t (drop lcpLen search) (Some cur) [] h pp pn None None;
      let b := length hp in
      let hp := hp ++ [c] in
      Ret (inr (<[cur := mkNode skind l pre (parent n) [a; b] [] [] None None None false]> hp))
  else if bool_decide (lcpLen < searchLen)%nat then
    let search := drop lcpLen search in
    run l <- deref (head search);
    run c <- findChildWithLabel hp n l;
    match c with
    | Some c => Ret (inl (c, search))
    | None =>
        run m <- newNode t search (Some cur) [] h pp pn None None;
        let a := length hp in
        let hp := hp ++ [m] in
        let '(cs, pc, ac) :=
          match t with
          | skind => (children n ++ [a], paramChild n, anyChild n)
          | pkind => (children n, Some a, anyChild n)
          | akind => (children n, paramChild n, Some a)
          end in
        Ret (inr (<[cur := mkNode (nkind n) (label n) (prefix n) (parent n) cs (ppath n) (pnames n)
                             (handlers n) pc ac (leaf_test cs pc ac)]> hp))
    end
  else
    match handlers n, h with
    | Some _, Some _ => Panic
    | _, Some _ =>
        Ret (inr (<[cur := mkNode (nkind n) (label n) (prefix n) (parent n) (children n) pp pn h
                             (paramChild n) (anyChild n) (isLeaf n)]> hp))
    | _, None => Ret (inr hp)
    end.

Fixpoint insert_loop (fuel : nat) (hp : list node) (cur : nat) (search : bytes) (h : HandlersChain)
    (t : kind) (pp : bytes) (pn : list bytes) : outcome (list node) :=
  match fuel with
  | O => OutOfFuel
  | S fuel =>
      run r <- insert_at hp cur search h t pp pn;
      match r with
      | inl (cur, search) => insert_loop fuel hp cur search h t pp pn
      | inr hp => Ret hp
      end
  end.

(** Each round consumes at least one octet of the search. *)
Definition insert (hp : list node) (path : bytes) (h : HandlersChain) (t : kind) (pp : bytes)
    (pn : list bytes) : outcome (list node) :=
  insert_loop (S (length path)) hp 0 path h t pp pn.

(** [path[i:]] up to the next slash, and from it on. *)
Fixpoint to_slash (s : bytes) : bytes * bytes :=
  match s with
  | [] => ([], [])
  | c :: s' => if c =? slash then ([], s) else let '(a, b) := to_slash s' in (c :: a, b)
  end.

(** The loop of addRoute, [pre] being path[:i] and [rest] path[i:]; a parameter's
    name is cut out of the path as the code does. *)
Fixpoint addRoute_loop (fuel : nat) (hp : list node) (pre rest : bytes) (h : HandlersChain)
    (pp : bytes) (pn : list bytes) : outcome (list node) :=
  match fuel with
  | O => OutOfFuel
  | S fuel =>
      match rest with
      | [] => insert hp pre h skind pp pn
      | c :: rest' =>
          if c =? paramLabel then
            run hp <- insert hp pre None skind [] [];
            let '(name, rest) := to_slash rest' in
            let pn := pn ++ [name] in
            let pre := pre ++ [paramLabel] in
            match rest with
            | [] => insert hp pre h pkind pp pn
            | d :: rest' =>
                run hp <- insert hp pre None pkind [] pn;
                addRoute_loop fuel hp (pre ++ [d]) rest' h pp pn
            end
          else if c =? anyLabel then
            run hp <- insert hp pre None skind [] [];
            insert hp (pre ++ [anyLabel]) h akind pp (pn ++ [rest'])
          else addRoute_loop fuel hp (pre ++ [c]) rest' h pp pn
      end
  end.

Definition addRoute (r : router) (path : bytes) (h : HandlersChain) : outcome router :=
  if checkPathValid path then
    match h with
    | None => Panic
    | Some _ =>
        run hp <- addRoute_loop (S (length path)) (nodes r) [] path h path [];
        Ret (mkRouter (method r) hp)
    end
  else Panic.

(** ** Lookup *)

Record nodeValue := mkValue { v_handlers : HandlersChain; tsr : bool; fullPath : bytes }.

(** The variables of find. *)
Record fstate := mkF {
  cn : option nat;
  search : bytes;
  searchIndex : Z;
  params : Params;
  paramIndex : Z;
  res : nodeValue
}.

Definition set_tsr (st : fstate) : fstate :=
  mkF (cn st) (search st) (searchIndex st) (params st) (paramIndex st)
    (mkValue (v_handlers (res st)) true (fullPath (res st))).

Definition set_handlers (st : fstate) (h : HandlersChain) : fstate :=
  mkF (cn st) (search st) (searchIndex st) (params st) (paramIndex st)
    (mkValue h (tsr (res st)) (fullPath (res st))).

Definition set_cn (st : fstate) (c : option nat) : fstate :=
  mkF c (search st) (searchIndex st) (params st) (paramIndex st) (res st).

(** [path[i:]]: an index out of range panics. *)
Definition slice_from (path : bytes) (i : Z) : outcome bytes :=
  if (0 <=? i) && (i <=? len path) then Ret (zdrop i path) else Panic.

(** The closure backtrackToNextNodeKind, with the kind it returns. *)
Definition backtrack (hp : list node) (path : bytes) (fromKind : kind) (st : fstate) :
    outcome (fstate * kind) :=
  run a <- deref (cn st);
  run previous <- deref (hp !! a);
  let st := set_cn st (parent previous) in
  let next := match nkind previous with skind => pkind | pkind => akind | akind => skind end in
  match fromKind with
  | skind => Ret (st, next)
  | _ =>
      run st <-
        (match nkind previous with
         | skind =>
             Ret (mkF (cn st) (search st) (searchIndex st - len (prefix previous)) (params st)
                    (paramIndex st) (res st))
         | _ =>
             let j := paramIndex st - 1 in
             run p <- param_at (params st) j;
             run ps <- reslice (params st) j;
             Ret (mkF (cn st) (search st) (searchIndex st - len (Value p)) ps j (res st))
         end);
      run s <- slice_from path (searchIndex st);
      Ret (mkF (cn st) s (searchIndex st) (params st) (paramIndex st) (res st), next)
  end.

(** Where the body of the loop goes on: at its start, at the labels Param and
    Any, or behind the loop. *)
Inductive place : Type := AtLoop | AtParam | AtAny | AtEnd.

(** The value of a parameter. *)
Definition param_value (unescape : bool) (s : bytes) : bytes :=
  if unescape then match QueryUnescape s with Some v => v | None => s end else s.

(** [n.findChild('/')] has handlers or an any-child. *)
Definition slash_child (hp : list node) (n : node) : outcome bool :=
  run c <- findChild hp n slash;
  match c with
  | None => Ret false
  | Some c =>
      run cd <- deref (hp !! c);
      Ret (bool_decide (is_Some (handlers cd)) || bool_decide (is_Some (anyChild cd)))
  end.

(** From the start of the loop to the label Param. *)
Definition at_loop (hp : list node) (path : bytes) (st : fstate) : outcome (fstate * place) :=
  run a <- deref (cn st);
  run n <- deref (hp !! a);
  let matched := has_prefix (prefix n) (search st) in
  if bool_decide (nkind n = skind) && negb matched then
    let k := length (search st) in
    let st :=
      if bool_decide (length (prefix n) = S k) && bool_decide (prefix n !! k = Some slash) &&
         bytes_eqb (take k (prefix n)) (search st) &&
         (bool_decide (is_Some (handlers n)) || bool_decide (is_Some (anyChild n)))
      then set_tsr st else st in
    run (st, nk) <- backtrack hp path skind st;
    match cn st, nk with
    | None, _ => Ret (st, AtEnd)
    | Some _, pkind => Ret (st, AtParam)
    | Some _, _ => Ret (st, AtEnd)
    end
  else
    let st :=
      if bool_decide (nkind n = skind)
      then mkF (cn st) (drop (length (prefix n)) (search st)) (searchIndex st + len (prefix n))
             (params st) (paramIndex st) (res st)
      else st in
    match search st with
    | [] =>
        if match handlers n with Some (_ :: _) => true | _ => false end
        then Ret (set_handlers st (handlers n), AtEnd)
        else run b <- slash_child hp n; Ret (if b : bool then set_tsr st else st, AtParam)
    | c :: _ =>
        let st := if bytes_eqb (search st) [slash] && bool_decide (is_Some (handlers n))
                  then set_tsr st else st in
        run child <- findChild hp n c;
        match child with
        | Some child => Ret (set_cn st (Some child), AtLoop)
        | None => Ret (st, AtParam)
        end
    end.

(** From the label Param to the label Any. *)
Definition at_param (hp : list node) (unescape : bool) (st : fstate) : outcome (fstate * place) :=
  run a <- deref (cn st);
  run n <- deref (hp !! a);
  match search st, paramChild n with
  | _ :: _, Some child =>
      let '(seg, rest) := to_slash (search st) in
      run ps <- reslice (params st) (paramIndex st + 1);
      run ps <- set_value ps (paramIndex st) (param_value unescape seg);
      let st := mkF (Some child) rest (searchIndex st + len seg) ps (paramIndex st + 1) (res st) in
      run m <- deref (hp !! child);
      match rest with
      | [] => run b <- slash_child hp m; Ret (if b : bool then set_tsr st else st, AtLoop)
      | _ => Ret (st, AtLoop)
      end
  | _, _ => Ret (st, AtAny)
  end.

(** From the label Any to the end of the loop. *)
Definition at_any (hp : list node) (path : bytes) (unescape : bool) (st : fstate) :
    outcome (fstate * place) :=
  run a <- deref (cn st);
  run n <- deref (hp !! a);
  match anyChild n with
  | Some child =>
      run ps <- reslice (params st) (paramIndex st + 1);
      run m <- deref (hp !! child);
      run ps <- set_value ps (len (pnames m) - 1) (param_value unescape (search st));
      let st := mkF (Some child) [] (searchIndex st + len (search st)) ps (paramIndex st + 1) (res st) in
      Ret (set_handlers st (handlers m), AtEnd)
  | None =>
      run (st, nk) <- backtrack hp path akind st;
      match cn st, nk with
      | None, _ => Ret (st, AtEnd)
      | Some _, pkind => Ret (st, AtParam)
      | Some _, akind => Ret (st, AtAny)
      | Some _, skind => Ret (st, AtEnd)
      end
  end.

Fixpoint find_loop (fuel : nat) (hp : list node) (path : bytes) (unescape : bool) (st : fstate)
    (at_ : place) : outcome fstate :=
  match fuel with
  | O => OutOfFuel
  | S fuel =>
      match at_ with
      | AtEnd => Ret st
      | AtLoop => run (st, p) <- at_loop hp path st; find_loop fuel hp path unescape st p
      | AtParam => run (st, p) <- at_param hp unescape st; find_loop fuel hp path unescape st p
      | AtAny => run (st, p) <- at_any hp path unescape st; find_loop fuel hp path unescape st p
      end
  end.

(** [for i, name := range cn.pnames]. *)
Fixpoint set_keys (ps : Params) (i : Z) (names : list bytes) : outcome Params :=
  match names with
  | [] => Ret ps
  | k :: names => run ps <- set_key ps i k; set_keys ps (i + 1) names
  end.

(** Each node is passed at most once at each of the three places. *)
Definition find (r : router) (path : bytes) (ps : Params) (unescape : bool) :
    outcome (Params * nodeValue) :=
  let hp := nodes r in
  run st <- find_loop (3 * length hp + 1) hp path unescape
              (mkF (Some 0%nat) path 0 ps 0 (mkValue None false [])) AtLoop;
  match cn st with
  | None => Ret (params st, res st)
  | Some a =>
      run n <- deref (hp !! a);
      run ps <- set_keys (params st) 0 (pnames n);
      Ret (ps, mkValue (v_handlers (res st)) (tsr (res st)) (ppath n))
  end.
End Router.

Arguments node : clear implicits.
Arguments router : clear implicits.
