(* ===== verification/RouterFind.v ===== *)
(** * Lookup in the route tree

    The heap of nodes as a tree, the depth-first search that [find] performs with
    parent pointers and an index it moves back and forth, and that the two agree. *)

From S2P Require Import Prelude Bytes Router.

Section Find.
Context {H : Type}.

(** ** The tree in the heap *)

(** What a node says of the route that ends there. *)
Record leaf := mkLeaf { l_handlers : option (list H); l_ppath : bytes; l_pnames : list bytes }.

(** A node at address [addr] with its subtrees. *)
Inductive tree : Type :=
| T (addr : nat) (k : kind) (pre : bytes) (l : leaf) (cs : list tree) (pc ac : option tree).

Definition addr (t : tree) : nat := let 'T a _ _ _ _ _ _ := t in a.
Definition tkind (t : tree) : kind := let 'T _ k _ _ _ _ _ := t in k.
Definition tprefix (t : tree) : bytes := let 'T _ _ p _ _ _ _ := t in p.
Definition tleaf (t : tree) : leaf := let 'T _ _ _ l _ _ _ := t in l.
Definition tlabel (t : tree) : Z := default 0 (head (tprefix t)).

Definition on_child (P : tree -> Prop) (o : option tree) : Prop :=
  match o with Some c => P c | None => True end.

(** Induction with the hypothesis for every subtree. *)
Section TreeInd.
Variable P : tree -> Prop.
Hypothesis IH : forall a k pre l cs pc ac,
  Forall P cs -> on_child P pc -> on_child P ac -> P (T a k pre l cs pc ac).

Fixpoint tree_deep_ind (t : tree) : P t :=
  match t with
  | T a k pre l cs pc ac =>
      IH a k pre l cs pc ac
        ((fix all (cs : list tree) : Forall P cs :=
            match cs with
            | [] => List.Forall_nil P
            | c :: cs => @List.Forall_cons tree P c cs (tree_deep_ind c) (all cs)
            end) cs)
        (match pc with Some c => tree_deep_ind c | None => I end)
        (match ac with Some c => tree_deep_ind c | None => I end)
  end.
End TreeInd.

(** [rep hp p t]: the heap holds [t] at its addresses, under the parent [p]. *)
Fixpoint rep (hp : list (node H)) (p : option nat) (t : tree) : Prop :=
  match t with
  | T a k pre l cs pc ac =>
      (exists lf, hp !! a = Some (mkNode k (default 0 (head pre)) pre p (map addr cs) (l_ppath l)
                          (l_pnames l) (l_handlers l) (addr <$> pc) (addr <$> ac) lf)) /\
      (fix all (cs : list tree) : Prop :=
         match cs with [] => True | c :: cs => rep hp (Some a) c /\ all cs end) cs /\
      on_child (rep hp (Some a)) pc /\ on_child (rep hp (Some a)) ac
  end.

Lemma rep_T hp p a k pre l cs pc ac :
  rep hp p (T a k pre l cs pc ac) <->
  (exists lf, hp !! a = Some (mkNode k (default 0 (head pre)) pre p (map addr cs) (l_ppath l)
                     (l_pnames l) (l_handlers l) (addr <$> pc) (addr <$> ac) lf)) /\
  Forall (rep hp (Some a)) cs /\ on_child (rep hp (Some a)) pc /\ on_child (rep hp (Some a)) ac.
Proof.
  cbn [rep]. assert (E : forall cs, (fix all (cs : list tree) : Prop :=
    match cs with [] => True | c :: cs => rep hp (Some a) c /\ all cs end) cs <-> Forall (rep hp (Some a)) cs).
  { clear. induction cs as [|c cs IH]; [done|]. rewrite Forall_cons, <- IH. done. }
  by rewrite E.
Qed.

(** The addresses of the nodes, and their number. *)
Fixpoint addrs (t : tree) : list nat :=
  match t with
  | T a _ _ _ cs pc ac =>
      a :: concat (map addrs cs) ++ match pc with Some c => addrs c | None => [] end
        ++ match ac with Some c => addrs c | None => [] end
  end.

Fixpoint tsize (t : tree) : nat :=
  match t with
  | T _ _ _ _ cs pc ac =>
      S (sum_list_with tsize cs + match pc with Some c => tsize c | None => 0 end
         + match ac with Some c => tsize c | None => 0 end)
  end.

(** Parameters below a node, itself included: how far [find] reslices. *)
Fixpoint tdepth (t : tree) : nat :=
  match t with
  | T _ k _ _ cs pc ac =>
      (match k with skind => 0 | _ => 1 end +
       foldr Nat.max 0 (map tdepth cs ++ match pc with Some c => [tdepth c] | None => [] end
                                      ++ match ac with Some c => [tdepth c] | None => [] end))%nat
  end.

(** ** Well-formed trees *)

Definition literal (s : bytes) : Prop := Forall (fun c => c <> paramLabel /\ c <> anyLabel) s.

(** What the kind of a node says of it. *)
Definition kind_ok (k : kind) (pre : bytes) (l : leaf) (cs : list tree) (pc ac : option tree) : Prop :=
  match k with
  | skind => pre <> [] /\ literal pre
  | pkind => pre = [paramLabel]
  | akind => pre = [anyLabel] /\ cs = [] /\ pc = None /\ ac = None /\ is_Some (l_handlers l)
  end.

Definition has_handlers (l : leaf) : bool := match l_handlers l with Some (_ :: _) => true | _ => false end.

(** A chain that is registered is not empty and names as many parameters as are
    on the way. *)
Definition leaf_ok (d : nat) (l : leaf) : Prop :=
  is_Some (l_handlers l) -> has_handlers l = true /\ length (l_pnames l) = d.

(** [d] counts the parameters on the way to the node, its own included. *)
Fixpoint wf_tree (d : nat) (t : tree) : Prop :=
  match t with
  | T a k pre l cs pc ac =>
      kind_ok k pre l cs pc ac /\ leaf_ok d l /\
      NoDup (map tlabel cs) /\
      (fix all (cs : list tree) : Prop :=
         match cs with [] => True | c :: cs => (tkind c = skind /\ wf_tree d c) /\ all cs end) cs /\
      on_child (fun c => tkind c = pkind /\ wf_tree (S d) c) pc /\
      on_child (fun c => tkind c = akind /\ wf_tree (S d) c) ac
  end.

Lemma wf_T d a k pre l cs pc ac :
  wf_tree d (T a k pre l cs pc ac) <->
  kind_ok k pre l cs pc ac /\ leaf_ok d l /\
  NoDup (map tlabel cs) /\ Forall (fun c => tkind c = skind /\ wf_tree d c) cs /\
  on_child (fun c => tkind c = pkind /\ wf_tree (S d) c) pc /\
  on_child (fun c => tkind c = akind /\ wf_tree (S d) c) ac.
Proof.
  cbn [wf_tree]. assert (E : forall cs, (fix all (cs : list tree) : Prop :=
    match cs with [] => True | c :: cs => (tkind c = skind /\ wf_tree d c) /\ all cs end) cs
    <-> Forall (fun c => tkind c = skind /\ wf_tree d c) cs).
  { clear. induction cs as [|c cs IH]; [done|]. rewrite Forall_cons, <- IH. done. }
  by rewrite E.
Qed.

(** ** The search *)

Definition strip (pre s : bytes) : option bytes :=
  if has_prefix pre s then Some (drop (length pre) s) else None.

(** The static child the search goes into. *)
Fixpoint child_labelled (cs : list tree) (x : Z) : option tree :=
  match cs with
  | [] => None
  | c :: cs => if tlabel c =? x then Some c else child_labelled cs x
  end.

(** The leaf found for [s] and the values of the parameters met: static children
    first, then the parameter, then the catch-all. *)
Fixpoint dfs (t : tree) (s : bytes) : option (tree * list bytes) :=
  match t with
  | T a k pre l cs pc ac =>
      match (match k with skind => strip pre s | _ => Some s end) with
      | None => None
      | Some s =>
          match s with
          | [] => if has_handlers l then Some (t, []) else
                    match ac with Some c => Some (c, [[]]) | None => None end
          | x :: _ =>
              let static := (fix pick (cs : list tree) : option (tree * list bytes) :=
                               match cs with
                               | [] => None
                               | c :: cs => if tlabel c =? x then dfs c s else pick cs
                               end) cs in
              let param := match pc with
                           | None => None
                           | Some c =>
                               let '(seg, rest) := to_slash s in
                               match dfs c rest with Some (r, vs) => Some (r, seg :: vs) | None => None end
                           end in
              let any := match ac with Some c => Some (c, [s]) | None => None end in
              match static with
              | Some r => Some r
              | None => match param with Some r => Some r | None => any end
              end
          end
      end
  end.


(** The search without its nesting. *)
Definition dfs_below (t : tree) (s : bytes) : option (tree * list bytes) :=
  let 'T a k pre l cs pc ac := t in
  match s with
  | [] => if has_handlers l then Some (t, []) else
            match ac with Some c => Some (c, [[]]) | None => None end
  | x :: _ =>
      match child_labelled cs x ≫= fun c => dfs c s with
      | Some r => Some r
      | None =>
          match pc ≫= fun c =>
                  match dfs c (snd (to_slash s)) with
                  | Some (r, vs) => Some (r, fst (to_slash s) :: vs)
                  | None => None
                  end with
          | Some r => Some r
          | None => match ac with Some c => Some (c, [s]) | None => None end
          end
      end
  end.

Lemma dfs_eq t s :
  dfs t s = match (match tkind t with skind => strip (tprefix t) s | _ => Some s end) with
            | Some s => dfs_below t s
            | None => None
            end.
Proof.
  destruct t as [a k pre l cs pc ac]. cbn [dfs tkind tprefix].
  destruct (match k with skind => strip pre s | _ => Some s end) as [[|x s1]|]; [done| |done].
  cbn [dfs_below].
  assert (E : (fix pick (cs : list tree) : option (tree * list bytes) :=
                 match cs with
                 | [] => None
                 | c :: cs => if tlabel c =? x then dfs c (x :: s1) else pick cs
                 end) cs = child_labelled cs x ≫= fun c => dfs c (x :: s1)).
  { induction cs as [|c cs IH]; [done|]. cbn [child_labelled]. rewrite IH. by destruct (tlabel c =? x). }
  rewrite E. destruct pc as [c|]; [|done]. cbn [mbind option_bind].
  by destruct (to_slash (x :: s1)) as [seg rest].
Qed.

(** ** The parameter slice *)

(** The slice shows the values [vs] and has room for [cap]. *)
Definition holds (cap : nat) (ps : Params) (vs : list bytes) : Prop :=
  length (backing ps) = cap /\ plen ps = length vs /\ map Value (visible ps) = vs.

Lemma visible_at ps vs v k :
  map Value (visible ps) = vs -> vs !! k = Some v ->
  exists p, znth (visible ps) (Z.of_nat k) = Some p /\ Value p = v.
Proof.
  intros <- Hk. unfold znth. rewrite decide_True by lia. rewrite Nat2Z.id.
  apply list_lookup_fmap_Some in Hk as (p & -> & Hp). by exists p.
Qed.

Lemma push_param cap ps vs v :
  holds cap ps vs -> (length vs < cap)%nat ->
  exists ps1 ps2, reslice ps (len vs + 1) = Ret ps1 /\ set_value ps1 (len vs) v = Ret ps2 /\
    holds cap ps2 (vs ++ [v]).
Proof.
  intros (Hb & Hl & Hv) Hroom. exists (mkParams (backing ps) (S (length vs))).
  destruct (lookup_lt_is_Some_2 (backing ps) (length vs)) as [q Hq]; [lia|].
  eexists. split; [|split].
  - unfold reslice, len. rewrite !(proj2 (Z.leb_le _ _)) by lia. simpl. do 2 f_equal. lia.
  - unfold set_value, param_at, znth, len. rewrite decide_True by lia. rewrite Nat2Z.id.
    unfold visible. cbn [plen backing]. rewrite lookup_take_lt by lia. rewrite Hq. done.
  - split; [cbn [backing]; by rewrite length_insert|]. split; [rewrite length_app; simpl; lia|].
    unfold visible. cbn [plen backing]. erewrite take_S_r by (apply list_lookup_insert_eq; lia).
    rewrite take_insert_ge by lia. rewrite map_app. cbn [map Value]. f_equal.
    unfold visible in Hv. by rewrite Hl in Hv.
Qed.

Lemma pop_param cap ps vs v :
  holds cap ps (vs ++ [v]) ->
  exists p ps1, param_at ps (len vs) = Ret p /\ Value p = v /\ reslice ps (len vs) = Ret ps1 /\
    holds cap ps1 vs.
Proof.
  intros (Hb & Hl & Hv).
  destruct (visible_at ps _ v (length vs) Hv) as (p & Hp & Hpv); [by apply list_lookup_middle|].
  assert (Hle : (length vs <= length (backing ps))%nat).
  { pose proof (f_equal length Hv) as E. unfold visible in E. rewrite length_map, length_take, length_app in E.
    simpl in E. lia. }
  exists p, (mkParams (backing ps) (length vs)). split_and!; try done.
  - unfold param_at, len. by rewrite Hp.
  - unfold reslice, len. rewrite !(proj2 (Z.leb_le _ _)) by lia. simpl. by rewrite Nat2Z.id.
  - split; [done|]. split; [done|]. unfold visible in *. cbn [plen backing] in *.
    rewrite Hl, length_app in Hv. simpl in Hv.
    replace (take (length vs) (backing ps)) with (take (length vs) (take (length vs + 1) (backing ps)))
      by (rewrite take_take; f_equal; lia).
    rewrite <- firstn_map, Hv. by rewrite take_app_length.
Qed.

Lemma to_slash_app s : fst (to_slash s) ++ snd (to_slash s) = s.
Proof.
  induction s as [|c s IH]; [done|]. cbn [to_slash]. destruct (c =? slash); [done|].
  destruct (to_slash s) as [a b]. simpl in *. by rewrite IH.
Qed.

(** ** Simulation *)

Section Simulation.
Variables (hp : list (node H)) (path : bytes) (cap : nat).

Abbreviation run_find := (fun fuel st p => find_loop fuel hp path false st p).

(** The search is [s] with [vs] bound so far. *)
Definition searching (s : bytes) (vs : list bytes) (st : @fstate H) : Prop :=
  search st = s /\ (exists d, path = d ++ s /\ searchIndex st = len d) /\ paramIndex st = len vs /\
  holds cap (params st) vs /\ v_handlers (res st) = None /\ fullPath (res st) = [].

(** The search ended at the leaf [t]. *)
Definition found (t : tree) (vs : list bytes) (st : @fstate H) : Prop :=
  cn st = Some (addr t) /\ v_handlers (res st) = l_handlers (tleaf t) /\ holds cap (params st) vs /\
  length (l_pnames (tleaf t)) = length vs /\
  exists n, hp !! addr t = Some n /\ ppath n = l_ppath (tleaf t) /\ pnames n = l_pnames (tleaf t).

(** [t] was entered from the search [s0] with [vs0], and stands at [s] with [vs]. *)
Definition entered (t : tree) (s0 : bytes) (vs0 : list bytes) (s : bytes) (vs : list bytes) : Prop :=
  match tkind t with
  | skind => s0 = s /\ vs0 = vs
  | _ => exists v, s0 = v ++ s /\ vs = vs0 ++ [v]
  end.

(** The same once the prefix of a static [t] has been consumed. *)
Definition inside (t : tree) (s0 : bytes) (vs0 : list bytes) (s : bytes) (vs : list bytes) : Prop :=
  match tkind t with
  | skind => s0 = tprefix t ++ s /\ vs0 = vs
  | _ => exists v, s0 = v ++ s /\ vs = vs0 ++ [v]
  end /\ exists d0, path = d0 ++ s0.

(** Where the search goes on when [t] has failed. *)
Definition resume (t : tree) (p : option nat) : place :=
  match p with None => AtEnd | Some _ => match tkind t with skind => AtParam | _ => AtAny end end.

(** In at most [n] steps from [st] at [pl] the search ends with the answer [r], or
    gives [t] up and is back where [t] was entered. *)
Definition outcome_of (n : nat) (st : @fstate H) (pl : place) (t : tree) (p : option nat) (s0 : bytes)
    (vs0 vs : list bytes) (r : option (tree * list bytes)) : Prop :=
  exists m st', (m <= n)%nat /\
  match r with
  | Some (t', ws) =>
      (forall fuel, run_find (m + fuel)%nat st pl = run_find fuel st' AtEnd) /\ found t' (vs ++ ws) st'
  | None =>
      (forall fuel, run_find (m + fuel)%nat st pl = run_find fuel st' (resume t p)) /\
      cn st' = p /\ searching s0 vs0 st'
  end.

Lemma searching_tsr s vs (st : @fstate H) : searching s vs st -> searching s vs (set_tsr st).
Proof. done. Qed.

Lemma find_label_rep q cs x :
  Forall (rep hp q) cs -> find_label hp (map addr cs) x = Ret (addr <$> child_labelled cs x).
Proof.
  induction 1 as [|c cs Hc _ IH]; [done|]. destruct c as [a k pre l cs' pc ac].
  apply rep_T in Hc as [[lf Hn] _]. cbn [map addr find_label child_labelled]. rewrite Hn.
  cbn [deref outcome_bind label]. unfold tlabel at 1. cbn [tprefix]. rewrite IH.
  by destruct (default 0 (head pre) =? x).
Qed.

Lemma slash_child_rep q cs (n : node H) :
  Forall (rep hp q) cs -> children n = map addr cs -> exists b, slash_child hp n = Ret b.
Proof.
  intros Hr Hc. unfold slash_child, findChild. rewrite Hc, (find_label_rep q cs slash Hr).
  cbn [outcome_bind]. destruct (child_labelled cs slash) as [c|] eqn:E; cbn [fmap option_fmap option_map]; [|eauto].
  assert (Hin : c ∈ cs).
  { clear -E. induction cs as [|c' cs IH]; [done|]. cbn [child_labelled] in E.
    destruct (tlabel c' =? slash); [injection E as <-; set_solver | set_solver]. }
  rewrite Forall_forall in Hr. specialize (Hr c Hin). destruct c as [a k pre l cs' pc ac].
  apply rep_T in Hr as [[lf Hn] _]. cbn [addr]. rewrite Hn. cbn [deref outcome_bind]. eauto.
Qed.

(** Giving up [t] at the end of the loop. *)
Lemma backtrack_any t p (st : @fstate H) s0 vs0 s vs :
  rep hp p t -> tkind t <> akind -> cn st = Some (addr t) -> searching s vs st ->
  inside t s0 vs0 s vs ->
  exists st', backtrack hp path akind st
      = Ret (st', match tkind t with skind => pkind | _ => akind end) /\
    cn st' = p /\ searching s0 vs0 st'.
Proof.
  intros Hr Hk Hcn (Hs & (d & Hd & Hi) & Hj & Hp & Hres & Hfull) [He (d0 & Hd0)].
  destruct t as [a k pre l cs pc ac]. cbn [tkind tprefix addr] in *.
  apply rep_T in Hr as [[lf Hn] _]. unfold backtrack. rewrite Hcn. cbn [deref outcome_bind].
  rewrite Hn. cbn [deref outcome_bind parent nkind prefix set_cn cn search searchIndex params paramIndex res].
  assert (Hslice : slice_from path (len d0) = Ret s0).
  { unfold slice_from. rewrite Hd0, len_app. len_facts. rewrite !(proj2 (Z.leb_le _ _)) by lia.
    cbn [andb]. by rewrite zdrop_app. }
  destruct k; [| |done].
  - destruct He as [-> ->]. cbn [outcome_bind searchIndex]. 
    assert (E : searchIndex st - len pre = len d0).
    { rewrite Hi. rewrite Hd in Hd0. apply (f_equal len) in Hd0. rewrite !len_app in Hd0. lia. }
    rewrite E, Hslice. cbn [outcome_bind]. eexists. split; [done|]. split; [done|].
    split_and!; try done. by exists d0.
  - destruct He as (v & -> & ->). rewrite Hj, len_app, len_cons, len_nil.
    replace (len vs0 + (1 + 0) - 1) with (len vs0) by lia.
    destruct (pop_param cap _ vs0 v Hp) as (q & ps1 & -> & Hq & -> & Hh). cbn [outcome_bind searchIndex].
    assert (E : searchIndex st - len (Value q) = len d0).
    { rewrite Hi, Hq. rewrite Hd in Hd0. apply (f_equal len) in Hd0. rewrite !len_app in Hd0. lia. }
    rewrite E, Hslice. cbn [outcome_bind]. eexists. split; [done|]. split; [done|].
    split_and!; try done. by exists d0.
Qed.

Lemma outcome_step m n (st st1 : @fstate H) pl pl1 t p s0 vs0 vs r :
  (forall fuel, run_find (m + fuel)%nat st pl = run_find fuel st1 pl1) ->
  outcome_of n st1 pl1 t p s0 vs0 vs r -> outcome_of (m + n) st pl t p s0 vs0 vs r.
Proof.
  intros Hs (k & st' & Hk & Hr). exists (m + k)%nat, st'. split; [lia|].
  assert (E : forall fuel, run_find (m + k + fuel)%nat st pl = run_find (k + fuel)%nat st1 pl1).
  { intros fuel. rewrite <- Nat.add_assoc. apply Hs. }
  destruct r as [[t' ws]|]; destruct Hr as [Hr1 Hr2]; (split; [|done]); intros fuel; by rewrite E, Hr1.
Qed.

Lemma outcome_weaken n n' (st : @fstate H) pl t p s0 vs0 vs r :
  (n <= n')%nat -> outcome_of n st pl t p s0 vs0 vs r -> outcome_of n' st pl t p s0 vs0 vs r.
Proof. intros Hn (k & st' & Hk & Hr). exists k, st'. split; [lia|done]. Qed.

(** The premises that [t] stands in the heap with room for its parameters. *)
Definition standing (t : tree) (p : option nat) (vs : list bytes) : Prop :=
  rep hp p t /\ wf_tree (length vs) t /\ tkind t <> akind /\
  (tdepth t + length vs <= cap + match tkind t with skind => 0 | _ => 1 end)%nat.

Definition visited (t : tree) : Prop :=
  forall p (st : @fstate H) s0 vs0 s vs,
    standing t p vs -> cn st = Some (addr t) -> searching s vs st -> entered t s0 vs0 s vs ->
    (exists d0, path = d0 ++ s0) -> outcome_of (3 * tsize t) st AtLoop t p s0 vs0 vs (dfs t s).

Lemma max_list_le (l : list nat) x : x ∈ l -> (x <= foldr Nat.max 0 l)%nat.
Proof. induction l as [|y l IH]; simpl; [set_solver|]. intros [->|Hx]%elem_of_cons; [lia|]. specialize (IH Hx). lia. Qed.

(** The subtrees of a standing tree stand below it. *)
Lemma standing_child a k pre l cs pc ac p vs c :
  standing (T a k pre l cs pc ac) p vs -> c ∈ cs -> standing c (Some a) vs.
Proof.
  intros (Hr & Hw & Hk & Hd) Hc. apply rep_T in Hr as (_ & Hr & _ & _).
  apply wf_T in Hw as (_ & _ & _ & Hw & _). rewrite Forall_forall in Hr, Hw.
  destruct (Hw c Hc) as [Hck Hcw]. split; [by apply Hr|]. split; [done|]. rewrite Hck. split; [done|].
  cbn [tdepth tkind] in Hd.
  assert (Hm : (tdepth c <= foldr Nat.max 0 (map tdepth cs ++ match pc with Some c => [tdepth c] | None => [] end
                 ++ match ac with Some c => [tdepth c] | None => [] end))%nat).
  { apply max_list_le, elem_of_app. left. by apply list_elem_of_fmap_2. }
  destruct k; [lia|lia|done].
Qed.

Lemma standing_param a k pre l cs c ac p vs v :
  standing (T a k pre l cs (Some c) ac) p vs -> standing c (Some a) (vs ++ [v]) /\ (length vs < cap)%nat.
Proof.
  intros (Hr & Hw & Hk & Hd). apply rep_T in Hr as (_ & _ & Hr & _). cbn [on_child] in Hr.
  apply wf_T in Hw as (_ & _ & _ & _ & [Hck Hcw] & _). unfold standing. rewrite Hck, length_app.
  replace (length vs + length [v])%nat with (S (length vs)) by (simpl; lia).
  assert (1 <= tdepth c)%nat by (destruct c; cbn [tkind] in Hck; subst; simpl; lia).
  cbn [tdepth tkind] in Hd.
  assert (Hm : (tdepth c <= foldr Nat.max 0 (map tdepth cs ++ [tdepth c] ++
                 match ac with Some c => [tdepth c] | None => [] end))%nat)
    by (apply max_list_le; set_solver).
  destruct k; [| |done]; split_and!; try done; lia.
Qed.

Lemma standing_any a k pre l cs pc c p vs :
  standing (T a k pre l cs pc (Some c)) p vs ->
  rep hp (Some a) c /\ length (l_pnames (tleaf c)) = S (length vs) /\ (length vs < cap)%nat.
Proof.
  intros (Hr & Hw & Hk & Hd). apply rep_T in Hr as (_ & _ & _ & Hr). cbn [on_child] in Hr.
  apply wf_T in Hw as (_ & _ & _ & _ & _ & [Hck Hcw]). split; [done|].
  destruct c as [a' k' pre' l' cs' pc' ac']. cbn [tkind tleaf] in *. subst k'.
  apply wf_T in Hcw as ((_ & _ & _ & _ & Hh) & Hn & _). split; [by apply Hn|].
  cbn [tdepth tkind] in Hd.
  assert (Hm : (tdepth (T a' akind pre' l' cs' pc' ac') <= foldr Nat.max 0 (map tdepth cs ++
                 match pc with Some c => [tdepth c] | None => [] end ++
                 [tdepth (T a' akind pre' l' cs' pc' ac')]))%nat)
    by (apply max_list_le; set_solver).
  cbn [tdepth] in Hm, Hd. destruct k; [lia|lia|done].
Qed.

(** From the label Any. *)
Lemma any_outcome a k pre l cs pc ac p (st : @fstate H) s0 vs0 s vs :
  standing (T a k pre l cs pc ac) p vs -> cn st = Some a -> searching s vs st ->
  inside (T a k pre l cs pc ac) s0 vs0 s vs ->
  outcome_of 1 st AtAny (T a k pre l cs pc ac) p s0 vs0 vs
    (match ac with Some c => Some (c, [s]) | None => None end).
Proof.
  intros Hst Hcn Hs Hin. pose proof Hst as (Hr & Hw & Hk & Hd).
  pose proof Hr as Hr'. apply rep_T in Hr' as [[lf Hn] _].
  pose proof Hs as (Hsr & (d & Hd' & Hi) & Hj & Hp & Hres & Hfull).
  assert (Hrun : forall fuel, run_find (1 + fuel)%nat st AtAny
    = run (st, p) <- at_any hp path false st; run_find fuel st p) by done.
  unfold at_any in Hrun. rewrite Hcn in Hrun. cbn [deref outcome_bind] in Hrun. rewrite Hn in Hrun.
  cbn [deref outcome_bind anyChild] in Hrun.
  destruct ac as [c|]; cbn [fmap option_fmap option_map] in Hrun.
  - destruct (standing_any _ _ _ _ _ _ _ _ _ Hst) as (Hc & Hpn & Hcap).
    destruct c as [a' k' pre' l' cs' pc' ac']. pose proof Hc as Hc'. apply rep_T in Hc' as [[lf' Hn'] _].
    destruct (push_param cap (params st) vs (param_value false (search st)) Hp Hcap)
      as (ps1 & ps2 & E1 & E2 & Hh).
    cbn [addr] in Hrun. rewrite Hj, E1 in Hrun. cbn [outcome_bind] in Hrun. rewrite Hn' in Hrun.
    cbn [deref outcome_bind pnames handlers] in Hrun. cbn [tleaf] in Hpn.
    replace (len (l_pnames l') - 1) with (len vs) in Hrun by (unfold len; lia).
    rewrite E2 in Hrun. cbn [outcome_bind] in Hrun.
    eexists 1%nat, _. split; [lia|]. split; [exact Hrun|].
    split_and!; try done; cbn [tleaf].
    + cbn [set_handlers params]. cbn [param_value] in Hh. by rewrite Hsr in Hh.
    + rewrite length_app. simpl. lia.
    + eexists. split; [exact Hn'|done].
  - destruct (backtrack_any _ p st s0 vs0 s vs Hr Hk Hcn Hs Hin) as (st' & E & Hcn' & Hs').
    rewrite E in Hrun. cbn [outcome_bind] in Hrun. exists 1%nat, st'. split; [lia|].
    split; [|done]. intros fuel. rewrite Hrun, Hcn'. unfold resume. cbn [tkind].
    destruct p; [|done]. by destruct k.
Qed.

(** The search below the label Param. *)
Definition dfs_wild (pc ac : option tree) (s : bytes) : option (tree * list bytes) :=
  match s with
  | [] => match ac with Some c => Some (c, [s]) | None => None end
  | _ :: _ =>
      match pc ≫= fun c =>
              match dfs c (snd (to_slash s)) with
              | Some (r, vs) => Some (r, fst (to_slash s) :: vs)
              | None => None
              end with
      | Some r => Some r
      | None => match ac with Some c => Some (c, [s]) | None => None end
      end
  end.

Definition osize (o : option tree) : nat := match o with Some c => tsize c | None => 0 end.

(** Entering the parameter child. *)
Lemma enter_param a k pre l cs c ac p (st : @fstate H) s vs :
  standing (T a k pre l cs (Some c) ac) p vs -> cn st = Some a -> searching s vs st -> s <> [] ->
  exists st1, (forall fuel, run_find (1 + fuel)%nat st AtParam = run_find fuel st1 AtLoop) /\
    cn st1 = Some (addr c) /\ searching (snd (to_slash s)) (vs ++ [fst (to_slash s)]) st1.
Proof.
  intros Hst Hcn Hs Hne. pose proof Hst as (Hr & _). apply rep_T in Hr as ([lf Hn] & _ & Hrc & _).
  cbn [on_child] in Hrc. destruct (standing_param _ _ _ _ _ _ _ _ _ (fst (to_slash s)) Hst) as [_ Hcap].
  pose proof Hs as (Hsr & (d & Hd' & Hi) & Hj & Hp & Hres & Hfull).
  destruct (push_param cap (params st) vs (fst (to_slash s)) Hp Hcap) as (ps1 & ps2 & E1 & E2 & Hh).
  assert (Hrun : forall fuel, run_find (1 + fuel)%nat st AtParam
    = run (st, p) <- at_param hp false st; run_find fuel st p) by done.
  unfold at_param in Hrun. rewrite Hcn in Hrun. cbn [deref outcome_bind] in Hrun. rewrite Hn in Hrun.
  cbn [deref outcome_bind paramChild fmap option_fmap option_map] in Hrun. rewrite Hsr in Hrun.
  destruct s as [|x s]; [done|]. pose proof (to_slash_app (x :: s)) as Happ.
  destruct (to_slash (x :: s)) as [seg rest]. cbn [fst snd] in *.
  rewrite Hj, E1 in Hrun. cbn [outcome_bind] in Hrun. unfold param_value in Hrun. rewrite E2 in Hrun.
  cbn [outcome_bind] in Hrun. destruct c as [a' k' pre' l' cs' pc' ac']. cbn [addr] in *.
  apply rep_T in Hrc as ([lf' Hn'] & Hcs & _). rewrite Hn' in Hrun. cbn [deref outcome_bind] in Hrun.
  set (st1 := mkF (Some a') rest (searchIndex st + len seg) ps2 (len vs + 1) (res st)) in Hrun.
  assert (Hs1 : searching rest (vs ++ [seg]) st1).
  { split_and!; try done.
    - exists (d ++ seg). cbn [st1 searchIndex]. rewrite len_app, Hi. split; [|done].
      by rewrite <- app_assoc, Happ.
    - cbn [st1 paramIndex]. by rewrite len_app. }
  destruct rest as [|y rest].
  - edestruct (slash_child_rep (Some a') cs') as [b Eb]; [exact Hcs| |rewrite Eb in Hrun]; [done|].
    cbn [outcome_bind] in Hrun. exists (if b then set_tsr st1 else st1).
    split; [exact Hrun|]. by destruct b.
  - exists st1. split; [exact Hrun|]. done.
Qed.

Lemma param_outcome a k pre l cs pc ac p (st : @fstate H) s0 vs0 s vs :
  on_child visited pc -> standing (T a k pre l cs pc ac) p vs -> cn st = Some a -> searching s vs st ->
  inside (T a k pre l cs pc ac) s0 vs0 s vs ->
  outcome_of (2 + 3 * osize pc) st AtParam (T a k pre l cs pc ac) p s0 vs0 vs (dfs_wild pc ac s).
Proof.
  intros IH Hst Hcn Hs Hin. pose proof Hst as (Hr & Hw & Hk & Hd).
  apply rep_T in Hr as [[lf Hn] _]. pose proof Hs as (Hsr & Hpath & _).
  assert (Hskip : s = [] \/ pc = None ->
    forall fuel, run_find (1 + fuel)%nat st AtParam = run_find fuel st AtAny).
  { intros Hor fuel. cbn [find_loop Nat.add]. unfold at_param. rewrite Hcn. cbn [deref outcome_bind].
    rewrite Hn. cbn [deref outcome_bind paramChild]. rewrite Hsr. destruct Hor as [->| ->]; [done|].
    by destruct s. }
  pose proof (any_outcome a k pre l cs pc ac p st s0 vs0 s vs Hst Hcn Hs Hin) as Hany.
  destruct pc as [c|]; [|destruct s; (eapply (outcome_weaken (1 + 1)); [simpl; lia|]);
    (eapply outcome_step; [apply Hskip; by right | exact Hany])].
  destruct s as [|x s].
  { eapply (outcome_weaken (1 + 1)); [lia|]. eapply outcome_step; [apply Hskip; by left | exact Hany]. }
  destruct (enter_param _ _ _ _ _ _ _ _ st _ _ Hst Hcn Hs) as (st1 & Hrun & Hcn1 & Hs1); [done|].
  destruct (standing_param _ _ _ _ _ _ _ _ _ (fst (to_slash (x :: s))) Hst) as [Hstc _].
  assert (Hck : tkind c = pkind).
  { apply wf_T in Hw as (_ & _ & _ & _ & [Hck _] & _). done. }
  assert (Hvis : outcome_of (3 * tsize c) st1 AtLoop c (Some a) (x :: s) vs
      (vs ++ [fst (to_slash (x :: s))]) (dfs c (snd (to_slash (x :: s))))).
  { apply (IH (Some a) st1 (x :: s) vs); try done.
    - unfold entered. rewrite Hck. exists (fst (to_slash (x :: s))). split; [|done].
      by rewrite to_slash_app.
    - destruct Hpath as (d & Hd' & _). by exists d. }
  cbn [dfs_wild mbind option_bind osize]. destruct Hvis as (m & st2 & Hm & Hv).
  destruct (dfs c (snd (to_slash (x :: s)))) as [[r ws]|].
  - destruct Hv as [Hv Hf]. exists (1 + m)%nat, st2. split; [lia|]. split.
    + intros fuel. rewrite <- Nat.add_assoc, Hrun. apply Hv.
    + by rewrite <- app_assoc in Hf.
  - destruct Hv as (Hv & Hcn2 & Hs2). unfold resume in Hv. rewrite Hck in Hv.
    eapply (outcome_weaken ((1 + m) + 1)); [lia|]. eapply outcome_step.
    + intros fuel. rewrite <- Nat.add_assoc, Hrun. apply Hv.
    + by eapply any_outcome.
Qed.

Lemma child_labelled_in cs x c : child_labelled cs x = Some c -> c ∈ cs /\ tlabel c = x.
Proof.
  induction cs as [|c' cs IH]; [done|]. cbn [child_labelled]. destruct (tlabel c' =? x) eqn:E.
  - intros [= <-]. breflect. split; [set_solver|done].
  - intros Hc. destruct (IH Hc). split; [set_solver|done].
Qed.

Lemma dfs_below_wild a k pre l cs pc ac s :
  dfs_below (T a k pre l cs pc ac) s
  = match s with
    | [] => if has_handlers l then Some (T a k pre l cs pc ac, []) else dfs_wild pc ac []
    | x :: _ => match child_labelled cs x ≫= fun c => dfs c s with
                | Some r => Some r
                | None => dfs_wild pc ac s
                end
    end.
Proof. by destruct s. Qed.

(** The first half of the loop's body at a node whose prefix matched. *)
Definition loop_below (n : node H) (st : @fstate H) : outcome (fstate * place) :=
  match search st with
  | [] =>
      if match handlers n with Some (_ :: _) => true | _ => false end
      then Ret (set_handlers st (handlers n), AtEnd)
      else run b <- slash_child hp n; Ret (if b : bool then set_tsr st else st, AtParam)
  | c :: _ =>
      let st := if bytes_eqb (search st) [slash] && bool_decide (is_Some (handlers n))
                then set_tsr st else st in
      run child <- findChild hp n c;
      match child with
      | Some child => Ret (set_cn st (Some child), AtLoop)
      | None => Ret (st, AtParam)
      end
  end.

Lemma below_outcome a k pre l cs pc ac p (st st1 : @fstate H) s0 vs0 s vs n lf :
  n = mkNode k (default 0 (head pre)) pre p (map addr cs) (l_ppath l) (l_pnames l) (l_handlers l)
        (addr <$> pc) (addr <$> ac) lf -> hp !! a = Some n ->
  Forall visited cs -> on_child visited pc -> standing (T a k pre l cs pc ac) p vs ->
  (forall fuel, run_find (1 + fuel)%nat st AtLoop = run (st, pl) <- loop_below n st1; run_find fuel st pl) ->
  cn st1 = Some a -> searching s vs st1 -> inside (T a k pre l cs pc ac) s0 vs0 s vs ->
  outcome_of (3 * tsize (T a k pre l cs pc ac)) st AtLoop (T a k pre l cs pc ac) p s0 vs0 vs
    (dfs_below (T a k pre l cs pc ac) s).
Proof.
  intros Hn Hna IHc IHp Hst Hrun Hcn Hs Hin. pose proof Hst as (Hr & Hw & Hk & Hd).
  apply rep_T in Hr as (_ & Hrc & _). rewrite dfs_below_wild. pose proof Hs as (Hsr & Hpath & _ & Hh & _).
  unfold loop_below in Hrun. rewrite Hsr in Hrun.
  assert (Hbound : (1 + (2 + 3 * osize pc) <= 3 * tsize (T a k pre l cs pc ac))%nat).
  { cbn [tsize]. unfold osize. lia. }
  destruct s as [|x s].
  - rewrite Hn in Hrun. cbn [handlers] in Hrun. fold (has_handlers l) in Hrun. rewrite <- Hn in Hrun.
    destruct (has_handlers l) eqn:Eh.
    + eexists 1%nat, _. split; [cbn [tsize]; lia|]. split; [exact Hrun|]. rewrite app_nil_r.
      split_and!; try done; cbn [tleaf].
      * apply wf_T in Hw as (_ & Hpn & _). apply Hpn. unfold has_handlers in Eh. by destruct (l_handlers l).
      * exists n. by subst n.
    + edestruct (slash_child_rep (Some a) cs n) as [b Eb]; [exact Hrc|by subst n|]. rewrite Eb in Hrun.
      cbn [outcome_bind] in Hrun. eapply outcome_weaken; [exact Hbound|].
      eapply outcome_step; [exact Hrun|]. by eapply param_outcome; try (by destruct b).
  - set (st2 := if bytes_eqb (x :: s) [slash] && bool_decide (is_Some (handlers n))
                then set_tsr st1 else st1) in Hrun.
    assert (Hs2 : searching (x :: s) vs st2 /\ cn st2 = Some a) by (subst st2; by case_if).
    destruct Hs2 as [Hs2 Hcn2]. unfold findChild in Hrun. replace (children n) with (map addr cs) in Hrun by (by subst n).
    rewrite (find_label_rep (Some a) cs x Hrc) in Hrun. cbn [outcome_bind] in Hrun.
    destruct (child_labelled cs x) as [c|] eqn:Ec; cbn [fmap option_fmap option_map] in Hrun;
      cbn [mbind option_bind].
    2: { eapply outcome_weaken; [exact Hbound|]. eapply outcome_step; [exact Hrun|]. by eapply param_outcome. }
    destruct (child_labelled_in _ _ _ Ec) as [Hcin _].
    assert (Hck : tkind c = skind).
    { apply wf_T in Hw as (_ & _ & _ & Hall & _). rewrite Forall_forall in Hall. by apply Hall. }
    assert (Hvis : outcome_of (3 * tsize c) (set_cn st2 (Some (addr c))) AtLoop c (Some a) (x :: s) vs vs
        (dfs c (x :: s))).
    { rewrite Forall_forall in IHc. apply (IHc c Hcin (Some a)); try done.
      - by eapply standing_child.
      - unfold entered. by rewrite Hck.
      - destruct Hpath as (d & Hd' & _). by exists d. }
    assert (Hsz : (1 + 3 * tsize c + (2 + 3 * osize pc) <= 3 * tsize (T a k pre l cs pc ac))%nat).
    { cbn [tsize]. unfold osize. pose proof (sum_list_with_in c tsize cs Hcin). lia. }
    destruct Hvis as (m & st3 & Hm & Hv). destruct (dfs c (x :: s)) as [[r ws]|].
    + destruct Hv as [Hv Hf]. exists (1 + m)%nat, st3. split; [lia|]. split; [|done].
      intros fuel. rewrite <- Nat.add_assoc, Hrun. apply Hv.
    + destruct Hv as (Hv & Hcn3 & Hs3). unfold resume in Hv. rewrite Hck in Hv.
      eapply (outcome_weaken ((1 + m) + (2 + 3 * osize pc))); [lia|]. eapply outcome_step.
      * intros fuel. rewrite <- Nat.add_assoc, Hrun. apply Hv.
      * by eapply param_outcome.
Qed.

Lemma has_prefix_strip pre s : has_prefix pre s = true -> s = pre ++ drop (length pre) s.
Proof. unfold has_prefix. intros E%bytes_eqb_eq. rewrite <- E at 1. by rewrite take_drop. Qed.

(** [find]'s machine performs the depth-first search. *)
Lemma all_visited t : visited t.
Proof.
  induction t as [a k pre l cs pc ac IHc IHp _] using tree_deep_ind.
  intros p st s0 vs0 s vs Hst Hcn Hs Hent Hpath0. pose proof Hst as (Hr & Hw & Hk & Hd).
  apply rep_T in Hr as ([lf Hn] & _). pose proof Hs as (Hsr & (d & Hd' & Hi) & Hj & Hp & Hres & Hfull).
  cbn [addr] in Hcn. rewrite dfs_eq. cbn [tkind tprefix] in *.
  assert (Hrun : forall fuel, run_find (1 + fuel)%nat st AtLoop
    = run (st, pl) <- at_loop hp path st; run_find fuel st pl) by done.
  unfold at_loop in Hrun. rewrite Hcn in Hrun. cbn [deref outcome_bind] in Hrun. rewrite Hn in Hrun.
  cbn [deref outcome_bind nkind prefix] in Hrun. rewrite Hsr in Hrun. unfold entered in Hent. cbn [tkind] in Hent.
  destruct k; [| |done].
  - destruct Hent as [-> ->]. unfold strip. rewrite bool_decide_true in Hrun by done. cbn [andb] in Hrun.
    destruct (has_prefix pre s) eqn:Ep; cbn [negb] in Hrun.
    + set (st1 := mkF (Some a) (drop (length pre) s) (searchIndex st + len pre) (params st)
                    (paramIndex st) (res st)) in Hrun.
      pose proof (has_prefix_strip _ _ Ep) as Es.
      eapply (below_outcome _ _ _ _ _ _ _ _ st st1 _ _ _ _ _ lf eq_refl Hn IHc IHp Hst); [|done| |].
      * intros fuel. rewrite Hrun. reflexivity.
      * split_and!; try done. exists (d ++ pre). rewrite <- app_assoc, <- Es. split; [done|].
        cbn [st1 searchIndex]. by rewrite Hi, len_app.
      * split; [by cbn [tkind tprefix]|]. by exists d.
    + match type of Hrun with context [backtrack hp path skind ?u] => set (st1 := u) in Hrun end.
      assert (Hs1 : searching s vs st1 /\ cn st1 = Some a) by (subst st1; by case_if).
      destruct Hs1 as [Hs1 Hcn1]. unfold backtrack in Hrun. rewrite Hcn1 in Hrun. cbn [deref outcome_bind] in Hrun.
      rewrite Hn in Hrun. cbn [deref outcome_bind parent nkind set_cn cn] in Hrun.
      exists 1%nat, (set_cn st1 p). split; [cbn [tsize]; lia|]. split; [|done].
      intros fuel. rewrite Hrun. unfold resume. cbn [tkind]. by destruct p.
  - destruct Hent as (v & -> & ->). rewrite bool_decide_false in Hrun by done. cbn [andb] in Hrun.
    eapply (below_outcome _ _ _ _ _ _ _ _ st st _ _ _ _ _ lf eq_refl Hn IHc IHp Hst); [|done..|].
    { intros fuel. rewrite Hrun. unfold loop_below. by rewrite Hsr. }
    split; [|done]. cbn [tkind]. by exists v.
Qed.
End Simulation.

(** ** [find] *)

Lemma length_addrs t : length (addrs t) = tsize t.
Proof.
  induction t as [a k pre l cs pc ac IHc IHp IHa] using tree_deep_ind. cbn [addrs tsize length].
  rewrite !length_app.
  assert (E : length (concat (map addrs cs)) = sum_list_with tsize cs).
  { clear -IHc. induction IHc as [|c cs Hc _ IH]; [done|]. cbn [map concat sum_list_with].
    by rewrite length_app, Hc, IH. }
  rewrite E. destruct pc, ac; cbn [on_child length] in *; rewrite ?IHp, ?IHa; lia.
Qed.

Lemma addrs_lt hp p t : rep hp p t -> Forall (fun a => (a < length hp)%nat) (addrs t).
Proof.
  revert p. induction t as [a k pre l cs pc ac IHc IHp IHa] using tree_deep_ind. intros p Hr.
  apply rep_T in Hr as ([lf Hn] & Hc & Hp & Ha). cbn [addrs]. constructor; [by eapply lookup_lt_Some|].
  apply Forall_app. split.
  - apply Forall_concat, Forall_map. rewrite Forall_forall in *. eauto.
  - apply Forall_app. split; [destruct pc|destruct ac]; cbn [on_child] in *; eauto.
Qed.

Lemma tsize_le hp p t : rep hp p t -> NoDup (addrs t) -> (tsize t <= length hp)%nat.
Proof.
  intros Hr Hnd. rewrite <- length_addrs, <- (length_seq (length hp) 0).
  apply submseteq_length, NoDup_submseteq; [done|]. intros a Ha. apply elem_of_seq.
  pose proof (addrs_lt hp p t Hr) as Hl. rewrite Forall_forall in Hl. specialize (Hl a Ha). simpl in Hl. lia.
Qed.

Lemma set_keys_spec names ps i ws :
  (length (visible ps) = plen ps)%nat -> (i + length names = plen ps)%nat ->
  map Value (visible ps) = ws ->
  exists ps', set_keys ps (Z.of_nat i) names = Ret ps' /\
    visible ps' = take i (visible ps) ++ zip_with mkParam names (drop i ws).
Proof.
  revert ps i. induction names as [|k names IH]; intros ps i Hl Hi Hv; cbn [set_keys].
  - exists ps. split; [done|]. simpl in Hi. cbn [zip_with].
    rewrite take_ge by lia. by rewrite app_nil_r.
  - cbn [length] in Hi. destruct (lookup_lt_is_Some_2 (visible ps) i) as [p Hp]; [lia|].
    unfold set_key, param_at, znth. rewrite decide_True, Nat2Z.id, Hp by lia. cbn [deref outcome_bind].
    set (ps1 := mkParams _ _).
    assert (E1 : visible ps1 = <[i := mkParam k (Value p)]> (visible ps)).
    { unfold visible, ps1. cbn [plen backing]. by rewrite take_insert_lt by lia. }
    replace (Z.of_nat i + 1) with (Z.of_nat (S i)) by lia.
    destruct (IH ps1 (S i)) as (ps' & E & Hvis).
    + rewrite E1, length_insert. exact Hl.
    + cbn [ps1 plen]. lia.
    + rewrite E1. etrans; [apply (list_fmap_insert Value)|].
      change (Value <$> visible ps) with (map Value (visible ps)). rewrite Hv.
      apply list_insert_id. rewrite <- Hv.
      change (map Value (visible ps)) with (Value <$> visible ps). by rewrite list_lookup_fmap, Hp.
    + exists ps'. split; [done|]. rewrite Hvis, E1.
      assert (Hw : ws !! i = Some (Value p)).
      { rewrite <- Hv. change (map Value (visible ps)) with (Value <$> visible ps). by rewrite list_lookup_fmap, Hp. }
      rewrite (drop_S ws _ i Hw). cbn [zip_with]. erewrite take_S_r by (apply list_lookup_insert_eq; lia).
      rewrite take_insert_ge by lia. by rewrite <- app_assoc.
Qed.

Lemma holds_length cap ps vs : holds cap ps vs -> length (visible ps) = plen ps.
Proof. intros (_ & Hl & Hv). rewrite Hl, <- Hv. by rewrite length_map. Qed.

(** The tree of a router. *)
Definition router_rep (r : router H) (t : tree) : Prop :=
  rep (nodes r) None t /\ addr t = 0%nat /\ tkind t = skind /\ NoDup (addrs t) /\ wf_tree 0 t.

Lemma find_dfs r t path cap ps :
  router_rep r t -> (tdepth t <= cap)%nat -> holds cap ps [] ->
  exists ps' b,
    match dfs t path with
    | Some (t', ws) =>
        find r path ps false = Ret (ps', mkValue (l_handlers (tleaf t')) b (l_ppath (tleaf t'))) /\
        visible ps' = zip_with mkParam (l_pnames (tleaf t')) ws
    | None => find r path ps false = Ret (ps', mkValue None b []) /\ visible ps' = []
    end.
Proof.
  intros (Hr & Ha & Hk & Hnd & Hw) Hd Hps. unfold find.
  set (st0 := mkF (Some 0%nat) path 0 ps 0 (mkValue None false [])).
  destruct (all_visited (nodes r) path cap t None st0 path [] path []) as (m & st' & Hm & Hv).
  - split; [done|]. split; [done|]. rewrite Hk. split; [done|]. simpl. lia.
  - by rewrite Ha.
  - split_and!; try done. by exists [].
  - unfold entered. by rewrite Hk.
  - by exists [].
  - pose proof (tsize_le _ _ _ Hr Hnd) as Hsz.
    assert (Hfuel : exists fuel, (3 * length (nodes r) + 1 = m + S fuel)%nat).
    { exists (3 * length (nodes r) - m)%nat. lia. }
    destruct Hfuel as [fuel ->]. destruct (dfs t path) as [[t' ws]|].
    + destruct Hv as [Hv (Hcn & Hh & Hp & Hln & n & Hn & Hpp & Hpn)]. rewrite Hv. cbn [find_loop outcome_bind].
      rewrite Hcn, Hn. cbn [deref outcome_bind]. rewrite Hpn, Hh, Hpp. rewrite app_nil_l in *.
      destruct (set_keys_spec (l_pnames (tleaf t')) (params st') 0 ws) as (ps' & E & Hvis).
      * by eapply holds_length.
      * destruct Hp as (_ & Hl & _). lia.
      * by destruct Hp as (_ & _ & ?).
      * change (Z.of_nat 0) with 0 in E. rewrite E. cbn [outcome_bind]. by exists ps', (tsr (res st')).
    + destruct Hv as (Hv & Hcn & (_ & _ & _ & Hp & Hh & Hf)). rewrite Hv. cbn [resume find_loop outcome_bind].
      rewrite Hcn. exists (params st'), (tsr (res st')). split.
      * destruct (res st') as [h b f]. cbn [v_handlers fullPath tsr] in *. by subst.
      * destruct Hp as (_ & _ & Hp). by apply map_eq_nil in Hp.
Qed.
End Find.
