(* ===== verification/RouterSpec.v ===== *)
(** * What a route tree promises

    Routes as patterns: strings of literal octets, ':' for a parameter and '*'
    for the rest of the path.  The search of the tree finds, of the routes that
    match a path, the first in the order static, parameter, catch-all at the
    first difference. *)

From S2P Require Import Prelude Bytes Router RouterFind.

(** The values a path gives to the wildcards of a pattern, if it matches.  A
    parameter takes what is left of its segment, and needs something to be left
    of the path. *)
Fixpoint pmatch (p s : bytes) : option (list bytes) :=
  match p with
  | [] => match s with [] => Some [] | _ => None end
  | c :: p =>
      if c =? paramLabel then
        match s with
        | [] => None
        | _ => cons (fst (to_slash s)) <$> pmatch p (snd (to_slash s))
        end
      else if c =? anyLabel then match p with [] => Some [s] | _ => None end
      else match s with x :: s => if x =? c then pmatch p s else None | [] => None end
  end.

Definition rank (c : Z) : Z := if c =? paramLabel then 1 else if c =? anyLabel then 2 else 0.

(** [p] is tried before [q]. *)
Fixpoint precedes (p q : bytes) : bool :=
  match p, q with
  | [], _ :: _ => true
  | _, [] => false
  | c :: p, d :: q => if c =? d then precedes p q else rank c <? rank d
  end.

Lemma pmatch_literal pre q s :
  literal pre -> pmatch (pre ++ q) s = match strip pre s with Some s' => pmatch q s' | None => None end.
Proof.
  revert s. induction pre as [|c pre IH]; intros s Hl; [done|].
  apply Forall_cons in Hl as [[H1 H2] Hl]. cbn [app pmatch].
  rewrite !(proj2 (Z.eqb_neq _ _)) by done. destruct s as [|x s]; [done|].
  destruct (x =? c) eqn:E; breflect.
  - subst x. rewrite IH by done. unfold strip, has_prefix. cbn [length take drop].
    destruct (bytes_eqb (take (length pre) s) pre) eqn:E1.
    + apply bytes_eqb_eq in E1. rewrite E1. unfold bytes_eqb. by rewrite bool_decide_true.
    + apply bytes_eqb_neq in E1. unfold bytes_eqb. rewrite bool_decide_false by congruence. done.
  - unfold strip, has_prefix, bytes_eqb. cbn [length take]. rewrite bool_decide_false by congruence. done.
Qed.

Lemma precedes_app pre p q : precedes (pre ++ p) (pre ++ q) = precedes p q.
Proof. induction pre as [|c pre IH]; simpl; [done|]. by rewrite Z.eqb_refl. Qed.

Section Spec.
Context {H : Type}.

Abbreviation route := (bytes * @leaf H)%type.

(** The routes of a subtree: the pattern from the node on, and what is there. *)
Definition under (pre : bytes) (rs : list route) : list route := map (fun r => (pre ++ fst r, snd r)) rs.

Definition self_route (l : @leaf H) : list route :=
  match l_handlers l with Some _ => [([], l)] | None => [] end.

Fixpoint routes (t : tree) : list route :=
  match t with
  | T _ _ pre l cs pc ac =>
      under pre (self_route l ++ concat (map routes cs) ++
        match pc with Some c => routes c | None => [] end ++ match ac with Some c => routes c | None => [] end)
  end.

(** Those behind the node's prefix. *)
Definition routes_below (t : tree) : list route :=
  let 'T _ _ _ l cs pc ac := t in
  self_route l ++ concat (map routes cs) ++
    match pc with Some c => routes c | None => [] end ++ match ac with Some c => routes c | None => [] end.

Lemma routes_eq t : routes t = under (tprefix t) (routes_below t).
Proof. by destruct t. Qed.

(** [r] is the answer for [s] among the routes [rs]. *)
Definition best (rs : list route) (s : bytes) (r : option (@leaf H * list bytes)) : Prop :=
  match r with
  | Some (l, vs) =>
      exists p, (p, l) ∈ rs /\ pmatch p s = Some vs /\
        forall q l', (q, l') ∈ rs -> is_Some (pmatch q s) -> q = p \/ precedes p q = true
  | None => forall q l, (q, l) ∈ rs -> pmatch q s = None
  end.

Definition or_else {A} (a b : option A) : option A := match a with Some _ => a | None => b end.

(** Routes tried before others. *)
Lemma best_app rs1 rs2 s r1 r2 :
  best rs1 s r1 -> best rs2 s r2 ->
  (forall p l q l', (p, l) ∈ rs1 -> (q, l') ∈ rs2 -> is_Some (pmatch p s) -> is_Some (pmatch q s) ->
     precedes p q = true) ->
  best (rs1 ++ rs2) s (or_else r1 r2).
Proof.
  intros H1 H2 Hord. destruct r1 as [[l vs]|]; cbn [or_else].
  - destruct H1 as (p & Hp & Hm & Hbest). exists p. split; [set_solver|]. split; [done|].
    intros q l' [Hq|Hq]%elem_of_app Hqm; [by eapply Hbest|]. right. by eapply Hord.
  - destruct r2 as [[l vs]|].
    + destruct H2 as (p & Hp & Hm & Hbest). exists p. split; [set_solver|]. split; [done|].
      intros q l' [Hq|Hq]%elem_of_app Hqm; [|by eapply Hbest].
      rewrite (H1 q l' Hq) in Hqm. by destruct Hqm.
    + intros q l' [Hq|Hq]%elem_of_app; [by eapply H1 | by eapply H2].
Qed.

Lemma best_nil s : best [] s None.
Proof. intros q l Hq. by apply not_elem_of_nil in Hq. Qed.

Lemma elem_of_under q l pre rs : (q, l) ∈ under pre rs <-> exists q', q = pre ++ q' /\ (q', l) ∈ rs.
Proof.
  unfold under. rewrite list_elem_of_fmap. split.
  - intros ([q' l'] & [= -> ->] & Hin). by exists q'.
  - intros (q' & -> & Hin). by exists (q', l).
Qed.

(** Behind a literal prefix. *)
Lemma best_literal pre rs s r :
  literal pre ->
  match strip pre s with Some s' => best rs s' r | None => r = None end ->
  best (under pre rs) s r.
Proof.
  intros Hl Hb. destruct r as [[l vs]|].
  - destruct (strip pre s) as [s'|] eqn:Es; [|done]. destruct Hb as (p & Hp & Hm & Hbest).
    exists (pre ++ p). split; [apply elem_of_under; eauto|].
    split; [by rewrite pmatch_literal, Es by done|]. intros q l' Hq Hqm.
    apply elem_of_under in Hq as (q' & -> & Hq). rewrite pmatch_literal, Es in Hqm by done.
    destruct (Hbest q' l' Hq Hqm) as [->|Hlt]; [by left|]. right. by rewrite precedes_app.
  - intros q l' Hq. apply elem_of_under in Hq as (q' & -> & Hq). rewrite pmatch_literal by done.
    destruct (strip pre s); [by eapply Hb | done].
Qed.

(** Behind a parameter. *)
Lemma best_param rs x s r :
  best rs (snd (to_slash (x :: s))) r ->
  best (under [paramLabel] rs) (x :: s)
    (match r with Some (l, vs) => Some (l, fst (to_slash (x :: s)) :: vs) | None => None end).
Proof.
  intros Hb. destruct r as [[l vs]|].
  - destruct Hb as (p & Hp & Hm & Hbest). exists (paramLabel :: p). split; [apply elem_of_under; by exists p|].
    cbn [pmatch]. rewrite Z.eqb_refl, Hm. split; [done|]. intros q l' Hq Hqm.
    apply elem_of_under in Hq as (q' & -> & Hq). cbn [app pmatch] in Hqm. rewrite Z.eqb_refl in Hqm.
    destruct (Hbest q' l' Hq) as [->|Hlt]; [by apply fmap_is_Some in Hqm|by left|]. right.
    cbn [app precedes]. by rewrite Z.eqb_refl.
  - intros q l' Hq. apply elem_of_under in Hq as (q' & -> & Hq). cbn [app pmatch].
    rewrite Z.eqb_refl, (Hb q' l' Hq). done.
Qed.

(** ** The search finds the best route *)

Definition answer (r : option (@tree H * list bytes)) : option (@leaf H * list bytes) :=
  match r with Some (t, vs) => Some (tleaf t, vs) | None => None end.

Definition wild (c : Z) : Prop := c = paramLabel \/ c = anyLabel.

Lemma literal_rank c : c <> paramLabel /\ c <> anyLabel -> rank c = 0.
Proof. intros [H1 H2]. unfold rank. by rewrite !(proj2 (Z.eqb_neq _ _)). Qed.

(** The first octet of a route of a well-formed subtree. *)
Lemma route_head d t q l :
  wf_tree d t -> (q, l) ∈ routes t ->
  exists q', q = tlabel t :: q' /\
    match tkind t with
    | skind => rank (tlabel t) = 0
    | pkind => tlabel t = paramLabel
    | akind => tlabel t = anyLabel
    end.
Proof.
  intros Hw Hq. rewrite routes_eq in Hq. apply elem_of_under in Hq as (q' & -> & _).
  destruct t as [a k pre lf cs pc ac]. apply wf_T in Hw as (Hk & _). unfold tlabel. cbn [tprefix tkind] in *.
  destruct k; cbn [kind_ok] in Hk.
  - destruct Hk as [Hne Hl]. destruct pre as [|c pre]; [done|]. exists (pre ++ q'). split; [done|].
    apply Forall_cons in Hl as [Hc _]. by apply literal_rank.
  - subst. by exists q'.
  - destruct Hk as [-> _]. by exists q'.
Qed.

Lemma static_routes d cs q l :
  Forall (fun c => tkind c = skind /\ wf_tree d c) cs -> (q, l) ∈ concat (map routes cs) ->
  exists x q', q = x :: q' /\ rank x = 0 /\ exists c, c ∈ cs /\ tlabel c = x /\ (q, l) ∈ routes c.
Proof.
  intros Hall Hq. apply list_elem_of_In, in_concat in Hq as (rs & Hrs & Hq).
  apply list_elem_of_In in Hrs, Hq.
  apply list_elem_of_fmap in Hrs as (c & -> & Hc). rewrite Forall_forall in Hall.
  destruct (Hall c Hc) as [Hk Hw]. destruct (route_head d c q l Hw Hq) as (q' & -> & Hr).
  rewrite Hk in Hr. exists (tlabel c), q'. split_and!; try done. by exists c.
Qed.

Lemma pmatch_static x q s : rank x = 0 -> is_Some (pmatch (x :: q) s) -> exists s', s = x :: s'.
Proof.
  unfold rank. cbn [pmatch]. destruct (x =? paramLabel); [done|]. destruct (x =? anyLabel); [done|].
  intros _ [vs Hm]. destruct s as [|y s]; [done|]. destruct (y =? x) eqn:E; breflect; [|done]. subst. eauto.
Qed.

(** The static children. *)
Lemma best_static d cs x s :
  Forall (fun c => tkind c = skind /\ wf_tree d c) cs -> NoDup (map tlabel cs) ->
  Forall (fun c => best (routes c) (x :: s) (answer (dfs c (x :: s)))) cs ->
  best (concat (map routes cs)) (x :: s) (answer (child_labelled cs x ≫= fun c => dfs c (x :: s))).
Proof.
  intros Hall Hnd Hb. induction cs as [|c cs IH]; [apply best_nil|].
  cbn [map concat child_labelled] in *. apply Forall_cons in Hall as [[Hk Hw] Hall].
  apply Forall_cons in Hb as [Hbc Hb]. apply NoDup_cons in Hnd as [Hnew Hnd].
  specialize (IH Hall Hnd Hb).
  destruct (tlabel c =? x) eqn:E; breflect.
  - cbn [mbind option_bind]. replace (answer (dfs c (x :: s))) with (or_else (answer (dfs c (x :: s))) None)
      by (by destruct (answer (dfs c (x :: s)))).
    apply best_app; [done| |].
    + intros q l Hq. destruct (static_routes d cs q l Hall Hq) as (y & q' & -> & Hr & c' & Hc' & Hy & _).
      destruct (pmatch (y :: q') (x :: s)) eqn:Em; [|done]. exfalso.
      destruct (pmatch_static y q' (x :: s) Hr) as [s' [= ->]]; [by rewrite Em|].
      apply Hnew. rewrite E, <- Hy. by apply list_elem_of_fmap_2.
    + intros p l q l' _ Hq _ Hqm. exfalso.
      destruct (static_routes d cs q l' Hall Hq) as (y & q' & -> & Hr & c' & Hc' & Hy & _).
      destruct (pmatch_static y q' (x :: s) Hr Hqm) as [s' [= ->]].
      apply Hnew. rewrite E, <- Hy. by apply list_elem_of_fmap_2.
  - change (answer (child_labelled cs x ≫= fun c => dfs c (x :: s)))
      with (or_else None (answer (child_labelled cs x ≫= fun c => dfs c (x :: s)))).
    assert (Hnone : forall q l, (q, l) ∈ routes c -> pmatch q (x :: s) = None).
    { intros q l Hq. destruct (route_head d c q l Hw Hq) as (q' & -> & Hr). rewrite Hk in Hr.
      destruct (pmatch (tlabel c :: q') (x :: s)) eqn:Em; [|done]. exfalso.
      destruct (pmatch_static (tlabel c) q' (x :: s) Hr) as [s' [= ?]]; [by rewrite Em|]. done. }
    apply best_app; [exact Hnone|done|].
    intros p l q l' Hp _ [vs Hm] _. by rewrite (Hnone p l Hp) in Hm.
Qed.

Definition opt_routes (o : option (@tree H)) : list route := match o with Some c => routes c | None => [] end.

(** The catch-all. *)
Lemma best_any d ac s :
  on_child (fun c => tkind c = akind /\ wf_tree d c) ac ->
  best (opt_routes ac) s (answer (match ac with Some c => Some (c, [s]) | None => None end)) /\
  (forall q l, (q, l) ∈ opt_routes ac -> q = [anyLabel]).
Proof.
  destruct ac as [c|]; cbn [on_child opt_routes answer].
  - intros [Hk Hw]. destruct c as [a k pre l cs pc ac]. cbn [tkind] in Hk. subst k.
    apply wf_T in Hw as ((-> & -> & -> & -> & [h Hh]) & _). cbn [routes tleaf map concat]. unfold self_route.
    rewrite Hh. cbn [app under map fst snd]. split.
    + exists [anyLabel]. split; [set_solver|]. split; [done|]. intros q l' Hq _. left. set_solver.
    + intros q l' Hq. set_solver.
  - intros _. split; [apply best_nil|]. intros q l Hq. by apply not_elem_of_nil in Hq.
Qed.

Lemma param_routes d pc q l :
  on_child (fun c => tkind c = pkind /\ wf_tree d c) pc -> (q, l) ∈ opt_routes pc ->
  exists q', q = paramLabel :: q'.
Proof.
  destruct pc as [c|]; cbn [on_child opt_routes]; [|intros _ Hq; by apply not_elem_of_nil in Hq].
  intros [Hk Hw] Hq. destruct (route_head d c q l Hw Hq) as (q' & -> & Hr). rewrite Hk in Hr.
  rewrite Hr. eauto.
Qed.

Lemma answer_or a b : answer (or_else a b) = or_else (answer a) (answer b).
Proof. by destruct a as [[]|]. Qed.

(** Parameter and catch-all. *)
Lemma best_wild d pc ac s :
  on_child (fun c => tkind c = pkind /\ wf_tree d c) pc ->
  on_child (fun c => tkind c = akind /\ wf_tree d c) ac ->
  on_child (fun c => forall s, best (routes_below c) s (answer (dfs_below c s))) pc ->
  best (opt_routes pc ++ opt_routes ac) s (answer (dfs_wild pc ac s)).
Proof.
  intros Hp Ha IH. destruct (best_any d ac s Ha) as [Hba Hqa].
  set (any := match ac with Some c => Some (c, [s]) | None => None end) in *.
  set (param := match s with [] => None | _ => pc ≫= fun c => match dfs c (snd (to_slash s)) with
     Some (r, vs) => Some (r, fst (to_slash s) :: vs) | None => None end end).
  assert (E : dfs_wild pc ac s = or_else param any) by (subst param any; destruct s; [done|]; cbn [dfs_wild]; by destruct (pc ≫= _)).
  rewrite E, answer_or. apply best_app; [|done|].
  - subst param. destruct s as [|x s].
    { intros q l Hq. destruct (param_routes d pc q l Hp Hq) as [q' ->]. done. }
    destruct pc as [c|]; [|apply best_nil]. cbn [opt_routes mbind option_bind on_child] in *.
    destruct Hp as [Hk Hw]. rewrite routes_eq.
    assert (Hpre : tprefix c = [paramLabel]).
    { destruct c as [a k pre l cs pc' ac']. cbn [tkind tprefix] in *. subst k.
      by apply wf_T in Hw as (Hw & _). }
    rewrite Hpre, dfs_eq, Hk. specialize (IH (snd (to_slash (x :: s)))).
    apply best_param in IH. cbv beta iota. by destruct (dfs_below c (snd (to_slash (x :: s)))) as [[r vs]|].
  - intros p l q l' Hp' Hq' _ _. destruct (param_routes d pc p l Hp Hp') as [p' ->].
    by rewrite (Hqa q l' Hq').
Qed.

Lemma dfs_below_best t d s :
  wf_tree d t -> tkind t <> akind -> best (routes_below t) s (answer (dfs_below t s)).
Proof.
  revert d s. induction t as [a k pre l cs pc ac IHc IHp _] using tree_deep_ind. intros d s Hw Hk.
  pose proof Hw as Hw'. apply wf_T in Hw' as (_ & Hl & Hnd & Hc & Hp & Ha).
  rewrite dfs_below_wild. cbn [routes_below]. fold (opt_routes pc) (opt_routes ac).
  assert (Hwild : best (opt_routes pc ++ opt_routes ac) s (answer (dfs_wild pc ac s))).
  { apply (best_wild (S d)); try done. destruct pc as [c|]; [|done]. cbn [on_child] in *.
    destruct Hp as [Hck Hcw]. intros s'. apply (IHp (S d)); [done|]. by rewrite Hck. }
  assert (Hwl : forall q l', (q, l') ∈ opt_routes pc ++ opt_routes ac -> exists y q', q = y :: q' /\ 0 < rank y).
  { intros q l' [Hq|Hq]%elem_of_app.
    - destruct (param_routes _ pc q l' Hp Hq) as [q' ->]. exists paramLabel, q'. done.
    - destruct (best_any _ ac s Ha) as [_ Hqa]. rewrite (Hqa q l' Hq). exists anyLabel, []. done. }
  destruct s as [|x s].
  - set (self := if has_handlers l then Some (T a k pre l cs pc ac, @nil bytes) else None).
    replace (if has_handlers l then Some (T a k pre l cs pc ac, []) else dfs_wild pc ac [])
      with (or_else self (or_else None (dfs_wild pc ac []))) by (subst self; by destruct (has_handlers l)).
    rewrite !answer_or. apply best_app.
    + subst self. unfold self_route. unfold leaf_ok in Hl. destruct (l_handlers l) as [h|] eqn:Eh.
      * destruct Hl as [-> _]; [done|]. exists []. split; [set_solver|]. split; [done|]. intros q l' Hq _. left. set_solver.
      * unfold has_handlers. rewrite Eh. apply best_nil.
    + apply best_app; [|done|].
      * intros q l' Hq. destruct (static_routes d cs q l' Hc Hq) as (y & q' & -> & Hr & _).
        destruct (pmatch (y :: q') []) eqn:Em; [|done]. by destruct (pmatch_static y q' [] Hr ltac:(by rewrite Em)).
      * intros p l' q l'' Hp' _ Hpm. destruct (static_routes d cs p l' Hc Hp') as (y & q' & -> & Hr & _).
        by destruct (pmatch_static y q' [] Hr Hpm).
    + intros p l' q l'' Hp' Hq _ _. assert (p = []) as ->.
      { unfold self_route in Hp'. destruct (l_handlers l); set_solver. }
      assert (exists y q', q = y :: q') as (y & q' & ->); [|done].
      apply elem_of_app in Hq as [Hq|Hq].
      * destruct (static_routes d cs q l'' Hc Hq) as (y & q' & -> & _). eauto.
      * destruct (Hwl q l'' Hq) as (y & q' & -> & _). eauto.
  - set (static := child_labelled cs x ≫= fun c => dfs c (x :: s)).
    replace (match static with Some r => Some r | None => dfs_wild pc ac (x :: s) end)
      with (or_else None (or_else static (dfs_wild pc ac (x :: s)))) by (by destruct static).
    rewrite !answer_or. apply best_app.
    + intros q l' Hq. unfold self_route in Hq. destruct (l_handlers l); [|by apply not_elem_of_nil in Hq].
      assert (q = []) as -> by set_solver. done.
    + apply best_app; [|done|].
      * apply (best_static d); try done. rewrite Forall_forall in *. intros c Hcin.
        destruct (Hc c Hcin) as [Hck Hcw]. rewrite dfs_eq, Hck, routes_eq.
        assert (Hlit : literal (tprefix c)).
        { destruct c as [a' k' pre' l' cs' pc' ac']. cbn [tkind tprefix] in *. subst k'.
          apply wf_T in Hcw as ([_ Hlit] & _). done. }
        apply best_literal; [done|]. destruct (strip (tprefix c) (x :: s)) as [s'|]; [|done].
        apply (IHc c Hcin d); [done|]. by rewrite Hck.
      * intros p l' q l'' Hp' Hq _ _. destruct (static_routes d cs p l' Hc Hp') as (y & q' & -> & Hr & _).
        destruct (Hwl q l'' Hq) as (z & q'' & -> & Hz). cbn [precedes].
        destruct (y =? z) eqn:E; breflect; [subst; lia|]. apply Z.ltb_lt. lia.
    + intros p l' q l'' Hp' _ Hpm _. unfold self_route in Hp'.
      destruct (l_handlers l); [|by apply not_elem_of_nil in Hp'].
      assert (p = []) as -> by set_solver. by destruct Hpm.
Qed.

(** From the root. *)
Lemma dfs_best t d s :
  wf_tree d t -> tkind t = skind -> best (routes t) s (answer (dfs t s)).
Proof.
  intros Hw Hk. rewrite dfs_eq, Hk, routes_eq.
  assert (Hlit : literal (tprefix t)).
  { destruct t as [a k pre l cs pc ac]. cbn [tkind tprefix] in *. subst k. by apply wf_T in Hw as ([_ Hlit] & _). }
  apply best_literal; [done|]. destruct (strip (tprefix t) s) as [s'|]; [|done].
  apply (dfs_below_best t d); [done|]. by rewrite Hk.
Qed.
End Spec.
