(* ===== verification/RouterInsert.v ===== *)
(** * Registration in the route tree

    [insert] and [addRoute] on the heap of nodes, refined to adding a pattern to
    the set of routes; with the lookup this gives the router's promise. *)

From S2P Require Import Prelude Bytes Router RouterFind RouterSpec.

Section Insert.
Context {H : Type}.

Abbreviation tree := (@tree H).
Abbreviation leaf := (@leaf H).

(** ** Subtrees *)

Definition opt_to_list {A} (o : option A) : list A := match o with Some x => [x] | None => [] end.

Definition subs (t : tree) : list tree :=
  let 'T _ _ _ _ cs pc ac := t in cs ++ opt_to_list pc ++ opt_to_list ac.

Lemma addrs_subs t : addrs t = addr t :: concat (map addrs (subs t)).
Proof.
  destruct t as [a k pre l cs pc ac]. cbn [addrs addr subs]. rewrite !map_app, !concat_app.
  destruct pc, ac; simpl; by rewrite ?app_nil_r.
Qed.

Lemma routes_subs t :
  routes t = under (tprefix t) (self_route (tleaf t) ++ concat (map routes (subs t))).
Proof.
  destruct t as [a k pre l cs pc ac]. cbn [routes tprefix tleaf subs]. rewrite !map_app, !concat_app.
  destruct pc, ac; simpl; by rewrite ?app_nil_r.
Qed.

Lemma rep_subs hp p t :
  rep hp p t <->
  (let 'T a k pre l cs pc ac := t in
   exists lf, hp !! a = Some (mkNode k (default 0 (head pre)) pre p (map addr cs) (l_ppath l)
                  (l_pnames l) (l_handlers l) (addr <$> pc) (addr <$> ac) lf)) /\
  Forall (rep hp (Some (addr t))) (subs t).
Proof.
  destruct t as [a k pre l cs pc ac]. rewrite rep_T. cbn [subs addr]. rewrite !Forall_app.
  destruct pc, ac; cbn [on_child opt_to_list]; rewrite ?Forall_singleton, ?Forall_nil; tauto.
Qed.

Definition own (k : kind) : nat := match k with skind => 0 | _ => 1 end.

Lemma tdepth_subs t : tdepth t = (own (tkind t) + foldr Nat.max 0 (map tdepth (subs t)))%nat.
Proof.
  destruct t as [a k pre l cs pc ac]. cbn [tdepth subs tkind own]. rewrite !map_app. by destruct pc, ac.
Qed.

Lemma max_le_iff l n : (foldr Nat.max 0 l <= n)%nat <-> Forall (fun x => x <= n)%nat l.
Proof.
  induction l as [|x l IH]; cbn [foldr]; [split; [constructor|lia]|]. rewrite Forall_cons, <- IH. lia.
Qed.

(** The bound of a node in terms of those of its subtrees. *)
Lemma tdepth_le t n :
  (tdepth t <= n)%nat <-> (own (tkind t) <= n)%nat /\ Forall (fun c => own (tkind t) + tdepth c <= n)%nat (subs t).
Proof.
  rewrite tdepth_subs. split.
  - intros Hn. split; [lia|]. pose proof (proj1 (max_le_iff (map tdepth (subs t)) (n - own (tkind t))) ltac:(lia)) as Hm.
    apply Forall_map in Hm. eapply Forall_impl; [exact Hm|]. simpl. intros c Hc. lia.
  - intros [Ho Hs]. pose proof (proj2 (max_le_iff (map tdepth (subs t)) (n - own (tkind t)))) as Hm.
    enough (foldr Nat.max 0 (map tdepth (subs t)) <= n - own (tkind t))%nat by lia. apply Hm, Forall_map.
    eapply Forall_impl; [exact Hs|]. simpl. intros c Hc. lia.
Qed.

(** The patterns of all nodes, with handlers or not. *)
Fixpoint tnodes (t : tree) : list bytes :=
  match t with
  | T _ _ pre _ cs pc ac =>
      map (app pre) ([] :: concat (map tnodes cs) ++ match pc with Some c => tnodes c | None => [] end
                       ++ match ac with Some c => tnodes c | None => [] end)
  end.

Lemma tnodes_subs t : tnodes t = map (app (tprefix t)) ([] :: concat (map tnodes (subs t))).
Proof.
  destruct t as [a k pre l cs pc ac]. cbn [tnodes tprefix subs]. rewrite !map_app, !concat_app.
  destruct pc, ac; simpl; by rewrite ?app_nil_r.
Qed.

Lemma elem_of_concat_map {A B} (f : A -> list B) l x : x ∈ concat (map f l) <-> exists y, y ∈ l /\ x ∈ f y.
Proof.
  rewrite list_elem_of_In, in_concat. split.
  - intros (ys & Hys & Hx). apply list_elem_of_In, list_elem_of_fmap in Hys as (y & -> & Hy).
    exists y. split; [done|]. by apply list_elem_of_In.
  - intros (y & Hy & Hx). exists (f y). rewrite <- !list_elem_of_In. split; [by apply list_elem_of_fmap_2|done].
Qed.

Lemma tnodes_elem (t : tree) q :
  q ∈ tnodes t <-> q = tprefix t \/ exists c q', c ∈ subs t /\ q' ∈ tnodes c /\ q = tprefix t ++ q'.
Proof.
  rewrite tnodes_subs, list_elem_of_fmap. setoid_rewrite elem_of_cons. setoid_rewrite elem_of_concat_map.
  split.
  - intros (q' & -> & [->|(c & Hc & Hq')]); [left; apply app_nil_r|right; eauto].
  - intros [->|(c & q' & Hc & Hq' & ->)]; [exists []; rewrite app_nil_r; auto|].
    exists q'. eauto.
Qed.

(** A tree only depends on its own nodes. *)
Lemma rep_frame hp hp' p (t : tree) :
  rep hp p t -> (forall x, x ∈ addrs t -> hp' !! x = hp !! x) -> rep hp' p t.
Proof.
  revert p. induction t as [a k pre l cs pc ac IHc IHp IHa] using tree_deep_ind. intros p Hr Hf.
  apply rep_T in Hr as (Hn & Hc & Hp & Ha). apply rep_T. cbn [addrs] in Hf.
  split; [rewrite Hf by set_solver; done|]. split_and!.
  - rewrite Forall_forall in *. intros c Hin. apply IHc; auto. intros x Hx. apply Hf.
    apply elem_of_cons. right. apply elem_of_app. left. apply elem_of_concat_map. eauto.
  - destruct pc as [c|]; [|done]. cbn [on_child] in *. apply IHp; auto. intros x Hx. apply Hf. set_solver.
  - destruct ac as [c|]; [|done]. cbn [on_child] in *. apply IHa; auto. intros x Hx. apply Hf. set_solver.
Qed.

(** Moving a tree under another parent. *)
Lemma rep_reparent hp hp' p q (t : tree) :
  rep hp p t -> hp' !! addr t = set_parent q <$> hp !! addr t ->
  (forall x, x ∈ concat (map addrs (subs t)) -> hp' !! x = hp !! x) -> rep hp' (Some q) t.
Proof.
  intros Hr Ha Hf. apply rep_subs in Hr as [Hn Hs]. apply rep_subs. split.
  - destruct t as [a k pre l cs pc ac]. destruct Hn as [lf Hn]. cbn [addr] in Ha. rewrite Hn in Ha.
    exists lf. by rewrite Ha.
  - rewrite Forall_forall in *. intros c Hc. eapply rep_frame; [by apply Hs|]. intros x Hx. apply Hf.
    apply elem_of_concat_map. eauto.
Qed.

Lemma adopt_length q l (hp : list (node H)) : length (adopt q l hp) = length hp.
Proof.
  revert hp. induction l as [|c l IH]; intros hp; [done|]. unfold adopt in *. cbn [foldl].
  rewrite IH. apply length_alter.
Qed.

Lemma adopt_lookup q l (hp : list (node H)) x :
  adopt q l hp !! x = if decide (x ∈ l) then set_parent q <$> hp !! x else hp !! x.
Proof.
  revert hp. induction l as [|c l IH]; intros hp; [done|]. unfold adopt in *. cbn [foldl]. rewrite IH.
  destruct (decide (x = c)) as [->|Hne].
  - rewrite (decide_True (P := c ∈ c :: l)) by set_solver. rewrite list_lookup_alter_eq.
    case_decide; [|done]. by destruct (hp !! c).
  - rewrite list_lookup_alter_ne by done. repeat case_decide; try done; set_solver.
Qed.

(** ** The child a search goes to *)

Definition child_at (t : tree) (x : Z) : option tree :=
  let 'T _ _ _ _ cs pc ac := t in
  match child_labelled cs x with
  | Some c => Some c
  | None => if x =? paramLabel then pc else if x =? anyLabel then ac else None
  end.

Lemma findChildWithLabel_rep hp p t n x :
  rep hp p t -> hp !! addr t = Some n -> findChildWithLabel hp n x = Ret (addr <$> child_at t x).
Proof.
  intros Hr Hn. destruct t as [a k pre l cs pc ac]. apply rep_T in Hr as ([lf E] & Hc & _).
  cbn [addr] in Hn. rewrite E in Hn. injection Hn as <-. unfold findChildWithLabel. cbn [children paramChild anyChild].
  rewrite (find_label_rep hp (Some a) cs x Hc). cbn [outcome_bind child_at].
  destruct (child_labelled cs x); [done|]. cbn [fmap option_fmap option_map].
  by destruct (x =? paramLabel), (x =? anyLabel).
Qed.

Lemma map_replace {A B} (f : A -> B) l c r c' : f c' = f c -> map f (l ++ c' :: r) = map f (l ++ c :: r).
Proof. intros E. rewrite !map_app. simpl. by rewrite E. Qed.

(** The child among the subtrees, and what it takes to replace it. *)
Lemma child_slot a k pre l cs pc ac x c :
  child_at (T a k pre l cs pc ac) x = Some c ->
  exists L R, subs (T a k pre l cs pc ac) = L ++ c :: R /\
  forall c', addr c' = addr c -> tkind c' = tkind c -> tlabel c' = tlabel c ->
  exists cs' pc' ac', subs (T a k pre l cs' pc' ac') = L ++ c' :: R /\
    map addr cs' = map addr cs /\ addr <$> pc' = addr <$> pc /\ addr <$> ac' = addr <$> ac /\
    forall d, wf_tree d (T a k pre l cs pc ac) -> wf_tree (d + own (tkind c)) c' ->
      wf_tree d (T a k pre l cs' pc' ac').
Proof.
  cbn [child_at subs]. destruct (child_labelled cs x) as [c0|] eqn:Ec.
  - intros [= ->]. destruct (child_labelled_in _ _ _ Ec) as [Hin _].
    apply list_elem_of_split in Hin as (L & R & ->).
    exists L, (R ++ opt_to_list pc ++ opt_to_list ac). split; [by rewrite <- app_assoc|].
    intros c' Ha Hk Hl. exists (L ++ c' :: R), pc, ac. split; [by rewrite <- app_assoc|].
    split; [by apply map_replace|]. split; [done|]. split; [done|]. intros d Hw Hc'.
    apply wf_T in Hw as (H1 & H2 & H3 & H4 & H5 & H6). apply wf_T. split_and!; try done.
    + destruct k; [done|done|]. destruct H1 as (_ & E & _). by destruct L.
    + by rewrite (map_replace tlabel L c R c' Hl).
    + rewrite Forall_app, Forall_cons in *. destruct H4 as (HL & [Hck _] & HR). split_and!; try done; [by rewrite Hk|].
      rewrite Hck in Hc'. cbn [own] in Hc'. by rewrite Nat.add_0_r in Hc'.
  - destruct (x =? paramLabel) eqn:Ep.
    + intros ->. exists cs, (opt_to_list ac). split; [done|]. intros c' Ha Hk Hl.
      exists cs, (Some c'), ac. split; [done|]. split; [done|]. split; [cbn; by rewrite Ha|]. split; [done|].
      intros d Hw Hc'. apply wf_T in Hw as (H1 & H2 & H3 & H4 & [H5 H5'] & H6). apply wf_T. split_and!; try done.
      * destruct k; [done|done|]. by destruct H1 as (_ & _ & E & _).
      * cbn [on_child]. rewrite H5 in Hc'. cbn [own] in Hc'. rewrite Nat.add_1_r in Hc'. by rewrite Hk.
    + destruct (x =? anyLabel) eqn:Ea; [|done]. intros ->. exists (cs ++ opt_to_list pc), [].
      split; [by rewrite <- app_assoc|]. intros c' Ha Hk Hl. exists cs, pc, (Some c').
      split; [by rewrite <- app_assoc|]. split; [done|]. split; [done|]. split; [cbn; by rewrite Ha|].
      intros d Hw Hc'. apply wf_T in Hw as (H1 & H2 & H3 & H4 & H5 & [H6 H6']). apply wf_T. split_and!; try done.
      * destruct k; [done|done|]. by destruct H1 as (_ & _ & _ & E & _).
      * cbn [on_child]. rewrite H6 in Hc'. cbn [own] in Hc'. rewrite Nat.add_1_r in Hc'. by rewrite Hk.
Qed.

(** ** What insert does to a subtree *)

(** Two strings whose first octets are not the same. *)
Definition apart (a b : bytes) : Prop :=
  match a with [] => True | x :: _ => match b with [] => True | y :: _ => x <> y end end.

Lemma lcp_spec a b :
  exists c a' b', a = c ++ a' /\ b = c ++ b' /\ lcp a b = length c /\ apart a' b'.
Proof.
  revert b. induction a as [|x a IH]; intros [|y b]; cbn [lcp].
  - by exists [], [], [].
  - by exists [], [], (y :: b).
  - by exists [], (x :: a), [].
  - destruct (x =? y) eqn:E; breflect.
    + subst y. destruct (IH b) as (c & a' & b' & -> & -> & -> & Hd). by exists (x :: c), a', b'.
    + by exists [], (x :: a), (y :: b).
Qed.

(** The wildcards of a pattern. *)
Definition wilds (s : bytes) : nat := length (filter (fun c => c = paramLabel \/ c = anyLabel) s).

Lemma wilds_app s s' : wilds (s ++ s') = (wilds s + wilds s')%nat.
Proof. unfold wilds. by rewrite filter_app, length_app. Qed.

Lemma wilds_literal s : literal s -> wilds s = 0%nat.
Proof.
  intros Hl. unfold wilds. induction Hl as [|c s [H1 H2] _ IH]; [done|].
  rewrite filter_cons_False by tauto. done.
Qed.

(** What may be inserted under a node with no child for it. *)
Definition new_ok (k : kind) (s : bytes) : Prop :=
  match k with
  | skind => s <> [] /\ literal s
  | pkind => s = [paramLabel]
  | akind => s = [anyLabel]
  end.

(** The search of insert with this kind is one the code makes: it runs along
    nodes that are there, and branches off as [new_ok] says, or inside a static
    prefix. *)
Inductive fits (k : kind) : tree -> bytes -> Prop :=
| fits_split a pre l cs pc ac c s' pre' :
    k = skind -> literal (c ++ s') -> c <> [] -> pre = c ++ pre' -> pre' <> [] ->
    apart s' pre' -> fits k (T a skind pre l cs pc ac) (c ++ s')
| fits_here t : fits k t (tprefix t)
| fits_new t x s :
    child_at t x = None -> new_ok k (x :: s) -> tkind t <> akind -> fits k t (tprefix t ++ x :: s)
| fits_down t c x s :
    child_at t x = Some c -> fits k c (x :: s) -> fits k t (tprefix t ++ x :: s).

Definition new_route (s : bytes) (h : option (list H)) (pp : bytes) (pn : list bytes) : list (bytes * leaf) :=
  self_route (mkLeaf h pp pn) ≫= fun r => [(s, snd r)].

(** [t'] is [t] with the pattern [s] added. *)
Record inserted (hp hp' : list (node H)) (p : option nat) (d : nat) (t t' : tree) (s : bytes)
    (new : list (bytes * leaf)) : Prop := {
  ins_rep : rep hp' p t';
  ins_addr : addr t' = addr t;
  ins_kind : tkind t' = tkind t;
  ins_label : tlabel t' = tlabel t;
  ins_wf : wf_tree d t';
  ins_nodup : NoDup (addrs t');
  ins_grow : (length hp <= length hp')%nat;
  ins_addrs : forall x, x ∈ addrs t' -> x ∈ addrs t \/ (length hp <= x)%nat;
  ins_frame : forall x, x ∉ addrs t -> (x < length hp)%nat -> hp' !! x = hp !! x;
  ins_routes : routes t' ≡ₚ new ++ routes t;
  ins_node : s ∈ tnodes t';
  ins_nodes : forall q, q ∈ tnodes t -> q ∈ tnodes t';
  ins_depth : (tdepth t' <= Nat.max (tdepth t) (wilds s))%nat
}.

(** The handlers to be inserted suit the place. *)
Definition handlers_ok (d : nat) (t : tree) (s : bytes) (h : option (list H)) (pn : list bytes) : Prop :=
  is_Some h -> h <> Some [] /\ (length pn + wilds (tprefix t) = d + wilds s)%nat.

Lemma under_app pre rs1 rs2 : under pre (rs1 ++ rs2) = under pre rs1 ++ @under H pre rs2.
Proof. apply map_app. Qed.

Lemma under_under pre pre' rs : under pre (under pre' rs) = @under H (pre ++ pre') rs.
Proof. unfold under. rewrite map_map. apply map_ext. intros r. simpl. by rewrite app_assoc. Qed.

Lemma under_nil rs : @under H [] rs = rs.
Proof. unfold under. rewrite <- (map_id rs) at 2. apply map_ext. by intros []. Qed.

Lemma under_new pre s h pp pn : under pre (new_route s h pp pn) = new_route (pre ++ s) h pp pn.
Proof. unfold new_route, self_route. by destruct h. Qed.

Lemma kind_prefix d (t : tree) : wf_tree d t -> tprefix t <> [] /\ wilds (tprefix t) = own (tkind t).
Proof.
  destruct t as [a k pre l cs pc ac]. intros Hw. apply wf_T in Hw as (Hk & _). cbn [tprefix tkind].
  destruct k; cbn [kind_ok] in Hk.
  - destruct Hk as [Hne Hl]. split; [done|]. by apply wilds_literal.
  - by subst.
  - by destruct Hk as [-> _].
Qed.

Lemma wf_child a k pre l cs pc ac d x c :
  wf_tree d (T a k pre l cs pc ac) -> child_at (T a k pre l cs pc ac) x = Some c ->
  wf_tree (d + own (tkind c)) c /\ tlabel c = x.
Proof.
  intros Hw. apply wf_T in Hw as (_ & _ & _ & Hc & Hp & Ha). cbn [child_at].
  destruct (child_labelled cs x) as [c0|] eqn:Ec.
  - intros [= ->]. destruct (child_labelled_in _ _ _ Ec) as [Hin Hx]. rewrite Forall_forall in Hc.
    destruct (Hc c Hin) as [-> Hw]. cbn [own]. by rewrite Nat.add_0_r.
  - destruct (x =? paramLabel) eqn:E1; breflect; [|destruct (x =? anyLabel) eqn:E2; breflect; [|done]]; intros ->;
      cbn [on_child] in *; [destruct Hp as [Hk Hw]|destruct Ha as [Hk Hw]]; rewrite Hk; cbn [own];
      rewrite Nat.add_1_r; (split; [done|]); destruct c as [a' k' pre' l' cs' pc' ac']; cbn [tkind] in Hk; subst k';
      apply wf_T in Hw as (Hw & _); unfold tlabel; cbn [tprefix kind_ok] in *.
    + by subst.
    + by destruct Hw as [-> _].
Qed.

(** *** Addresses *)

Lemma addr_in (t : tree) : addr t ∈ addrs t.
Proof. rewrite addrs_subs. set_solver. Qed.

(** A root of a forest is not inside a tree of it. *)
Lemma forest_roots (cs : list tree) c x :
  NoDup (concat (map addrs cs)) -> c ∈ cs -> x ∈ concat (map addrs (subs c)) -> x ∉ map addr cs.
Proof.
  induction cs as [|c1 cs IH]; [set_solver|]. cbn [map concat].
  intros (Hn1 & Hd & Hn)%NoDup_app Hc Hx [->|Hin]%elem_of_cons.
  - apply elem_of_cons in Hc as [->|Hc].
    + rewrite addrs_subs in Hn1. apply NoDup_cons in Hn1 as [Hn1 _]. done.
    + apply (Hd (addr c1)); [apply addr_in|]. apply elem_of_concat_map. exists c. split; [done|].
      rewrite addrs_subs. set_solver.
  - apply elem_of_cons in Hc as [->|Hc]; [|by apply (IH Hn Hc Hx)].
    apply (Hd x); [rewrite addrs_subs; set_solver|]. apply list_elem_of_fmap in Hin as (c' & -> & Hc').
    apply elem_of_concat_map. exists c'. split; [done|apply addr_in].
Qed.

Lemma roots_in (cs : list tree) x : x ∈ map addr cs -> x ∈ concat (map addrs cs).
Proof.
  intros (c & -> & Hc)%list_elem_of_fmap. apply elem_of_concat_map. exists c. split; [done|apply addr_in].
Qed.

Lemma map_addr_subs a k pre (l : leaf) cs pc ac :
  map addr (subs (T a k pre l cs pc ac)) = map addr cs ++ opt_list (addr <$> pc) ++ opt_list (addr <$> ac).
Proof. cbn [subs]. rewrite !map_app. by destruct pc, ac. Qed.

(** The lower half of a split node, in a heap that has adopted its children. *)
Lemma rep_lower hp hp' p a k pre l cs pc ac A pre' lf :
  rep hp p (T a k pre l cs pc ac) -> NoDup (addrs (T a k pre l cs pc ac)) ->
  hp' !! A = Some (mkNode k (default 0 (head pre')) pre' (Some a) (map addr cs) (l_ppath l) (l_pnames l)
                     (l_handlers l) (addr <$> pc) (addr <$> ac) lf) ->
  (forall x, x ∈ map addr (subs (T a k pre l cs pc ac)) -> hp' !! x = set_parent A <$> hp !! x) ->
  (forall x, x ∈ concat (map addrs (subs (T a k pre l cs pc ac))) ->
     x ∉ map addr (subs (T a k pre l cs pc ac)) -> hp' !! x = hp !! x) ->
  rep hp' (Some a) (T A k pre' l cs pc ac).
Proof.
  intros Hr Hnd HA Hroots Hrest. apply rep_subs in Hr as [_ Hs]. apply rep_subs.
  rewrite addrs_subs in Hnd. apply NoDup_cons in Hnd as [_ Hnd]. cbn [addr] in *.
  split; [by exists lf|]. rewrite Forall_forall in *. intros c Hc.
  apply (rep_reparent hp _ (Some a)).
  - by apply Hs.
  - apply Hroots. by apply list_elem_of_fmap_2.
  - intros x Hx. apply Hrest; [|by eapply forest_roots].
    apply elem_of_concat_map. exists c. split; [done|]. rewrite addrs_subs. set_solver.
Qed.

Lemma lcp_app c a b : apart a b -> lcp (c ++ a) (c ++ b) = length c.
Proof.
  intros Hd. induction c as [|x c IH]; cbn [app lcp length].
  - destruct a as [|x a], b as [|y b]; cbn [lcp]; try done. by rewrite (proj2 (Z.eqb_neq x y)).
  - by rewrite Z.eqb_refl, IH.
Qed.

Lemma leaf_ok_None d pp pn : leaf_ok d (@mkLeaf H None pp pn).
Proof. by intros []. Qed.

Lemma leaf_ok_new d (h : option (list H)) pp pn :
  (is_Some h -> h <> Some [] /\ length pn = d) -> leaf_ok d (mkLeaf h pp pn).
Proof.
  intros Hh Hs. cbn [l_handlers] in Hs. destruct (Hh Hs) as [Hne Hl]. split; [|done].
  unfold has_handlers. cbn [l_handlers]. destruct h as [[|]|]; done || by destruct Hs.
Qed.

(** *** Splitting a static node *)

Section Split.
Variables (hp : list (node H)) (p : option nat) (d a : nat) (l : leaf) (cs : list tree) (pc ac : option tree).
Variables (c pre' s' : bytes) (h : option (list H)) (pp : bytes) (pn : list bytes).
Let t := T a skind (c ++ pre') l cs pc ac.
Hypothesis Hrep : rep hp p t.
Hypothesis Hnd : NoDup (addrs t).
Hypothesis Hwf : wf_tree d t.
Hypothesis Hc : c <> [].
Hypothesis Hpre : pre' <> [].
Hypothesis Hlit : literal (c ++ s').
Hypothesis Hdiff : apart s' pre'.
Hypothesis Hh : is_Some h -> h <> Some [] /\ length pn = d.

Let A := length hp.
Let lower := T A skind pre' l cs pc ac.
Let roots := map addr (subs t).

Lemma split_lower_wf : wf_tree d lower.
Proof.
  apply wf_T in Hwf as ([_ H1] & H2 & H3 & H4 & H5 & H6). apply wf_T. split_and!; try done.
  split; [done|]. apply Forall_app in H1. by destruct H1.
Qed.

Lemma split_a_lt : (a < length hp)%nat.
Proof. pose proof (addrs_lt hp p t Hrep) as Hl. by apply Forall_inv in Hl. Qed.

(** The heap after the children have been adopted, with [extra] new nodes and a
    new upper half. *)
Lemma split_rep_lower extra n lf m :
  m = mkNode skind (default 0 (head pre')) pre' (Some a) (map addr cs) (l_ppath l) (l_pnames l)
        (l_handlers l) (addr <$> pc) (addr <$> ac) lf ->
  rep (<[a := n]> (adopt A roots (hp ++ [m]) ++ extra)) (Some a) lower.
Proof.
  intros Hm. pose proof split_a_lt as Ha. pose proof (addrs_lt hp p t Hrep) as Hlt.
  rewrite Forall_forall in Hlt. pose proof Hnd as Hna. rewrite addrs_subs in Hlt, Hna.
  apply NoDup_cons in Hna as [Hna _].
  cbn [addr t] in Hna, Hlt.
  assert (Hroot : forall x, x ∈ roots -> x ∈ concat (map addrs (subs t))) by (intros x; apply roots_in).
  assert (Hlook : forall x, (x < S A)%nat -> x <> a ->
    <[a := n]> (adopt A roots (hp ++ [m]) ++ extra) !! x
    = if decide (x ∈ roots) then set_parent A <$> (hp ++ [m]) !! x else (hp ++ [m]) !! x).
  { intros x Hx Hxa. rewrite list_lookup_insert_ne by done.
    rewrite lookup_app_l by (rewrite adopt_length, length_app; simpl; fold A; lia). apply adopt_lookup. }
  apply (rep_lower hp _ p a skind (c ++ pre') l cs pc ac A pre' lf).
  - exact Hrep.
  - exact Hnd.
  - rewrite Hlook by (try lia; intros E; subst A; lia). rewrite decide_False.
    + subst A. rewrite list_lookup_middle by done. by rewrite Hm.
    + intros Hin%Hroot. specialize (Hlt A ltac:(apply elem_of_cons; by right)). simpl in Hlt. subst A. lia.
  - intros x Hx. pose proof (Hroot x Hx) as Hx'. specialize (Hlt x ltac:(apply elem_of_cons; by right)). simpl in Hlt.
    rewrite Hlook by (subst A; (lia || by intros ->)). rewrite decide_True by done.
    by rewrite lookup_app_l.
  - intros x Hx Hnr. specialize (Hlt x ltac:(apply elem_of_cons; by right)). simpl in Hlt.
    rewrite Hlook by (subst A; (lia || by intros ->)). rewrite decide_False by done.
    by rewrite lookup_app_l.
Qed.

Lemma split_frame extra n m x :
  x ∉ addrs t -> (x < length hp)%nat -> <[a := n]> (adopt A roots (hp ++ [m]) ++ extra) !! x = hp !! x.
Proof.
  intros Hx Hl. rewrite addrs_subs in Hx. cbn [addr t] in Hx.
  rewrite list_lookup_insert_ne by set_solver.
  rewrite lookup_app_l by (rewrite adopt_length, length_app; simpl; lia). rewrite adopt_lookup, decide_False.
  - by rewrite lookup_app_l.
  - intros Hin%roots_in. set_solver.
Qed.

Let B := S A.
Let upper : tree :=
  if decide (s' = []) then T a skind c (mkLeaf h pp pn) [lower] None None
  else T a skind c (mkLeaf None [] []) [lower; T B skind s' (mkLeaf h pp pn) [] None None] None None.

Lemma split_at :
  exists hp', insert_at hp a (c ++ s') h skind pp pn = Ret (inr hp') /\ rep hp' p upper /\
    (length hp <= length hp')%nat /\
    (forall x, x ∉ addrs t -> (x < length hp)%nat -> hp' !! x = hp !! x).
Proof.
  pose proof Hrep as Hrep'. apply rep_T in Hrep' as ([lf Hn] & _). pose proof split_a_lt as Ha.
  unfold insert_at. rewrite Hn. cbn [deref outcome_bind prefix].
  rewrite (lcp_app c s' pre' Hdiff).
  rewrite bool_decide_false by (by destruct c).
  rewrite bool_decide_true by (rewrite length_app; destruct pre'; simpl; [done|lia]).
  rewrite drop_app_length, take_app_length. cbn [nkind children handlers ppath pnames paramChild anyChild parent].
  unfold newNode at 1. set (y := default 0 (head pre')).
  assert (Hy : head pre' = Some y) by (subst y; by destruct pre').
  rewrite Hy. cbn [deref outcome_bind].
  rewrite <- map_addr_subs with (a := a) (k := skind) (pre := c ++ pre') (l := l). fold t roots A.
  set (m := mkNode skind y pre' (Some a) (map addr cs) (l_ppath l) (l_pnames l) (l_handlers l)
              (addr <$> pc) (addr <$> ac) (leaf_test (map addr cs) (addr <$> pc) (addr <$> ac))).
  assert (Hhead : head (c ++ pre') = Some (default 0 (head c))) by (by destruct c).
  rewrite Hhead. cbn [deref outcome_bind].
  assert (Hlow : forall n extra, rep (<[a := n]> (adopt A roots (hp ++ [m]) ++ extra)) (Some a) lower).
  { intros n extra. by eapply split_rep_lower. }
  assert (Hsize : length (adopt A roots (hp ++ [m])) = B) by (rewrite adopt_length, length_app; simpl; lia).
  unfold upper. destruct (decide (s' = [])) as [Es|Es].
  - rewrite Es, app_nil_r. rewrite bool_decide_true by done. eexists. split; [done|].
    specialize (Hlow (mkNode skind (default 0 (head c)) c p [A] pp pn h None None false) []).
    rewrite app_nil_r in Hlow. split_and!.
    + apply rep_T. split; [|by split; [constructor|]]. exists false.
      rewrite list_lookup_insert_eq by lia. done.
    + rewrite length_insert. lia.
    + intros x Hx Hl. pose proof (split_frame [] (mkNode skind (default 0 (head c)) c p [A] pp pn h None None false) m x Hx Hl) as E.
      by rewrite app_nil_r in E.
  - assert (Hz : head s' = Some (default 0 (head s'))) by (by destruct s').
    rewrite bool_decide_false by (rewrite length_app; destruct s'; simpl; [done|lia]). rewrite drop_app_length.
    unfold newNode. rewrite Hz. cbn [deref outcome_bind leaf_test].
    eexists. split; [done|]. rewrite Hsize. split_and!.
    + apply rep_T. split; [|split; [|done]].
      * exists false. rewrite list_lookup_insert_eq by (rewrite length_app; lia). done.
      * constructor; [apply Hlow|]. constructor; [|constructor]. apply rep_T. split; [|by split].
        exists true. rewrite list_lookup_insert_ne by (unfold B, A; lia).
        rewrite lookup_app_r by lia. by rewrite Hsize, Nat.sub_diag.
    + rewrite length_insert, length_app. lia.
    + intros x Hx Hl. by apply split_frame.
Qed.

Lemma split_upper :
  addr upper = a /\ tkind upper = skind /\ tlabel upper = tlabel t /\ wf_tree d upper /\
  NoDup (addrs upper) /\ (forall x, x ∈ addrs upper -> x ∈ addrs t \/ (length hp <= x)%nat) /\
  routes upper ≡ₚ new_route (c ++ s') h pp pn ++ routes t /\ c ++ s' ∈ tnodes upper /\
  (forall q, q ∈ tnodes t -> q ∈ tnodes upper) /\ (tdepth upper <= tdepth t)%nat.
Proof.
  pose proof (addrs_lt hp p t Hrep) as Hlt. rewrite Forall_forall in Hlt.
  assert (Hal : addrs lower = A :: concat (map addrs (subs t))) by (by rewrite addrs_subs).
  assert (Hat : addrs t = a :: concat (map addrs (subs t))) by (by rewrite addrs_subs).
  remember (concat (map addrs (subs t))) as O eqn:HO. clear HO.
  pose proof Hnd as Hnd'. rewrite Hat in Hlt, Hnd'. apply NoDup_cons in Hnd' as [Hna Hnd'].
  assert (HA : A ∉ a :: O) by (intros Hx; specialize (Hlt A Hx); simpl in Hlt; lia).
  assert (HB : B ∉ a :: O) by (intros Hx; specialize (Hlt B Hx); simpl in Hlt; lia).
  assert (HrL : routes t = under c (routes lower)).
  { rewrite !routes_subs. cbn [tprefix tleaf subs t lower]. by rewrite under_under. }
  assert (HnL : forall q, q ∈ tnodes t -> exists q', q = c ++ q' /\ q' ∈ tnodes lower).
  { intros q. rewrite !tnodes_subs. cbn [tprefix subs t lower]. intros (q' & -> & Hq')%list_elem_of_fmap.
    exists (pre' ++ q'). split; [by rewrite app_assoc|]. by apply list_elem_of_fmap_2. }
  pose proof split_lower_wf as Hlw. apply Forall_app in Hlit as [Hlc Hls].
  assert (Hlab : tlabel upper = tlabel t).
  { unfold tlabel, upper, t. by destruct (decide (s' = [])), c. }
  assert (Hdep : (tdepth upper <= tdepth t)%nat).
  { assert (El : tdepth lower = tdepth t) by (by rewrite !tdepth_subs).
    unfold upper. destruct (decide (s' = [])); rewrite tdepth_subs; cbn [subs tkind own opt_to_list app map foldr];
      rewrite El; [lia|]. cbn [tdepth map app foldr]. lia. }
  unfold upper in *. destruct (decide (s' = [])) as [Es|Es].
  - rewrite Es in *. split_and!; try done.
    + apply wf_T. split_and!; try done; [by apply leaf_ok_new | apply NoDup_singleton | by constructor].
    + cbn [addrs map concat]. rewrite !app_nil_r, Hal. rewrite !NoDup_cons, !elem_of_cons in *. naive_solver.
    + intros x. cbn [addrs map concat]. rewrite !app_nil_r, Hal, Hat, !elem_of_cons.
      intros [->|[->|Hx]]; [tauto|by right|tauto].
    + rewrite HrL. cbn [routes map concat]. rewrite !app_nil_r, under_app. f_equiv.
      unfold new_route, self_route. cbn [l_handlers]. destruct h; [|done]. cbn. by rewrite app_nil_r.
    + rewrite app_nil_r. apply tnodes_elem. by left.
    + intros q (q' & -> & Hq')%HnL. apply tnodes_elem. right. exists lower, q'. split; [by left|done].
  - assert (Hhd : tlabel lower <> default 0 (head s')).
    { unfold tlabel. cbn [lower tprefix]. unfold apart in Hdiff. by destruct s', pre'. }
    split_and!; try done.
    + apply wf_T. split_and!; try done; [apply leaf_ok_None| |].
      * cbn [map]. constructor; [|apply NoDup_singleton]. by intros Hx%list_elem_of_singleton.
      * constructor; [done|]. constructor; [|constructor]. split; [done|]. apply wf_T.
        split_and!; try done; [by apply leaf_ok_new | constructor].
    + cbn [addrs map concat]. rewrite !app_nil_r, Hal. cbn [app].
      assert (a <> B) by (unfold B, A; pose proof split_a_lt; lia). assert (A <> B) by (unfold B; lia).
      rewrite !NoDup_cons, NoDup_app, !elem_of_cons, !elem_of_app, !elem_of_cons in *.
      pose proof (not_elem_of_nil a). pose proof (not_elem_of_nil A).
      split_and!; [intuition congruence|intuition congruence|done| |apply NoDup_singleton].
      intros x Hx ->%list_elem_of_singleton. tauto.
    + intros x. cbn [addrs map concat]. rewrite !app_nil_r, Hal, Hat. rewrite elem_of_cons, elem_of_app, elem_of_cons.
      rewrite !elem_of_cons. pose proof (not_elem_of_nil x).
      intros [->|[[->|Hx]|[->|Hx]]]; [tauto|by right|tauto|right; unfold B, A; lia|done].
    + rewrite HrL. cbn [routes map concat]. unfold self_route at 1. cbn [l_handlers app]. rewrite !app_nil_r.
      rewrite under_app, Permutation_app_comm. f_equiv. rewrite under_under. rewrite <- under_new.
      unfold new_route, self_route, under. cbn [l_handlers]. by destruct h; cbn; rewrite ?app_nil_r.
    + apply tnodes_elem. right. eexists (T B skind s' _ [] None None), s'. split; [right; by left|].
      split; [apply tnodes_elem; by left|done].
    + intros q (q' & -> & Hq')%HnL. apply tnodes_elem. right. exists lower, q'. split; [by left|done].
Qed.
End Split.

(** *** A new child *)

Lemma child_labelled_None (cs : list tree) x : child_labelled cs x = None -> x ∉ map tlabel cs.
Proof.
  induction cs as [|c cs IH]; [set_solver|]. cbn [child_labelled map].
  destruct (tlabel c =? x) eqn:E; [done|]. breflect. set_solver.
Qed.

Lemma new_ok_wilds k s : new_ok k s -> s <> [] /\ wilds s = own k.
Proof.
  destruct k; cbn [new_ok own].
  - intros [Hne Hl]. split; [done|]. by apply wilds_literal.
  - by intros ->.
  - by intros ->.
Qed.

(** The tree [t] with the child [N] of kind [k]. *)
Definition with_child (t : tree) (k : kind) (N : tree) : tree :=
  let 'T a k0 pre l cs pc ac := t in
  match k with
  | skind => T a k0 pre l (cs ++ [N]) pc ac
  | pkind => T a k0 pre l cs (Some N) ac
  | akind => T a k0 pre l cs pc (Some N)
  end.

Lemma with_child_subs t k x s N :
  child_at t x = None -> new_ok k (x :: s) -> subs (with_child t k N) ≡ₚ N :: subs t.
Proof.
  destruct t as [a k0 pre l cs pc ac]. cbn [child_at]. destruct (child_labelled cs x); [done|].
  destruct k; cbn [new_ok with_child subs]; intros Hc Hn.
  - rewrite <- app_assoc. symmetry. apply Permutation_middle.
  - injection Hn as -> ->. rewrite Z.eqb_refl in Hc. rewrite Hc. cbn [opt_to_list app].
    symmetry. apply Permutation_middle.
  - injection Hn as -> ->. change (anyLabel =? paramLabel) with false in Hc. rewrite Z.eqb_refl in Hc.
    rewrite Hc. cbn [opt_to_list]. rewrite app_nil_r, app_assoc. rewrite Permutation_app_comm. done.
Qed.

Lemma with_child_wf d t k x s N :
  wf_tree d t -> tkind t <> akind -> child_at t x = None -> new_ok k (x :: s) ->
  tkind N = k -> tlabel N = x -> wf_tree (d + own k) N -> wf_tree d (with_child t k N).
Proof.
  destruct t as [a k0 pre l cs pc ac]. intros Hw Hk0 Hc Hn HNk HNl HN.
  apply wf_T in Hw as (H1 & H2 & H3 & H4 & H5 & H6). cbn [child_at tkind] in *.
  destruct (child_labelled cs x) eqn:Ec; [done|]. apply child_labelled_None in Ec.
  destruct k; cbn [with_child own] in *; apply wf_T; split_and!; try done; try (by destruct k0).
  - rewrite map_app. apply NoDup_app. split; [done|]. split; [|apply NoDup_singleton]. cbn [map]. rewrite HNl.
    intros y Hy ->%list_elem_of_singleton. done.
  - apply Forall_app. split; [done|]. apply Forall_singleton. by rewrite Nat.add_0_r in HN.
  - cbn [on_child]. by rewrite Nat.add_1_r in HN.
  - cbn [on_child]. by rewrite Nat.add_1_r in HN.
Qed.

Lemma routes_leaf A k s (h : option (list H)) pp pn :
  routes (T A k s (mkLeaf h pp pn) [] None None) = new_route s h pp pn.
Proof.
  cbn [routes map concat]. rewrite !app_nil_r. unfold new_route, self_route. cbn [l_handlers].
  destruct h; [|done]. cbn. by rewrite app_nil_r.
Qed.

Lemma routes_perm_subs (t t' : tree) N :
  tprefix t' = tprefix t -> tleaf t' = tleaf t -> subs t' ≡ₚ N :: subs t ->
  routes t' ≡ₚ under (tprefix t) (routes N) ++ routes t.
Proof.
  intros Hp Hl Hs. rewrite (routes_subs t), (routes_subs t'), Hp, Hl, <- under_app. unfold under. apply Permutation_map.
  rewrite Hs. cbn [map concat]. rewrite !app_assoc. f_equiv. apply Permutation_app_comm.
Qed.

Lemma with_child_same (t : tree) k N :
  addr (with_child t k N) = addr t /\ tkind (with_child t k N) = tkind t /\
  tprefix (with_child t k N) = tprefix t /\ tleaf (with_child t k N) = tleaf t.
Proof. destruct t, k; done. Qed.

(** The round of insert that adds a child. *)
Lemma insert_at_new hp p t k x s h pp pn :
  rep hp p t -> NoDup (addrs t) -> tprefix t <> [] -> child_at t x = None -> new_ok k (x :: s) ->
  let N := T (length hp) k (x :: s) (mkLeaf h pp pn) [] None None in
  exists hp', insert_at hp (addr t) (tprefix t ++ x :: s) h k pp pn = Ret (inr hp') /\
    rep hp' p (with_child t k N) /\ length hp' = S (length hp) /\
    (forall y, y ∉ addrs t -> (y < length hp)%nat -> hp' !! y = hp !! y).
Proof.
  intros Hr Hnd Hne Hc Hn N. pose proof (addrs_lt hp p t Hr) as Hlt. rewrite Forall_forall in Hlt.
  rewrite addrs_subs in Hlt, Hnd. apply NoDup_cons in Hnd as [Hna Hnd].
  assert (Ha : (addr t < length hp)%nat) by (apply Hlt; set_solver).
  pose proof Hr as Hr'. apply rep_subs in Hr' as [Hnode Hsubs].
  assert (Hex : exists n, hp !! addr t = Some n) by (apply lookup_lt_is_Some; done).
  destruct Hex as [n0 Hn0]. pose proof (findChildWithLabel_rep hp p t n0 x Hr Hn0) as Hfc. rewrite Hc in Hfc.
  destruct t as [a k0 pre l cs pc ac]. cbn [addr tprefix subs] in *. destruct Hnode as [lf Hnode].
  rewrite Hnode in Hn0. unfold insert_at. rewrite Hnode. cbn [deref outcome_bind prefix].
  assert (Hlcp : lcp (pre ++ x :: s) pre = length pre).
  { rewrite <- (app_nil_r pre) at 2. by apply lcp_app. }
  rewrite Hlcp. rewrite bool_decide_false by (by destruct pre).
  rewrite bool_decide_false by lia. rewrite bool_decide_true by (rewrite length_app; simpl; lia).
  rewrite drop_app_length. cbn [head deref outcome_bind]. injection Hn0 as <-. rewrite Hfc.
  cbn [fmap option_fmap option_map outcome_bind]. unfold newNode. cbn [head deref outcome_bind leaf_test].
  set (m := mkNode k x (x :: s) (Some a) [] pp pn h None None true).
  assert (HN : forall n', rep (<[a := n']> (hp ++ [m])) (Some a) N).
  { intros n'. apply rep_T. split; [|by split]. exists true.
    rewrite list_lookup_insert_ne by lia. by rewrite list_lookup_middle. }
  assert (Hold : forall n', Forall (rep (<[a := n']> (hp ++ [m])) (Some a)) (cs ++ opt_to_list pc ++ opt_to_list ac)).
  { intros n'. rewrite Forall_forall in *. intros c Hcin. eapply rep_frame; [by apply Hsubs|]. intros y Hy.
    assert (Hy' : y ∈ concat (map addrs (cs ++ opt_to_list pc ++ opt_to_list ac)))
      by (apply elem_of_concat_map; eauto).
    rewrite list_lookup_insert_ne by (by intros ->). apply lookup_app_l. apply Hlt. set_solver. }
  assert (Hold3 : forall n', Forall (rep (<[a := n']> (hp ++ [m])) (Some a)) cs /\
    Forall (rep (<[a := n']> (hp ++ [m])) (Some a)) (opt_to_list pc) /\
    Forall (rep (<[a := n']> (hp ++ [m])) (Some a)) (opt_to_list ac)).
  { intros n'. specialize (Hold n'). by rewrite !Forall_app in Hold. }
  assert (Hframe : forall n' y, y ∉ addrs (T a k0 pre l cs pc ac) -> (y < length hp)%nat ->
    <[a := n']> (hp ++ [m]) !! y = hp !! y).
  { intros n' y Hy Hyl. rewrite addrs_subs in Hy. cbn [addr] in Hy.
    rewrite list_lookup_insert_ne by set_solver. by apply lookup_app_l. }
  assert (Hlen : forall n', length (<[a := n']> (hp ++ [m])) = S (length hp))
    by (intros; rewrite length_insert, length_app; simpl; lia).
  assert (Hself : forall n', <[a := n']> (hp ++ [m]) !! a = Some n')
    by (intros; apply list_lookup_insert_eq; rewrite length_app; simpl; lia).
  destruct k; (eexists; split; [done|]; split; [|split; [apply Hlen|apply Hframe]]); apply rep_subs;
    cbn [with_child subs addr]; (split; [eexists; rewrite Hself; by rewrite ?map_app|]).
  - rewrite <- app_assoc, !Forall_app. split_and!; try apply Hold3. apply Forall_singleton, HN.
  - rewrite !Forall_app. split_and!; try apply Hold3. apply Forall_singleton, HN.
  - rewrite !Forall_app. split_and!; try apply Hold3. apply Forall_singleton, HN.
Qed.

(** The round of insert that goes to a child. *)
Lemma insert_at_down hp p t c k x s h pp pn :
  rep hp p t -> tprefix t <> [] -> child_at t x = Some c ->
  insert_at hp (addr t) (tprefix t ++ x :: s) h k pp pn = Ret (inl (addr c, x :: s)).
Proof.
  intros Hr Hne Hc.
  assert (Hex : exists n, hp !! addr t = Some n /\ prefix n = tprefix t).
  { destruct t. apply rep_T in Hr as ([lf Hn] & _). eauto. }
  destruct Hex as (n & Hn & Hp). pose proof (findChildWithLabel_rep hp p t n x Hr Hn) as Hfc. rewrite Hc in Hfc.
  unfold insert_at. rewrite Hn. cbn [deref outcome_bind]. rewrite Hp.
  assert (Hlcp : lcp (tprefix t ++ x :: s) (tprefix t) = length (tprefix t)).
  { rewrite <- (app_nil_r (tprefix t)) at 2. by apply lcp_app. }
  rewrite Hlcp. rewrite bool_decide_false by (by destruct (tprefix t)).
  rewrite bool_decide_false by lia. rewrite bool_decide_true by (rewrite length_app; simpl; lia).
  rewrite drop_app_length. cbn [head deref outcome_bind]. by rewrite Hfc.
Qed.

Definition with_leaf (t : tree) (l : leaf) : tree := let 'T a k pre _ cs pc ac := t in T a k pre l cs pc ac.

(** The round of insert that ends at a node which is there. *)
Lemma insert_at_here hp p t k h pp pn :
  rep hp p t -> NoDup (addrs t) -> tprefix t <> [] ->
  match h, l_handlers (tleaf t) with
  | None, _ => insert_at hp (addr t) (tprefix t) h k pp pn = Ret (inr hp)
  | Some _, Some _ => insert_at hp (addr t) (tprefix t) h k pp pn = Panic
  | Some _, None =>
      exists hp', insert_at hp (addr t) (tprefix t) h k pp pn = Ret (inr hp') /\
        rep hp' p (with_leaf t (mkLeaf h pp pn)) /\ length hp' = length hp /\
        (forall y, y <> addr t -> hp' !! y = hp !! y)
  end.
Proof.
  intros Hr Hnd Hne. destruct t as [a k0 pre l cs pc ac]. cbn [addr tprefix tleaf with_leaf] in *.
  rewrite addrs_subs in Hnd. apply NoDup_cons in Hnd as [Hna _]. cbn [addr] in Hna.
  pose proof Hr as Hr'. apply rep_subs in Hr' as [[lf Hn] Hsubs]. cbn [addr] in Hsubs.
  pose proof (lookup_lt_Some _ _ _ Hn) as Ha.
  assert (Hlcp : lcp pre pre = length pre).
  { rewrite <- (app_nil_r pre) at 1 2. by apply lcp_app. }
  assert (E : insert_at hp a pre h k pp pn =
    match l_handlers l, h with
    | Some _, Some _ => Panic
    | _, Some _ => Ret (inr (<[a := mkNode k0 (default 0 (head pre)) pre p (map addr cs) pp pn h
                               (addr <$> pc) (addr <$> ac) lf]> hp))
    | _, None => Ret (inr hp)
    end).
  { unfold insert_at. rewrite Hn. cbn [deref outcome_bind prefix]. rewrite Hlcp.
    rewrite bool_decide_false by (by destruct pre). by rewrite !bool_decide_false by lia. }
  rewrite E. destruct h as [h|]; destruct (l_handlers l) as [h0|]; try done.
  eexists. split; [done|]. split; [|split; [apply length_insert|]].
  - apply rep_subs. split; [eexists; by rewrite list_lookup_insert_eq|]. cbn [addr subs] in *.
    rewrite Forall_forall in *. intros c Hc. eapply rep_frame; [by apply Hsubs|]. intros y Hy.
    apply list_lookup_insert_ne. intros <-. apply Hna. apply elem_of_concat_map. eauto.
  - intros y Hy. by apply list_lookup_insert_ne.
Qed.

Lemma static_label d (c : tree) :
  wf_tree d c -> tkind c = skind -> tlabel c <> paramLabel /\ tlabel c <> anyLabel.
Proof.
  destruct c as [a k pre l cs pc ac]. cbn [tkind]. intros Hw ->. apply wf_T in Hw as ([Hne Hlit] & _).
  unfold tlabel. cbn [tprefix]. destruct pre; [done|]. by apply Forall_cons in Hlit as [Hx _].
Qed.

Lemma child_labelled_self (cs : list tree) c :
  NoDup (map tlabel cs) -> c ∈ cs -> child_labelled cs (tlabel c) = Some c.
Proof.
  induction cs as [|c1 cs IH]; [set_solver|]. cbn [child_labelled map].
  intros [Hn Hnd]%NoDup_cons [->|Hc]%elem_of_cons; [by rewrite Z.eqb_refl|].
  rewrite (proj2 (Z.eqb_neq _ _)); [by apply IH|]. intros E. apply Hn. rewrite E. by apply list_elem_of_fmap_2.
Qed.

Lemma wild_label d (c : tree) :
  wf_tree d c ->
  match tkind c with pkind => tlabel c = paramLabel | akind => tlabel c = anyLabel | skind => True end.
Proof.
  destruct c as [a k pre l cs pc ac]. intros Hw. apply wf_T in Hw as (Hk & _). unfold tlabel. cbn [tkind tprefix].
  destruct k; cbn [kind_ok] in Hk; [done|by subst|by destruct Hk as [-> _]].
Qed.

(** A subtree is the child for its label. *)
Lemma child_at_self d (t c : tree) : wf_tree d t -> c ∈ subs t -> child_at t (tlabel c) = Some c.
Proof.
  destruct t as [a k pre l cs pc ac]. intros Hw. apply wf_T in Hw as (_ & _ & Hnd & Hcs & Hpc & Hac).
  assert (Hno : forall x, x = paramLabel \/ x = anyLabel -> child_labelled cs x = None).
  { intros x Hx. destruct (child_labelled cs x) as [c1|] eqn:Ec; [|done]. exfalso.
    destruct (child_labelled_in _ _ _ Ec) as [Hc1 Hl1]. rewrite Forall_forall in Hcs.
    destruct (Hcs c1 Hc1) as [Hk1 Hw1]. destruct (static_label d c1 Hw1 Hk1). naive_solver. }
  cbn [subs child_at]. rewrite !elem_of_app. intros [Hc|[Hc|Hc]].
  - by rewrite child_labelled_self.
  - destruct pc as [c0|]; [|by apply not_elem_of_nil in Hc]. apply list_elem_of_singleton in Hc as ->.
    destruct Hpc as [Hk Hcw]. pose proof (wild_label _ _ Hcw) as Hl. rewrite Hk in Hl. rewrite Hl.
    rewrite Hno by auto. done.
  - destruct ac as [c0|]; [|by apply not_elem_of_nil in Hc]. apply list_elem_of_singleton in Hc as ->.
    destruct Hac as [Hk Hcw]. pose proof (wild_label _ _ Hcw) as Hl. rewrite Hk in Hl. rewrite Hl.
    rewrite Hno by auto. done.
Qed.

Lemma wf_sub d (t c : tree) : wf_tree d t -> c ∈ subs t -> wf_tree (d + own (tkind c)) c.
Proof.
  intros Hw Hc. pose proof (child_at_self d t c Hw Hc) as E. destruct t. by eapply wf_child.
Qed.

Lemma elem_of_fst_under q pre rs : q ∈ map fst (@under H pre rs) <-> exists q', q = pre ++ q' /\ q' ∈ map fst rs.
Proof.
  unfold under. rewrite map_map, !list_elem_of_fmap. split.
  - intros (r & -> & Hr). exists (fst r). split; [done|]. by apply list_elem_of_fmap_2.
  - intros (q' & -> & (r & -> & Hr)%list_elem_of_fmap). by exists r.
Qed.

(** Routes behind a child: only the child's. *)
Lemma routes_child d (t : tree) x s :
  wf_tree d t ->
  tprefix t ++ x :: s ∈ map fst (routes t) <->
  exists c, child_at t x = Some c /\ x :: s ∈ map fst (routes c).
Proof.
  intros Hw. rewrite routes_subs, elem_of_fst_under. split.
  - intros (q' & E & Hq'). apply app_inv_head in E. subst q'.
    apply list_elem_of_fmap in Hq' as ([q lf] & E & Hin). cbn [fst] in E. subst q.
    apply elem_of_app in Hin as [Hin|Hin].
    { unfold self_route in Hin. destruct (l_handlers (tleaf t)); set_solver. }
    apply elem_of_concat_map in Hin as (c & Hc & Hin). exists c.
    split; [|by apply (list_elem_of_fmap_2 fst) in Hin].
    destruct (route_head _ c _ lf (wf_sub d t c Hw Hc) Hin) as (q' & [= -> _] & _). by eapply child_at_self.
  - intros (c & Hc & Hin). exists (x :: s). split; [done|]. destruct t as [a k pre l cs pc ac].
    destruct (child_slot a k pre l cs pc ac x c Hc) as (L & R & E & _). rewrite E.
    apply list_elem_of_fmap in Hin as (r & -> & Hr). apply list_elem_of_fmap_2. apply elem_of_app. right.
    apply elem_of_concat_map. exists c. split; [set_solver|done].
Qed.

(** *** insert *)

(** Replacing a subtree by one with a pattern more. *)
Lemma inserted_down hp hp' p d t c c' x s new :
  rep hp p t -> NoDup (addrs t) -> wf_tree d t -> child_at t x = Some c ->
  inserted hp hp' (Some (addr t)) (d + own (tkind c)) c c' (x :: s) new ->
  exists t', inserted hp hp' p d t t' (tprefix t ++ x :: s) (under (tprefix t) new).
Proof.
  intros Hr Hnd Hw Hc Hi. destruct t as [a k pre l cs pc ac].
  destruct (child_slot a k pre l cs pc ac x c Hc) as (L & R & E & Hrepl).
  destruct (Hrepl c' (ins_addr _ _ _ _ _ _ _ _ Hi) (ins_kind _ _ _ _ _ _ _ _ Hi) (ins_label _ _ _ _ _ _ _ _ Hi))
    as (cs' & pc' & ac' & E' & Ecs & Epc & Eac & Hw').
  pose proof (addrs_lt hp p _ Hr) as Hlt. rewrite Forall_forall in Hlt.
  exists (T a k pre l cs' pc' ac'). cbn [tprefix addr] in *.
  pose proof Hr as Hr'. apply rep_subs in Hr' as [[lf Hn] Hsubs]. cbn [addr] in Hsubs.
  set (O := a :: concat (map addrs L) ++ concat (map addrs R)).
  assert (HO : forall u y, u ∈ L \/ u ∈ R -> y ∈ addrs u -> y ∈ O).
  { intros u y Hu Hy. unfold O. apply elem_of_cons. right. apply elem_of_app.
    rewrite !elem_of_concat_map. destruct Hu; eauto. }
  assert (Hperm : addrs (T a k pre l cs pc ac) ≡ₚ addrs c ++ O).
  { rewrite addrs_subs, E, map_app, concat_app. cbn [map concat addr]. unfold O. solve_Permutation. }
  assert (Hperm' : addrs (T a k pre l cs' pc' ac') ≡ₚ addrs c' ++ O).
  { rewrite addrs_subs, E', map_app, concat_app. cbn [map concat addr]. unfold O. solve_Permutation. }
  assert (HaO : a ∈ O) by (unfold O; apply elem_of_cons; by left). clearbody O.
  setoid_rewrite Hperm in Hlt. rewrite Hperm in Hnd. apply NoDup_app in Hnd as (Hndc & Hdc & HndO).
  assert (Hsame : forall y, y ∈ O -> hp' !! y = hp !! y).
  { intros y Hy. apply (ins_frame _ _ _ _ _ _ _ _ Hi); [intros Hyc; by apply (Hdc y)|].
    apply Hlt, elem_of_app. by right. }
  assert (Hsub : forall u, u ∈ L \/ u ∈ R -> rep hp (Some a) u -> rep hp' (Some a) u).
  { intros u Hu Hru. eapply rep_frame; [exact Hru|]. intros y Hy. apply Hsame. by eapply HO. }
  split; cbn [addr tkind]; try done.
  - apply rep_subs. split; [exists lf; rewrite Hsame by done; by rewrite Hn, Ecs, Epc, Eac|].
    rewrite E'. cbn [addr]. rewrite E in Hsubs. rewrite Forall_app, Forall_cons in *.
    destruct Hsubs as (HL & _ & HR). split_and!; [| apply Hi |]; rewrite Forall_forall in *; auto.
  - apply Hw'; [done|]. apply Hi.
  - rewrite Hperm'. apply NoDup_app. split; [apply Hi|]. split; [|done]. intros y Hy HyO.
    destruct (ins_addrs _ _ _ _ _ _ _ _ Hi y Hy) as [Hyc|Hyl]; [by apply (Hdc y)|].
    specialize (Hlt y ltac:(apply elem_of_app; by right)). simpl in Hlt. lia.
  - apply Hi.
  - intros y. rewrite Hperm, Hperm', !elem_of_app. intros [Hy|Hy]; [|tauto].
    destruct (ins_addrs _ _ _ _ _ _ _ _ Hi y Hy); tauto.
  - intros y Hy Hyl. rewrite Hperm, elem_of_app in Hy. apply (ins_frame _ _ _ _ _ _ _ _ Hi); tauto.
  - rewrite (routes_subs (T a k pre l cs' pc' ac')), (routes_subs (T a k pre l cs pc ac)), E, E'.
    cbn [tprefix tleaf]. rewrite <- under_app. unfold under. apply Permutation_map.
    rewrite !map_app, !concat_app. cbn [map concat]. rewrite (ins_routes _ _ _ _ _ _ _ _ Hi). solve_Permutation.
  - apply tnodes_elem. right. exists c', (x :: s). rewrite E'. split; [set_solver|]. split; [apply Hi|done].
  - intros q. rewrite !tnodes_elem, E, E'. cbn [tprefix]. intros [->|(u & q' & Hu & Hq' & ->)]; [by left|]. right.
    apply elem_of_app in Hu as [Hu|[->|Hu]%elem_of_cons]; [exists u, q'; rewrite elem_of_app; tauto| |exists u, q'; rewrite elem_of_app, elem_of_cons; tauto].
    exists c', q'. split; [rewrite elem_of_app, elem_of_cons; tauto|]. split; [by apply Hi|done].
  - pose proof (ins_depth _ _ _ _ _ _ _ _ Hi) as Hdc'. destruct (kind_prefix d _ Hw) as [_ Hwt]. cbn [tprefix tkind] in Hwt.
    destruct (proj1 (tdepth_le (T a k pre l cs pc ac) _) (Nat.le_refl _)) as [Ho Hd]. rewrite E in Hd.
    rewrite (tdepth_le (T a k pre l cs' pc' ac')), E', wilds_app, Hwt. cbn [tkind] in *.
    rewrite Forall_app, Forall_cons in *. destruct Hd as (HL & Hc0 & HR).
    split_and!; [lia| |lia|]; (eapply Forall_impl; [eassumption|]; simpl; lia).
Qed.

Lemma inserted_split hp p d a l cs pc ac c pre' s' h pp pn :
  rep hp p (T a skind (c ++ pre') l cs pc ac) -> NoDup (addrs (T a skind (c ++ pre') l cs pc ac)) ->
  wf_tree d (T a skind (c ++ pre') l cs pc ac) -> c <> [] -> pre' <> [] -> literal (c ++ s') ->
  apart s' pre' -> (is_Some h -> h <> Some [] /\ length pn = d) ->
  exists hp' t', insert_at hp a (c ++ s') h skind pp pn = Ret (inr hp') /\
    inserted hp hp' p d (T a skind (c ++ pre') l cs pc ac) t' (c ++ s') (new_route (c ++ s') h pp pn).
Proof.
  intros Hr Hnd Hw Hc Hp Hl Hd Hh.
  destruct (split_at hp p d a l cs pc ac c pre' s' h pp pn Hr Hnd Hw Hc Hp Hl Hd Hh) as (hp' & E & Hr' & Hg & Hf).
  destruct (split_upper hp p d a l cs pc ac c pre' s' h pp pn Hr Hnd Hw Hc Hp Hl Hd Hh)
    as (H1 & H2 & H3 & H4 & H5 & H6 & H7 & H8 & H9 & H10).
  eexists hp', _. split; [done|]. split; try done. lia.
Qed.

Lemma inserted_new hp p d t k x s h pp pn :
  rep hp p t -> NoDup (addrs t) -> wf_tree d t -> tkind t <> akind -> child_at t x = None ->
  new_ok k (x :: s) -> (k = akind -> is_Some h) ->
  (is_Some h -> h <> Some [] /\ length pn = (d + own k)%nat) ->
  exists hp' t', insert_at hp (addr t) (tprefix t ++ x :: s) h k pp pn = Ret (inr hp') /\
    inserted hp hp' p d t t' (tprefix t ++ x :: s) (new_route (tprefix t ++ x :: s) h pp pn).
Proof.
  intros Hr Hnd Hw Hk Hc Hn Hak Hh. destruct (kind_prefix d t Hw) as [Hne _].
  destruct (insert_at_new hp p t k x s h pp pn Hr Hnd Hne Hc Hn) as (hp' & E & Hr' & Hl & Hf).
  set (N := T (length hp) k (x :: s) (mkLeaf h pp pn) [] None None) in *.
  destruct (with_child_same t k N) as (Ea & Ek & Ep & El).
  pose proof (with_child_subs t k x s N Hc Hn) as Hs.
  assert (Hperm : addrs (with_child t k N) ≡ₚ length hp :: addrs t).
  { rewrite !addrs_subs, Ea, Hs. cbn [map concat addrs N app]. apply Permutation_swap. }
  assert (HN : wf_tree (d + own k) N).
  { apply wf_T. split_and!; try done; [|by apply leaf_ok_new|constructor].
    destruct k; cbn [kind_ok new_ok] in *; [done|done|]. split_and!; auto. }
  exists hp', (with_child t k N). split; [done|].
  pose proof (addrs_lt hp p t Hr) as Hlt. rewrite Forall_forall in Hlt. split; try done.
  - unfold tlabel. by rewrite Ep.
  - by apply (with_child_wf d t k x s N).
  - rewrite Hperm. constructor; [|done]. intros Hin. specialize (Hlt _ Hin). simpl in Hlt. lia.
  - lia.
  - intros y. rewrite Hperm, elem_of_cons. intros [->|Hy]; [by right|by left].
  - rewrite (routes_perm_subs t (with_child t k N) N Ep El Hs). unfold N. rewrite routes_leaf, under_new. done.
  - apply tnodes_elem. right. exists N, (x :: s). rewrite Hs, Ep. split; [apply elem_of_cons; by left|].
    split; [apply tnodes_elem; by left|done].
  - intros q. rewrite !tnodes_elem, Ep. setoid_rewrite Hs. setoid_rewrite elem_of_cons. naive_solver.
  - destruct (new_ok_wilds k (x :: s) Hn) as [_ Hwn]. destruct (kind_prefix d t Hw) as [_ Hwt].
    rewrite wilds_app, Hwn, Hwt, (tdepth_le (with_child t k N)), Ek, Hs.
    destruct (proj1 (tdepth_le t (tdepth t)) ltac:(lia)) as [Ho Hd]. split; [lia|].
    assert (HNd : tdepth N = own k) by (unfold N; simpl; by rewrite Nat.add_0_r).
    constructor; [lia|]. eapply Forall_impl; [exact Hd|]. simpl. intros c. lia.
Qed.

Lemma inserted_here hp hp' p d t h pp pn :
  rep hp' p (with_leaf t (mkLeaf h pp pn)) -> NoDup (addrs t) -> wf_tree d t -> length hp' = length hp ->
  (forall y, y <> addr t -> hp' !! y = hp !! y) -> l_handlers (tleaf t) = None -> is_Some h ->
  h <> Some [] /\ length pn = d ->
  inserted hp hp' p d t (with_leaf t (mkLeaf h pp pn)) (tprefix t) (new_route (tprefix t) h pp pn).
Proof.
  intros Hr Hnd Hw Hl Hf Hno Hh Hok. destruct t as [a k pre l cs pc ac]. cbn [with_leaf tprefix addr tleaf] in *.
  split; try done.
  - apply wf_T in Hw as (H1 & H2 & H3 & H4 & H5 & H6). apply wf_T. split_and!; try done.
    + destruct k; [done|done|]. destruct H1 as (_ & _ & _ & _ & [h0 Hh0]). by rewrite Hno in Hh0.
    + by apply leaf_ok_new.
  - lia.
  - intros y. cbn [addrs]. tauto.
  - intros y Hy _. apply Hf. intros ->. apply Hy. cbn [addrs]. apply elem_of_cons. by left.
  - cbn [routes]. rewrite !under_app. unfold self_route at 2. rewrite Hno. cbn [under map app].
    f_equiv. unfold new_route, self_route. cbn [l_handlers]. destruct Hh as [h0 ->]. cbn. by rewrite app_nil_r.
  - apply tnodes_elem. by left.
  - rewrite !tdepth_subs. cbn [tkind subs]. lia.
Qed.

(** The pattern of a node has a route if the node has handlers. *)
Lemma prefix_in_routes d (t : tree) :
  wf_tree d t -> tprefix t ∈ map fst (routes t) <-> is_Some (l_handlers (tleaf t)).
Proof.
  intros Hw. rewrite routes_subs, elem_of_fst_under. split.
  - intros (q & E & Hq). assert (q = []) as ->.
    { rewrite <- (app_nil_r (tprefix t)) in E at 1. by apply app_inv_head in E. }
    rewrite map_app in Hq. apply elem_of_app in Hq as [Hq|Hq].
    + unfold self_route in Hq. destruct (l_handlers (tleaf t)); [done|by apply not_elem_of_nil in Hq].
    + apply list_elem_of_fmap in Hq as ([q lf] & E2 & Hin). cbn [fst] in E2. subst q.
      apply elem_of_concat_map in Hin as (c & Hc & Hin).
      by destruct (route_head _ c _ lf (wf_sub d t c Hw Hc) Hin) as (q' & ? & _).
  - intros [h0 E]. exists []. split; [by rewrite app_nil_r|]. unfold self_route. rewrite E. set_solver.
Qed.

(** A child stands on its own. *)
Lemma child_standing hp p d t c x :
  rep hp p t -> NoDup (addrs t) -> wf_tree d t -> child_at t x = Some c ->
  rep hp (Some (addr t)) c /\ NoDup (addrs c) /\ wf_tree (d + own (tkind c)) c.
Proof.
  intros Hr Hnd Hw Hc. assert (Hslot : exists L R, subs t = L ++ c :: R).
  { destruct t as [a k0 pre l cs pc ac]. destruct (child_slot a k0 pre l cs pc ac x c Hc) as (L & R & E & _). eauto. }
  destruct Hslot as (L & R & ES). apply rep_subs in Hr as [_ Hrs].
  rewrite ES, Forall_app, Forall_cons in Hrs. split_and!; [tauto| |destruct t; by eapply wf_child].
  rewrite addrs_subs, ES, map_app, concat_app in Hnd. apply NoDup_cons in Hnd as [_ Hnd].
  apply NoDup_app in Hnd as (_ & _ & Hnd). by apply NoDup_app in Hnd as [Hnd _].
Qed.

(** insert on a subtree: it adds the pattern, or panics if the pattern has
    handlers already. *)
Lemma insert_spec k t s :
  fits k t s -> forall hp p d h pp pn fuel,
  rep hp p t -> NoDup (addrs t) -> wf_tree d t -> handlers_ok d t s h pn -> (k = akind -> is_Some h) ->
  (length s < fuel)%nat ->
  if decide (is_Some h /\ s ∈ map fst (routes t))
  then insert_loop fuel hp (addr t) s h k pp pn = Panic
  else exists hp' t', insert_loop fuel hp (addr t) s h k pp pn = Ret hp' /\
         inserted hp hp' p d t t' s (new_route s h pp pn).
Proof.
  induction 1 as [a pre l cs pc ac c s' pre' -> Hlit Hc -> Hpre Hd|t|t x s Hc Hn Hk|t c x s Hc _ IH];
    intros hp p d h pp pn fuel Hr Hnd Hw Hh Hak Hf; (destruct fuel as [|fuel]; [lia|]); cbn [insert_loop].
  - rewrite decide_False.
    + destruct (inserted_split hp p d a l cs pc ac c pre' s' h pp pn) as (hp' & t' & E & Hi); try done.
      { intros Hs. destruct (Hh Hs) as [H1 H2]. split; [done|].
        destruct (kind_prefix _ _ Hw) as [_ Hkp]. rewrite Hkp, (wilds_literal _ Hlit) in H2. simpl in H2. lia. }
      exists hp', t'. cbn [addr]. rewrite E. by split.
    + intros [_ Hin]. rewrite routes_subs, elem_of_fst_under in Hin. destruct Hin as (q & E & _).
      cbn [tprefix] in E. rewrite <- app_assoc in E. apply app_inv_head in E. subst s'.
      by destruct pre'.
  - destruct (kind_prefix d t Hw) as [Hne _].
    pose proof (insert_at_here hp p t k h pp pn Hr Hnd Hne) as Hat.
    pose proof (prefix_in_routes d t Hw) as Hself.
    destruct h as [h|].
    + destruct (l_handlers (tleaf t)) as [h0|] eqn:Eh.
      * rewrite decide_True by (split; [done|by apply Hself]). by rewrite Hat.
      * rewrite decide_False by (intros [_ Hin]; apply Hself in Hin; by destruct Hin).
        destruct Hat as (hp' & E & Hr' & Hl & Hfr). exists hp', (with_leaf t (mkLeaf (Some h) pp pn)).
        rewrite E. split; [done|]. apply inserted_here; try done. destruct (Hh ltac:(done)). split; [done|lia].
    + rewrite decide_False by (intros [[? ?] _]; done). rewrite Hat. exists hp, t. split; [done|].
      split; try done; [by left| |lia]. apply tnodes_elem. by left.
  - destruct (new_ok_wilds k (x :: s) Hn) as [_ Hwl]. destruct (kind_prefix d t Hw) as [_ Hkp].
    rewrite decide_False.
    + destruct (inserted_new hp p d t k x s h pp pn) as (hp' & t' & E & Hi); try done.
      { intros Hs. destruct (Hh Hs) as [H1 H2]. split; [done|]. rewrite wilds_app, Hwl in H2. lia. }
      exists hp', t'. rewrite E. by split.
    + intros [_ Hin]. apply (routes_child d) in Hin as (c & Hc' & _); [|done]. congruence.
  - destruct (kind_prefix d t Hw) as [Hne Hkp].
    rewrite (insert_at_down hp p t c k x s h pp pn Hr Hne Hc). cbn [outcome_bind].
    destruct (child_standing hp p d t c x Hr Hnd Hw Hc) as (Hrc & Hndc & Hcw).
    destruct (kind_prefix _ c Hcw) as [_ Hkc].
    specialize (IH hp (Some (addr t)) (d + own (tkind c))%nat h pp pn fuel Hrc Hndc Hcw).
    specialize (IH ltac:(intros Hs; destruct (Hh Hs) as [H1 H2]; split; [done|]; rewrite wilds_app in H2; lia) Hak).
    specialize (IH ltac:(rewrite length_app in Hf; destruct (tprefix t); [done|]; cbn [length] in *; lia)).
    pose proof (routes_child d t x s Hw) as Hrt.
    destruct (decide (is_Some h /\ x :: s ∈ map fst (routes c))) as [[Hs Hin]|Hno].
    + rewrite decide_True by (split; [done|]; apply Hrt; eauto). done.
    + rewrite decide_False by (intros [Hs Hin]; apply Hno; split; [done|]; apply Hrt in Hin as (c0 & Hc0 & Hin); congruence).
      destruct IH as (hp' & c' & E & Hi). rewrite E.
      destruct (inserted_down hp hp' p d t c c' x s _ Hr Hnd Hw Hc Hi) as [t' Ht]. rewrite under_new in Ht.
      by exists hp', t'.
Qed.

(** ** The searches addRoute makes *)

Lemma literal_fits t d s :
  wf_tree d t -> tkind t = skind -> literal s -> s <> [] -> head s = head (tprefix t) -> fits skind t s.
Proof.
  revert d s. induction t as [a k pre l cs pc ac IHc _ _] using tree_deep_ind. intros d s Hw Hk Hl Hne Hhd.
  cbn [tkind tprefix] in *. subst k. destruct (lcp_spec s pre) as (c & a' & b' & -> & -> & _ & Hap).
  pose proof Hw as Hw'. apply wf_T in Hw' as ([Hpne _] & _ & _ & Hcs & _).
  assert (Hc : c <> []).
  { intros ->. rewrite !app_nil_l in *. unfold apart in Hap. destruct a', b'; try done. by injection Hhd. }
  destruct b' as [|y b']; [|by eapply fits_split].
  rewrite app_nil_r in *. destruct a' as [|x a']; [rewrite app_nil_r; apply (fits_here skind (T a skind c l cs pc ac))|].
  apply Forall_app in Hl as [_ Hl]. pose proof Hl as Hx. apply Forall_cons in Hx as [[Hx1 Hx2] _].
  destruct (child_at (T a skind c l cs pc ac) x) as [c1|] eqn:Ec.
  - apply (fits_down skind (T a skind c l cs pc ac) c1); [done|].
    cbn [child_at] in Ec. rewrite !(proj2 (Z.eqb_neq _ _)) in Ec by done.
    destruct (child_labelled cs x) as [c2|] eqn:E2; [|done]. injection Ec as ->.
    destruct (child_labelled_in _ _ _ E2) as [Hin Hlab]. rewrite Forall_forall in IHc, Hcs.
    destruct (Hcs c1 Hin) as [Hk1 Hw1]. apply (IHc c1 Hin d); try done.
    destruct (kind_prefix d c1 Hw1) as [Hp1 _]. unfold tlabel in Hlab. destruct (tprefix c1); [done|].
    cbn in *. by subst.
  - by apply (fits_new skind (T a skind c l cs pc ac)).
Qed.

Lemma tnodes_head d (t : tree) q : wf_tree d t -> q ∈ tnodes t -> exists q', q = tlabel t :: q'.
Proof.
  intros Hw Hq. destruct (kind_prefix d t Hw) as [Hp _]. unfold tlabel.
  apply tnodes_elem in Hq as [->|(c & q' & _ & _ & ->)]; destruct (tprefix t); try done; simpl; eauto.
Qed.

(** Adding to the pattern of a node that is there. *)
Lemma node_fits t d q k x :
  wf_tree d t -> q ∈ tnodes t -> anyLabel ∉ q -> new_ok k x -> fits k t (q ++ x).
Proof.
  revert d q. induction t as [a k0 pre l cs pc ac IHc IHp IHa] using tree_deep_ind. intros d q Hw Hq Hany Hn.
  set (t := T a k0 pre l cs pc ac) in *. destruct (new_ok_wilds k x Hn) as [Hx _].
  destruct x as [|y x]; [done|]. apply tnodes_elem in Hq as [->|(c & q' & Hc & Hq' & ->)].
  - destruct (child_at t y) as [c|] eqn:Ec.
    + apply (fits_down k t c); [done|]. destruct (wf_child _ _ _ _ _ _ _ d y c Hw Ec) as [Hcw Hlab].
      pose proof (wild_label _ _ Hcw) as Hwl. pose proof (static_label _ c Hcw) as Hsl.
      assert (Hpre : tkind c <> skind -> tprefix c = [y]).
      { intros Hk. destruct c as [a1 k1 pre1 l1 cs1 pc1 ac1]. apply wf_T in Hcw as (Hk1 & _).
        unfold tlabel in Hlab. cbn [tkind tprefix] in *. destruct k1; [done| |]; cbn [kind_ok] in Hk1.
        - subst. done.
        - destruct Hk1 as [-> _]. by subst y. }
      destruct k; cbn [new_ok] in Hn.
      * destruct Hn as [_ Hl]. apply (literal_fits c (d + own (tkind c))); try done.
        -- destruct (tkind c); [done|..]; apply Forall_cons in Hl as [[H1 H2] _]; congruence.
        -- destruct (kind_prefix _ c Hcw) as [Hp1 _]. unfold tlabel in Hlab. destruct (tprefix c); [done|].
           cbn in *. by subst.
      * injection Hn as -> ->. rewrite <- Hpre; [apply fits_here|]. intros Hk. by destruct (Hsl Hk).
      * injection Hn as -> ->. rewrite <- Hpre; [apply fits_here|]. intros Hk. by destruct (Hsl Hk).
    + apply (fits_new k t); try done. intros Hk. apply Hany. subst t. cbn [tkind tprefix] in *. subst k0.
      apply wf_T in Hw as ((-> & _) & _). set_solver.
  - destruct (tnodes_head _ c q' (wf_sub d t c Hw Hc) Hq') as [q1 Eq].
    rewrite <- app_assoc, Eq. cbn [app]. apply (fits_down k t c); [by apply (child_at_self d)|].
    change (tlabel c :: q1 ++ y :: x) with ((tlabel c :: q1) ++ y :: x). rewrite <- Eq.
    assert (Hany' : anyLabel ∉ q') by set_solver.
    pose proof (wf_sub d t c Hw Hc) as Hcw. cbn [t subs] in Hc. rewrite !elem_of_app in Hc.
    destruct Hc as [Hc|[Hc|Hc]].
    + rewrite Forall_forall in IHc. by eapply IHc.
    + destruct pc as [c0|]; [|by apply not_elem_of_nil in Hc]. apply list_elem_of_singleton in Hc as ->.
      by eapply IHp.
    + destruct ac as [c0|]; [|by apply not_elem_of_nil in Hc]. apply list_elem_of_singleton in Hc as ->.
      by eapply IHa.
Qed.
End Insert.
