(* ===== verification/RouterAdd.v ===== *)
(** * The router

    [addRoute] adds one pattern to the routes of a tree; with the search this
    gives the promise of [web/router/tree.go]: requests go to the first of the
    registered routes that match. *)

From S2P Require Import Prelude Bytes Router RouterFind RouterSpec RouterInsert.

(** ** Patterns of paths *)

(** The path with the names of its parameters cut out; [skip] is set inside a
    name. *)
Fixpoint pattern (skip : bool) (s : bytes) : bytes :=
  match s with
  | [] => []
  | c :: s =>
      if skip && negb (c =? slash) then pattern true s
      else if c =? paramLabel then paramLabel :: pattern true s
      else if c =? anyLabel then [anyLabel]
      else c :: pattern false s
  end.

(** The names; [cur] is the one being read. *)
Fixpoint names (cur : option bytes) (s : bytes) : list bytes :=
  match s, cur with
  | [], Some n => [n]
  | [], None => []
  | c :: s, Some n => if c =? slash then n :: names None s else names (Some (n ++ [c])) s
  | c :: s, None =>
      if c =? paramLabel then names (Some []) s
      else if c =? anyLabel then [s]
      else names None s
  end.

Lemma to_slash_cases s : snd (to_slash s) = [] \/ exists s', snd (to_slash s) = slash :: s'.
Proof.
  induction s as [|c s IH]; [by left|]. cbn [to_slash]. destruct (c =? slash) eqn:E; breflect.
  - subst. right. by exists s.
  - by destruct (to_slash s).
Qed.

Lemma pattern_skip s : pattern true s = pattern false (snd (to_slash s)).
Proof.
  induction s as [|c s IH]; [done|]. cbn [pattern to_slash]. destruct (c =? slash) eqn:E; cbn [andb negb].
  - done.
  - rewrite IH. by destruct (to_slash s).
Qed.

Lemma names_cur n s : names (Some n) s = (n ++ fst (to_slash s)) :: names None (snd (to_slash s)).
Proof.
  revert n. induction s as [|c s IH]; intros n; cbn [names to_slash]; [by rewrite app_nil_r|].
  destruct (c =? slash) eqn:E; breflect.
  - subst. cbn [fst snd]. rewrite app_nil_r. done.
  - rewrite IH. destruct (to_slash s) as [u v]. cbn [fst snd]. by rewrite <- app_assoc.
Qed.

Section Add.
Context {H : Type}.
(** How many parameters a path has at most. *)
Variable cap : nat.

(** The heap is a route tree of paths that begin with a slash. *)
Definition rooted (hp : list (node H)) (t : @tree H) : Prop :=
  rep hp None t /\ addr t = 0%nat /\ tkind t = skind /\ NoDup (addrs t) /\ wf_tree 0 t /\ tlabel t = slash /\
  (tdepth t <= cap)%nat.

Lemma insert_rooted hp t k s h pp pn :
  rooted hp t -> fits k t s -> (is_Some h -> h <> Some [] /\ length pn = wilds s) -> (k = akind -> is_Some h) ->
  (wilds s <= cap)%nat ->
  if decide (is_Some h /\ s ∈ map fst (routes t)) then insert hp s h k pp pn = Panic
  else exists hp' t', insert hp s h k pp pn = Ret hp' /\ rooted hp' t' /\
         routes t' ≡ₚ new_route s h pp pn ++ routes t /\ s ∈ tnodes t'.
Proof.
  intros (Hr & Ha & Hk & Hnd & Hw & Hl & Hd) Hf Hh Hak Hcap. unfold insert.
  assert (Hok : handlers_ok 0 t s h pn).
  { intros Hs. destruct (Hh Hs) as [H1 H2]. split; [done|]. destruct (kind_prefix 0 t Hw) as [_ E].
    rewrite Hk in E. cbn [own] in E. lia. }
  pose proof (insert_spec k t s Hf hp None 0 h pp pn (S (length s)) Hr Hnd Hw Hok Hak ltac:(lia)) as Hi.
  rewrite Ha in Hi. destruct (decide _); [done|]. destruct Hi as (hp' & t' & E & Hi). exists hp', t'.
  split; [done|]. destruct Hi. split; [|done]. split_and!; congruence || lia || done.
Qed.

(** The first route of an empty router. *)
Lemma insert_first s h pp pn :
  literal (slash :: s) -> (is_Some h -> h <> Some [] /\ length pn = 0%nat) ->
  exists hp' t', insert [zero_node] (slash :: s) h skind pp pn = Ret hp' /\ rooted hp' t' /\
    routes t' ≡ₚ new_route (slash :: s) h pp pn /\ slash :: s ∈ tnodes t'.
Proof.
  intros Hl Hh. unfold insert. cbn [length insert_loop insert_at lookup list_lookup deref outcome_bind prefix zero_node lcp].
  rewrite bool_decide_true by done. cbn [head deref outcome_bind].
  set (l := match h with Some _ => mkLeaf h pp pn | None => mkLeaf None [] [] end).
  exists [mkNode skind slash (slash :: s) None [] (l_ppath l) (l_pnames l) h None None true],
    (T 0 skind (slash :: s) l [] None None).
  assert (Hlh : l_handlers l = h) by (subst l; by destruct h).
  split; [subst l; by destruct h|]. split; [|split].
  1: split_and!.
  - apply rep_T. split; [|by split]. exists true. by rewrite Hlh.
  - done.
  - done.
  - cbn. apply NoDup_singleton.
  - apply wf_T. split_and!; try done; [subst l; destruct h; [by apply leaf_ok_new|apply leaf_ok_None]|constructor].
  - done.
  - vm_compute. lia.
  - cbn [routes map concat]. rewrite !app_nil_r. unfold new_route, self_route. rewrite Hlh. subst l.
    cbn [l_handlers]. destruct h; [|done]. cbn. by rewrite app_nil_r.
  - apply tnodes_elem. by left.
Qed.

(** What addRoute knows when it has read [pre]: it ends in literal octets behind
    a node that is there, or is all literal. *)
Definition reached (hp : list (node H)) (rs : list (bytes * @leaf H)) (pre : bytes) : Prop :=
  (hp = [zero_node] /\ rs = [] /\ literal pre) \/
  exists t q lit, rooted hp t /\ routes t ≡ₚ rs /\ pre = q ++ lit /\ literal lit /\ lit <> [] /\
    (q = [] \/ q ∈ tnodes t).

(** A static insertion at such a point. *)
Lemma insert_static hp rs s h pp pn :
  reached hp rs (slash :: s) -> anyLabel ∉ s ->
  (is_Some h -> h <> Some [] /\ length pn = wilds (slash :: s)) -> (wilds (slash :: s) <= cap)%nat ->
  if decide (is_Some h /\ slash :: s ∈ map fst rs) then insert hp (slash :: s) h skind pp pn = Panic
  else exists hp' t', insert hp (slash :: s) h skind pp pn = Ret hp' /\ rooted hp' t' /\
         routes t' ≡ₚ new_route (slash :: s) h pp pn ++ rs /\ slash :: s ∈ tnodes t'.
Proof.
  intros [(-> & -> & Hl)|(t & q & lit & Hr & Hrs & Eq & Hl & Hne & Hq)] Hany Hh Hcap.
  - rewrite decide_False by (intros [_ Hin]; by apply not_elem_of_nil in Hin). rewrite (wilds_literal _ Hl) in Hh.
    destruct (insert_first s h pp pn Hl Hh) as (hp' & t' & E & Hr & Hp & Hin). exists hp', t'. by rewrite app_nil_r.
  - pose proof Hr as (_ & _ & Hk & _ & Hw & Hlab & _).
    assert (Hf : fits skind t (slash :: s)).
    { rewrite Eq. destruct Hq as [->|Hq].
      - apply (literal_fits t 0); try done. destruct (kind_prefix 0 t Hw) as [Hp _]. unfold tlabel in Hlab.
        rewrite <- Eq. destruct (tprefix t) as [|x pr]; [done|]. cbn in Hlab |- *. by rewrite Hlab. 
      - apply (node_fits t 0); try done. assert (Hx : anyLabel ∉ slash :: s).
        { intros [E|Hin]%elem_of_cons; [done|by apply Hany]. }
        rewrite Eq in Hx. set_solver. }
    pose proof (insert_rooted hp t skind (slash :: s) h pp pn Hr Hf Hh ltac:(done) Hcap) as Hi.
    assert (Hiff : slash :: s ∈ map fst (routes t) <-> slash :: s ∈ map fst rs) by (by rewrite Hrs).
    destruct (decide (is_Some h /\ slash :: s ∈ map fst (routes t))) as [[H1 H2]|Hno].
    + rewrite decide_True by tauto. done.
    + rewrite decide_False by tauto. destruct Hi as (hp' & t' & E & Hr' & Hp & Hin).
      exists hp', t'. by rewrite <- Hrs.
Qed.

Lemma new_route_Some s (h : list H) pp pn : new_route s (Some h) pp pn = [(s, mkLeaf (Some h) pp pn)].
Proof. done. Qed.

Lemma new_route_None s pp pn : @new_route H s None pp pn = [].
Proof. done. Qed.

Lemma wilds_cons c s : wilds (c :: s) = (wilds [c] + wilds s)%nat.
Proof. change (c :: s) with ([c] ++ s). apply wilds_app. Qed.

(** A wildcard below a node that is there. *)
Lemma insert_wild hp t s k c h pp pn :
  rooted hp t -> slash :: s ∈ tnodes t -> anyLabel ∉ s -> new_ok k [c] -> (k = akind -> is_Some h) ->
  (is_Some h -> h <> Some [] /\ length pn = wilds (slash :: s ++ [c])) -> (wilds (slash :: s ++ [c]) <= cap)%nat ->
  if decide (is_Some h /\ slash :: s ++ [c] ∈ map fst (routes t))
  then insert hp (slash :: s ++ [c]) h k pp pn = Panic
  else exists hp' t', insert hp (slash :: s ++ [c]) h k pp pn = Ret hp' /\ rooted hp' t' /\
         routes t' ≡ₚ new_route (slash :: s ++ [c]) h pp pn ++ routes t /\ slash :: s ++ [c] ∈ tnodes t'.
Proof.
  intros Hr Hin Hany Hn Hak Hh Hcap. apply insert_rooted; try done.
  change (slash :: s ++ [c]) with ((slash :: s) ++ [c]). pose proof Hr as (_ & _ & _ & _ & Hw & _ & _).
  apply (node_fits t 0); try done. intros [E|Hx]%elem_of_cons; [done|by apply Hany].
Qed.

(** The outcome of registering the pattern of a path beside the routes [rs]. *)
Definition adds (o : outcome (list (node H))) (pat : bytes) (l : @leaf H) (rs : list (bytes * @leaf H)) : Prop :=
  (pat ∈ map fst rs /\ o = Panic) \/
  (pat ∉ map fst rs /\ exists hp' t', o = Ret hp' /\ rooted hp' t' /\ routes t' ≡ₚ ((pat, l) :: rs)).

(** An insertion with handlers does just that. *)
Lemma adds_of_insert o s h pp pn rs :
  (if decide (is_Some (Some h) /\ s ∈ map fst rs) then o = Panic
   else exists hp' t', o = Ret hp' /\ rooted hp' t' /\ routes t' ≡ₚ new_route s (Some h) pp pn ++ rs /\ s ∈ tnodes t') ->
  adds o s (mkLeaf (Some h) pp pn) rs.
Proof.
  case_decide as E; intros Ho; [left|right]; [tauto|]. split; [by intros ?; apply E|].
  destruct Ho as (hp' & t' & Ho & Hr & Hp & _). by exists hp', t'.
Qed.

Lemma adds_perm o s l rs rs' : rs ≡ₚ rs' -> adds o s l rs -> adds o s l rs'.
Proof.
  intros Hp [[Hin Ho]|(Hin & hp' & t' & Ho & Hr & Hrs)].
  - left. by rewrite <- Hp.
  - right. rewrite <- Hp. split; [done|]. exists hp', t'. by rewrite <- Hp.
Qed.

(** Reading a literal octet. *)
Lemma reached_literal hp rs pre c :
  reached hp rs pre -> c <> paramLabel -> c <> anyLabel -> reached hp rs (pre ++ [c]).
Proof.
  assert (Hone : forall l, literal l -> c <> paramLabel -> c <> anyLabel -> literal (l ++ [c])).
  { intros l Hl H1 H2. apply Forall_app. split; [done|]. by repeat constructor. }
  intros [(-> & -> & Hl)|(t & q & lit & Hr & Hrs & -> & Hl & Hne & Hq)] H1 H2; [left|right].
  - split_and!; auto.
  - exists t, q, (lit ++ [c]). split_and!; auto; [by rewrite app_assoc|by destruct lit].
Qed.

(** The static part in front of a wildcard. *)
Lemma insert_stem hp rs pre :
  reached hp rs (slash :: pre) -> anyLabel ∉ pre -> (wilds (slash :: pre) <= cap)%nat ->
  exists hp' t', insert hp (slash :: pre) None skind [] [] = Ret hp' /\ rooted hp' t' /\
    routes t' ≡ₚ rs /\ slash :: pre ∈ tnodes t'.
Proof.
  intros Hre Hany Hcap. pose proof (insert_static hp rs pre None [] [] Hre Hany ltac:(by intros []) Hcap) as Hi.
  by rewrite decide_False in Hi by (by intros [[] _]).
Qed.

(** A path that ends with a wildcard. *)
Lemma insert_last hp t rs pre k c h pp pn :
  rooted hp t -> routes t ≡ₚ rs -> slash :: pre ∈ tnodes t -> anyLabel ∉ pre -> new_ok k [c] -> h <> [] ->
  length pn = wilds (slash :: pre ++ [c]) -> (wilds (slash :: pre ++ [c]) <= cap)%nat ->
  adds (insert hp (slash :: pre ++ [c]) (Some h) k pp pn) (slash :: pre ++ [c]) (mkLeaf (Some h) pp pn) rs.
Proof.
  intros Hr Hp Hin Hany Hk Hh Hpn Hcap. eapply adds_perm; [exact Hp|]. apply adds_of_insert.
  apply insert_wild; try done. intros _. split; [congruence|done].
Qed.

(** A parameter with more of the path behind it. *)
Lemma insert_inner hp t rs pre pn :
  rooted hp t -> routes t ≡ₚ rs -> slash :: pre ∈ tnodes t -> anyLabel ∉ pre ->
  (wilds (slash :: pre ++ [paramLabel]) <= cap)%nat ->
  exists hp', insert hp (slash :: pre ++ [paramLabel]) None pkind [] pn = Ret hp' /\
    reached hp' rs (slash :: (pre ++ [paramLabel]) ++ [slash]).
Proof.
  intros Hr Hp Hin Hany Hcap.
  pose proof (insert_wild hp t pre pkind paramLabel None [] pn Hr Hin Hany eq_refl ltac:(done)
    ltac:(by intros []) Hcap) as Hi.
  rewrite decide_False in Hi by (by intros [[] _]). destruct Hi as (hp2 & t2 & E2 & Hr2 & Hp2 & Hin2).
  exists hp2. split; [done|]. right. exists t2, (slash :: pre ++ [paramLabel]), [slash].
  split_and!; try done; [by rewrite Hp2, <- Hp|by repeat constructor|by right].
Qed.

Lemma wilds_snoc pre c : wilds (slash :: pre ++ [c]) = (wilds (slash :: pre) + wilds [c])%nat.
Proof. change (slash :: pre ++ [c]) with ((slash :: pre) ++ [c]). apply wilds_app. Qed.

Lemma anyLabel_snoc pre c : anyLabel ∉ pre -> c <> anyLabel -> anyLabel ∉ pre ++ [c].
Proof. intros Hp Hc [Hx|Hx%list_elem_of_singleton]%elem_of_app; [done|by apply Hc]. Qed.

(** The loop of addRoute adds the pattern of the path, or panics if it is there. *)
Lemma addRoute_loop_spec fuel hp rs pre rest h pp pn :
  reached hp rs (slash :: pre) -> anyLabel ∉ pre -> h <> [] -> length pn = wilds (slash :: pre) ->
  (length rest < fuel)%nat -> (wilds (slash :: pre ++ pattern false rest) <= cap)%nat ->
  adds (addRoute_loop fuel hp (slash :: pre) rest (Some h) pp pn) (slash :: pre ++ pattern false rest)
    (mkLeaf (Some h) pp (pn ++ names None rest)) rs.
Proof.
  revert hp pre rest pn. induction fuel as [|fuel IH]; [lia|].
  intros hp pre rest pn Hre Hany Hh Hpn Hf Hcap. cbn [addRoute_loop]. destruct rest as [|c rest].
  { cbn [pattern names] in *. rewrite !app_nil_r in *. apply adds_of_insert, insert_static; try done. by intros _; split; [congruence|]. }
  cbn [pattern names andb] in *. rewrite (app_comm_cons pre), wilds_app in Hcap.
  destruct (insert_stem hp rs pre Hre Hany ltac:(lia)) as (hp1 & t1 & E1 & Hr1 & Hp1 & Hin1).
  rewrite E1. cbn [outcome_bind]. change ((slash :: pre) ++ [?x]) with (slash :: pre ++ [x]).
  destruct (c =? paramLabel) eqn:Ec; [|destruct (c =? anyLabel) eqn:Ea].
  - rewrite pattern_skip in *. rewrite (wilds_cons paramLabel) in Hcap. change (wilds [paramLabel]) with 1%nat in Hcap.
    assert (Hc1 : (wilds (slash :: pre ++ [paramLabel]) <= cap)%nat)
      by (rewrite wilds_snoc; change (wilds [paramLabel]) with 1%nat; lia).
    rewrite names_cur, app_nil_l. pose proof (to_slash_app rest) as Happ.
    destruct (to_slash_cases rest) as [Et|[rest' Et]]; destruct (to_slash rest) as [name rest1]; cbn [fst snd] in *;
      subst rest1.
    + cbn [pattern names]. eapply insert_last; try done. rewrite length_app, wilds_snoc, Hpn. done.
    + destruct (insert_inner hp1 t1 rs pre (pn ++ [name]) Hr1 Hp1 Hin1 Hany Hc1) as (hp2 & E2 & Hre2).
      change ((slash :: pre) ++ [paramLabel]) with (slash :: pre ++ [paramLabel]). rewrite E2. cbn [outcome_bind].
      specialize (IH hp2 ((pre ++ [paramLabel]) ++ [slash]) rest' (pn ++ [name])).
      replace (pre ++ paramLabel :: pattern false (slash :: rest'))
        with (((pre ++ [paramLabel]) ++ [slash]) ++ pattern false rest') by (by rewrite <- !app_assoc).
      replace (pn ++ name :: names None (slash :: rest')) with ((pn ++ [name]) ++ names None rest')
        by (by rewrite <- app_assoc).
      apply IH; try done.
      * by apply anyLabel_snoc; [apply anyLabel_snoc|].
      * rewrite length_app, !wilds_snoc, Hpn. done.
      * apply (f_equal length) in Happ. rewrite length_app in Happ. cbn [length] in *. lia.
      * rewrite (app_comm_cons ((pre ++ [paramLabel]) ++ [slash])), wilds_app, !wilds_snoc.
        change (wilds [paramLabel]) with 1%nat.
        change (wilds (pattern false (slash :: rest'))) with (wilds (pattern false rest')) in Hcap.
        change (wilds [slash]) with 0%nat. lia.
  - eapply insert_last; try done; [rewrite length_app|]; rewrite wilds_snoc, ?Hpn; done.
  - breflect. replace (pre ++ c :: pattern false rest) with ((pre ++ [c]) ++ pattern false rest) by (by rewrite <- app_assoc).
    change ((slash :: pre) ++ [c]) with (slash :: pre ++ [c]).
    assert (Hc0 : wilds [c] = 0%nat) by (apply wilds_literal; by repeat constructor).
    apply IH; try done.
    + by apply (reached_literal hp rs (slash :: pre)).
    + by apply anyLabel_snoc.
    + rewrite wilds_snoc, Hpn. lia.
    + cbn [length] in Hf. lia.
    + rewrite app_comm_cons, wilds_app, wilds_snoc. rewrite (wilds_cons c) in Hcap. lia.
Qed.

(** ** Registering a list of routes *)

(** The route that a path and its handlers make. *)
Definition route_of (x : bytes * list H) : bytes * @leaf H :=
  (pattern false (fst x), mkLeaf (Some (snd x)) (fst x) (names None (fst x))).

(** [r] is a router with the routes [rs]. *)
Definition serves (r : router H) (rs : list (bytes * @leaf H)) : Prop :=
  (nodes r = [zero_node] /\ rs = []) \/ exists t, rooted (nodes r) t /\ routes t ≡ₚ rs.

Lemma valid_head path : checkPathValid path = true -> exists rest, path = slash :: rest.
Proof.
  destruct path as [|c rest]; [done|]. cbn [checkPathValid]. intros [E _]%andb_prop. breflect. subst. by exists rest.
Qed.

Lemma addRoute_serves r rs path h :
  serves r rs -> checkPathValid path = true -> h <> [] -> (wilds (pattern false path) <= cap)%nat ->
  (pattern false path ∈ map fst rs /\ addRoute r path (Some h) = Panic) \/
  (pattern false path ∉ map fst rs /\
   exists r', addRoute r path (Some h) = Ret r' /\ serves r' (route_of (path, h) :: rs)).
Proof.
  intros Hs Hv Hh Hcap. unfold addRoute. rewrite Hv. destruct (valid_head path Hv) as [rest ->].
  assert (Hre : reached (nodes r) rs [slash]).
  { destruct Hs as [[E ->]|(t & Hr & Hp)]; [left; split_and!; [done|done|by repeat constructor]|].
    right. exists t, [], [slash]. split_and!; try done; [by repeat constructor|by left]. }
  pose proof (addRoute_loop_spec (S (length rest)) (nodes r) rs [] rest h (slash :: rest) [] Hre
    (not_elem_of_nil _) Hh eq_refl ltac:(lia) Hcap) as Ha.
  change (addRoute_loop (S (length (slash :: rest))) (nodes r) [] (slash :: rest) (Some h) (slash :: rest) [])
    with (addRoute_loop (S (length rest)) (nodes r) [slash] rest (Some h) (slash :: rest) []).
  destruct Ha as [[Hin ->]|(Hin & hp' & t' & -> & Hr & Hp)]; [by left|right]. split; [done|].
  eexists. split; [done|]. right. by exists t'.
Qed.

Fixpoint add_all (r : router H) (l : list (bytes * list H)) : outcome (router H) :=
  match l with
  | [] => Ret r
  | (path, h) :: l => run r <- addRoute r path (Some h); add_all r l
  end.

(** A path that can be registered. *)
Definition registrable (x : bytes * list H) : Prop :=
  checkPathValid (fst x) = true /\ snd x <> [] /\ (length (names None (fst x)) <= cap)%nat.

Lemma wilds_pattern s :
  length (names None s) = wilds (pattern false s) /\
  forall n, length (names (Some n) s) = S (wilds (pattern true s)).
Proof.
  induction s as [|c s [IH1 IH2]]; [done|]. cbn [names pattern andb]. split.
  - destruct (c =? paramLabel) eqn:Ep; [rewrite IH2; done|]. destruct (c =? anyLabel) eqn:Ea; [done|].
    breflect. rewrite wilds_cons, (wilds_literal [c]); [done|by repeat constructor].
  - intros n. destruct (c =? slash) eqn:Es; cbn [negb]; [|by rewrite IH2]. breflect. subst. cbn [length].
    rewrite IH1. done.
Qed.

Lemma add_all_serves l : forall r rs,
  serves r rs -> Forall registrable l -> NoDup (map (pattern false ∘ fst) l ++ map fst rs) ->
  exists r', add_all r l = Ret r' /\ serves r' (rev (map route_of l) ++ rs).
Proof.
  induction l as [|[path h] l IH]; intros r rs Hs Hl Hnd; [by exists r|].
  apply Forall_cons in Hl as [(Hv & Hh & Hc) Hl]. cbn [fst snd] in *. rewrite (proj1 (wilds_pattern path)) in Hc.
  cbn [map app] in Hnd. apply NoDup_cons in Hnd as [Hni Hnd]. rewrite elem_of_app in Hni. cbn [compose fst] in Hni.
  destruct (addRoute_serves r rs path h Hs Hv Hh Hc) as [[Hin _]|(_ & r1 & E & Hs1)]; [exfalso; apply Hni; by right|].
  cbn [add_all]. rewrite E. cbn [outcome_bind]. destruct (IH r1 (route_of (path, h) :: rs) Hs1 Hl) as (r' & E' & Hs').
  - cbn [map]. rewrite <- Permutation_middle. constructor; [rewrite elem_of_app; exact Hni|done].
  - exists r'. split; [done|]. cbn [map rev]. by rewrite <- app_assoc.
Qed.

(** What a lookup of [path] among the registered [l] is to give. *)
Definition routed (l : list (bytes * list H)) (path : bytes) (v : @nodeValue H) (got : list Param) : Prop :=
  (exists p h vs, (p, h) ∈ l /\ pmatch (pattern false p) path = Some vs /\
     v_handlers v = Some h /\ fullPath v = p /\ got = zip_with mkParam (names None p) vs /\
     forall q h', (q, h') ∈ l -> is_Some (pmatch (pattern false q) path) ->
       pattern false q = pattern false p \/ precedes (pattern false p) (pattern false q) = true) \/
  ((forall q h', (q, h') ∈ l -> pmatch (pattern false q) path = None) /\
   v_handlers v = None /\ fullPath v = [] /\ got = []).

Lemma best_perm (rs rs' : list (bytes * @leaf H)) s r : rs ≡ₚ rs' -> best rs s r -> best rs' s r.
Proof.
  intros Hp. destruct r as [[l vs]|]; cbn [best]; [|intros Hb q l Hq; rewrite <- Hp in Hq; by eapply Hb].
  intros (p & Hin & Hm & Hb). exists p. rewrite <- Hp. split_and!; try done. intros q l'. rewrite <- Hp. apply Hb.
Qed.

Lemma find_serves r l path ps :
  serves r (rev (map route_of l)) -> l <> [] -> holds cap ps [] ->
  exists ps' v, find r path ps false = Ret (ps', v) /\ routed l path v (visible ps').
Proof.
  intros [[_ E]|(t & Hr & Hp)] Hne Hps.
  { exfalso. apply (f_equal (@rev _)) in E. rewrite rev_involutive in E. by destruct l. }
  destruct Hr as (Hrep & Ha & Hk & Hnd & Hw & _ & Hd).
  destruct (find_dfs r t path cap ps) as (ps' & b & Hf); [by split_and!|done|done|].
  assert (Hb : best (map route_of l) path (answer (dfs t path))).
  { eapply best_perm; [|by eapply dfs_best]. rewrite Hp. symmetry. apply Permutation_rev. }
  assert (Hl : forall q h, (q, h) ∈ l -> route_of (q, h) ∈ map route_of l)
    by (intros; by apply list_elem_of_fmap_2).
  exists ps'. destruct (dfs t path) as [[t' ws]|]; cbn [answer] in Hb.
  - destruct Hf as [Hf Hvis]. eexists. split; [exact Hf|]. left. destruct Hb as (p & Hin & Hm & Hb).
    apply list_elem_of_fmap in Hin as ([p0 h] & E & Hin). unfold route_of in E. cbn [fst snd] in E.
    injection E as -> E. exists p0, h, ws. rewrite Hvis, E. split_and!; try done.
    intros q h' Hq Hqm. by eapply (Hb (pattern false q)), Hqm; eapply Hl.
  - destruct Hf as [Hf Hvis]. eexists. split; [exact Hf|]. right. split_and!; try done.
    intros q h' Hq. by eapply (Hb (pattern false q)), Hl.
Qed.
End Add.

(** C3: a method's router finds the right route.  Any list of paths that are valid,
    have handlers, at most [cap] parameters and patterns that are all different is
    registered without a panic; then a lookup of any path, with an empty parameter
    slice of capacity [cap], returns the handlers and the full path of the first of
    the matching routes (static before parameter before catch-all at the first
    difference) with its parameters, names and values in order, and no handlers and
    no parameters if no route matches. *)
Theorem router_finds {H} m cap (l : list (bytes * list H)) :
  l <> [] -> Forall (registrable cap) l -> NoDup (map (pattern false ∘ fst) l) ->
  exists r, add_all (new_router m) l = Ret r /\
  forall path ps, plen ps = 0%nat -> length (backing ps) = cap ->
  exists ps' v, find r path ps false = Ret (ps', v) /\ routed l path v (visible ps').
Proof.
  intros Hne Hl Hnd. destruct (add_all_serves cap l (new_router m) []) as (r & E & Hs); [by left|done|by rewrite app_nil_r|].
  exists r. split; [done|]. rewrite app_nil_r in Hs. intros path ps Hps Hcap. apply (find_serves cap r l); try done.
  split_and!; try done. unfold visible. by rewrite Hps.
Qed.

(** What the router refuses: besides invalid paths and missing handlers, exactly
    the paths whose pattern is registered already, whatever their parameters are
    called. *)
Theorem addRoute_rejects {H} m cap (l : list (bytes * list H)) r path h :
  Forall (registrable cap) l -> NoDup (map (pattern false ∘ fst) l) -> add_all (new_router m) l = Ret r ->
  (length (names None path) <= cap)%nat -> h <> Some [] ->
  addRoute r path h = Panic <->
  checkPathValid path = false \/ h = None \/ pattern false path ∈ map (pattern false ∘ fst) l.
Proof.
  intros Hl Hnd E Hc Hh. destruct (add_all_serves cap l (new_router m) []) as (r0 & E0 & Hs); [by left|done|by rewrite app_nil_r|].
  rewrite E in E0. injection E0 as <-. rewrite app_nil_r in Hs.
  assert (Hpat : pattern false path ∈ map fst (rev (map (route_of (H := H)) l)) <-> pattern false path ∈ map (pattern false ∘ fst) l).
  { rewrite map_rev, <- Permutation_rev, map_map. done. }
  destruct (checkPathValid path) eqn:Ev; [|unfold addRoute; rewrite Ev; tauto].
  destruct h as [h|]; [|unfold addRoute; rewrite Ev; tauto].
  rewrite (proj1 (wilds_pattern path)) in Hc.
  destruct (addRoute_serves cap r _ path h Hs Ev ltac:(congruence) Hc) as [[Hin ->]|(Hin & r' & -> & _)]; [tauto|].
  split; [done|]. naive_solver.
Qed.

(** ** Witnesses, and what the promise leaves out *)

Definition sample : list (bytes * list nat) :=
  [(str "/users/new", [1%nat]); (str "/users/:id", [2%nat]); (str "/users/:uid/posts", [3%nat]);
   (str "/static/*file", [4%nat])].

Definition fresh (n : nat) : Params := mkParams (replicate n (mkParam [] [])) 0.

Ltac registrable_sample :=
  unfold sample; repeat (apply Forall_cons_2; [split; [reflexivity|split; [discriminate|vm_compute; lia]]|]); apply Forall_nil_2.

Lemma sample_distinct : NoDup (map (pattern false ∘ fst) sample).
Proof. apply (bool_decide_unpack _). vm_compute. exact I. Qed.

Lemma router_finds_witness :
  exists r, add_all (new_router (str "GET")) sample = Ret r /\
  exists ps' v, find r (str "/users/17/posts") (fresh 10) false = Ret (ps', v) /\
    routed sample (str "/users/17/posts") v (visible ps').
Proof.
  destruct (router_finds (str "GET") 10 sample) as (r & E & Hr).
  - discriminate.
  - registrable_sample.
  - exact sample_distinct.
  - exists r. split; [exact E|]. apply (Hr (str "/users/17/posts") (fresh 10)); reflexivity.
Defined.

Lemma addRoute_rejects_witness :
  exists r, add_all (new_router (str "GET")) sample = Ret r /\ addRoute r (str "/users/:name") (Some [5%nat]) = Panic.
Proof.
  eexists. split; [vm_compute; reflexivity|].
  apply (addRoute_rejects (str "GET") 10 sample).
  - registrable_sample.
  - exact sample_distinct.
  - vm_compute. reflexivity.
  - vm_compute. lia.
  - discriminate.
  - right. right. apply (bool_decide_unpack _). vm_compute. exact I.
Defined.

(** The sample, run: the parameter route is found after the search has gone down
    the static child "new" and come back. *)
Example sample_run :
  (run r <- add_all (new_router (str "GET")) sample;
   run (ps, v) <- find r (str "/users/nel/posts") (fresh 10) false;
   Ret (visible ps, v_handlers v, fullPath v)) =
  Ret ([mkParam (str "uid") (str "nel")], Some [3%nat], str "/users/:uid/posts").
Proof. vm_compute. reflexivity. Qed.

(** A path with more parameters than the slice has room for panics the lookup;
    netpoll.go makes the slice with room for ten whatever is registered. *)
Theorem find_beyond_capacity :
  (run r <- addRoute (new_router (str "GET")) (str "/:a/:b") (Some [1%nat]);
   find r (str "/x/y") (fresh 1) false) = Panic.
Proof. vm_compute. reflexivity. Qed.

(** With [unescape] the search goes back by the length of the decoded value, not by
    that of the text it came from: here "/%41%41/b" is routed to "/*rest" with only
    the tail "41/b" of the rest. *)
Theorem unescape_backtracks_wrongly :
  (run r <- add_all (new_router (str "GET")) [(str "/:a/c", [1%nat]); (str "/*rest", [2%nat])];
   run (ps, v) <- find r (str "/%41%41/b") (fresh 10) true;
   Ret (visible ps, v_handlers v)) =
  Ret ([mkParam (str "rest") (str "41/b")], Some [2%nat]).
Proof. vm_compute. reflexivity. Qed.

(** The lookup recommends a redirect to a path that no route matches: "/zz/" is not
    registered, "/:x/new/z" is. *)
Theorem tsr_without_route :
  (run r <- addRoute (new_router (str "GET")) (str "/:x/new/z") (Some [1%nat]);
   run (ps, v) <- find r (str "/zz") (fresh 10) false;
   run (ps', v') <- find r (str "/zz/") (fresh 10) false;
   Ret (v_handlers v, tsr v, v_handlers v')) = Ret (None, true, None).
Proof. vm_compute. reflexivity. Qed.
