(* ===== verification/Cluster.v ===== *)
(** * The cluster's election

    [cluster/cluster.go], [grpc_server.go] and [node.go] in cluster mode: the state
    of a node, its locked sections, the handlers of the calls other nodes make, and
    the election goroutine cut at the points where it waits or where others can come
    in between: each check of [IsReady], load and store of the term and broadcast is a
    step of its own, a handler is one step.  A system is a map of nodes; its actions are
    the scheduler's choices: who runs, which call is served, answered or lost, which
    answers are waited for.

    Connections are not modelled: [Alive] replaces the set of reachable nodes by any
    other.  A leader may step down at any time ([StepDown]), where the heartbeat loop
    does so after three rounds without a quorum.  Not modelled are the modes without
    votes (single, redis), the change of the number of replicas, logging and metrics. *)

From S2P Require Import Prelude Bytes.

Abbreviation name := string.

(** ** A node's heartbeat (node.go) *)

Record Node := mkNode {
  nd_heartbeat : option Z;
  lastHeartbeatOk : bool;
  heartbeatFailures : Z
}.

Definition newNode : Node := mkNode None true 0.
Definition clean (n : Node) : Node := mkNode None false 0.
Definition updateHeartbeat (n : Node) (now : Z) : Node := mkNode (Some now) true 0.
Definition updateHeartbeatFailed (n : Node) : Node :=
  mkNode (nd_heartbeat n) false (if heartbeatFailures n <? 10 then heartbeatFailures n + 1 else heartbeatFailures n).
Definition resetHeartbeatOnLeaderChange (n : Node) : Node := mkNode (nd_heartbeat n) true 0.
Definition isHeartbeatZero (n : Node) : bool := match nd_heartbeat n with None => true | Some _ => false end.
Definition getHealthScore (n : Node) : Z :=
  if isHeartbeatZero n then 0
  else if heartbeatFailures n >? 3 then Z.max 0 (100 - heartbeatFailures n * 20)
  else if negb (lastHeartbeatOk n) then 50
  else 100.

(** Without a heartbeat the time is that of the year 1, long ago. *)
Definition node_isReady (n : Node) (timeout now : Z) : bool :=
  match nd_heartbeat n with Some t => t + timeout >? now | None => false end.

(** ** The state of a node (cluster.go) *)

Inductive status : Type := init_ | follower | candidate | leader | closed.

#[export] Instance status_eq_dec : EqDecision status.
Proof. solve_decision. Defined.

Inductive eventName : Type :=
| StartUp | SignMaster | SignFollower | UnsignMaster | UnsignFollower | ElectionStart | ElectionFinish | CloseEvent.

#[export] Instance eventName_eq_dec : EqDecision eventName.
Proof. solve_decision. Defined.

(** What the consumer of events gets; the name of the node is left out. *)
Record event := mkEvent { ev_name : eventName; ev_sate : status; ev_leader : name }.

#[export] Instance event_eq_dec : EqDecision event.
Proof. solve_decision. Defined.

Record Cluster := mkCluster {
  me : name;
  allNode : list name;
  timeout : Z;
  leaderNode : option name;
  term : Z;
  sate : status;
  votesMap : gmap Z name;
  curNode : Node;
  aliveNodes : list name;
  events : list event
}.

Definition set_leader (x : option name) (c : Cluster) : Cluster :=
  mkCluster (me c) (allNode c) (timeout c) x (term c) (sate c) (votesMap c) (curNode c) (aliveNodes c) (events c).
Definition set_term (x : Z) (c : Cluster) : Cluster :=
  mkCluster (me c) (allNode c) (timeout c) (leaderNode c) x (sate c) (votesMap c) (curNode c) (aliveNodes c) (events c).
Definition set_sate (x : status) (c : Cluster) : Cluster :=
  mkCluster (me c) (allNode c) (timeout c) (leaderNode c) (term c) x (votesMap c) (curNode c) (aliveNodes c) (events c).
Definition set_votes (x : gmap Z name) (c : Cluster) : Cluster :=
  mkCluster (me c) (allNode c) (timeout c) (leaderNode c) (term c) (sate c) x (curNode c) (aliveNodes c) (events c).
Definition set_node (x : Node) (c : Cluster) : Cluster :=
  mkCluster (me c) (allNode c) (timeout c) (leaderNode c) (term c) (sate c) (votesMap c) x (aliveNodes c) (events c).
Definition set_alive (x : list name) (c : Cluster) : Cluster :=
  mkCluster (me c) (allNode c) (timeout c) (leaderNode c) (term c) (sate c) (votesMap c) (curNode c) x (events c).
Definition set_events (x : list event) (c : Cluster) : Cluster :=
  mkCluster (me c) (allNode c) (timeout c) (leaderNode c) (term c) (sate c) (votesMap c) (curNode c) (aliveNodes c) x.

Definition is_sate (s : status) (c : Cluster) : bool := bool_decide (sate c = s).

Definition GetLeaderName (c : Cluster) : name := default EmptyString (leaderNode c).

Definition isNodeHealthy (c : Cluster) (now : Z) : bool :=
  let node := curNode c in
  if isHeartbeatZero node then false
  else if negb (node_isReady node (timeout c) now) then false
  else if getHealthScore node <? 30 then false
  else if heartbeatFailures node >? 3 then false
  else true.

Definition IsReady (c : Cluster) (now : Z) : bool :=
  is_sate leader c || (is_sate follower c && isNodeHealthy c now).

Definition IsClose (c : Cluster) : bool := is_sate closed c.

Definition getQuorum (c : Cluster) : Z :=
  let totalNodes := len (allNode c) in
  if totalNodes =? 0 then 1 else totalNodes / 2 + 1.

(** No event follows the one that closes the channel. *)
Definition eventsClosed (c : Cluster) : bool := existsb (fun e => bool_decide (ev_name e = CloseEvent)) (events c).

Definition createEvent (n : eventName) (l : name) (c : Cluster) : Cluster :=
  if eventsClosed c then c
  else if IsClose c && negb (bool_decide (n = CloseEvent)) then c
  else set_events (events c ++ [mkEvent n (sate c) l]) c.

(** The event for a leader that is given up. *)
Definition unsign_event (c : Cluster) (l : name) : eventName :=
  if bool_decide (l = me c) then UnsignMaster else UnsignFollower.

(** signLeader; [None] is a nil node. *)
Definition signLeader (c : Cluster) (now : Z) (node : option name) (t : Z) : Cluster * bool :=
  match node with
  | None => (c, false)
  | Some n =>
      if t <? term c then (c, false)
      else
        let before := match leaderNode c with Some l => [(unsign_event c l, EmptyString)] | None => [] end in
        let '(c, ev) := if bool_decide (n = me c) then (set_sate leader c, SignMaster)
                        else (set_node (updateHeartbeat (curNode c) now) (set_sate follower c), SignFollower) in
        let c := set_term t (set_leader (Some n) c) in
        (foldl (fun c e => createEvent e.1 e.2 c) c (before ++ [(ev, n)]), true)
  end.

Definition releaseWithNodeName (c : Cluster) (n : name) : Cluster :=
  if negb (bool_decide (leaderNode c = Some n)) then c
  else if negb (is_sate leader c) then c
  else createEvent (unsign_event c n) EmptyString (set_leader None (set_sate follower c)).

Definition releaseLeader (c : Cluster) : Cluster :=
  let c1 := set_sate follower c in
  match leaderNode c with
  | Some l => createEvent (unsign_event c l) EmptyString (set_leader None c1)
  | None => c1
  end.

(** The vote of a term: the one given before, or this one. *)
Definition getVoteNodeName (c : Cluster) (t : Z) (n : name) : Cluster * name :=
  match votesMap c !! t with
  | None => (set_votes (<[t := n]> (votesMap c)) c, n)
  | Some v => (c, v)
  end.

Definition voteNode (c : Cluster) (t : Z) (n : name) : Cluster * bool :=
  match votesMap c !! t with
  | None => (set_votes (<[t := n]> (votesMap c)) c, true)
  | Some v => (c, bool_decide (v = n))
  end.

(** ** Calls and their handlers (grpc_server.go)

    Terms travel as 32-bit integers. *)

Inductive request : Type :=
| AskLeaderRequest (from : name) (t : Z)
| AskVoteRequest (from : name) (t : Z)
| BroadcastLeaderRequest (from : name) (t : Z) (l : name)
| HeartbeatRequest (from : name) (t : Z).

Inductive response : Type :=
| AskLeaderResponse (success : bool) (t : Z) (l : name)
| AskVoteResponse (success : bool) (vote : name)
| BroadcastLeaderResponse (success : bool)
| HeartbeatResponse (success : bool).

#[export] Instance response_eq_dec : EqDecision response.
Proof. solve_decision. Defined.

Definition AskLeader (c : Cluster) (now t : Z) : Cluster * response :=
  if IsReady c now && (t <=? i32 (term c)) then (c, AskLeaderResponse true (i32 (term c)) (GetLeaderName c))
  else if t <=? i32 (term c) then (c, AskLeaderResponse true (i32 (term c)) EmptyString)
  else (c, AskLeaderResponse false t EmptyString).

Definition AskVote (c : Cluster) (now : Z) (from : name) (t : Z) : Cluster * response :=
  let '(c, v) := getVoteNodeName c t from in
  if negb (IsReady c now) || (t >? i32 (term c)) then (releaseLeader c, AskVoteResponse true v)
  else (c, AskVoteResponse false v).

Definition BroadcastLeader (c : Cluster) (now : Z) (from : name) (t : Z) (l : name) : Cluster * response :=
  if term c >? t then (c, BroadcastLeaderResponse false)
  else if bool_decide (l ∈ aliveNodes c) || bool_decide (l = me c) || bool_decide (l ∈ allNode c) then
    ((signLeader c now (Some l) t).1, BroadcastLeaderResponse true)
  else (c, BroadcastLeaderResponse false).

(** One request of the stream Heartbeat. *)
Definition Heartbeat (c : Cluster) (now : Z) (from : name) (t : Z) : Cluster * response :=
  if term c >? t then (c, HeartbeatResponse false)
  else if negb (bool_decide (GetLeaderName c = from)) then (c, HeartbeatResponse false)
  else (set_node (updateHeartbeat (curNode c) now) c, HeartbeatResponse true).

Definition serve (c : Cluster) (now : Z) (r : request) : Cluster * response :=
  match r with
  | AskLeaderRequest _ t => AskLeader c now t
  | AskVoteRequest from t => AskVote c now from t
  | BroadcastLeaderRequest from t l => BroadcastLeader c now from t l
  | HeartbeatRequest from t => Heartbeat c now from t
  end.

(** ** The election goroutine (fightingWithRetry) *)

(** What broadcastToNodes waits for. *)
Inductive stage : Type :=
| ForLeader (t : Z)
| ForVotes (t : Z)
| ForAcks (t : Z).

(** Where the goroutine is: not running; about to give up the leader; at the top of
    the loop that looks for a leader, and behind its check; with the highest term heard,
    which it is about to take over; behind that loop, and behind the check there; with
    the next term computed, not stored; at the top of the voting loop, and behind its
    check; waiting for the answers to its calls, which are open, answered, or received
    (with the name of who answered). *)
Inductive phase : Type :=
| Idle
| Starting
| Finding
| Asking
| Adopting (maxTerm : Z)
| Found
| Counting
| Storing (nextTerm : Z)
| Requesting (nextTerm : Z)
| Canvassing (nextTerm : Z)
| Waiting (st : stage) (calls : gmap name (option response)) (got : list (name * response)).

(** The loop over the answers to AskLeader: the leader and the highest term. *)
Definition scan_answer (acc : name * Z) (r : response) : name * Z :=
  let '(l, maxTerm) := acc in
  match r with
  | AskLeaderResponse success t ln =>
      if success && negb (bool_decide (ln = EmptyString)) && (t >=? maxTerm) then (ln, t)
      else if success && (t >=? maxTerm) then (l, t)
      else acc
  | _ => acc
  end.

Definition scan_answers (rs : list response) : name * Z := foldl scan_answer (EmptyString, 0) rs.

Definition count_votes (self : name) (rs : list response) : Z :=
  foldl (fun n r => match r with
                    | AskVoteResponse success v => if success && bool_decide (v = self) then n + 1 else n
                    | _ => n
                    end) 1 rs.

Definition count_acks (rs : list response) : Z :=
  foldl (fun n r => match r with BroadcastLeaderResponse true => n + 1 | _ => n end) 1 rs.

(** The deferred functions: back to follower if there is no leader. *)
Definition finish (c : Cluster) (voting : bool) : Cluster :=
  let c := if voting then createEvent ElectionFinish (GetLeaderName c) c else c in
  match leaderNode c with
  | Some _ => c
  | None => if is_sate candidate c then set_sate follower c else c
  end.

(** Calls to all reachable nodes but this one. *)
Definition targets (c : Cluster) : list name := List.filter (fun n => negb (bool_decide (n = me c))) (aliveNodes c).
Definition open_calls (c : Cluster) : gmap name (option response) := list_to_map ((fun n => (n, None)) <$> targets c).

Definition enough_alive (c : Cluster) : bool := len (aliveNodes c) >=? getQuorum c.

(** The loop body behind askLeaderFromNodes. *)
Definition after_answers (c : Cluster) (now : Z) (got : list (name * response)) : Cluster * phase :=
  let '(l, maxTerm) := scan_answers (snd <$> got) in
  let node := if bool_decide (l ∈ aliveNodes c) then Some l
              else if bool_decide (l = me c) then Some (me c) else None in
  let '(c, signed) := if negb (bool_decide (l = EmptyString)) then signLeader c now node maxTerm else (c, false) in
  if signed then (finish c false, Idle)
  else if len got <? getQuorum c then (c, Found)
  else if maxTerm >=? term c then (c, Adopting maxTerm)
  else (c, Finding).

(** The voting loop up to the calls: candidate, own vote; without enough nodes the
    loop starts again. *)
Definition request_votes (c : Cluster) (t : Z) : Cluster * phase :=
  if negb (enough_alive c) then (c, Requesting t)
  else if is_sate follower c then
    let c := set_sate candidate c in
    let '(c, ok) := voteNode c t (me c) in
    if ok then (c, Waiting (ForVotes t) (open_calls c) []) else (finish c true, Idle)
  else (finish c true, Idle).

Definition after_votes (c : Cluster) (t : Z) (got : list (name * response)) : Cluster * phase :=
  if count_votes (me c) (snd <$> got) >=? getQuorum c then (c, Waiting (ForAcks t) (open_calls c) [])
  else (finish c true, Idle).

Definition after_acks (c : Cluster) (now t : Z) (got : list (name * response)) : Cluster * phase :=
  let '(c, _) := if count_acks (snd <$> got) >=? getQuorum c then signLeader c now (Some (me c)) t else (c, false) in
  (finish c true, Idle).

Definition ask_leader (c : Cluster) : phase :=
  if enough_alive c then Waiting (ForLeader (term c)) (open_calls c) [] else Finding.

Definition stage_request (c : Cluster) (st : stage) : request :=
  match st with
  | ForLeader t => AskLeaderRequest (me c) (i32 t)
  | ForVotes t => AskVoteRequest (me c) (i32 t)
  | ForAcks t => BroadcastLeaderRequest (me c) (i32 t) (me c)
  end.

(** Close. *)
Definition Close (c : Cluster) : Cluster :=
  if IsClose c then c
  else let c := releaseLeader c in
       let c := set_node (clean (curNode c)) c in
       createEvent CloseEvent EmptyString (set_sate closed c).

(** Start of a closed node: the votes are kept, and the channel of events stays marked
    as closed. *)
Definition Start (c : Cluster) : Cluster :=
  if IsClose c then createEvent StartUp EmptyString (set_sate follower (set_term 0 c)) else c.

(** ** The system *)

Record sys := mkSys {
  nodes : gmap name (Cluster * phase);
  strays : list (name * request);
  now : Z;
  won : list (name * Z)
}.
(** [strays] are calls whose caller does not wait any more, and heartbeats under way;
    [won] is a history: who got the votes of which term. *)

Inductive action : Type :=
| Tick (d : Z)
| Alive (n : name) (alive : list name)
| Pass (n : name)
| Leave (n : name)
| Release (n : name)
| Ask (n : name)
| Serve (n m : name)
| Receive (n m : name)
| Lose (n m : name)
| Answers (n : name)
| Adopt (n : name)
| Next (n : name)
| Store (n : name)
| Vote (n : name)
| Beat (n m : name)
| Stray (i : nat)
| StepDown (n : name)
| Shut (n : name)
| Restart (n : name).

Definition put (s : sys) (n : name) (c : Cluster) (p : phase) : sys :=
  mkSys (<[n := (c, p)]> (nodes s)) (strays s) (now s) (won s).
Definition add_strays (s : sys) (l : list (name * request)) : sys := mkSys (nodes s) (l ++ strays s) (now s) (won s).
Definition add_won (s : sys) (w : name * Z) : sys := mkSys (nodes s) (strays s) (now s) (w :: won s).

(** Calls that were not served when the caller stopped waiting. *)
Definition abandoned (c : Cluster) (st : stage) (calls : gmap name (option response)) : list (name * request) :=
  (fun x => (x.1, stage_request c st)) <$> List.filter (fun x => match x.2 with None => true | Some _ => false end) (map_to_list calls).

Definition busy (c : Cluster) (now : Z) : bool := IsReady c now || IsClose c.

(** The checks of IsReady and IsClose: what follows when neither holds. *)
Definition checked (p : phase) : option phase :=
  match p with
  | Idle => Some Starting
  | Finding => Some Asking
  | Found => Some Counting
  | Requesting t => Some (Canvassing t)
  | _ => None
  end.

Definition is_voting (p : phase) : bool := match p with Requesting _ => true | _ => false end.

Definition exec (s : sys) (a : action) : option sys :=
  match a with
  | Tick d => if 0 <=? d then Some (mkSys (nodes s) (strays s) (now s + d) (won s)) else None
  | Alive n alive =>
      match nodes s !! n with
      | Some (c, p) => if bool_decide (NoDup alive) && bool_decide (n ∈ alive) && forallb (fun m => bool_decide (m ∈ allNode c)) alive
                       then Some (put s n (set_alive alive c) p) else None
      | None => None
      end
  | Pass n =>
      match nodes s !! n with
      | Some (c, p) => if busy c (now s) then None
                       else match checked p with Some p' => Some (put s n c p') | None => None end
      | None => None
      end
  | Leave n =>
      match nodes s !! n with
      | Some (c, p) =>
          match p with
          | Finding | Found | Requesting _ => if busy c (now s) then Some (put s n (finish c (is_voting p)) Idle) else None
          | _ => None
          end
      | None => None
      end
  | Release n =>
      match nodes s !! n with
      | Some (c, Starting) => Some (put s n (releaseLeader (set_node (clean (curNode c)) c)) Finding)
      | _ => None
      end
  | Ask n =>
      match nodes s !! n with
      | Some (c, Asking) => Some (put s n c (ask_leader c))
      | _ => None
      end
  | Serve n m =>
      match nodes s !! n, nodes s !! m with
      | Some (c, Waiting st calls got), Some (c', p') =>
          if bool_decide (calls !! m = Some None) && negb (bool_decide (n = m)) && negb (IsClose c') then
            let '(c', r) := serve c' (now s) (stage_request c st) in
            Some (put (put s m c' p') n c (Waiting st (<[m := Some r]> calls) got))
          else None
      | _, _ => None
      end
  | Receive n m =>
      match nodes s !! n with
      | Some (c, Waiting st calls got) =>
          match calls !! m with
          | Some (Some r) => Some (put s n c (Waiting st (delete m calls) (got ++ [(m, r)])))
          | _ => None
          end
      | _ => None
      end
  | Lose n m =>
      match nodes s !! n with
      | Some (c, Waiting st calls got) => Some (put s n c (Waiting st (delete m calls) got))
      | _ => None
      end
  | Answers n =>
      match nodes s !! n with
      | Some (c, Waiting st calls got) =>
          let s := add_strays s (abandoned c st calls) in
          match st with
          | ForLeader _ => let '(c', p) := after_answers c (now s) got in Some (put s n c' p)
          | ForVotes t => let '(c', p) := after_votes c t got in
                          let s := match p with Waiting _ _ _ => add_won s (n, t) | _ => s end in
                          Some (put s n c' p)
          | ForAcks t => let '(c', p) := after_acks c (now s) t got in Some (put s n c' p)
          end
      | _ => None
      end
  | Adopt n =>
      match nodes s !! n with
      | Some (c, Adopting t) => Some (put s n (set_term t c) Found)
      | _ => None
      end
  | Next n =>
      match nodes s !! n with
      | Some (c, Counting) => Some (put s n c (Storing (i64 (term c + 1))))
      | _ => None
      end
  | Store n =>
      match nodes s !! n with
      | Some (c, Storing t) => Some (put s n (createEvent ElectionStart EmptyString (set_term t c)) (Requesting t))
      | _ => None
      end
  | Vote n =>
      match nodes s !! n with
      | Some (c, Canvassing t) => let '(c', p) := request_votes c t in Some (put s n c' p)
      | _ => None
      end
  | Beat n m =>
      match nodes s !! n with
      | Some (c, p) => if is_sate leader c && negb (bool_decide (n = m))
                       then Some (add_strays s [(m, HeartbeatRequest n (i32 (term c)))]) else None
      | None => None
      end
  | Stray i =>
      match strays s !! i with
      | Some (m, r) =>
          match nodes s !! m with
          | Some (c, p) =>
              let s := mkSys (nodes s) (take i (strays s) ++ drop (S i) (strays s)) (now s) (won s) in
              if IsClose c then Some s else Some (put s m (serve c (now s) r).1 p)
          | None => None
          end
      | None => None
      end
  | StepDown n =>
      match nodes s !! n with
      | Some (c, p) => Some (put s n (releaseWithNodeName c (me c)) p)
      | None => None
      end
  | Shut n =>
      match nodes s !! n with
      | Some (c, p) => Some (put s n (Close c) p)
      | None => None
      end
  | Restart n =>
      match nodes s !! n with
      | Some (c, p) => Some (put s n (Start c) p)
      | None => None
      end
  end.

(** A node that Start has just started among [members], connected to no one. *)
Definition start_node (members : list name) (to : Z) (n : name) : Cluster :=
  mkCluster n members to None 0 follower ∅ newNode [n] [mkEvent StartUp follower EmptyString].

Definition start_sys (members : list name) (to : Z) : sys :=
  mkSys (list_to_map ((fun n => (n, (start_node members to n, Idle))) <$> members)) [] 0 [].

Fixpoint execs (s : sys) (l : list action) : option sys :=
  match l with
  | [] => Some s
  | a :: l => match exec s a with Some s => execs s l | None => None end
  end.
