(* ===== verification/ClusterSafety.v ===== *)
(** * Safety of the election

    One vote a node and term, a quorum of the members: the votes of a term are won by
    one node ([votes_unique]).  That leads to one leader a term as long as no node is
    told by others that it leads itself ([leaders_unique]); when that happens, two nodes
    can lead the same term ([two_leaders_one_term]). *)

From S2P Require Import Prelude Bytes Cluster.

#[local] Arguments signLeader : simpl never.
#[local] Arguments releaseLeader : simpl never.
#[local] Arguments createEvent : simpl never.
#[local] Arguments finish : simpl never.

(** ** What no operation takes back *)

Record keeps (c c' : Cluster) : Prop := {
  keeps_me : me c' = me c;
  keeps_all : allNode c' = allNode c;
  keeps_alive : aliveNodes c' = aliveNodes c;
  keeps_votes : votesMap c ⊆ votesMap c'
}.

#[export] Instance keeps_preorder : PreOrder keeps.
Proof.
  split; [by intros c|].
  intros a b c [????] [????]. split; [congruence..|by etrans].
Qed.

Create HintDb keeps.

Lemma keeps_createEvent n l c : keeps c (createEvent n l c).
Proof. unfold createEvent. by repeat case_match. Qed.

Lemma keeps_sate x c : keeps c (set_sate x c). Proof. done. Qed.
Lemma keeps_leader x c : keeps c (set_leader x c). Proof. done. Qed.
Lemma keeps_term x c : keeps c (set_term x c). Proof. done. Qed.
Lemma keeps_node x c : keeps c (set_node x c). Proof. done. Qed.
#[export] Hint Resolve keeps_createEvent keeps_sate keeps_leader keeps_term keeps_node : keeps.

(** Chains of updates, outermost first. *)
Ltac keep := repeat (first [reflexivity | etrans; [|solve [eauto with keeps]]]).

Lemma keeps_releaseLeader c : keeps c (releaseLeader c).
Proof. unfold releaseLeader. case_match; keep. Qed.

Lemma keeps_releaseWithNodeName c n : keeps c (releaseWithNodeName c n).
Proof. unfold releaseWithNodeName. repeat case_match; keep. Qed.

Lemma keeps_events (l : list (eventName * name)) c : keeps c (foldl (fun c e => createEvent e.1 e.2 c) c l).
Proof. induction l as [|e l IH] in c |- *; [done|]. simpl. etrans; [apply keeps_createEvent|apply IH]. Qed.

Lemma keeps_signLeader c now n t : keeps c (signLeader c now n t).1.
Proof.
  unfold signLeader. destruct n as [n|]; [|done]. case_match; [done|].
  destruct (bool_decide _); simpl fst; (etrans; [|apply keeps_events]); keep.
Qed.

Lemma keeps_getVoteNodeName c t n : keeps c (getVoteNodeName c t n).1.
Proof. unfold getVoteNodeName. case_match; [done|]. split; [done..|]. by apply insert_subseteq. Qed.

Lemma keeps_voteNode c t n : keeps c (voteNode c t n).1.
Proof. unfold voteNode. case_match; [done|]. split; [done..|]. by apply insert_subseteq. Qed.

Lemma keeps_finish c b : keeps c (finish c b).
Proof. unfold finish. destruct b; repeat case_match; keep. Qed.

Lemma keeps_Close c : keeps c (Close c).
Proof. unfold Close. case_match; [done|]. etrans; [apply keeps_releaseLeader|]. keep. Qed.

Lemma keeps_Start c : keeps c (Start c).
Proof. unfold Start. case_if; [|done]. keep. Qed.
#[export] Hint Resolve keeps_Start keeps_releaseLeader keeps_releaseWithNodeName keeps_signLeader keeps_getVoteNodeName keeps_voteNode keeps_finish keeps_Close : keeps.

Lemma keeps_serve c now r : keeps c (serve c now r).1.
Proof.
  destruct r as [f t|f t|f t l|f t]; simpl.
  - unfold AskLeader. by repeat case_match.
  - unfold AskVote. pose proof (keeps_getVoteNodeName c t f) as H.
    destruct (getVoteNodeName c t f) as [c1 v]. case_match; simpl in *; [|done]. etrans; [done|auto with keeps].
  - unfold BroadcastLeader. repeat case_if; simpl; auto with keeps; done.
  - unfold Heartbeat. repeat case_match; simpl; auto with keeps; done.
Qed.

Lemma keeps_after_answers c now got : keeps c (after_answers c now got).1.
Proof.
  unfold after_answers. destruct (scan_answers _) as [l mt].
  match goal with |- context [signLeader c now ?n mt] => pose proof (keeps_signLeader c now n mt) as H; destruct (signLeader c now n mt) as [c1 b] end.
  simpl in H. destruct (negb _); [destruct b|]; simpl; repeat case_match; simpl; try done.
  etrans; [done|auto with keeps].
Qed.

Lemma keeps_request_votes c t : keeps c (request_votes c t).1.
Proof.
  unfold request_votes. case_if; [done|]. case_if; [|simpl; auto with keeps].
  pose proof (keeps_voteNode (set_sate candidate c) t (me (set_sate candidate c))) as H.
  destruct (voteNode _ _ _) as [c1 b]. simpl in H.
  assert (keeps c c1) by (etrans; [|done]; auto with keeps).
  destruct b; simpl; [done|]. etrans; [done|auto with keeps].
Qed.

Lemma keeps_after_votes c t got : keeps c (after_votes c t got).1.
Proof. unfold after_votes. case_match; simpl; auto with keeps; done. Qed.

Lemma keeps_after_acks c now t got : keeps c (after_acks c now t got).1.
Proof.
  unfold after_acks. pose proof (keeps_signLeader c now (Some (me c)) t) as H.
  destruct (signLeader _ _ _ _) as [c1 b]. case_if; simpl in *; [etrans; [done|]|]; auto with keeps.
Qed.

(** ** The votes *)

(** [v] has voted for [n] in term [t]. *)
Definition voted (s : sys) (v : name) (t : Z) (n : name) : Prop :=
  exists c p, nodes s !! v = Some (c, p) /\ votesMap c !! t = Some n.

Lemma voted_unique s v t a b : voted s v t a -> voted s v t b -> a = b.
Proof. intros (c & p & H & E) (c' & p' & H' & E'). congruence. Qed.

(** The answer of [m] tells its vote. *)
Definition true_answer (s : sys) (t : Z) (m : name) (r : response) : Prop :=
  match r with AskVoteResponse _ v => voted s m (i32 t) v | _ => True end.

Definition call_ok (s : sys) (n : name) (st : stage) (calls : gmap name (option response)) (got : list (name * response)) : Prop :=
  NoDup got.*1 /\ (n ∉ got.*1) /\ calls !! n = None /\
  (forall m, m ∈ got.*1 -> calls !! m = None) /\
  (forall m, (m ∈ got.*1) \/ is_Some (calls !! m) -> is_Some (nodes s !! m)) /\
  match st with
  | ForVotes t => voted s n t n /\
      (forall m r, (m, r) ∈ got -> true_answer s t m r) /\ (forall m r, calls !! m = Some (Some r) -> true_answer s t m r)
  | _ => True
  end.

Definition phase_ok (s : sys) (n : name) (p : phase) : Prop :=
  match p with Waiting st calls got => call_ok s n st calls got | _ => True end.

Record node_ok (members : list name) (n : name) (c : Cluster) : Prop := {
  node_me : me c = n;
  node_all : allNode c = members;
  node_alive : forall m, m ∈ aliveNodes c -> m ∈ members
}.

(** A quorum has voted for [n]. *)
Definition majority (s : sys) (members : list name) (n : name) (t : Z) : Prop :=
  exists vs, NoDup vs /\ vs ⊆ members /\ len vs > len members / 2 /\ forall v, v ∈ vs -> voted s v t n.

Record votes_inv (members : list name) (s : sys) : Prop := {
  vi_dom : forall n, is_Some (nodes s !! n) <-> n ∈ members;
  vi_node : forall n c p, nodes s !! n = Some (c, p) -> node_ok members n c;
  vi_phase : forall n c p, nodes s !! n = Some (c, p) -> phase_ok s n p;
  vi_won : forall n t, (n, t) ∈ won s -> i32 t = t -> majority s members n t
}.

(** A later state: the same nodes, all votes kept. *)
Definition later (s s' : sys) : Prop :=
  (forall n, is_Some (nodes s !! n) <-> is_Some (nodes s' !! n)) /\ (forall v t n, voted s v t n -> voted s' v t n).

Lemma true_answer_later s s' t m r : later s s' -> true_answer s t m r -> true_answer s' t m r.
Proof. intros [_ Hv]. destruct r; simpl; auto. Qed.

Lemma phase_ok_later s s' n p : later s s' -> phase_ok s n p -> phase_ok s' n p.
Proof.
  intros Hl. destruct p as [| | | | | | | | | |st calls got]; simpl; try done.
  intros (H1 & H2 & H3 & H4 & H5 & H6). repeat (split; [done|]). split; [intros m Hm; apply Hl; eauto|].
  destruct st as [|t|]; [done| |done]. destruct H6 as (Ho & Hg & Hc).
  split; [by apply Hl|]. split; intros m r Hr; eapply true_answer_later; eauto.
Qed.

Lemma majority_later s s' members n t : later s s' -> majority s members n t -> majority s' members n t.
Proof. intros [_ Hl] (vs & H1 & H2 & H3 & H4). exists vs. repeat (split; [done|]). eauto. Qed.

Lemma later_put s n c p c' p' :
  nodes s !! n = Some (c, p) -> votesMap c ⊆ votesMap c' -> later s (put s n c' p').
Proof.
  intros Hn Hv. split.
  - intros m. simpl. destruct (decide (m = n)) as [->|Hm]; [|by rewrite lookup_insert_ne].
    rewrite lookup_insert_eq, Hn. split; eauto.
  - intros v t x (c0 & p0 & H & E). destruct (decide (v = n)) as [->|Hm].
    + exists c', p'. simpl. rewrite lookup_insert_eq. simplify_eq. split; [done|]. by eapply lookup_weaken.
    + exists c0, p0. simpl. by rewrite lookup_insert_ne.
Qed.

(** One node moves on. *)
Lemma votes_inv_put members s n c p c' p' :
  votes_inv members s -> nodes s !! n = Some (c, p) -> votesMap c ⊆ votesMap c' -> node_ok members n c' ->
  phase_ok (put s n c' p') n p' -> votes_inv members (put s n c' p').
Proof.
  intros [Hd Hc Hp Hw] Hn Hv Hk Hph. pose proof (later_put s n c p c' p' Hn Hv) as Hl. split.
  - intros m. rewrite <- Hd. symmetry. apply Hl.
  - intros m x q Hm. simpl in Hm. apply lookup_insert_Some in Hm as [[<- Hm]|[? Hm]]; simplify_eq; eauto.
  - intros m x q Hm. simpl in Hm. apply lookup_insert_Some in Hm as [[<- Hm]|[? Hm]]; simplify_eq; [done|].
    eapply phase_ok_later; eauto.
  - intros m t Hm E. eapply majority_later; eauto.
Qed.

Lemma votes_inv_keep members s n c p c' p' :
  votes_inv members s -> nodes s !! n = Some (c, p) -> keeps c c' ->
  phase_ok (put s n c' p') n p' -> votes_inv members (put s n c' p').
Proof.
  intros Hi Hn [K1 K2 K3 K4] Hp. eapply votes_inv_put; eauto.
  destruct (vi_node _ _ Hi _ _ _ Hn) as [N1 N2 N3]. split; [congruence..|]. by rewrite K3.
Qed.

Lemma votes_inv_same members s s' :
  nodes s' = nodes s -> won s' = won s -> votes_inv members s -> votes_inv members s'.
Proof.
  intros En Ew [Hd Hc Hp Hw].
  assert (later s s') as Hl by (split; [intros; by rewrite En|]; intros v t n (c & p & H); exists c, p; by rewrite En).
  split; rewrite ?En, ?Ew; eauto; intros; [eapply phase_ok_later|eapply majority_later]; eauto.
Qed.

Lemma later_refl_nodes s s' : nodes s' = nodes s -> later s s'.
Proof. intros E. split; [intros; by rewrite E|]. intros v t n (c & p & H). exists c, p. by rewrite E. Qed.

(** *** Calls *)

Lemma open_calls_spec c m o : open_calls c !! m = Some o -> o = None /\ m ∈ aliveNodes c /\ m <> me c.
Proof.
  intros H. apply elem_of_list_to_map_2, list_elem_of_fmap in H as (x & E & Hx). simplify_eq.
  split; [done|]. unfold targets in Hx. apply list_elem_of_In, filter_In in Hx as [Hx E].
  apply list_elem_of_In in Hx. split; [done|]. by case_bool_decide.
Qed.

Lemma open_calls_me c : open_calls c !! me c = None.
Proof. destruct (open_calls c !! me c) as [o|] eqn:E; [|done]. apply open_calls_spec in E as (_ & _ & []). done. Qed.

(** Calls just made. *)
Lemma call_ok_open members s n c st :
  (forall m, is_Some (nodes s !! m) <-> m ∈ members) -> node_ok members n c ->
  match st with ForVotes t => voted s n t n | _ => True end -> call_ok s n st (open_calls c) [].
Proof.
  intros Hi [K1 K2 K3] Hv. split; [constructor|]. split; [by intros H%elem_of_nil|].
  split; [rewrite <- K1; apply open_calls_me|]. split; [by intros m H%elem_of_nil|]. split.
  - intros m [H%elem_of_nil|[o H]]; [done|]. apply Hi. apply K3. by eapply open_calls_spec.
  - destruct st as [|t|]; try done. split; [done|]. split; [by intros m r H%elem_of_nil|].
    intros m r H. by apply open_calls_spec in H as [? _].
Qed.

(** *** Quorums *)

Lemma quorum_meet (members a b : list name) :
  NoDup a -> NoDup b -> a ⊆ members -> b ⊆ members ->
  len a > len members / 2 -> len b > len members / 2 -> exists v, v ∈ a /\ v ∈ b.
Proof.
  intros Ha Hb Sa Sb La Lb.
  destruct (decide (Exists (fun v => v ∈ b) a)) as [H|H].
  { by apply Exists_exists in H. }
  exfalso. assert (NoDup (a ++ b)) as Hab.
  { apply NoDup_app. split; [done|]. split; [|done]. intros v Hv Hv'. apply H, Exists_exists. eauto. }
  assert (a ++ b ⊆+ members) as Hs. { apply NoDup_submseteq; [done|]. intros v [Hv|Hv]%elem_of_app; auto. }
  apply submseteq_length in Hs. rewrite length_app in Hs. unfold len in *. lia.
Qed.

Lemma getQuorum_half c : getQuorum c > len (allNode c) / 2.
Proof. unfold getQuorum. case_if; breflect; [rewrite Heqb; simpl; lia|lia]. Qed.

(** The voters behind the count. *)
Definition grants (self : name) (r : response) : bool :=
  match r with AskVoteResponse success v => success && bool_decide (v = self) | _ => false end.

Lemma count_votes_from self rs k :
  foldl (fun n r => match r with AskVoteResponse success v => if success && bool_decide (v = self) then n + 1 else n | _ => n end) k rs
  = k + len (List.filter (grants self) rs).
Proof.
  induction rs as [|r rs IH] in k |- *; simpl; [unfold len; simpl; lia|].
  rewrite IH. destruct r; simpl; try done. case_if; [|done]. unfold len. simpl. lia.
Qed.

Definition supporters (self : name) (got : list (name * response)) : list name :=
  (List.filter (fun x => grants self x.2) got).*1.

Lemma count_votes_supporters self got : count_votes self (snd <$> got) = 1 + len (supporters self got).
Proof.
  unfold count_votes, supporters. rewrite count_votes_from. f_equal. unfold len. rewrite length_fmap. f_equal.
  induction got as [|[m r] got IH]; [done|]. simpl. destruct (grants self r); simpl; [f_equal|]; exact IH.
Qed.

Lemma supporters_spec self got m : m ∈ supporters self got -> exists r, (m, r) ∈ got /\ grants self r = true.
Proof.
  unfold supporters. intros ([m' r] & -> & H)%list_elem_of_fmap.
  apply list_elem_of_In, filter_In in H as [H1%list_elem_of_In H2]. eauto.
Qed.

Lemma NoDup_supporters self got : NoDup got.*1 -> NoDup (supporters self got).
Proof.
  unfold supporters. induction got as [|[m r] got IH]; simpl; [done|]. intros [Hm Hn]%NoDup_cons.
  destruct (grants self r); simpl; [|auto]. apply NoDup_cons. split; [|auto].
  contradict Hm. apply list_elem_of_fmap in Hm as ([m' r'] & -> & H).
  apply list_elem_of_In, filter_In in H as [H%list_elem_of_In _]. apply list_elem_of_fmap. by exists (m', r').
Qed.

(** Enough votes counted are votes of a quorum. *)
Lemma count_majority members s n c t got calls :
  votes_inv members s -> nodes s !! n = Some (c, Waiting (ForVotes t) calls got) -> i32 t = t ->
  count_votes (me c) (snd <$> got) >= getQuorum c -> majority s members n t.
Proof.
  intros Hi Hn Et Hq. destruct (vi_node _ _ Hi _ _ _ Hn) as [Km Ka _].
  destruct (vi_phase _ _ Hi _ _ _ Hn) as (Hnd & Hout & _ & _ & Hmem & Hown & Hgot & _).
  rewrite Km in *. pose proof (getQuorum_half c) as Hh. rewrite Ka in Hh. rewrite count_votes_supporters in Hq.
  assert (forall m, m ∈ supporters n got -> m ∈ got.*1) as Hs.
  { intros m (r & H & _)%supporters_spec. apply list_elem_of_fmap. by exists (m, r). }
  exists (n :: supporters n got). split; [apply NoDup_cons; split; [by intros H%Hs|by apply NoDup_supporters]|].
  split; [|split].
  - intros m [->|H]%elem_of_cons; apply (vi_dom _ _ Hi); [by rewrite Hn|]. apply Hmem. left. by apply Hs.
  - unfold len in *. simpl. lia.
  - intros m [->|H]%elem_of_cons; [done|]. apply supporters_spec in H as (r & H & G).
    apply Hgot in H. destruct r; try done. simpl in *. rewrite Et in H. apply andb_true_iff in G as [_ G]. by case_bool_decide; subst.
Qed.

(** *** Steps *)

(** A node's state moves on, its goroutine stays where it is. *)
Lemma votes_inv_state members s n c p c' :
  votes_inv members s -> nodes s !! n = Some (c, p) -> keeps c c' -> votes_inv members (put s n c' p).
Proof.
  intros Hi Hn K. eapply votes_inv_keep; eauto. eapply phase_ok_later; [eapply later_put; eauto; apply K|].
  eapply vi_phase; eauto.
Qed.

Lemma AskVote_answers c now from t :
  exists b v, (AskVote c now from t).2 = AskVoteResponse b v /\ votesMap (AskVote c now from t).1 !! t = Some v.
Proof.
  unfold AskVote, getVoteNodeName. destruct (votesMap c !! t) as [v|] eqn:E; case_if; simpl.
  - exists true, v. split; [done|]. eapply lookup_weaken; [done|]. apply keeps_releaseLeader.
  - by exists false, v.
  - exists true, from. split; [done|]. eapply lookup_weaken; [|apply keeps_releaseLeader]. apply lookup_insert_eq.
  - exists false, from. split; [done|]. apply lookup_insert_eq.
Qed.

Lemma votes_inv_serve members s n m c c' p' st calls got :
  votes_inv members s -> nodes s !! n = Some (c, Waiting st calls got) -> nodes s !! m = Some (c', p') ->
  calls !! m = Some None -> n <> m ->
  let x := serve c' (now s) (stage_request c st) in
  votes_inv members (put (put s m x.1 p') n c (Waiting st (<[m := Some x.2]> calls) got)).
Proof.
  intros Hi Hn Hm Ec Hne x.
  assert (votes_inv members (put s m x.1 p')) as Hi1 by (eapply votes_inv_state; eauto using keeps_serve).
  assert (nodes (put s m x.1 p') !! n = Some (c, Waiting st calls got)) as Hn1 by (simpl; by rewrite lookup_insert_ne).
  eapply votes_inv_keep; eauto; [done|].
  destruct (vi_phase _ _ Hi1 _ _ _ Hn1) as (H1 & H2 & H3 & H4 & H5 & H6).
  set (s1 := put s m x.1 p') in *. assert (later s1 (put s1 n c (Waiting st (<[m := Some x.2]> calls) got))) as Hl by (eapply later_put; eauto).
  split; [done|]. split; [done|]. split; [by rewrite lookup_insert_ne|]. split; [|split].
  - intros k Hk. pose proof (H4 k Hk). rewrite lookup_insert_ne; [done|]. by intros <-; simplify_eq.
  - intros k Hk. apply Hl, H5. destruct Hk as [Hk|Hk]; [by left|right].
    destruct (decide (k = m)) as [->|Hkm]; [eauto|by rewrite lookup_insert_ne in Hk].
  - destruct st as [|t|]; [done| |done]. destruct H6 as (Ho & Hg & Hc). split; [by apply Hl|].
    split; intros k r Hr; [eapply true_answer_later; eauto|].
    apply lookup_insert_Some in Hr as [[<- Hr]|[? Hr]]; [|eapply true_answer_later; eauto].
    simplify_eq. destruct (AskVote_answers c' (now s) (me c) (i32 t)) as (b & v & E1 & E2).
    change x with (AskVote c' (now s) (me c) (i32 t)) in *. rewrite E1. simpl.
    eexists _, _. simpl. rewrite lookup_insert_ne, lookup_insert_eq by done. split; [done|exact E2].
Qed.

(** A call leaves the open ones; an answer may have come. *)
Lemma votes_inv_calls members s n m c st calls got got' :
  votes_inv members s -> nodes s !! n = Some (c, Waiting st calls got) ->
  got' = got \/ (exists r, calls !! m = Some (Some r) /\ got' = got ++ [(m, r)]) ->
  votes_inv members (put s n c (Waiting st (delete m calls) got')).
Proof.
  intros Hi Hn Hg. set (p := Waiting st (delete m calls) got').
  assert (later s (put s n c p)) as Hl by (eapply later_put; eauto).
  eapply votes_inv_keep; eauto; [done|].
  eapply (phase_ok_later s); [done|]. destruct (vi_phase _ _ Hi _ _ _ Hn) as (H1 & H2 & H3 & H4 & H5 & H6).
  assert (forall k, delete m calls !! k = None \/ delete m calls !! k = calls !! k) as Hd.
  { intros k. destruct (decide (m = k)) as [->|]; [left; apply lookup_delete_eq|right; by apply lookup_delete_ne]. }
  assert (forall k o, delete m calls !! k = Some o -> calls !! k = Some o) as Hd'.
  { intros k o E. by destruct (Hd k) as [E'|E']; rewrite E' in E. }
  destruct Hg as [->|(r & Er & ->)].
  - repeat split; try done.
    + destruct (Hd n) as [E|E]; congruence.
    + intros k Hk. destruct (Hd k) as [E|E]; [done|rewrite E; auto].
    + intros k [Hk|[o Hk]]; eauto.
    + destruct st as [|t|]; [done| |done]. destruct H6 as (Ho & Hg & Hc). split; eauto.
  - assert (m ∉ got.*1) as Hm by (intros Hm%H4; congruence).
    unfold p, phase_ok, call_ok. rewrite fmap_app. simpl. repeat split.
    + apply NoDup_app. repeat split; [done| |apply NoDup_singleton]. intros k Hk Hk2%list_elem_of_singleton; by subst.
    + intros [Hk| ->%list_elem_of_singleton]%elem_of_app; [done|congruence].
    + destruct (Hd n) as [E|E]; congruence.
    + intros k [Hk| ->%list_elem_of_singleton]%elem_of_app; [|apply lookup_delete_eq].
      destruct (Hd k) as [E|E]; [done|rewrite E; auto].
    + intros k [[Hk| ->%list_elem_of_singleton]%elem_of_app|[o Hk]]; eauto.
    + destruct st as [|t|]; [done| |done]. destruct H6 as (Ho & Hg & Hc). repeat split; eauto.
      intros k r' [Hk|Hk%list_elem_of_singleton]%elem_of_app; simplify_eq; eauto.
Qed.

Lemma votes_inv_open members s n c p c' st :
  votes_inv members s -> nodes s !! n = Some (c, p) -> keeps c c' ->
  match st with ForVotes t => votesMap c' !! t = Some n | _ => True end ->
  votes_inv members (put s n c' (Waiting st (open_calls c') [])).
Proof.
  intros Hi Hn K Hv. eapply votes_inv_keep; eauto. destruct K as [K1 K2 K3 K4], (vi_node _ _ Hi _ _ _ Hn) as [N1 N2 N3].
  eapply call_ok_open with (members := members).
  - intros m. rewrite <- (vi_dom _ _ Hi). symmetry. eapply later_put; eauto.
  - split; [congruence..|by rewrite K3].
  - destruct st; try done. exists c', (Waiting (ForVotes t) (open_calls c') []). simpl. by rewrite lookup_insert_eq.
Qed.

Lemma votes_inv_won members s n t :
  votes_inv members s -> (i32 t = t -> majority s members n t) -> votes_inv members (add_won s (n, t)).
Proof.
  intros [Hd Hc Hp Hw] Hm. assert (later s (add_won s (n, t))) as Hl by by apply later_refl_nodes.
  split; [done|done| |].
  - intros m c p Hn. eapply phase_ok_later; eauto.
  - intros m u [E|Hu]%elem_of_cons Eu; simplify_eq; eapply majority_later; eauto.
Qed.

Lemma request_votes_phase c t :
  let x := request_votes c t in
  (x.2 = Waiting (ForVotes t) (open_calls x.1) [] /\ votesMap x.1 !! t = Some (me c)) \/ x.2 = Idle \/ x.2 = Requesting t.
Proof.
  unfold request_votes. case_if; [auto|]. case_if; [|auto].
  unfold voteNode. simpl. destruct (votesMap c !! t) as [v|] eqn:E; simpl.
  - case_bool_decide; simpl; [|auto]. left. split; [done|]. simpl. congruence.
  - left. split; [done|]. simpl. apply lookup_insert_eq.
Qed.

Lemma after_answers_phase c now got :
  let p := (after_answers c now got).2 in
  p = Idle \/ p = Found \/ p = Finding \/ exists t, p = Adopting t.
Proof.
  unfold after_answers. destruct (scan_answers _) as [l mt].
  match goal with |- context [if ?b then signLeader ?c ?now ?n mt else _] => destruct (if b then signLeader c now n mt else (c, false)) as [c1 []] end;
    repeat case_if; simpl; eauto.
Qed.

Lemma votes_inv_answers members s n c st calls got l :
  votes_inv members s -> nodes s !! n = Some (c, Waiting st calls got) ->
  match st with
  | ForLeader _ => let x := after_answers c (now s) got in votes_inv members (put (add_strays s l) n x.1 x.2)
  | ForVotes t => let x := after_votes c t got in
                  votes_inv members (put (match x.2 with Waiting _ _ _ => add_won (add_strays s l) (n, t) | _ => add_strays s l end) n x.1 x.2)
  | ForAcks t => let x := after_acks c (now s) t got in votes_inv members (put (add_strays s l) n x.1 x.2)
  end.
Proof.
  intros Hi Hn. assert (votes_inv members (add_strays s l)) as Hi' by (by eapply (votes_inv_same _ s)).
  destruct st as [t|t|t]; simpl.
  - eapply votes_inv_keep; eauto using keeps_after_answers.
    destruct (after_answers_phase c (now s) got) as [->|[->|[->|[? ->]]]]; done.
  - unfold after_votes. case_if; simpl.
    + eapply votes_inv_open; [|exact Hn|done|done]. apply votes_inv_won; [done|]. intros E.
      eapply (majority_later s); [by apply later_refl_nodes|]. eapply count_majority; eauto. breflect. lia.
    + eapply votes_inv_keep; eauto using keeps_finish. done.
  - eapply votes_inv_keep; eauto using keeps_after_acks. unfold after_acks. destruct (if count_acks _ >=? _ then _ else _) as [c1 b]. exact I.
Qed.

Lemma votes_inv_exec members s a s' : votes_inv members s -> exec s a = Some s' -> votes_inv members s'.
Proof.
  intros Hi He. destruct a as [d|n alive|n|n|n|n|n m|n m|n m|n|n|n|n|n|n m|i|n|n|n]; simpl in He.
  - case_if; simplify_eq. by eapply (votes_inv_same _ s).
  - destruct (nodes s !! n) as [[c p]|] eqn:Hn; [|done]. case_if; simplify_eq. breflect.
    destruct (vi_node _ _ Hi _ _ _ Hn) as [N1 N2 N3].
    eapply votes_inv_put; [done|exact Hn|done| |].
    + split; [done|done|]. simpl. intros m Hm. rewrite forallb_forall in H0. specialize (H0 m). rewrite <- list_elem_of_In, N2 in H0.
      specialize (H0 Hm). by case_bool_decide.
    + eapply phase_ok_later; [eapply (later_put s); [exact Hn|done]|]. eapply vi_phase; eauto.
  - destruct (nodes s !! n) as [[c p]|] eqn:Hn; [|done]. case_if; [done|].
    destruct p; simplify_eq/=; eapply votes_inv_keep; eauto; done.
  - destruct (nodes s !! n) as [[c p]|] eqn:Hn; [|done].
    destruct p; try done; case_if; simplify_eq/=; eapply votes_inv_keep; eauto using keeps_finish; done.
  - destruct (nodes s !! n) as [[c []]|] eqn:Hn; simplify_eq.
    eapply votes_inv_keep; eauto; [|done]. etrans; [apply keeps_node|apply keeps_releaseLeader].
  - destruct (nodes s !! n) as [[c []]|] eqn:Hn; simplify_eq. unfold ask_leader. case_if.
    + eapply votes_inv_open; eauto; done.
    + eapply votes_inv_keep; eauto; done.
  - destruct (nodes s !! n) as [[c []]|] eqn:Hn; try done. destruct (nodes s !! m) as [[c' p']|] eqn:Hm; [|done].
    case_if; [|done]. breflect. repeat case_bool_decide; try done.
    pose proof (votes_inv_serve members s n m c c' p' st calls got Hi Hn Hm) as K. simpl in K.
    destruct (serve _ _ _) as [c1 r]. simplify_eq. auto.
  - destruct (nodes s !! n) as [[c []]|] eqn:Hn; try done. destruct (calls !! m) as [[r|]|] eqn:Ec; simplify_eq.
    eapply votes_inv_calls; eauto.
  - destruct (nodes s !! n) as [[c []]|] eqn:Hn; simplify_eq. eapply votes_inv_calls; eauto.
  - destruct (nodes s !! n) as [[c []]|] eqn:Hn; try done.
    pose proof (votes_inv_answers members s n c st calls got (abandoned c st calls) Hi Hn) as K.
    destruct st; simpl in K, He; [destruct (after_answers _ _ _)|destruct (after_votes _ _ _)|destruct (after_acks _ _ _ _)]; by simplify_eq.
  - destruct (nodes s !! n) as [[c []]|] eqn:Hn; simplify_eq. eapply votes_inv_keep; eauto; done.
  - destruct (nodes s !! n) as [[c []]|] eqn:Hn; simplify_eq. eapply votes_inv_keep; eauto; done.
  - destruct (nodes s !! n) as [[c []]|] eqn:Hn; simplify_eq. eapply votes_inv_keep; eauto; [|done].
    etrans; [apply keeps_term|apply keeps_createEvent].
  - destruct (nodes s !! n) as [[c []]|] eqn:Hn; try done.
    pose proof (request_votes_phase c nextTerm) as K. pose proof (keeps_request_votes c nextTerm) as K'.
    destruct (request_votes c nextTerm) as [c1 p1]. simplify_eq/=.
    destruct K as [[-> K]|K]; [|eapply votes_inv_keep; eauto; by destruct K as [->| ->]].
    eapply votes_inv_open; eauto. simpl. rewrite K. f_equal. by eapply vi_node.
  - destruct (nodes s !! n) as [[c p]|] eqn:Hn; [|done]. case_if; simplify_eq. by eapply (votes_inv_same _ s).
  - destruct (strays s !! i) as [[m r]|]; [|done]. destruct (nodes s !! m) as [[c p]|] eqn:Hn; [|done].
    assert (votes_inv members (mkSys (nodes s) (take i (strays s) ++ drop (S i) (strays s)) (now s) (won s))) as Hi' by (by eapply (votes_inv_same _ s)).
    case_if; simplify_eq; [done|]. eapply votes_inv_state; eauto using keeps_serve.
  - destruct (nodes s !! n) as [[c p]|] eqn:Hn; simplify_eq. eapply votes_inv_state; eauto with keeps.
  - destruct (nodes s !! n) as [[c p]|] eqn:Hn; simplify_eq. eapply votes_inv_state; eauto with keeps.
  - destruct (nodes s !! n) as [[c p]|] eqn:Hn; simplify_eq. eapply votes_inv_state; eauto with keeps.
Qed.

Lemma votes_inv_start members to : votes_inv members (start_sys members to).
Proof.
  assert (forall n x, nodes (start_sys members to) !! n = Some x -> n ∈ members /\ x = (start_node members to n, Idle)) as H.
  { intros n x H. apply elem_of_list_to_map_2, list_elem_of_fmap in H as (m & E & Hm). by simplify_eq. }
  split.
  - intros n. split; [by intros [x Hx]; apply H in Hx as [? _]|]. intros Hn.
    destruct (nodes (start_sys members to) !! n) eqn:E; [done|]. exfalso.
    apply not_elem_of_list_to_map in E. apply E. rewrite <- list_fmap_compose. apply list_elem_of_fmap. by exists n.
  - intros n c p Hn. apply H in Hn as [Hn E]. simplify_eq. split; [done|done|]. simpl. by intros m ->%list_elem_of_singleton.
  - intros n c p Hn. apply H in Hn as [Hn E]. by simplify_eq.
  - by intros n t Hw%elem_of_nil.
Qed.

Lemma votes_inv_execs members s l s' : votes_inv members s -> execs s l = Some s' -> votes_inv members s'.
Proof.
  induction l as [|a l IH] in s |- *; intros Hi He; simplify_eq/=; [done|].
  destruct (exec s a) eqn:E; [|done]. eauto using votes_inv_exec.
Qed.

Lemma won_unique members s a b t :
  votes_inv members s -> (a, t) ∈ won s -> (b, t) ∈ won s -> i32 t = t -> a = b.
Proof.
  intros Hi Ha Hb Et. destruct (vi_won _ _ Hi _ _ Ha Et) as (va & A1 & A2 & A3 & A4), (vi_won _ _ Hi _ _ Hb Et) as (vb & B1 & B2 & B3 & B4).
  destruct (quorum_meet members va vb) as (v & Hva & Hvb); try done. eapply voted_unique; eauto.
Qed.

Lemma i32_small t : 0 <= t < 2 ^ 31 -> i32 t = t.
Proof. intros. unfold i32. width. Qed.

(** ** Leaders *)

(** The others tell [n] that it leads. *)
Definition told_self (s : sys) (a : action) : bool :=
  match a with
  | Answers n =>
      match nodes s !! n with
      | Some (_, Waiting (ForLeader _) _ got) => bool_decide ((scan_answers (snd <$> got)).1 = n)
      | _ => false
      end
  | _ => false
  end.

Fixpoint never_told (s : sys) (l : list action) : bool :=
  match l with
  | [] => true
  | a :: l => negb (told_self s a) && match exec s a with Some s => never_told s l | None => true end
  end.

(** An operation that does not make its node the leader. *)
Definition calm (c c' : Cluster) : Prop := sate c' = leader -> sate c = leader /\ term c' = term c.

#[export] Instance calm_preorder : PreOrder calm.
Proof.
  split; [by intros c|]. intros a b c H1 H2 H. destruct (H2 H) as [H3 E]. destruct (H1 H3). split; congruence.
Qed.

Create HintDb calm.

Lemma calm_createEvent n l c : calm c (createEvent n l c).
Proof. unfold createEvent. by repeat case_if. Qed.

Lemma calm_sate x c : x <> leader -> calm c (set_sate x c).
Proof. by intros H E. Qed.

Lemma calm_leader x c : calm c (set_leader x c). Proof. done. Qed.
Lemma calm_node x c : calm c (set_node x c). Proof. done. Qed.
#[export] Hint Resolve calm_createEvent calm_leader calm_node : calm.
#[export] Hint Extern 1 (calm _ (set_sate _ _)) => by apply calm_sate : calm.

Ltac calmly := repeat (first [reflexivity | etrans; [|solve [eauto with calm]]]).

Lemma calm_releaseLeader c : calm c (releaseLeader c).
Proof. unfold releaseLeader. case_match; calmly. Qed.

Lemma calm_releaseWithNodeName c n : calm c (releaseWithNodeName c n).
Proof. unfold releaseWithNodeName. repeat case_if; calmly. Qed.

Lemma calm_finish c b : calm c (finish c b).
Proof. unfold finish. destruct b; repeat case_match; calmly. Qed.

Lemma calm_Close c : calm c (Close c).
Proof. unfold Close. case_if; [done|]. etrans; [apply calm_releaseLeader|]. calmly. Qed.

Lemma calm_Start c : calm c (Start c).
Proof. unfold Start. case_if; [|done]. intros H. by apply calm_createEvent in H as [? _]. Qed.

Lemma sate_events (l : list (eventName * name)) c :
  sate (foldl (fun c e => createEvent e.1 e.2 c) c l) = sate c /\ term (foldl (fun c e => createEvent e.1 e.2 c) c l) = term c.
Proof.
  induction l as [|e l IH] in c |- *; [done|]. simpl. destruct (IH (createEvent e.1 e.2 c)) as [-> ->].
  unfold createEvent. by repeat case_if.
Qed.

Lemma calm_signLeader c now n t : n <> Some (me c) -> calm c (signLeader c now n t).1.
Proof.
  intros Hn. unfold signLeader. destruct n as [n|]; [|done]. case_if; [done|].
  rewrite bool_decide_eq_false_2 by congruence. simpl. intros H. by rewrite (proj1 (sate_events _ _)) in H.
Qed.

Lemma signLeader_term c now n t : sate (signLeader c now n t).1 = leader -> sate c = leader \/ term (signLeader c now n t).1 = t.
Proof.
  unfold signLeader. destruct n as [n|]; [|by left]. case_if; [by left|]. intros _. right.
  case_if; simpl; by rewrite (proj2 (sate_events _ _)).
Qed.

Lemma calm_getVoteNodeName c t n : calm c (getVoteNodeName c t n).1.
Proof. unfold getVoteNodeName. by case_match. Qed.
#[export] Hint Resolve calm_Start calm_releaseLeader calm_releaseWithNodeName calm_finish calm_Close calm_getVoteNodeName : calm.

(** A request that does not announce its receiver. *)
Definition not_announced (m : name) (r : request) : Prop :=
  match r with BroadcastLeaderRequest _ _ l => l <> m | _ => True end.

Lemma calm_serve c now r : not_announced (me c) r -> calm c (serve c now r).1.
Proof.
  destruct r as [f t|f t|f t l|f t]; simpl; intros Hl.
  - unfold AskLeader. by repeat case_if.
  - unfold AskVote. pose proof (calm_getVoteNodeName c t f) as H.
    destruct (getVoteNodeName c t f) as [c1 v]. case_if; simpl in *; [|done]. etrans; [done|auto with calm].
  - unfold BroadcastLeader. repeat case_if; simpl; try done. apply calm_signLeader. congruence.
  - unfold Heartbeat. by repeat case_if.
Qed.

Lemma calm_request_votes c t : calm c (request_votes c t).1.
Proof.
  unfold request_votes. case_if; [done|]. case_if; [|simpl; auto with calm].
  unfold voteNode. simpl. destruct (votesMap c !! t); simpl; [case_bool_decide|]; simpl; try done.
  etrans; [|apply calm_finish]. by apply calm_sate.
Qed.

Lemma calm_after_votes c t got : calm c (after_votes c t got).1.
Proof. unfold after_votes. case_if; simpl; [done|auto with calm]. Qed.

Lemma calm_after_answers c now got : (scan_answers (snd <$> got)).1 <> me c -> calm c (after_answers c now got).1.
Proof.
  unfold after_answers. destruct (scan_answers _) as [l mt]. simpl. intros Hl.
  match goal with |- context [signLeader c now ?n mt] => assert (calm c (signLeader c now n mt).1) as H; [apply calm_signLeader|destruct (signLeader c now n mt) as [c1 b]] end.
  - rewrite (bool_decide_eq_false_2 (l = me c)) by done. case_if; congruence.
  - simpl in H. destruct (negb _); [destruct b|]; simpl; repeat case_if; simpl; try done.
    etrans; [done|auto with calm].
Qed.

Record lead_inv (s : sys) : Prop := {
  li_leader : forall n c p, nodes s !! n = Some (c, p) -> sate c = leader -> p = Idle /\ (n, term c) ∈ won s;
  li_acks : forall n c t calls got, nodes s !! n = Some (c, Waiting (ForAcks t) calls got) -> (n, t) ∈ won s;
  li_stray : forall m r, (m, r) ∈ strays s -> not_announced m r
}.

Definition acks_ok (s : sys) (n : name) (p : phase) : Prop :=
  match p with Waiting (ForAcks t) _ _ => (n, t) ∈ won s | _ => True end.

Lemma lead_put s n c' p' :
  lead_inv s -> (sate c' = leader -> p' = Idle /\ (n, term c') ∈ won s) -> acks_ok s n p' -> lead_inv (put s n c' p').
Proof.
  intros [Hl Ha Hs] H1 H2. split; simpl; [| |done].
  - intros m x q [[<- E]|[? E]]%lookup_insert_Some; simplify_eq; eauto.
  - intros m x t calls got [[<- E]|[? E]]%lookup_insert_Some; simplify_eq; [exact H2|eauto].
Qed.

(** A goroutine that runs does not run in a leader. *)
Lemma lead_move s n c p c' p' :
  lead_inv s -> nodes s !! n = Some (c, p) -> p <> Idle -> calm c c' -> acks_ok s n p' -> lead_inv (put s n c' p').
Proof.
  intros Hi Hn Hp Hc Ha. apply lead_put; [done| |done]. intros Hl. destruct (Hc Hl) as [Hl' _].
  by destruct (li_leader _ Hi _ _ _ Hn Hl').
Qed.

Lemma acks_ok_node s n c p : lead_inv s -> nodes s !! n = Some (c, p) -> acks_ok s n p.
Proof. intros Hi Hn. destruct p as [| | | | | | | | | |[] calls got]; try done. eapply (li_acks _ Hi); eauto. Qed.

(** The goroutine stays where it is. *)
Lemma lead_stay s n c p c' : lead_inv s -> nodes s !! n = Some (c, p) -> calm c c' -> lead_inv (put s n c' p).
Proof.
  intros Hi Hn Hc. apply lead_put; [done| |by eapply acks_ok_node]. intros Hl. destruct (Hc Hl) as [Hl' ->]. by eapply li_leader.
Qed.

(** Calls that are still open do not announce their receiver. *)
Lemma abandoned_ok members s n c st calls got m r :
  votes_inv members s -> nodes s !! n = Some (c, Waiting st calls got) -> (m, r) ∈ abandoned c st calls -> not_announced m r.
Proof.
  intros Hi Hn H. unfold abandoned in H. apply list_elem_of_fmap in H as ([k o] & E & H). simplify_eq.
  apply list_elem_of_In, filter_In in H as [H _]. apply list_elem_of_In, elem_of_map_to_list in H.
  destruct (vi_phase _ _ Hi _ _ _ Hn) as (_ & _ & H3 & _), (vi_node _ _ Hi _ _ _ Hn) as [N1 _ _].
  destruct st; simpl; try done. congruence.
Qed.

Lemma lead_strays s l : lead_inv s -> (forall m r, (m, r) ∈ l -> not_announced m r) -> lead_inv (add_strays s l).
Proof. intros [H1 H2 H3] Hl. split; simpl; [done|done|]. intros m r [H|H]%elem_of_app; auto. Qed.

Lemma lead_won s w : lead_inv s -> lead_inv (add_won s w).
Proof.
  intros [H1 H2 H3]. split; simpl; [| |done].
  - intros n c p Hn Hl. destruct (H1 _ _ _ Hn Hl). split; [done|]. by apply elem_of_cons; right.
  - intros. apply elem_of_cons. right. eauto.
Qed.

Lemma lead_answers members s n c st calls got s' :
  votes_inv members s -> lead_inv s -> nodes s !! n = Some (c, Waiting st calls got) ->
  told_self s (Answers n) = false -> exec s (Answers n) = Some s' -> lead_inv s'.
Proof.
  intros Hv Hi Hn Ht He. simpl in Ht, He. rewrite Hn in Ht, He. pose proof (node_me _ _ _ (vi_node _ _ Hv _ _ _ Hn)) as Hm.
  assert (lead_inv (add_strays s (abandoned c st calls))) as Hi' by (apply lead_strays; eauto using abandoned_ok).
  pose proof (li_acks _ Hi n c) as Hw. assert (sate c <> leader) as Hnl by (intros H; by destruct (li_leader _ Hi _ _ _ Hn H)).
  destruct st as [t|t|t]; simpl in He.
  - case_bool_decide; [done|]. pose proof (calm_after_answers c (now s) got) as Hc. pose proof (after_answers_phase c (now s) got) as Hp.
    destruct (after_answers _ _ _) as [c1 p1]. simplify_eq/=. eapply lead_move; [exact Hi'|exact Hn|done|by apply Hc; congruence|].
    destruct Hp as [->|[->|[->|[? ->]]]]; done.
  - unfold after_votes in He. case_if; simplify_eq/=.
    + eapply lead_move; [by apply lead_won|done|done|done|]. simpl. by apply elem_of_cons; left.
    + eapply lead_move; [exact Hi'|exact Hn|done|apply calm_finish|done].
  - unfold after_acks in He. pose proof (signLeader_term c (now s) (Some (me c)) t) as Hs.
    destruct (signLeader _ _ _ _) as [c1 b]. case_if; simplify_eq/=; apply lead_put; try done; intros Hl; apply calm_finish in Hl as [Hl ->]; [|done].
    split; [done|]. destruct (Hs Hl) as [| ->]; [done|eauto].
Qed.

Lemma lead_exec members s a s' :
  votes_inv members s -> lead_inv s -> told_self s a = false -> exec s a = Some s' -> lead_inv s'.
Proof.
  intros Hv Hi Ht He. destruct a as [d|n alive|n|n|n|n|n m|n m|n m|n|n|n|n|n|n m|i|n|n|n]; simpl in He.
  - case_if; simplify_eq. by destruct Hi.
  - destruct (nodes s !! n) as [[c p]|] eqn:Hn; [|done]. case_if; simplify_eq. by eapply lead_stay.
  - destruct (nodes s !! n) as [[c p]|] eqn:Hn; [|done]. case_if; [done|].
    destruct (checked p) as [p'|] eqn:Ep; simplify_eq. apply lead_put; [done| |by destruct p; simplify_eq/=].
    intros Hl. unfold busy, IsReady, is_sate in Heqb. by rewrite Hl in Heqb.
  - destruct (nodes s !! n) as [[c p]|] eqn:Hn; [|done].
    destruct p; try done; case_if; simplify_eq/=; (eapply lead_move; [exact Hi|exact Hn|done|apply calm_finish|done]).
  - destruct (nodes s !! n) as [[c []]|] eqn:Hn; simplify_eq. eapply lead_move; [exact Hi|exact Hn|done| |done].
    etrans; [apply calm_node|apply calm_releaseLeader].
  - destruct (nodes s !! n) as [[c []]|] eqn:Hn; simplify_eq. eapply lead_move; [exact Hi|exact Hn|done|done|]. unfold ask_leader. by case_if.
  - destruct (nodes s !! n) as [[c []]|] eqn:Hn; try done. destruct (nodes s !! m) as [[c' p']|] eqn:Hm; [|done].
    case_if; [|done]. breflect. repeat case_bool_decide; try done.
    pose proof (calm_serve c' (now s) (stage_request c st)) as K. destruct (serve _ _ _) as [c1 r]. simplify_eq/=.
    eapply (lead_move _ n c (Waiting st calls got)); [eapply lead_stay; eauto| |done|done|].
    + apply K. rewrite (node_me _ _ _ (vi_node _ _ Hv _ _ _ Hm)). destruct st; simpl; try done.
      by rewrite (node_me _ _ _ (vi_node _ _ Hv _ _ _ Hn)).
    + simpl. by rewrite lookup_insert_ne.
    + exact (acks_ok_node _ _ _ _ Hi Hn).
  - destruct (nodes s !! n) as [[c []]|] eqn:Hn; try done. destruct (calls !! m) as [[r|]|] eqn:Ec; simplify_eq.
    eapply lead_move; [exact Hi|exact Hn|done|done|]. exact (acks_ok_node _ _ _ _ Hi Hn).
  - destruct (nodes s !! n) as [[c []]|] eqn:Hn; simplify_eq. eapply lead_move; [exact Hi|exact Hn|done|done|]. exact (acks_ok_node _ _ _ _ Hi Hn).
  - destruct (nodes s !! n) as [[c []]|] eqn:Hn; try done. eapply lead_answers; eauto. simpl. by rewrite Hn.
  - destruct (nodes s !! n) as [[c []]|] eqn:Hn; simplify_eq. apply lead_put; [done| |done]. intros Hl. by destruct (li_leader _ Hi _ _ _ Hn Hl).
  - destruct (nodes s !! n) as [[c []]|] eqn:Hn; simplify_eq. eapply lead_move; [exact Hi|exact Hn|done|done|done].
  - destruct (nodes s !! n) as [[c []]|] eqn:Hn; simplify_eq. apply lead_put; [done| |done]. intros Hl.
    apply calm_createEvent in Hl as [Hl _]. by destruct (li_leader _ Hi _ _ _ Hn Hl).
  - destruct (nodes s !! n) as [[c []]|] eqn:Hn; try done.
    pose proof (request_votes_phase c nextTerm) as K. pose proof (calm_request_votes c nextTerm) as K'.
    destruct (request_votes c nextTerm) as [c1 p1]. simplify_eq/=. eapply lead_move; [exact Hi|exact Hn|done|done|]. by destruct K as [[-> K]|[->| ->]].
  - destruct (nodes s !! n) as [[c p]|] eqn:Hn; [|done]. case_if; simplify_eq. apply lead_strays; [done|]. by intros k r E%list_elem_of_singleton; simplify_eq.
  - destruct (strays s !! i) as [[m r]|] eqn:Ei; [|done]. destruct (nodes s !! m) as [[c p]|] eqn:Hn; [|done].
    assert (lead_inv (mkSys (nodes s) (take i (strays s) ++ drop (S i) (strays s)) (now s) (won s))) as Hi'.
    { destruct Hi as [H1 H2 H3]. split; simpl; [done|done|]. intros k q [Hk|Hk]%elem_of_app; [eapply H3, subseteq_take|eapply H3, subseteq_drop]; eauto. }
    case_if; simplify_eq; [done|]. eapply lead_stay; eauto. apply calm_serve.
    rewrite (node_me _ _ _ (vi_node _ _ Hv _ _ _ Hn)). eapply (li_stray _ Hi). by eapply list_elem_of_lookup_2.
  - destruct (nodes s !! n) as [[c p]|] eqn:Hn; simplify_eq. eapply lead_stay; eauto with calm.
  - destruct (nodes s !! n) as [[c p]|] eqn:Hn; simplify_eq. eapply lead_stay; eauto with calm.
  - destruct (nodes s !! n) as [[c p]|] eqn:Hn; simplify_eq. eapply lead_stay; eauto with calm.
Qed.

Lemma lead_execs members s l s' :
  votes_inv members s -> lead_inv s -> never_told s l = true -> execs s l = Some s' -> lead_inv s'.
Proof.
  induction l as [|a l IH] in s |- *; intros Hv Hi Ht He; simplify_eq/=; [done|].
  apply andb_true_iff in Ht as [Ht Ht']. apply negb_true_iff in Ht.
  destruct (exec s a) eqn:E; [|done]. apply (IH s0); [by eapply votes_inv_exec|by eapply lead_exec|done|done].
Qed.

Lemma lead_start members to : lead_inv (start_sys members to).
Proof.
  assert (forall n x, nodes (start_sys members to) !! n = Some x -> x = (start_node members to n, Idle)) as H.
  { intros n x H. apply elem_of_list_to_map_2, list_elem_of_fmap in H as (m & E & Hm). by simplify_eq. }
  split; simpl; [| |by intros m r Hr%elem_of_nil]; intros; apply H in H0; by simplify_eq.
Qed.

(** C6: Whatever the nodes, their connections and the network do, in any interleaving of
    elections, handlers, losses and time, no two nodes win the votes of the same term:
    the votes counted for each come from different nodes, each of which keeps its one
    vote of the term, and two quorums of the members share a node. *)
Theorem votes_unique (members : list name) (to : Z) (l : list action) (s : sys) (a b : name) (t : Z) :
  execs (start_sys members to) l = Some s -> (a, t) ∈ won s -> (b, t) ∈ won s -> 0 <= t < 2 ^ 31 -> a = b.
Proof.
  intros He Ha Hb Ht. apply (won_unique members s a b t); [|done|done|by apply i32_small].
  by eapply votes_inv_execs; [apply votes_inv_start|].
Qed.

(** C7: As long as no node is told by others that it leads itself, a node leads only the
    term whose votes it has won, and two leaders of the same term are the same node. *)
Theorem leaders_unique (members : list name) (to : Z) (l : list action) (s : sys) (a b : name) (ca cb : Cluster) (pa pb : phase) :
  execs (start_sys members to) l = Some s -> never_told (start_sys members to) l = true ->
  nodes s !! a = Some (ca, pa) -> nodes s !! b = Some (cb, pb) ->
  sate ca = leader -> sate cb = leader -> term ca = term cb -> 0 <= term ca < 2 ^ 31 -> (a, term ca) ∈ won s /\ a = b.
Proof.
  intros He Ht Ha Hb La Lb Et Hr. pose proof (votes_inv_execs _ _ _ _ (votes_inv_start members to) He) as Hv.
  pose proof (lead_execs _ _ _ _ (votes_inv_start members to) (lead_start members to) Ht He) as Hi.
  destruct (li_leader _ Hi _ _ _ Ha La) as [_ Wa], (li_leader _ Hi _ _ _ Hb Lb) as [_ Wb]. rewrite <- Et in Wb.
  split; [done|]. by apply (won_unique members s a b (term ca)); [..|apply i32_small].
Qed.

(** ** Runs *)

Module Runs.
Definition members : list name := ["A"; "B"; "C"; "D"; "E"]%string.

(** From the start of an election to the calls for votes, without a leader found. *)
Definition stand (n : name) : list action := [Pass n; Release n; Pass n; Ask n; Answers n; Pass n; Next n; Store n; Pass n; Vote n].

(** [n] calls [m] and gets the answer. *)
Definition call (n m : name) : list action := [Serve n m; Receive n m].

(** [n] is elected by [m1] and [m2]. *)
Definition elect (n m1 m2 : name) : list action :=
  Alive n members :: stand n ++ call n m1 ++ call n m2 ++ [Answers n] ++ call n m1 ++ call n m2 ++ [Answers n].

(** A is elected and steps down; D takes two terms to win the votes of E and B; E stands
    in vain and is in term 2, without a leader; C, which still follows A, tells A that A
    leads in term 1, and E tells it term 2: A leads in term 2, and so does D. *)
Definition two_leaders : list action :=
  elect "A" "B" "C" ++ [StepDown "A"; Alive "D" members; Alive "E" members] ++
  stand "D" ++ call "D" "E" ++ [Answers "D"] ++
  stand "D" ++ call "D" "E" ++ call "D" "B" ++ [Answers "D"] ++
  stand "E" ++ stand "E" ++
  [Pass "A"; Release "A"; Pass "A"; Ask "A"] ++ call "A" "C" ++ call "A" "E" ++ [Answers "A"] ++
  call "D" "E" ++ call "D" "B" ++ [Answers "D"].

(** B has read its term, 0, and computed the next; A fails in term 1 and is elected in
    term 2, also by B. *)
Definition slow_reader : list action :=
  [Alive "B" members; Alive "A" members; Pass "B"; Release "B"; Pass "B"; Ask "B"; Answers "B"; Pass "B"; Next "B"] ++
  stand "A" ++ [Answers "A"] ++ stand "A" ++ call "A" "B" ++ call "A" "C" ++ [Answers "A"] ++ call "A" "B" ++ call "A" "C" ++ [Answers "A"].

Definition final (l : list action) (n : name) : option (status * Z) :=
  match execs (start_sys members 5000) l with
  | Some s => match nodes s !! n with Some (c, _) => Some (sate c, term c) | None => None end
  | None => None
  end.

Definition the_run : list action := elect "A" "B" "C".
Definition elected : sys := default (start_sys members 5000) (execs (start_sys members 5000) the_run).
Definition at_node (s : sys) (n : name) : Cluster * phase := default (start_node members 5000 n, Idle) (nodes s !! n).

Lemma elected_run : execs (start_sys members 5000) the_run = Some elected.
Proof.
  assert (bool_decide (is_Some (execs (start_sys members 5000) the_run)) = true) as H by vm_eq.
  apply bool_decide_eq_true_1 in H as [s Hs]. unfold elected. by rewrite Hs.
Qed.

Lemma elected_node : nodes elected !! "A"%string = Some (at_node elected "A").
Proof.
  assert (bool_decide (is_Some (nodes elected !! "A"%string)) = true) as H by vm_eq.
  apply bool_decide_eq_true_1 in H as [x Hx]. unfold at_node. by rewrite Hx.
Qed.

Lemma elected_facts :
  bool_decide (("A"%string, 1) ∈ won elected) && bool_decide (sate (at_node elected "A").1 = leader) &&
  (term (at_node elected "A").1 =? 1) && never_told (start_sys members 5000) the_run = true.
Proof. vm_eq. Qed.

Lemma votes_unique_witness : ("A"%string, 1) ∈ won elected /\ "A"%string = "A"%string.
Proof.
  pose proof elected_facts as H. rewrite !andb_true_iff in H. destruct H as [[[H _] _] _].
  apply bool_decide_eq_true_1 in H. split; [exact H|].
  apply (votes_unique members 5000 the_run elected "A" "A" 1); [exact elected_run|exact H|exact H|lia].
Defined.

Lemma leaders_unique_witness :
  sate (at_node elected "A").1 = leader /\ never_told (start_sys members 5000) the_run = true /\
  ("A"%string, term (at_node elected "A").1) ∈ won elected /\ "A"%string = "A"%string.
Proof.
  pose proof elected_facts as H. rewrite !andb_true_iff in H. destruct H as [[[_ Hl] Ht] Hn].
  apply bool_decide_eq_true_1 in Hl. apply Z.eqb_eq in Ht. split; [exact Hl|]. split; [exact Hn|].
  pose proof elected_node as He. destruct (at_node elected "A") as [c p]. cbn [fst] in Hl, Ht |- *.
  apply (leaders_unique members 5000 the_run elected "A" "A" c c p p);
    [exact elected_run|exact Hn|exact He|exact He|exact Hl|exact Hl|reflexivity|clear - Ht; lia].
Defined.

(** The loop over the answers to AskLeader keeps the leader of an older term when a
    later answer raises the term: a node that has stepped down makes itself leader of a
    term it never won, next to the node that won it. *)
Theorem two_leaders_one_term :
  final two_leaders "A" = Some (leader, 2) /\ final two_leaders "D" = Some (leader, 2) /\
  scan_answers [AskLeaderResponse true 1 "A"; AskLeaderResponse true 2 EmptyString] = ("A"%string, 2).
Proof. repeat split; vm_eq. Qed.

(** A term read before and stored after a leader was signed takes the term back. *)
Theorem term_goes_back :
  final slow_reader "B" = Some (follower, 2) /\ final (slow_reader ++ [Store "B"]) "B" = Some (follower, 1).
Proof. repeat split; vm_eq. Qed.

(** After Close and Start no event is sent any more. *)
Theorem restart_without_events c n l :
  IsClose c = false -> events (createEvent n l (Start (Close c))) = events (Close c).
Proof.
  intros Hc. assert (eventsClosed (Close c) = true) as He.
  { unfold Close. rewrite Hc. set (d := set_sate _ _). unfold createEvent. case_if; [done|].
    rewrite andb_false_r. unfold eventsClosed. simpl. rewrite existsb_app. simpl. by rewrite orb_true_r. }
  assert (forall x m k, events x = events (Close c) -> createEvent m k x = x) as Hx.
  { intros x m k E. unfold createEvent, eventsClosed in *. by rewrite E, He. }
  unfold Start. case_if; [|by rewrite Hx]. rewrite (Hx _ n l); rewrite Hx; reflexivity.
Qed.

(** A node that is closed while it announces itself becomes leader after all. *)
Theorem leader_after_close :
  final (removelast (elect "A" "B" "C") ++ [Shut "A"; Answers "A"]) "A" = Some (leader, 1).
Proof. vm_eq. Qed.
End Runs.
