(* ===== verification/ReqHeader.v ===== *)
(** * The header of a request

    [RequestHeader] of [web/protocol/header.go]: the fields kept apart, the list of the
    others, the cookies taken out of it on demand, and the trailer.  Buffers that only
    carry results ([bufKV], [mulHeader]) are not part of the state. *)

From S2P Require Import Prelude Bytes BytesConv Args ArgsSpec HeaderScan Trailer.

Record RequestHeader := mkReq {
  disableNormalizing : bool;
  connectionClose : bool;
  noDefaultContentType : bool;
  cookiesCollected : bool;
  contentLength : Z;
  contentLengthBytes : bytes;
  method : bytes;
  requestURI : bytes;
  host : bytes;
  contentType : bytes;
  userAgent : bytes;
  protocol : bytes;
  rq_h : list argsKV;
  rq_trailer : Trailer;
  cookies : list argsKV;
  rawHeaders : bytes
}.

Definition newRequestHeader : RequestHeader :=
  mkReq false false false false 0 [] [] [] [] [] [] [] [] newTrailer [] [].

(** Setters; those of the code have its names. *)
Definition SetDisable (h : RequestHeader) (x : bool) : RequestHeader :=
  mkReq x (connectionClose h) (noDefaultContentType h) (cookiesCollected h) (contentLength h) (contentLengthBytes h) (method h) (requestURI h) (host h) (contentType h) (userAgent h) (protocol h) (rq_h h) (rq_trailer h) (cookies h) (rawHeaders h).
Definition SetConnectionClose (h : RequestHeader) (x : bool) : RequestHeader :=
  mkReq (disableNormalizing h) x (noDefaultContentType h) (cookiesCollected h) (contentLength h) (contentLengthBytes h) (method h) (requestURI h) (host h) (contentType h) (userAgent h) (protocol h) (rq_h h) (rq_trailer h) (cookies h) (rawHeaders h).
Definition SetNoDefaultContentType (h : RequestHeader) (x : bool) : RequestHeader :=
  mkReq (disableNormalizing h) (connectionClose h) x (cookiesCollected h) (contentLength h) (contentLengthBytes h) (method h) (requestURI h) (host h) (contentType h) (userAgent h) (protocol h) (rq_h h) (rq_trailer h) (cookies h) (rawHeaders h).
Definition set_collected (h : RequestHeader) (x : bool) : RequestHeader :=
  mkReq (disableNormalizing h) (connectionClose h) (noDefaultContentType h) x (contentLength h) (contentLengthBytes h) (method h) (requestURI h) (host h) (contentType h) (userAgent h) (protocol h) (rq_h h) (rq_trailer h) (cookies h) (rawHeaders h).
Definition InitContentLengthWithValue (h : RequestHeader) (x : Z) : RequestHeader :=
  mkReq (disableNormalizing h) (connectionClose h) (noDefaultContentType h) (cookiesCollected h) x (contentLengthBytes h) (method h) (requestURI h) (host h) (contentType h) (userAgent h) (protocol h) (rq_h h) (rq_trailer h) (cookies h) (rawHeaders h).
Definition SetContentLengthBytes (h : RequestHeader) (x : bytes) : RequestHeader :=
  mkReq (disableNormalizing h) (connectionClose h) (noDefaultContentType h) (cookiesCollected h) (contentLength h) x (method h) (requestURI h) (host h) (contentType h) (userAgent h) (protocol h) (rq_h h) (rq_trailer h) (cookies h) (rawHeaders h).
Definition SetMethodBytes (h : RequestHeader) (x : bytes) : RequestHeader :=
  mkReq (disableNormalizing h) (connectionClose h) (noDefaultContentType h) (cookiesCollected h) (contentLength h) (contentLengthBytes h) x (requestURI h) (host h) (contentType h) (userAgent h) (protocol h) (rq_h h) (rq_trailer h) (cookies h) (rawHeaders h).
Definition SetRequestURIBytes (h : RequestHeader) (x : bytes) : RequestHeader :=
  mkReq (disableNormalizing h) (connectionClose h) (noDefaultContentType h) (cookiesCollected h) (contentLength h) (contentLengthBytes h) (method h) x (host h) (contentType h) (userAgent h) (protocol h) (rq_h h) (rq_trailer h) (cookies h) (rawHeaders h).
Definition SetHostBytes (h : RequestHeader) (x : bytes) : RequestHeader :=
  mkReq (disableNormalizing h) (connectionClose h) (noDefaultContentType h) (cookiesCollected h) (contentLength h) (contentLengthBytes h) (method h) (requestURI h) x (contentType h) (userAgent h) (protocol h) (rq_h h) (rq_trailer h) (cookies h) (rawHeaders h).
Definition SetContentTypeBytes (h : RequestHeader) (x : bytes) : RequestHeader :=
  mkReq (disableNormalizing h) (connectionClose h) (noDefaultContentType h) (cookiesCollected h) (contentLength h) (contentLengthBytes h) (method h) (requestURI h) (host h) x (userAgent h) (protocol h) (rq_h h) (rq_trailer h) (cookies h) (rawHeaders h).
Definition SetUserAgentBytes (h : RequestHeader) (x : bytes) : RequestHeader :=
  mkReq (disableNormalizing h) (connectionClose h) (noDefaultContentType h) (cookiesCollected h) (contentLength h) (contentLengthBytes h) (method h) (requestURI h) (host h) (contentType h) x (protocol h) (rq_h h) (rq_trailer h) (cookies h) (rawHeaders h).
Definition SetProtocol (h : RequestHeader) (x : bytes) : RequestHeader :=
  mkReq (disableNormalizing h) (connectionClose h) (noDefaultContentType h) (cookiesCollected h) (contentLength h) (contentLengthBytes h) (method h) (requestURI h) (host h) (contentType h) (userAgent h) x (rq_h h) (rq_trailer h) (cookies h) (rawHeaders h).
Definition set_h (h : RequestHeader) (x : list argsKV) : RequestHeader :=
  mkReq (disableNormalizing h) (connectionClose h) (noDefaultContentType h) (cookiesCollected h) (contentLength h) (contentLengthBytes h) (method h) (requestURI h) (host h) (contentType h) (userAgent h) (protocol h) x (rq_trailer h) (cookies h) (rawHeaders h).
Definition set_trailer (h : RequestHeader) (x : Trailer) : RequestHeader :=
  mkReq (disableNormalizing h) (connectionClose h) (noDefaultContentType h) (cookiesCollected h) (contentLength h) (contentLengthBytes h) (method h) (requestURI h) (host h) (contentType h) (userAgent h) (protocol h) (rq_h h) x (cookies h) (rawHeaders h).
Definition set_cookies (h : RequestHeader) (x : list argsKV) : RequestHeader :=
  mkReq (disableNormalizing h) (connectionClose h) (noDefaultContentType h) (cookiesCollected h) (contentLength h) (contentLengthBytes h) (method h) (requestURI h) (host h) (contentType h) (userAgent h) (protocol h) (rq_h h) (rq_trailer h) x (rawHeaders h).
Definition SetRawHeaders (h : RequestHeader) (x : bytes) : RequestHeader :=
  mkReq (disableNormalizing h) (connectionClose h) (noDefaultContentType h) (cookiesCollected h) (contentLength h) (contentLengthBytes h) (method h) (requestURI h) (host h) (contentType h) (userAgent h) (protocol h) (rq_h h) (rq_trailer h) (cookies h) x.

Definition HTTP11 : bytes := str "HTTP/1.1".
Definition HTTP10 : bytes := str "HTTP/1.0".
Definition IsHTTP11 (h : RequestHeader) : bool := bytes_eqb (protocol h) HTTP11.
Definition SetNoHTTP11 (h : RequestHeader) (b : bool) : RequestHeader := SetProtocol h (if b then HTTP10 else HTTP11).

Definition DisableNormalizing (h : RequestHeader) : RequestHeader :=
  set_trailer (SetDisable h true) (trailer_DisableNormalizing (rq_trailer h)).

Definition ResetSkipNormalize (h : RequestHeader) : RequestHeader :=
  mkReq (disableNormalizing h) false false false 0 [] [] [] [] [] [] [] [] (trailer_ResetSkipNormalize (rq_trailer h)) [] [].

Definition Reset (h : RequestHeader) : RequestHeader :=
  ResetSkipNormalize (set_trailer (SetDisable h false) (mkTrailer (tr_h (rq_trailer h)) false)).

(** ** Reading *)

Definition Method (h : RequestHeader) : bytes := if len (method h) =? 0 then str "GET" else method h.
Definition RequestURI (h : RequestHeader) : bytes := if len (requestURI h) =? 0 then str "/" else requestURI h.
Definition IsMethod (h : RequestHeader) (m : string) : bool := bytes_eqb (Method h) (str m).
Definition IgnoreBody (h : RequestHeader) : bool := IsMethod h "GET" || IsMethod h "HEAD".

Definition PeekArgBytes (h : RequestHeader) (key : bytes) : bytes := peekArgBytes (rq_h h) key.

Definition eqs (key : bytes) (s : string) : bool := bytes_eqb key (str s).

Definition peek (h : RequestHeader) (key : bytes) : bytes :=
  if eqs key "Host" then host h
  else if eqs key "Content-Type" then contentType h
  else if eqs key "User-Agent" then userAgent h
  else if eqs key "Connection" then if connectionClose h then str "close" else peekArgBytes (rq_h h) key
  else if eqs key "Content-Length" then contentLengthBytes h
  else if eqs key "Cookie" then if cookiesCollected h then cookie_bytes (cookies h) else peekArgBytes (rq_h h) key
  else if eqs key "Trailer" then GetBytes (tr_h (rq_trailer h))
  else peekArgBytes (rq_h h) key.

Definition norm_key (h : RequestHeader) (key : bytes) : bytes := NormalizeHeaderKey key (disableNormalizing h).
Definition Peek (h : RequestHeader) (key : bytes) : bytes := peek h (norm_key h key).

Definition nonempty (b : bytes) : list bytes := if len b >? 0 then [b] else [].

Definition peekAll (h : RequestHeader) (key : bytes) : list bytes :=
  if eqs key "Host" then nonempty (host h)
  else if eqs key "Content-Type" then nonempty (contentType h)
  else if eqs key "User-Agent" then nonempty (userAgent h)
  else if eqs key "Connection" then if connectionClose h then [str "close"] else peekAll_loop [] (rq_h h) key
  else if eqs key "Content-Length" then [contentLengthBytes h]
  else if eqs key "Cookie" then if cookiesCollected h then [cookie_bytes (cookies h)] else peekAll_loop [] (rq_h h) key
  else peekAll_loop [] (rq_h h) key.

Definition PeekAll (h : RequestHeader) (key : bytes) : list bytes := peekAll h (norm_key h key).

(** ** Cookies *)

Definition is_cookie (kv : argsKV) : bool := bytes_eqb (kv_key kv) (str "Cookie").

(** The loop moves the Cookie fields out of the list. *)
Definition collectCookies (h : RequestHeader) : RequestHeader :=
  if cookiesCollected h then h
  else
    let found := List.filter is_cookie (rq_h h) in
    set_collected (set_h (set_cookies h (foldl (fun cs kv => parseRequestCookies cs (kv_value kv)) (cookies h) found))
                     (List.filter (fun kv => negb (is_cookie kv)) (rq_h h))) true.

Definition SetCookie (h : RequestHeader) (key value : bytes) : RequestHeader :=
  let h := collectCookies h in set_cookies h (setArgBytes (cookies h) key value).
Definition Cookie (h : RequestHeader) (key : bytes) : RequestHeader * bytes :=
  let h := collectCookies h in (h, peekArgBytes (cookies h) key).
Definition DelCookie (h : RequestHeader) (key : bytes) : RequestHeader :=
  let h := collectCookies h in set_cookies h (delAllArgsBytes (cookies h) key).
Definition DelAllCookies (h : RequestHeader) : RequestHeader := set_cookies (collectCookies h) [].

(** ** Setting *)

Definition ResetConnectionClose (h : RequestHeader) : RequestHeader :=
  if connectionClose h then set_h (SetConnectionClose h false) (delAllArgsBytes (rq_h h) (str "Connection")) else h.

(** The header and whether the field was a special one. *)
Definition setSpecialHeader (h : RequestHeader) (key value : bytes) : outcome (RequestHeader * bool) :=
  match key with
  | [] => Ret (h, false)
  | k :: _ =>
      let c := Z.lor k 32 in
      let named s := CaseInsensitiveCompare (str s) key in
      if c =? 99 then
        if named "Content-Type" then Ret (SetContentTypeBytes h value, true)
        else if named "Content-Length" then
          Ret (match ParseContentLength value with
               | Some n => SetContentLengthBytes (InitContentLengthWithValue h n) value
               | None => h
               end, true)
        else if named "Connection" then
          Ret (if bytes_eqb (str "close") value then SetConnectionClose h true
               else let h := ResetConnectionClose h in set_h h (setArgBytes (rq_h h) key value), true)
        else if named "Cookie" then
          let h := collectCookies h in Ret (set_cookies h (parseRequestCookies (cookies h) value), true)
        else Ret (h, false)
      else if c =? 116 then
        if named "Transfer-Encoding" then Ret (h, true)
        else if named "Trailer" then run (t, _) <- SetTrailers (rq_trailer h) value; Ret (set_trailer h t, true)
        else Ret (h, false)
      else if c =? 104 then if named "Host" then Ret (SetHostBytes h value, true) else Ret (h, false)
      else if c =? 117 then if named "User-Agent" then Ret (SetUserAgentBytes h value, true) else Ret (h, false)
      else Ret (h, false)
  end.

Definition SetCanonical (h : RequestHeader) (key value : bytes) : outcome RequestHeader :=
  run (h, special) <- setSpecialHeader h key value;
  Ret (if special then h else set_h h (setArgBytes (rq_h h) key value)).

Definition Set_ (h : RequestHeader) (key value : bytes) : outcome RequestHeader := SetCanonical h (norm_key h key) value.

Definition Add (h : RequestHeader) (key value : bytes) : outcome RequestHeader :=
  run (h, special) <- setSpecialHeader h key value;
  Ret (if special then h else set_h h (appendArgBytes (rq_h h) (norm_key h key) value false)).

Definition AddArgBytes (h : RequestHeader) (key value : bytes) : RequestHeader := set_h h (appendArgBytes (rq_h h) key value false).
Definition SetArgBytes (h : RequestHeader) (key value : bytes) : RequestHeader := set_h h (setArgBytes (rq_h h) key value).

Definition SetContentLength (h : RequestHeader) (n : Z) : outcome RequestHeader :=
  let h := InitContentLengthWithValue h n in
  if n >=? 0 then
    run d <- AppendUint [] n;
    let h := SetContentLengthBytes h d in Ret (set_h h (delAllArgsBytes (rq_h h) (str "Transfer-Encoding")))
  else
    let h := SetContentLengthBytes h [] in
    Ret (set_h h (setArgBytes (rq_h h) (str "Transfer-Encoding") (str "chunked"))).

Definition SetByteRange (h : RequestHeader) (startPos endPos : Z) : outcome RequestHeader :=
  run b <- (if startPos >=? 0 then AppendUint (str "bytes=") startPos else Ret (str "bytes="));
  let endPos := if startPos >=? 0 then endPos else i64 (- startPos) in
  run b <- (if endPos >=? 0 then AppendUint (b ++ str "-") endPos else Ret (b ++ str "-"));
  SetCanonical h (str "Range") b.

Definition SetMultipartFormBoundary (h : RequestHeader) (boundary : bytes) : RequestHeader :=
  SetContentTypeBytes h (str "multipart/form-data; boundary=" ++ boundary).

(** The loop of MultipartFormBoundary; [n] octets of [b] are behind. *)
Fixpoint boundary_loop (fuel : nat) (b : bytes) (n : Z) : option bytes :=
  match fuel with
  | O => None
  | S fuel =>
      if len b =? 0 then None
      else
        let b := zdrop (n + 1 + leading 32 (zdrop (n + 1) b)) b in
        if negb (has_prefix (str "boundary") b) then
          let n := IndexByte b 59 in if n <? 0 then None else boundary_loop fuel b n
        else
          match zdrop 8 b with
          | 61 :: b =>
              let n := IndexByte b 59 in
              let b := if n >=? 0 then ztake n b else b in
              Some (if (len b >? 1) && bool_decide (head b = Some 34) && bool_decide (last b = Some 34) then removelast (drop 1 b) else b)
          | _ => None
          end
  end.

Definition MultipartFormBoundary (h : RequestHeader) : option bytes :=
  let b := contentType h in
  if negb (has_prefix (str "multipart/form-data") b) then None
  else match zdrop 19 b with
       | 59 :: b' => boundary_loop (S (length b')) (59 :: b') 0
       | _ => None
       end.

(** ** Deleting and copying *)

Definition del (h : RequestHeader) (key : bytes) : RequestHeader :=
  let h := if eqs key "Host" then SetHostBytes h []
           else if eqs key "Content-Type" then SetContentTypeBytes h []
           else if eqs key "User-Agent" then SetUserAgentBytes h []
           else if eqs key "Cookie" then set_cookies h []
           else if eqs key "Content-Length" then SetContentLengthBytes (InitContentLengthWithValue h 0) []
           else if eqs key "Connection" then SetConnectionClose h false
           else if eqs key "Trailer" then set_trailer h (trailer_ResetSkipNormalize (rq_trailer h))
           else h in
  set_h h (delAllArgsBytes (rq_h h) key).

Definition Del (h : RequestHeader) (key : bytes) : RequestHeader := del h (norm_key h key).

Definition CopyTo (h dst : RequestHeader) : RequestHeader :=
  mkReq (disableNormalizing h) (connectionClose h) (noDefaultContentType h) (cookiesCollected h) (contentLength h) (contentLengthBytes h)
    (method h) (requestURI h) (host h) (contentType h) (userAgent h) (protocol h) (copyKV <$> rq_h h)
    (trailer_CopyTo (rq_trailer h) (rq_trailer (Reset dst))) (copyKV <$> cookies h) (rawHeaders h).

(** ** Visiting and printing *)

(** What VisitAll shows its visitor, in order, and the header it leaves. *)
Definition VisitAll (h : RequestHeader) : RequestHeader * list (bytes * bytes) :=
  let shown (k : string) v := if len v >? 0 then [(str k, v)] else [] in
  let front := shown "Host" (host h) ++ shown "Content-Length" (contentLengthBytes h) ++ shown "Content-Type" (contentType h) ++
               shown "User-Agent" (userAgent h) ++
               (if trailer_Empty (rq_trailer h) then [] else [(str "Trailer", GetBytes (tr_h (rq_trailer h)))]) in
  let h := collectCookies h in
  (h, front ++ match cookies h with [] => [] | _ => [(str "Cookie", cookie_bytes (cookies h))] end ++
      ((fun kv => (kv_key kv, kv_value kv)) <$> rq_h h) ++
      (if connectionClose h then [(str "Connection", str "close")] else [])).

Definition Len (h : RequestHeader) : Z := len (VisitAll h).2.

(** A line, unless the value is empty. *)
Definition header_line (dst : bytes) (key : string) (value : bytes) : bytes :=
  if len value >? 0 then appendHeaderLine dst (str key) value else dst.

Definition sent_contentType (h : RequestHeader) : bytes :=
  if (len (contentType h) =? 0) && negb (IgnoreBody h) && negb (noDefaultContentType h)
  then str "application/x-www-form-urlencoded" else contentType h.

Definition AppendBytes (h : RequestHeader) (dst : bytes) : bytes :=
  let dst := dst ++ Method h ++ [32] ++ RequestURI h ++ [32] ++ str "HTTP/1.1" ++ [13; 10] in
  let dst := header_line dst "User-Agent" (userAgent h) in
  let dst := header_line dst "Host" (host h) in
  let dst := header_line dst "Content-Type" (sent_contentType h) in
  let dst := header_line dst "Content-Length" (contentLengthBytes h) in
  let dst := foldl (fun dst kv => appendHeaderLine dst (kv_key kv) (kv_value kv)) dst (rq_h h) in
  let dst := if trailer_Empty (rq_trailer h) then dst else appendHeaderLine dst (str "Trailer") (GetBytes (tr_h (rq_trailer h))) in
  let dst := match cookies h with [] => dst | _ => appendRequestCookieBytes (dst ++ str "Cookie: ") (cookies h) ++ [13; 10] end in
  let dst := if connectionClose h then appendHeaderLine dst (str "Connection") (str "close") else dst in
  dst ++ [13; 10].
