(* ===== verification/ReqParse.v ===== *)
(** * Reading the header of a request

    [web/protocol/http1/req/header.go]: the first line, the fields, and the loop that
    waits for the rest of a header that has not arrived yet.  The reader is the
    documented one of [web/network]: the octets it holds in one buffer, and the pieces
    that will arrive; [Peek] shows the buffer itself, which parsing rewrites. *)

From S2P Require Import Prelude Bytes BytesConv Args ArgsSpec HeaderScan Trailer ReqHeader.

(** ** The first line *)

Definition maxCheckMethodLen : Z := 10.

(** The loop over an incomplete first line: is what there is of the method valid? *)
Fixpoint check_method (buf : bytes) (i : Z) : bool :=
  match buf with
  | [] => true
  | c :: buf =>
      if (c =? 32) || (i >? maxCheckMethodLen) then true
      else if tab ValidHeaderFieldNameTable c =? 0 then false
      else check_method buf (i + 1)
  end.

(** The header and the length of the line. *)
Definition parseFirstLine (h : RequestHeader) (buf : bytes) : RequestHeader * result headerErr Z :=
  match NextLine buf with
  | Err e => (h, Err (if check_method buf 0 then e else errMalformedHTTPRequest))
  | Ok (b, leftb) =>
      let n := IndexByte b 32 in
      if n <=? 0 then (h, Err errMalformedHTTPRequest)
      else
        let h := SetMethodBytes h (ztake n b) in
        let b := zdrop (n + 1) b in
        let n := IndexByte b 32 in
        if n <=? 0 then (h, Err errMalformedHTTPRequest)
        else
          let h := SetRequestURIBytes h (ztake n b) in
          let b := zdrop (n + 1) b in
          if bytes_eqb b HTTP11 then (SetProtocol h HTTP11, Ok (len buf - len leftb))
          else if bytes_eqb b HTTP10 then (SetProtocol h HTTP10, Ok (len buf - len leftb))
          else if (len b <? 5) || negb (bytes_eqb (ztake 5 b) (str "HTTP/")) then (h, Err errMalformedHTTPRequest)
          else (SetProtocol h HTTP10, Ok (len buf - len leftb))
  end.

(** ** The fields *)

Definition validHeaderFieldValue (val : bytes) : bool := forallb (fun v => negb (tab ValidHeaderFieldValueTable v =? 0)) val.

(** The switch over the key of a field; [err] is the first error so far. *)
Definition parse_field (h : RequestHeader) (key value : bytes) (err : option headerErr) : RequestHeader * option headerErr :=
  let c := Z.lor (hd 0 key) 32 in
  let named s := CaseInsensitiveCompare key (str s) in
  let other := (AddArgBytes h key value, err) in
  if c =? 104 then if named "Host" then (SetHostBytes h value, err) else other
  else if c =? 117 then if named "User-Agent" then (SetUserAgentBytes h value, err) else other
  else if c =? 99 then
    if named "Content-Type" then (SetContentTypeBytes h value, err)
    else if named "Content-Length" then
      if negb (contentLength h =? -1) then
        match ParseContentLength value with
        | None => (InitContentLengthWithValue h (-2), match err with None => Some errContentLengthValue | _ => err end)
        | Some n => (SetContentLengthBytes (InitContentLengthWithValue h n) value, err)
        end
      else (h, err)
    else if named "Connection" then
      if bytes_eqb value (str "close") then (SetConnectionClose h true, err)
      else (AddArgBytes (SetConnectionClose h false) key value, err)
    else other
  else if c =? 116 then
    if named "Transfer-Encoding" then
      if negb (bytes_eqb value (str "identity"))
      then (SetArgBytes (InitContentLengthWithValue h (-1)) (str "Transfer-Encoding") (str "chunked"), err)
      else (h, err)
    else if named "Trailer" then (h, err)
    else other
  else other.

(** The loop over the fields: the header, the scanner, and the error it ends with, or
    that of a field that ends it at once. *)
Fixpoint fields_loop (fuel : nat) (h : RequestHeader) (s : HeaderScanner) (err : option headerErr) :
    RequestHeader * HeaderScanner * result headerErr (option headerErr) :=
  match fuel with
  | O => (h, s, Err errNeedMore)
  | S fuel =>
      match Next s with
      | (s, false) => (h, s, Ok err)
      | (s, true) =>
          let key := sc_Key s in let value := sc_Value s in
          if len key >? 0 then
            if negb (IndexByte key 32 =? -1) || negb (IndexByte key 9 =? -1) then (h, s, Err errInvalidKey)
            else if negb (validHeaderFieldValue value) then (h, s, Err errInvalidValue)
            else let '(h, err) := parse_field h key value err in fields_loop fuel h s err
          else fields_loop fuel (AddArgBytes h key value) s err
      end
  end.

(** The header, the buffer, and the length of the fields.  A field takes an octet at
    least, so that the loop ends within the fuel. *)
Definition parseHeaders (h : RequestHeader) (buf : bytes) : RequestHeader * bytes * result headerErr Z :=
  let h := InitContentLengthWithValue h (-2) in
  let '(h, s, r) := fields_loop (S (length buf)) h (newScanner buf (disableNormalizing h)) None in
  match r with
  | Err e => (h, sc_buffer s, Err e)
  | Ok err =>
      match (match err with Some e => Some e | None => sc_Err s end) with
      | Some e => (SetConnectionClose h true, sc_buffer s, Err e)
      | None =>
          let h := if contentLength h <? 0 then SetContentLengthBytes h [] else h in
          let h := if negb (IsHTTP11 h) && negb (connectionClose h)
                   then SetConnectionClose h (negb (HasHeaderValue (PeekArgBytes h (str "Connection")) (str "keep-alive")))
                   else h in
          (h, sc_buffer s, Ok (HLen s))
      end
  end.

(** The header, the buffer, and the length of the whole header. *)
Definition parse (h : RequestHeader) (buf : bytes) : RequestHeader * bytes * result headerErr Z :=
  match parseFirstLine h buf with
  | (h, Err e) => (h, buf, Err e)
  | (h, Ok m) =>
      match ReadRawHeaders (zdrop m buf) with
      | Err e => (SetRawHeaders h [], buf, Err e)
      | Ok (raw, _) =>
          let '(h, rest, r) := parseHeaders (SetRawHeaders h raw) (zdrop m buf) in
          (h, ztake m buf ++ rest, try n <- r; Ok (m + n))
      end
  end.

(** ** The reader *)

Record reader := mkReader {
  rd_buf : bytes;
  rd_wire : list bytes
}.

(** fill: reads until [n] octets are there; [false] at the end of the stream. *)
Fixpoint fill (buf : bytes) (wire : list bytes) (n : Z) : reader * bool :=
  if len buf >=? n then (mkReader buf wire, true)
  else match wire with
       | [] => (mkReader buf [], false)
       | p :: wire => fill (buf ++ p) wire n
       end.

(** Peek shows nothing at the end of the stream. *)
Definition Peek (r : reader) (n : Z) : reader * option bytes :=
  let '(r, ok) := fill (rd_buf r) (rd_wire r) n in
  (r, if ok then Some (ztake n (rd_buf r)) else None).

Definition tryReadWithLimit (h : RequestHeader) (r : reader) (n maxHeaderBytes : Z) : RequestHeader * reader * option headerErr :=
  let h := ResetSkipNormalize h in
  match Peek r n with
  | (r, None) => (h, r, Some (if n =? 1 then errNothingRead else errEOFReadHeader))
  | (r, Some _) =>
      let cut := if (maxHeaderBytes >? 0) && (len (rd_buf r) >? maxHeaderBytes) then maxHeaderBytes else len (rd_buf r) in
      let b := ztake cut (rd_buf r) in
      let '(h, b', res) := parse h b in
      let buf := b' ++ zdrop cut (rd_buf r) in
      match res with
      | Err e =>
          (h, mkReader buf (rd_wire r),
           Some (if (maxHeaderBytes >? 0) && (len b >=? maxHeaderBytes) && bool_decide (e = errNeedMore) then errHeaderTooLarge else e))
      | Ok headersLen => (h, mkReader (zdrop headersLen buf) (rd_wire r), None)
      end
  end.

(** The loop around a try: as long as it needs more octets than there are, it waits for
    them.  The same loop reads the headers of requests and of responses, and trailers. *)
Fixpoint wait_loop {H} (tr : H -> reader -> Z -> outcome (H * reader * option headerErr)) (reset : H -> H) (fuel : nat) (h : H) (r : reader) (n : Z) :
    outcome (H * reader * option headerErr) :=
  match fuel with
  | O => OutOfFuel
  | S fuel =>
      run (h, r, err) <- tr h r n;
      match err with
      | None => Ret (h, r, None)
      | Some e =>
          if negb (bool_decide (e = errNeedMore)) then Ret (reset h, r, Some e)
          else wait_loop tr reset fuel h r (if n =? len (rd_buf r) then n + 1 else len (rd_buf r))
      end
  end.

(** Two rounds see every piece that arrives: one after what was there, one that waits. *)
Definition wait_for {H} (tr : H -> reader -> Z -> outcome (H * reader * option headerErr)) (reset : H -> H) (h : H) (r : reader) :
    outcome (H * reader * option headerErr) :=
  wait_loop tr reset (2 * length (rd_wire r) + 4) h r 1.

Definition ReadHeaderWithLimit (h : RequestHeader) (r : reader) (maxHeaderBytes : Z) : outcome (RequestHeader * reader * option headerErr) :=
  wait_for (fun h r n => Ret (tryReadWithLimit h r n maxHeaderBytes)) ResetSkipNormalize h r.

Definition ReadHeader (h : RequestHeader) (r : reader) : outcome (RequestHeader * reader * option headerErr) := ReadHeaderWithLimit h r 0.
