(* ===== verification/ReqRound.v ===== *)
(** * Requests: from the header that is sent to the header that is read

    A header that AppendBytes prints is read back by ReadHeader, in whatever pieces it
    arrives, and the reader is left at the first octet behind it. *)

From S2P Require Import Prelude Bytes BytesConv Args ArgsSpec HeaderScan Trailer ReqHeader ReqParse.

(** ** Lines *)

Definition line (k v : bytes) : bytes := k ++ 58 :: 32 :: v ++ [13; 10].

Definition block (fs : list (bytes * bytes)) : bytes := fs ≫= fun f => line f.1 f.2.

Lemma block_cons k v fs : block ((k, v) :: fs) = line k v ++ block fs.
Proof. done. Qed.

Lemma block_app a b : block (a ++ b) = block a ++ block b.
Proof. apply bind_app. Qed.

Definition token (k : bytes) : Prop := Forall (fun c => tab ValidHeaderFieldNameTable c <> 0) k.

(** A value that comes through a header line as it is. *)
Record clean_value (v : bytes) : Prop := {
  cv_ends : Forall (fun c => c <> 13 /\ c <> 10) v;
  cv_head : head v <> Some 32;
  cv_last : last v <> Some 32
}.

Lemma token_not c k : token k -> tab ValidHeaderFieldNameTable c = 0 -> c ∉ k.
Proof. intros Hk Hc Hin. unfold token in Hk. rewrite Forall_forall in Hk. by apply (Hk c Hin). Qed.

Lemma clean_not v : clean_value v -> (10 ∉ v) /\ (13 ∉ v).
Proof.
  intros [H _ _]. rewrite Forall_forall in H. split; intros Hin; apply H in Hin; lia.
Qed.

Lemma token_prefix k c x t : token k -> tab ValidHeaderFieldNameTable c = 0 -> x <> c -> has_prefix [c] (k ++ x :: t) = false.
Proof.
  intros Hk Hc Hx. apply bytes_eqb_neq. destruct k as [|y k]; simpl; [congruence|].
  apply Forall_cons in Hk as [Hy _]. intros [= ->]. done.
Qed.

Lemma token_prefix2 k c d x t : token k -> tab ValidHeaderFieldNameTable c = 0 -> x <> c -> has_prefix [c; d] (k ++ x :: t) = false.
Proof.
  intros Hk Hc Hx. apply bytes_eqb_neq. destruct k as [|y k]; simpl; [congruence|].
  apply Forall_cons in Hk as [Hy _]. intros [= -> _]. done.
Qed.

Lemma trim_right_keep v : last v <> Some 32 -> trim_right v = v.
Proof.
  induction v as [|c t IH]; intros Hl; [done|]. simpl. destruct t as [|d t].
  - simpl. destruct (c =? 32) eqn:E; breflect; [by subst|done].
  - rewrite IH by done. done.
Qed.

Lemma trim_value_line v : clean_value v -> trim_value (v ++ [13]) = v.
Proof.
  intros Hv. unfold trim_value. rewrite last_snoc, removelast_last. apply trim_right_keep, Hv.
Qed.

(** A text that does not continue the line before it. *)
Definition ends_line (t : bytes) : Prop := forall c, head t = Some c -> c <> 32 /\ c <> 9.

(** A value whose next line does not start with a space or a tab is not folded. *)
Lemma fold_lines_stop fuel B n nl :
  (forall c, znth B (n + 1) = Some c -> c <> 32 /\ c <> 9) -> fold_lines fuel B n false nl = (n, false, -1, nl).
Proof.
  intros Hc. destruct fuel as [|fuel]; [done|]. simpl. destruct (znth B (n + 1)) as [c|]; [|done]. destruct (Hc c eq_refl) as [H1 H2].
  destruct (c =? 32) eqn:E1, (c =? 9) eqn:E2; breflect; try done; lia.
Qed.

(** ** The scanner on a line *)

Definition scanning (s : HeaderScanner) : Prop := nextColon s = -1 /\ nextNewLine s < 0.

Lemma leading_space v t : head v <> Some 32 -> leading 32 (32 :: v ++ 13 :: t) = 1.
Proof.
  intros Hv. destruct v as [|x v]; [done|]. simpl in *. destruct (x =? 32) eqn:E; breflect; [congruence|done].
Qed.

Lemma key_end_line s k v t :
  scanning s -> token k -> 10 ∉ v -> sc_B s = k ++ 58 :: 32 :: v ++ 13 :: 10 :: t -> key_end s = Ok (len k).
Proof.
  intros [Hcol _] Hk Hv HB. unfold key_end. rewrite Hcol, HB. cbn [Z.geb Z.compare]. pose proof (len_nonneg k).
  rewrite (IndexByte_at k 58), (IndexByte_app k) by by apply token_not.
  replace (58 :: 32 :: v ++ 13 :: 10 :: t) with ((58 :: 32 :: v ++ [13]) ++ 10 :: t) by (simpl; by rewrite <- app_assoc).
  rewrite IndexByte_at by (rewrite !not_elem_of_cons, not_elem_of_app, list_elem_of_singleton; split_and!; lia || done).
  pose proof (len_nonneg (58 :: 32 :: v ++ [13])).
  destruct (len (58 :: 32 :: v ++ [13]) =? -1) eqn:E; breflect; [lia|].
  by rewrite !(proj2 (Z.ltb_ge _ _)) by lia.
Qed.

Lemma take_key_line s k v t :
  head v <> Some 32 -> sc_B s = k ++ 58 :: 32 :: v ++ 13 :: t ->
  let key := NormalizeHeaderKey k (sc_DisableNormalizing s) in
  take_key s (len k) = mkScan (sc_done s ++ key ++ [58; 32]) (v ++ 13 :: t) (sc_tail s) key (sc_Value s) (sc_Err s)
                         (HLen s + len k + 2) (sc_DisableNormalizing s) (-1) (nextNewLine s - 1).
Proof.
  intros Hv HB key. unfold take_key. rewrite HB, ztake_app.
  rewrite (zdrop_app k). replace (zdrop (len k + 1) (k ++ 58 :: 32 :: v ++ 13 :: t)) with (32 :: v ++ 13 :: t).
  2:{ replace (k ++ 58 :: 32 :: v ++ 13 :: t) with ((k ++ [58]) ++ 32 :: v ++ 13 :: t) by (by rewrite <- app_assoc).
      symmetry. apply zdrop_app_at. glen. }
  rewrite leading_space by done.
  replace (zdrop (len k + (1 + 1)) (k ++ 58 :: 32 :: v ++ 13 :: t)) with (v ++ 13 :: t).
  2:{ replace (k ++ 58 :: 32 :: v ++ 13 :: t) with ((k ++ [58; 32]) ++ v ++ 13 :: t) by (by rewrite <- app_assoc).
      symmetry. apply zdrop_app_at. glen. }
  f_equal; lia.
Qed.

Lemma take_value_line s v t nc nl :
  clean_value v -> sc_B s = v ++ 13 :: 10 :: t ->
  take_value s (len v + 1) false nc nl = mkScan (sc_done s ++ v ++ [13; 10]) t (sc_tail s) (sc_Key s) v (sc_Err s)
                                           (HLen s + len v + 2) (sc_DisableNormalizing s) nc nl.
Proof.
  intros Hv HB. unfold take_value. rewrite HB.
  assert (ztake (len v + 1) (v ++ 13 :: 10 :: t) = v ++ [13]) as ->.
  { replace (v ++ 13 :: 10 :: t) with ((v ++ [13]) ++ 10 :: t) by (by rewrite <- app_assoc). apply ztake_app_at. glen. }
  rewrite trim_value_line by done.
  replace (v ++ 13 :: 10 :: t) with ((v ++ [13; 10]) ++ t) by (by rewrite <- app_assoc).
  rewrite ztake_app_at by glen. rewrite zdrop_app_at by glen. f_equal. lia.
Qed.

(** The field of a line, and the scanner behind it. *)
Lemma Next_line s k v t :
  scanning s -> token k -> clean_value v -> sc_B s = line k v ++ t -> ends_line t ->
  let key := NormalizeHeaderKey k (sc_DisableNormalizing s) in
  Next s = (mkScan (sc_done s ++ line key v) t (sc_tail s) key v (sc_Err s) (HLen s + len (line k v))
              (sc_DisableNormalizing s) (-1) (nextNewLine s - 1), true).
Proof.
  intros Hs Hk Hv HB Ht key. destruct (clean_not v Hv) as [Hv10 Hv13].
  assert (HB' : sc_B s = k ++ 58 :: 32 :: v ++ 13 :: 10 :: t) by (rewrite HB; unfold line; rewrite <- app_assoc; simpl; by rewrite <- app_assoc).
  unfold Next. rewrite (key_end_line s k v t) by done.
  rewrite HB', token_prefix2, token_prefix by done.
  rewrite (take_key_line s k v (10 :: t)) by (apply Hv || done).
  cbn [nextNewLine sc_B]. destruct Hs as [_ Hnl].
  destruct (nextNewLine s - 1 >=? 0) eqn:E; [breflect; lia|].
  replace (v ++ 13 :: 10 :: t) with ((v ++ [13]) ++ 10 :: t) by (by rewrite <- app_assoc).
  rewrite IndexByte_at by (rewrite not_elem_of_app, list_elem_of_singleton; split; done || lia).
  rewrite (proj2 (Z.ltb_ge _ _)) by apply len_nonneg.
  rewrite fold_lines_stop.
  2:{ replace ((v ++ [13]) ++ 10 :: t) with ((v ++ [13; 10]) ++ t) by (by rewrite <- !app_assoc).
      replace (len (v ++ [13]) + 1) with (len (v ++ [13; 10]) + 0) by glen. rewrite znth_app_r by lia.
      intros c Hc. apply Ht. unfold znth in Hc. simpl in Hc. by destruct t. }
  cbn [sc_B]. replace (len (v ++ [13])) with (len v + 1) by glen.
  match goal with |- context [?a >=? ?b] => destruct (a >=? b) eqn:E2 end; [breflect; glen|].
  rewrite (take_value_line _ v t) by (done || by simpl; rewrite <- app_assoc).
  cbn [sc_done sc_tail sc_Key sc_Err HLen sc_DisableNormalizing]. do 2 f_equal; [unfold line; by rewrite <- !app_assoc|].
  unfold line. glen.
Qed.

(** A part of a line. *)
Lemma Next_part s : scanning s -> 10 ∉ sc_B s -> Next s = (sc_fail s errNeedMore, false).
Proof.
  intros [Hc _] H. unfold Next, key_end. rewrite Hc. cbn [Z.geb Z.compare]. rewrite (proj2 (IndexByte_none _ 10) H).
  assert (forall p, 10 ∈ p -> has_prefix p (sc_B s) = false) as Hp.
  { intros p Hp. apply bytes_eqb_neq. intros E. apply H. rewrite <- E in Hp. rewrite <- (take_drop (length p) (sc_B s)). set_solver. }
  rewrite !Hp by set_solver. done.
Qed.

(** The empty line. *)
Lemma Next_end s rest : sc_B s = 13 :: 10 :: rest ->
  Next s = (sc_skip s 2, false) /\ sc_B (sc_skip s 2) = rest /\ sc_done (sc_skip s 2) = sc_done s ++ [13; 10].
Proof. intros HB. unfold Next, sc_skip. rewrite HB. done. Qed.

(** ** The fields of a block *)

Record field_ok (f : bytes * bytes) : Prop := {
  fo_key : f.1 <> [];
  fo_token : token f.1;
  fo_canonical : NormalizeHeaderKey f.1 false = f.1;
  fo_clean : clean_value f.2;
  fo_valid : validHeaderFieldValue f.2 = true
}.

Definition take_field (st : RequestHeader * option headerErr) (f : bytes * bytes) : RequestHeader * option headerErr :=
  parse_field st.1 f.1 f.2 st.2.

(** What follows a line does not continue it. *)
Lemma block_head fs t : Forall field_ok fs -> ends_line t -> ends_line (block fs ++ t).
Proof.
  intros Hf Ht. destruct fs as [|[k v] fs]; [done|]. apply Forall_cons in Hf as [[Hk Htk _ _ _] _].
  destruct k as [|c k]; [done|]. apply Forall_cons in Htk as [Hc _]. intros x [= <-].
  split; intros ->; done.
Qed.

Lemma ends_line_crlf t : ends_line (13 :: t).
Proof. intros c [= <-]. lia. Qed.

(** The fields that a run of the scanner finds. *)
Inductive scans : HeaderScanner -> list (bytes * bytes) -> HeaderScanner -> Prop :=
| scans_nil s : scans s [] s
| scans_cons s s1 s2 fs : Next s = (s1, true) -> scans s1 fs s2 -> scans s ((sc_Key s1, sc_Value s1) :: fs) s2.

Lemma scans_block fs : forall s t,
  Forall field_ok fs -> scanning s -> sc_DisableNormalizing s = false -> sc_B s = block fs ++ t -> ends_line t ->
  exists s', scans s fs s' /\ scanning s' /\ sc_B s' = t /\ sc_done s' = sc_done s ++ block fs /\
    sc_tail s' = sc_tail s /\ HLen s' = HLen s + len (block fs) /\ sc_Err s' = sc_Err s.
Proof.
  induction fs as [|[k v] fs IH]; intros s t Hf Hs Hd HB Ht.
  - exists s. change (block []) with (@nil Z) in *. rewrite app_nil_r, len_nil. split_and!; try done; [constructor|lia].
  - apply Forall_cons in Hf as [[Hk Htk Hn Hv Hval] Hf]. cbn [fst snd] in Hk, Htk, Hn, Hv, Hval. rewrite block_cons, <- app_assoc in HB.
    pose proof (Next_line s k v _ Hs Htk Hv HB (block_head fs t Hf Ht)) as E. cbv zeta in E. rewrite Hd, Hn in E.
    set (s1 := mkScan _ _ _ _ _ _ _ _ _ _) in E.
    assert (scanning s1) as Hs1 by (split; [done|]; destruct Hs as [_ Hs]; simpl; lia).
    destruct (IH s1 t Hf Hs1) as (s' & E1 & E2 & E3 & E4 & E5 & E6 & E7); try done.
    exists s'. split_and!; try done.
    + exact (scans_cons s s1 s' fs E E1).
    + rewrite E4. cbn [sc_done s1]. by rewrite block_cons, <- !app_assoc.
    + rewrite E6, block_cons. cbn [HLen s1]. glen.
Qed.

Lemma fields_loop_scans fs : forall fuel h s s' err, scans s fs s' -> Forall field_ok fs ->
  let st := foldl take_field (h, err) fs in fields_loop (length fs + fuel) h s err = fields_loop fuel st.1 s' st.2.
Proof.
  induction fs as [|f fs IH]; intros fuel h s s' err Hs Hf; inversion Hs; subst; [done|].
  apply Forall_cons in Hf as [[Hk Ht _ _ Hval] Hf]. cbn [fst snd] in Hk, Ht, Hval. cbn [Nat.add length fields_loop].
  match goal with E : Next s = _ |- _ => rewrite E end.
  assert ((len (sc_Key s1) >? 0) = true) as -> by (destruct (sc_Key s1); [done|]; apply Z.gtb_lt; glen).
  rewrite !(proj2 (IndexByte_none _ _)) by by apply token_not. cbn [Z.eqb orb negb Pos.eqb]. rewrite Hval. cbn [negb foldl].
  change (take_field (h, err) (sc_Key s1, sc_Value s1)) with (parse_field h (sc_Key s1) (sc_Value s1) err).
  destruct (parse_field h _ _ err) as [h1 err1]. by apply IH.
Qed.

Lemma fields_loop_block fs : forall fuel h s err body,
  (length fs < fuel)%nat -> Forall field_ok fs -> scanning s -> sc_DisableNormalizing s = false ->
  sc_B s = block fs ++ 13 :: 10 :: body ->
  exists s', let st := foldl take_field (h, err) fs in
    fields_loop fuel h s err = (st.1, s', Ok st.2) /\ sc_B s' = body /\ sc_done s' = sc_done s ++ block fs ++ [13; 10] /\
    sc_tail s' = sc_tail s /\ HLen s' = HLen s + len (block fs) + 2 /\ sc_Err s' = sc_Err s.
Proof.
  intros fuel h s err body Hfuel Hf Hs Hd HB.
  destruct (scans_block fs s _ Hf Hs Hd HB (ends_line_crlf _)) as (s1 & E1 & _ & E3 & E4 & E5 & E6 & E7).
  destruct (Next_end s1 body E3) as (E & EB & ED). exists (sc_skip s1 2). cbv zeta.
  replace fuel with (length fs + S (fuel - length fs - 1))%nat by lia. rewrite (fields_loop_scans fs _ h s s1 err E1 Hf). cbn [fields_loop].
  rewrite E. split_and!; [done|done|by rewrite ED, E4, <- app_assoc|done|cbn; lia|done].
Qed.

(** ** The raw header of a block *)

Definition proper_prefix (q m : bytes) : Prop := exists t, t <> [] /\ q ++ t = m.

Lemma line_split k v t : line k v ++ t = (k ++ 58 :: 32 :: v ++ [13]) ++ 10 :: t.
Proof. unfold line. rewrite <- !app_assoc. simpl. by rewrite <- !app_assoc. Qed.

Lemma line_free k v : token k -> clean_value v -> 10 ∉ (k ++ 58 :: 32 :: v ++ [13]).
Proof.
  intros Hk Hv. destruct (clean_not v Hv). rewrite not_elem_of_app, !not_elem_of_cons, not_elem_of_app, list_elem_of_singleton.
  split_and!; try done. by apply token_not.
Qed.

Lemma line_long k v : 2 < len (k ++ 58 :: 32 :: v ++ [13]).
Proof. glen. Qed.

Lemma not_empty_line b : 2 < len b -> ((len b =? 1) && bool_decide (head b = Some 13)) || (len b =? 0) = false.
Proof. intros H. rewrite !(proj2 (Z.eqb_neq _ _)) by lia. done. Qed.

(** A line that is not empty. *)
Lemma raw_step p t n fuel : 10 ∉ p -> 2 < len p ->
  raw_loop (S fuel) (p ++ 10 :: t) n = raw_loop fuel t (n + len p + 1).
Proof.
  intros Hp Hl. cbn [raw_loop]. rewrite IndexByte_at by done. rewrite (proj2 (Z.ltb_ge _ _)) by lia.
  rewrite !(proj2 (Z.eqb_neq _ _)) by lia. cbn [andb orb].
  replace (p ++ 10 :: t) with ((p ++ [10]) ++ t) by (by rewrite <- app_assoc). by rewrite zdrop_app_at by glen.
Qed.

Lemma raw_loop_block fs : forall fuel body n, (length fs < fuel)%nat -> Forall field_ok fs ->
  raw_loop fuel (block fs ++ 13 :: 10 :: body) n = Ok (n + len (block fs) + 2).
Proof.
  induction fs as [|[k v] fs IH]; intros fuel body n Hfuel Hf; (destruct fuel as [|fuel]; [lia|]).
  - cbn. unfold len. simpl. f_equal. lia.
  - apply Forall_cons in Hf as [[_ Ht _ Hv _] Hf]. rewrite block_cons, <- app_assoc, line_split.
    rewrite raw_step by (apply line_free || apply line_long; done). rewrite IH by (simpl in Hfuel; lia || done).
    f_equal. unfold line. glen.
Qed.

Lemma raw_loop_free fuel q n : 10 ∉ q -> raw_loop fuel q n = Err errNeedMore.
Proof. intros Hq. destruct fuel; [done|]. simpl. by rewrite (proj2 (IndexByte_none q 10) Hq). Qed.

(** A prefix that ends in or before a line that is not the last. *)
Lemma prefix_line q t p rest : q ++ t = p ++ 10 :: rest -> 10 ∉ p -> 10 ∉ q \/ exists q', q = p ++ 10 :: q' /\ q' ++ t = rest.
Proof.
  intros E Hp. apply app_eq_app in E as (l & [[-> E]|[-> E]]).
  - destruct l as [|x l]; [left; by rewrite app_nil_r|]. right. simplify_eq/=. by exists l.
  - left. contradict Hp. apply elem_of_app. by left.
Qed.

Lemma raw_loop_prefix fs : forall fuel q n, Forall field_ok fs -> proper_prefix q (block fs ++ [13; 10]) ->
  raw_loop fuel q n = Err errNeedMore.
Proof.
  induction fs as [|[k v] fs IH]; intros fuel q n Hf (t & Hne & E).
  - apply raw_loop_free. simpl in E. destruct q as [|x [|y q]]; simplify_eq/=; [apply not_elem_of_nil| |].
    + by apply not_elem_of_cons; split; [|apply not_elem_of_nil].
    + by destruct q, t.
  - apply Forall_cons in Hf as [[_ Ht _ Hv _] Hf]. rewrite block_cons, <- app_assoc, line_split in E.
    apply prefix_line in E as [Hq|(q' & -> & E)]; [by apply raw_loop_free| |by apply line_free].
    destruct fuel as [|fuel]; [done|]. rewrite raw_step by (apply line_free || apply line_long; done).
    apply IH; [done|]. by exists t.
Qed.

(** A part of a block is some of its lines and a part of the next. *)
Lemma prefix_block fs : forall q, Forall field_ok fs -> proper_prefix q (block fs ++ [13; 10]) ->
  exists fs1 fs2 q', fs = fs1 ++ fs2 /\ q = block fs1 ++ q' /\ (10 ∉ q') /\ ends_line q'.
Proof.
  induction fs as [|[k v] fs IH]; intros q Hf (t & Hne & E).
  - exists [], [], q. split_and!; [done|done| |]; simpl in E; destruct q as [|x [|y q]]; simplify_eq/=; try (by destruct q, t).
    + apply not_elem_of_nil.
    + by apply not_elem_of_cons; split; [|apply not_elem_of_nil].
    + done.
    + apply ends_line_crlf.
  - pose proof Hf as Hf0. apply Forall_cons in Hf as [[Hk Ht _ Hv _] Hf]. cbn [fst snd] in *. rewrite block_cons, <- app_assoc in E.
    pose proof E as E'. rewrite line_split in E.
    apply prefix_line in E as [Hq|(q' & -> & E)]; [| |by apply line_free].
    + exists [], ((k, v) :: fs), q. split_and!; try done. intros c Hc.
      apply (block_head ((k, v) :: fs) [] Hf0 ltac:(done) c). rewrite app_nil_r, block_cons.
      destruct q as [|x q]; [done|]. simpl in Hc. simplify_eq. destruct k as [|y k]; [done|]. by injection E' as -> _.
    + destruct (IH q' Hf) as (fs1 & fs2 & q2 & -> & -> & H1 & H2); [by exists t|].
      exists ((k, v) :: fs1), fs2, q2. split_and!; try done. by rewrite block_cons, <- (app_assoc (line k v)), line_split.
Qed.

(** The first line is read like the others. *)
Lemma ReadRawHeaders_step p t : 10 ∉ p -> 2 < len p ->
  ReadRawHeaders (p ++ 10 :: t) = (try n <- raw_loop (length (p ++ 10 :: t)) t (len p + 1); Ok (ztake n (p ++ 10 :: t), n)).
Proof.
  intros Hp Hl. unfold ReadRawHeaders. rewrite IndexByte_at by done. rewrite (proj2 (Z.ltb_ge _ _)) by lia.
  rewrite !(proj2 (Z.eqb_neq _ _)) by lia. cbn [andb orb].
  replace (p ++ 10 :: t) with ((p ++ [10]) ++ t) at 2 by (by rewrite <- app_assoc). by rewrite zdrop_app_at by glen.
Qed.

Definition raw_of (fs : list (bytes * bytes)) : bytes := match fs with [] => [] | _ => block fs ++ [13; 10] end.

Lemma length_block fs : (length fs <= length (block fs))%nat.
Proof.
  induction fs as [|[k v] fs IH]; [done|]. rewrite block_cons, length_app. unfold line.
  rewrite length_app. simpl. lia.
Qed.

Lemma ReadRawHeaders_block fs body : Forall field_ok fs ->
  ReadRawHeaders (block fs ++ 13 :: 10 :: body) = Ok (raw_of fs, len (block fs) + 2).
Proof.
  intros Hf. destruct fs as [|[k v] fs]; [done|]. apply Forall_cons in Hf as [[_ Ht _ Hv _] Hf]. rewrite block_cons.
  rewrite <- app_assoc, line_split, ReadRawHeaders_step by (apply line_free || apply line_long; done).
  rewrite raw_loop_block; [|pose proof (length_block fs); rewrite !length_app; cbn [length]; rewrite !length_app; lia|done].
  cbn [result_bind]. unfold raw_of. rewrite block_cons, <- (app_assoc (line k v)), line_split.
  set (p := k ++ _). f_equal. f_equal.
  - replace (p ++ 10 :: block fs ++ 13 :: 10 :: body) with ((p ++ 10 :: block fs ++ [13; 10]) ++ body)
      by (rewrite <- app_assoc; simpl; by rewrite <- app_assoc).
    apply ztake_app_at. glen.
  - unfold line, p. glen.
Qed.

Lemma ReadRawHeaders_prefix fs q : Forall field_ok fs -> proper_prefix q (block fs ++ [13; 10]) -> ReadRawHeaders q = Err errNeedMore.
Proof.
  intros Hf Hq. assert (10 ∉ q -> ReadRawHeaders q = Err errNeedMore) as Hfree.
  { intros H. unfold ReadRawHeaders. by rewrite (proj2 (IndexByte_none q 10) H). }
  destruct fs as [|[k v] fs].
  - apply Hfree. destruct Hq as (t & Hne & E). simpl in E. destruct q as [|x [|y q]]; simplify_eq/=; [apply not_elem_of_nil| |by destruct q, t].
    by apply not_elem_of_cons; split; [|apply not_elem_of_nil].
  - apply Forall_cons in Hf as [[_ Ht _ Hv _] Hf]. destruct Hq as (t & Hne & E). rewrite block_cons, <- app_assoc, line_split in E.
    apply prefix_line in E as [H|(q' & -> & E)]; [by apply Hfree| |by apply line_free].
    rewrite ReadRawHeaders_step by (apply line_free || apply line_long; done).
    rewrite (raw_loop_prefix fs); [done|done|by exists t].
Qed.

(** ** The first line *)

Definition first_line (m u : bytes) : bytes := m ++ 32 :: u ++ 32 :: HTTP11 ++ [13; 10].

Record target_ok (m u : bytes) : Prop := {
  to_method : m <> [];
  to_token : token m;
  to_uri : u <> [];
  to_space : 32 ∉ u;
  to_line : 10 ∉ u
}.

Lemma first_line_split m u t : first_line m u ++ t = (m ++ 32 :: u ++ 32 :: HTTP11 ++ [13]) ++ 10 :: t.
Proof. unfold first_line. repeat (rewrite <- !app_assoc; simpl). done. Qed.

Lemma first_line_free m u : target_ok m u -> 10 ∉ (m ++ 32 :: u ++ 32 :: HTTP11 ++ [13]).
Proof.
  intros [_ Hm _ _ Hu]. rewrite not_elem_of_app, not_elem_of_cons, not_elem_of_app, not_elem_of_cons.
  split_and!; try done; [by apply token_not|]. by apply (bool_decide_unpack (10 ∉ HTTP11 ++ [13])).
Qed.

Lemma NextLine_crlf p t : 10 ∉ p -> NextLine (p ++ 13 :: 10 :: t) = Ok (p, t).
Proof.
  intros Hp. unfold NextLine. replace (p ++ 13 :: 10 :: t) with ((p ++ [13]) ++ 10 :: t) by (by rewrite <- app_assoc).
  rewrite IndexByte_at by (rewrite not_elem_of_app, list_elem_of_singleton; split; done || lia).
  rewrite (proj2 (Z.ltb_ge _ _)) by apply len_nonneg.
  assert (Hl : len (p ++ [13]) = len p + 1) by glen. rewrite Hl. pose proof (len_nonneg p).
  rewrite (proj2 (Z.gtb_lt _ _)) by lia. replace (len p + 1 - 1) with (len p + 0) by lia.
  rewrite <- app_assoc, znth_app_r by lia. rewrite bool_decide_eq_true_2 by done. cbn [andb].
  rewrite ztake_app_at by lia. replace (p ++ [13] ++ 10 :: t) with ((p ++ [13; 10]) ++ t) by (by rewrite <- app_assoc).
  by rewrite zdrop_app_at by glen.
Qed.

Lemma parseFirstLine_ok h m u t : target_ok m u ->
  parseFirstLine h (first_line m u ++ t) = (SetProtocol (SetRequestURIBytes (SetMethodBytes h m) u) HTTP11, Ok (len (first_line m u))).
Proof.
  intros Ht. pose proof Ht as [Hm Htok Hu Hs Hl]. unfold parseFirstLine.
  assert (E : first_line m u ++ t = (m ++ 32 :: u ++ 32 :: HTTP11) ++ 13 :: 10 :: t)
    by (rewrite first_line_split; repeat (rewrite <- !app_assoc; simpl); done).
  rewrite E, NextLine_crlf.
  2:{ pose proof (first_line_free m u Ht) as Hf. contradict Hf.
      replace (m ++ 32 :: u ++ 32 :: HTTP11 ++ [13]) with ((m ++ 32 :: u ++ 32 :: HTTP11) ++ [13]) by (repeat (rewrite <- !app_assoc; simpl); done).
      apply elem_of_app. by left. }
  rewrite IndexByte_at by by apply token_not.
  assert (0 < len m) by (destruct m; [done|]; rewrite len_cons; pose proof (len_nonneg m); lia).
  assert (0 < len u) by (destruct u; [done|]; rewrite len_cons; pose proof (len_nonneg u); lia).
  assert (zdrop (len m + 1) (m ++ 32 :: u ++ 32 :: HTTP11) = u ++ 32 :: HTTP11) as E1.
  { replace (m ++ 32 :: u ++ 32 :: HTTP11) with ((m ++ [32]) ++ u ++ 32 :: HTTP11) by (by rewrite <- app_assoc). apply zdrop_app_at. glen. }
  assert (zdrop (len u + 1) (u ++ 32 :: HTTP11) = HTTP11) as E2.
  { replace (u ++ 32 :: HTTP11) with ((u ++ [32]) ++ HTTP11) by (by rewrite <- app_assoc). apply zdrop_app_at. glen. }
  rewrite (proj2 (Z.leb_gt _ _)) by lia. rewrite ztake_app, E1, IndexByte_at by done.
  rewrite (proj2 (Z.leb_gt _ _)) by lia. rewrite ztake_app, E2.
  rewrite (proj2 (bytes_eqb_eq HTTP11 HTTP11)) by done. f_equal. f_equal. rewrite <- E. glen.
Qed.

Lemma check_method_prefix m : forall q t r i, token m -> q ++ t = m ++ 32 :: r -> check_method q i = true.
Proof.
  induction m as [|c m IH]; intros q t r i Hm E; (destruct q as [|x q]; [done|]); simplify_eq/=; [done|].
  apply Forall_cons in Hm as [Hc Hm]. case_if; [done|]. rewrite (proj2 (Z.eqb_neq _ _)) by done. eauto.
Qed.

Lemma parseFirstLine_part h q t m u r : target_ok m u -> q ++ t = first_line m u ++ r -> 10 ∉ q -> parseFirstLine h q = (h, Err errNeedMore).
Proof.
  intros [_ Hm _ _ _] E Hq. unfold parseFirstLine, NextLine. rewrite (proj2 (IndexByte_none q 10) Hq). simpl.
  unfold first_line in E. rewrite <- app_assoc in E. by rewrite (check_method_prefix m q t _ 0 Hm E).
Qed.

(** ** The whole header *)

Definition head_bytes (m u : bytes) (fs : list (bytes * bytes)) : bytes := first_line m u ++ block fs ++ [13; 10].

(** The header before its fields. *)
Definition opened (h : RequestHeader) (m u raw : bytes) : RequestHeader :=
  InitContentLengthWithValue (SetRawHeaders (SetProtocol (SetRequestURIBytes (SetMethodBytes h m) u) HTTP11) raw) (-2).

(** The header with its fields. *)
Definition read_fields (h : RequestHeader) (m u : bytes) (fs : list (bytes * bytes)) : RequestHeader * option headerErr :=
  foldl take_field (opened h m u (raw_of fs), None) fs.

Definition closed_fields (h : RequestHeader) : RequestHeader := if contentLength h <? 0 then SetContentLengthBytes h [] else h.

Lemma parse_field_keeps h k v err :
  let h' := (parse_field h k v err).1 in protocol h' = protocol h /\ disableNormalizing h' = disableNormalizing h /\ rq_trailer h' = rq_trailer h.
Proof. unfold parse_field. repeat (case_if || case_match); done. Qed.

Lemma read_fields_keeps fs : forall st,
  let h' := (foldl take_field st fs).1 in protocol h' = protocol st.1 /\ disableNormalizing h' = disableNormalizing st.1 /\ rq_trailer h' = rq_trailer st.1.
Proof.
  induction fs as [|f fs IH]; intros st; [done|]. cbn [foldl].
  destruct (IH (take_field st f)) as (-> & -> & ->). apply parse_field_keeps.
Qed.

Lemma parse_head h m u fs body :
  disableNormalizing h = false -> target_ok m u -> Forall field_ok fs -> (read_fields h m u fs).2 = None ->
  parse h (head_bytes m u fs ++ body) = (closed_fields (read_fields h m u fs).1, head_bytes m u fs ++ body, Ok (len (head_bytes m u fs))).
Proof.
  intros Hd Ht Hf He. unfold parse, head_bytes. rewrite <- !app_assoc, parseFirstLine_ok by done.
  rewrite zdrop_app, ztake_app. cbn [app]. rewrite ReadRawHeaders_block by done.
  unfold parseHeaders. set (h0 := InitContentLengthWithValue _ _).
  assert (Hd0 : disableNormalizing h0 = false) by exact Hd. rewrite Hd0.
  destruct (fields_loop_block fs (S (length (block fs ++ 13 :: 10 :: body))) h0 (newScanner (block fs ++ 13 :: 10 :: body) false) None body)
    as (s' & E1 & E2 & E3 & E4 & E5 & E6); try done.
  { rewrite length_app. pose proof (length_block fs). lia. }
  rewrite E1. change (foldl take_field (h0, None) fs) with (read_fields h m u fs). rewrite He. rewrite E6. cbn [newScanner sc_Err].
  unfold sc_buffer. rewrite E2, E3, E4, E5. cbn [newScanner sc_done sc_tail HLen app]. rewrite app_nil_r.
  change (if contentLength (read_fields h m u fs).1 <? 0 then SetContentLengthBytes (read_fields h m u fs).1 [] else (read_fields h m u fs).1)
    with (closed_fields (read_fields h m u fs).1).
  assert (IsHTTP11 (closed_fields (read_fields h m u fs).1) = true) as ->.
  { unfold IsHTTP11, closed_fields. apply bytes_eqb_eq. destruct (read_fields_keeps fs (opened h m u (raw_of fs), None)) as [Hp _].
    change (foldl take_field (opened h m u (raw_of fs), None) fs) with (read_fields h m u fs) in Hp. case_if; exact Hp. }
  cbn [negb andb result_bind]. rewrite <- !app_assoc. f_equal. f_equal. glen.
Qed.

Lemma parse_part h m u fs q :
  target_ok m u -> Forall field_ok fs -> proper_prefix q (head_bytes m u fs) ->
  exists h', parse h q = (h', q, Err errNeedMore) /\ ResetSkipNormalize h' = ResetSkipNormalize h.
Proof.
  intros Ht Hf (t & Hne & E). unfold head_bytes in E. pose proof E as E'. rewrite first_line_split in E.
  unfold parse. apply prefix_line in E as [Hq|(q' & -> & E)]; [| |by apply first_line_free].
  - exists h. split; [|done]. by rewrite (parseFirstLine_part h q t m u (block fs ++ [13; 10])).
  - rewrite <- first_line_split, parseFirstLine_ok by done. eexists. split.
    + rewrite zdrop_app. rewrite (ReadRawHeaders_prefix fs); [done|done|by exists t].
    + done.
Qed.

(** ** Reading in pieces *)

Lemma fill_reads : forall wire buf n, len buf < n -> n <= len (buf ++ concat wire) ->
  exists w1 w2, wire = w1 ++ w2 /\ w1 <> [] /\ fill buf wire n = (mkReader (buf ++ concat w1) w2, true) /\ n <= len (buf ++ concat w1).
Proof.
  induction wire as [|p wire IH]; intros buf n H1 H2; simpl in *.
  - rewrite app_nil_r in H2. lia.
  - destruct (len buf >=? n) eqn:E; breflect; [lia|]. rewrite app_assoc in H2. destruct (decide (len (buf ++ p) < n)) as [Hlt|Hge].
    + destruct (IH (buf ++ p) n Hlt H2) as (w1 & w2 & -> & Hne & Ef & Hn). exists (p :: w1), w2. simpl. rewrite app_assoc. done.
    + exists [p], wire. simpl. rewrite app_nil_r. split_and!; [done|done| |lia].
      destruct wire; simpl; by rewrite (proj2 (Z.geb_le _ _)) by lia.
Qed.

Lemma fill_stays wire buf n : n <= len buf -> fill buf wire n = (mkReader buf wire, true).
Proof. intros H. destruct wire; simpl; by rewrite (proj2 (Z.geb_le _ _)) by lia. Qed.

(** *** The loop around a try

    A try that finds the whole text [hd] in the buffer takes it, one that finds a part of
    it needs more: then the loop takes the text, in whatever pieces it arrives. *)

Section Pieces.
Context {H : Type} (tr : H -> reader -> Z -> outcome (H * reader * option headerErr)) (reset : H -> H).
Context (hd : bytes) (good : H -> Prop) (result : H).
Context (Hfill : forall h r n w, fill (rd_buf r) (rd_wire r) n = (w, true) -> n <= len (rd_buf w) -> tr h r n = tr h w n).
Context (Hfull : forall h wire n b, good h -> 1 <= n <= len (hd ++ b) -> tr h (mkReader (hd ++ b) wire) n = Ret (result, mkReader b wire, None)).
Context (Hpart : forall h buf wire n, good h -> 1 <= n <= len buf -> proper_prefix buf hd ->
  exists h', tr h (mkReader buf wire) n = Ret (h', mkReader buf wire, Some errNeedMore) /\ good h').

(** The rounds that are left: two for each piece, and those before the next is awaited. *)
Definition rounds (buf : bytes) (wire : list bytes) (n : Z) : nat :=
  2 * length wire + (if n <? len buf then 2 else if n =? len buf then 1 else 0).

Lemma split_head buf rest body : buf ++ rest = hd ++ body -> (exists b, buf = hd ++ b /\ b ++ rest = body) \/ proper_prefix buf hd.
Proof.
  intros E. apply app_eq_app in E as (l & [[-> E]|[-> E]]); [left; by exists l|].
  destruct l as [|x l]; [left; exists []; by rewrite !app_nil_r in *|]. right. by exists (x :: l).
Qed.

(** How much the next try asks for. *)
Definition next_n (n : Z) (buf : bytes) : Z := if n =? len buf then n + 1 else len buf.

(** What a try finds in the buffer; the next one has fewer rounds left. *)
Lemma try_sees h buf wire n :
  1 <= n <= len buf + 1 -> n <= len (buf ++ concat wire) ->
  exists buf' wire', tr h (mkReader buf wire) n = tr h (mkReader buf' wire') n /\
    buf' ++ concat wire' = buf ++ concat wire /\ n <= len buf' /\
    (rounds buf' wire' (next_n n buf') < rounds buf wire n)%nat.
Proof.
  intros Hn Ht. destruct (decide (n <= len buf)) as [Hle|Hgt].
  - exists buf, wire. split_and!; [done|done|done|]. unfold rounds, next_n. destruct (n =? len buf) eqn:E; breflect; repeat case_if; breflect; lia.
  - destruct (fill_reads wire buf n) as (w1 & w2 & -> & Hne & Ef & Hl); [lia|done|].
    exists (buf ++ concat w1), w2. split_and!; [by apply Hfill|by rewrite concat_app, <- app_assoc|done|].
    unfold rounds, next_n. rewrite length_app. destruct w1 as [|p w1]; [done|]. cbn [length].
    destruct (n =? len (buf ++ concat (p :: w1))) eqn:E; breflect; repeat case_if; breflect; lia.
Qed.

Lemma wait_loop_pieces fuel : forall h buf wire n body,
  good h -> buf ++ concat wire = hd ++ body ->
  1 <= n <= len buf + 1 -> n <= len (buf ++ concat wire) -> (rounds buf wire n < fuel)%nat ->
  exists r, wait_loop tr reset fuel h (mkReader buf wire) n = Ret (result, r, None) /\ rd_buf r ++ concat (rd_wire r) = body.
Proof.
  induction fuel as [|fuel IH]; intros h buf wire n body Hh E Hn Ht Hfuel; [lia|]. cbn [wait_loop].
  destruct (try_sees h buf wire n Hn Ht) as (buf' & wire' & Et & Eb & Hl & Hr). rewrite Et. rewrite E in Eb.
  destruct (split_head buf' (concat wire') body Eb) as [(b & -> & Ew)|Hp].
  - rewrite Hfull by (done || lia). eexists. split; [done|]. done.
  - destruct (Hpart h buf' wire' n Hh ltac:(lia) Hp) as (h' & Ep & Eh). rewrite Ep. cbn [outcome_bind].
    rewrite bool_decide_eq_true_2 by done. cbn [negb rd_buf].
    assert (len buf' + 1 <= len (buf' ++ concat wire')).
    { rewrite Eb. destruct Hp as (t & Hne & <-). destruct t; [done|]. glen. }
    change (if n =? len buf' then n + 1 else len buf') with (next_n n buf').
    assert (1 <= next_n n buf' <= len buf' + 1) by (unfold next_n; destruct (n =? len buf') eqn:En; breflect; lia).
    apply IH; done || lia.
Qed.

Lemma wait_for_pieces h r body : good h -> 0 < len hd -> rd_buf r ++ concat (rd_wire r) = hd ++ body ->
  exists r', wait_for tr reset h r = Ret (result, r', None) /\ rd_buf r' ++ concat (rd_wire r') = body.
Proof.
  intros Hh Hl E. destruct r as [buf wire]. cbn [rd_buf rd_wire] in E. unfold wait_for. cbn [rd_wire].
  pose proof (len_nonneg buf). pose proof (len_nonneg body).
  apply wait_loop_pieces; [done|done|lia|rewrite E; glen|unfold rounds; repeat case_if; lia].
Qed.
End Pieces.

(** *** Tries at a request header *)

Section Limit.
Context (hd : bytes) (M : Z) (HM : M <= 0 \/ len hd <= M) (result : RequestHeader -> RequestHeader) (h0 : RequestHeader).
Context (Hfull : forall b, parse (ResetSkipNormalize h0) (hd ++ b) = (result h0, hd ++ b, Ok (len hd))).
Context (Hpart : forall q, proper_prefix q hd ->
  exists h', parse (ResetSkipNormalize h0) q = (h', q, Err errNeedMore) /\ ResetSkipNormalize h' = ResetSkipNormalize h0).

(** The part of the buffer that a try looks at has the whole header, if the buffer does. *)
Definition cut_at (buf : bytes) : Z := if (M >? 0) && (len buf >? M) then M else len buf.

Lemma cut_full b : exists c, ztake (cut_at (hd ++ b)) (hd ++ b) = hd ++ c /\ c ++ zdrop (cut_at (hd ++ b)) (hd ++ b) = b.
Proof.
  assert (len hd <= cut_at (hd ++ b)) as Hc by (unfold cut_at; case_if; breflect; glen).
  set (k := cut_at (hd ++ b)) in *. exists (take (Z.to_nat k - length hd) b). unfold ztake, zdrop, len in *.
  rewrite take_app, drop_app, take_ge, (drop_ge hd) by lia. split; [done|]. apply take_drop.
Qed.

Lemma cut_part q : proper_prefix q hd -> ztake (cut_at q) q = q /\ zdrop (cut_at q) q = [] /\ (M >? 0) && (len q >=? M) = false.
Proof.
  intros (t & Hne & E). assert (len q < len hd) as Hl by (rewrite <- E; destruct t; [done|]; glen).
  assert (cut_at q = len q) as -> by (unfold cut_at; case_if; breflect; lia).
  rewrite ztake_ge by lia. split_and!; [done|rewrite <- (app_nil_r q) at 2; apply zdrop_app|].
  rewrite Z.geb_leb. destruct (M >? 0) eqn:?; [|done]. breflect. apply Z.leb_gt. lia.
Qed.

(** A try with the whole header in the buffer. *)
Lemma try_full h buf wire n b :
  ResetSkipNormalize h = ResetSkipNormalize h0 -> 1 <= n <= len buf -> buf = hd ++ b ->
  tryReadWithLimit h (mkReader buf wire) n M = (result h0, mkReader b wire, None).
Proof.
  intros Hh Hn ->. unfold tryReadWithLimit, Peek. cbn [rd_buf rd_wire]. rewrite fill_stays by lia. cbn [rd_buf rd_wire].
  fold (cut_at (hd ++ b)). destruct (cut_full b) as (c & E1 & E2). cbv zeta. rewrite Hh, E1, Hfull.
  by rewrite <- app_assoc, E2, zdrop_app.
Qed.

(** A try with a part of it. *)
Lemma try_part h buf wire n :
  ResetSkipNormalize h = ResetSkipNormalize h0 -> 1 <= n <= len buf -> proper_prefix buf hd ->
  exists h', tryReadWithLimit h (mkReader buf wire) n M = (h', mkReader buf wire, Some errNeedMore) /\
             ResetSkipNormalize h' = ResetSkipNormalize h0.
Proof.
  intros Hh Hn Hp. destruct (Hpart buf Hp) as (h' & E & Eh). exists h'. split; [|done].
  unfold tryReadWithLimit, Peek. cbn [rd_buf rd_wire]. rewrite fill_stays by lia. cbn [rd_buf rd_wire].
  fold (cut_at buf). destruct (cut_part buf Hp) as (E1 & E2 & E3). cbv zeta. rewrite Hh, E1, E, E2, E3. by rewrite app_nil_r.
Qed.

(** A try sees the buffer that Peek fills. *)
Lemma try_fill h r n w : fill (rd_buf r) (rd_wire r) n = (w, true) -> n <= len (rd_buf w) ->
  tryReadWithLimit h r n M = tryReadWithLimit h w n M.
Proof.
  intros E Hn. unfold tryReadWithLimit, Peek. rewrite E. destruct w as [b w]. cbn [rd_buf rd_wire] in *.
  by rewrite fill_stays by lia.
Qed.

Lemma ReadHeaderWithLimit_pieces h r body : ResetSkipNormalize h = ResetSkipNormalize h0 -> 0 < len hd -> rd_buf r ++ concat (rd_wire r) = hd ++ body ->
  exists r', ReadHeaderWithLimit h r M = Ret (result h0, r', None) /\ rd_buf r' ++ concat (rd_wire r') = body.
Proof.
  intros Hh. apply (wait_for_pieces _ _ hd (fun h => ResetSkipNormalize h = ResetSkipNormalize h0)); [| | |done].
  - intros. f_equal. by apply try_fill.
  - intros h1 wire n b H1 Hn. f_equal. by apply (try_full h1 _ wire n b).
  - intros h1 buf wire n H1 Hn Hp. destruct (try_part h1 buf wire n H1 Hn Hp) as (h' & -> & ?). by exists h'.
Qed.
End Limit.
