(* ===== verification/ReqSend.v ===== *)
(** * Requests: the round trip

    What AppendBytes prints is a block of lines, and what ReadHeader makes of it, for every
    way of cutting the octets into pieces. *)

From S2P Require Import Prelude Bytes BytesConv Args ArgsSpec HeaderScan Trailer ReqHeader ReqParse ReqRound.

(** ReadHeader on a block, which may be as long as the limit. *)
Lemma ReadHeader_block h0 r m u fs body M :
  M <= 0 \/ len (head_bytes m u fs) <= M ->
  disableNormalizing h0 = false -> target_ok m u -> Forall field_ok fs ->
  (read_fields (ResetSkipNormalize h0) m u fs).2 = None -> rd_buf r ++ concat (rd_wire r) = head_bytes m u fs ++ body ->
  exists r', ReadHeaderWithLimit h0 r M = Ret (closed_fields (read_fields (ResetSkipNormalize h0) m u fs).1, r', None) /\
             rd_buf r' ++ concat (rd_wire r') = body.
Proof.
  intros HM Hd Ht Hf He E.
  apply (ReadHeaderWithLimit_pieces (head_bytes m u fs) M HM (fun h => closed_fields (read_fields (ResetSkipNormalize h) m u fs).1) h0); try done.
  - intros b. by apply parse_head.
  - intros q Hq. destruct (parse_part (ResetSkipNormalize h0) m u fs q Ht Hf Hq) as (h' & E1 & E2). by exists h'.
  - unfold head_bytes, first_line. destruct Ht as [Hm _ _ _ _]. destruct m; [done|]. glen.
Qed.

(** ** What is sent *)

Definition value_ok (v : bytes) : Prop := clean_value v /\ validHeaderFieldValue v = true.

Definition special_names : list string := ["Host"; "User-Agent"; "Content-Type"; "Content-Length"; "Connection"; "Transfer-Encoding"; "Trailer"]%string.

(** An entry of the list that is no special field. *)
Record plain (kv : argsKV) : Prop := {
  pl_value : kv_noValue kv = false;
  pl_field : field_ok (kv_key kv, kv_value kv);
  pl_name : forallb (fun s => negb (CaseInsensitiveCompare (kv_key kv) (str s))) special_names = true
}.

Definition chunked_kv : argsKV := mkKV (str "Transfer-Encoding") (str "chunked") false.

Definition pair_kv (kv : argsKV) : bytes * bytes := (kv_key kv, kv_value kv).

(** A header that can be sent: names, values and target fit into their lines; the list
    has plain entries, and Transfer-Encoding, as SetContentLength puts it there, once at
    most; the length is the one that is printed. *)
Record sendable (h : RequestHeader) (pre te post : list argsKV) : Prop := {
  sd_target : target_ok (Method h) (RequestURI h);
  sd_agent : value_ok (userAgent h);
  sd_host : value_ok (host h);
  sd_type : value_ok (contentType h);
  sd_length : contentLengthBytes h = [] \/ (contentLengthBytes h = itoa (contentLength h) /\ 0 <= contentLength h < 2 ^ 63);
  sd_list : rq_h h = pre ++ te ++ post;
  sd_te : te = [] \/ te = [chunked_kv];
  sd_plain : Forall plain (pre ++ post);
  sd_trailer : value_ok (GetBytes (tr_h (rq_trailer h)));
  sd_cookies : value_ok (cookie_bytes (cookies h))
}.

Definition shown (k : string) (v : bytes) : list (bytes * bytes) := if len v >? 0 then [(str k, v)] else [].

Definition sent_cookies (h : RequestHeader) : list (bytes * bytes) := match cookies h with [] => [] | cs => [(str "Cookie", cookie_bytes cs)] end.

Definition sent_fields (h : RequestHeader) : list (bytes * bytes) :=
  shown "User-Agent" (userAgent h) ++ shown "Host" (host h) ++ shown "Content-Type" (sent_contentType h) ++
  shown "Content-Length" (contentLengthBytes h) ++ (pair_kv <$> rq_h h) ++
  (if trailer_Empty (rq_trailer h) then [] else [(str "Trailer", GetBytes (tr_h (rq_trailer h)))]) ++
  sent_cookies h ++ (if connectionClose h then [(str "Connection", str "close")] else []).

Lemma clean_map v : clean_value v -> ((fun c => if (c =? 13) || (c =? 10) then 32 else c) <$> v) = v.
Proof.
  intros [H _ _]. induction v as [|c v IH]; [done|]. apply Forall_cons in H as [Hc H]. rewrite fmap_cons, IH by done.
  by rewrite !(proj2 (Z.eqb_neq _ _)) by lia.
Qed.

Lemma append_line dst k v : token k -> clean_value v -> appendHeaderLine dst k v = dst ++ line k v.
Proof.
  intros Hk Hv. unfold appendHeaderLine, appendHeaderValue. rewrite clean_map by done.
  replace (existsb _ k) with false.
  - unfold line. simpl. by rewrite <- !app_assoc.
  - symmetry. induction Hk as [|c k Hc _ IH]; [done|]. simpl. by rewrite (proj2 (Z.eqb_neq _ _)).
Qed.

Lemma append_shown dst (k : string) v : token (str k) -> clean_value v -> header_line dst k v = dst ++ block (shown k v).
Proof.
  intros Hk Hv. unfold header_line, shown. case_if; [|by rewrite app_nil_r]. rewrite append_line by done.
  unfold block. simpl. by rewrite app_nil_r.
Qed.

Lemma append_list l : forall dst, Forall (fun kv => token (kv_key kv) /\ clean_value (kv_value kv)) l ->
  foldl (fun dst kv => appendHeaderLine dst (kv_key kv) (kv_value kv)) dst l = dst ++ block (pair_kv <$> l).
Proof.
  induction l as [|kv l IH]; intros dst Hl; [by rewrite app_nil_r|]. apply Forall_cons in Hl as [[Hk Hv] Hl].
  simpl. rewrite append_line, IH by done. by rewrite <- app_assoc.
Qed.

(** Names the code itself writes. *)
Lemma known_token (k : string) : forallb (fun c => negb (tab ValidHeaderFieldNameTable c =? 0)) (str k) = true -> token (str k).
Proof. intros H. apply Forall_forall. intros c Hc. rewrite forallb_forall in H. specialize (H c). rewrite <- list_elem_of_In in H. specialize (H Hc). breflect. done. Qed.

Ltac known := apply known_token; vm_compute; reflexivity.

Lemma value_ok_nil : value_ok [].
Proof. split; [split; [constructor|done|done]|done]. Qed.

Lemma sent_type_ok h : value_ok (contentType h) -> value_ok (sent_contentType h).
Proof.
  intros H. unfold sent_contentType. case_if; [|done]. split; [|by vm_compute].
  split; [|done|by vm_compute]. by apply (bool_decide_unpack _).
Qed.

Lemma itoa_value n : 0 <= n -> value_ok (itoa n).
Proof.
  intros Hn. pose proof (parse_digits_itoa n Hn) as E. revert E. generalize (itoa n), 0.
  intros b v E. assert (Forall (fun c => 48 <= c <= 57) b) as Hb.
  { revert v E. induction b as [|c b IH]; intros v E; [constructor|]. simpl in E. unfold between in E. case_if; [|done]. breflect.
    constructor; [lia|eauto]. }
  clear E. rewrite Forall_forall in Hb. split; [split|].
  - apply Forall_forall. intros c Hc%Hb. lia.
  - intros H. apply head_Some_elem_of, Hb in H. lia.
  - intros H. apply last_Some_elem_of, Hb in H. lia.
  - apply forallb_forall. intros c Hc. apply list_elem_of_In, Hb in Hc.
    assert (c = 48 \/ c = 49 \/ c = 50 \/ c = 51 \/ c = 52 \/ c = 53 \/ c = 54 \/ c = 55 \/ c = 56 \/ c = 57) as Hd by lia.
    by repeat (destruct Hd as [->|Hd]; [done|]); subst.
Qed.

Lemma known_field (k : string) v :
  forallb (fun c => negb (tab ValidHeaderFieldNameTable c =? 0)) (str k) && negb (bytes_eqb (str k) []) &&
  bytes_eqb (NormalizeHeaderKey (str k) false) (str k) = true -> value_ok v -> field_ok (str k, v).
Proof.
  intros H [Hc Hv]. rewrite !andb_true_iff in H. destruct H as [[H1 H2] H3]. breflect.
  split; cbn [fst snd]; [by apply bytes_eqb_neq|by apply known_token|by apply bytes_eqb_eq|done|done].
Qed.

Ltac known_ok := apply known_field; [vm_compute; reflexivity|].

Lemma Forall_shown (k : string) v : field_ok (str k, v) -> Forall field_ok (shown k v).
Proof. intros H. unfold shown. case_if; [by apply Forall_singleton|constructor]. Qed.

Section Sendable.
Context (h : RequestHeader) (pre te post : list argsKV) (Hs : sendable h pre te post).

Lemma list_ok : Forall (fun kv => field_ok (pair_kv kv)) (rq_h h).
Proof.
  rewrite (sd_list _ _ _ _ Hs). pose proof (sd_plain _ _ _ _ Hs) as Hp. apply Forall_app in Hp as [H1 H2].
  rewrite !Forall_app. split_and!.
  - eapply Forall_impl; [done|]. by intros kv [_ ? _].
  - destruct (sd_te _ _ _ _ Hs) as [->| ->]; [constructor|]. apply Forall_singleton. unfold pair_kv. simpl.
    known_ok. split; [|by vm_compute]. split; [by apply (bool_decide_unpack _)|done|by vm_compute].
  - eapply Forall_impl; [done|]. by intros kv [_ ? _].
Qed.

Lemma length_ok : value_ok (contentLengthBytes h).
Proof. destruct (sd_length _ _ _ _ Hs) as [->|[-> H]]; [apply value_ok_nil|apply itoa_value; lia]. Qed.

Lemma sent_fields_ok : Forall field_ok (sent_fields h).
Proof.
  unfold sent_fields, sent_cookies. rewrite !Forall_app. split_and!.
  - apply Forall_shown. known_ok. apply Hs.
  - apply Forall_shown. known_ok. apply Hs.
  - apply Forall_shown. known_ok. apply sent_type_ok, Hs.
  - apply Forall_shown. known_ok. apply length_ok.
  - rewrite Forall_fmap. apply list_ok.
  - case_if; [constructor|]. apply Forall_singleton. known_ok. apply Hs.
  - pose proof (sd_cookies _ _ _ _ Hs) as Hc. destruct (cookies h); [constructor|]. apply Forall_singleton. known_ok. exact Hc.
  - case_if; [|constructor]. apply Forall_singleton. known_ok. split; [split|]; by apply (bool_decide_unpack _) || by vm_compute.
Qed.

Lemma AppendBytes_block : AppendBytes h [] = head_bytes (Method h) (RequestURI h) (sent_fields h).
Proof.
  pose proof (sd_agent _ _ _ _ Hs) as [Ha _]. pose proof (sd_host _ _ _ _ Hs) as [Hh _].
  destruct (sent_type_ok h (sd_type _ _ _ _ Hs)) as [Ht _]. destruct length_ok as [Hl _]. destruct (sd_trailer _ _ _ _ Hs) as [Htr _].
  assert (forall k v, block [(k, v)] = line k v) as E0 by (intros; unfold block; simpl; by rewrite app_nil_r).
  assert (forall a, (if trailer_Empty (rq_trailer h) then a else appendHeaderLine a (str "Trailer") (GetBytes (tr_h (rq_trailer h)))) =
          a ++ block (if trailer_Empty (rq_trailer h) then [] else [(str "Trailer", GetBytes (tr_h (rq_trailer h)))])) as E1.
  { intros a. case_if; [by rewrite app_nil_r|]. by rewrite append_line, E0 by (known || done). }
  assert (forall a, (if connectionClose h then appendHeaderLine a (str "Connection") (str "close") else a) =
          a ++ block (if connectionClose h then [(str "Connection", str "close")] else [])) as E2.
  { intros a. case_if; [|by rewrite app_nil_r]. by rewrite append_line, E0 by (known || split; by apply (bool_decide_unpack _) || done). }
  assert (forall a, match cookies h with [] => a | _ => appendRequestCookieBytes (a ++ str "Cookie: ") (cookies h) ++ [13; 10] end =
          a ++ block (sent_cookies h)) as E3.
  { intros a. unfold sent_cookies. destruct (cookies h) as [|c cs]; [by rewrite app_nil_r|]. rewrite E0.
    unfold appendRequestCookieBytes, line. by rewrite <- !app_assoc. }
  unfold AppendBytes. rewrite !append_shown by (known || done).
  rewrite append_list; [|eapply Forall_impl; [apply list_ok|]; by intros kv [_ ? _ ? _]].
  cbv zeta. rewrite E2, E3, E1. unfold head_bytes, sent_fields, first_line. rewrite !block_app. cbn [app].
  repeat (rewrite <- !app_assoc; cbn [app]). done.
Qed.

(** ** What is received *)

Lemma take_fields_app st a b : foldl take_field st (a ++ b) = foldl take_field (foldl take_field st a) b.
Proof. apply foldl_app. Qed.

Lemma plain_field kv g err : plain kv -> parse_field g (kv_key kv) (kv_value kv) err = (AddArgBytes g (kv_key kv) (kv_value kv), err).
Proof.
  intros [_ _ Hn]. simpl in Hn. rewrite !andb_true_iff in Hn. destruct Hn as (N1 & N2 & N3 & N4 & N5 & N6 & N7 & _). breflect.
  unfold parse_field. rewrite N1, N2, N3, N4, N5, N6, N7. repeat case_if; done.
Qed.

Lemma take_plain l : Forall plain l -> forall g err, foldl take_field (g, err) (pair_kv <$> l) = (set_h g (rq_h g ++ l), err).
Proof.
  induction 1 as [|kv l Hk _ IH]; intros g err; [simpl; rewrite app_nil_r; by destruct g|]. cbn [fmap list_fmap foldl].
  change (take_field (g, err) (pair_kv kv)) with (parse_field g (kv_key kv) (kv_value kv) err).
  rewrite plain_field by done. rewrite IH. f_equal. unfold set_h, AddArgBytes, appendArgBytes. cbn. rewrite <- app_assoc.
  destruct Hk as [Hn _ _]. destruct kv as [k v n]. simpl in Hn. by subst n.
Qed.

Lemma set_loop_fresh l k v n : Forall (fun kv => kv_key kv <> k) l -> set_loop l k v n = None.
Proof.
  induction 1 as [|kv l Hk _ IH]; [done|]. simpl. rewrite (proj2 (bytes_eqb_neq _ _)) by congruence. by rewrite IH.
Qed.

Lemma plain_not_te kv : plain kv -> kv_key kv <> str "Transfer-Encoding".
Proof.
  intros [_ _ Hn] E. rewrite E in Hn. by vm_compute in Hn.
Qed.

(** The list is read as it was; Transfer-Encoding makes the body chunked. *)
Lemma take_list g err : rq_h g = [] ->
  foldl take_field (g, err) (pair_kv <$> rq_h h) =
  (set_h (InitContentLengthWithValue g (match te with [] => contentLength g | _ => -1 end)) (rq_h h), err).
Proof.
  intros Hg. pose proof (sd_plain _ _ _ _ Hs) as Hp. apply Forall_app in Hp as [H1 H2]. rewrite (sd_list _ _ _ _ Hs).
  rewrite !fmap_app, !take_fields_app, (take_plain pre) by done. rewrite Hg. cbn [app].
  destruct (sd_te _ _ _ _ Hs) as [E|E]; rewrite E.
  - cbn [fmap list_fmap foldl]. rewrite take_plain by done. by destruct g.
  - cbn [fmap list_fmap foldl]. change (take_field (?x, err) (pair_kv chunked_kv)) with (parse_field x (str "Transfer-Encoding") (str "chunked") err).
    assert (forall x, parse_field x (str "Transfer-Encoding") (str "chunked") err =
            (SetArgBytes (InitContentLengthWithValue x (-1)) (str "Transfer-Encoding") (str "chunked"), err)) as -> by done.
    rewrite take_plain by done. f_equal. unfold SetArgBytes, setArgBytes, upsert. cbn.
    rewrite set_loop_fresh by (eapply Forall_impl; [done|apply plain_not_te]). cbn. by rewrite <- app_assoc.
Qed.

(** The header that is made of what [h] sends, in an object that was [h0].  It is not [h]:
    see [carried] for what it has of [h]. *)
Definition received (h0 : RequestHeader) : RequestHeader :=
  mkReq false (connectionClose h) false false
    (match te with [] => match contentLengthBytes h with [] => -2 | _ => contentLength h end | _ => -1 end)
    (match te with [] => contentLengthBytes h | _ => [] end)
    (Method h) (RequestURI h) (host h) (sent_contentType h) (userAgent h) HTTP11
    (rq_h h ++ ((fun f => mkKV f.1 f.2 false) <$> sent_cookies h)) (trailer_ResetSkipNormalize (rq_trailer h0)) []
    (raw_of (sent_fields h)).

Lemma empty_value (v : bytes) : (len v >? 0) = false -> v = [].
Proof. intros E. breflect. apply len_0_inv. pose proof (len_nonneg v). lia. Qed.

Section Steps.
Context (d c n k : bool) (clb m u ho ct p raw : bytes) (cl : Z) (l cs : list argsKV) (t : Trailer).

Lemma take_agent v :
  foldl take_field (mkReq d c n k cl clb m u ho ct [] p l t cs raw, None) (shown "User-Agent" v) = (mkReq d c n k cl clb m u ho ct v p l t cs raw, None).
Proof. unfold shown. case_if; [done|]. by rewrite (empty_value v). Qed.

Lemma take_host v ua :
  foldl take_field (mkReq d c n k cl clb m u [] ct ua p l t cs raw, None) (shown "Host" v) = (mkReq d c n k cl clb m u v ct ua p l t cs raw, None).
Proof. unfold shown. case_if; [done|]. by rewrite (empty_value v). Qed.

Lemma take_type v ua :
  foldl take_field (mkReq d c n k cl clb m u ho [] ua p l t cs raw, None) (shown "Content-Type" v) = (mkReq d c n k cl clb m u ho v ua p l t cs raw, None).
Proof. unfold shown. case_if; [done|]. by rewrite (empty_value v). Qed.

Lemma take_length x v ua : v = [] \/ (v = itoa x /\ 0 <= x < 2 ^ 63) ->
  foldl take_field (mkReq d c n k (-2) [] m u ho ct ua p l t cs raw, None) (shown "Content-Length" v) =
  (mkReq d c n k (match v with [] => -2 | _ => x end) v m u ho ct ua p l t cs raw, None).
Proof.
  intros [->|[-> Hx]]; [done|]. destruct (itoa_first x ltac:(lia)) as (y & z & E & _). unfold shown. rewrite E.
  assert ((len (y :: z) >? 0) = true) as -> by (rewrite len_cons; pose proof (len_nonneg z); apply Z.gtb_lt; lia).
  cbn [foldl]. unfold take_field. cbn [fst snd].
  assert (forall g v', parse_field g (str "Content-Length") v' None =
     if negb (contentLength g =? -1) then
        match ParseContentLength v' with
        | None => (InitContentLengthWithValue g (-2), Some errContentLengthValue)
        | Some i => (SetContentLengthBytes (InitContentLengthWithValue g i) v', None)
        end else (g, None)) as -> by done.
  rewrite <- E, ParseContentLength_itoa by done. done.
Qed.
End Steps.

Lemma take_rest g : connectionClose g = false ->
  foldl take_field (g, None) ((if trailer_Empty (rq_trailer h) then [] else [(str "Trailer", GetBytes (tr_h (rq_trailer h)))]) ++
    sent_cookies h ++ (if connectionClose h then [(str "Connection", str "close")] else [])) =
  (SetConnectionClose (set_h g (rq_h g ++ ((fun f => mkKV f.1 f.2 false) <$> sent_cookies h))) (connectionClose h), None).
Proof.
  intros Hg. rewrite !take_fields_app.
  assert (foldl take_field (g, None) (if trailer_Empty (rq_trailer h) then [] else [(str "Trailer", GetBytes (tr_h (rq_trailer h)))]) = (g, None)) as -> by (by case_if).
  assert (foldl take_field (g, None) (sent_cookies h) = (set_h g (rq_h g ++ ((fun f => mkKV f.1 f.2 false) <$> sent_cookies h)), None)) as ->.
  { unfold sent_cookies. destruct (cookies h); [|done]. simpl. rewrite app_nil_r. by destruct g. }
  destruct (connectionClose h) eqn:E; [done|]. simpl. rewrite <- Hg. by destruct g.
Qed.

Lemma read_sent h0 : disableNormalizing h0 = false ->
  let x := read_fields (ResetSkipNormalize h0) (Method h) (RequestURI h) (sent_fields h) in
  x.2 = None /\ closed_fields x.1 = received h0.
Proof.
  intros Hd. unfold read_fields. unfold sent_fields at 2 4. rewrite !take_fields_app.
  unfold opened, ResetSkipNormalize, InitContentLengthWithValue, SetRawHeaders, SetProtocol, SetRequestURIBytes, SetMethodBytes. cbn.
  rewrite take_agent, take_host, take_type, (take_length _ _ _ _ _ _ _ _ _ _ _ _ _ (contentLength h)) by apply Hs.
  rewrite take_list by done. rewrite <- !take_fields_app, take_rest by done. split; [done|]. cbn [fst].
  unfold closed_fields, received. rewrite Hd. cbn. destruct te; [|done].
  destruct (contentLengthBytes h) eqn:E; [done|].
  destruct (sd_length _ _ _ _ Hs) as [E'|[_ Hl]]; [congruence|]. by rewrite (proj2 (Z.ltb_ge _ _)) by lia.
Qed.
End Sendable.

(** The whole header object, for a header within the limit of ReadHeaderWithLimit. *)
Lemma sent_header_read h h0 pre te post r body M :
  sendable h pre te post -> disableNormalizing h0 = false -> M <= 0 \/ len (AppendBytes h []) <= M ->
  rd_buf r ++ concat (rd_wire r) = AppendBytes h [] ++ body ->
  exists r', ReadHeaderWithLimit h0 r M = Ret (received h te h0, r', None) /\ rd_buf r' ++ concat (rd_wire r') = body.
Proof.
  intros Hs Hd HM E. rewrite (AppendBytes_block h pre te post Hs) in *. destruct (read_sent h pre te post Hs h0 Hd) as [E1 E2].
  rewrite <- E2. apply ReadHeader_block; try done; [apply Hs|by eapply sent_fields_ok].
Qed.

(** What the header [h'] that is read has of the header [h] that was sent.  A content type
    that was left open may have become the default one; the cookies are one field behind the
    others, with their text; the length is the one that was printed, if one was, and a body
    sent in chunks is read in chunks.  The names of trailers are not taken over. *)
Record carried (h h' : RequestHeader) : Prop := {
  ca_method : Method h' = Method h;
  ca_target : RequestURI h' = RequestURI h;
  ca_version : protocol h' = HTTP11;
  ca_host : host h' = host h;
  ca_agent : userAgent h' = userAgent h;
  ca_type : contentType h' = contentType h \/ (contentType h = [] /\ contentType h' = str "application/x-www-form-urlencoded");
  ca_fields : rq_h h' = rq_h h ++ match cookies h with [] => [] | cs => [mkKV (str "Cookie") (cookie_bytes cs) false] end;
  ca_chunked : chunked_kv ∈ rq_h h -> contentLength h' = -1 /\ contentLengthBytes h' = [];
  ca_length : chunked_kv ∉ rq_h h -> contentLengthBytes h' = contentLengthBytes h /\ (contentLengthBytes h <> [] -> contentLength h' = contentLength h);
  ca_no_length : chunked_kv ∉ rq_h h -> contentLengthBytes h = [] -> contentLength h' = -2;
  ca_close : connectionClose h' = connectionClose h;
  ca_trailer : tr_h (rq_trailer h') = []
}.

Lemma received_carried h h0 pre te post : sendable h pre te post -> carried h (received h te h0).
Proof.
  intros Hs. assert (te = [] <-> chunked_kv ∉ rq_h h) as Hte.
  { rewrite (sd_list _ _ _ _ Hs). pose proof (sd_plain _ _ _ _ Hs) as Hp. rewrite Forall_forall in Hp.
    assert (chunked_kv ∉ pre ++ post) as Hn by (intros Hin%Hp%plain_not_te; done). destruct (sd_te _ _ _ _ Hs) as [->| ->]; set_solver. }
  assert (chunked_kv ∈ rq_h h -> te = [chunked_kv]) as Hin.
  { intros Hi. destruct (sd_te _ _ _ _ Hs) as [E|E]; [|done]. by apply Hte in E. }
  destruct (sd_target _ _ _ _ Hs) as [Hm _ Hu _ _].
  assert (forall x : bytes, x <> [] -> (len x =? 0) = false) as Hlen by (intros x Hx; apply Z.eqb_neq; intros E; by apply Hx, len_0_inv).
  split; cbn; try done.
  - unfold Method at 1. cbn. by rewrite (Hlen (Method h)).
  - unfold RequestURI at 1. cbn. by rewrite (Hlen (RequestURI h)).
  - unfold sent_contentType. case_if; [|by left]. right. split; [|done]. apply len_0_inv. breflect. tauto.
  - unfold sent_cookies. by destruct (cookies h).
  - intros ->%Hin. done.
  - intros ->%Hte. split; [done|]. by destruct (contentLengthBytes h).
  - intros ->%Hte ->. done.
Qed.

