(* ===== verification/ReqFraming.v ===== *)
(** * Requests: where the body begins and how long it is

    Reading a header ends; the length of the body and the fields that announce it agree,
    whatever the header says and in whatever order.  And what goes wrong: folded values,
    names with a carriage return, lines without a colon, cookies with line ends. *)

From S2P Require Import Prelude Bytes BytesConv Args ArgsSpec HeaderScan Trailer ReqHeader ReqParse ReqRound ReqSend.

(** ** The loop over the fields ends *)

Lemma zdrop_shorter {A} n (l : list A) : 0 < n -> l <> [] -> (length (zdrop n l) < length l)%nat.
Proof. intros Hn Hl. unfold zdrop. rewrite length_drop. destruct l; [done|]. simpl. lia. Qed.

Lemma zdrop_le {A} n (l : list A) : (length (zdrop n l) <= length l)%nat.
Proof. unfold zdrop. rewrite length_drop. lia. Qed.

Lemma take_value_shorter s n multi nc nl : 0 <= n -> sc_B s <> [] -> (length (sc_B (take_value s n multi nc nl)) < length (sc_B s))%nat.
Proof.
  intros Hn HB. unfold take_value. destruct multi; cbn [sc_B].
  - unfold normalizeHeaderValue. set (ov := trim_value _). destruct (len ov <=? 0) eqn:E; breflect; cbn.
    + destruct (sc_B s); [done|]. simpl. lia.
    + destruct (unfold_loop ov false) as [nv sh]. cbn [sc_B].
      eapply Nat.le_lt_trans; [apply zdrop_le|]. apply zdrop_shorter; [lia|done].
  - apply zdrop_shorter; [lia|done].
Qed.

Lemma fold_lines_ge fuel : forall B n multi nl, 0 <= n -> 0 <= (fold_lines fuel B n multi nl).1.1.1.
Proof.
  induction fuel as [|fuel IH]; intros B n multi nl Hn; [done|]. cbn [fold_lines]. case_match; [|done].
  repeat case_if; try done. breflect. apply IH. lia.
Qed.

Lemma Next_shorter s s' : Next s = (s', true) -> (length (sc_B s') < length (sc_B s))%nat.
Proof.
  unfold Next. case_if; [done|]. case_if; [done|]. destruct (key_end s) as [n|e]; [|done].
  assert (length (sc_B (take_key s n)) <= length (sc_B s))%nat as Hk by (unfold take_key; cbn [sc_B]; apply zdrop_le).
  set (s1 := take_key s n) in *. cbv zeta.
  destruct (if nextNewLine s1 >=? 0 then _ else _) as [n1 nl]. case_if; [done|]. breflect.
  pose proof (fold_lines_ge (length (sc_B s1)) (sc_B s1) n1 false nl Heqb1) as Hf.
  destruct (fold_lines _ _ _ _ _) as [[[n2 multi] nc] nl2]. cbn [fst] in Hf. case_if; [done|]. intros [= <-]. breflect.
  eapply Nat.lt_le_trans; [|exact Hk]. apply take_value_shorter; [done|]. intros E. rewrite E in Heqb2. change (len (@nil Z)) with 0 in Heqb2. lia.
Qed.

(** More fuel than octets is enough fuel. *)
Lemma fields_loop_fuel f1 : forall f2 h s err, (length (sc_B s) < f1)%nat -> (length (sc_B s) < f2)%nat ->
  fields_loop f1 h s err = fields_loop f2 h s err.
Proof.
  induction f1 as [|f1 IH]; intros f2 h s err H1 H2; [lia|]. destruct f2 as [|f2]; [lia|]. cbn [fields_loop].
  destruct (Next s) as [s' []] eqn:E; [|done]. apply Next_shorter in E.
  repeat case_if; try done; [|apply IH; lia]. destruct (parse_field _ _ _ _). apply IH; lia.
Qed.

(** ** The length of the body *)

Definition te_key (kv : argsKV) : bool := bytes_eqb (kv_key kv) (str "Transfer-Encoding").

(** The digits [b] announce the length [n]: the number they write, which the code keeps in
    an int. *)
Definition announces (b : bytes) (n : Z) : Prop :=
  b <> [] /\ forallb digitb b = true /\ n = i64 (decimal 0 b).

(** Transfer-Encoding is in the list if and only if the body is chunked; a length is the
    one the header shows. *)
Record framed (h : RequestHeader) : Prop := {
  fr_te : existsb te_key (rq_h h) = true <-> contentLength h = -1;
  fr_length : 0 <= contentLength h -> announces (contentLengthBytes h) (contentLength h);
  fr_range : -2 <= contentLength h
}.

Lemma uint_loop_nonneg b : forall v i x n, 0 <= v -> uint_loop b v i = Some (x, n) -> 0 <= x.
Proof.
  induction b as [|c b IH]; intros v i x n Hv E; cbn [uint_loop] in E; [by simplify_eq|].
  repeat case_if; simplify_eq; try done. breflect. eapply IH; [|exact E]. lia.
Qed.

Lemma ParseContentLength_nonneg b n : ParseContentLength b = Some n -> 0 <= n.
Proof.
  unfold ParseContentLength, ParseUintBuf. destruct b as [|c b]; [done|].
  destruct (uint_loop (c :: b) 0 0) as [[v m]|] eqn:E; [|done]. case_if; [|done]. intros [= <-].
  by eapply uint_loop_nonneg; [|exact E].
Qed.

Lemma uint_loop_i64 b : forall v i x n, is_i64 v -> uint_loop b v i = Some (x, n) -> is_i64 x.
Proof.
  induction b as [|c b IH]; intros v i x n Hv E; cbn [uint_loop] in E; [by simplify_eq|].
  repeat case_if; simplify_eq; try done. eapply IH; [|exact E]. unfold is_i64, i64. lia.
Qed.

Lemma ParseContentLength_announces b n : Forall is_u8 b -> ParseContentLength b = Some n -> announces b n.
Proof.
  intros Hw. unfold ParseContentLength, ParseUintBuf. destruct b as [|c b]; [done|]. destruct (uint_loop (c :: b) 0 0) as [[v m]|] eqn:E; [|done].
  case_if; [|done]. intros [= <-]. breflect. destruct (uint_loop_wraps (c :: b) 0 0 v m Hw E ltac:(lia)) as [Hd Hx]. split_and!; [done|done|].
  rewrite Hx. symmetry. apply i64_id. eapply uint_loop_i64; [|exact E]. done.
Qed.

(** A value that is taken has octets only. *)
Lemma valid_value_octets v : validHeaderFieldValue v = true -> Forall is_u8 v.
Proof.
  unfold validHeaderFieldValue. rewrite forallb_forall. intros H. apply Forall_forall. intros c Hc%list_elem_of_In%H. revert Hc. unfold tab, is_u8.
  destruct (decide (0 <= c)); [|by replace (Z.to_nat c) with 0%nat by lia]. destruct (decide (c < 2 ^ 8)); [lia|].
  rewrite lookup_ge_None_2; [done|]. change (length ValidHeaderFieldValueTable) with 256%nat. lia.
Qed.

Lemma existsb_set l v : existsb te_key (setArgBytes l (str "Transfer-Encoding") v) = true.
Proof.
  unfold setArgBytes, upsert. destruct (set_loop l (str "Transfer-Encoding") v false) as [l'|] eqn:E.
  - revert l' E. induction l as [|kv l IH]; intros l' E; [done|]. cbn [set_loop] in E. case_if.
    + simplify_eq. cbn [existsb te_key kv_key]. unfold te_key. cbn [kv_key]. apply bytes_eqb_eq in Heqb. by rewrite <- Heqb.
    + destruct (set_loop l _ v false) as [l1|]; [|done]. simplify_eq/=. rewrite (IH l1) by done. by rewrite orb_true_r.
  - rewrite existsb_app. by rewrite orb_true_r.
Qed.

Lemma existsb_add l k v : k <> str "Transfer-Encoding" -> existsb te_key (appendArgBytes l k v false) = existsb te_key l.
Proof.
  intros Hk. unfold appendArgBytes. rewrite existsb_app. cbn [existsb]. unfold te_key at 2. cbn [kv_key].
  by rewrite (proj2 (bytes_eqb_neq _ _)), !orb_false_r.
Qed.

Lemma framed_add h k v : k <> str "Transfer-Encoding" -> framed h -> framed (AddArgBytes h k v).
Proof. intros Hk [H1 H2 H3]. split; [|exact H2|exact H3]. cbn. by rewrite existsb_add. Qed.

Lemma framed_length h v n : framed h -> contentLength h <> -1 -> Forall is_u8 v -> ParseContentLength v = Some n ->
  framed (SetContentLengthBytes (InitContentLengthWithValue h n) v).
Proof.
  intros [H1 _ _] Hc Hv E. pose proof (ParseContentLength_nonneg _ _ E). split; cbn; [rewrite H1; split; lia| |lia].
  intros _. by apply ParseContentLength_announces.
Qed.

Lemma framed_unknown h : framed h -> contentLength h <> -1 -> framed (InitContentLengthWithValue h (-2)).
Proof. intros [H1 _ _] Hc. split; cbn; [rewrite H1; split; lia|lia|lia]. Qed.

Lemma framed_field h k v err : k <> [] -> Forall is_u8 v -> framed h -> framed (parse_field h k v err).1.
Proof.
  intros Hne Hv Hf. pose proof Hf as [H1 H2 H3].
  assert (forall a, framed (AddArgBytes (SetConnectionClose h a) k v) <-> framed (AddArgBytes h k v)) as Hconn by (intros a; split; intros []; by split).
  assert (CaseInsensitiveCompare k (str "Transfer-Encoding") = false \/ Z.lor (hd 0 k) 32 <> 116 -> framed (AddArgBytes h k v)) as Hother.
  { intros Hd. apply framed_add; [|done]. intros ->. destruct Hd as [Hd|Hd]; [by vm_compute in Hd|by apply Hd]. }
  unfold parse_field. destruct (Z.lor (hd 0 k) 32 =? 116) eqn:Et; breflect.
  - rewrite Et. cbn [Z.eqb Pos.eqb]. case_if; [case_if|case_if]; cbn [fst]; [|by split|by split|by apply Hother; left].
    split; [|cbn; lia|cbn; lia]. cbn. split; [done|]. intros _. apply existsb_set.
  - repeat (case_if || case_match); cbn [fst]; try (by split); try (apply Hother; by right); try (apply Hconn, Hother; by right);
    (breflect; first [eapply framed_length; eassumption | eapply framed_unknown; eassumption]).
Qed.

Lemma framed_loop fuel : forall h s err, framed h -> framed (fields_loop fuel h s err).1.1.
Proof.
  induction fuel as [|fuel IH]; intros h s err Hf; [done|]. cbn [fields_loop].
  destruct (Next s) as [s' []]; [|done]. cbv zeta. case_if; [|apply IH, framed_add; [intros E; by rewrite E in Heqb|done]].
  case_if; [done|]. case_if; [done|]. pose proof (framed_field h (sc_Key s') (sc_Value s') err) as Hp.
  destruct (parse_field _ _ _ _) as [h1 e1]. apply IH, Hp; [|by apply valid_value_octets, negb_false_iff|done]. intros E. by rewrite E in Heqb.
Qed.

(** C18: Whatever the header says, the length of the body that is read and the fields the
    handler sees agree: the body is chunked if and only if the list shows
    Transfer-Encoding, then no Content-Length is shown; otherwise none is, or digits are
    shown and the length is the number they write.  A number that does not fit an int is
    refused or wraps around, see [ParseContentLength_decimal].  No header has both. *)
Theorem request_framing (h h' : RequestHeader) (buf buf' : bytes) (n : Z) :
  parse (ResetSkipNormalize h) buf = (h', buf', Ok n) ->
  (existsb te_key (rq_h h') = true <-> contentLength h' = -1) /\
  (0 <= contentLength h' /\ contentLengthBytes h' <> [] /\ forallb digitb (contentLengthBytes h') = true /\
     (decimal 0 (contentLengthBytes h') < 2 ^ 63 -> contentLength h' = decimal 0 (contentLengthBytes h')) /\
     contentLength h' = i64 (decimal 0 (contentLengthBytes h')) \/
   (contentLength h' = -1 \/ contentLength h' = -2) /\ contentLengthBytes h' = []).
Proof.
  unfold parse. assert (forall x, rq_h (parseFirstLine x buf).1 = rq_h x) as Hl.
  { intros x. unfold parseFirstLine. repeat (case_match || case_if); done. }
  specialize (Hl (ResetSkipNormalize h)). destruct (parseFirstLine _ _) as [h1 [m|e]]; [|done]. cbn [fst] in Hl.
  destruct (ReadRawHeaders _) as [[raw k]|e]; [|done]. unfold parseHeaders. set (h2 := InitContentLengthWithValue _ _).
  assert (framed h2) as Hf by (split; cbn; [rewrite Hl; done|lia|lia]).
  set (s0 := newScanner _ _). pose proof (framed_loop (S (length (zdrop m buf))) h2 s0 None Hf) as Hg.
  destruct (fields_loop _ _ _ _) as [[h3 s] [err|e]]; [|done]. cbn [fst] in Hg.
  destruct (match err with Some e => Some e | None => sc_Err s end); [done|].
  intros [= <- _ _]. destruct Hg as [G1 G2 G3].
  set (h4 := if contentLength h3 <? 0 then SetContentLengthBytes h3 [] else h3).
  assert (forall b y : bool, let x := if b then SetConnectionClose h4 y else h4 in
    rq_h x = rq_h h4 /\ contentLength x = contentLength h4 /\ contentLengthBytes x = contentLengthBytes h4) as Hb by (by intros []).
  match goal with |- context [if ?b then SetConnectionClose h4 ?y else h4] => destruct (Hb b y) as (-> & -> & ->) end.
  unfold h4. case_if; breflect; cbn; (split; [done|]); [right; split; [lia|done]|left; split; [done|]].
  destruct (G2 ltac:(done)) as (Hne & Hd & ->). split_and!; [done|done| |done]. intros Hlt. apply i64_id.
  pose proof (decimal_grows 0 (contentLengthBytes h3) ltac:(lia) Hd). width.
Qed.

Module Sample.
Definition crlf : bytes := [13; 10].
Definition lines (l : list string) : bytes := concat ((fun s => str s ++ crlf) <$> l) ++ crlf.

(** The header read from [b]: method, length, close, the list, and what is left. *)
Definition seen (b : bytes) : option (bytes * Z * bool * list (bytes * bytes) * bytes * option headerErr) :=
  match ReadHeader newRequestHeader (mkReader [] [b]) with
  | Ret (h, r, e) => Some (method h, contentLength h, connectionClose h, pair_kv <$> rq_h h, rd_buf r, e)
  | _ => None
  end.

Definition post : list string := ["POST / HTTP/1.1"; "Content-Length: 4"]%string.

Definition both_lengths : bytes := lines (post ++ ["Transfer-Encoding: chunked"]%string).

(** [parse] accepts [buf] with [n] octets, and the length it gives and shows. *)
Definition accepts (buf : bytes) (n length : Z) (shown : bytes) : bool :=
  let '(h', _, r) := parse (ResetSkipNormalize newRequestHeader) buf in
  bool_decide (r = Ok n) && (contentLength h' =? length) && bool_decide (contentLengthBytes h' = shown).

Lemma accepts_inv buf n length shown : accepts buf n length shown = true -> exists h' b',
  parse (ResetSkipNormalize newRequestHeader) buf = (h', b', Ok n) /\ contentLength h' = length /\ contentLengthBytes h' = shown.
Proof.
  unfold accepts. destruct (parse _ buf) as [[h' b'] r]. intros [[->%bool_decide_eq_true_1 E2%Z.eqb_eq]%andb_true_iff E3%bool_decide_eq_true_1]%andb_true_iff.
  by exists h', b'.
Qed.

Lemma both_lengths_read : accepts both_lengths 66 (-1) [] = true.
Proof. vm_eq. Qed.

Lemma padded_length_read : accepts (lines ["POST / HTTP/1.1"; "Content-Length: 0012"]%string) 41 12 (str "0012") = true.
Proof. vm_eq. Qed.

Lemma request_framing_witness :
  (exists h' b', parse (ResetSkipNormalize newRequestHeader) both_lengths = (h', b', Ok 66) /\ existsb te_key (rq_h h') = true) /\
  (exists h' b', parse (ResetSkipNormalize newRequestHeader) (lines ["POST / HTTP/1.1"; "Content-Length: 0012"]%string) = (h', b', Ok 41) /\
     contentLength h' = decimal 0 (str "0012")).
Proof.
  split.
  - destruct (accepts_inv _ _ _ _ both_lengths_read) as (h' & b' & E & El & _). exists h', b'. split; [done|].
    by apply (request_framing newRequestHeader h' both_lengths b' 66 E).
  - destruct (accepts_inv _ _ _ _ padded_length_read) as (h' & b' & E & El & Es). exists h', b'. split; [done|].
    destruct (request_framing newRequestHeader h' _ b' 41 E) as [_ [(_ & _ & _ & Hd & _)|[H _]]]; [rewrite Es in Hd; by apply Hd|lia].
Defined.

(** A request with a body, in three pieces. *)
Definition sample : RequestHeader :=
  mkReq false true false true 5 (str "5") (str "POST") (str "/a?b=c") (str "example.com") [] (str "x/1") []
    [mkKV (str "Accept") (str "a, b") false] newTrailer [mkKV (str "k") (str "v") false] [].

Definition sample_text : bytes := AppendBytes sample [] ++ str "hello".

Lemma sample_sendable : sendable sample [mkKV (str "Accept") (str "a, b") false] [] [].
Proof.
  assert (forall v, bool_decide (Forall (fun c => c <> 13 /\ c <> 10) v) && negb (bool_decide (head v = Some 32)) &&
            negb (bool_decide (last v = Some 32)) && validHeaderFieldValue v = true -> value_ok v) as Hv.
  { intros v H. rewrite !andb_true_iff in H. destruct H as [[[H1 H2] H3] H4]. breflect. repeat case_bool_decide; try done. }
  split; try (apply Hv; vm_compute; reflexivity); try done; [| |by left|].
  - split; [done|apply known_token; vm_compute; reflexivity|done|by apply (bool_decide_unpack _)|by apply (bool_decide_unpack _)].
  - right. split; [vm_eq|change (contentLength sample) with 5; lia].
  - apply Forall_singleton. split; [done| |vm_eq]. apply known_field; [vm_compute; reflexivity|]. apply Hv. vm_compute. reflexivity.
Qed.


(** Four ways in which a request is not read as its octets say.  A value folded over
    two lines is closed up in the buffer, and as many octets as were taken out appear
    twice at its end, in front of the next request; a carriage return in a name counts as
    a hyphen; of two different lengths the last one holds; and a header with a line
    without a colon is not refused but waited for. *)
Theorem request_defects :
  seen (lines (post ++ ["A: b"; " c"]%string) ++ str "abcd") =
    Some (str "POST", 4, false, [(str "A", str "b c")], str "abcdcd", None) /\
  seen (str "POST / HTTP/1.1" ++ crlf ++ str "Content" ++ [13] ++ str "Length: 4" ++ crlf ++ crlf) = Some (str "POST", 4, false, [], [], None) /\
  seen (lines (post ++ ["Content-Length: 5"]%string)) = Some (str "POST", 5, false, [], [], None) /\
  (parse newRequestHeader (lines ["GET / HTTP/1.1"; "foo"]%string)).2 = Err errNeedMore.
Proof. split_and!; vm_eq. Qed.

(** A cookie is sent as it is: a line end in its value starts another field.  And an
    empty name in a list of trailers panics. *)
Theorem cookie_splits_request :
  seen (AppendBytes (SetCookie newRequestHeader (str "a") (str "b" ++ crlf ++ str "X: y")) []) =
    Some (str "GET", -2, false, [(str "Cookie", str "a=b"); (str "X", str "y")], [], None) /\
  Set_ newRequestHeader (str "Trailer") (str "a,,b") = Panic.
Proof. split; vm_eq. Qed.
End Sample.
