(* ===== verification/BodyRead.v ===== *)
(** * Bodies of HTTP/1 messages

    [web/protocol/ext/common.go] with [web/common/utils/chunk.go]: bodies of a fixed
    length, in chunks, and up to the end of the connection, and the trailer behind the
    chunks.  The reader is the one of [ReqParse]; a slice is its octets and its
    capacity, since the functions reuse what the caller hands them.  The writer is the
    octets written so far; errors of the connection behind it are not modelled. *)

From S2P Require Import Prelude Bytes BytesConv Args ArgsSpec HeaderScan Trailer ReqHeader ReqParse.

(** ** The reader *)

(** All that can still be read. *)
Definition stream (r : reader) : bytes := rd_buf r ++ concat (rd_wire r).

(** Skip discards what is in the buffer; it does not wait. *)
Definition Skip (r : reader) (n : Z) : reader * bool :=
  if len (rd_buf r) <? n then (r, false) else (mkReader (zdrop n (rd_buf r)) (rd_wire r), true).

Definition ReadByte (r : reader) : reader * option Z :=
  match Peek r 1 with
  | (r, Some (c :: _)) => ((Skip r 1).1, Some c)
  | (r, _) => (r, None)
  end.

(** ** Errors *)

Inductive bodyErr : Type :=
| ErrUnexpectedEOF
| errHexNum (e : hexErr)
| errChunkSizeEnd
| errBrokenChunk
| errBodyTooLarge
| errPeekBody
| errSkipBody
| errChunkedStream
| errTrailer (e : headerErr)
| errBodyEOF.

#[export] Instance hexErr_eq_dec : EqDecision hexErr.
Proof. solve_decision. Defined.
#[export] Instance bodyErr_eq_dec : EqDecision bodyErr.
Proof. solve_decision. Defined.

(** ** Sizes of chunks *)

(** ReadHexInt on the reader; it looks at sixteen octets at most. *)
Fixpoint readhex (fuel : nat) (r : reader) (n i : Z) : reader * result hexErr Z :=
  match fuel with
  | O => (r, Err errTooLargeHexNum)
  | S fuel =>
      match Peek r 1 with
      | (r, Some (c :: _)) =>
          let k := tab Hex2intTable c in
          if k =? 16 then if i =? 0 then ((Skip r 1).1, Err errEmptyHexNum) else (r, Ok n)
          else if i >=? maxHexIntChars then ((Skip r 1).1, Err errTooLargeHexNum)
          else readhex fuel (Skip r 1).1 (Z.lor (i64 (Z.shiftl n 4)) k) (i + 1)
      | (r, _) => (r, if i >? 0 then Ok n else Err errPeek)
      end
  end.

(** The loop over spaces up to the carriage return. *)
Fixpoint chunk_cr (fuel : nat) (r : reader) : reader * option bodyErr :=
  match fuel with
  | O => (r, Some errChunkSizeEnd)
  | S fuel =>
      match ReadByte r with
      | (r, None) => (r, Some errChunkSizeEnd)
      | (r, Some c) => if c =? 32 then chunk_cr fuel r else if negb (c =? 13) then (r, Some errChunkSizeEnd) else (r, None)
      end
  end.

Definition ParseChunkSize (r : reader) : reader * result bodyErr Z :=
  match readhex 16 r 0 0 with
  | (r, Err e) => (r, Err (match e with errPeek => ErrUnexpectedEOF | _ => errHexNum e end))
  | (r, Ok n) =>
      match chunk_cr (S (length (stream r))) r with
      | (r, Some e) => (r, Err e)
      | (r, None) =>
          match ReadByte r with
          | (r, Some c) => if negb (c =? 10) then (r, Err errChunkSizeEnd) else (r, Ok n)
          | (r, None) => (r, Err errChunkSizeEnd)
          end
      end
  end.

Definition CRLF : bytes := [13; 10].

Definition SkipCRLF (r : reader) : reader * option bodyErr :=
  match Peek r (len CRLF) with
  | (r, None) => (r, Some errBodyEOF)
  | (r, Some p) => if negb (bytes_eqb p CRLF) then (r, Some errBrokenChunk) else ((Skip r (len p)).1, None)
  end.

(** ** Reading a body *)

Record slice := mkSlice { sl_data : bytes; sl_cap : Z }.

Fixpoint round2_loop (fuel : nat) (n x : Z) : Z :=
  match fuel with
  | O => x
  | S fuel => if n >? 0 then round2_loop fuel (Z.shiftr n 1) (x + 1) else x
  end.

Definition round2 (n : Z) : Z := if n <=? 0 then 0 else Z.shiftl 1 (round2_loop 64 (n - 1) 0).

(** make([]byte, n): the runtime panics beyond what it can address. *)
Definition maxAlloc : Z := 2 ^ 48.
Definition makeslice (n : Z) : outcome Z := if n >? maxAlloc then Panic else Ret n.

Definition appendBodyFixedSize (r : reader) (dst : slice) (n : Z) : outcome (reader * slice * option bodyErr) :=
  if n =? 0 then Ret (r, dst, None)
  else
    let dstLen := len (sl_data dst) + n in
    run cap <- (if sl_cap dst <? dstLen then makeslice (round2 dstLen) else Ret (sl_cap dst));
    match Peek r n with
    | (r, None) => Ret (r, mkSlice (sl_data dst) cap, Some ErrUnexpectedEOF)
    | (r, Some buf) => Ret ((Skip r (len buf)).1, mkSlice (sl_data dst ++ buf) cap, None)
    end.

(** The loop of readBodyIdentity; [acc] is what has been copied, [L] the length of [dst]. *)
Fixpoint identity_loop (fuel : nat) (r : reader) (maxBodySize L : Z) (acc : bytes) : outcome (reader * slice * option bodyErr) :=
  match fuel with
  | O => OutOfFuel
  | S fuel =>
      match (if len (rd_buf r) =? 0 then Peek r 1 else (r, Some [])) with
      | (r, None) => Ret (r, mkSlice acc L, None)
      | (r, Some _) =>
          let nn := if len (rd_buf r) >=? L - len acc then L - len acc else len (rd_buf r) in
          match Peek r nn with
          | (r, None) => Ret (r, mkSlice acc L, Some errPeekBody)
          | (r, Some buf) =>
              let acc := acc ++ buf in
              let r := (Skip r nn).1 in
              if (maxBodySize >? 0) && (len acc >? maxBodySize) then Ret (r, mkSlice acc L, Some errBodyTooLarge)
              else if L =? len acc then
                let n := round2 (2 * len acc) in
                run L <- makeslice (if (maxBodySize >? 0) && (n >? maxBodySize) then maxBodySize + 1 else n);
                identity_loop fuel r maxBodySize L acc
              else identity_loop fuel r maxBodySize L acc
          end
      end
  end.

(** Every round takes an octet, or sees the end. *)
Definition readBodyIdentity (r : reader) (maxBodySize : Z) (dst : slice) : outcome (reader * slice * option bodyErr) :=
  identity_loop (S (length (stream r))) r maxBodySize (if sl_cap dst =? 0 then 1024 else sl_cap dst) [].

Fixpoint chunked_loop (fuel : nat) (r : reader) (maxBodySize : Z) (dst : slice) : outcome (reader * slice * option bodyErr) :=
  match fuel with
  | O => OutOfFuel
  | S fuel =>
      match ParseChunkSize r with
      | (r, Err e) => Ret (r, dst, Some e)
      | (r, Ok chunkSize) =>
          if chunkSize =? 0 then Ret (r, dst, None)
          else if (maxBodySize >? 0) && (len (sl_data dst) + chunkSize >? maxBodySize) then Ret (r, dst, Some errBodyTooLarge)
          else
            run (r, dst, err) <- appendBodyFixedSize r dst (chunkSize + len CRLF);
            match err with
            | Some e => Ret (r, dst, Some e)
            | None =>
                let n := len (sl_data dst) - len CRLF in
                if negb (bytes_eqb (zdrop n (sl_data dst)) CRLF) then Ret (r, dst, Some errBrokenChunk)
                else chunked_loop fuel r maxBodySize (mkSlice (ztake n (sl_data dst)) (sl_cap dst))
            end
      end
  end.

Definition readBodyChunked (r : reader) (maxBodySize : Z) (dst : slice) : outcome (reader * slice * option bodyErr) :=
  if len (sl_data dst) >? 0 then Panic else chunked_loop (S (length (stream r))) r maxBodySize dst.

Definition ReadBody (r : reader) (contentLength maxBodySize : Z) (dst : slice) : outcome (reader * slice * option bodyErr) :=
  let dst := mkSlice [] (sl_cap dst) in
  if contentLength >=? 0 then
    if (maxBodySize >? 0) && (contentLength >? maxBodySize) then Ret (r, dst, Some errBodyTooLarge)
    else appendBodyFixedSize r dst contentLength
  else if contentLength =? -1 then readBodyChunked r maxBodySize dst
  else readBodyIdentity r maxBodySize dst.

(** ** Writing chunks *)

Definition WriteChunk (w b : bytes) : outcome bytes :=
  let n := len b in
  let sz := EncodedIntHexLen n + 2 + (if n >? 0 then n + 2 else 0) in
  let wb := AppendIntHex [] n ++ CRLF ++ (if n >? 0 then b ++ CRLF else []) in
  if negb (len wb =? sz) then Panic else Ret (w ++ wb).

(** The reads of the source: each is what it put into the buffer; an empty one without
    an error is a bug of the source, the end of the list its end or its error. *)
Fixpoint WriteBodyChunked (w : bytes) (reads : list bytes) : outcome bytes :=
  match reads with
  | [] => WriteChunk w []
  | b :: reads => if len b =? 0 then Panic else run w <- WriteChunk w b; WriteBodyChunked w reads
  end.

(** ** Trailers *)

(** The loop of skipTrailer over lines, up to an empty one. *)
Fixpoint skip_loop (fuel : nat) (buf : bytes) (skip : Z) : option Z :=
  match fuel with
  | O => None
  | S fuel =>
      let index := Index buf CRLF in
      if index =? -1 then None
      else if index =? 0 then Some (skip + 2)
      else skip_loop fuel (zdrop (index + 2) buf) (skip + index + 2)
  end.

Definition skipTrailer (buf : bytes) : option Z := skip_loop (S (length buf)) buf 0.

Definition trySkipTrailer (r : reader) (n : Z) : reader * option headerErr :=
  match Peek r n with
  | (r, None) => (r, Some errEOF)
  | (r, Some _) =>
      match skipTrailer (rd_buf r) with
      | None => (r, Some errNeedMore)
      | Some headersLen => ((Skip r headersLen).1, None)
      end
  end.

Definition SkipTrailer (r : reader) : outcome (unit * reader * option headerErr) :=
  wait_for (fun h r n => let '(r, e) := trySkipTrailer r n in Ret (h, r, e)) id () r.

(** The loop over the fields; the error is that of the last one. *)
Fixpoint trailer_fields (fuel : nat) (t : Trailer) (s : HeaderScanner) (err : option headerErr) : outcome (Trailer * HeaderScanner * option headerErr) :=
  match fuel with
  | O => OutOfFuel
  | S fuel =>
      match Next s with
      | (s, false) => Ret (t, s, err)
      | (s, true) =>
          if len (sc_Key s) >? 0 then
            if negb (IndexByte (sc_Key s) 32 =? -1) || negb (IndexByte (sc_Key s) 9 =? -1) then trailer_fields fuel t s (Some errInvalidKey)
            else run (t, err) <- UpdateArgBytes t (sc_Key s) (sc_Value s); trailer_fields fuel t s err
          else trailer_fields fuel t s err
      end
  end.

(** The trailer, the buffer as the scanner leaves it, and the octets read. *)
Definition parseTrailer (t : Trailer) (buf : bytes) : outcome (Trailer * bytes * result headerErr Z) :=
  run c <- deref (head buf);
  let skip := if c =? 48 then 3 else 0 in
  if len buf <? skip then Ret (t, buf, Err errEOF)
  else
    let b := zdrop skip buf in
    run (t, s, err) <- trailer_fields (S (length b)) t (newScanner b (tr_disableNormalizing t)) None;
    let buf := ztake skip buf ++ sc_buffer s in
    Ret (t, buf, match sc_Err s with Some e => Err e | None => match err with Some e => Err e | None => Ok (HLen s) end end).

Definition tryReadTrailer (t : Trailer) (r : reader) (n : Z) : outcome (Trailer * reader * option headerErr) :=
  match Peek r n with
  | (r, None) => Ret (t, r, Some errEOF)
  | (r, Some _) =>
      run (t, buf, res) <- parseTrailer t (rd_buf r);
      let r := mkReader buf (rd_wire r) in
      match res with
      | Err e => Ret (t, r, Some e)
      | Ok headersLen => Ret (t, (Skip r headersLen).1, None)
      end
  end.

Definition ReadTrailer (t : Trailer) (r : reader) : outcome (Trailer * reader * option headerErr) :=
  wait_for tryReadTrailer trailer_ResetSkipNormalize t r.

Definition WriteTrailer (t : Trailer) (w : bytes) : bytes := w ++ trailer_AppendBytes t [].
