(* ===== verification/BodySpec.v ===== *)
(** * Bodies: what is written is read back

    The reader as the sequence of octets it will still give, and the round trip of a
    chunked body. *)

From S2P Require Import Prelude Bytes BytesConv Args ArgsSpec HeaderScan Trailer ReqHeader ReqParse ReqRound BodyRead.

(** ** The reader as a stream *)

Lemma zdrop_app_le {A} n (a b : list A) : n <= len a -> zdrop n (a ++ b) = zdrop n a ++ b.
Proof. intros H. unfold zdrop, len in *. apply drop_app_le. lia. Qed.

Lemma ztake_app_le {A} n (a b : list A) : n <= len a -> ztake n (a ++ b) = ztake n a.
Proof. intros H. unfold ztake, len in *. apply take_app_le. lia. Qed.

Lemma Peek_some r n : n <= len (stream r) ->
  exists r', Peek r n = (r', Some (ztake n (stream r))) /\ stream r' = stream r /\ n <= len (rd_buf r').
Proof.
  intros Hn. destruct r as [buf wire]. unfold Peek, stream in *. cbn [rd_buf rd_wire] in *.
  destruct (decide (n <= len buf)) as [Hle|Hgt].
  - rewrite fill_stays by done. exists (mkReader buf wire). cbn [rd_buf rd_wire]. by rewrite (ztake_app_le n buf).
  - destruct (fill_reads wire buf n) as (w1 & w2 & -> & _ & E & Hl); [lia|done|]. rewrite E.
    exists (mkReader (buf ++ concat w1) w2). cbn [rd_buf rd_wire]. rewrite concat_app, app_assoc. by rewrite (ztake_app_le n (buf ++ concat w1)).
Qed.

Lemma fill_end wire : forall buf n, len (buf ++ concat wire) < n -> fill buf wire n = (mkReader (buf ++ concat wire) [], false).
Proof.
  induction wire as [|p wire IH]; intros buf n H; cbn [fill].
  - simpl in *. rewrite app_nil_r in *. destruct (len buf >=? n) eqn:E; breflect; [lia|done].
  - simpl in *. rewrite app_assoc in *. pose proof (len_nonneg p). pose proof (len_nonneg (concat wire)).
    destruct (len buf >=? n) eqn:E; breflect; [glen|]. by apply IH.
Qed.

Lemma Peek_none r n : len (stream r) < n -> exists r', Peek r n = (r', None) /\ stream r' = stream r.
Proof.
  intros Hn. destruct r as [buf wire]. unfold Peek, stream in *. cbn [rd_buf rd_wire] in *. rewrite fill_end by done.
  eexists. split; [done|]. simpl. by rewrite app_nil_r.
Qed.

Lemma Skip_stream r n : n <= len (rd_buf r) -> exists r', Skip r n = (r', true) /\ stream r' = zdrop n (stream r).
Proof.
  intros Hn. unfold Skip. rewrite (proj2 (Z.ltb_ge _ _)) by lia. eexists. split; [done|]. unfold stream. cbn [rd_buf rd_wire].
  by rewrite zdrop_app_le.
Qed.

(** Octets are looked at and then skipped. *)
Lemma Peek_Skip r n b rest : stream r = b ++ rest -> n = len b ->
  exists r' r'', Peek r n = (r', Some b) /\ Skip r' n = (r'', true) /\ stream r' = stream r /\ stream r'' = rest.
Proof.
  intros E ->. destruct (Peek_some r (len b)) as (r' & E1 & E2 & Hl); [rewrite E; glen|]. destruct (Skip_stream r' (len b) Hl) as (r'' & E3 & E4).
  exists r', r''. split_and!; [|done|done|]; [by rewrite E1, E, ztake_app|by rewrite E4, E2, E, zdrop_app].
Qed.

Lemma ReadByte_cons r c rest : stream r = c :: rest -> exists r', ReadByte r = (r', Some c) /\ stream r' = rest.
Proof.
  intros E. destruct (Peek_Skip r 1 [c] rest E eq_refl) as (r' & r'' & E1 & E2 & _ & E4).
  unfold ReadByte. rewrite E1, E2. by exists r''.
Qed.

(** ** Sizes *)

(** The loop on the reader is the one on octets. *)
Lemma readhex_stream fuel : forall r n i, 0 <= i -> i + Z.of_nat fuel = 16 -> (0 < fuel)%nat ->
  exists r', readhex fuel r n i = (r', (readhex_loop (stream r) n i).1) /\ stream r' = (readhex_loop (stream r) n i).2.
Proof.
  induction fuel as [|fuel IH]; intros r n i Hi Hf Hp; [lia|]. cbn [readhex]. destruct (stream r) as [|c rest] eqn:E.
  - destruct (Peek_none r 1) as (r' & -> & E'); [rewrite E; done|]. exists r'. by rewrite E', E.
  - destruct (Peek_Skip r 1 [c] rest E eq_refl) as (r' & r'' & -> & E2 & E3 & E4). rewrite E2. cbn [fst readhex_loop]. cbv zeta.
    case_if; [case_if; [by exists r''|exists r'; by rewrite E3, E]|]. case_if; [by exists r''|].
    unfold maxHexIntChars in *. breflect. rewrite <- E4. apply IH; lia.
Qed.

Lemma ParseChunkSize_printed r n rest : 0 <= n < 16 ^ 15 -> stream r = AppendIntHex [] n ++ CRLF ++ rest ->
  exists r', ParseChunkSize r = (r', Ok n) /\ stream r' = rest.
Proof.
  intros Hn E. unfold ParseChunkSize. destruct (readhex_stream 16 r 0 0) as (r1 & -> & E1); [lia|done|lia|].
  change (readhex_loop (stream r) 0 0) with (ReadHexInt (stream r)) in *. rewrite E in *.
  destruct (hex_roundtrip n (CRLF ++ rest) Hn eq_refl) as [Eh _]. rewrite Eh in *. cbn [fst snd] in *.
  cbn [chunk_cr]. destruct (ReadByte_cons r1 13 (10 :: rest) E1) as (r2 & -> & E2). cbn [Z.eqb Pos.eqb negb].
  destruct (ReadByte_cons r2 10 rest E2) as (r3 & -> & E3). by exists r3.
Qed.

(** ** Sizes of slices *)

Lemma round2_loop_log f : forall m x, 0 < m < 2 ^ Z.of_nat f -> round2_loop f m x = x + Z.log2 m + 1.
Proof.
  induction f as [|f IH]; intros m x Hm; [simpl in Hm; lia|]. cbn [round2_loop]. rewrite (proj2 (Z.gtb_lt _ _)) by lia.
  rewrite Z.shiftr_div_pow2 by lia. change (2 ^ 1) with 2. rewrite Nat2Z.inj_succ, Z.pow_succ_r in Hm by lia.
  destruct (decide (m = 1)) as [->|Hne].
  - change (1 / 2) with 0. destruct f; simpl; lia.
  - rewrite IH by lia. assert (Z.log2 m = Z.log2 (m / 2) + 1); [|lia].
    destruct (Z.even m) eqn:Ev.
    + apply Z.even_spec in Ev as [k ->]. rewrite Z.mul_comm, Z.div_mul by lia. rewrite Z.mul_comm, Z.log2_double by lia. lia.
    + assert (Z.odd m = true) as Ho by (rewrite <- Z.negb_even, Ev; done). apply Z.odd_spec in Ho as [k ->].
      replace ((2 * k + 1) / 2) with k by lia. rewrite Z.log2_succ_double by lia. lia.
Qed.

Lemma round2_bounds n : 0 < n < 2 ^ 62 -> n <= round2 n <= 2 * n.
Proof.
  intros Hn. unfold round2. rewrite (proj2 (Z.leb_gt _ _)) by lia. rewrite Z.shiftl_mul_pow2, Z.mul_1_l.
  - destruct (decide (n = 1)) as [->|Hne]; [done|]. rewrite round2_loop_log by (simpl; lia).
    pose proof (Z.log2_spec (n - 1) ltac:(lia)) as [H1 H2]. rewrite Z.pow_succ_r in H2 by apply Z.log2_nonneg.
    replace (0 + Z.log2 (n - 1) + 1) with (Z.succ (Z.log2 (n - 1))) by lia. rewrite Z.pow_succ_r by apply Z.log2_nonneg. lia.
  - destruct (decide (n = 1)) as [->|Hne]; [done|]. rewrite round2_loop_log by (simpl; lia). pose proof (Z.log2_nonneg (n - 1)). lia.
Qed.

Lemma appendBodyFixedSize_ok r dst b rest : stream r = b ++ rest -> 0 < len b -> len (sl_data dst) + len b <= 2 ^ 47 ->
  exists r' cap, appendBodyFixedSize r dst (len b) = Ret (r', mkSlice (sl_data dst ++ b) cap, None) /\ stream r' = rest.
Proof.
  intros E Hb Hm. unfold appendBodyFixedSize. rewrite (proj2 (Z.eqb_neq _ _)) by lia. cbv zeta.
  destruct (Peek_Skip r (len b) b rest E eq_refl) as (r' & r'' & -> & E2 & _ & E4).
  assert (exists cap, (if sl_cap dst <? len (sl_data dst) + len b then makeslice (round2 (len (sl_data dst) + len b)) else Ret (sl_cap dst)) = Ret cap) as [cap ->].
  { case_if; [|by eexists]. unfold makeslice, maxAlloc. pose proof (len_nonneg (sl_data dst)).
    pose proof (round2_bounds (len (sl_data dst) + len b) ltac:(lia)).
    destruct (round2 (len (sl_data dst) + len b) >? 2 ^ 48) eqn:Eg; breflect; [lia|by eexists]. }
  cbn [outcome_bind]. rewrite E2. by exists r'', cap.
Qed.

(** ** Chunks *)

(** A chunk on the wire, and a body in chunks. *)
Definition chunk (b : bytes) : bytes := AppendIntHex [] (len b) ++ CRLF ++ b ++ CRLF.
Definition chunks (reads : list bytes) : bytes := (reads ≫= chunk) ++ AppendIntHex [] 0 ++ CRLF.

Lemma chunks_cons b reads : chunks (b :: reads) = chunk b ++ chunks reads.
Proof. unfold chunks. rewrite bind_cons. by rewrite <- app_assoc. Qed.

Definition chunk_ok (b : bytes) : Prop := 0 < len b < 16 ^ 15.

Lemma WriteChunk_writes w b : chunk_ok b -> WriteChunk w b = Ret (w ++ chunk b).
Proof.
  intros Hb. unfold WriteChunk. unfold chunk_ok in Hb. rewrite (proj2 (Z.gtb_lt _ _)) by lia.
  destruct (hex_roundtrip (len b) [] ltac:(lia) I) as [_ <-].
  rewrite (proj2 (Z.eqb_eq _ _)); [done|]. unfold CRLF. glen.
Qed.

Lemma WriteBodyChunked_writes reads : forall w, Forall chunk_ok reads -> WriteBodyChunked w reads = Ret (w ++ chunks reads).
Proof.
  induction reads as [|b reads IH]; intros w Hf; [done|]. apply Forall_cons in Hf as [Hb Hf]. cbn [WriteBodyChunked].
  rewrite (proj2 (Z.eqb_neq _ _)) by (unfold chunk_ok in Hb; lia). rewrite WriteChunk_writes by done. cbn [outcome_bind].
  rewrite IH by done. by rewrite chunks_cons, app_assoc.
Qed.

Lemma chunked_loop_reads reads : forall fuel r maxBodySize dst rest,
  (length reads < fuel)%nat -> Forall chunk_ok reads -> len (sl_data dst) + len (concat reads) + 2 <= 2 ^ 47 ->
  maxBodySize <= 0 \/ len (sl_data dst) + len (concat reads) <= maxBodySize -> stream r = chunks reads ++ rest ->
  exists r' cap, chunked_loop fuel r maxBodySize dst = Ret (r', mkSlice (sl_data dst ++ concat reads) cap, None) /\ stream r' = rest.
Proof.
  induction reads as [|b reads IH]; intros fuel r m dst rest Hfuel Hf Ha Hm E; (destruct fuel as [|fuel]; [lia|]); cbn [chunked_loop].
  - destruct (ParseChunkSize_printed r 0 rest) as (r' & -> & E'); [lia|by rewrite E; unfold chunks; cbn; rewrite <- ?app_assoc|].
    cbn. rewrite app_nil_r. exists r', (sl_cap dst). by destruct dst.
  - apply Forall_cons in Hf as [Hb Hf]. cbn [concat] in *. autorewrite with go in Ha, Hm. unfold chunk_ok in Hb.
    destruct (ParseChunkSize_printed r (len b) (b ++ CRLF ++ chunks reads ++ rest)) as (r1 & -> & E1); [lia| |].
    { rewrite E, chunks_cons. unfold chunk. by rewrite <- !app_assoc. }
    rewrite (proj2 (Z.eqb_neq _ _)) by lia. pose proof (len_nonneg (concat reads)).
    assert ((m >? 0) && (len (sl_data dst) + len b >? m) = false) as ->.
    { destruct (m >? 0) eqn:?; [|done]. cbn. breflect. destruct (len (sl_data dst) + len b >? m) eqn:?; breflect; lia. }
    assert (len b + len CRLF = len (b ++ CRLF)) as -> by (by rewrite len_app).
    assert (len (b ++ CRLF) = len b + 2) as Hl by (rewrite len_app; done).
    destruct (appendBodyFixedSize_ok r1 dst (b ++ CRLF) (chunks reads ++ rest)) as (r2 & cap & -> & E2); [by rewrite E1, <- app_assoc|lia|lia|].
    cbn [outcome_bind sl_data sl_cap]. cbv zeta.
    assert (len (sl_data dst ++ b ++ CRLF) - len CRLF = len (sl_data dst ++ b)) as -> by (unfold CRLF; glen).
    rewrite !app_assoc, zdrop_app, ztake_app. rewrite (proj2 (bytes_eqb_eq _ _)) by done. cbn [negb].
    destruct (IH fuel r2 m (mkSlice (sl_data dst ++ b) cap) rest) as (r' & cap' & E3 & E4); try done.
    + simpl in Hfuel. lia.
    + cbn [sl_data]. glen.
    + cbn [sl_data]. destruct Hm as [Hm|Hm]; [by left|right; glen].
    + exists r', cap'. rewrite E3. done.
Qed.

Lemma length_chunks reads : Forall chunk_ok reads -> (length reads <= length (chunks reads))%nat.
Proof.
  induction 1 as [|b reads Hb _ IH]; [simpl; lia|]. rewrite chunks_cons, length_app. cbn [length].
  assert (0 < length (chunk b))%nat; [|lia]. unfold chunk, chunk_ok, len in *. rewrite !length_app. lia.
Qed.

Lemma ReadBody_chunks reads r rest maxBodySize dst :
  Forall chunk_ok reads -> len (concat reads) + 2 <= 2 ^ 47 -> maxBodySize <= 0 \/ len (concat reads) <= maxBodySize ->
  stream r = chunks reads ++ rest ->
  exists r' cap, ReadBody r (-1) maxBodySize dst = Ret (r', mkSlice (concat reads) cap, None) /\ stream r' = rest.
Proof.
  intros Hf Ha Hm E. unfold ReadBody, readBodyChunked. cbn [Z.geb Z.compare Z.eqb Pos.eqb sl_data Z.gtb len length Z.of_nat].
  destruct (chunked_loop_reads reads (S (length (stream r))) r maxBodySize (mkSlice [] (sl_cap dst)) rest) as (r' & cap & E1 & E2); try done.
  - rewrite E, length_app. pose proof (length_chunks reads Hf). lia.
  - by exists r', cap.
Qed.
