(* ===== verification/BodyTotal.v ===== *)
(** * Bodies: limits and ends

    With a limit, ReadBody returns on every input, without a panic, and gives no more
    octets than the limit; without one, a size is enough to make it panic. *)

From S2P Require Import Prelude Bytes BytesConv Args ArgsSpec HeaderScan Trailer ReqHeader ReqParse ReqRound BodyRead BodySpec.

(** ** What the reader has given *)

Lemma Peek_cases r n : exists r', stream r' = stream r /\
  (len (stream r) < n /\ Peek r n = (r', None) \/
   n <= len (stream r) /\ n <= len (rd_buf r') /\ Peek r n = (r', Some (ztake n (stream r)))).
Proof.
  destruct (decide (n <= len (stream r))) as [H|H].
  - destruct (Peek_some r n H) as (r' & E & Es & Hl). exists r'. auto.
  - destruct (Peek_none r n ltac:(lia)) as (r' & E & Es). exists r'. split; [done|]. left. split; [lia|done].
Qed.

Lemma ReadByte_cases r : exists r',
  (ReadByte r = (r', None) /\ stream r' = stream r) \/ (exists c, ReadByte r = (r', Some c) /\ stream r = c :: stream r').
Proof.
  destruct (stream r) as [|c rest] eqn:E.
  - destruct (Peek_none r 1) as (r' & E1 & E2); [by rewrite E|]. exists r'. left. unfold ReadByte. rewrite E1, E2. by rewrite E.
  - destruct (ReadByte_cons r c rest E) as (r' & E1 & E2). exists r'. right. exists c. by rewrite E2.
Qed.

Lemma readhex_loop_range r : forall n i, 0 <= i -> 0 <= n < 16 ^ i -> i <= 15 ->
  (length (readhex_loop r n i).2 <= length r)%nat /\
  (forall m, (readhex_loop r n i).1 = Ok m -> 0 <= m < 16 ^ 15).
Proof.
  induction r as [|c r IH]; intros n i Hi Hn H15; cbn [readhex_loop].
  - split; [done|]. intros m. case_if; [|done]. intros [= <-]. pose proof (Z.pow_le_mono_r 16 i 15). lia.
  - cbv zeta. assert (0 <= tab Hex2intTable c <= 16) as Hk.
    { unfold tab. assert (Forall (fun k => 0 <= k <= 16) Hex2intTable) as Hf by (by apply (bool_decide_unpack _)).
      destruct (Hex2intTable !! Z.to_nat c) eqn:El; cbn; [by eapply (Forall_lookup_1 _ _ _ _ Hf)|lia]. }
    case_if; [case_if; cbn [fst snd]; (split; [simpl; lia|])|].
    + done.
    + intros m [= <-]. pose proof (Z.pow_le_mono_r 16 i 15). lia.
    + case_if; cbn [fst snd]; [split; [simpl; lia|done]|]. unfold maxHexIntChars in *. breflect.
      assert (Z.lor (i64 (Z.shiftl n 4)) (tab Hex2intTable c) = n * 16 + tab Hex2intTable c) as ->.
      { assert (Z.shiftl n 4 = n * 16) as E3 by (by rewrite Z.shiftl_mul_pow2 by lia). pose proof (Z.pow_le_mono_r 16 i 14).
        rewrite i64_id by (rewrite E3; width). by apply lor_shiftl_add; change (2 ^ 4) with 16; lia. }
      assert (16 ^ (i + 1) = 16 * 16 ^ i) as Ep by (by rewrite Z.add_1_r, Z.pow_succ_r by lia).
      destruct (IH (n * 16 + tab Hex2intTable c) (i + 1)) as [H1 H2]; [lia|lia|lia|]. split; [simpl; lia|done].
Qed.

Lemma chunk_cr_shorter fuel : forall r, exists r' e, chunk_cr fuel r = (r', e) /\ (length (stream r') <= length (stream r))%nat.
Proof.
  induction fuel as [|fuel IH]; intros r; cbn [chunk_cr]; [by exists r, (Some errChunkSizeEnd)|].
  destruct (ReadByte_cases r) as (r' & [[-> E]|(c & -> & E)]); [exists r', (Some errChunkSizeEnd); by rewrite E|].
  destruct (IH r') as (r2 & e & E2 & H2). rewrite E. cbn [length].
  case_if; [exists r2, e; split; [done|lia]|]. case_if; eexists _, _; (split; [done|lia]).
Qed.

(** A size is read with an octet at least, and fits. *)
Lemma ParseChunkSize_cases r : exists r' res, ParseChunkSize r = (r', res) /\ (length (stream r') <= length (stream r))%nat /\
  forall n, res = Ok n -> 0 <= n < 16 ^ 15 /\ (length (stream r') < length (stream r))%nat.
Proof.
  unfold ParseChunkSize. destruct (readhex_stream 16 r 0 0) as (r1 & -> & E1); [lia|done|lia|].
  destruct (readhex_loop_range (stream r) 0 0) as [H1 H2]; [lia|simpl; lia|lia|]. rewrite <- E1 in H1.
  destruct (readhex_loop (stream r) 0 0).1 as [n|e] eqn:En; [|eexists _, _; split; [done|]; split; [lia|done]].
  destruct (chunk_cr_shorter (S (length (stream r1))) r1) as (r2 & e & -> & H3).
  destruct e; [eexists _, _; split; [done|]; split; [lia|done]|].
  destruct (ReadByte_cases r2) as (r3 & [[-> E3]|(c & -> & E3)]); (assert (length (stream r3) <= length (stream r2))%nat by (rewrite E3; simpl; lia)).
  - eexists _, _. split; [done|]. split; [lia|done].
  - case_if; (eexists _, _; split; [done|]; split; [lia|]); [done|]. intros m [= <-]. split; [by apply H2|]. rewrite E3 in H3. simpl in H3. lia.
Qed.

(** ** A body of a fixed length *)

Lemma makeslice_ok n : n <= maxAlloc -> makeslice n = Ret n.
Proof. intros H. unfold makeslice. destruct (n >? maxAlloc) eqn:E; breflect; [lia|done]. Qed.

Lemma append_total r dst n : 0 <= n -> len (sl_data dst) + n <= 2 ^ 47 -> exists r' cap b e,
  appendBodyFixedSize r dst n = Ret (r', mkSlice (sl_data dst ++ b) cap, e) /\ (length (stream r') <= length (stream r))%nat /\
  len b <= n /\ (e = None -> len b = n).
Proof.
  intros Hn Ha. unfold appendBodyFixedSize. destruct (n =? 0) eqn:E0; breflect.
  { subst. exists r, (sl_cap dst), [], None. rewrite app_nil_r. by destruct dst. }
  cbv zeta. pose proof (len_nonneg (sl_data dst)). pose proof (round2_bounds (len (sl_data dst) + n) ltac:(lia)).
  assert (exists cap, (if sl_cap dst <? len (sl_data dst) + n then makeslice (round2 (len (sl_data dst) + n)) else Ret (sl_cap dst)) = Ret cap) as [cap ->].
  { case_if; [|by eexists]. rewrite makeslice_ok by (unfold maxAlloc; lia). by eexists. }
  cbn [outcome_bind]. destruct (Peek_cases r n) as (r' & Es & [[_ ->]|(H1 & H2 & ->)]).
  - exists r', cap, [], (Some ErrUnexpectedEOF). rewrite app_nil_r, Es. by split_and!; try done.
  - destruct (Skip_stream r' n H2) as (r2 & E2 & Es2). exists r2, cap, (ztake n (stream r)), None.
    rewrite len_ztake by lia. rewrite E2. split_and!; try done. rewrite Es2, Es. unfold zdrop. rewrite length_drop. lia.
Qed.

(** ** The three kinds of body *)

Lemma chunked_total fuel : forall r m dst, (length (stream r) < fuel)%nat -> 0 < m <= 2 ^ 46 -> len (sl_data dst) <= m ->
  exists r' sl e, chunked_loop fuel r m dst = Ret (r', sl, e) /\ (e = None -> len (sl_data sl) <= m).
Proof.
  induction fuel as [|fuel IH]; intros r m dst Hf Hm Hd; [lia|]. cbn [chunked_loop].
  destruct (ParseChunkSize_cases r) as (r1 & res & -> & H1 & H2). destruct res as [n|e]; [|by eexists _, _, _].
  destruct (H2 n eq_refl) as [Hn Hl]. case_if; [by eexists _, _, _|]. case_if; [by eexists _, _, _|].
  assert (len (sl_data dst) + n <= m) by (destruct (m >? 0) eqn:?; breflect; lia).
  change (len CRLF) with 2.
  destruct (append_total r1 dst (n + 2)) as (r2 & cap & b & e & -> & H3 & H4 & H5); [lia|lia|]. cbn [outcome_bind].
  destruct e; [by eexists _, _, _|]. specialize (H5 eq_refl). cbn [sl_data sl_cap]. cbv zeta. case_if; [by eexists _, _, _|].
  apply IH; [lia|done|]. cbn [sl_data]. rewrite len_ztake; glen.
Qed.

Lemma identity_total fuel : forall r m L acc, (length (stream r) < fuel)%nat -> 0 < m <= 2 ^ 46 -> len acc <= m -> len acc < L ->
  exists r' sl e, identity_loop fuel r m L acc = Ret (r', sl, e) /\ (e = None -> len (sl_data sl) <= m).
Proof.
  induction fuel as [|fuel IH]; intros r m L acc Hf Hm Ha HL; [lia|]. cbn [identity_loop].
  assert (exists r1 x, (if len (rd_buf r) =? 0 then Peek r 1 else (r, Some [])) = (r1, x) /\ stream r1 = stream r /\ (x = None \/ 0 < len (rd_buf r1)))
    as (r1 & x & -> & Es & Hx).
  { case_if; breflect; [|exists r, (Some []); pose proof (len_nonneg (rd_buf r)); split_and!; [done|done|right; lia]].
    destruct (Peek_cases r 1) as (r1 & Es & [[_ ->]|(_ & H2 & ->)]); eexists _, _; (split; [done|]); (split; [done|]); [by left|right; lia]. }
  destruct x as [x|]; [|eexists _, _, _; split; [done|done]]. destruct Hx as [?|Hx]; [done|]. cbv zeta.
  set (nn := if len (rd_buf r1) >=? L - len acc then L - len acc else len (rd_buf r1)).
  assert (0 < nn <= len (rd_buf r1) /\ nn <= L - len acc) as [Hn HnL] by (unfold nn; case_if; breflect; lia).
  assert (nn <= len (stream r1)) by (unfold stream; glen).
  destruct (Peek_cases r1 nn) as (r2 & Es2 & [[? _]|(_ & H2 & ->)]); [lia|].
  destruct (Skip_stream r2 nn H2) as (r3 & -> & Es3). cbn [fst].
  assert (len (acc ++ ztake nn (stream r1)) = len acc + nn) as El by (rewrite len_app, len_ztake; lia). rewrite El.
  assert (length (stream r3) < fuel)%nat.
  { rewrite Es3, Es2, Es in *. unfold zdrop. rewrite length_drop. unfold len in *. lia. }
  case_if; [by eexists _, _, _|].
  assert (len acc + nn <= m) by (destruct (m >? 0) eqn:?; breflect; lia).
  case_if; breflect; [|apply IH; lia].
  pose proof (len_nonneg acc). pose proof (round2_bounds (2 * (len acc + nn)) ltac:(lia)).
  rewrite makeslice_ok by (unfold maxAlloc; case_if; breflect; lia). cbn [outcome_bind].
  apply IH; [done|done|lia|]. rewrite El. case_if; breflect; lia.
Qed.

(** C19: With a limit of at most 2^46 octets, ReadBody returns for every length a header can
    announce and for all octets, in any pieces: no loop goes on for ever, no slice is too
    large to make, and a body that is accepted is not longer than the limit. *)
Theorem ReadBody_bounded (r : reader) (contentLength maxBodySize : Z) (dst : slice) :
  0 < maxBodySize <= 2 ^ 46 -> 0 <= sl_cap dst ->
  exists r' sl e, ReadBody r contentLength maxBodySize dst = Ret (r', sl, e) /\ (e = None -> len (sl_data sl) <= maxBodySize).
Proof.
  intros Hm Hc. unfold ReadBody. case_if; breflect.
  - case_if; [by eexists _, _, _|]. assert (contentLength <= maxBodySize) by (destruct (maxBodySize >? 0) eqn:?; breflect; lia).
    destruct (append_total r (mkSlice [] (sl_cap dst)) contentLength) as (r' & cap & b & e & -> & _ & H1 & _); [lia|cbn [sl_data]; rewrite len_nil; lia|].
    eexists _, _, _. split; [done|]. intros _. cbn [sl_data app]. lia.
  - case_if; [unfold readBodyChunked; cbn [sl_data len length Z.of_nat Z.gtb Z.compare]; apply chunked_total; cbn [sl_data]; rewrite ?len_nil; lia|].
    unfold readBodyIdentity. cbn [sl_cap]. apply identity_total; rewrite ?len_nil; [lia|lia|lia|]. case_if; breflect; lia.
Qed.

Lemma ReadBody_bounded_witness :
  exists r' sl e, ReadBody (mkReader (str "fffffffffffffff" ++ CRLF) []) (-1) 10 (mkSlice [] 0) = Ret (r', sl, e) /\ (e = None -> len (sl_data sl) <= 10).
Proof. apply (ReadBody_bounded (mkReader (str "fffffffffffffff" ++ CRLF) []) (-1) 10 (mkSlice [] 0)); cbn; lia. Defined.

(** Without a limit the size alone decides what is allocated, before an octet of the
    chunk has arrived. *)
Lemma ReadBody_unlimited_panics : ReadBody (mkReader (str "fffffffffffffff" ++ CRLF) []) (-1) 0 (mkSlice [] 0) = Panic.
Proof. vm_eq. Qed.
