(* ===== verification/RespHeader.v ===== *)
(** * The header of a response

    [ResponseHeader] of [web/protocol/header.go] and the status lines of
    [web/protocol/consts/status.go].  The date a server adds is a parameter; buffers that
    only carry results are not part of the state.  The names are those of the code, as in
    [ReqHeader]. *)

From S2P Require Import Prelude Bytes BytesConv Args ArgsSpec HeaderScan Trailer.

Record ResponseHeader := mkResp {
  disableNormalizing : bool;
  connectionClose : bool;
  noDefaultContentType : bool;
  noDefaultDate : bool;
  statusCode : Z;
  contentLength : Z;
  contentLengthBytes : bytes;
  contentEncoding : bytes;
  contentType : bytes;
  server : bytes;
  protocol : bytes;
  rs_h : list argsKV;
  rs_trailer : Trailer;
  cookies : list argsKV;
  headerLength : Z
}.

Definition newResponseHeader : ResponseHeader :=
  mkResp false false false false 0 0 [] [] [] [] [] [] newTrailer [] 0.

(** Setters; those of the code have its names. *)
Definition SetDisable (h : ResponseHeader) (x : bool) : ResponseHeader :=
  mkResp x (connectionClose h) (noDefaultContentType h) (noDefaultDate h) (statusCode h) (contentLength h) (contentLengthBytes h) (contentEncoding h) (contentType h) (server h) (protocol h) (rs_h h) (rs_trailer h) (cookies h) (headerLength h).
Definition SetConnectionClose (h : ResponseHeader) (x : bool) : ResponseHeader :=
  mkResp (disableNormalizing h) x (noDefaultContentType h) (noDefaultDate h) (statusCode h) (contentLength h) (contentLengthBytes h) (contentEncoding h) (contentType h) (server h) (protocol h) (rs_h h) (rs_trailer h) (cookies h) (headerLength h).
Definition SetNoDefaultContentType (h : ResponseHeader) (x : bool) : ResponseHeader :=
  mkResp (disableNormalizing h) (connectionClose h) x (noDefaultDate h) (statusCode h) (contentLength h) (contentLengthBytes h) (contentEncoding h) (contentType h) (server h) (protocol h) (rs_h h) (rs_trailer h) (cookies h) (headerLength h).
Definition SetNoDefaultDate (h : ResponseHeader) (x : bool) : ResponseHeader :=
  mkResp (disableNormalizing h) (connectionClose h) (noDefaultContentType h) x (statusCode h) (contentLength h) (contentLengthBytes h) (contentEncoding h) (contentType h) (server h) (protocol h) (rs_h h) (rs_trailer h) (cookies h) (headerLength h).
Definition SetStatusCode (h : ResponseHeader) (x : Z) : ResponseHeader :=
  mkResp (disableNormalizing h) (connectionClose h) (noDefaultContentType h) (noDefaultDate h) x (contentLength h) (contentLengthBytes h) (contentEncoding h) (contentType h) (server h) (protocol h) (rs_h h) (rs_trailer h) (cookies h) (headerLength h).
Definition InitContentLengthWithValue (h : ResponseHeader) (x : Z) : ResponseHeader :=
  mkResp (disableNormalizing h) (connectionClose h) (noDefaultContentType h) (noDefaultDate h) (statusCode h) x (contentLengthBytes h) (contentEncoding h) (contentType h) (server h) (protocol h) (rs_h h) (rs_trailer h) (cookies h) (headerLength h).
Definition SetContentLengthBytes (h : ResponseHeader) (x : bytes) : ResponseHeader :=
  mkResp (disableNormalizing h) (connectionClose h) (noDefaultContentType h) (noDefaultDate h) (statusCode h) (contentLength h) x (contentEncoding h) (contentType h) (server h) (protocol h) (rs_h h) (rs_trailer h) (cookies h) (headerLength h).
Definition SetContentEncodingBytes (h : ResponseHeader) (x : bytes) : ResponseHeader :=
  mkResp (disableNormalizing h) (connectionClose h) (noDefaultContentType h) (noDefaultDate h) (statusCode h) (contentLength h) (contentLengthBytes h) x (contentType h) (server h) (protocol h) (rs_h h) (rs_trailer h) (cookies h) (headerLength h).
Definition SetContentTypeBytes (h : ResponseHeader) (x : bytes) : ResponseHeader :=
  mkResp (disableNormalizing h) (connectionClose h) (noDefaultContentType h) (noDefaultDate h) (statusCode h) (contentLength h) (contentLengthBytes h) (contentEncoding h) x (server h) (protocol h) (rs_h h) (rs_trailer h) (cookies h) (headerLength h).
Definition SetServerBytes (h : ResponseHeader) (x : bytes) : ResponseHeader :=
  mkResp (disableNormalizing h) (connectionClose h) (noDefaultContentType h) (noDefaultDate h) (statusCode h) (contentLength h) (contentLengthBytes h) (contentEncoding h) (contentType h) x (protocol h) (rs_h h) (rs_trailer h) (cookies h) (headerLength h).
Definition SetProtocol (h : ResponseHeader) (x : bytes) : ResponseHeader :=
  mkResp (disableNormalizing h) (connectionClose h) (noDefaultContentType h) (noDefaultDate h) (statusCode h) (contentLength h) (contentLengthBytes h) (contentEncoding h) (contentType h) (server h) x (rs_h h) (rs_trailer h) (cookies h) (headerLength h).
Definition set_h (h : ResponseHeader) (x : list argsKV) : ResponseHeader :=
  mkResp (disableNormalizing h) (connectionClose h) (noDefaultContentType h) (noDefaultDate h) (statusCode h) (contentLength h) (contentLengthBytes h) (contentEncoding h) (contentType h) (server h) (protocol h) x (rs_trailer h) (cookies h) (headerLength h).
Definition set_trailer (h : ResponseHeader) (x : Trailer) : ResponseHeader :=
  mkResp (disableNormalizing h) (connectionClose h) (noDefaultContentType h) (noDefaultDate h) (statusCode h) (contentLength h) (contentLengthBytes h) (contentEncoding h) (contentType h) (server h) (protocol h) (rs_h h) x (cookies h) (headerLength h).
Definition set_cookies (h : ResponseHeader) (x : list argsKV) : ResponseHeader :=
  mkResp (disableNormalizing h) (connectionClose h) (noDefaultContentType h) (noDefaultDate h) (statusCode h) (contentLength h) (contentLengthBytes h) (contentEncoding h) (contentType h) (server h) (protocol h) (rs_h h) (rs_trailer h) x (headerLength h).
Definition SetHeaderLength (h : ResponseHeader) (x : Z) : ResponseHeader :=
  mkResp (disableNormalizing h) (connectionClose h) (noDefaultContentType h) (noDefaultDate h) (statusCode h) (contentLength h) (contentLengthBytes h) (contentEncoding h) (contentType h) (server h) (protocol h) (rs_h h) (rs_trailer h) (cookies h) x.

Definition HTTP11 : bytes := str "HTTP/1.1".
Definition HTTP10 : bytes := str "HTTP/1.0".
Definition IsHTTP11 (h : ResponseHeader) : bool := bytes_eqb (protocol h) HTTP11.
Definition SetNoHTTP11 (h : ResponseHeader) (b : bool) : ResponseHeader := SetProtocol h (if b then HTTP10 else HTTP11).

Definition DisableNormalizing (h : ResponseHeader) : ResponseHeader :=
  set_trailer (SetDisable h true) (trailer_DisableNormalizing (rs_trailer h)).

(** What noDefaultContentType, noDefaultDate and the length for the tracer are stays. *)
Definition ResetSkipNormalize (h : ResponseHeader) : ResponseHeader :=
  mkResp (disableNormalizing h) false (noDefaultContentType h) (noDefaultDate h) 0 0 [] [] [] [] [] [] (trailer_ResetSkipNormalize (rs_trailer h)) [] (headerLength h).

Definition Reset (h : ResponseHeader) : ResponseHeader :=
  ResetSkipNormalize (SetNoDefaultDate (SetNoDefaultContentType (set_trailer (SetDisable h false) (mkTrailer (tr_h (rs_trailer h)) false)) false) false).

(** ** Status *)

Definition StatusOK : Z := 200.
Definition StatusCode (h : ResponseHeader) : Z := if statusCode h =? 0 then StatusOK else statusCode h.

Definition MustSkipContentLength (h : ResponseHeader) : bool :=
  let statusCode := StatusCode h in
  if (statusCode <? 100) || (statusCode =? StatusOK) then false
  else (statusCode =? 304) || (statusCode =? 204) || (statusCode <? 200).

Definition statusMessages : list (Z * string) := [
  (100, "Continue"); (101, "Switching Protocols"); (102, "Processing");
  (200, "OK"); (201, "Created"); (202, "Accepted"); (203, "Non-Authoritative Information"); (204, "No Content");
  (205, "Reset Content"); (206, "Partial Content"); (207, "Multi-Status"); (208, "Already Reported"); (226, "IM Used");
  (300, "Multiple Choices"); (301, "Moved Permanently"); (302, "Found"); (303, "See Other"); (304, "Not Modified");
  (305, "Use Proxy"); (307, "Temporary Redirect"); (308, "Permanent Redirect");
  (400, "Bad Request"); (401, "Unauthorized"); (402, "Payment Required"); (403, "Forbidden"); (404, "Not Found");
  (405, "Method Not Allowed"); (406, "Not Acceptable"); (407, "Proxy Authentication Required"); (408, "Request Timeout");
  (409, "Conflict"); (410, "Gone"); (411, "Length Required"); (412, "Precondition Failed"); (413, "Request Entity Too Large");
  (414, "Request URI Too Long"); (415, "Unsupported Media Type"); (416, "Requested Range Not Satisfiable");
  (417, "Expectation Failed"); (418, "I'm a teapot"); (422, "Unprocessable Entity"); (423, "Locked"); (424, "Failed Dependency");
  (426, "Upgrade Required"); (428, "Precondition Required"); (429, "Too Many Requests"); (431, "Request Header Fields Too Large");
  (451, "Unavailable For Legal Reasons");
  (500, "Internal Server Error"); (501, "Not Implemented"); (502, "Bad Gateway"); (503, "Service Unavailable");
  (504, "Gateway Timeout"); (505, "HTTP Version Not Supported"); (506, "Variant Also Negotiates"); (507, "Insufficient Storage");
  (508, "Loop Detected"); (510, "Not Extended"); (511, "Network Authentication Required")]%string.

Definition StatusMessage (statusCode : Z) : bytes :=
  if (statusCode <? 100) || (statusCode >? 511) then str "Unknown Status Code"
  else str (match List.find (fun m => m.1 =? statusCode) statusMessages with Some m => m.2 | None => "Unknown Status Code" end).

(** The cache of lines gives what is computed without it. *)
Definition StatusLine (statusCode : Z) : bytes :=
  str "HTTP/1.1 " ++ itoa statusCode ++ [32] ++ StatusMessage statusCode ++ [13; 10].

(** ** Reading *)

Definition DefaultContentType : bytes := str "text/plain; charset=utf-8".
Definition ContentType (h : ResponseHeader) : bytes :=
  if negb (noDefaultContentType h) && (len (contentType h) =? 0) then DefaultContentType else contentType h.

Definition PeekArgBytes (h : ResponseHeader) (key : bytes) : bytes := peekArgBytes (rs_h h) key.
Definition eqs (key : bytes) (s : string) : bool := bytes_eqb key (str s).

Definition peek (h : ResponseHeader) (key : bytes) : bytes :=
  if eqs key "Content-Type" then ContentType h
  else if eqs key "Content-Encoding" then contentEncoding h
  else if eqs key "Server" then server h
  else if eqs key "Connection" then if connectionClose h then str "close" else peekArgBytes (rs_h h) key
  else if eqs key "Content-Length" then contentLengthBytes h
  else if eqs key "Set-Cookie" then appendResponseCookieBytes [] (cookies h)
  else if eqs key "Trailer" then GetBytes (tr_h (rs_trailer h))
  else peekArgBytes (rs_h h) key.

Definition norm_key (h : ResponseHeader) (key : bytes) : bytes := NormalizeHeaderKey key (disableNormalizing h).
Definition Peek (h : ResponseHeader) (key : bytes) : bytes := peek h (norm_key h key).

Definition nonempty (b : bytes) : list bytes := if len b >? 0 then [b] else [].

Definition peekAll (h : ResponseHeader) (key : bytes) : list bytes :=
  if eqs key "Content-Type" then nonempty (ContentType h)
  else if eqs key "Content-Encoding" then nonempty (contentEncoding h)
  else if eqs key "Server" then nonempty (server h)
  else if eqs key "Connection" then if connectionClose h then [str "close"] else peekAll_loop [] (rs_h h) key
  else if eqs key "Content-Length" then [contentLengthBytes h]
  else if eqs key "Set-Cookie" then [appendResponseCookieBytes [] (cookies h)]
  else peekAll_loop [] (rs_h h) key.

Definition PeekAll (h : ResponseHeader) (key : bytes) : list bytes := peekAll h (norm_key h key).

(** ** Setting *)

Definition ResetConnectionClose (h : ResponseHeader) : ResponseHeader :=
  if connectionClose h then set_h (SetConnectionClose h false) (delAllArgsBytes (rs_h h) (str "Connection")) else h.

Definition ParseSetCookie (h : ResponseHeader) (value : bytes) : ResponseHeader :=
  set_cookies h (cookies h ++ [mkKV (getCookieKey value) value false]).

Definition setSpecialHeader (h : ResponseHeader) (key value : bytes) : outcome (ResponseHeader * bool) :=
  match key with
  | [] => Ret (h, false)
  | k :: _ =>
      let c := Z.lor k 32 in
      let named s := CaseInsensitiveCompare (str s) key in
      if c =? 99 then
        if named "Content-Type" then Ret (SetContentTypeBytes h value, true)
        else if named "Content-Length" then
          Ret (match ParseContentLength value with
               | Some n => SetContentLengthBytes (InitContentLengthWithValue h n) value
               | None => h
               end, true)
        else if named "Content-Encoding" then Ret (SetContentEncodingBytes h value, true)
        else if named "Connection" then
          Ret (if bytes_eqb (str "close") value then SetConnectionClose h true
               else let h := ResetConnectionClose h in set_h h (setArgBytes (rs_h h) key value), true)
        else Ret (h, false)
      else if c =? 115 then
        if named "Server" then Ret (SetServerBytes h value, true)
        else if named "Set-Cookie" then Ret (ParseSetCookie h value, true)
        else Ret (h, false)
      else if c =? 116 then
        if named "Transfer-Encoding" then Ret (h, true)
        else if named "Trailer" then run (t, _) <- SetTrailers (rs_trailer h) value; Ret (set_trailer h t, true)
        else Ret (h, false)
      else if c =? 100 then if named "Date" then Ret (h, true) else Ret (h, false)
      else Ret (h, false)
  end.

Definition SetCanonical (h : ResponseHeader) (key value : bytes) : outcome ResponseHeader :=
  run (h, special) <- setSpecialHeader h key value;
  Ret (if special then h else set_h h (setArgBytes (rs_h h) key value)).

Definition Set_ (h : ResponseHeader) (key value : bytes) : outcome ResponseHeader := SetCanonical h (norm_key h key) value.

Definition Add (h : ResponseHeader) (key value : bytes) : outcome ResponseHeader :=
  run (h, special) <- setSpecialHeader h key value;
  Ret (if special then h else set_h h (appendArgBytes (rs_h h) (norm_key h key) value false)).

Definition AddArgBytes (h : ResponseHeader) (key value : bytes) : ResponseHeader := set_h h (appendArgBytes (rs_h h) key value false).
Definition SetArgBytes (h : ResponseHeader) (key value : bytes) : ResponseHeader := set_h h (setArgBytes (rs_h h) key value).

Definition SetContentLength (h : ResponseHeader) (n : Z) : outcome ResponseHeader :=
  if MustSkipContentLength h then Ret h
  else
    let h := InitContentLengthWithValue h n in
    if n >=? 0 then
      run d <- AppendUint [] n;
      let h := SetContentLengthBytes h d in Ret (set_h h (delAllArgsBytes (rs_h h) (str "Transfer-Encoding")))
    else
      let h := SetContentLengthBytes h [] in
      let '(h, value) := if n =? -2 then (SetConnectionClose h true, str "identity") else (h, str "chunked") in
      Ret (set_h h (setArgBytes (rs_h h) (str "Transfer-Encoding") value)).

Definition SetContentRange (h : ResponseHeader) (startPos endPos contentLength : Z) : outcome ResponseHeader :=
  run b <- AppendUint (str "bytes ") startPos;
  run b <- AppendUint (b ++ str "-") endPos;
  run b <- AppendUint (b ++ str "/") contentLength;
  SetCanonical h (str "Content-Range") b.

(** The cookie is its name and its printed form. *)
Definition SetCookie (h : ResponseHeader) (key text : bytes) : ResponseHeader := set_cookies h (setArgBytes (cookies h) key text).
Definition DelCookie (h : ResponseHeader) (key : bytes) : ResponseHeader := set_cookies h (delAllArgsBytes (cookies h) key).
Definition DelAllCookies (h : ResponseHeader) : ResponseHeader := set_cookies h [].

(** ** Deleting and copying *)

Definition del (h : ResponseHeader) (key : bytes) : ResponseHeader :=
  let h := if eqs key "Content-Type" then SetContentTypeBytes h []
           else if eqs key "Content-Encoding" then SetContentEncodingBytes h []
           else if eqs key "Server" then SetServerBytes h []
           else if eqs key "Set-Cookie" then set_cookies h []
           else if eqs key "Content-Length" then SetContentLengthBytes (InitContentLengthWithValue h 0) []
           else if eqs key "Connection" then SetConnectionClose h false
           else if eqs key "Trailer" then set_trailer h (trailer_ResetSkipNormalize (rs_trailer h))
           else h in
  set_h h (delAllArgsBytes (rs_h h) key).

Definition Del (h : ResponseHeader) (key : bytes) : ResponseHeader := del h (norm_key h key).

Definition CopyTo (h dst : ResponseHeader) : ResponseHeader :=
  mkResp (disableNormalizing h) (connectionClose h) (noDefaultContentType h) (noDefaultDate h) (statusCode h) (contentLength h)
    (contentLengthBytes h) (contentEncoding h) (contentType h) (server h) (protocol h) (copyKV <$> rs_h h)
    (trailer_CopyTo (rs_trailer h) (rs_trailer (Reset dst))) (copyKV <$> cookies h) (headerLength h).

(** ** Visiting and printing *)

Definition shown (k : string) (v : bytes) : list (bytes * bytes) := if len v >? 0 then [(str k, v)] else [].
Definition pair_kv (kv : argsKV) : bytes * bytes := (kv_key kv, kv_value kv).

(** What VisitAll shows its visitor, in order. *)
Definition VisitAll (h : ResponseHeader) : list (bytes * bytes) :=
  shown "Content-Length" (contentLengthBytes h) ++ shown "Content-Type" (ContentType h) ++ shown "Content-Encoding" (contentEncoding h) ++
  shown "Server" (server h) ++ ((fun kv => (str "Set-Cookie", kv_value kv)) <$> cookies h) ++
  (if trailer_Empty (rs_trailer h) then [] else [(str "Trailer", GetBytes (tr_h (rs_trailer h)))]) ++
  (pair_kv <$> rs_h h) ++ (if connectionClose h then [(str "Connection", str "close")] else []).

Definition Len (h : ResponseHeader) : Z := len (VisitAll h).

Definition header_line (dst : bytes) (key : string) (value : bytes) : bytes :=
  if len value >? 0 then appendHeaderLine dst (str key) value else dst.

(** [date] is the date of the server. *)
Definition AppendBytes (date : bytes) (h : ResponseHeader) (dst : bytes) : bytes :=
  let statusCode := StatusCode h in
  let dst := dst ++ StatusLine (if statusCode <? 0 then StatusOK else statusCode) in
  let dst := if negb (len (server h) =? 0) then appendHeaderLine dst (str "Server") (server h) else dst in
  let dst := if negb (noDefaultDate h) then appendHeaderLine dst (str "Date") date else dst in
  let dst := if negb (contentLength h =? 0) || (len (contentType h) >? 0) then header_line dst "Content-Type" (ContentType h) else dst in
  let dst := header_line dst "Content-Encoding" (contentEncoding h) in
  let dst := header_line dst "Content-Length" (contentLengthBytes h) in
  let dst := foldl (fun dst kv => if noDefaultDate h || negb (bytes_eqb (kv_key kv) (str "Date"))
                                  then appendHeaderLine dst (kv_key kv) (kv_value kv) else dst) dst (rs_h h) in
  let dst := if trailer_Empty (rs_trailer h) then dst else appendHeaderLine dst (str "Trailer") (GetBytes (tr_h (rs_trailer h))) in
  let dst := foldl (fun dst kv => appendHeaderLine dst (str "Set-Cookie") (kv_value kv)) dst (cookies h) in
  let dst := if connectionClose h then appendHeaderLine dst (str "Connection") (str "close") else dst in
  dst ++ [13; 10].
