(* ===== verification/RespParse.v ===== *)
(** * Reading the header of a response

    [web/protocol/http1/resp/header.go]: the status line, the fields, and the loop that
    waits for the rest of a header.  The scanner and the reader are those of requests;
    what differs is that empty lines before the status line are skipped, that no field is
    refused, and how the length of the header is counted. *)

From S2P Require Import Prelude Bytes BytesConv Args ArgsSpec HeaderScan Trailer ReqParse RespHeader.

(** ** The status line *)

(** The loop over empty lines. *)
Fixpoint first_line_loop (fuel : nat) (bNext : bytes) : result headerErr (bytes * bytes) :=
  match fuel with
  | O => Err errNeedMore
  | S fuel =>
      try (b, bNext) <- NextLine bNext;
      if len b =? 0 then first_line_loop fuel bNext else Ok (b, bNext)
  end.

(** The header and the length of the line.  A line takes an octet at least. *)
Definition parseFirstLine (h : ResponseHeader) (buf : bytes) : ResponseHeader * result headerErr Z :=
  match first_line_loop (S (length buf)) buf with
  | Err e => (h, Err e)
  | Ok (b, bNext) =>
      let n := IndexByte b 32 in
      if n <? 0 then (h, Err errFirstLine)
      else
        let h := SetProtocol h (if bytes_eqb (ztake n b) HTTP11 then HTTP11 else HTTP10) in
        let b := zdrop (n + 1) b in
        match ParseUintBuf b with
        | None => (SetStatusCode h (-1), Err errFirstLine)
        | Some (statusCode, n) =>
            let h := SetStatusCode h statusCode in
            if (len b >? n) && negb (bool_decide (znth b n = Some 32)) then (h, Err errFirstLine)
            else (h, Ok (len buf - len bNext))
        end
  end.

(** ** The fields *)

Definition parse_field (h : ResponseHeader) (key value : bytes) (err : option headerErr) : outcome (ResponseHeader * option headerErr) :=
  let c := Z.lor (hd 0 key) 32 in
  let named s := CaseInsensitiveCompare key (str s) in
  let other := Ret (AddArgBytes h key value, err) in
  if c =? 99 then
    if named "Content-Type" then Ret (SetContentTypeBytes h value, err)
    else if named "Content-Encoding" then Ret (SetContentEncodingBytes h value, err)
    else if named "Content-Length" then
      if negb (contentLength h =? -1) then
        match ParseContentLength value with
        | None => Ret (InitContentLengthWithValue h (-2), Some errContentLengthValue)
        | Some n => Ret (SetContentLengthBytes (InitContentLengthWithValue h n) value, None)
        end
      else Ret (h, err)
    else if named "Connection" then
      if bytes_eqb value (str "close") then Ret (SetConnectionClose h true, err)
      else Ret (AddArgBytes (SetConnectionClose h false) key value, err)
    else other
  else if c =? 115 then
    if named "Server" then Ret (SetServerBytes h value, err)
    else if named "Set-Cookie" then Ret (ParseSetCookie h value, err)
    else other
  else if c =? 116 then
    if named "Transfer-Encoding" then
      if negb (bytes_eqb value (str "identity"))
      then Ret (SetArgBytes (InitContentLengthWithValue h (-1)) (str "Transfer-Encoding") (str "chunked"), err)
      else Ret (h, err)
    else if named "Trailer" then run (t, err) <- SetTrailers (rs_trailer h) value; Ret (set_trailer h t, err)
    else other
  else other.

Fixpoint fields_loop (fuel : nat) (h : ResponseHeader) (s : HeaderScanner) (err : option headerErr) :
    outcome (ResponseHeader * HeaderScanner * option headerErr) :=
  match fuel with
  | O => OutOfFuel
  | S fuel =>
      match Next s with
      | (s, false) => Ret (h, s, err)
      | (s, true) =>
          if len (sc_Key s) >? 0 then run (h, err) <- parse_field h (sc_Key s) (sc_Value s) err; fields_loop fuel h s err
          else fields_loop fuel h s err
      end
  end.

(** Documented as the test for an upgrade. *)
Definition ConnectionUpgrade (h : ResponseHeader) : bool := HasHeaderValue (Peek h (str "Connection")) (str "keep-alive").

(** What is known of the body when the fields have been read. *)
Definition close_fields (h : ResponseHeader) : ResponseHeader :=
  let h := if contentLength h <? 0 then SetContentLengthBytes h [] else h in
  let h := if (contentLength h =? -2) && negb (ConnectionUpgrade h) && negb (MustSkipContentLength h)
           then SetConnectionClose (SetArgBytes h (str "Transfer-Encoding") (str "identity")) true else h in
  if negb (IsHTTP11 h) && negb (connectionClose h)
  then SetConnectionClose h (negb (HasHeaderValue (PeekArgBytes h (str "Connection")) (str "keep-alive"))) else h.

(** The header, the buffer, and the octets the scanner has left behind. *)
Definition parseHeaders (h : ResponseHeader) (buf : bytes) : outcome (ResponseHeader * bytes * result headerErr Z) :=
  let h := InitContentLengthWithValue h (-2) in
  run (h, s, err) <- fields_loop (S (length buf)) h (newScanner buf (disableNormalizing h)) None;
  match sc_Err s with
  | Some e => Ret (SetConnectionClose h true, sc_buffer s, Err e)
  | None => Ret (close_fields h, sc_buffer s, match err with Some e => Err e | None => Ok (len buf - len (sc_B s)) end)
  end.

Definition parse (h : ResponseHeader) (buf : bytes) : outcome (ResponseHeader * bytes * result headerErr Z) :=
  match parseFirstLine h buf with
  | (h, Err e) => Ret (h, buf, Err e)
  | (h, Ok m) =>
      run (h, rest, r) <- parseHeaders h (zdrop m buf);
      Ret (h, ztake m buf ++ rest, try n <- r; Ok (m + n))
  end.

(** ** Reading *)

Definition tryRead (h : ResponseHeader) (r : reader) (n : Z) : outcome (ResponseHeader * reader * option headerErr) :=
  let h := ResetSkipNormalize h in
  match ReqParse.Peek r n with
  | (r, None) => Ret (h, r, Some errEOF)
  | (r, Some _) =>
      run (h, buf, res) <- parse h (rd_buf r);
      match res with
      | Err e => Ret (h, mkReader buf (rd_wire r), Some e)
      | Ok headersLen => Ret (h, mkReader (zdrop headersLen buf) (rd_wire r), None)
      end
  end.

Definition ReadHeader (h : ResponseHeader) (r : reader) : outcome (ResponseHeader * reader * option headerErr) :=
  wait_for tryRead ResetSkipNormalize h r.
