(* ===== verification/RespSend.v ===== *)
(** * Responses: what is sent

    The lines AppendBytes prints, whatever the header holds, and that ReadHeader makes
    the same header of them. *)

From S2P Require Import Prelude Bytes BytesConv Args ArgsSpec HeaderScan Trailer ReqHeader ReqParse ReqRound ReqSend RespHeader RespParse.

(** ** Lines *)

(** What appendHeaderLine makes of a field: line ends in the value become spaces, and a
    field whose name is no name is left out. *)
Definition one_line (v : bytes) : bytes := (fun c => if (c =? 13) || (c =? 10) then 32 else c) <$> v.
Definition printed (f : bytes * bytes) : list (bytes * bytes) :=
  if existsb (fun k => tab ValidHeaderFieldNameTable k =? 0) f.1 then [] else [(f.1, one_line f.2)].

Lemma append_printed dst k v : appendHeaderLine dst k v = dst ++ block (printed (k, v)).
Proof.
  unfold appendHeaderLine, printed. cbn [fst snd]. case_if; [by rewrite app_nil_r|].
  unfold appendHeaderValue, block, line, one_line. cbn. by rewrite app_nil_r, <- !app_assoc.
Qed.

Lemma append_all {A} (f : A -> bytes * bytes) l : forall dst,
  foldl (fun dst x => appendHeaderLine dst (f x).1 (f x).2) dst l = dst ++ block ((f <$> l) ≫= printed).
Proof.
  induction l as [|x l IH]; intros dst; [by rewrite app_nil_r|]. cbn [foldl]. rewrite IH, append_printed, fmap_cons, bind_cons, block_app.
  rewrite <- app_assoc. by destruct (f x).
Qed.

(** The fields of a response in the order in which they are sent. *)
Definition sends_date (h : ResponseHeader) (kv : argsKV) : bool := noDefaultDate h || negb (bytes_eqb (kv_key kv) (str "Date")).
Definition sent_type (h : ResponseHeader) : bytes := if negb (contentLength h =? 0) || (len (contentType h) >? 0) then ContentType h else [].

Definition sent_fields (date : bytes) (h : ResponseHeader) : list (bytes * bytes) :=
  shown "Server" (server h) ++ (if noDefaultDate h then [] else [(str "Date", date)]) ++ shown "Content-Type" (sent_type h) ++
  shown "Content-Encoding" (contentEncoding h) ++ shown "Content-Length" (contentLengthBytes h) ++
  (pair_kv <$> List.filter (sends_date h) (rs_h h)) ++
  (if trailer_Empty (rs_trailer h) then [] else [(str "Trailer", GetBytes (tr_h (rs_trailer h)))]) ++
  ((fun kv => (str "Set-Cookie", kv_value kv)) <$> cookies h) ++ (if connectionClose h then [(str "Connection", str "close")] else []).

Definition sent_status (h : ResponseHeader) : Z := if StatusCode h <? 0 then StatusOK else StatusCode h.

Lemma header_line_printed dst (k : string) v : header_line dst k v = dst ++ block (shown k v ≫= printed).
Proof.
  unfold header_line, shown. case_if; [|by rewrite app_nil_r]. rewrite append_printed. cbn [mbind list_bind]. by rewrite app_nil_r.
Qed.

Lemma append_filtered p l : forall dst,
  foldl (fun dst kv => if p kv : bool then appendHeaderLine dst (kv_key kv) (kv_value kv) else dst) dst l =
  dst ++ block ((pair_kv <$> List.filter p l) ≫= printed).
Proof.
  induction l as [|x l IH]; intros dst; [by rewrite app_nil_r|]. cbn [foldl List.filter]. rewrite IH. case_if; [|done].
  rewrite append_printed, fmap_cons, bind_cons, block_app. by rewrite <- app_assoc.
Qed.

Lemma if_printed (b : bool) dst k v : (if b then appendHeaderLine dst k v else dst) = dst ++ block ((if b then [(k, v)] else []) ≫= printed).
Proof. destruct b; [|by rewrite app_nil_r]. rewrite append_printed. cbn [mbind list_bind]. by rewrite app_nil_r. Qed.

Lemma if_not_printed (b : bool) dst k v : (if b then dst else appendHeaderLine dst k v) = dst ++ block ((if b then [] else [(k, v)]) ≫= printed).
Proof. destruct b; [by rewrite app_nil_r|apply (if_printed true)]. Qed.

Lemma shown_server h : (if negb (len (server h) =? 0) then [(str "Server", server h)] else []) = shown "Server" (server h).
Proof. unfold shown. destruct (server h); done. Qed.

Lemma AppendBytes_lines date h :
  AppendBytes date h [] = StatusLine (sent_status h) ++ block (sent_fields date h ≫= printed) ++ [13; 10].
Proof.
  unfold AppendBytes, sent_fields, sent_type. cbv zeta. cbn [app]. fold (sent_status h). rewrite !bind_app, !block_app.
  rewrite (if_printed (connectionClose h)), (append_all (fun kv => (str "Set-Cookie", kv_value kv)) (cookies h)), if_not_printed.
  rewrite (append_filtered (sends_date h)), !header_line_printed, (if_printed (negb (len (server h) =? 0))), shown_server, if_printed.
  assert ((if negb (noDefaultDate h) then [(str "Date", date)] else []) = if noDefaultDate h then [] else [(str "Date", date)]) as ->
    by (by destruct (noDefaultDate h)).
  case_if; by rewrite <- !app_assoc.
Qed.

(** A line that ends where its end is, and nowhere before. *)
Definition unbroken (b : bytes) : Prop := Forall (fun c => c <> 13 /\ c <> 10) b.

Lemma one_line_unbroken v : unbroken (one_line v).
Proof. apply Forall_fmap, Forall_forall. intros c _. cbn. case_if; breflect; lia. Qed.

Lemma printed_ok f : Forall (fun g => token g.1 /\ unbroken g.2) (printed f).
Proof.
  unfold printed. case_if; [constructor|]. apply Forall_singleton. split; [|apply one_line_unbroken].
  apply Forall_forall. intros c Hc E. assert (existsb (fun k => tab ValidHeaderFieldNameTable k =? 0) f.1 = true); [|congruence].
  apply existsb_exists. exists c. split; [by apply list_elem_of_In|by apply Z.eqb_eq].
Qed.

Lemma digits_unbroken b : forall v n, parse_digits v b = Some n -> unbroken b.
Proof.
  induction b as [|c b IH]; intros v n E; [constructor|]. simpl in E. unfold between in E. case_if; [|done]. breflect.
  constructor; [lia|by eapply IH].
Qed.

Lemma message_unbroken c : unbroken (StatusMessage c) /\ 0 < len (StatusMessage c).
Proof.
  assert (forall s, In s (map snd statusMessages ++ ["Unknown Status Code"%string]) ->
            bool_decide (unbroken (str s)) && (0 <? len (str s)) = true) as H.
  { apply forallb_forall. vm_compute. reflexivity. }
  assert (forall s, In s (map snd statusMessages ++ ["Unknown Status Code"%string]) -> unbroken (str s) /\ 0 < len (str s)) as H'.
  { intros s Hs. specialize (H s Hs). apply andb_true_iff in H as [H1%bool_decide_eq_true H2%Z.ltb_lt]. done. }
  unfold StatusMessage. assert (In "Unknown Status Code"%string (map snd statusMessages ++ ["Unknown Status Code"%string])) as Hu by (apply in_or_app; right; by left).
  case_if; [by apply H'|]. destruct (List.find _ _) as [m|] eqn:E; [|by apply H']. apply H', in_or_app. left. apply find_some in E as [E _].
  by apply in_map.
Qed.

Lemma StatusLine_unbroken c : 0 <= c -> exists text, StatusLine c = text ++ [13; 10] /\ unbroken text.
Proof.
  intros Hc. exists (str "HTTP/1.1 " ++ itoa c ++ [32] ++ StatusMessage c). split; [unfold StatusLine; by rewrite <- !app_assoc|].
  unfold unbroken. rewrite !Forall_app. split_and!; [by apply (bool_decide_unpack _)| |by apply (bool_decide_unpack _)|apply message_unbroken].
  eapply digits_unbroken. by apply parse_digits_itoa.
Qed.

Lemma sent_status_nonneg h : 0 <= sent_status h.
Proof. unfold sent_status. case_if; breflect; [done|lia]. Qed.

(** C17: Whatever names, values, cookies and trailers a handler has set, the header of its
    response is a status line, one line for each of the fields in their order, and the
    empty line: no line end inside a value reaches the wire, and a field whose name is not
    a token is left out.  A value can neither add a field nor end the header. *)
Theorem response_lines (date : bytes) (h : ResponseHeader) :
  AppendBytes date h [] = StatusLine (sent_status h) ++ block (sent_fields date h ≫= printed) ++ [13; 10] /\
  Forall (fun f => token f.1 /\ unbroken f.2) (sent_fields date h ≫= printed) /\
  (exists text, StatusLine (sent_status h) = text ++ [13; 10] /\ unbroken text).
Proof.
  split_and!; [apply AppendBytes_lines| |apply StatusLine_unbroken, sent_status_nonneg].
  apply Forall_bind, Forall_forall. intros f _. apply printed_ok.
Qed.

(** ** Reading the lines *)

Fixpoint take_fields (h : ResponseHeader) (err : option headerErr) (fs : list (bytes * bytes)) : outcome (ResponseHeader * option headerErr) :=
  match fs with
  | [] => Ret (h, err)
  | f :: fs => run (h, err) <- parse_field h f.1 f.2 err; take_fields h err fs
  end.

Lemma resp_take_fields_app a : forall h err b, take_fields h err (a ++ b) = (run (h, err) <- take_fields h err a; take_fields h err b).
Proof.
  induction a as [|f a IH]; intros h err b; [done|]. cbn [app take_fields]. destruct (parse_field h f.1 f.2 err) as [[h1 e1]| |]; [apply IH|done|done].
Qed.

Lemma resp_fields_loop_scans fs : forall fuel h s s' err h' err', scans s fs s' -> Forall field_ok fs -> take_fields h err fs = Ret (h', err') ->
  fields_loop (length fs + fuel) h s err = fields_loop fuel h' s' err'.
Proof.
  induction fs as [|f fs IH]; intros fuel h s s' err h' err' Hs Hf E; inversion Hs; subst; [by injection E as -> ->|].
  apply Forall_cons in Hf as [[Hk _ _ _ _] Hf]. cbn [fst snd] in *. cbn [Nat.add length fields_loop].
  match goal with E : Next s = _ |- _ => rewrite E end.
  assert ((len (sc_Key s1) >? 0) = true) as -> by (destruct (sc_Key s1); [done|]; apply Z.gtb_lt; glen).
  cbn [take_fields fst snd] in E. destruct (parse_field h _ _ err) as [[h1 e1]| |]; [|done|done]. cbn [outcome_bind] in *. eauto.
Qed.

(** The fields do not change what a reset leaves. *)
Lemma parse_field_kept h k v err h' err' : parse_field h k v err = Ret (h', err') -> ResetSkipNormalize h' = ResetSkipNormalize h.
Proof.
  assert (forall t b t' e', SetTrailers t b = Ret (t', e') -> trailer_ResetSkipNormalize t' = trailer_ResetSkipNormalize t) as Ht.
  { intros t b t' e'. unfold SetTrailers. assert (forall fuel t b e, set_trailers_loop fuel t b e = Ret (t', e') ->
      tr_disableNormalizing t' = tr_disableNormalizing t) as Hl.
    { induction fuel as [|fuel IH]; intros t0 b0 e0; [done|]. cbn [set_trailers_loop]. unfold addArgBytes, guarded.
      destruct (IsBadTrailer _) as [[]| |]; [| |done|done]; cbn [outcome_bind]; (case_if; [intros E; by apply IH in E|by intros [= <- _]]). }
    case_if; [|by intros [= <- _]]. intros E%Hl. unfold trailer_ResetSkipNormalize. by rewrite E. }
  unfold parse_field. cbv zeta. repeat case_if; try (by intros [= <- _]); try (case_match; by intros [= <- _]).
  intros E. destruct (SetTrailers (rs_trailer h) v) as [[t e]| |] eqn:Et; [|done|done]. injection E as <- _.
  unfold ResetSkipNormalize. cbn. f_equal. by eapply Ht.
Qed.

Lemma take_fields_kept fs : forall h err h' err', take_fields h err fs = Ret (h', err') -> ResetSkipNormalize h' = ResetSkipNormalize h.
Proof.
  induction fs as [|f fs IH]; intros h err h' err' E; [by injection E as -> _|]. cbn [take_fields] in E.
  destruct (parse_field h f.1 f.2 err) as [[h1 e1]| |] eqn:Ep; [|done|done]. apply IH in E. apply parse_field_kept in Ep. congruence.
Qed.

Lemma fuel_enough fs t : exists k, S (length (block fs ++ t)) = (length fs + S k)%nat.
Proof. rewrite length_app. pose proof (length_block fs). exists (length (block fs) - length fs + length t)%nat. lia. Qed.

Lemma parseHeaders_block h fs body h1 err : disableNormalizing h = false -> Forall field_ok fs ->
  take_fields (InitContentLengthWithValue h (-2)) None fs = Ret (h1, err) ->
  parseHeaders h (block fs ++ 13 :: 10 :: body) =
  Ret (close_fields h1, block fs ++ 13 :: 10 :: body, match err with Some e => Err e | None => Ok (len (block fs) + 2) end).
Proof.
  intros Hd Hf E. unfold parseHeaders. set (h0 := InitContentLengthWithValue h (-2)) in *. assert (disableNormalizing h0 = false) as -> by done.
  destruct (scans_block fs (newScanner (block fs ++ 13 :: 10 :: body) false) _ Hf ltac:(done) eq_refl eq_refl (ends_line_crlf _))
    as (s1 & E1 & _ & E3 & E4 & E5 & E6 & E7).
  destruct (fuel_enough fs (13 :: 10 :: body)) as [k ->]. rewrite (resp_fields_loop_scans fs _ h0 _ s1 None h1 err E1 Hf E). cbn [fields_loop].
  destruct (Next_end s1 body E3) as (-> & EB & ED). cbn [outcome_bind]. change (sc_Err (sc_skip s1 2)) with (sc_Err s1). rewrite E7, EB.
  cbn [newScanner sc_Err]. unfold sc_buffer. rewrite ED, EB, E4. change (sc_tail (sc_skip s1 2)) with (sc_tail s1). rewrite E5.
  cbn [newScanner sc_done sc_tail app]. rewrite app_nil_r, <- app_assoc. do 2 f_equal. destruct err; [done|]. f_equal. glen.
Qed.

(** A part of the lines: more is needed, and nothing has been moved. *)
Lemma parseHeaders_part h fs q h1 err : disableNormalizing h = false -> Forall field_ok fs -> proper_prefix q (block fs ++ [13; 10]) ->
  take_fields (InitContentLengthWithValue h (-2)) None fs = Ret (h1, err) ->
  exists h', parseHeaders h q = Ret (h', q, Err errNeedMore) /\ ResetSkipNormalize h' = ResetSkipNormalize h.
Proof.
  intros Hd Hf Hq E. destruct (prefix_block fs q Hf Hq) as (fs1 & fs2 & q' & -> & -> & Hn & He).
  rewrite resp_take_fields_app in E. destruct (take_fields _ None fs1) as [[h2 e2]| |] eqn:E2; [|done|done]. clear E.
  apply Forall_app in Hf as [Hf _]. unfold parseHeaders. set (h0 := InitContentLengthWithValue h (-2)) in *. assert (disableNormalizing h0 = false) as -> by done.
  destruct (scans_block fs1 (newScanner (block fs1 ++ q') false) q' Hf ltac:(done) eq_refl eq_refl He)
    as (s1 & E1 & Es & E3 & E4 & E5 & E6 & E7).
  destruct (fuel_enough fs1 q') as [k ->]. rewrite (resp_fields_loop_scans fs1 _ h0 _ s1 None h2 e2 E1 Hf E2). cbn [fields_loop].
  rewrite Next_part by (done || by rewrite E3). cbn [outcome_bind sc_fail sc_Err]. exists (SetConnectionClose h2 true). split.
  - do 2 f_equal. f_equal. unfold sc_buffer. cbn. rewrite E3, E4, E5. cbn. by rewrite app_nil_r.
  - apply take_fields_kept in E2. exact E2.
Qed.

(** ** The status line *)

Lemma StatusLine_split c t : StatusLine c ++ t = (HTTP11 ++ 32 :: itoa c ++ 32 :: StatusMessage c) ++ 13 :: 10 :: t.
Proof. unfold StatusLine, HTTP11. change (str "HTTP/1.1 ") with (str "HTTP/1.1" ++ [32]). by rewrite <- !app_assoc; cbn [app]; rewrite <- ?app_assoc. Qed.

Lemma status_text_free c : 0 <= c -> 10 ∉ (HTTP11 ++ 32 :: itoa c ++ 32 :: StatusMessage c).
Proof.
  intros Hc. destruct (StatusLine_unbroken c Hc) as (text & E & Hu). rewrite <- (app_nil_r (StatusLine c)), StatusLine_split in E.
  apply app_inj_2 in E as [-> _]; [|done]. unfold unbroken in Hu. rewrite Forall_forall in Hu. intros H%Hu. lia.
Qed.

Lemma resp_parseFirstLine_ok h c t : 0 <= c < 2 ^ 63 ->
  parseFirstLine h (StatusLine c ++ t) = (SetStatusCode (SetProtocol h HTTP11) c, Ok (len (StatusLine c))).
Proof.
  intros Hc. unfold parseFirstLine. pose proof (StatusLine_split c t) as E. rewrite E at 2. cbn [first_line_loop].
  rewrite NextLine_crlf by (apply status_text_free; lia). cbn [result_bind]. set (msg := StatusMessage c) in *.
  rewrite (proj2 (Z.eqb_neq (len (HTTP11 ++ _)) 0)) by (unfold HTTP11; glen).
  rewrite (IndexByte_at HTTP11) by (by apply (bool_decide_unpack _)). rewrite (proj2 (Z.ltb_ge _ _)) by done. rewrite ztake_app.
  rewrite (proj2 (bytes_eqb_eq _ _)) by done.
  assert (zdrop (len HTTP11 + 1) (HTTP11 ++ 32 :: itoa c ++ 32 :: msg) = itoa c ++ 32 :: msg) as ->.
  { replace (HTTP11 ++ 32 :: itoa c ++ 32 :: msg) with ((HTTP11 ++ [32]) ++ itoa c ++ 32 :: msg) by (by rewrite <- app_assoc). by apply zdrop_app_at. }
  destruct (itoa_first c ltac:(lia)) as (d & ds & Ed & _).
  assert (ParseUintBuf (itoa c ++ 32 :: msg) = Some (c, len (itoa c))) as ->.
  { unfold ParseUintBuf. rewrite <- (Z.add_0_l (len (itoa c))). rewrite <- (uint_loop_stop (itoa c) 32 msg 0 0 c); [by rewrite Ed|lia|lia| |done| |lia].
    - rewrite Ed. glen.
    - apply parse_digits_itoa. lia. }
  assert (znth (itoa c ++ 32 :: msg) (len (itoa c)) = Some 32) as -> by (rewrite <- (Z.add_0_r (len (itoa c))); by rewrite znth_app_r by lia).
  rewrite bool_decide_eq_true_2 by done. rewrite andb_false_r. f_equal. f_equal. glen.
Qed.

Lemma resp_parseFirstLine_part h q : 10 ∉ q -> parseFirstLine h q = (h, Err errNeedMore).
Proof. intros Hq. unfold parseFirstLine. cbn [first_line_loop]. unfold NextLine. by rewrite (proj2 (IndexByte_none q 10) Hq). Qed.

(** ** The whole header *)

Section Read.
Context (c : Z) (Hc : 0 <= c < 2 ^ 63) (fs : list (bytes * bytes)) (Hf : Forall field_ok fs) (h0 : ResponseHeader) (Hd : disableNormalizing h0 = false).
Context (h1 : ResponseHeader) (Ht : take_fields (InitContentLengthWithValue (SetStatusCode (SetProtocol (ResetSkipNormalize h0) HTTP11) c) (-2)) None fs = Ret (h1, None)).

Definition resp_bytes : bytes := StatusLine c ++ block fs ++ [13; 10].

Lemma parse_whole b : parse (ResetSkipNormalize h0) (resp_bytes ++ b) = Ret (close_fields h1, resp_bytes ++ b, Ok (len resp_bytes)).
Proof.
  unfold parse, resp_bytes. rewrite <- !app_assoc, resp_parseFirstLine_ok by done. rewrite zdrop_app, ztake_app. cbn [app].
  rewrite (parseHeaders_block _ fs b h1 None) by done. cbn [outcome_bind result_bind]. do 3 f_equal. glen.
Qed.

Lemma parse_some q : proper_prefix q resp_bytes ->
  exists h', parse (ResetSkipNormalize h0) q = Ret (h', q, Err errNeedMore) /\ ResetSkipNormalize h' = ResetSkipNormalize h0.
Proof.
  intros (t & Hne & E). unfold resp_bytes in E. pose proof E as E'. rewrite StatusLine_split in E. unfold parse.
  replace ((HTTP11 ++ 32 :: itoa c ++ 32 :: StatusMessage c) ++ 13 :: 10 :: block fs ++ [13; 10])
    with ((HTTP11 ++ 32 :: itoa c ++ 32 :: StatusMessage c ++ [13]) ++ 10 :: block fs ++ [13; 10]) in E.
  2:{ repeat (rewrite <- !app_assoc; cbn [app]). done. }
  apply prefix_line in E as [Hq|(q' & -> & E)].
  - rewrite resp_parseFirstLine_part by done. by exists (ResetSkipNormalize h0).
  - replace ((HTTP11 ++ 32 :: itoa c ++ 32 :: StatusMessage c ++ [13]) ++ 10 :: q') with (StatusLine c ++ q').
    2:{ rewrite StatusLine_split. repeat (rewrite <- !app_assoc; cbn [app]). done. }
    rewrite resp_parseFirstLine_ok by done. rewrite zdrop_app, ztake_app.
    destruct (parseHeaders_part (SetStatusCode (SetProtocol (ResetSkipNormalize h0) HTTP11) c) fs q' h1 None) as (h' & -> & Eh); try done; [by exists t|].
    by exists h'.
  - pose proof (status_text_free c ltac:(lia)) as H. rewrite not_elem_of_app, not_elem_of_cons, not_elem_of_app, not_elem_of_cons in *.
    rewrite not_elem_of_app, list_elem_of_singleton. intuition lia.
Qed.

Lemma resp_ReadHeader_block h r body : ResetSkipNormalize h = ResetSkipNormalize h0 -> rd_buf r ++ concat (rd_wire r) = resp_bytes ++ body ->
  exists r', ReadHeader h r = Ret (close_fields h1, r', None) /\ rd_buf r' ++ concat (rd_wire r') = body.
Proof.
  intros Hh. unfold ReadHeader. apply (wait_for_pieces _ _ resp_bytes (fun h => ResetSkipNormalize h = ResetSkipNormalize h0)); [| | |done|].
  - intros h2 r2 n w E Hn. unfold tryRead, ReqParse.Peek. rewrite E. destruct w as [b w]. cbn [rd_buf rd_wire] in *. by rewrite fill_stays by lia.
  - intros h2 wire n b H2 Hn. unfold tryRead, ReqParse.Peek. cbn [rd_buf rd_wire]. rewrite fill_stays by lia. cbn [rd_buf rd_wire].
    rewrite H2, parse_whole. cbn [outcome_bind]. by rewrite zdrop_app.
  - intros h2 buf wire n H2 Hn Hp. unfold tryRead, ReqParse.Peek. cbn [rd_buf rd_wire]. rewrite fill_stays by lia. cbn [rd_buf rd_wire].
    destruct (parse_some buf Hp) as (h' & Ep & Eh). rewrite H2, Ep. cbn [outcome_bind]. by exists h'.
  - unfold resp_bytes, StatusLine. glen.
Qed.
End Read.
