(* ===== verification/RespRound.v ===== *)
(** * Responses: the round trip

    A response header that is printed is read back with the same status, fields, cookies,
    announced trailers and length. *)

From S2P Require Import Prelude Bytes BytesConv Args ArgsSpec HeaderScan Trailer ReqHeader ReqParse ReqRound ReqSend RespHeader RespParse RespSend.

(** ** Announced trailers *)

(** Names that can be announced. *)
Record trailer_name (k : bytes) : Prop := {
  tn_key : k <> [];
  tn_token : token k;
  tn_canonical : NormalizeHeaderKey k false = k;
  tn_allowed : IsBadTrailer k = Ret false
}.

Definition announced (kv : argsKV) : argsKV := mkKV (kv_key kv) [] true.

Lemma strip_token k : token k -> stripSpace k = k /\ stripSpace (32 :: k) = k.
Proof.
  intros Hk. assert (32 ∉ k) as Hn by (by apply token_not). unfold stripSpace. cbn [trim_left Z.eqb Pos.eqb].
  assert (trim_left k = k) as -> by (destruct k as [|c k]; [done|]; cbn; rewrite (proj2 (Z.eqb_neq _ _)); [done|intros ->; set_solver]).
  assert (trim_right k = k); [|done]. apply trim_right_keep. intros Hl. by apply last_Some_elem_of in Hl.
Qed.

Lemma GetBytes_cons kv kv2 l : GetBytes (kv :: kv2 :: l) = kv_key kv ++ 44 :: 32 :: GetBytes (kv2 :: l).
Proof. reflexivity. Qed.

Lemma add_announced t k : trailer_name k -> tr_disableNormalizing t = false ->
  addArgBytes t (trailer_key t k) [] true = Ret (mkTrailer (tr_h t ++ [mkKV k [] true]) false, None).
Proof.
  intros [_ _ Hc Ha] Hd. unfold addArgBytes, guarded, trailer_key. rewrite Hd, Hc, Ha. done.
Qed.

(** The octet a space before a name is. *)
Lemma set_trailers_names l : forall fuel t sp err, (length l < fuel)%nat -> l <> [] -> Forall (fun kv => trailer_name (kv_key kv)) l ->
  sp = [] \/ sp = [32] -> tr_disableNormalizing t = false ->
  set_trailers_loop fuel t (sp ++ GetBytes l) err = Ret (mkTrailer (tr_h t ++ (announced <$> l)) false, None).
Proof.
  induction l as [|kv l IH]; intros fuel t sp err Hf Hne Hl Hsp Hd; [done|]. destruct fuel as [|fuel]; [lia|].
  apply Forall_cons in Hl as [Hk Hl]. pose proof Hk as [Hk1 Hk2 _ _].
  assert (stripSpace (sp ++ kv_key kv) = kv_key kv) as Hstrip by (destruct (strip_token (kv_key kv) Hk2); destruct Hsp as [->| ->]; done).
  assert (44 ∉ sp ++ kv_key kv) as Hn by (rewrite not_elem_of_app; split; [destruct Hsp as [->| ->]; by apply (bool_decide_unpack _)|by apply token_not]).
  destruct l as [|kv2 l].
  - cbn [set_trailers_loop GetBytes]. rewrite (proj2 (IndexByte_none _ 44) Hn). cbn [Z.ltb Z.compare]. cbv zeta.
    rewrite ztake_ge by lia. rewrite Hstrip, add_announced by done. cbn [outcome_bind].
    by rewrite (proj2 (Z.ltb_ge _ _)) by lia.
  - rewrite GetBytes_cons, app_assoc. cbn [set_trailers_loop]. rewrite IndexByte_at by done. rewrite (proj2 (Z.ltb_ge _ _)) by apply len_nonneg.
    cbv zeta. rewrite ztake_app, Hstrip, add_announced by done. cbn [outcome_bind].
    rewrite (proj2 (Z.ltb_lt _ _)) by glen.
    replace ((sp ++ kv_key kv) ++ 44 :: 32 :: GetBytes (kv2 :: l)) with (((sp ++ kv_key kv) ++ [44]) ++ 32 :: GetBytes (kv2 :: l)) by (by rewrite <- !app_assoc).
    rewrite zdrop_app_at by glen. change (32 :: GetBytes (kv2 :: l)) with ([32] ++ GetBytes (kv2 :: l)).
    rewrite IH; [|simpl in *; lia|done|done|by right|done]. cbn [tr_h]. by rewrite <- app_assoc.
Qed.

Lemma SetTrailers_names t l : l <> [] -> Forall (fun kv => trailer_name (kv_key kv)) l -> tr_disableNormalizing t = false ->
  SetTrailers t (GetBytes l) = Ret (mkTrailer (announced <$> l) false, None).
Proof.
  intros Hne Hl Hd. assert (length l <= length (GetBytes l))%nat as Hlen.
  { clear Hd. induction l as [|kv l IH]; [done|]. apply Forall_cons in Hl as [[Hk _ _ _] Hl]. destruct l as [|kv2 l].
    - cbn. destruct (kv_key kv); [done|]. cbn. lia.
    - rewrite GetBytes_cons, length_app. specialize (IH ltac:(done) Hl). cbn [length] in *. lia. }
  unfold SetTrailers. rewrite (proj2 (Z.ltb_lt _ _)).
  - apply (set_trailers_names l (S (length (GetBytes l))) (trailer_ResetSkipNormalize t) [] None); try done; [lia|by left].
  - destruct l; [done|]. unfold len. cbn [length] in *. lia.
Qed.

(** ** What is sent *)

Definition special_names : list string :=
  ["Content-Type"; "Content-Encoding"; "Content-Length"; "Connection"; "Server"; "Set-Cookie"; "Transfer-Encoding"; "Trailer"; "Date"]%string.

Record plain (kv : argsKV) : Prop := {
  pl_value : kv_noValue kv = false;
  pl_field : field_ok (kv_key kv, kv_value kv);
  pl_name : forallb (fun s => negb (CaseInsensitiveCompare (kv_key kv) (str s))) special_names = true
}.

(** A header that can be sent, as for requests; the date is the server's. *)
Record sendable (date : bytes) (h : ResponseHeader) (pre te post : list argsKV) : Prop := {
  sd_status : 0 <= StatusCode h < 2 ^ 63;
  sd_date : value_ok date;
  sd_server : value_ok (server h);
  sd_type : value_ok (contentType h);
  sd_encoding : value_ok (contentEncoding h);
  sd_length : contentLengthBytes h = [] \/ (contentLengthBytes h = itoa (contentLength h) /\ 0 <= contentLength h < 2 ^ 63);
  sd_list : rs_h h = pre ++ te ++ post;
  sd_te : te = [] \/ te = [chunked_kv];
  sd_plain : Forall plain (pre ++ post);
  sd_trailer : Forall (fun kv => trailer_name (kv_key kv)) (tr_h (rs_trailer h)) /\ value_ok (GetBytes (tr_h (rs_trailer h)));
  sd_cookies : Forall (fun kv => value_ok (kv_value kv)) (cookies h)
}.

(** ** What is received *)

Definition date_kv (date : bytes) (h : ResponseHeader) : list argsKV := if noDefaultDate h then [] else [mkKV (str "Date") date false].

(** What the object the header is read into keeps are its own options. *)
Definition received (date : bytes) (h : ResponseHeader) (te : list argsKV) (h0 : ResponseHeader) : ResponseHeader :=
  close_fields
    (mkResp false (connectionClose h) (noDefaultContentType h0) (noDefaultDate h0) (StatusCode h)
       (match te with [] => match contentLengthBytes h with [] => -2 | _ => contentLength h end | _ => -1 end)
       (contentLengthBytes h) (contentEncoding h) (sent_type h) (server h) HTTP11 (date_kv date h ++ rs_h h)
       (mkTrailer (announced <$> tr_h (rs_trailer h)) (tr_disableNormalizing (rs_trailer h0)))
       ((fun kv => mkKV (getCookieKey (kv_value kv)) (kv_value kv) false) <$> cookies h) (headerLength h0)).

Section Sendable.
Context (date : bytes) (h : ResponseHeader) (pre te post : list argsKV) (Hs : sendable date h pre te post).

Lemma resp_list_ok : Forall (fun kv => field_ok (pair_kv kv) /\ bytes_eqb (kv_key kv) (str "Date") = false) (rs_h h).
Proof.
  assert (forall kv, plain kv -> field_ok (pair_kv kv) /\ bytes_eqb (kv_key kv) (str "Date") = false) as Hp.
  { intros kv [_ H1 H2]. split; [done|]. apply bytes_eqb_neq. intros E. rewrite E in H2. by vm_compute in H2. }
  rewrite (sd_list _ _ _ _ _ Hs). pose proof (sd_plain _ _ _ _ _ Hs) as H. apply Forall_app in H as [H1 H2].
  rewrite !Forall_app. split_and!; [by eapply Forall_impl| |by eapply Forall_impl].
  destruct (sd_te _ _ _ _ _ Hs) as [->| ->]; [constructor|]. apply Forall_singleton. split; [|by vm_compute]. unfold pair_kv. simpl.
  known_ok. split; [|by vm_compute]. split; [by apply (bool_decide_unpack _)|done|by vm_compute].
Qed.

Lemma list_sent : List.filter (sends_date h) (rs_h h) = rs_h h.
Proof.
  pose proof resp_list_ok as H. induction H as [|kv l [_ Hk] _ IH]; [done|]. cbn [List.filter]. rewrite IH. unfold sends_date. rewrite Hk. by rewrite orb_true_r.
Qed.

Lemma type_ok : value_ok (sent_type h).
Proof.
  unfold sent_type, ContentType. case_if; [|apply value_ok_nil]. case_if; [|apply Hs]. split; [|by vm_compute].
  split; [|done|by vm_compute]. by apply (bool_decide_unpack _).
Qed.

Lemma fields_ok : Forall field_ok (sent_fields date h).
Proof.
  assert (forall k v, field_ok (str k, v) -> Forall field_ok (shown k v)) as Hsh by (intros k v H; unfold shown; case_if; [by apply Forall_singleton|constructor]).
  unfold sent_fields. rewrite !Forall_app. split_and!.
  - apply Hsh. known_ok. apply Hs.
  - case_if; [constructor|]. apply Forall_singleton. known_ok. apply Hs.
  - apply Hsh. known_ok. apply type_ok.
  - apply Hsh. known_ok. apply Hs.
  - apply Hsh. known_ok. destruct (sd_length _ _ _ _ _ Hs) as [->|[-> H]]; [apply value_ok_nil|apply itoa_value; lia].
  - rewrite list_sent, Forall_fmap. eapply Forall_impl; [apply resp_list_ok|]. by intros kv [? _].
  - case_if; [constructor|]. apply Forall_singleton. known_ok. apply Hs.
  - rewrite Forall_fmap. eapply Forall_impl; [apply Hs|]. intros kv Hv. unfold compose. known_ok. done.
  - case_if; [|constructor]. apply Forall_singleton. known_ok. split; [split|]; by apply (bool_decide_unpack _) || by vm_compute.
Qed.

(** Good fields are printed as they are. *)
Lemma printed_good fs : Forall field_ok fs -> fs ≫= printed = fs.
Proof.
  induction 1 as [|[k v] fs [_ Ht _ Hv _] _ IH]; [done|]. rewrite bind_cons, IH. unfold printed. cbn [fst snd] in *.
  assert (existsb (fun k => tab ValidHeaderFieldNameTable k =? 0) k = false) as ->.
  { induction Ht as [|c k Hc _ IHk]; [done|]. simpl. by rewrite (proj2 (Z.eqb_neq _ _)). }
  unfold one_line. by rewrite clean_map.
Qed.

Lemma resp_plain_field kv g err : plain kv -> parse_field g (kv_key kv) (kv_value kv) err = Ret (AddArgBytes g (kv_key kv) (kv_value kv), err).
Proof.
  intros [_ _ Hn]. simpl in Hn. rewrite !andb_true_iff in Hn. destruct Hn as (N1 & N2 & N3 & N4 & N5 & N6 & N7 & N8 & _ & _). breflect.
  unfold parse_field. rewrite N1, N2, N3, N4, N5, N6, N7, N8. repeat case_if; done.
Qed.

Lemma resp_take_plain l : Forall plain l -> forall g err, take_fields g err (pair_kv <$> l) = Ret (set_h g (rs_h g ++ l), err).
Proof.
  induction 1 as [|kv l Hk _ IH]; intros g err; [cbn; rewrite app_nil_r; by destruct g|]. rewrite fmap_cons. cbn [take_fields pair_kv fst snd].
  rewrite resp_plain_field by done. cbn [outcome_bind]. rewrite IH. unfold AddArgBytes, set_h, appendArgBytes. cbn. rewrite <- app_assoc.
  destruct kv as [k v nv], Hk as [Hv _ _]. cbn in *. by subst.
Qed.

(** The list, with Transfer-Encoding where SetContentLength has put it. *)
Lemma resp_take_list g err : Forall (fun kv => kv_key kv <> str "Transfer-Encoding") (rs_h g) ->
  take_fields g err (pair_kv <$> rs_h h) =
  Ret (set_h (InitContentLengthWithValue g (match te with [] => contentLength g | _ => -1 end)) (rs_h g ++ rs_h h), err).
Proof.
  intros Hg. pose proof (sd_plain _ _ _ _ _ Hs) as Hp. apply Forall_app in Hp as [H1 H2]. rewrite (sd_list _ _ _ _ _ Hs).
  assert (forall kv, plain kv -> kv_key kv <> str "Transfer-Encoding") as Hte by (intros kv [_ _ H] E; rewrite E in H; by vm_compute in H).
  rewrite !fmap_app, !resp_take_fields_app, resp_take_plain by done. cbn [outcome_bind].
  destruct (sd_te _ _ _ _ _ Hs) as [->| ->].
  - change (pair_kv <$> []) with (@nil (bytes * bytes)). cbn [app]. rewrite resp_take_plain by done. unfold set_h. cbn. rewrite <- app_assoc. by destruct g.
  - change (pair_kv <$> [chunked_kv]) with [(str "Transfer-Encoding", str "chunked")]. cbn [app take_fields fst snd].
    assert (forall g, parse_field g (str "Transfer-Encoding") (str "chunked") err =
      Ret (SetArgBytes (InitContentLengthWithValue g (-1)) (str "Transfer-Encoding") (str "chunked"), err)) as -> by done.
    cbn [outcome_bind]. rewrite resp_take_plain by done. unfold SetArgBytes, setArgBytes, upsert, set_h. cbn [rs_h InitContentLengthWithValue].
    rewrite set_loop_fresh by (apply Forall_app; split; [done|by eapply Forall_impl]). cbn. by rewrite <- !app_assoc.
Qed.

Section Steps.
Context (d cc n1 n2 : bool) (st cl hl : Z) (clb ce ct sv p : bytes) (l cs : list argsKV) (t : Trailer).

Lemma take_server v :
  take_fields (mkResp d cc n1 n2 st cl clb ce ct [] p l t cs hl) None (shown "Server" v) = Ret (mkResp d cc n1 n2 st cl clb ce ct v p l t cs hl, None).
Proof. unfold shown. case_if; [done|]. by rewrite (empty_value v). Qed.

Lemma take_date :
  take_fields (mkResp d cc n1 n2 st cl clb ce ct sv p [] t cs hl) None (if noDefaultDate h then [] else [(str "Date", date)]) =
  Ret (mkResp d cc n1 n2 st cl clb ce ct sv p (date_kv date h) t cs hl, None).
Proof. unfold date_kv. by case_if. Qed.

Lemma resp_take_type v :
  take_fields (mkResp d cc n1 n2 st cl clb ce [] sv p l t cs hl) None (shown "Content-Type" v) = Ret (mkResp d cc n1 n2 st cl clb ce v sv p l t cs hl, None).
Proof. unfold shown. case_if; [done|]. by rewrite (empty_value v). Qed.

Lemma take_encoding v :
  take_fields (mkResp d cc n1 n2 st cl clb [] ct sv p l t cs hl) None (shown "Content-Encoding" v) = Ret (mkResp d cc n1 n2 st cl clb v ct sv p l t cs hl, None).
Proof. unfold shown. case_if; [done|]. by rewrite (empty_value v). Qed.

Lemma resp_take_length x v : v = [] \/ (v = itoa x /\ 0 <= x < 2 ^ 63) ->
  take_fields (mkResp d cc n1 n2 st (-2) [] ce ct sv p l t cs hl) None (shown "Content-Length" v) =
  Ret (mkResp d cc n1 n2 st (match v with [] => -2 | _ => x end) v ce ct sv p l t cs hl, None).
Proof.
  intros [->|[-> Hx]]; [done|]. destruct (itoa_first x ltac:(lia)) as (y & z & E & _). unfold shown. rewrite (proj2 (Z.gtb_lt _ _)) by (rewrite E; glen).
  cbn [take_fields fst snd]. unfold parse_field. cbn [hd]. 
  change (Z.lor (hd 0 (str "Content-Length")) 32) with 99. cbn [Z.eqb Pos.eqb].
  replace (CaseInsensitiveCompare (str "Content-Length") (str "Content-Type")) with false by (by vm_compute).
  replace (CaseInsensitiveCompare (str "Content-Length") (str "Content-Encoding")) with false by (by vm_compute).
  replace (CaseInsensitiveCompare (str "Content-Length") (str "Content-Length")) with true by (by vm_compute).
  cbn [contentLength Z.eqb negb]. rewrite ParseContentLength_itoa by done. cbn. by rewrite E.
Qed.

Lemma take_trailer : Forall (fun kv => trailer_name (kv_key kv)) (tr_h (rs_trailer h)) -> tr_h t = [] -> tr_disableNormalizing t = false ->
  take_fields (mkResp d cc n1 n2 st cl clb ce ct sv p l t cs hl) None
    (if trailer_Empty (rs_trailer h) then [] else [(str "Trailer", GetBytes (tr_h (rs_trailer h)))]) =
  Ret (mkResp d cc n1 n2 st cl clb ce ct sv p l (mkTrailer (announced <$> tr_h (rs_trailer h)) (tr_disableNormalizing t)) cs hl, None).
Proof.
  intros Hn Ht Hd. unfold trailer_Empty. destruct (tr_h (rs_trailer h)) as [|kv tl] eqn:E.
  - cbn. destruct t as [th td]. cbn in *. by subst.
  - cbn [take_fields fst snd].
    assert (forall g v err, parse_field g (str "Trailer") v err = (run (t, err) <- SetTrailers (rs_trailer g) v; Ret (set_trailer g t, err))) as -> by done.
    cbn [rs_trailer]. rewrite SetTrailers_names by done. cbn. by rewrite Hd.
Qed.

Lemma take_cookies k : forall cs0,
  take_fields (mkResp d cc n1 n2 st cl clb ce ct sv p l t cs0 hl) None ((fun kv => (str "Set-Cookie", kv_value kv)) <$> k) =
  Ret (mkResp d cc n1 n2 st cl clb ce ct sv p l t (cs0 ++ ((fun kv => mkKV (getCookieKey (kv_value kv)) (kv_value kv) false) <$> k)) hl, None).
Proof.
  induction k as [|kv k IH]; intros cs0; [cbn; by rewrite app_nil_r|]. rewrite fmap_cons. cbn [take_fields fst snd].
  assert (forall g v err, parse_field g (str "Set-Cookie") v err = Ret (ParseSetCookie g v, err)) as -> by done.
  cbn [outcome_bind]. unfold ParseSetCookie, set_cookies. cbn. rewrite IH. by rewrite <- app_assoc.
Qed.

Lemma take_close : 
  take_fields (mkResp d false n1 n2 st cl clb ce ct sv p l t cs hl) None (if connectionClose h then [(str "Connection", str "close")] else []) =
  Ret (mkResp d (connectionClose h) n1 n2 st cl clb ce ct sv p l t cs hl, None).
Proof. by case_if. Qed.
End Steps.
End Sendable.

Lemma resp_read_sent date h pre te post h0 : sendable date h pre te post -> disableNormalizing h0 = false -> tr_disableNormalizing (rs_trailer h0) = false ->
  exists h1, take_fields (InitContentLengthWithValue (SetStatusCode (SetProtocol (ResetSkipNormalize h0) HTTP11) (StatusCode h)) (-2)) None (sent_fields date h) =
    Ret (h1, None) /\ close_fields h1 = received date h te h0.
Proof.
  intros Hs Hd Ht. unfold sent_fields. rewrite (list_sent _ _ _ _ _ Hs).
  unfold ResetSkipNormalize, InitContentLengthWithValue, SetStatusCode, SetProtocol. cbn.
  rewrite !resp_take_fields_app, take_server. cbn [outcome_bind]. rewrite resp_take_fields_app, take_date. cbn [outcome_bind].
  rewrite resp_take_fields_app, resp_take_type. cbn [outcome_bind]. rewrite resp_take_fields_app, take_encoding. cbn [outcome_bind].
  rewrite resp_take_fields_app, (resp_take_length _ _ _ _ _ _ _ _ _ _ _ _ _ (contentLength h)) by apply Hs. cbn [outcome_bind].
  rewrite resp_take_fields_app, (resp_take_list date h pre te post Hs) by (cbn; unfold date_kv; case_if; [constructor|by apply Forall_singleton]).
  unfold set_h, InitContentLengthWithValue. cbn. rewrite resp_take_fields_app, take_trailer by (apply Hs || done). cbn [outcome_bind].
  rewrite resp_take_fields_app, take_cookies. cbn [outcome_bind]. rewrite take_close. eexists. split; [done|]. unfold received. by rewrite Hd.
Qed.

Lemma resp_sent_header_read (date : bytes) (h h0 : ResponseHeader) (pre te post : list argsKV) (r : reader) (body : bytes) :
  sendable date h pre te post -> disableNormalizing h0 = false -> tr_disableNormalizing (rs_trailer h0) = false ->
  rd_buf r ++ concat (rd_wire r) = AppendBytes date h [] ++ body ->
  exists r', ReadHeader h0 r = Ret (received date h te h0, r', None) /\ rd_buf r' ++ concat (rd_wire r') = body.
Proof.
  intros Hs Hd Ht E. destruct (resp_read_sent date h pre te post h0 Hs Hd Ht) as (h1 & E1 & <-).
  pose proof (fields_ok date h pre te post Hs) as Hf. rewrite AppendBytes_lines, (printed_good _ Hf) in E.
  pose proof (sd_status _ _ _ _ _ Hs) as Hst.
  assert (sent_status h = StatusCode h) as Ec by (unfold sent_status; case_if; breflect; [lia|done]). rewrite Ec in E.
  by eapply (resp_ReadHeader_block (StatusCode h) Hst (sent_fields date h) Hf h0 Hd h1 E1).
Qed.

(** A response header that AppendBytes prints is read back by ReadHeader: status,
    type, encoding, server, the list with the date, the cookies, the names of the trailers,
    the connection option and the length are those that were sent, in whatever pieces the
    octets arrive; the reader is left at the first octet of the body. *)
Theorem response_roundtrip (date : bytes) (h h0 : ResponseHeader) (pre te post : list argsKV) (r : reader) (body : bytes) :
  sendable date h pre te post -> disableNormalizing h0 = false -> tr_disableNormalizing (rs_trailer h0) = false ->
  rd_buf r ++ concat (rd_wire r) = AppendBytes date h [] ++ body ->
  exists r', ReadHeader h0 r = Ret (received date h te h0, r', None) /\ rd_buf r' ++ concat (rd_wire r') = body.
Proof. apply resp_sent_header_read. Qed.

Module Sample.
Definition date : bytes := str "Mon, 01 Jan 2024 00:00:00 GMT".

Definition ok : ResponseHeader :=
  mkResp false true false false 404 2 (str "2") [] (str "text/html") (str "x") [] [mkKV (str "Vary") (str "a, b") false]
    (mkTrailer [mkKV (str "Foo") [] true] false) [mkKV (str "k") (str "k=v; path=/") false] 0.

Definition text : bytes := AppendBytes date ok [] ++ str "no".

Lemma value_check v : bool_decide (Forall (fun c => c <> 13 /\ c <> 10) v) && negb (bool_decide (head v = Some 32)) &&
  negb (bool_decide (last v = Some 32)) && validHeaderFieldValue v = true -> value_ok v.
Proof. intros H. rewrite !andb_true_iff in H. destruct H as [[[H1 H2] H3] H4]. breflect. repeat case_bool_decide; try done. Qed.

Lemma ok_sendable : sendable date ok [mkKV (str "Vary") (str "a, b") false] [] [].
Proof.
  split; try (apply value_check; vm_compute; reflexivity); try done.
  - right. split; [vm_eq|cbn; lia].
  - by left.
  - apply Forall_singleton. split; [done| |vm_eq]. apply known_field; [vm_compute; reflexivity|]. apply value_check. vm_compute. reflexivity.
  - split; [|apply value_check; vm_compute; reflexivity]. apply Forall_singleton.
    split; [done|apply known_token; vm_compute; reflexivity|vm_eq|vm_eq].
  - apply Forall_singleton. apply value_check. vm_compute. reflexivity.
Qed.

Lemma response_roundtrip_witness :
  exists r', ReadHeader newResponseHeader (mkReader (take 9 text) [take 30 (drop 9 text); drop 39 text]) =
               Ret (received date ok [] newResponseHeader, r', None) /\ rd_buf r' ++ concat (rd_wire r') = str "no".
Proof. apply (response_roundtrip date ok newResponseHeader _ [] _ _ _ ok_sendable); [reflexivity|reflexivity|vm_eq]. Defined.

(** A folded value moves the end of the header: the reader skips an octet of the body
    for every line end that was taken out.  And a Trailer field with an empty name
    panics. *)
Definition seen (b : bytes) : option (Z * Z * list (bytes * bytes) * bytes * option headerErr) :=
  match ReadHeader newResponseHeader (mkReader [] [b]) with
  | Ret (h, r, e) => Some (StatusCode h, contentLength h, pair_kv <$> rs_h h, rd_buf r, e)
  | _ => None
  end.

Definition lines (l : list string) : bytes := concat ((fun s => str s ++ [13; 10]) <$> l) ++ [13; 10].

Lemma response_defects :
  seen (lines ["HTTP/1.1 200 OK"; "Content-Length: 4"; "A: b"; " c"]%string ++ str "abcd") =
    Some (200, 4, [(str "A", str "b c")], str "cdcd", None) /\
  ReadHeader newResponseHeader (mkReader [] [lines ["HTTP/1.1 200 OK"; "Trailer: ,"]%string]) = Panic.
Proof. split; vm_eq. Qed.
End Sample.
