(* ===== verification/TrailerRound.v ===== *)
(** * Trailers: the round trip

    The trailer that WriteTrailer writes behind the last chunk is read back by ReadTrailer
    into the names that were announced, in whatever pieces it arrives; and what happens to
    a trailer that is folded or has a name twice. *)

From S2P Require Import Prelude Bytes BytesConv Args ArgsSpec HeaderScan Trailer ReqHeader ReqParse ReqRound ReqSend BodyRead BodySpec RespHeader RespParse RespSend RespRound.

(** The first [j] names have their values. *)
Definition given (kv : argsKV) : argsKV := mkKV (kv_key kv) (kv_value kv) false.
Definition half (l : list argsKV) (j : nat) : list argsKV := (given <$> take j l) ++ (announced <$> drop j l).

Lemma half_0 l : half l 0 = announced <$> l.
Proof. reflexivity. Qed.

Lemma half_all l j : (length l <= j)%nat -> half l j = given <$> l.
Proof. intros H. unfold half. rewrite take_ge, drop_ge by done. apply app_nil_r. Qed.

Lemma update_given l k v r : update_loop ((given <$> l) ++ r) k v = (given <$> l) ++ update_loop r k v.
Proof. induction l as [|kv l IH]; [done|]. cbn. by rewrite IH. Qed.

Lemma update_other l k v : (k ∉ (kv_key <$> l)) -> update_loop (announced <$> l) k v = announced <$> l.
Proof.
  induction l as [|kv l IH]; intros H; [done|]. rewrite fmap_cons in *. apply not_elem_of_cons in H as [H1 H2]. cbn [update_loop announced kv_noValue kv_key andb].
  rewrite (proj2 (bytes_eqb_neq _ _)) by done. by rewrite IH.
Qed.

(** A value is given to the next name, and a name that has its own keeps it. *)
Lemma update_half l1 kv l2 j : NoDup (kv_key <$> l1 ++ kv :: l2) -> (length l1 <= j)%nat ->
  update_loop (half (l1 ++ kv :: l2) j) (kv_key kv) (kv_value kv) = half (l1 ++ kv :: l2) (Nat.max j (S (length l1))).
Proof.
  intros Hn Hj. rewrite fmap_app, fmap_cons in Hn. apply NoDup_app in Hn as (_ & _ & Hn2). apply NoDup_cons in Hn2 as [Hk _].
  unfold half. rewrite update_given. destruct (decide (j = length l1)) as [->|Hne].
  - rewrite Nat.max_r by lia. rewrite take_app_length, drop_app_length, fmap_cons.
    replace (S (length l1)) with (length (l1 ++ [kv])) by (rewrite length_app; simpl; lia).
    replace (l1 ++ kv :: l2) with ((l1 ++ [kv]) ++ l2) by (by rewrite <- app_assoc).
    rewrite take_app_length, drop_app_length, fmap_app. cbn [update_loop announced kv_noValue kv_key andb].
    rewrite (proj2 (bytes_eqb_eq _ _)) by done. by rewrite <- app_assoc.
  - rewrite Nat.max_l by lia. f_equal. apply update_other. rewrite drop_app, drop_ge by lia. cbn [app].
    destruct (j - length l1)%nat as [|m] eqn:Em; [lia|]. cbn [drop]. rewrite fmap_drop. intros Hin. apply Hk. rewrite <- (take_drop m (kv_key <$> l2)). set_solver.
Qed.

Section Trailer.
Context (l : list argsKV) (Hn : Forall (fun kv => trailer_name (kv_key kv)) l) (Hv : Forall (fun kv => value_ok (kv_value kv)) l) (Hd : NoDup (kv_key <$> l)).
Context (H0 : forall kv, head l = Some kv -> head (kv_key kv) <> Some 48).

Definition pairs (l : list argsKV) : list (bytes * bytes) := RespHeader.pair_kv <$> l.

Lemma pairs_ok l' : l' ⊆ l -> Forall field_ok (pairs l').
Proof.
  intros Hs. apply Forall_fmap, Forall_forall. intros kv Hin%Hs. rewrite Forall_forall in Hn, Hv. destruct (Hn kv Hin) as [H1 H2 H3 _], (Hv kv Hin) as [H4 H5].
  by split.
Qed.

Lemma scans_inv s f fs s' : scans s (f :: fs) s' -> exists s1, Next s = (s1, true) /\ f = (sc_Key s1, sc_Value s1) /\ scans s1 fs s'.
Proof. inversion 1; subst. eauto. Qed.

(** The loop on some of the lines, when some of the values are there. *)
Lemma trailer_fields_scans l1 : forall l0 l2 fuel s s' j, l = l0 ++ l1 ++ l2 -> (length l0 <= j)%nat -> scans s (pairs l1) s' ->
  trailer_fields (length l1 + fuel) (mkTrailer (half l j) false) s None =
  trailer_fields fuel (mkTrailer (half l (Nat.max j (length (l0 ++ l1)))) false) s' None.
Proof.
  induction l1 as [|kv l1 IH]; intros l0 l2 fuel s s' j E Hj Hs.
  - inversion Hs. rewrite app_nil_r, Nat.max_l by lia. done.
  - apply scans_inv in Hs as (s1 & En & Ef & Hs). unfold RespHeader.pair_kv in Ef. injection Ef as Ek Ev.
    assert (kv ∈ l) as Hin by (rewrite E; set_solver). rewrite Forall_forall in Hn. destruct (Hn kv Hin) as [H1 H2 _ H4].
    cbn [Nat.add length trailer_fields]. rewrite En, <- Ek, <- Ev.
    assert ((len (kv_key kv) >? 0) = true) as -> by (destruct (kv_key kv); [done|]; apply Z.gtb_lt; glen).
    rewrite !(proj2 (IndexByte_none _ _)) by by apply token_not. cbn [Z.eqb orb negb Pos.eqb].
    unfold UpdateArgBytes, guarded. rewrite H4. cbn [outcome_bind tr_h tr_disableNormalizing].
    assert (update_loop (half l j) (kv_key kv) (kv_value kv) = half l (Nat.max j (S (length l0)))) as ->.
    { rewrite E in *. apply (update_half l0 kv (l1 ++ l2) j); done. }
    rewrite (IH (l0 ++ [kv]) l2 fuel s1 s' _) by (rewrite ?E, ?length_app, <- ?app_assoc; simpl; done || lia).
    do 3 f_equal. rewrite <- app_assoc. cbn [app]. rewrite !length_app. simpl. lia.
Qed.

Lemma text_head q t : q <> [] -> q ++ t = block (pairs l) ++ [13; 10] -> exists c, head q = Some c /\ (c =? 48) = false.
Proof.
  intros Hq E. destruct q as [|c q]; [done|]. exists c. split; [done|]. apply Z.eqb_neq. intros ->.
  destruct l as [|kv l'] eqn:El; [by injection E|]. specialize (H0 kv eq_refl). apply Forall_cons in Hn as [[Hk _ _ _] _].
  unfold pairs in E. rewrite fmap_cons in E. unfold RespHeader.pair_kv at 1 in E. rewrite block_cons in E. destruct (kv_key kv); [done|]. injection E as <- _. by apply H0.
Qed.

Lemma parseTrailer_whole j b :
  parseTrailer (mkTrailer (half l j) false) (block (pairs l) ++ 13 :: 10 :: b) =
  Ret (mkTrailer (given <$> l) false, block (pairs l) ++ 13 :: 10 :: b, Ok (len (block (pairs l)) + 2)).
Proof.
  unfold parseTrailer. destruct (text_head (block (pairs l) ++ [13; 10]) []) as (c & Hc & E48); [by destruct (block (pairs l))|by rewrite app_nil_r|].
  assert (head (block (pairs l) ++ 13 :: 10 :: b) = Some c) as -> by (by destruct (block (pairs l))). cbn [deref outcome_bind]. rewrite E48. cbv zeta.
  rewrite (proj2 (Z.ltb_ge _ _)) by apply len_nonneg. rewrite zdrop_0. cbn [tr_disableNormalizing].
  destruct (scans_block (pairs l) (newScanner (block (pairs l) ++ 13 :: 10 :: b) false) _ (pairs_ok l ltac:(done)) ltac:(done) eq_refl eq_refl (ends_line_crlf _))
    as (s1 & E1 & _ & E3 & E4 & E5 & E6 & E7).
  destruct (fuel_enough (pairs l) (13 :: 10 :: b)) as [k Hk]. rewrite Hk. unfold pairs at 1. rewrite length_fmap.
  rewrite (trailer_fields_scans l [] [] (S k) _ s1 j) by (rewrite ?app_nil_r; done || simpl; lia). cbn [trailer_fields].
  destruct (Next_end s1 b E3) as (-> & EB & ED). cbn [outcome_bind]. change (sc_Err (sc_skip s1 2)) with (sc_Err s1). rewrite E7.
  change (HLen (sc_skip s1 2)) with (HLen s1 + 2). rewrite E6, half_all by (cbn [app]; lia).
  cbn [newScanner sc_Err HLen]. do 2 f_equal. f_equal. unfold sc_buffer. rewrite EB, ED, E4. change (sc_tail (sc_skip s1 2)) with (sc_tail s1).
  rewrite E5. cbn [newScanner sc_done sc_tail app ztake]. unfold ztake. cbn [Z.to_nat take app]. rewrite app_nil_r, <- app_assoc. done.
Qed.

Lemma parseTrailer_part j q : q <> [] -> proper_prefix q (block (pairs l) ++ [13; 10]) ->
  exists j', parseTrailer (mkTrailer (half l j) false) q = Ret (mkTrailer (half l j') false, q, Err errNeedMore).
Proof.
  intros Hne Hp. pose proof Hp as (t & _ & Et). destruct (text_head q t Hne Et) as (c & Hc & E48).
  destruct (prefix_block (pairs l) q (pairs_ok l ltac:(done)) Hp) as (fs1 & fs2 & q' & Efs & -> & Hq' & He).
  unfold pairs in Efs. apply fmap_app_inv in Efs as (l1 & l2 & -> & -> & El).
  exists (Nat.max j (length l1)). unfold parseTrailer. rewrite Hc. cbn [deref outcome_bind]. rewrite E48. cbv zeta.
  rewrite (proj2 (Z.ltb_ge _ _)) by apply len_nonneg. rewrite zdrop_0. cbn [tr_disableNormalizing].
  destruct (scans_block (pairs l1) (newScanner (block (pairs l1) ++ q') false) q' (pairs_ok l1 ltac:(rewrite El; set_solver)) ltac:(done) eq_refl eq_refl He)
    as (s1 & E1 & Es & E3 & E4 & E5 & E6 & E7).
  destruct (fuel_enough (pairs l1) q') as [k Hk]. unfold pairs in Hk at 1. rewrite Hk. unfold pairs at 1. rewrite length_fmap.
  rewrite (trailer_fields_scans l1 [] l2 (S k) _ s1 j) by (done || simpl; lia). cbn [trailer_fields].
  rewrite Next_part by (done || by rewrite E3). cbn [outcome_bind sc_fail sc_Err]. do 3 f_equal.
  unfold sc_buffer, ztake. cbn. rewrite E3, E4, E5. cbn. by rewrite app_nil_r.
Qed.
End Trailer.

Lemma WriteTrailer_block l w dn : Forall (fun kv => trailer_name (kv_key kv)) l -> Forall (fun kv => value_ok (kv_value kv)) l ->
  WriteTrailer (mkTrailer l dn) w = w ++ block (pairs l) ++ [13; 10].
Proof.
  intros Hn Hv. unfold WriteTrailer, trailer_AppendBytes. cbn [tr_h]. rewrite append_list; [done|].
  rewrite Forall_forall in *. intros kv Hin. split; [apply (Hn kv Hin)|apply (Hv kv Hin)].
Qed.

Lemma ReadTrailer_block l r rest : Forall (fun kv => trailer_name (kv_key kv)) l -> Forall (fun kv => value_ok (kv_value kv)) l -> NoDup (kv_key <$> l) ->
  (forall kv, head l = Some kv -> head (kv_key kv) <> Some 48) -> stream r = block (pairs l) ++ [13; 10] ++ rest ->
  exists r', ReadTrailer (mkTrailer (announced <$> l) false) r = Ret (mkTrailer (given <$> l) false, r', None) /\ stream r' = rest.
Proof.
  intros Hn Hv Hd H0 E. unfold ReadTrailer. set (text := block (pairs l) ++ [13; 10]). rewrite app_assoc in E. fold text in E.
  apply (wait_for_pieces tryReadTrailer trailer_ResetSkipNormalize text (fun t => exists j, t = mkTrailer (half l j) false)); [| | | | |done].
  - intros t r2 n w Ef Hl. unfold tryReadTrailer, ReqParse.Peek. rewrite Ef. destruct w as [b w]. cbn [rd_buf rd_wire] in *. by rewrite fill_stays by lia.
  - intros t wire n b [j ->] Hl. unfold tryReadTrailer, ReqParse.Peek. cbn [rd_buf rd_wire]. rewrite fill_stays by lia. cbn [rd_buf rd_wire].
    unfold text. rewrite <- app_assoc. cbn [app]. rewrite parseTrailer_whole by done. cbn [outcome_bind]. unfold Skip. cbn [rd_buf rd_wire].
    rewrite (proj2 (Z.ltb_ge _ _)) by glen. cbn [fst]. do 3 f_equal. f_equal.
    replace (block (pairs l) ++ 13 :: 10 :: b) with (text ++ b) by (unfold text; by rewrite <- app_assoc). apply zdrop_app_at. unfold text. glen.
  - intros t buf wire n [j ->] Hl Hp. unfold tryReadTrailer, ReqParse.Peek. cbn [rd_buf rd_wire]. rewrite fill_stays by lia. cbn [rd_buf rd_wire].
    destruct (parseTrailer_part l Hn Hv Hd H0 j buf) as (j' & ->); [intros ->; rewrite len_nil in Hl; lia|done|].
    cbn [outcome_bind]. eexists. split; [done|]. by exists j'.
  - by exists 0%nat.
  - unfold text. glen.
Qed.

(** A body that WriteBodyChunked writes in chunks, with the trailer WriteTrailer writes
    behind it, is read by ReadBody and ReadTrailer: the octets of the body, however the
    source was read, and the values of the trailers that were announced, in whatever pieces
    the octets arrive.  The sizes printed are the octets that follow, so that writing does
    not panic, and what follows the message is left in the reader. *)
Theorem chunked_roundtrip (reads : list bytes) (l : list argsKV) (w : bytes) (r : reader) (rest : bytes) (maxBodySize : Z) (dst : slice) :
  Forall chunk_ok reads -> len (concat reads) + 2 <= 2 ^ 47 -> maxBodySize <= 0 \/ len (concat reads) <= maxBodySize ->
  Forall (fun kv => trailer_name (kv_key kv)) l -> Forall (fun kv => value_ok (kv_value kv)) l -> NoDup (kv_key <$> l) ->
  (forall kv, head l = Some kv -> head (kv_key kv) <> Some 48) ->
  exists text, WriteBodyChunked w reads = Ret (w ++ text) /\
    (stream r = WriteTrailer (mkTrailer l false) text ++ rest ->
     exists r1 cap r2, ReadBody r (-1) maxBodySize dst = Ret (r1, mkSlice (concat reads) cap, None) /\
       ReadTrailer (mkTrailer (announced <$> l) false) r1 = Ret (mkTrailer (given <$> l) false, r2, None) /\ stream r2 = rest).
Proof.
  intros Hf Ha Hm Hn Hv Hd H0. exists (chunks reads). split; [by apply WriteBodyChunked_writes|]. rewrite WriteTrailer_block by done. intros E.
  rewrite <- !app_assoc in E. destruct (ReadBody_chunks reads r _ maxBodySize dst Hf Ha Hm E) as (r1 & cap & E1 & E2).
  destruct (ReadTrailer_block l r1 rest Hn Hv Hd H0 E2) as (r2 & E3 & E4). by exists r1, cap, r2.
Qed.

Module TrailerSample.
Definition foo : argsKV := mkKV (str "Foo") (str "bar") false.
Definition text : bytes := str "5" ++ CRLF ++ str "hello" ++ CRLF ++ str "2" ++ CRLF ++ str "!!" ++ CRLF ++ str "0" ++ CRLF ++ str "Foo: bar" ++ CRLF ++ CRLF ++ str "GET".
Definition arriving : reader := mkReader (take 4 text) [take 25 (drop 4 text); drop 29 text].

Lemma chunked_roundtrip_witness :
  exists r1 cap r2, ReadBody arriving (-1) 10 (mkSlice [] 0) = Ret (r1, mkSlice (str "hello!!") cap, None) /\
    ReadTrailer (mkTrailer [mkKV (str "Foo") [] true] false) r1 = Ret (mkTrailer [foo] false, r2, None) /\ stream r2 = str "GET".
Proof.
  destruct (chunked_roundtrip [str "hello"; str "!!"] [foo] [] arriving (str "GET") 10 (mkSlice [] 0)) as (t & E1 & E2).
  - apply Forall_cons. split; [done|]. by apply Forall_singleton.
  - by apply (bool_decide_unpack _).
  - right. by apply (bool_decide_unpack _).
  - apply Forall_singleton. split; [done|apply known_token; vm_compute; reflexivity|vm_compute; reflexivity|vm_compute; reflexivity].
  - apply Forall_singleton. apply Sample.value_check. vm_compute. reflexivity.
  - apply NoDup_singleton.
  - intros kv [= <-]. done.
  - vm_compute in E1. injection E1 as <-. apply E2. vm_compute. reflexivity.
Defined.

(** What a trailer is can depend on how it arrives: a name that has a value keeps it when
    the rest of a folded value comes, and the second of two equal names takes the value of
    the first. *)
Definition read_in (l : list argsKV) (pieces : list bytes) : option (list argsKV) :=
  match ReadTrailer (mkTrailer l false) (mkReader [] pieces) with Ret (t, _, None) => Some (tr_h t) | _ => None end.

Lemma trailer_pieces :
  read_in [announced foo] [str "Foo: a" ++ CRLF ++ str " b" ++ CRLF ++ CRLF] = Some [mkKV (str "Foo") (str "a b") false] /\
  read_in [announced foo] [str "Foo: a" ++ CRLF; str " b" ++ CRLF ++ CRLF] = Some [mkKV (str "Foo") (str "a") false] /\
  read_in [announced foo; announced foo] [str "Foo: a" ++ CRLF; str "Foo: b" ++ CRLF ++ CRLF] = Some [mkKV (str "Foo") (str "a") false; mkKV (str "Foo") (str "a") false].
Proof. split_and!; vm_eq. Qed.
End TrailerSample.
