(* ===== verification/Http1.v ===== *)
(** * The HTTP/1 server

    [web/protocol/http1/server.go] with the parts of [protocol/request.go],
    [protocol/response.go] and [http1/req/request.go] it uses: reading the body of a
    request, writing the response, and the loop over the requests of a connection.

    The handler is a parameter: a function of the request and of the response object it
    fills, and so are the date, whether the server is still running when a response is
    written, and the capacity of a buffer that comes from the pool.  A body that a handler
    streams is the octets of the stream; a writer it has put in place of the default one is
    what that writes in the end.  Not modelled: timeouts, multipart forms (the server does
    not ask for them to be parsed), and errors of the connection while writing. *)

From S2P Require Import Prelude Bytes BytesConv Args ArgsSpec HeaderScan Trailer ReqHeader ReqParse BodyRead RespHeader.

(** ** Requests and responses *)

Record Request := mkRequest {
  req_Header : RequestHeader;
  req_body : option slice;
  req_bodyRaw : option bytes;
  req_maxKeepBodySize : Z
}.

Definition newRequest : Request := mkRequest newRequestHeader None None 0.

Definition set_req_Header (q : Request) (h : RequestHeader) : Request := mkRequest h (req_body q) (req_bodyRaw q) (req_maxKeepBodySize q).

(** A buffer that is too large to keep goes back to the pool. *)
Definition keep_body (b : option slice) (maxKeep : Z) : option slice :=
  match b with Some s => if sl_cap s <=? maxKeep then Some (mkSlice [] (sl_cap s)) else None | None => None end.

Definition req_ResetBody (q : Request) : Request :=
  mkRequest (req_Header q) (keep_body (req_body q) (req_maxKeepBodySize q)) None (req_maxKeepBodySize q).

Definition req_Reset (q : Request) : Request := req_ResetBody (set_req_Header q (ReqHeader.Reset (req_Header q))).

Definition req_SetBodyRaw (q : Request) (body : bytes) : Request :=
  let q := req_ResetBody q in mkRequest (req_Header q) (req_body q) (Some body) (req_maxKeepBodySize q).

Definition req_BodyBytes (q : Request) : bytes :=
  match req_bodyRaw q with Some b => b | None => match req_body q with Some s => sl_data s | None => [] end end.

Definition MayContinue (q : Request) : bool := bytes_eqb (ReqHeader.peek (req_Header q) (str "Expect")) (str "100-continue").

Record Response := mkResponse {
  resp_Header : ResponseHeader;
  resp_body : option slice;
  resp_bodyRaw : option bytes;
  resp_maxKeepBodySize : Z;
  SkipBody : bool;
  hijackWriter : option bytes
}.

Definition newResponse : Response := mkResponse newResponseHeader None None 0 false None.

Definition set_resp_Header (p : Response) (h : ResponseHeader) : Response :=
  mkResponse h (resp_body p) (resp_bodyRaw p) (resp_maxKeepBodySize p) (SkipBody p) (hijackWriter p).

Definition resp_ResetBody (p : Response) : Response :=
  mkResponse (resp_Header p) (keep_body (resp_body p) (resp_maxKeepBodySize p)) None (resp_maxKeepBodySize p) (SkipBody p) (hijackWriter p).

Definition resp_Reset (p : Response) : Response :=
  let p := resp_ResetBody (set_resp_Header p (RespHeader.Reset (resp_Header p))) in
  mkResponse (resp_Header p) (resp_body p) (resp_bodyRaw p) (resp_maxKeepBodySize p) false None.

Definition resp_BodyBytes (p : Response) : bytes :=
  match resp_bodyRaw p with Some b => b | None => match resp_body p with Some s => sl_data s | None => [] end end.

(** ** The body of a request *)

Section Body.
Context (poolCap : Z).

Definition req_BodyBuffer (q : Request) : slice := default (mkSlice [] poolCap) (req_body q).

Definition ContinueReadBody (q : Request) (r : reader) (maxBodySize : Z) : outcome (Request * reader * option bodyErr) :=
  let contentLength := ReqHeader.contentLength (req_Header q) in
  if contentLength >? 0 then
    if (maxBodySize >? 0) && (contentLength >? maxBodySize) then Ret (q, r, Some errBodyTooLarge)
    else match ReqParse.Peek r contentLength with
         | (r, None) => Ret (q, r, Some errBodyEOF)
         | (r, Some buf) => Ret (req_SetBodyRaw q buf, (Skip r contentLength).1, None)
         end
  else if contentLength =? -2 then
    if negb (IgnoreBody (req_Header q)) then
      run h <- ReqHeader.SetContentLength (req_Header q) 0; Ret (set_req_Header q h, r, None)
    else Ret (q, r, None)
  else
    let buf := mkSlice [] (sl_cap (req_BodyBuffer q)) in
    run (r, buf, err) <- ReadBody r contentLength maxBodySize buf;
    let q := mkRequest (req_Header q) (Some buf) None (req_maxKeepBodySize q) in
    match err with
    | Some e => Ret (req_Reset q, r, Some e)
    | None => run h <- ReqHeader.SetContentLength (req_Header q) (len (sl_data buf)); Ret (set_req_Header q h, r, None)
    end.

(** With getOnly and preParseMultipartForm false, as the server calls it. *)
Definition ReadLimitBody (q : Request) (r : reader) (maxBodySize : Z) : outcome (Request * reader * option bodyErr) :=
  if MayContinue q then Ret (q, r, None) else ContinueReadBody q r maxBodySize.

(** ** The response *)

(** What is written, and the response behind it. *)
Definition writeResponse (date : bytes) (p : Response) : outcome (bytes * Response) :=
  match hijackWriter p with
  | Some b => Ret (b, p)
  | None =>
      let body := resp_BodyBytes p in
      run h <- RespHeader.SetContentLength (resp_Header p) (len body);
      let header := RespHeader.AppendBytes date h [] in
      Ret (header ++ (if len body >? 0 then body else []), set_resp_Header p (SetHeaderLength h (len header)))
  end.

(** ** The loop *)

Record config := mkConfig {
  MaxHeaderBytes : Z;
  MaxRequestBodySize : Z;
  DisableKeepalive : bool;
  DisableHeaderNamesNormalizing : bool
}.

Inductive ending : Type :=
| errIdleTimeout
| errParseRequest
| errReadBody (e : bodyErr).

(** The reader, the objects of the context, what has been written, and the requests the
    handler has been called with. *)
Record conn := mkConn {
  cn_r : reader;
  cn_req : Request;
  cn_resp : Response;
  cn_out : bytes;
  cn_calls : list Request
}.

Context (cf : config) (core : Request -> Response -> Response) (date : nat -> bytes) (running : nat -> bool).

(** The part of a round behind the call of the handler. *)
Definition finish (i : nat) (q : Request) (p : Response) : outcome (bytes * Response) :=
  let connectionClose := DisableKeepalive cf || ReqHeader.connectionClose (req_Header q) || negb (running i) || RespHeader.connectionClose (resp_Header p) in
  run h <- (if connectionClose then RespHeader.SetCanonical (resp_Header p) (str "Connection") (str "close")
            else if negb (ReqHeader.IsHTTP11 (req_Header q)) then RespHeader.SetCanonical (resp_Header p) (str "Connection") (str "keep-alive")
            else Ret (resp_Header p));
  writeResponse (date i) (set_resp_Header p h).

(** Round [i] and those behind it. *)
Fixpoint serve_loop (fuel : nat) (i : nat) (c : conn) : outcome (conn * ending) :=
  match fuel with
  | O => OutOfFuel
  | S fuel =>
      let '(r, idle) := match i with O => (cn_r c, Some []) | S _ => ReqParse.Peek (cn_r c) 4 end in
      match idle with
      | None => Ret (mkConn r (cn_req c) (cn_resp c) (cn_out c) (cn_calls c), errIdleTimeout)
      | Some _ =>
          let q := if DisableHeaderNamesNormalizing cf then set_req_Header (cn_req c) (ReqHeader.DisableNormalizing (req_Header (cn_req c))) else cn_req c in
          let p := if DisableHeaderNamesNormalizing cf then set_resp_Header (cn_resp c) (RespHeader.DisableNormalizing (resp_Header (cn_resp c))) else cn_resp c in
          run (h, r, err) <- ReadHeaderWithLimit (req_Header q) r (MaxHeaderBytes cf);
          let q := set_req_Header q h in
          match err with
          | Some _ =>
              Ret (mkConn r q (core q p) (cn_out c) (cn_calls c ++ [q]), errParseRequest)
          | None =>
              run (q, r, err) <- ReadLimitBody q r (MaxRequestBodySize cf);
              match err with
              | Some e => Ret (mkConn r q p (cn_out c) (cn_calls c), errReadBody e)
              | None =>
                  run (b, p) <- finish i q (core q p);
                  serve_loop fuel (S i) (mkConn r (req_Reset q) (resp_Reset p) (cn_out c ++ b) (cn_calls c ++ [q]))
              end
          end
      end
  end.

(** A round takes an octet at least. *)
Definition Serve (r : reader) (q : Request) (p : Response) : outcome (conn * ending) :=
  serve_loop (S (S (length (stream r)))) 0 (mkConn r q p [] []).
End Body.
