(* ===== verification/Http1Serve.v ===== *)
(** * The HTTP/1 server: a connection is a conversation

    Requests that arrive one behind the other on a connection are handed to the handler
    one by one, each with its body, and answered in order.  And what happens to requests
    that are not of that kind. *)

From S2P Require Import Prelude Bytes BytesConv Args ArgsSpec HeaderScan Trailer RespHeader ReqHeader ReqParse ReqRound ReqSend ReqFraming BodyRead BodySpec Http1.

(** ** Messages *)

(** What a client sends: a header and a body. *)
Record message := mkMsg { m_h : RequestHeader; m_body : bytes }.

Definition text (m : message) : bytes := ReqHeader.AppendBytes (m_h m) [] ++ m_body m.

(** The length announced is that of the body, within the limits of the server, and the
    client does not wait for a go-ahead. *)
Record message_ok (cf : config) (m : message) : Prop := {
  mo_sendable : exists pre post, sendable (m_h m) pre [] post;
  mo_length : contentLengthBytes (m_h m) = [] /\ m_body m = [] \/
              contentLengthBytes (m_h m) = itoa (ReqHeader.contentLength (m_h m)) /\ ReqHeader.contentLength (m_h m) = len (m_body m);
  mo_header : MaxHeaderBytes cf <= 0 \/ len (ReqHeader.AppendBytes (m_h m) []) <= MaxHeaderBytes cf;
  mo_body : MaxRequestBodySize cf <= 0 \/ len (m_body m) <= MaxRequestBodySize cf;
  mo_expect : ReqHeader.peek (received (m_h m) [] newRequestHeader) (str "Expect") <> str "100-continue"
}.

(** ** The server on messages *)

Definition no_length (h : RequestHeader) : RequestHeader :=
  ReqHeader.set_h (ReqHeader.SetContentLengthBytes (ReqHeader.InitContentLengthWithValue h 0) (str "0"))
    (delAllArgsBytes (rq_h h) (str "Transfer-Encoding")).

Section Server.
Context (poolCap : Z) (cf : config) (core : Request -> Response -> Response) (date : nat -> bytes) (running : nat -> bool).

(** The request object with a message in it. *)
Definition delivered (q : Request) (m : message) : Request :=
  let h := received (m_h m) [] (req_Header q) in
  let q := set_req_Header q h in
  if ReqHeader.contentLength h >? 0 then req_SetBodyRaw q (m_body m)
  else if ReqHeader.contentLength h =? -2 then if IgnoreBody h then q else set_req_Header q (no_length h)
  else mkRequest (no_length h) (Some (mkSlice [] (sl_cap (req_BodyBuffer poolCap q)))) None (req_maxKeepBodySize q).

(** The requests the handler is called with, and what is written. *)
Fixpoint conversation (i : nat) (q : Request) (p : Response) (ms : list message) : outcome (list Request * bytes) :=
  match ms with
  | [] => Ret ([], [])
  | m :: ms =>
      let q := delivered q m in
      run (b, p) <- finish cf date running i q (core q p);
      run (qs, out) <- conversation (S i) (req_Reset q) (resp_Reset p) ms;
      Ret (q :: qs, b ++ out)
  end.

(** ** A response can always be written *)

Lemma AppendUint_returns b n : 0 <= n -> exists b', AppendUint b n = Ret b'.
Proof. intros Hn. unfold AppendUint. rewrite (proj2 (Z.ltb_ge _ _)) by lia. by eexists. Qed.

Lemma finish_returns i q p : exists b p', finish cf date running i q p = Ret (b, p').
Proof.
  unfold finish. cbv zeta.
  assert (exists h, (if DisableKeepalive cf || ReqHeader.connectionClose (req_Header q) || negb (running i) || RespHeader.connectionClose (resp_Header p)
    then RespHeader.SetCanonical (resp_Header p) (str "Connection") (str "close")
    else if negb (ReqHeader.IsHTTP11 (req_Header q)) then RespHeader.SetCanonical (resp_Header p) (str "Connection") (str "keep-alive")
    else Ret (resp_Header p)) = Ret h) as [h ->] by (repeat case_if; by eexists).
  cbn [outcome_bind]. unfold writeResponse. destruct (hijackWriter (set_resp_Header p h)); [by eexists _, _|].
  unfold RespHeader.SetContentLength. case_if; [by eexists _, _|]. rewrite (proj2 (Z.geb_le _ _)) by apply len_nonneg.
  destruct (AppendUint_returns [] (len (resp_BodyBytes (set_resp_Header p h))) (len_nonneg _)) as [d ->]. by eexists _, _.
Qed.

(** ** One round *)

Lemma SetContentLength_0 h : ReqHeader.SetContentLength h 0 = Ret (no_length h).
Proof. reflexivity. Qed.

Lemma received_length m : message_ok cf m -> forall h0,
  ReqHeader.contentLength (received (m_h m) [] h0) = match contentLengthBytes (m_h m) with [] => -2 | _ => len (m_body m) end.
Proof. intros [_ Hl _ _ _] h0. cbn. destruct Hl as [[-> _]|[E Hl]]; [done|]. by destruct (contentLengthBytes (m_h m)). Qed.

Lemma read_message m q r rest : message_ok cf m -> disableNormalizing (req_Header q) = false -> rq_trailer (req_Header q) = newTrailer ->
  stream r = text m ++ rest ->
  exists r1 r2, ReadHeaderWithLimit (req_Header q) r (MaxHeaderBytes cf) = Ret (received (m_h m) [] (req_Header q), r1, None) /\
    ReadLimitBody poolCap (set_req_Header q (received (m_h m) [] (req_Header q))) r1 (MaxRequestBodySize cf) = Ret (delivered q m, r2, None) /\
    stream r2 = rest.
Proof.
  intros Hm Hd Ht E. pose proof (received_length m Hm (req_Header q)) as Hcl. destruct Hm as [(pre & post & Hs) Hl Hh Hb He].
  unfold text in E. rewrite <- app_assoc in E.
  destruct (sent_header_read (m_h m) (req_Header q) pre [] post r (m_body m ++ rest) (MaxHeaderBytes cf) Hs Hd Hh E) as (r1 & E1 & E2).
  fold (stream r1) in E2. exists r1. rewrite E1.
  assert (received (m_h m) [] newRequestHeader = received (m_h m) [] (req_Header q)) as Er by (unfold received; by rewrite Ht). rewrite Er in He.
  set (h := received (m_h m) [] (req_Header q)) in *. unfold ReadLimitBody, MayContinue. cbn [req_Header set_req_Header].
  rewrite (proj2 (bytes_eqb_neq _ _)) by done. unfold ContinueReadBody, delivered. cbn [req_Header set_req_Header]. fold h. cbv zeta. rewrite Hcl.
  destruct Hl as [[El Eb]|[El Eb]].
  - rewrite El. cbn [Z.gtb Z.compare Z.eqb Pos.eqb]. rewrite Eb in E2. exists r1. split_and!; [done| |done]. by destruct (IgnoreBody h).
  - destruct (itoa_first (ReqHeader.contentLength (m_h m))) as (x & y & Ex & _); [rewrite Eb; apply len_nonneg|]. rewrite El, Ex.
    pose proof (len_nonneg (m_body m)). destruct (len (m_body m) >? 0) eqn:E0; breflect.
    + assert ((MaxRequestBodySize cf >? 0) && (len (m_body m) >? MaxRequestBodySize cf) = false) as ->.
      { destruct (MaxRequestBodySize cf >? 0) eqn:?; [|done]. cbn. destruct (len (m_body m) >? MaxRequestBodySize cf) eqn:?; breflect; lia. }
      destruct (Peek_Skip r1 (len (m_body m)) (m_body m) rest E2 eq_refl) as (r2 & r3 & -> & -> & _ & E3). by exists r3.
    + assert (m_body m = []) as Em by (apply len_0_inv; lia). rewrite Em in *. exists r1. split_and!; [done| |done].
      change (len (@nil Z)) with 0. unfold ReadBody.
      assert ((MaxRequestBodySize cf >? 0) && (0 >? MaxRequestBodySize cf) = false) as ->.
      { destruct (MaxRequestBodySize cf >? 0) eqn:?; [|done]. cbn. destruct (0 >? MaxRequestBodySize cf) eqn:?; breflect; lia. }
      cbn. by rewrite SetContentLength_0.
Qed.

(** The object between two requests. *)
Record fresh (q : Request) : Prop := {
  fr_normalizing : disableNormalizing (req_Header q) = false;
  fr_trailer : rq_trailer (req_Header q) = newTrailer;
  fr_body : req_BodyBytes q = []
}.

Lemma Reset_fresh q : fresh (req_Reset q).
Proof.
  split; [done|done|]. unfold req_Reset, req_ResetBody, req_BodyBytes, keep_body. cbn. destruct (req_body q); [|done]. by case_if.
Qed.

Lemma delivered_view q m : message_ok cf m -> fresh q ->
  Method (req_Header (delivered q m)) = Method (m_h m) /\ RequestURI (req_Header (delivered q m)) = RequestURI (m_h m) /\
  req_BodyBytes (delivered q m) = m_body m.
Proof.
  intros Hm [_ _ Hq]. pose proof (received_length m Hm (req_Header q)) as Hcl. unfold delivered. cbv zeta. rewrite Hcl.
  destruct Hm as [(pre & post & Hs) Hl _ _ _]. set (h := received (m_h m) [] (req_Header q)) in *.
  assert (Method h = Method (m_h m) /\ RequestURI h = RequestURI (m_h m)) as [E1 E2].
  { destruct (sd_target _ _ _ _ Hs) as [Hmt _ Hu _ _]. change (Method h) with (if len (Method (m_h m)) =? 0 then str "GET" else Method (m_h m)).
    change (RequestURI h) with (if len (RequestURI (m_h m)) =? 0 then str "/" else RequestURI (m_h m)).
    assert (forall b : bytes, b <> [] -> (len b =? 0) = false) as Hne by (intros [|x b] ?; [done|]; apply Z.eqb_neq; glen). by rewrite !Hne by done. }
  assert (forall g, Method (no_length g) = Method g /\ RequestURI (no_length g) = RequestURI g) as Hn by done.
  assert (contentLengthBytes (m_h m) = [] /\ m_body m = [] \/ exists x y, contentLengthBytes (m_h m) = x :: y) as Hc.
  { destruct Hl as [?|[El Eb]]; [by left|right]. rewrite El. destruct (itoa_first (contentLength (m_h m))) as (x & y & -> & _); [rewrite Eb; apply len_nonneg|by exists x, y]. }
  pose proof (len_nonneg (m_body m)). destruct (Hn h) as [N1 N2].
  destruct Hc as [[-> Eb]|(x & y & ->)].
  - cbn [Z.gtb Z.compare Z.eqb Pos.eqb]. rewrite Eb. case_if; cbn [req_Header set_req_Header]; split_and!; try congruence; exact Hq.
  - case_if; [done|]. breflect. rewrite (proj2 (Z.eqb_neq _ _)) by lia. cbn [req_Header]. split_and!; try congruence.
    symmetry. apply len_0_inv. lia.
Qed.

Lemma text_long m : message_ok cf m -> 4 <= len (text m).
Proof.
  intros [(pre & post & Hs) _ _ _ _]. unfold text. rewrite (AppendBytes_block _ _ _ _ Hs). unfold head_bytes, first_line, HTTP11.
  rewrite !len_app, !len_cons, !len_app, !len_cons, !len_app. change (len (str "HTTP/1.1")) with 8. len_facts. lia.
Qed.

(** ** All rounds *)

Lemma serve_loop_conversation ms : forall fuel i c, (length ms < fuel)%nat -> (i = 0%nat -> ms <> []) ->
  DisableHeaderNamesNormalizing cf = false -> Forall (message_ok cf) ms -> fresh (cn_req c) -> stream (cn_r c) = concat (text <$> ms) ->
  exists qs out c', conversation i (cn_req c) (cn_resp c) ms = Ret (qs, out) /\
    serve_loop poolCap cf core date running fuel i c = Ret (c', errIdleTimeout) /\ cn_calls c' = cn_calls c ++ qs /\ cn_out c' = cn_out c ++ out /\
    ((fun q => (Method (req_Header q), RequestURI (req_Header q), req_BodyBytes q)) <$> qs) = ((fun m => (Method (m_h m), RequestURI (m_h m), m_body m)) <$> ms).
Proof.
  induction ms as [|m ms IH]; intros fuel i c Hf Hi Hdis Hms Hq E; (destruct fuel as [|fuel]; [lia|]); cbn [serve_loop conversation].
  - destruct i as [|i]; [by destruct (Hi eq_refl)|]. destruct (Peek_none (cn_r c) 4) as (r' & -> & _); [by rewrite E|].
    eexists [], [], _. cbn. rewrite !app_nil_r. split_and!; done.
  - apply Forall_cons in Hms as [Hm Hms]. rewrite fmap_cons in E. cbn [concat] in E. pose proof (text_long m Hm) as Hl.
    assert (exists r1 x, match i with O => (cn_r c, Some []) | S _ => ReqParse.Peek (cn_r c) 4 end = (r1, Some x) /\ stream r1 = stream (cn_r c)) as (r1 & x & -> & E1).
    { destruct i; [by eexists _, _|]. destruct (Peek_some (cn_r c) 4) as (r1 & -> & E1 & _); [rewrite E; glen|]. by eexists _, _. }
    rewrite E in E1. rewrite Hdis. destruct Hq as [H1 H2 H3].
    destruct (read_message m (cn_req c) r1 _ Hm H1 H2 E1) as (r2 & r3 & -> & E3 & E4). cbn [outcome_bind].
    rewrite E3. cbn [outcome_bind]. set (q := delivered (cn_req c) m).
    destruct (finish_returns i q (core q (cn_resp c))) as (b & p & ->). cbn [outcome_bind].
    destruct (IH fuel (S i) (mkConn r3 (req_Reset q) (resp_Reset p) (cn_out c ++ b) (cn_calls c ++ [q]))) as (qs & out & c' & F1 & F2 & F3 & F4 & F5);
      try done; [simpl in Hf; lia|apply Reset_fresh|]. cbn [cn_req cn_resp cn_calls cn_out] in *.
    exists (q :: qs), (b ++ out), c'. rewrite F1. split_and!; [done|done| | |].
    + by rewrite F3, <- app_assoc.
    + by rewrite F4, <- app_assoc.
    + rewrite !fmap_cons, F5. f_equal. destruct (delivered_view (cn_req c) m Hm) as (V1 & V2 & V3); [by split|]. unfold q. by rewrite V1, V2, V3.
Qed.

Lemma concat_long ms : Forall (message_ok cf) ms -> (length ms <= length (concat (text <$> ms)))%nat.
Proof.
  induction 1 as [|m ms Hm _ IH]; [done|]. rewrite fmap_cons. cbn [concat length]. rewrite length_app.
  pose proof (text_long m Hm) as H. unfold len in H. lia.
Qed.
End Server.

(** C4: A connection on which requests with bodies of announced length arrive, in whatever
    pieces and however many at once, is a conversation: the handler is called with each
    request in turn, with its method, target, fields and body, and what is written are the
    responses in that order; nothing of a body is taken for a request, and when the client
    closes the connection the server ends it. *)
Theorem serve_conversation (poolCap : Z) (cf : config) (core : Request -> Response -> Response) (date : nat -> bytes) (running : nat -> bool)
    (ms : list message) (r : reader) :
  ms <> [] -> DisableHeaderNamesNormalizing cf = false -> Forall (message_ok cf) ms -> stream r = concat (text <$> ms) ->
  exists qs out c, conversation poolCap cf core date running 0 newRequest newResponse ms = Ret (qs, out) /\
    Serve poolCap cf core date running r newRequest newResponse = Ret (c, errIdleTimeout) /\ cn_calls c = qs /\ cn_out c = out /\
    ((fun q => (Method (req_Header q), RequestURI (req_Header q), req_BodyBytes q)) <$> qs) = ((fun m => (Method (m_h m), RequestURI (m_h m), m_body m)) <$> ms).
Proof.
  intros Hne Hd Hms E. apply (serve_loop_conversation poolCap cf core date running ms (S (S (length (stream r)))) 0 (mkConn r newRequest newResponse [] []));
    try done. rewrite E. pose proof (concat_long cf ms Hms). lia.
Qed.

Module ServeSample.
Definition cf : config := mkConfig 1000 100 false false.

(** A handler that sends back the body it has got, with the status it has been told. *)
Definition echo (status : Z) (q : Request) (p : Response) : Response :=
  mkResponse (SetStatusCode (resp_Header p) status) None (Some (str "x" ++ req_BodyBytes q)) 0 false None.

Definition date (i : nat) : bytes := str "now".
Definition running (i : nat) : bool := true.

Definition hello : message := mkMsg ReqFraming.Sample.sample (str "hello").
Definition two : bytes := text hello ++ text hello.
Definition pieces : reader := mkReader (take 20 two) [take 100 (drop 20 two); drop 120 two].

Lemma hello_ok : message_ok cf hello.
Proof.
  split.
  - eexists _, _. apply ReqFraming.Sample.sample_sendable.
  - right. split; vm_compute; reflexivity.
  - right. by apply (bool_decide_unpack _).
  - right. by apply (bool_decide_unpack _).
  - by vm_compute.
Qed.

Lemma serve_conversation_witness :
  exists qs out c, conversation 0 cf (echo 200) date running 0 newRequest newResponse [hello; hello] = Ret (qs, out) /\
    Serve 0 cf (echo 200) date running pieces newRequest newResponse = Ret (c, errIdleTimeout) /\ cn_calls c = qs /\ cn_out c = out /\
    ((fun q => (Method (req_Header q), RequestURI (req_Header q), req_BodyBytes q)) <$> qs) =
      [(str "POST", str "/a?b=c", str "hello"); (str "POST", str "/a?b=c", str "hello")].
Proof.
  apply (serve_conversation 0 cf (echo 200) date running [hello; hello] pieces); [done|reflexivity| |vm_eq].
  apply Forall_cons. split; [apply hello_ok|]. apply Forall_singleton, hello_ok.
Defined.

(** The calls of the handler on the octets of a connection, and how it ends. *)
Definition calls (b : bytes) : option (list (bytes * bytes * bytes) * ending) :=
  match Serve 0 cf (echo 200) date running (mkReader b []) newRequest newResponse with
  | Ret (c, e) => Some ((fun q => (Method (req_Header q), RequestURI (req_Header q), req_BodyBytes q)) <$> cn_calls c, e)
  | _ => None
  end.

Definition written (status : Z) (b : bytes) : bytes :=
  match Serve 0 cf (echo status) date running (mkReader b []) newRequest newResponse with Ret (c, _) => cn_out c | _ => [] end.

Definition lines (l : list string) : bytes := ReqFraming.Sample.lines l.

(** Where the server does not do what it should.  The empty line behind the last chunk
    stays in the connection, so that no request is read behind a chunked one.  The body of a
    request that waits for a go-ahead is read as the next request.  A connection the client
    or the server has announced to close is served on.  When no request can be read, and
    even when the client has sent nothing, the handler is called for the root.  And a body
    is written behind the header of a response that must not have one. *)
Theorem serve_defects :
  calls (lines ["POST /a HTTP/1.1"; "Transfer-Encoding: chunked"]%string ++ lines ["2"; "hi"; "0"]%string ++ lines ["GET /b HTTP/1.1"]%string) =
    Some ([(str "POST", str "/a", str "hi"); (str "GET", str "/", [])], errParseRequest) /\
  calls (lines ["POST /a HTTP/1.1"; "Expect: 100-continue"; "Content-Length: 19"]%string ++ lines ["GET /b HTTP/1.1"]%string) =
    Some ([(str "POST", str "/a", []); (str "GET", str "/b", [])], errIdleTimeout) /\
  calls (lines ["GET /a HTTP/1.1"; "Connection: close"]%string ++ lines ["GET /b HTTP/1.1"]%string) =
    Some ([(str "GET", str "/a", []); (str "GET", str "/b", [])], errIdleTimeout) /\
  calls [] = Some ([(str "GET", str "/", [])], errParseRequest) /\
  calls (str "junk" ++ CRLF) = Some ([(str "GET", str "/", [])], errParseRequest) /\
  written 204 (lines ["GET / HTTP/1.1"]%string) =
    lines ["HTTP/1.1 204 No Content"; "Date: now"]%string ++ str "x" /\
  written 200 (lines ["HEAD / HTTP/1.1"]%string) =
    lines ["HTTP/1.1 200 OK"; "Date: now"; "Content-Type: text/plain; charset=utf-8"; "Content-Length: 1"]%string ++ str "x".
Proof. split_and!; vm_eq. Qed.
End ServeSample.
