(* ===== verification/NetConn.v ===== *)
(** * Connections: the linked buffers behind the readers and writers

    [web/network/standard/buffer.go] and [connection.go].  Octets from the socket go into
    a chain of nodes, those to the socket wait in another.  The chain has three pointers,
    [head], [read] and [write]: it is modelled as the nodes before the one that is read,
    that node, and the nodes behind it, the last of which is written.  Of the array of a
    node the part that has been written is kept ([nd_data], whose length is the field
    [malloc]) and its capacity.

    The socket is what its calls return, one after the other, and end of file from then
    on; the sizes that the allocator rounds up to ([mcap], the package mcache) are a
    parameter.  Not modelled: the slices Peek has allocated (they are only given back to
    the allocator), deadlines, and the wrapper that watches for a closed peer. *)

From S2P Require Import Prelude Bytes.

Definition block1k : Z := 1024.
Definition block4k : Z := 4096.
Definition block8k : Z := 8192.
Definition mallocMax : Z := block1k * 512.
Definition defaultMallocSize : Z := block4k.

Inductive netErr : Type :=
| netEOF
| netOther (code : Z)
| errNotEnough
| ErrNoProgress.

#[export] Instance netErr_eq_dec : EqDecision netErr.
Proof. solve_decision. Defined.

(** ** Nodes *)

Record node := mkNode {
  nd_data : bytes;
  nd_cap : Z;
  nd_off : Z;
  nd_readOnly : bool
}.

Definition malloc (nd : node) : Z := len (nd_data nd).
Definition node_Len (nd : node) : Z := malloc nd - nd_off nd.
Definition node_Cap (nd : node) : Z := nd_cap nd - malloc nd.
Definition node_Reset (nd : node) : node := mkNode [] (nd_cap nd) 0 false.
Definition recyclable (nd : node) : bool := (nd_cap nd <=? block8k) && negb (nd_readOnly nd).

(** [buf[off:malloc]] *)
Definition node_rest (nd : node) : bytes := zdrop (nd_off nd) (nd_data nd).

Definition node_write (nd : node) (b : bytes) : node := mkNode (nd_data nd ++ b) (nd_cap nd) (nd_off nd) (nd_readOnly nd).
Definition node_skip (nd : node) (n : Z) : node := mkNode (nd_data nd) (nd_cap nd) (nd_off nd + n) (nd_readOnly nd).
Definition node_mark (nd : node) (ro : bool) : node := mkNode (nd_data nd) (nd_cap nd) (nd_off nd) ro.

(** What one call of the socket's Read has to give: octets, and an error with the last
    of them. *)
Abbreviation received := (bytes * option netErr)%type.

Section Alloc.
Context (mcap : Z -> Z).

(** malloc: larger blocks are not taken from the allocator. *)
Definition newBufferNode (size : Z) : node :=
  mkNode [] (if size >? mallocMax then size else mcap size) 0 false.

(** ** Reading *)

Record Conn := mkConn {
  c_sock : list received;
  c_before : list node;
  c_read : node;
  c_after : list node;
  c_len : Z;
  c_maxSize : Z;
  c_err : option netErr
}.

Definition newConn (sock : list received) (size : Z) : Conn :=
  let maxSize := if size >? defaultMallocSize then size else defaultMallocSize in
  mkConn sock [] (newBufferNode maxSize) [] 0 maxSize None.

Definition Len (c : Conn) : Z := c_len c.

Definition set_err (c : Conn) (e : option netErr) : Conn :=
  mkConn (c_sock c) (c_before c) (c_read c) (c_after c) (c_len c) (c_maxSize c) e.

Definition readErr (c : Conn) : Conn * option netErr := (set_err c None, c_err c).

Definition write_node (c : Conn) : node := default (c_read c) (last (c_after c)).

Definition on_write (c : Conn) (f : node -> node) : Conn :=
  match c_after c with
  | [] => mkConn (c_sock c) (c_before c) (f (c_read c)) [] (c_len c) (c_maxSize c) (c_err c)
  | _ => mkConn (c_sock c) (c_before c) (c_read c) (alter f (pred (length (c_after c))) (c_after c)) (c_len c) (c_maxSize c) (c_err c)
  end.

Definition push_node (c : Conn) (nd : node) : Conn :=
  mkConn (c_sock c) (c_before c) (c_read c) (c_after c ++ [nd]) (c_len c) (c_maxSize c) (c_err c).

(** The loop of fill over the socket: [room] octets fit into the node, [i] are asked
    for.  The octets read, what is left of the socket, the error to keep and the one to
    return.  A full node would be read into for ever. *)
Fixpoint fill_loop (sock : list received) (room i : Z) (got : bytes) : outcome (bytes * list received * option netErr * option netErr) :=
  if i <=? 0 then Ret (got, sock, None, None)
  else match sock with
       | [] => Ret (got, [], None, Some netEOF)
       | (p, e) :: sock =>
           if len p <=? room then
             match e with
             | Some e => Ret (got ++ p, sock, if len p >? 0 then Some e else None, if len p >? 0 then None else Some e)
             | None => fill_loop sock (room - len p) (i - len p) (got ++ p)
             end
           else if i - room <=? 0 then Ret (got ++ ztake room p, (zdrop room p, e) :: sock, None, None)
           else OutOfFuel
       end.

Definition fill (c : Conn) (i : Z) : outcome (Conn * option netErr) :=
  if Len c >=? i then Ret (c, None)
  else
    let '(c, err) := readErr c in
    match err with
    | Some e => if Len c >? 0 then Ret (set_err c (Some e), None) else Ret (c, Some e)
    | None =>
        let nd := write_node c in
        let c := if (node_Cap nd <? i - Len c) || nd_readOnly nd
                 then push_node (on_write c (fun nd => node_mark nd false)) (newBufferNode (if i <? c_maxSize c then c_maxSize c else i))
                 else c in
        run (got, sock, keep, err) <- fill_loop (c_sock c) (node_Cap (write_node c)) (i - Len c) [];
        let c := on_write c (fun nd => node_write nd got) in
        Ret (mkConn sock (c_before c) (c_read c) (c_after c) (c_len c + len got) (c_maxSize c) keep, err)
    end.

Fixpoint peekBuffer (nodes : list node) (ack : Z) : outcome bytes :=
  if ack <=? 0 then Ret []
  else match nodes with
       | [] => Panic
       | nd :: nodes =>
           let l := node_Len nd in
           if l >=? ack then Ret (ztake ack (node_rest nd))
           else run b <- peekBuffer nodes (ack - l); Ret ((if l >? 0 then node_rest nd else []) ++ b)
       end.

Definition Peek (c : Conn) (i : Z) : outcome (Conn * bytes * option netErr) :=
  run (c, err) <- fill c i;
  match err with
  | Some e => Ret (c, [], Some e)
  | None =>
      let '(c, i, err) := if Len c <? i then let '(c, e) := readErr c in (c, Len c, e) else (c, i, None) in
      if node_Len (c_read c) >=? i then if i <? 0 then Panic else Ret (c, ztake i (node_rest (c_read c)), err)
      else run b <- peekBuffer (c_read c :: c_after c) i; Ret (c, b, err)
  end.

(** The loop of Skip along the chain. *)
Fixpoint skip_nodes (before : list node) (nd : node) (after : list node) (ack : Z) : outcome (list node * node * list node) :=
  if ack <=? 0 then Ret (before, nd, after)
  else
    let l := node_Len nd in
    if l >=? ack then Ret (before, node_skip nd ack, after)
    else match after with
         | [] => Panic
         | nd' :: after => skip_nodes (before ++ [nd]) nd' after (ack - l)
         end.

Definition Skip (c : Conn) (n : Z) : outcome (Conn * option netErr) :=
  if Len c <? n then Ret (c, Some errNotEnough)
  else
    run (before, nd, after) <- skip_nodes (c_before c) (c_read c) (c_after c) n;
    Ret (mkConn (c_sock c) before nd after (c_len c - n) (c_maxSize c) (c_err c), None).

(** handleTail: the node that is left for the next request. *)
Definition handleTail (c : Conn) (nd : node) : node :=
  if nd_cap nd >? mallocMax then newBufferNode (c_maxSize c) else node_Reset nd.

Definition grow (maxSize size : Z) : Z :=
  let size := if size >? mallocMax then mallocMax else size in if size >? maxSize then size else maxSize.

(** The sizes Release adds up: of every node behind one that it gives back. *)
Definition released_size (before : list node) (nd : node) : Z := foldr (fun nd s => malloc nd + s) 0 (drop 1 (before ++ [nd])).

Definition release_passed (c : Conn) : Conn :=
  let c' := on_write c (fun nd => node_mark nd true) in
  mkConn (c_sock c) [] (c_read c') (c_after c') (c_len c) (grow (c_maxSize c) (released_size (c_before c) (c_read c))) (c_err c).

Definition Release (c : Conn) : Conn :=
  if Len c =? 0 then
    match c_before c, c_after c with
    | [], [] => mkConn (c_sock c) [] (node_Reset (c_read c)) [] (c_len c) (c_maxSize c) (c_err c)
    | [hd], [] => 
        let maxSize := grow (c_maxSize c) (malloc hd + malloc (c_read c)) in
        let c := mkConn (c_sock c) [] (c_read c) [] (c_len c) maxSize (c_err c) in
        mkConn (c_sock c) [] (handleTail c (c_read c)) [] (c_len c) maxSize (c_err c)
    | [], [tl] =>
        let maxSize := grow (c_maxSize c) (malloc (c_read c) + malloc tl) in
        let c := mkConn (c_sock c) [] (c_read c) [] (c_len c) maxSize (c_err c) in
        mkConn (c_sock c) [] (handleTail c tl) [] (c_len c) maxSize (c_err c)
    | _, _ => release_passed c
    end
  else release_passed c.

(** next: copies octets out and gives back what has been read. *)
Definition next (c : Conn) (length : Z) : outcome (Conn * bytes * option netErr) :=
  run b <- peekBuffer (c_read c :: c_after c) length;
  run (c, err) <- Skip c length;
  match err with
  | Some e => Ret (c, b, Some e)
  | None => Ret (Release c, b, None)
  end.

(** One call of the socket's Read. *)
Definition sock_Read (sock : list received) (room : Z) : list received * bytes * option netErr :=
  match sock with
  | [] => ([], [], Some netEOF)
  | (p, e) :: sock => if len p <=? room then (sock, p, e) else ((zdrop room p, e) :: sock, ztake room p, None)
  end.

(** Read into a slice of [n] octets. *)
Definition Read (c : Conn) (n : Z) : outcome (Conn * bytes * option netErr) :=
  if Len c >? 0 then next c (Z.min (Len c) n)
  else if n <=? block4k then
    run (c, err) <- fill c 1;
    match err with
    | Some e => Ret (c, [], Some e)
    | None => next c (Z.min (Len c) n)
    end
  else
    let '(sock, b, err) := sock_Read (c_sock c) n in
    Ret (mkConn sock (c_before c) (c_read c) (c_after c) (c_len c) (c_maxSize c) (c_err c), b, err).

Definition ReadByte (c : Conn) : outcome (Conn * Z * option netErr) :=
  run (c, b, err) <- Peek c 1;
  match err with
  | Some e => Ret (c, 32, Some e)
  | None =>
      run (c, err) <- Skip c 1;
      match err with
      | Some e => Ret (c, 32, Some e)
      | None => run x <- deref (head b); Ret (c, x, None)
      end
  end.

Definition ReadBinary (c : Conn) (i : Z) : outcome (Conn * bytes * option netErr) :=
  run (c, b, err) <- Peek c i;
  match err with
  | Some e => Ret (c, [], Some e)
  | None => run (c, err) <- Skip c i; Ret (c, b, err)
  end.

(** ** Writing *)

(** The nodes before the one that is written, that node, and the room [len] that Malloc
    may use of it; and what has reached the socket. *)
Record Out := mkOut {
  o_full : list node;
  o_write : node;
  o_len : Z;
  o_sent : bytes
}.

Definition newOut : Out := mkOut [] (newBufferNode 0) 0 [].

(** Malloc and what the caller writes into the slice it gets; a node cannot be sliced
    beyond its array. *)
Definition Malloc (o : Out) (b : bytes) : outcome Out :=
  let n := len b in
  if n =? 0 then Ret o
  else if o_len o >? n then
    let nd := node_write (o_write o) b in
    if malloc nd >? nd_cap nd then Panic else Ret (mkOut (o_full o) nd (o_len o - n) (o_sent o))
  else
    let nd := node_write (newBufferNode (if n <? defaultMallocSize then defaultMallocSize else n)) b in
    Ret (mkOut (o_full o ++ [o_write o]) nd (nd_cap nd - n) (o_sent o)).

Definition WriteBinary (o : Out) (b : bytes) : outcome Out :=
  if len b <? block4k then Malloc o b
  else Ret (mkOut (o_full o ++ [o_write o]) (mkNode b (len b) 0 true) 0 (o_sent o)).

(** The loop of Flush.  [fails] is what the calls of the socket's Write do: [None]
    writes all, [Some n] fails behind [n] octets; it succeeds behind the end of the list. *)
Fixpoint flush_loop (full : list node) (wr : node) (ln : Z) (sent : bytes) (fails : list (option Z)) : Out * list (option Z) * bool :=
  match fails with
  | Some n :: fails => (mkOut full wr ln (sent ++ ztake n (node_rest (hd wr full))), fails, false)
  | _ =>
      let fails := match fails with _ :: fails => fails | [] => [] end in
      match full with
      | [] =>
          let sent := sent ++ node_rest wr in
          let wr := node_skip wr (node_Len wr) in
          if recyclable wr then (mkOut [] (node_Reset wr) (nd_cap wr) sent, fails, true) else (mkOut [] wr ln sent, fails, true)
      | nd :: full => flush_loop full wr ln (sent ++ node_rest nd) fails
      end
  end.

Definition Flush (o : Out) (fails : list (option Z)) : Out * list (option Z) * bool :=
  match o_full o with
  | [] => if node_Len (o_write o) =? 0 then (o, fails, true) else flush_loop [] (o_write o) (o_len o) (o_sent o) fails
  | nd :: full =>
      if node_Len nd =? 0 then flush_loop full (o_write o) (o_len o) (o_sent o) fails
      else flush_loop (o_full o) (o_write o) (o_len o) (o_sent o) fails
  end.

(** The loop of ReadFrom for a socket without a ReadFrom of its own, where every Write
    succeeds.  [src] are the octets of the source and [e] its error behind them; it
    returns what fits, and nothing when nothing fits.  The result is the number of octets
    taken and the error. *)
Fixpoint readfrom_loop (fuel : nat) (o : Out) (src : bytes) (e : netErr) (n : Z) : outcome (Out * Z * option netErr) :=
  match fuel with
  | O => OutOfFuel
  | S fuel =>
      let o := if node_Cap (o_write o) =? 0 then (Flush o []).1.1 else o in
      let room := node_Cap (o_write o) in
      match src with
      | [] =>
          if negb (bool_decide (e = netEOF)) then Ret (o, n, Some e)
          else if room =? 0 then Ret ((Flush o []).1.1, n, None)
          else Ret (mkOut (o_full o) (o_write o) room (o_sent o), n, None)
      | _ =>
          if room <=? 0 then Ret (o, n, Some ErrNoProgress)
          else
            let b := ztake room src in
            readfrom_loop fuel (mkOut (o_full o) (node_write (o_write o) b) (o_len o) (o_sent o)) (zdrop room src) e (n + len b)
      end
  end.

Definition ReadFrom (o : Out) (src : bytes) (e : netErr) : outcome (Out * Z * option netErr) :=
  let o := (Flush o []).1.1 in
  run o <- (if negb (recyclable (o_write o)) || (nd_cap (o_write o) =? 0)
            then run o <- Malloc o (replicate (Z.to_nat block4k) 0);
                 Ret (mkOut (o_full o) (node_Reset (o_write o)) (nd_cap (o_write o)) (o_sent o))
            else Ret o);
  readfrom_loop (S (length src)) o src e 0.
End Alloc.
