(* ===== verification/NetConnSpec.v ===== *)
(** * Connections implement readers

    The readers of headers and bodies are proved against [ReqParse.reader]: the octets
    held in one buffer and the pieces that will arrive.  The chain of nodes of a
    connection is such a reader, for some cut of the octets into pieces: which one depends
    on the sizes of the nodes.  And what is written to a connection leaves it in order. *)

From S2P Require Import Prelude Bytes BytesConv Args ArgsSpec HeaderScan Trailer ReqHeader ReqParse ReqRound BodyRead BodySpec NetConn.

Lemma ztake_app_ge {A} n (a b : list A) : len a <= n -> ztake n (a ++ b) = a ++ ztake (n - len a) b.
Proof. intros H. unfold ztake, len in *. rewrite take_app, take_ge by lia. do 2 f_equal. lia. Qed.

Lemma zdrop_app_ge {A} n (a b : list A) : len a <= n -> zdrop n (a ++ b) = zdrop (n - len a) b.
Proof. intros H. unfold zdrop, len in *. rewrite drop_app, drop_ge by lia. simpl. f_equal. lia. Qed.

Lemma geb_lt n m : n < m -> (n >=? m) = false.
Proof. intros H. destruct (n >=? m) eqn:E; breflect; [lia|done]. Qed.

(** ** Calls and answers *)

Inductive op : Type :=
| OPeek (n : Z)
| OSkip (n : Z)
| OReadByte
| OReadBinary (n : Z)
| ORead (n : Z)
| OLen
| ORelease.

Inductive answer : Type :=
| Octets (b : bytes)
| Octet (x : Z)
| Count (n : Z)
| Done
| Failed (e : netErr).

Definition reply (e : option netErr) (a : answer) : answer := match e with Some e => Failed e | None => a end.

Definition op_ok (o : op) : Prop :=
  match o with OPeek n | OSkip n | OReadBinary n | ORead n => 0 <= n | _ => True end.

(** The reader that is promised. *)
Definition promised (r : reader) (o : op) : reader * answer :=
  let taken n r := (mkReader (zdrop (Z.min (len (rd_buf r)) n) (rd_buf r)) (rd_wire r), Octets (ztake (Z.min (len (rd_buf r)) n) (rd_buf r))) in
  match o with
  | OPeek n => let '(r, b) := ReqParse.Peek r n in (r, match b with Some b => Octets b | None => Failed netEOF end)
  | OSkip n => let '(r, ok) := BodyRead.Skip r n in (r, if ok then Done else Failed errNotEnough)
  | OReadByte => let '(r, x) := BodyRead.ReadByte r in (r, match x with Some x => Octet x | None => Failed netEOF end)
  | OReadBinary n =>
      match ReqParse.Peek r n with
      | (r, Some b) => ((BodyRead.Skip r n).1, Octets b)
      | (r, None) => (r, Failed netEOF)
      end
  | ORead n =>
      if len (rd_buf r) >? 0 then taken n r
      else if n <=? block4k then
        match ReqParse.Peek r 1 with
        | (r, Some _) => taken n r
        | (r, None) => (r, Failed netEOF)
        end
      else match rd_wire r with
           | [] => (r, Failed netEOF)
           | p :: w => (mkReader (zdrop n p) w, Octets (ztake n p))
           end
  | OLen => (r, Count (len (rd_buf r)))
  | ORelease => (r, Done)
  end.

Fixpoint promised_all (r : reader) (os : list op) : reader * list answer :=
  match os with
  | [] => (r, [])
  | o :: os => let '(r, a) := promised r o in let '(r, l) := promised_all r os in (r, a :: l)
  end.

Section Spec.
Context (mcap : Z -> Z).

Definition exec (c : Conn) (o : op) : outcome (Conn * answer) :=
  match o with
  | OPeek n => run (c, b, e) <- Peek mcap c n; Ret (c, reply e (Octets b))
  | OSkip n => run (c, e) <- Skip c n; Ret (c, reply e Done)
  | OReadByte => run (c, x, e) <- ReadByte mcap c; Ret (c, reply e (Octet x))
  | OReadBinary n => run (c, b, e) <- ReadBinary mcap c n; Ret (c, reply e (Octets b))
  | ORead n => run (c, b, e) <- Read mcap c n; Ret (c, reply e (Octets b))
  | OLen => Ret (c, Count (Len c))
  | ORelease => Ret (Release mcap c, Done)
  end.

Fixpoint exec_all (c : Conn) (os : list op) : outcome (Conn * list answer) :=
  match os with
  | [] => Ret (c, [])
  | o :: os => run (c, a) <- exec c o; run (c, l) <- exec_all c os; Ret (c, a :: l)
  end.

(** ** The invariant *)

Definition node_ok (nd : node) : Prop := 0 <= nd_off nd <= malloc nd /\ malloc nd <= nd_cap nd.

Definition rests (l : list node) : bytes := concat (node_rest <$> l).
Definition buffered (c : Conn) : bytes := rests (c_read c :: c_after c).
Definition coming (sock : list received) : bytes := concat (fst <$> sock).

(** The socket gives octets or fails, as Read is documented. *)
Definition sock_ok (sock : list received) : Prop := Forall (fun r => r.1 <> [] /\ r.2 = None) sock.
Definition cut_ok (w : list bytes) : Prop := Forall (fun p => p <> []) w.

Record inv (c : Conn) : Prop := {
  i_len : c_len c = len (buffered c);
  i_nodes : Forall node_ok (c_read c :: c_after c);
  i_err : c_err c = None;
  i_sock : sock_ok (c_sock c);
  i_max : 0 < c_maxSize c
}.

Context (mcap_ge : forall n, n <= mcap n).

(** ** Along the chain *)

Lemma rests_cons nd l : rests (nd :: l) = node_rest nd ++ rests l.
Proof. done. Qed.

Lemma rests_app k l : rests (k ++ l) = rests k ++ rests l.
Proof. unfold rests. by rewrite fmap_app, concat_app. Qed.

Lemma len_node_rest nd : node_ok nd -> len (node_rest nd) = node_Len nd.
Proof. intros [? ?]. unfold node_rest, node_Len, malloc in *. rewrite len_zdrop by lia. lia. Qed.

Lemma peekBuffer_spec l : forall ack, Forall node_ok l -> ack <= len (rests l) -> peekBuffer l ack = Ret (ztake ack (rests l)).
Proof.
  induction l as [|nd l IH]; intros ack Hl Ha; cbn [peekBuffer]; case_if; breflect.
  - by unfold ztake; replace (Z.to_nat ack) with 0%nat by lia.
  - change (len (rests [])) with 0 in Ha. lia.
  - by unfold ztake; replace (Z.to_nat ack) with 0%nat by lia.
  - apply Forall_cons in Hl as [Hn Hl]. rewrite rests_cons in *. pose proof (len_node_rest nd Hn) as Hr. pose proof (len_nonneg (node_rest nd)).
    case_if; breflect; [by rewrite ztake_app_le by lia|]. rewrite IH by (done || (rewrite len_app in Ha; lia)). cbn [outcome_bind].
    do 2 f_equal. destruct (node_Len nd >? 0) eqn:E; breflect.
    + rewrite ztake_app_ge by lia. by rewrite Hr.
    + assert (node_rest nd = []) as E0 by (apply len_0_inv; lia). rewrite E0 in *. cbn. f_equal. change (len []) with 0 in Hr. lia.
Qed.

Lemma node_skip_ok nd n : node_ok nd -> 0 <= n <= node_Len nd -> node_ok (node_skip nd n) /\ node_rest (node_skip nd n) = zdrop n (node_rest nd).
Proof.
  intros [? ?] Hn. unfold node_ok, node_Len, malloc, node_rest, zdrop in *. cbn [node_skip nd_data nd_off nd_cap]. split; [lia|].
  rewrite drop_drop. f_equal. lia.
Qed.

Lemma skip_nodes_spec after : forall before nd ack, Forall node_ok (nd :: after) -> 0 <= ack <= len (rests (nd :: after)) ->
  exists before' nd' after', skip_nodes before nd after ack = Ret (before', nd', after') /\ Forall node_ok (nd' :: after') /\
    rests (nd' :: after') = zdrop ack (rests (nd :: after)).
Proof.
  induction after as [|nd' after IH]; intros before nd ack Hl Ha; pose proof Hl as Hl'; apply Forall_cons in Hl' as [Hn Hr];
    pose proof (len_node_rest nd Hn) as Hlen; rewrite rests_cons in *; cbn [skip_nodes]; (case_if; breflect;
      [eexists _, _, _; split_and!; [done|done|]; replace ack with 0 by lia; by rewrite zdrop_0|]).
  all: case_if; breflect; [destruct (node_skip_ok nd ack Hn) as [H1 H2]; [lia|]; eexists _, _, _;
    (split_and!; [done|by apply Forall_cons|]); rewrite rests_cons, H2, zdrop_app_le by lia; done|].
  - rewrite len_app in Ha. change (len (rests [])) with 0 in Ha. lia.
  - rewrite zdrop_app_ge, Hlen by lia. rewrite len_app in Ha. apply IH; [done|lia].
Qed.

(** ** The node that is written *)

Lemma nodes_last c : exists k, c_read c :: c_after c = k ++ [write_node c] /\
  forall f, c_read (on_write c f) :: c_after (on_write c f) = k ++ [f (write_node c)].
Proof.
  unfold on_write, write_node. destruct (c_after c) as [|x l] using rev_ind; cbn; [by exists []|].
  exists (c_read c :: l). rewrite last_snoc. cbn. split; [done|]. intros f. destruct (l ++ [x]) eqn:E; [by destruct l|]. rewrite <- E. cbn.
  rewrite length_app. cbn. replace (pred (length l + 1)) with (length l + 0)%nat by lia. by rewrite alter_app_r.
Qed.

Lemma node_write_ok nd b : node_ok nd -> len b <= node_Cap nd -> node_ok (node_write nd b) /\ node_rest (node_write nd b) = node_rest nd ++ b.
Proof.
  intros [? ?] Hb. unfold node_ok, node_Cap, malloc, node_rest in *. cbn [node_write nd_data nd_off nd_cap].
  rewrite len_app. pose proof (len_nonneg b). split; [lia|]. by rewrite zdrop_app_le by lia.
Qed.

Lemma new_node_ok n : 0 <= n -> node_ok (newBufferNode mcap n) /\ n <= node_Cap (newBufferNode mcap n) /\ node_rest (newBufferNode mcap n) = [].
Proof.
  intros Hn. pose proof (mcap_ge n). unfold node_ok, node_Cap, malloc, node_rest. cbn [newBufferNode nd_data nd_off nd_cap].
  change (len []) with 0. split_and!; try done; case_if; lia.
Qed.

(** ** Reading from the socket *)

Lemma coming_cons p e sock : coming ((p, e) :: sock) = p ++ coming sock.
Proof. done. Qed.

(** The octets read are a cut of what was coming, and the pieces of the cut are what the
    promised reader reads to have [i] octets more. *)
Definition loop_reads (sock sock' : list received) (i room : Z) (w : list bytes) (err : option netErr) : Prop :=
  cut_ok w /\ sock_ok sock' /\ concat w ++ coming sock' = coming sock /\ len (concat w) <= room /\
  (err = None /\ (forall buf w2, ReqParse.fill buf (w ++ w2) (len buf + i) = (mkReader (buf ++ concat w) w2, true)) \/
   err = Some netEOF /\ sock' = [] /\ (forall buf, ReqParse.fill buf w (len buf + i) = (mkReader (buf ++ concat w) [], false))).

Lemma fill_loop_spec sock : forall room i got, sock_ok sock -> i <= room -> 0 <= room ->
  exists w sock' err, fill_loop sock room i got = Ret (got ++ concat w, sock', None, err) /\ loop_reads sock sock' i room w err.
Proof.
  assert (forall sock room i got, sock_ok sock -> i <= 0 -> 0 <= room -> exists w sock' err,
    Ret (got, sock, @None netErr, None) = Ret (got ++ concat w, sock', @None netErr, err) /\ loop_reads sock sock' i room w err) as Hend.
  { intros sock' room i got Hs Hi Hr. exists [], sock', None. cbn [concat]. rewrite app_nil_r. split; [done|].
    split; [constructor|]. split_and!; [done|done|done|left; split; [done|]]. intros buf w2. cbn [app concat]. rewrite app_nil_r. by rewrite fill_stays by lia. }
  induction sock as [|[p e] sock IH]; intros room i got Hs Hi Hr; cbn [fill_loop]; (case_if; breflect; [by apply Hend|]).
  - exists [], [], (Some netEOF). rewrite app_nil_r. split; [done|]. unfold loop_reads. split_and!; [constructor|done|done|done|right]. split_and!; [done|done|].
    intros buf. cbn [ReqParse.fill concat]. rewrite app_nil_r. rewrite geb_lt by lia. done.
  - apply Forall_cons in Hs as [[Hp He] Hs]. cbn [fst snd] in Hp, He. subst e.
    assert (forall buf w, ReqParse.fill buf (p :: w) (len buf + i) = ReqParse.fill (buf ++ p) w (len (buf ++ p) + (i - len p))) as Hfill.
    { intros buf w. cbn [ReqParse.fill]. rewrite geb_lt by lia. f_equal. rewrite len_app. lia. }
    case_if; breflect.
    + destruct (IH (room - len p) (i - len p) (got ++ p)) as (w & sock' & err & E & H1 & H2 & H3 & H4 & H5); [done|lia|lia|].
      exists (p :: w), sock', err. rewrite E. cbn [concat]. rewrite <- app_assoc. split; [done|]. unfold loop_reads. cbn [concat].
      split_and!; [by constructor|done| |rewrite len_app; lia|]; [by rewrite coming_cons, <- H3, app_assoc|].
      destruct H5 as [[-> H5]|(-> & -> & H5)]; [left|right]; split_and!; try done; intros buf; [intros w2|]; cbn [app]; by rewrite Hfill, H5, <- app_assoc.
    + rewrite (proj2 (Z.leb_le _ _)) by lia.
      assert (len (ztake room p) = room) as Hl by (apply len_ztake; lia).
      exists [ztake room p], ((zdrop room p, None) :: sock), None. cbn [concat]. rewrite app_nil_r. split; [done|]. unfold loop_reads. cbn [concat]. rewrite app_nil_r. split_and!.
      * constructor; [|done]. intros E. rewrite E, len_nil in Hl. lia.
      * constructor; [|done]. split; [|done]. cbn. intros E. assert (len (zdrop room p) = 0) as E' by by rewrite E. rewrite len_zdrop in E' by lia. lia.
      * rewrite !coming_cons, app_assoc. by rewrite ztake_zdrop.
      * lia.
      * left. split; [done|]. intros buf w2. cbn [app ReqParse.fill]. rewrite geb_lt by lia. apply fill_stays. rewrite len_app. lia.
Qed.

(** ** Each call *)

Definition room_for (c : Conn) (i : Z) : Conn :=
  if (node_Cap (write_node c) <? i - Len c) || nd_readOnly (write_node c)
  then push_node (on_write c (fun nd => node_mark nd false)) (newBufferNode mcap (if i <? c_maxSize c then c_maxSize c else i))
  else c.

Lemma write_push c nd : write_node (push_node c nd) = nd.
Proof. unfold write_node. cbn [push_node c_after]. by rewrite last_snoc. Qed.

Lemma room_for_ok c i : inv c -> Forall node_ok (c_read (room_for c i) :: c_after (room_for c i)) /\ buffered (room_for c i) = buffered c /\
  i - Len c <= node_Cap (write_node (room_for c i)) /\ 0 <= node_Cap (write_node (room_for c i)) /\
  c_sock (room_for c i) = c_sock c /\ c_len (room_for c i) = c_len c /\ c_maxSize (room_for c i) = c_maxSize c.
Proof.
  intros [Hl Hn He Hs Hm]. pose proof (len_nonneg (buffered c)). destruct (nodes_last c) as (k & E & Ew). unfold room_for.
  destruct ((node_Cap (write_node c) <? i - Len c) || nd_readOnly (write_node c)) eqn:Et.
  - set (size := if i <? c_maxSize c then c_maxSize c else i).
    assert (0 <= size /\ i <= size) as [Hz Hi] by (unfold size; case_if; breflect; lia). destruct (new_node_ok size Hz) as (N1 & N2 & N3).
    specialize (Ew (fun nd => node_mark nd false)). unfold buffered, Len. cbn [push_node c_read c_after].
    rewrite app_comm_cons, Ew. rewrite E in Hn. apply Forall_app in Hn as [Hk Hw]. apply Forall_inv in Hw.
    rewrite write_push.
    split_and!; try (unfold on_write; by destruct (c_after c)).
    + apply Forall_app. split; [|by apply Forall_singleton]. apply Forall_app. split; [done|]. apply Forall_singleton. exact Hw.
    + rewrite E, !rests_app. cbn. rewrite N3, !app_nil_r. done.
    + rewrite Hl in *. lia.
    + lia.
  - apply orb_false_iff in Et as [Et _]. breflect. split_and!; try done.
    rewrite E in Hn. apply Forall_app in Hn as [_ Hw]. apply Forall_inv in Hw as [_ Hw]. unfold node_Cap. lia.
Qed.

(** What a call leaves behind: a cut of the octets it took from the socket. *)
Definition takes (c c' : Conn) (w : list bytes) : Prop := inv c' /\ cut_ok w /\ concat w ++ coming (c_sock c') = coming (c_sock c).

Lemma takes_nothing c c' : inv c' -> c_sock c' = c_sock c -> takes c c' [].
Proof. intros H E. split_and!; [done|constructor|by rewrite E]. Qed.

Lemma fill_spec c i : inv c -> exists w c' err, fill mcap c i = Ret (c', err) /\ takes c c' w /\
  (err = None /\ i <= len (buffered c') /\ (forall w2, ReqParse.fill (buffered c) (w ++ w2) i = (mkReader (buffered c') w2, true)) \/
   err = Some netEOF /\ c_sock c' = [] /\ ReqParse.fill (buffered c) w i = (mkReader (buffered c') [], false)).
Proof.
  intros Hc. pose proof Hc as [Hl Hn He Hs Hm]. unfold fill. case_if; breflect; [|].
  - exists [], c, None. split; [done|]. split; [by apply takes_nothing|]. left. unfold Len in *. split_and!; [done|lia|]. intros w2. by rewrite fill_stays by lia.
  - unfold readErr. rewrite He. assert (set_err c None = c) as -> by (destruct c; cbn in *; by subst).
    fold (room_for c i). destruct (room_for_ok c i Hc) as (R1 & R2 & R3 & R4 & R5 & R6 & R7). set (c1 := room_for c i) in *.
    unfold Len in *. rewrite R5, R6.
    destruct (fill_loop_spec (c_sock c) (node_Cap (write_node c1)) (i - c_len c) [] Hs R3 R4) as (w & sock' & err & -> & H1 & H2 & H3 & H4 & H5).
    cbn [outcome_bind app]. destruct (nodes_last c1) as (k & E & Ew). specialize (Ew (fun nd => node_write nd (concat w))).
    set (c2 := on_write c1 (fun nd => node_write nd (concat w))) in *. eexists w, _, err. split; [done|].
    rewrite E in R1. apply Forall_app in R1 as [Hk Hw]. apply Forall_inv in Hw. destruct (node_write_ok _ (concat w) Hw H4) as [W1 W2].
    assert (rests (c_read c2 :: c_after c2) = buffered c ++ concat w) as Eb.
    { rewrite Ew, rests_app, <- R2. unfold buffered. rewrite E, rests_app, <- app_assoc. f_equal. cbn. by rewrite !app_nil_r, W2. }
    assert (c_len c2 = c_len c /\ c_maxSize c2 = c_maxSize c) as [L1 L2] by (unfold c2, on_write; rewrite <- R6, <- R7; by destruct (c_after c1)).
    assert (forall s n m e, buffered (mkConn s (c_before c2) (c_read c2) (c_after c2) n m e) = buffered c ++ concat w) as Ebuf by (intros; exact Eb).
    rewrite !Ebuf. cbn [c_sock]. split; [split_and!|].
    + split; cbn [c_len c_read c_after c_err c_sock c_maxSize].
      * rewrite Ebuf, L1, len_app. lia.
      * rewrite Ew. apply Forall_app. split; [done|by apply Forall_singleton].
      * done.
      * done.
      * lia.
    + done.
    + done.
    + replace i with (len (buffered c) + (i - c_len c)) by lia.
      destruct H5 as [[-> H5]|(-> & -> & H5)]; [left|right]; (split_and!; [done| |]); [|apply H5|done|apply H5].
      specialize (H5 (buffered c) []). rewrite app_nil_r in H5. assert (Hf := H5).
      destruct (decide (len (buffered c) + (i - c_len c) <= len (buffered c ++ concat w))) as [|Hgt]; [done|]. exfalso.
      rewrite fill_end in Hf by lia. done.
Qed.

Lemma first_node c i : inv c -> 0 <= i -> i <= len (buffered c) -> node_Len (c_read c) >= i -> ztake i (node_rest (c_read c)) = ztake i (buffered c).
Proof.
  intros [_ Hn _ _ _] H0 Hi Hr. apply Forall_inv in Hn. unfold buffered. rewrite rests_cons, ztake_app_le; [done|]. rewrite len_node_rest by done. lia.
Qed.

Lemma Peek_spec c i : inv c -> 0 <= i -> exists w c' b err, Peek mcap c i = Ret (c', b, err) /\ takes c c' w /\
  (err = None /\ i <= len (buffered c') /\ (forall w2, ReqParse.Peek (mkReader (buffered c) (w ++ w2)) i = (mkReader (buffered c') w2, Some b)) \/
   err = Some netEOF /\ c_sock c' = [] /\ ReqParse.Peek (mkReader (buffered c) w) i = (mkReader (buffered c') [], None)).
Proof.
  intros Hc Hi. destruct (fill_spec c i Hc) as (w & c' & err & E & Ht & H). unfold Peek, ReqParse.Peek. cbn [rd_buf rd_wire]. rewrite E. cbn [outcome_bind].
  destruct H as [(-> & Hl & Hf)|(-> & Hs & Hf)].
  - pose proof Ht as [Hc' _]. pose proof Hc' as [El Hn _ _ _]. rewrite (proj2 (Z.ltb_ge _ _)) by (unfold Len; lia).
    rewrite (proj2 (Z.ltb_ge i 0)) by lia. exists w, c', (ztake i (buffered c')), None.
    split; [|split; [done|left; split_and!; [done|done|intros w2; by rewrite Hf]]].
    case_if; breflect; [by rewrite first_node by (done || lia)|]. fold (buffered c') in *. by rewrite peekBuffer_spec by done.
  - exists w, c', [], (Some netEOF). split; [done|]. split; [done|]. right. by rewrite Hf.
Qed.

Lemma Skip_spec c n : inv c -> 0 <= n <= len (buffered c) -> exists c', Skip c n = Ret (c', None) /\ inv c' /\ c_sock c' = c_sock c /\
  buffered c' = zdrop n (buffered c).
Proof.
  intros [Hl Hn He Hs Hm] Hb. unfold Skip, Len. rewrite (proj2 (Z.ltb_ge _ _)) by lia.
  destruct (skip_nodes_spec (c_after c) (c_before c) (c_read c) n Hn Hb) as (b' & nd & af & -> & H1 & H2). cbn [outcome_bind].
  eexists. split; [done|]. unfold buffered in *. cbn [c_sock c_read c_after]. split_and!; [|done|done].
  split; cbn [c_len c_err c_sock c_maxSize c_read c_after]; try done. unfold buffered. cbn [c_read c_after]. rewrite H2, len_zdrop by lia. lia.
Qed.

Lemma grow_pos m size : 0 < m -> 0 < grow m size.
Proof. intros H. unfold grow. cbv zeta. repeat case_if; breflect; lia. Qed.

(** A chain without octets that goes on with one empty node. *)
Lemma restarted c nd m : inv c -> Len c = 0 -> 0 < m -> node_ok nd -> node_rest nd = [] ->
  inv (mkConn (c_sock c) [] nd [] (c_len c) m (c_err c)) /\ buffered (mkConn (c_sock c) [] nd [] (c_len c) m (c_err c)) = buffered c.
Proof.
  intros [Hl _ He Hs _] H0 Hm Hn Hr. unfold Len in H0. assert (buffered c = []) as E by (apply len_0_inv; lia).
  assert (rests [nd] = []) as E' by (cbn; by rewrite Hr). split; [|by rewrite E].
  split; cbn [c_len c_err c_sock c_maxSize c_read c_after]; try done; [|by apply Forall_singleton]. unfold buffered. cbn [c_read c_after]. by rewrite E', H0.
Qed.

Lemma reset_ok nd : node_ok nd -> node_ok (node_Reset nd) /\ node_rest (node_Reset nd) = [].
Proof. intros [H1 H2]. split; [|done]. unfold node_ok, malloc in *. cbn. change (len []) with 0. pose proof (len_nonneg (nd_data nd)). lia. Qed.

Lemma tail_ok c nd : 0 < c_maxSize c -> node_ok nd -> node_ok (handleTail mcap c nd) /\ node_rest (handleTail mcap c nd) = [].
Proof.
  intros Hm Hn. unfold handleTail. case_if; [|by apply reset_ok]. destruct (new_node_ok (c_maxSize c)) as (H1 & _ & H3); [lia|done].
Qed.

Lemma release_passed_ok c : inv c -> inv (release_passed c) /\ buffered (release_passed c) = buffered c.
Proof.
  intros [Hl Hn He Hs Hm]. destruct (nodes_last c) as (k & E & Ew). specialize (Ew (fun nd => node_mark nd true)).
  assert (buffered (release_passed c) = buffered c) as Eb.
  { unfold buffered, release_passed. cbn [c_read c_after]. rewrite Ew, E, !rests_app. done. }
  split; [|done]. split; unfold release_passed; cbn [c_len c_err c_sock c_maxSize c_read c_after]; fold (release_passed c); try done.
  - by rewrite Eb.
  - rewrite Ew. rewrite E in Hn. apply Forall_app in Hn as [Hk Hw]. apply Forall_inv in Hw. apply Forall_app. split; [done|]. by apply Forall_singleton.
  - by apply grow_pos.
Qed.

Lemma Release_ok c : inv c -> inv (Release mcap c) /\ buffered (Release mcap c) = buffered c /\ c_sock (Release mcap c) = c_sock c.
Proof.
  intros Hc. pose proof Hc as [_ Hn _ _ Hm]. unfold Release.
  assert (forall l, Forall node_ok l -> forall nd, nd ∈ l -> node_ok nd) as Hin by (intros l Hl; by apply Forall_forall).
  destruct (Len c =? 0) eqn:E0; breflect; [|by destruct (release_passed_ok c Hc)].
  assert (forall m nd, 0 < m -> node_ok nd -> node_rest nd = [] -> let c' := mkConn (c_sock c) [] nd [] (c_len c) m (c_err c) in
    inv c' /\ buffered c' = buffered c /\ c_sock c' = c_sock c) as Hgo by (intros m nd ? ? ?; destruct (restarted c nd m); done).
  pose proof (Forall_inv Hn) as Hr.
  destruct (c_before c) as [|hd [|? ?]], (c_after c) as [|tl [|? ?]] eqn:Ea; cbv zeta; cbn [c_sock c_read c_len c_err]; try (by destruct (release_passed_ok c Hc)).
  - destruct (reset_ok _ Hr). by apply Hgo.
  - apply Forall_inv_tail, Forall_inv in Hn.
    match goal with |- context [handleTail mcap ?d tl] => destruct (tail_ok d tl) end; [by apply grow_pos|done|]. apply Hgo; [by apply grow_pos|done|done].
  - match goal with |- context [handleTail mcap ?d (c_read c)] => destruct (tail_ok d (c_read c)) end; [by apply grow_pos|done|].
    apply Hgo; [by apply grow_pos|done|done].
Qed.

Lemma next_spec c n : inv c -> 0 <= n <= len (buffered c) -> exists c', next mcap c n = Ret (c', ztake n (buffered c), None) /\ inv c' /\
  c_sock c' = c_sock c /\ buffered c' = zdrop n (buffered c).
Proof.
  intros Hc Hb. pose proof Hc as [_ Hn _ _ _]. unfold next. fold (buffered c) in *. rewrite peekBuffer_spec by (done || apply Hb). cbn [outcome_bind].
  destruct (Skip_spec c n Hc Hb) as (c' & -> & Hc' & E1 & E2). cbn [outcome_bind]. destruct (Release_ok c' Hc') as (H1 & H2 & H3).
  eexists. split; [done|]. by rewrite H2, H3, E1, E2.
Qed.

(** ** All calls *)

Definition keeps_promise (c : Conn) (o : op) : Prop := exists w c' a, exec c o = Ret (c', a) /\ takes c c' w /\
  forall w2, cut_ok w2 -> concat w2 = coming (c_sock c') -> promised (mkReader (buffered c) (w ++ w2)) o = (mkReader (buffered c') w2, a).

Lemma no_pieces w : cut_ok w -> concat w = coming [] -> w = [].
Proof. intros [|p w' Hp _]; [done|]. cbn. by destruct p. Qed.

Lemma skip_reader b w n : 0 <= n <= len b -> BodyRead.Skip (mkReader b w) n = (mkReader (zdrop n b) w, true).
Proof. intros H. unfold BodyRead.Skip. cbn [rd_buf rd_wire]. by rewrite (proj2 (Z.ltb_ge _ _)) by lia. Qed.

Lemma peeked b w n r x : ReqParse.Peek (mkReader b w) n = (r, Some x) -> x = ztake n (rd_buf r).
Proof. unfold ReqParse.Peek. destruct (ReqParse.fill _ _ _) as [r' []]; by intros [= -> <-]. Qed.

Lemma peek_keeps c n : inv c -> 0 <= n -> keeps_promise c (OPeek n).
Proof.
  intros Hc Hn. unfold keeps_promise, exec, promised. destruct (Peek_spec c n Hc Hn) as (w & c' & b & err & -> & Ht & H). cbn [outcome_bind].
  eexists w, c', _. split; [done|]. split; [done|]. intros w2 H2 E. destruct H as [(-> & _ & Hp)|(-> & Hs & Hp)]; [by rewrite Hp|].
  rewrite Hs in E. rewrite (no_pieces w2) by done. by rewrite app_nil_r, Hp.
Qed.

Lemma skip_keeps c n : inv c -> 0 <= n -> keeps_promise c (OSkip n).
Proof.
  intros Hc Hn. unfold keeps_promise, exec, promised. pose proof Hc as [Hl _ _ _ _]. destruct (decide (n <= len (buffered c))) as [Hb|Hb].
  - destruct (Skip_spec c n Hc) as (c' & -> & Hc' & E1 & E2); [lia|]. eexists [], c', _. split; [done|]. split; [by apply takes_nothing|].
    intros w2 _ _. rewrite skip_reader by lia. by rewrite E2.
  - unfold Skip, Len. rewrite (proj2 (Z.ltb_lt _ _)) by lia. eexists [], c, _. split; [done|]. split; [by apply takes_nothing|].
    intros w2 _ _. unfold BodyRead.Skip. cbn [rd_buf]. by rewrite (proj2 (Z.ltb_lt _ _)) by lia.
Qed.

(** Peek, and then Skip of what was shown. *)
Lemma peek_skip c n : inv c -> 0 <= n -> exists w c' b err, Peek mcap c n = Ret (c', b, err) /\
  (err = None /\ len b = n /\ (exists c'', Skip c' n = Ret (c'', None) /\ takes c c'' w /\ forall w2, cut_ok w2 -> concat w2 = coming (c_sock c'') ->
      exists r, ReqParse.Peek (mkReader (buffered c) (w ++ w2)) n = (r, Some b) /\ BodyRead.Skip r n = (mkReader (buffered c'') w2, true)) \/
   err = Some netEOF /\ takes c c' w /\ forall w2, cut_ok w2 -> concat w2 = coming (c_sock c') ->
      ReqParse.Peek (mkReader (buffered c) (w ++ w2)) n = (mkReader (buffered c') w2, None)).
Proof.
  intros Hc Hn. destruct (Peek_spec c n Hc Hn) as (w & c' & b & err & E & Ht & H). exists w, c', b, err. split; [done|]. destruct Ht as (Hc' & Hw & Et).
  destruct H as [(-> & Hl & Hp)|(-> & Hs & Hp)]; [left|right].
  - pose proof (peeked _ _ _ _ _ (Hp [])) as Eb. cbn [rd_buf] in Eb. split_and!; [done|subst b; apply len_ztake; lia|].
    destruct (Skip_spec c' n Hc') as (c'' & E1 & Hc'' & E2 & E3); [lia|]. exists c''. split_and!; [done|split_and!; [done|done|by rewrite E2]|].
    intros w2 _ _. eexists. split; [apply Hp|]. rewrite skip_reader by lia. by rewrite E3.
  - split_and!; [done|done|]. intros w2 H2 E2. rewrite Hs in E2. rewrite (no_pieces w2) by done. by rewrite app_nil_r, Hp.
Qed.

Lemma byte_keeps c : inv c -> keeps_promise c OReadByte.
Proof.
  intros Hc. unfold keeps_promise, exec, promised, ReadByte, BodyRead.ReadByte. destruct (peek_skip c 1 Hc) as (w & c' & b & err & -> & H); [lia|]. cbn [outcome_bind].
  destruct H as [(-> & Hb & c'' & -> & Ht & Hp)|(-> & Ht & Hp)]; cbn [outcome_bind].
  - destruct b as [|x b]; [done|]. cbn [head deref outcome_bind reply]. eexists w, c'', _. split; [done|]. split; [done|].
    intros w2 H2 E2. destruct (Hp w2 H2 E2) as (r & -> & ->). done.
  - eexists w, c', _. split; [done|]. split; [done|]. intros w2 H2 E2. by rewrite (Hp w2 H2 E2).
Qed.

Lemma binary_keeps c n : inv c -> 0 <= n -> keeps_promise c (OReadBinary n).
Proof.
  intros Hc Hn. unfold keeps_promise, exec, promised, ReadBinary. destruct (peek_skip c n Hc Hn) as (w & c' & b & err & -> & H). cbn [outcome_bind].
  destruct H as [(-> & Hb & c'' & -> & Ht & Hp)|(-> & Ht & Hp)]; cbn [outcome_bind].
  - eexists w, c'', _. split; [done|]. split; [done|]. intros w2 H2 E2. destruct (Hp w2 H2 E2) as (r & -> & ->). done.
  - eexists w, c', _. split; [done|]. split; [done|]. intros w2 H2 E2. by rewrite (Hp w2 H2 E2).
Qed.

Lemma sock_Read_spec sock n : sock_ok sock -> 0 < n -> exists w sock' b err, sock_Read sock n = (sock', b, err) /\ cut_ok w /\ sock_ok sock' /\
  concat w ++ coming sock' = coming sock /\
  (err = None /\ w = [b] /\ len b <= n \/ err = Some netEOF /\ w = [] /\ sock' = []).
Proof.
  intros Hs Hn. destruct sock as [|[p e] sock]; cbn [sock_Read]; [exists [], [], [], (Some netEOF); split_and!; try done; [constructor|by right]|].
  apply Forall_cons in Hs as [[Hp He] Hs]. cbn in Hp, He. subst e. case_if; breflect.
  - exists [p], sock, p, None. cbn [concat]. rewrite app_nil_r. split_and!; try done; [by apply Forall_singleton|left; split_and!; [done|done|lia]].
  - assert (len (ztake n p) = n) as Hl by (apply len_ztake; lia).
    exists [ztake n p], ((zdrop n p, None) :: sock), (ztake n p), None. cbn [concat]. rewrite app_nil_r. split_and!; try done.
    + apply Forall_singleton. intros E. rewrite E, len_nil in Hl. lia.
    + constructor; [|done]. split; [|done]. cbn. intros E. assert (len (zdrop n p) = 0) as E' by by rewrite E. rewrite len_zdrop in E' by lia. lia.
    + rewrite !coming_cons, app_assoc. by rewrite ztake_zdrop.
    + left. split_and!; [done|done|lia].
Qed.

Lemma read_keeps c n : inv c -> 0 <= n -> keeps_promise c (ORead n).
Proof.
  intros Hc Hn. unfold keeps_promise, exec, promised, Read. pose proof Hc as [Hl Hnodes He Hs Hm]. cbv zeta. cbn [rd_buf rd_wire]. unfold Len.
  pose proof (len_nonneg (buffered c)). destruct (c_len c >? 0) eqn:E0; breflect.
  - destruct (next_spec c (Z.min (c_len c) n) Hc) as (c' & -> & Hc' & E1 & E2); [lia|]. cbn [outcome_bind].
    eexists [], c', _. split; [done|]. split; [by apply takes_nothing|]. intros w2 _ _. rewrite (proj2 (Z.gtb_lt _ _)) by lia. rewrite E2, Hl. done.
  - assert (buffered c = []) as Eb by (apply len_0_inv; lia). rewrite Eb. cbn [len length Z.of_nat Z.gtb Z.compare].
    destruct (n <=? block4k) eqn:E4; breflect.
    + destruct (fill_spec c 1 Hc) as (w & c' & err & -> & Ht & H'). cbn [outcome_bind]. destruct H' as [(-> & Hb & Hf)|(-> & Hso & Hf)].
      * pose proof Ht as (Hc' & Hw & Et). pose proof Hc' as [Hl' _ _ _ _]. pose proof (len_nonneg (buffered c')).
        destruct (next_spec c' (Z.min (c_len c') n) Hc') as (c'' & -> & Hc'' & E1 & E2); [lia|]. cbn [outcome_bind].
        eexists w, c'', _. split; [done|]. split; [split_and!; [done|done|by rewrite E1]|]. intros w2 _ _.
        unfold ReqParse.Peek. cbn [rd_buf rd_wire]. rewrite Eb in Hf. rewrite Hf. cbn [rd_buf rd_wire]. by rewrite E2, Hl'.
      * eexists w, c', _. split; [done|]. split; [done|]. intros w2 H2 E2. rewrite Hso in E2. rewrite (no_pieces w2) by done.
        rewrite app_nil_r. unfold ReqParse.Peek. cbn [rd_buf rd_wire]. rewrite Eb in Hf. by rewrite Hf.
    + destruct (sock_Read_spec (c_sock c) n Hs) as (w & sock' & b & err & -> & Hw & Hs' & Et & H'); [unfold block4k in *; lia|].
      set (c' := mkConn sock' (c_before c) (c_read c) (c_after c) (c_len c) (c_maxSize c) (c_err c)).
      assert (buffered c' = []) as Eb' by done. assert (inv c') as Hc' by (by split). eexists w, c', _. split; [done|]. split; [by split_and!|].
      intros w2 H2 E2. rewrite Eb'. change (len [] >? 0) with false. cbv iota. destruct H' as [(-> & -> & Hb)|(-> & -> & ->)]; cbn [app rd_wire reply].
      * unfold zdrop, ztake. rewrite drop_ge, take_ge by (unfold len in Hb; lia). done.
      * cbn in E2. by rewrite (no_pieces w2) by done.
Qed.

Lemma exec_keeps c o : inv c -> op_ok o -> keeps_promise c o.
Proof.
  intros Hc Ho. destruct o; cbn in Ho; [by apply peek_keeps|by apply skip_keeps|by apply byte_keeps|by apply binary_keeps|by apply read_keeps| |].
  - eexists [], c, _. split; [done|]. split; [by apply takes_nothing|]. intros w2 _ _. cbn. unfold Len. by destruct Hc as [-> _ _ _ _].
  - destruct (Release_ok c Hc) as (H1 & H2 & H3). eexists [], _, _. split; [done|]. split; [by apply takes_nothing|]. intros w2 _ _. by rewrite H2.
Qed.

Lemma exec_all_keeps os : forall c, inv c -> Forall op_ok os -> exists w c' l, exec_all c os = Ret (c', l) /\ takes c c' w /\
  forall w2, cut_ok w2 -> concat w2 = coming (c_sock c') -> promised_all (mkReader (buffered c) (w ++ w2)) os = (mkReader (buffered c') w2, l).
Proof.
  induction os as [|o os IH]; intros c Hc Hos; cbn [exec_all promised_all].
  - eexists [], c, []. split; [done|]. split; [by apply takes_nothing|done].
  - apply Forall_cons in Hos as [Ho Hos]. destruct (exec_keeps c o Hc Ho) as (w & c1 & a & -> & (Hc1 & Hw & Et) & Hp). cbn [outcome_bind].
    destruct (IH c1 Hc1 Hos) as (w' & c' & l & -> & (Hc' & Hw' & Et') & Hp'). cbn [outcome_bind]. eexists (w ++ w'), c', _. split; [done|].
    split; [split_and!; [done|by apply Forall_app|by rewrite concat_app, <- app_assoc, Et', Et]|]. intros w2 H2 E2.
    rewrite <- app_assoc. rewrite (Hp (w' ++ w2)); [|by apply Forall_app|by rewrite concat_app, E2]. by rewrite Hp'.
Qed.

Lemma newConn_inv sock size : sock_ok sock -> inv (newConn mcap sock size) /\ buffered (newConn mcap sock size) = [].
Proof.
  intros Hs. set (m := if size >? defaultMallocSize then size else defaultMallocSize).
  assert (0 < m) as Hm by (unfold m, defaultMallocSize, block4k; case_if; breflect; lia).
  destruct (new_node_ok m) as (H1 & _ & H3); [lia|]. assert (rests [newBufferNode mcap m] = []) as E by (cbn; by rewrite H3).
  split; [|exact E]. split; [|by apply Forall_singleton|done|done|done]. unfold buffered, newConn. cbv zeta. cbn [c_read c_after c_len]. fold m. by rewrite E.
Qed.
End Spec.

(** C5: A connection keeps the promise of a reader.  For every sequence of calls there is a
    cut of the octets of the socket into pieces such that a reader with one buffer, to which
    these pieces arrive, gives the same answers; the calls return, on no path do they follow
    a missing node, and no octet is lost, repeated or out of order, however the nodes are
    filled, passed and given back. *)
Theorem conn_keeps_promise (mcap : Z -> Z) (sock : list received) (size : Z) (os : list op) :
  (forall n, n <= mcap n) -> sock_ok sock -> Forall op_ok os ->
  exists w c r l, concat w = coming sock /\ exec_all mcap (newConn mcap sock size) os = Ret (c, l) /\
    promised_all (mkReader [] w) os = (r, l) /\ rd_buf r = buffered c /\ concat (rd_wire r) = coming (c_sock c).
Proof.
  intros Hm Hs Ho. destruct (newConn_inv mcap Hm sock size Hs) as [Hc Eb]. destruct (exec_all_keeps mcap Hm os _ Hc Ho) as (w & c & l & E & ([_ _ _ Hs' _] & _ & Et) & Hp).
  rewrite Eb in Hp. set (rest := fst <$> c_sock c). exists (w ++ rest), c, (mkReader (buffered c) rest), l.
  split_and!; [by rewrite concat_app|done| |done|done]. apply Hp; [|done].
  apply Forall_fmap, (Forall_impl _ _ _ Hs'). by intros [p e] [? _].
Qed.

Module ConnSample.
(** The allocator rounds up to powers of two. *)
Definition mcap (n : Z) : Z := if n >? mallocMax then n else round2 n.

Lemma mcap_ge n : n <= mcap n.
Proof.
  unfold mcap, mallocMax, block1k. case_if; breflect; [done|]. destruct (decide (0 < n)) as [H|H].
  - apply round2_bounds. lia.
  - unfold round2. by rewrite (proj2 (Z.leb_le _ _)) by lia; lia.
Qed.

Definition sock : list received := [(str "hello", None); (str " world", None)].
Definition calls : list op := [OPeek 7; OSkip 3; ORelease; OReadBinary 4; OLen; ORelease; ORead 5000; OReadByte].

Lemma conn_keeps_promise_witness : exists w c r l, concat w = str "hello world" /\ exec_all mcap (newConn mcap sock 0) calls = Ret (c, l) /\
  promised_all (mkReader [] w) calls = (r, l) /\ rd_buf r = buffered c /\ concat (rd_wire r) = coming (c_sock c).
Proof.
  apply (conn_keeps_promise mcap sock 0 calls); [apply mcap_ge| |].
  - repeat constructor; done.
  - repeat constructor; done.
Defined.

(** What the calls answer: the octets in order, over two nodes and a release. *)
Lemma calls_answer : (run (_, l) <- exec_all mcap (newConn mcap sock 0) calls; Ret l) =
  Ret [Octets (str "hello w"); Done; Done; Octets (str "lo w"); Count 4; Done; Octets (str "orld"); Failed netEOF].
Proof. vm_eq. Qed.
End ConnSample.
