(* ===== verification/NetOut.v ===== *)
(** * Connections: what is written leaves in order

    The chain of nodes behind Malloc, WriteBinary, Flush and ReadFrom against a writer
    that keeps what waits and what has been sent; and the calls on which it fails. *)

From S2P Require Import Prelude Bytes BytesConv Args ArgsSpec HeaderScan Trailer ReqHeader ReqParse ReqRound BodyRead BodySpec NetConn NetConnSpec.

(** ** Calls *)

Inductive wop : Type :=
| WMalloc (b : bytes)
| WBinary (b : bytes)
| WFlush.

(** The writer that is promised: sent, and waiting. *)
Definition writer (s : bytes * bytes) (o : wop) : bytes * bytes :=
  match o with
  | WMalloc b | WBinary b => (s.1, s.2 ++ b)
  | WFlush => (s.1 ++ s.2, [])
  end.

Definition waiting (o : Out) : bytes := rests (o_full o ++ [o_write o]).

Section Writes.
Context (mcap : Z -> Z).

Definition wexec (o : Out) (w : wop) : outcome Out :=
  match w with
  | WMalloc b => Malloc mcap o b
  | WBinary b => WriteBinary mcap o b
  | WFlush => Ret (Flush o []).1.1
  end.

Fixpoint wexec_all (o : Out) (ws : list wop) : outcome Out :=
  match ws with
  | [] => Ret o
  | w :: ws => run o <- wexec o w; wexec_all o ws
  end.

(** ** The invariant *)

(** No node holds more than it has room for, and what is counted as free is free. *)
Record out_ok (o : Out) : Prop := {
  oo_full : Forall node_ok (o_full o);
  oo_write : node_ok (o_write o);
  oo_room : o_len o <= node_Cap (o_write o);
  oo_off : recyclable (o_write o) = true -> nd_off (o_write o) = 0
}.

Context (mcap_ge : forall n, n <= mcap n).

Lemma waiting_snoc full nd n s : waiting (mkOut full nd n s) = rests full ++ node_rest nd.
Proof. unfold waiting. cbn [o_full o_write]. rewrite rests_app. f_equal. cbn. by rewrite app_nil_r. Qed.

Lemma waiting_parts o : waiting o = rests (o_full o) ++ node_rest (o_write o).
Proof. destruct o. apply waiting_snoc. Qed.

Definition gets (o o' : Out) (b : bytes) : Prop := out_ok o' /\ o_sent o' = o_sent o /\ waiting o' = waiting o ++ b.

Lemma new_node_gets o n b : out_ok o -> len b <= n ->
  gets o (mkOut (o_full o ++ [o_write o]) (node_write (newBufferNode mcap n) b) (nd_cap (node_write (newBufferNode mcap n) b) - len b) (o_sent o)) b.
Proof.
  intros [Hf Hw Hr Ho] Hb. pose proof (len_nonneg b). destruct (new_node_ok mcap mcap_ge n) as (N1 & N2 & N3); [lia|]. destruct (node_write_ok _ b N1) as [H1 H2]; [lia|].
  unfold gets. rewrite waiting_snoc, H2, N3, rests_app, waiting_parts. cbn [app]. split_and!; [|done|cbn; by rewrite app_nil_r].
  split; cbn [o_full o_write o_len]; [apply Forall_app; split; [done|by apply Forall_singleton]|done| |done].
  unfold node_Cap, malloc. cbn [node_write nd_cap nd_data newBufferNode app]. lia.
Qed.

Lemma Malloc_ok o b : out_ok o -> exists o', Malloc mcap o b = Ret o' /\ gets o o' b.
Proof.
  intros Hok. pose proof Hok as [Hf Hw Hr Ho]. unfold Malloc. cbv zeta. pose proof (len_nonneg b). destruct (len b =? 0) eqn:E0; breflect.
  { assert (b = []) as -> by (by apply len_0_inv). exists o. unfold gets. by rewrite app_nil_r. }
  case_if; breflect.
  - destruct (node_write_ok (o_write o) b Hw) as [H1 H2]; [lia|]. pose proof H1 as [_ H3].
    destruct (malloc (node_write (o_write o) b) >? nd_cap (node_write (o_write o) b)) eqn:Ec; breflect; [lia|]. eexists. split; [done|].
    unfold gets. rewrite waiting_snoc, H2, waiting_parts, app_assoc. split_and!; [|done|done].
    split; cbn [o_full o_write o_len]; [done|done| |done]. unfold node_Cap, malloc in *. cbn [node_write nd_cap nd_data]. rewrite len_app. lia.
  - eexists. split; [done|]. apply new_node_gets; [done|]. unfold defaultMallocSize, block4k. case_if; breflect; lia.
Qed.

Lemma WriteBinary_ok o b : out_ok o -> exists o', WriteBinary mcap o b = Ret o' /\ gets o o' b.
Proof.
  intros Hok. unfold WriteBinary. case_if; [by apply Malloc_ok|]. destruct Hok as [Hf Hw Hr Ho]. eexists. split; [done|]. unfold gets.
  rewrite waiting_snoc. split_and!; [|done|by unfold waiting, node_rest; cbn [nd_off nd_data]; rewrite zdrop_0]. pose proof (len_nonneg b).
  split; cbn [o_full o_write o_len]; [apply Forall_app; split; [done|by apply Forall_singleton]| | |done]; unfold node_ok, node_Cap, malloc; cbn [nd_off nd_data nd_cap]; lia.
Qed.

Definition flushed (wr : node) (ln : Z) (s : bytes) (o : Out) : Prop :=
  o_sent o = s /\ waiting o = [] /\ o_full o = [] /\
  o_write o = (if recyclable wr then node_Reset wr else node_skip wr (node_Len wr)) /\ o_len o = (if recyclable wr then nd_cap wr else ln).

Lemma flush_loop_ok full : forall wr ln s, node_ok wr ->
  exists o, flush_loop full wr ln s [] = (o, [], true) /\ flushed wr ln (s ++ rests full ++ node_rest wr) o.
Proof.
  induction full as [|nd full IH]; intros wr ln s Hw; cbn [flush_loop].
  - change (recyclable (node_skip wr (node_Len wr))) with (recyclable wr).
    pose proof (len_node_rest wr Hw) as Hl. pose proof (len_nonneg (node_rest wr)). destruct (node_skip_ok wr (node_Len wr) Hw) as [_ S2]; [lia|].
    unfold flushed. destruct (recyclable wr) eqn:Er; (eexists; split; [done|]; rewrite waiting_snoc; cbn [o_sent o_full o_write o_len]; split_and!; try done).
    rewrite S2, <- Hl. unfold rests, zdrop, len. cbn. by rewrite Nat2Z.id, drop_all.
  - destruct (IH wr ln (s ++ node_rest nd) Hw) as (o & E & H). exists o. split; [done|]. by rewrite rests_cons, <- !app_assoc in *.
Qed.

Lemma flushed_ok wr ln s o : node_ok wr -> ln <= node_Cap wr \/ recyclable wr = true -> flushed wr ln s o -> out_ok o.
Proof.
  intros Hw Hln (E1 & E2 & E3 & E4 & E5). destruct (reset_ok wr Hw) as [R1 _]. pose proof (len_node_rest wr Hw). pose proof (len_nonneg (node_rest wr)).
  destruct (node_skip_ok wr (node_Len wr) Hw) as [S1 _]; [lia|]. split; rewrite ?E3, ?E4, ?E5; [constructor|by case_if| |];
    destruct (recyclable wr) eqn:Er; [unfold node_Cap, malloc; cbn [node_Reset nd_data nd_cap]; change (len []) with 0; lia|destruct Hln; done|done|].
  intros E. by change (recyclable (node_skip wr (node_Len wr))) with (recyclable wr) in E; rewrite Er in E.
Qed.

Lemma empty_rest nd : node_ok nd -> node_Len nd = 0 -> node_rest nd = [].
Proof. intros Hn E. apply len_0_inv. by rewrite len_node_rest. Qed.

(** Flush sends what waits; it does nothing when nothing waits. *)
Lemma Flush_cases o : Forall node_ok (o_full o) -> node_ok (o_write o) ->
  exists o', Flush o [] = (o', [], true) /\ (o' = o /\ o_full o = [] /\ node_Len (o_write o) = 0 \/ flushed (o_write o) (o_len o) (o_sent o ++ waiting o) o').
Proof.
  intros Hf Hw. rewrite waiting_parts. unfold Flush. destruct (o_full o) as [|nd full] eqn:E.
  - case_if; breflect; [exists o; split; [done|by left]|].
    destruct (flush_loop_ok [] (o_write o) (o_len o) (o_sent o) Hw) as (o' & ? & ?). exists o'. split; [done|by right].
  - apply Forall_cons in Hf as [Hnd Hf]. case_if; breflect.
    + rewrite rests_cons, (empty_rest _ Hnd) by done.
      destruct (flush_loop_ok full (o_write o) (o_len o) (o_sent o) Hw) as (o' & ? & ?). exists o'. split; [done|by right].
    + destruct (flush_loop_ok (nd :: full) (o_write o) (o_len o) (o_sent o) Hw) as (o' & ? & ?). exists o'. split; [done|by right].
Qed.

Lemma Flush_ok o : out_ok o -> exists o', Flush o [] = (o', [], true) /\ out_ok o' /\ o_sent o' = o_sent o ++ waiting o /\ waiting o' = [].
Proof.
  intros Hok. pose proof Hok as [Hf Hw Hr _]. destruct (Flush_cases o Hf Hw) as (o' & E & [(Eo & Ef & El)|H]); exists o'; (split; [done|]).
  - subst o'. rewrite waiting_parts, Ef, (empty_rest _ Hw) by done. cbn. by rewrite app_nil_r.
  - split; [by eapply flushed_ok; [| |exact H]; [|left]|]. by destruct H as (-> & -> & _).
Qed.

Lemma wexec_ok o w : out_ok o -> exists o', wexec o w = Ret o' /\ out_ok o' /\ (o_sent o', waiting o') = writer (o_sent o, waiting o) w.
Proof.
  intros Ho. destruct w as [b|b|]; cbn [wexec writer fst snd].
  - destruct (Malloc_ok o b Ho) as (o' & ? & ? & <- & <-). by exists o'.
  - destruct (WriteBinary_ok o b Ho) as (o' & ? & ? & <- & <-). by exists o'.
  - destruct (Flush_ok o Ho) as (o' & -> & H1 & H2 & H3). exists o'. cbn [fst]. by rewrite H2, H3.
Qed.

Lemma wexec_all_ok ws : forall o, out_ok o -> exists o', wexec_all o ws = Ret o' /\ out_ok o' /\ (o_sent o', waiting o') = foldl writer (o_sent o, waiting o) ws.
Proof.
  induction ws as [|w ws IH]; intros o Ho; cbn [wexec_all foldl]; [by exists o|]. destruct (wexec_ok o w Ho) as (o1 & -> & H1 & <-). by apply IH.
Qed.

Lemma newOut_ok : out_ok (newOut mcap) /\ waiting (newOut mcap) = [].
Proof.
  destruct (new_node_ok mcap mcap_ge 0) as (H1 & H2 & H3); [lia|]. split; [by split|]. unfold newOut. by rewrite waiting_snoc, H3.
Qed.
(** ** ReadFrom *)

(** The loop with a node that is used again. *)
Lemma readfrom_loop_ok fuel : forall o src n, (length src < fuel)%nat -> Forall node_ok (o_full o) -> node_ok (o_write o) ->
  recyclable (o_write o) = true -> nd_off (o_write o) = 0 -> 0 < nd_cap (o_write o) ->
  exists o', readfrom_loop fuel o src netEOF n = Ret (o', n + len src, None) /\ out_ok o' /\ o_sent o' ++ waiting o' = o_sent o ++ waiting o ++ src.
Proof.
  induction fuel as [|fuel IH]; intros o src n Hf Hfull Hw Hrec Hoff Hcap; [lia|]. cbn [readfrom_loop].
  set (o1 := if node_Cap (o_write o) =? 0 then (Flush o []).1.1 else o).
  assert (Forall node_ok (o_full o1) /\ node_ok (o_write o1) /\ recyclable (o_write o1) = true /\ nd_off (o_write o1) = 0 /\ 0 < nd_cap (o_write o1) /\
    0 < node_Cap (o_write o1) /\ o_sent o1 ++ waiting o1 = o_sent o ++ waiting o) as (F1 & W1 & R1 & O1 & C1 & P1 & S1).
  { unfold o1. destruct (node_Cap (o_write o) =? 0) eqn:E0; breflect.
    - destruct (Flush_cases o Hfull Hw) as (o' & -> & [(_ & _ & El)|H]); cbn [fst].
      + unfold node_Cap, node_Len in *. lia.
      + pose proof (flushed_ok _ _ _ _ Hw (or_intror Hrec) H) as [A1 A2 A3 A4]. destruct H as (B1 & B2 & B3 & B4 & B5). rewrite Hrec in B4, B5.
        assert (recyclable (o_write o') = true) as Er.
        { rewrite B4. unfold recyclable in *. apply andb_true_iff in Hrec as [Hrec _]. cbn [node_Reset nd_cap nd_readOnly]. by rewrite Hrec. }
        split_and!; try done; [by apply A4|by rewrite B4|rewrite B5 in A3; lia|by rewrite B1, B2, app_nil_r].
    - destruct Hw as [? ?]. split_and!; try done. unfold node_Cap in *. lia. }
  destruct src as [|x src].
  - rewrite bool_decide_true by done. cbn [negb]. rewrite (proj2 (Z.eqb_neq _ _)) by lia. rewrite !app_nil_r. eexists. split; [f_equal; f_equal; f_equal; by rewrite Z.add_0_r|].
    rewrite waiting_snoc. cbn [o_sent]. rewrite <- waiting_parts. split; [|by rewrite S1]. split; cbn [o_full o_write o_len]; try done.
  - rewrite (proj2 (Z.leb_gt _ _)) by lia. set (room := node_Cap (o_write o1)) in *. set (b := ztake room (x :: src)).
    assert (b ++ zdrop room (x :: src) = x :: src) as Eb by apply ztake_zdrop.
    assert (len b <= room) as Hb by (unfold b, ztake, len; rewrite length_take; lia). destruct (node_write_ok (o_write o1) b W1 Hb) as [N1 N2].
    destruct (IH (mkOut (o_full o1) (node_write (o_write o1) b) (o_len o1) (o_sent o1)) (zdrop room (x :: src)) (n + len b)) as (o' & -> & H1 & H2); try done.
    + unfold zdrop. rewrite length_drop. cbn [length] in *. lia.
    + set (rest := zdrop room (x :: src)) in *. clearbody rest b. exists o'. rewrite <- Eb. split; [do 3 f_equal; rewrite len_app; lia|]. split; [done|].
      rewrite H2, waiting_snoc, N2. cbn [o_sent]. rewrite (app_assoc (o_sent o)), <- S1, waiting_parts, <- !app_assoc. done.
Qed.

(** A source is copied whole, unless a large node with more than a block of room is
    left over. *)
Lemma ReadFrom_ok o src : out_ok o -> mcap block4k <= block8k -> recyclable (o_write o) = true \/ o_len o <= block4k ->
  exists o', ReadFrom mcap o src netEOF = Ret (o', len src, None) /\ out_ok o' /\ o_sent o' ++ waiting o' = o_sent o ++ waiting o ++ src.
Proof.
  intros Hok Hm Hlen. pose proof Hok as [Hf Hw Hr Ho]. unfold ReadFrom. cbv zeta.
  assert (exists o1, Flush o [] = (o1, [], true) /\ out_ok o1 /\ o_sent o1 ++ waiting o1 = o_sent o ++ waiting o /\
    (recyclable (o_write o1) = true \/ o_len o1 <= block4k)) as (o1 & -> & Hok1 & S1 & L1).
  { destruct (Flush_cases o Hf Hw) as (o1 & E & [(Eo & _ & _)|H]); exists o1; (split; [done|]).
    - subst o1. done.
    - pose proof (flushed_ok _ _ _ _ Hw (or_introl Hr) H) as Hok1. split; [done|]. destruct H as (B1 & B2 & B3 & B4 & B5). split; [by rewrite B1, B2, app_nil_r|].
      destruct (recyclable (o_write o)) eqn:Er; [|right; destruct Hlen; [done|lia]]. left. rewrite B4. unfold recyclable in *. apply andb_true_iff in Er as [Er _].
      cbn [node_Reset nd_cap nd_readOnly]. by rewrite Er. }
  cbn [fst]. rewrite app_assoc, <- S1. clear S1 Hok Hf Hw Hr Ho Hlen o. pose proof Hok1 as [Hf Hw Hr Ho].
  destruct (negb (recyclable (o_write o1)) || (nd_cap (o_write o1) =? 0)) eqn:E.
  - assert (o_len o1 <= block4k) as Hl.
    { destruct L1 as [Er|]; [|done]. rewrite Er in E. cbn in E. breflect. destruct Hw as [? ?]. unfold node_Cap, block4k in *. lia. }
    unfold Malloc. cbv zeta. rewrite len_replicate, Z2Nat.id by done. cbn [Z.eqb].
    destruct (o_len o1 >? block4k) eqn:Eg; breflect; [lia|]. cbn [outcome_bind o_full o_write o_sent].
    change (block4k <? defaultMallocSize) with false. cbv iota.
    destruct (new_node_ok mcap mcap_ge block4k) as (N1 & N2 & N3); [done|]. destruct (reset_ok _ N1) as [R1 R2].
    set (nd := node_Reset (node_write (newBufferNode mcap block4k) (replicate (Z.to_nat block4k) 0))).
    assert (nd = node_Reset (newBufferNode mcap block4k)) as -> by done.
    assert (recyclable (node_Reset (newBufferNode mcap block4k)) = true /\ 0 < nd_cap (newBufferNode mcap block4k)) as [Q1 Q2].
    { unfold recyclable. cbn [node_Reset newBufferNode nd_cap nd_readOnly]. change (block4k >? mallocMax) with false. cbv iota. pose proof (mcap_ge block4k). rewrite (proj2 (Z.leb_le _ _)) by done.
      unfold block4k in *. split; [done|lia]. }
    destruct (readfrom_loop_ok (S (length src)) (mkOut (o_full o1 ++ [o_write o1]) (node_Reset (newBufferNode mcap block4k))
      (nd_cap (node_write (newBufferNode mcap block4k) (replicate (Z.to_nat block4k) 0))) (o_sent o1)) src 0) as (o' & E' & H1 & H2); try done; [lia| |].
    + apply Forall_app. split; [done|by apply Forall_singleton].
    + exists o'. split; [exact E'|]. split; [done|]. rewrite H2, waiting_snoc, R2, app_nil_r. cbn [o_sent]. unfold waiting. by rewrite app_assoc.
  - apply orb_false_iff in E as [E1 E2]. apply negb_false_iff in E1. breflect. cbn [outcome_bind].
    destruct (readfrom_loop_ok (S (length src)) o1 src 0) as (o' & E' & H1 & H2); try done; [lia|by apply Ho|destruct Hw as [? ?]; pose proof (len_nonneg (nd_data (o_write o1))); unfold malloc in *; lia|].
    exists o'. split; [exact E'|]. split; [done|]. by rewrite H2, app_assoc.
Qed.
End Writes.

(** C30: What is written to a connection leaves it in order and once: after any sequence of
    Malloc, WriteBinary and Flush calls the socket has got exactly what was written before
    the last Flush, and what was written since waits.  No call panics, and no node is
    filled beyond its array, whether it is a fresh one, one used again or the caller's own
    slice. *)
Theorem conn_writes_in_order (mcap : Z -> Z) (ws : list wop) :
  (forall n, n <= mcap n) ->
  exists o, wexec_all mcap (newOut mcap) ws = Ret o /\ out_ok o /\ (o_sent o, waiting o) = foldl writer ([], []) ws.
Proof.
  intros Hm. destruct (newOut_ok mcap Hm) as [Ho Ew]. destruct (wexec_all_ok mcap Hm ws _ Ho) as (o & H1 & H2 & H3). exists o.
  by rewrite Ew in H3.
Qed.

Module OutSample.
Definition mcap := ConnSample.mcap.

Lemma conn_writes_in_order_witness :
  exists o, wexec_all mcap (newOut mcap) [WBinary (str "hel"); WMalloc (str "lo"); WFlush; WBinary (str "!")] = Ret o /\ out_ok o /\
    (o_sent o, waiting o) = (str "hello", str "!").
Proof.
  apply (conn_writes_in_order mcap [WBinary (str "hel"); WMalloc (str "lo"); WFlush; WBinary (str "!")]). apply ConnSample.mcap_ge.
Defined.

(** Written, flushed, and then the source read: the octets taken and the error. *)
Definition copied (ws : list wop) (src : bytes) (e : netErr) : option (Z * option netErr) :=
  match (run o <- wexec_all mcap (newOut mcap) ws; ReadFrom mcap o src e) with Ret (_, n, e) => Some (n, e) | _ => None end.

Definition zeros (n : Z) : bytes := replicate (Z.to_nat n) 0.

(** Where writing goes wrong.  A Flush that fails half-way through a node sends the node
    again from its start.  A node that is too large to be used again is not emptied for
    ReadFrom, which gives up when it is full.  And when the source of ReadFrom fails, the
    room of the node is not counted again: the next write is beyond its array. *)
Lemma write_defects :
  (run o <- WriteBinary mcap (newOut mcap) (str "hello"); Ret (o_sent (Flush (Flush o [Some 2]).1.1 []).1.1)) = Ret (str "hehello") /\
  copied [WMalloc (zeros 8193); WFlush] (zeros 16385) netEOF = Some (16384, Some ErrNoProgress) /\
  (run (o, n, e) <- ReadFrom mcap (newOut mcap) (zeros 3000) (netOther 1); WriteBinary mcap o (zeros 2000)) = Panic.
Proof. split_and!; vm_eq. Qed.
End OutSample.
