(* ===== verification/RespMessage.v ===== *)
(** * Responses: whole messages

    [web/protocol/http1/resp/response.go] and [writer.go]: a response with its body as the
    client reads it, and as the server writes it, at once or chunk by chunk while the
    handler runs.  The writer is the octets written so far (it does not fail, as the buffers
    of a connection do not).  Not modelled: bodies from a stream of the handler. *)

From S2P Require Import Prelude Bytes BytesConv Args ArgsSpec HeaderScan Trailer ReqHeader ReqParse ReqRound ReqSend BodyRead BodySpec RespHeader RespParse RespSend RespRound TrailerRound Http1.

(** ** Reading *)

Definition MustSkipBody (p : Response) : bool := SkipBody p || MustSkipContentLength (resp_Header p).

Inductive respErr : Type :=
| eHeader (e : headerErr)
| eBody (e : bodyErr)
| eTrailer (e : headerErr).

#[export] Instance respErr_eq_dec : EqDecision respErr.
Proof. solve_decision. Defined.

Definition ReadHeaders (p : Response) (r : reader) : outcome (Response * reader * option respErr) :=
  let p := resp_ResetBody p in
  run (h, r, err) <- RespParse.ReadHeader (resp_Header p) r;
  let p := set_resp_Header p h in
  match err with
  | Some e => Ret (p, r, Some (eHeader e))
  | None =>
      if StatusCode h =? 100 then
        run (h, r, err) <- RespParse.ReadHeader h r;
        Ret (set_resp_Header p h, r, eHeader <$> err)
      else Ret (p, r, None)
  end.

Section Messages.
Context (poolCap : Z).

Definition resp_BodyBuffer (p : Response) : slice := default (mkSlice [] poolCap) (resp_body p).

Definition set_resp_body (p : Response) (b : slice) : Response :=
  mkResponse (resp_Header p) (Some b) None (resp_maxKeepBodySize p) (SkipBody p) (hijackWriter p).

Definition ReadRespBody (p : Response) (r : reader) (maxBodySize : Z) : outcome (Response * reader * option respErr) :=
  if MustSkipBody p then Ret (p, r, None)
  else
    run (r, buf, err) <- ReadBody r (contentLength (resp_Header p)) maxBodySize (mkSlice [] (sl_cap (resp_BodyBuffer p)));
    let p := set_resp_body p buf in
    match err with
    | Some e => Ret (p, r, Some (eBody e))
    | None =>
        run (p, r, err) <-
          (if contentLength (resp_Header p) =? -1 then
             run (t, r, err) <- ReadTrailer (rs_trailer (resp_Header p)) r;
             Ret (set_resp_Header p (set_trailer (resp_Header p) t), r, err)
           else Ret (p, r, None));
        match err with
        | Some e => if bool_decide (e = errEOF)
                    then run h <- SetContentLength (resp_Header p) (len (sl_data buf)); Ret (set_resp_Header p h, r, None)
                    else Ret (p, r, Some (eTrailer e))
        | None => run h <- SetContentLength (resp_Header p) (len (sl_data buf)); Ret (set_resp_Header p h, r, None)
        end
    end.

Definition ReadHeaderAndLimitBody (p : Response) (r : reader) (maxBodySize : Z) : outcome (Response * reader * option respErr) :=
  run (p, r, err) <- ReadHeaders p r;
  match err with Some e => Ret (p, r, Some e) | None => ReadRespBody p r maxBodySize end.

Definition Read (p : Response) (r : reader) : outcome (Response * reader * option respErr) := ReadHeaderAndLimitBody p r 0.
End Messages.

(** ** Writing *)

Section Writing.
Context (date : bytes).

Definition WriteHeader (h : ResponseHeader) (w : bytes) : ResponseHeader * bytes :=
  let header := AppendBytes date h [] in (SetHeaderLength h (len header), w ++ header).

(** A response whose body is not a stream. *)
Definition Write (p : Response) (w : bytes) : outcome (Response * bytes) :=
  let sendBody := negb (MustSkipBody p) in
  let body := resp_BodyBytes p in
  run h <- (if sendBody || (len body >? 0) then SetContentLength (resp_Header p) (len body) else Ret (resp_Header p));
  let header := AppendBytes date h [] in
  Ret (set_resp_Header p (SetHeaderLength h (len header)), w ++ header ++ (if sendBody && (len body >? 0) then body else [])).

Record chunkedBodyWriter := mkCW {
  cw_r : ResponseHeader;
  cw_w : bytes;
  cw_finalized : bool;
  cw_wroteHeader : bool
}.

Definition NewChunkedBodyWriter (h : ResponseHeader) (w : bytes) : chunkedBodyWriter := mkCW h w false false.

Definition cw_WriteHeader (c : chunkedBodyWriter) : outcome chunkedBodyWriter :=
  if cw_wroteHeader c then Ret c
  else
    run h <- SetContentLength (cw_r c) (-1);
    let '(h, w) := WriteHeader h (cw_w c) in
    Ret (mkCW h w (cw_finalized c) true).

Definition cw_writeChunk (c : chunkedBodyWriter) (b : bytes) : outcome chunkedBodyWriter :=
  run w <- WriteChunk (cw_w c) b; Ret (mkCW (cw_r c) w (cw_finalized c) (cw_wroteHeader c)).

(** The octets taken; [None] when the response is finished. *)
Definition cw_Write (c : chunkedBodyWriter) (p : bytes) : outcome (chunkedBodyWriter * option Z) :=
  if cw_finalized c then Ret (c, None)
  else
    run c <- cw_WriteHeader c;
    if len p =? 0 then Ret (c, Some 0)
    else run c <- cw_writeChunk c p; Ret (c, Some (len p)).

Definition cw_Finalize (c : chunkedBodyWriter) : outcome chunkedBodyWriter :=
  if cw_finalized c then Ret c
  else
    run c <- cw_WriteHeader (mkCW (cw_r c) (cw_w c) true (cw_wroteHeader c));
    run c <- cw_writeChunk c [];
    Ret (mkCW (cw_r c) (WriteTrailer (rs_trailer (cw_r c)) (cw_w c)) (cw_finalized c) (cw_wroteHeader c)).

(** A handler's writes, and the end of its response. *)
Fixpoint cw_Writes (c : chunkedBodyWriter) (ps : list bytes) : outcome chunkedBodyWriter :=
  match ps with
  | [] => cw_Finalize c
  | p :: ps => run (c, _) <- cw_Write c p; cw_Writes c ps
  end.
End Writing.
