(* ===== verification/RespWhole.v ===== *)
(** * Responses: what the server writes is what the client reads

    The header, the chunks and the trailer of a response that a handler writes piece by
    piece, and the client's reading of all of it. *)

From S2P Require Import Prelude Bytes BytesConv Args ArgsSpec HeaderScan Trailer ReqHeader ReqParse ReqRound ReqSend BodyRead BodySpec RespHeader RespParse RespSend RespRound TrailerRound Http1 RespMessage.

(** ** The header of a chunked response *)

Definition chunked_header (h : ResponseHeader) : ResponseHeader :=
  set_h (SetContentLengthBytes (InitContentLengthWithValue h (-1)) []) (setArgBytes (rs_h h) (str "Transfer-Encoding") (str "chunked")).

Lemma SetContentLength_chunked h : MustSkipContentLength h = false -> SetContentLength h (-1) = Ret (chunked_header h).
Proof. intros H. unfold SetContentLength. by rewrite H. Qed.

Lemma plain_no_te l : Forall plain l -> Forall (fun kv => kv_key kv <> str "Transfer-Encoding") l.
Proof. intros H. eapply Forall_impl; [exact H|]. intros kv [_ _ Hn] E. rewrite E in Hn. by vm_compute in Hn. Qed.

Lemma chunked_sendable date h l : sendable date h l [] [] -> sendable date (chunked_header h) l [chunked_kv] [].
Proof.
  intros [H1 H2 H3 H4 H5 H6 H7 H8 H9 H10 H11]. rewrite !app_nil_r in *. split; try done; [by left| |by right|by rewrite app_nil_r].
  cbn. rewrite H7. unfold setArgBytes, upsert. by rewrite set_loop_fresh by by apply plain_no_te.
Qed.

(** ** What is written *)

Definition nonempties (ps : list bytes) : list bytes := List.filter (fun p => negb (len p =? 0)) ps.

Lemma concat_nonempties ps : concat (nonempties ps) = concat ps.
Proof.
  induction ps as [|p ps IH]; [done|]. cbn [nonempties List.filter concat]. fold (nonempties ps). destruct (len p =? 0) eqn:E; breflect; cbn [negb concat].
  - by rewrite (len_0_inv p E).
  - by rewrite IH.
Qed.

Section Written.
Context (date : bytes).

Lemma finalize_wrote h w : cw_Finalize date (mkCW h w false true) = Ret (mkCW h (WriteTrailer (rs_trailer h) (w ++ chunks [])) true true).
Proof. reflexivity. Qed.

Lemma writes_wrote ps : forall h w, Forall (fun p => len p < 16 ^ 15) ps ->
  cw_Writes date (mkCW h w false true) ps = Ret (mkCW h (WriteTrailer (rs_trailer h) (w ++ chunks (nonempties ps))) true true).
Proof.
  induction ps as [|p ps IH]; intros h w Hps; cbn [cw_Writes]; [apply finalize_wrote|]. apply Forall_cons in Hps as [Hp Hps].
  unfold cw_Write. cbn [cw_finalized cw_WriteHeader cw_wroteHeader outcome_bind nonempties List.filter]. fold (nonempties ps).
  destruct (len p =? 0) eqn:E; breflect; cbn [negb outcome_bind]; [by apply IH|]. unfold cw_writeChunk. cbn [cw_w cw_r cw_finalized cw_wroteHeader].
  rewrite WriteChunk_writes by (pose proof (len_nonneg p); unfold chunk_ok; lia). cbn [outcome_bind]. rewrite IH by done. by rewrite chunks_cons, app_assoc.
Qed.

Definition message (h : ResponseHeader) (ps : list bytes) : bytes :=
  AppendBytes date (chunked_header h) [] ++ WriteTrailer (rs_trailer h) (chunks (nonempties ps)).

Lemma writes_message h w ps : MustSkipContentLength h = false -> Forall (fun p => len p < 16 ^ 15) ps ->
  exists c, cw_Writes date (NewChunkedBodyWriter h w) ps = Ret c /\ cw_w c = w ++ message h ps /\ cw_finalized c = true.
Proof.
  intros Hh Hps. set (g := SetHeaderLength (chunked_header h) (len (AppendBytes date (chunked_header h) []))).
  assert (cw_WriteHeader date (NewChunkedBodyWriter h w) = Ret (mkCW g (w ++ AppendBytes date (chunked_header h) []) false true)) as Ew.
  { unfold cw_WriteHeader, NewChunkedBodyWriter. cbn [cw_wroteHeader cw_r]. by rewrite SetContentLength_chunked. }
  assert (cw_Writes date (NewChunkedBodyWriter h w) ps = cw_Writes date (mkCW g (w ++ AppendBytes date (chunked_header h) []) false true) ps) as ->.
  { destruct ps as [|p ps]; cbn [cw_Writes].
    - unfold cw_Finalize, NewChunkedBodyWriter, cw_WriteHeader. cbn [cw_finalized cw_wroteHeader cw_r cw_w]. by rewrite SetContentLength_chunked.
    - unfold cw_Write. change (cw_finalized (NewChunkedBodyWriter h w)) with false. cbv iota. by rewrite Ew. }
  rewrite writes_wrote by done. eexists. split; [done|]. cbn [cw_w cw_finalized]. split; [|done].
  unfold message, WriteTrailer. by rewrite <- !app_assoc.
Qed.
End Written.

(** ** What is read *)

Lemma received_chunked date h te h0 : te <> [] -> contentLength (received date h te h0) = -1 /\ StatusCode (received date h te h0) = StatusCode h /\
  rs_trailer (received date h te h0) = mkTrailer (announced <$> tr_h (rs_trailer h)) (tr_disableNormalizing (rs_trailer h0)) /\
  rs_h (received date h te h0) = date_kv date h ++ rs_h h.
Proof.
  intros Ht. destruct te as [|x te]; [done|]. unfold received, close_fields, StatusCode.
  cbn [contentLength Z.ltb Z.compare SetContentLengthBytes Z.eqb Pos.eqb IsHTTP11 protocol andb negb].
  change (bytes_eqb HTTP11 HTTP11) with true. cbn [negb andb contentLength statusCode rs_trailer rs_h]. split_and!; try done.
  repeat case_if; breflect; done.
Qed.

Lemma status_continue h : MustSkipContentLength h = false -> (StatusCode h =? 100) = false.
Proof. intros H. apply Z.eqb_neq. intros E. unfold MustSkipContentLength in H. by rewrite E in H. Qed.

(** The length that the client notes when it has read the body. *)
Definition with_length (h : ResponseHeader) (n : Z) : ResponseHeader :=
  set_h (SetContentLengthBytes (InitContentLengthWithValue h n) (itoa n)) (delAllArgsBytes (rs_h h) (str "Transfer-Encoding")).

Lemma SetContentLength_number h n : MustSkipContentLength h = false -> 0 <= n < 2 ^ 63 -> SetContentLength h n = Ret (with_length h n).
Proof.
  intros H Hn. unfold SetContentLength. rewrite H. cbv zeta. rewrite (proj2 (Z.geb_le _ _)) by lia. rewrite AppendUint_decimal by width.
  by rewrite (proj2 (Z.ltb_ge _ _)) by lia.
Qed.

Lemma del_te date h l : sendable date h l [] [] ->
  delAllArgsBytes (date_kv date h ++ rs_h (chunked_header h)) (str "Transfer-Encoding") = date_kv date h ++ rs_h h.
Proof.
  intros Hs. pose proof (chunked_sendable date h l Hs) as Hc. rewrite (sd_list _ _ _ _ _ Hc), (sd_list _ _ _ _ _ Hs), !app_nil_r.
  unfold delAllArgsBytes. rewrite !List.filter_app. f_equal; [unfold date_kv; by case_if|]. rewrite app_nil_r.
  pose proof (sd_plain _ _ _ _ _ Hs) as Hp. rewrite app_nil_r in Hp. apply plain_no_te in Hp. 
  clear Hs Hc. induction Hp as [|kv l' Hk _ IH]; [done|]. cbn [List.filter]. rewrite (proj2 (bytes_eqb_neq _ _)) by congruence. cbn [negb]. by rewrite IH.
Qed.

(** ** The whole message *)

(** What a handler may set and write: a header that can be sent, with the trailers it
    announces and their values, and a body that is not too large for the memory. *)
Record response_ok (date : bytes) (h : ResponseHeader) (l : list argsKV) (ps : list bytes) : Prop := {
  ro_header : sendable date h l [] [];
  ro_status : MustSkipContentLength h = false;
  ro_values : Forall (fun kv => value_ok (kv_value kv)) (tr_h (rs_trailer h));
  ro_names : NoDup (kv_key <$> tr_h (rs_trailer h));
  ro_first : forall kv, head (tr_h (rs_trailer h)) = Some kv -> head (kv_key kv) <> Some 48;
  ro_chunks : Forall (fun p => len p < 16 ^ 15) ps;
  ro_size : len (concat ps) + 2 <= 2 ^ 47
}.

(** The object the client reads into: one of its pool. *)
Record client_ok (p : Response) : Prop := {
  co_body : SkipBody p = false;
  co_names : disableNormalizing (resp_Header p) = false;
  co_trailer : tr_disableNormalizing (rs_trailer (resp_Header p)) = false
}.

Definition reads_as (date : bytes) (h : ResponseHeader) (ps : list bytes) (p : Response) : Prop :=
  resp_BodyBytes p = concat ps /\ StatusCode (resp_Header p) = StatusCode h /\ contentLength (resp_Header p) = len (concat ps) /\
  tr_h (rs_trailer (resp_Header p)) = given <$> tr_h (rs_trailer h) /\ rs_h (resp_Header p) = date_kv date h ++ rs_h h.

Lemma read_headers date h l p r b : sendable date h l [] [] -> MustSkipContentLength h = false -> client_ok p ->
  stream r = AppendBytes date (chunked_header h) [] ++ b ->
  exists r', ReadHeaders p r = Ret (set_resp_Header (resp_ResetBody p) (received date (chunked_header h) [chunked_kv] (resp_Header p)), r', None) /\ stream r' = b.
Proof.
  intros Hs Hm [_ H2 H3] E. unfold ReadHeaders. change (resp_Header (resp_ResetBody p)) with (resp_Header p).
  destruct (resp_sent_header_read date (chunked_header h) (resp_Header p) l [chunked_kv] [] r b (chunked_sendable date h l Hs) H2 H3 E) as (r' & -> & E').
  cbn [outcome_bind]. destruct (received_chunked date (chunked_header h) [chunked_kv] (resp_Header p)) as (_ & -> & _); [done|].
  change (StatusCode (chunked_header h)) with (StatusCode h). rewrite status_continue by done. by exists r'.
Qed.

Lemma read_resp_body poolCap date h l ps p g r rest max : response_ok date h l ps -> SkipBody p = false ->
  g = received date (chunked_header h) [chunked_kv] (resp_Header p) -> tr_disableNormalizing (rs_trailer (resp_Header p)) = false ->
  max <= 0 \/ len (concat ps) <= max -> stream r = WriteTrailer (rs_trailer h) (chunks (nonempties ps)) ++ rest ->
  exists p' r', ReadRespBody poolCap (set_resp_Header (resp_ResetBody p) g) r max = Ret (p', r', None) /\ stream r' = rest /\ reads_as date h ps p'.
Proof.
  intros Hr Hb Eg Ht Hmax E. pose proof Hr as [Hs Hm Hv Hn Hf Hc Hz]. pose proof (len_nonneg (concat ps)).
  destruct (received_chunked date (chunked_header h) [chunked_kv] (resp_Header p)) as (G1 & G2 & G3 & G4); [done|]. rewrite <- Eg in G1, G2, G3, G4.
  change (StatusCode (chunked_header h)) with (StatusCode h) in G2. change (rs_trailer (chunked_header h)) with (rs_trailer h) in G3. rewrite Ht in G3.
  assert (forall g', StatusCode g' = StatusCode h -> MustSkipContentLength g' = false) as Hskip.
  { intros g' Eg'. unfold MustSkipContentLength in *. by rewrite Eg'. }
  unfold ReadRespBody, MustSkipBody. change (SkipBody (set_resp_Header (resp_ResetBody p) g)) with (SkipBody p). rewrite Hb.
  change (resp_Header (set_resp_Header (resp_ResetBody p) g)) with g. rewrite (Hskip g G2). cbn [orb]. rewrite G1.
  destruct (rs_trailer h) as [tl dn] eqn:Et. cbn [tr_h] in *. destruct (sd_trailer _ _ _ _ _ Hs) as [Hnames _]. rewrite Et in Hnames. cbn [tr_h] in Hnames.
  rewrite WriteTrailer_block in E by done. rewrite <- !app_assoc in E.
  assert (Forall chunk_ok (nonempties ps)) as Hck.
  { clear - Hc. induction Hc as [|q ps Hq _ IH]; [constructor|]. cbn [nonempties List.filter]. fold (nonempties ps). pose proof (len_nonneg q).
    destruct (len q =? 0) eqn:E; breflect; cbn [negb]; [done|]. constructor; [unfold chunk_ok; lia|done]. }
  rewrite <- (concat_nonempties ps) in Hz, Hmax.
  destruct (ReadBody_chunks (nonempties ps) r (block (pairs tl) ++ [13; 10] ++ rest) max (mkSlice [] (sl_cap (resp_BodyBuffer poolCap (set_resp_Header (resp_ResetBody p) g)))) Hck Hz Hmax E)
    as (r1 & cap & -> & E1). cbn [outcome_bind].
  change (resp_Header (set_resp_body ?x ?y)) with (resp_Header x). change (resp_Header (set_resp_Header (resp_ResetBody p) g)) with g. rewrite G1. cbn [Z.eqb Pos.eqb].
  rewrite G3. destruct (ReadTrailer_block tl r1 rest Hnames Hv Hn Hf E1) as (r2 & -> & E2). cbn [outcome_bind].
  change (resp_Header (set_resp_Header ?x ?y)) with y. rewrite SetContentLength_number; [|by apply Hskip|cbn [sl_data]; rewrite concat_nonempties in *; lia].
  cbn [outcome_bind sl_data]. eexists _, r2. split; [done|]. split; [done|]. rewrite concat_nonempties. split_and!; try done.
  - cbn. by rewrite Et.
  - cbn [resp_Header set_resp_Header with_length set_h rs_h set_trailer]. rewrite G4. change (date_kv date (chunked_header h)) with (date_kv date h). by apply (del_te date h l).
Qed.

(** C15: A response that a handler writes chunk by chunk is the one the client reads: the
    status, the fields, the octets of all writes joined, and the trailers with their
    values, in whatever pieces they were written (an empty write does not end the body)
    and in whatever pieces they arrive; what follows on the connection is left for the
    next response. *)
Theorem chunked_response_read (poolCap max : Z) (date : bytes) (h : ResponseHeader) (l : list argsKV) (ps : list bytes) (w : bytes) (p : Response) (r : reader) (rest : bytes) :
  response_ok date h l ps -> client_ok p -> max <= 0 \/ len (concat ps) <= max -> stream r = message date h ps ++ rest ->
  (exists c, cw_Writes date (NewChunkedBodyWriter h w) ps = Ret c /\ cw_w c = w ++ message date h ps) /\
  exists p' r', ReadHeaderAndLimitBody poolCap p r max = Ret (p', r', None) /\ stream r' = rest /\ reads_as date h ps p'.
Proof.
  intros Hr Hp Hmax E. pose proof Hr as [Hs Hm _ _ _ Hc _]. destruct (writes_message date h w ps Hm Hc) as (c & E1 & E2 & _). split; [by exists c|].
  unfold message in E. rewrite <- app_assoc in E. unfold ReadHeaderAndLimitBody.
  destruct (read_headers date h l p r _ Hs Hm Hp E) as (r1 & -> & E3). cbn [outcome_bind]. destruct Hp as [Hb _ Ht].
  by apply (read_resp_body poolCap date h l ps p _ r1 rest max Hr Hb eq_refl Ht Hmax E3).
Qed.

(** ** A response that is written at once *)

Lemma number_sendable date h l n : sendable date h l [] [] -> 0 <= n < 2 ^ 63 -> sendable date (with_length h n) l [] [].
Proof.
  intros Hs Hn. pose proof Hs as [H1 H2 H3 H4 H5 H6 H7 H8 H9 H10 H11]. rewrite !app_nil_r in *. split; try done; [right; done| |by rewrite app_nil_r].
  rewrite !app_nil_r. cbn [with_length rs_h set_h]. rewrite H7. apply plain_no_te in H9. unfold delAllArgsBytes.
  clear - H9. induction H9 as [|kv l' Hk _ IH]; [done|]. cbn [List.filter]. rewrite (proj2 (bytes_eqb_neq _ _)) by congruence. cbn [negb]. by rewrite IH.
Qed.

Lemma received_number date h h0 n : 0 <= n < 2 ^ 63 -> contentLength (received date (with_length h n) [] h0) = n /\
  StatusCode (received date (with_length h n) [] h0) = StatusCode h.
Proof.
  intros Hn. unfold received, close_fields, StatusCode. cbn [contentLengthBytes contentLength with_length set_h SetContentLengthBytes InitContentLengthWithValue].
  destruct (itoa_first n) as (x & y & -> & _); [lia|]. cbn [contentLength]. rewrite (proj2 (Z.ltb_ge n 0)) by lia. cbn [contentLength].
  rewrite (proj2 (Z.eqb_neq n (-2))) by lia. cbn [andb IsHTTP11 protocol]. change (bytes_eqb HTTP11 HTTP11) with true. cbn [negb andb contentLength statusCode].
  split; [done|]. repeat case_if; breflect; done.
Qed.

Lemma ReadBody_fixed r b rest max dst : stream r = b ++ rest -> len b <= 2 ^ 47 -> max <= 0 \/ len b <= max ->
  exists r' cap, ReadBody r (len b) max dst = Ret (r', mkSlice b cap, None) /\ stream r' = rest.
Proof.
  intros E Hb Hm. pose proof (len_nonneg b). unfold ReadBody. cbv zeta. rewrite (proj2 (Z.geb_le _ _)) by lia.
  assert ((max >? 0) && (len b >? max) = false) as ->.
  { destruct (max >? 0) eqn:?; [|done]. cbn. destruct (len b >? max) eqn:?; breflect; lia. }
  destruct (decide (len b = 0)) as [E0|E0].
  - rewrite E0. rewrite (len_0_inv b E0) in *. exists r, (sl_cap dst). done.
  - destruct (appendBodyFixedSize_ok r (mkSlice [] (sl_cap dst)) b rest E) as (r' & cap & -> & E'); [lia|cbn [sl_data]; rewrite len_nil; lia|]. by exists r', cap.
Qed.

(** What Write writes is read back with its body. *)
Lemma written_response_read (poolCap max : Z) (date : bytes) (h : ResponseHeader) (l : list argsKV) (p0 p : Response) (w : bytes) (r : reader) (rest : bytes) :
  sendable date h l [] [] -> MustSkipContentLength h = false -> resp_Header p0 = h -> SkipBody p0 = false -> client_ok p ->
  len (resp_BodyBytes p0) <= 2 ^ 47 -> max <= 0 \/ len (resp_BodyBytes p0) <= max ->
  exists p1 text, Write date p0 w = Ret (p1, w ++ text) /\
    (stream r = text ++ rest -> exists p' r', ReadHeaderAndLimitBody poolCap p r max = Ret (p', r', None) /\ stream r' = rest /\
       resp_BodyBytes p' = resp_BodyBytes p0 /\ StatusCode (resp_Header p') = StatusCode h).
Proof.
  intros Hs Hm Eh Hb [C1 C2 C3] Hz Hmax. set (b := resp_BodyBytes p0) in *. pose proof (len_nonneg b).
  unfold Write, MustSkipBody. rewrite Hb, Eh, Hm. cbn [orb negb]. fold b. rewrite SetContentLength_number by (done || lia). cbn [outcome_bind andb].
  assert ((if len b >? 0 then b else []) = b) as -> by (destruct (len b >? 0) eqn:E0; breflect; [done|by rewrite (len_0_inv b ltac:(lia))]).
  eexists _, _. split; [done|]. rewrite <- app_assoc. intros E. unfold ReadHeaderAndLimitBody, ReadHeaders. change (resp_Header (resp_ResetBody p)) with (resp_Header p).
  destruct (resp_sent_header_read date (with_length h (len b)) (resp_Header p) l [] [] r (b ++ rest)
    (number_sendable date h l (len b) Hs ltac:(lia)) C2 C3 E) as (r1 & -> & E1). cbn [outcome_bind].
  destruct (received_number date h (resp_Header p) (len b)) as [R1 R2]; [lia|]. rewrite R2, status_continue by done. cbn [outcome_bind].
  set (g := received date (with_length h (len b)) [] (resp_Header p)) in *. unfold ReadRespBody, MustSkipBody.
  change (SkipBody (set_resp_Header (resp_ResetBody p) g)) with (SkipBody p). rewrite C1. change (resp_Header (set_resp_Header (resp_ResetBody p) g)) with g.
  assert (MustSkipContentLength g = false) as Hg by (unfold MustSkipContentLength in *; by rewrite R2). rewrite Hg. cbn [orb]. rewrite R1.
  destruct (ReadBody_fixed r1 b rest max (mkSlice [] (sl_cap (resp_BodyBuffer poolCap (set_resp_Header (resp_ResetBody p) g)))) E1 Hz Hmax) as (r2 & cap & -> & E2).
  cbn [outcome_bind]. change (resp_Header (set_resp_body ?x ?y)) with (resp_Header x). change (resp_Header (set_resp_Header (resp_ResetBody p) g)) with g.
  rewrite R1. rewrite (proj2 (Z.eqb_neq _ _)) by lia. cbn [outcome_bind sl_data]. rewrite SetContentLength_number by (done || lia). cbn [outcome_bind].
  eexists _, r2. split_and!; [done|done|done|]. exact R2.
Qed.

Module WholeSample.
Definition date : bytes := str "now".

Definition h : ResponseHeader :=
  mkResp false false false false 200 0 [] [] (str "text/html") [] [] [mkKV (str "Vary") (str "a, b") false]
    (mkTrailer [mkKV (str "Foo") (str "bar") false] false) [] 0.

Definition ps : list bytes := [str "hello"; []; str "!!"].

Lemma h_ok : response_ok date h [mkKV (str "Vary") (str "a, b") false] ps.
Proof.
  split; [|done| | | | |by apply (bool_decide_unpack _)].
  - split; try (apply Sample.value_check; vm_compute; reflexivity); try done.
    + by left.
    + by left.
    + apply Forall_singleton. split; [done| |vm_eq]. apply known_field; [vm_compute; reflexivity|]. apply Sample.value_check. vm_compute. reflexivity.
    + split; [|apply Sample.value_check; vm_compute; reflexivity]. apply Forall_singleton.
      split; [done|apply known_token; vm_compute; reflexivity|vm_eq|vm_eq].
  - apply Forall_singleton. apply Sample.value_check. vm_compute. reflexivity.
  - apply NoDup_singleton.
  - intros kv [= <-]. done.
  - repeat constructor.
Qed.

Definition arriving : reader := mkReader (take 20 (message date h ps)) [drop 20 (message date h ps); str "HTTP"].

Lemma chunked_response_read_witness :
  (exists c, cw_Writes date (NewChunkedBodyWriter h []) ps = Ret c /\ cw_w c = message date h ps) /\
  exists p' r', ReadHeaderAndLimitBody 0 newResponse arriving 100 = Ret (p', r', None) /\ stream r' = str "HTTP" /\ reads_as date h ps p'.
Proof.
  apply (chunked_response_read 0 100 date h [mkKV (str "Vary") (str "a, b") false] ps [] newResponse arriving (str "HTTP")).
  - apply h_ok.
  - by split.
  - right. by apply (bool_decide_unpack _).
  - vm_eq.
Defined.

Definition status (h : ResponseHeader) (s : Z) : ResponseHeader := SetStatusCode h s.

Definition lines (l : list string) : bytes := RespRound.Sample.lines l.

(** A chunked response to a status without a body is written with its chunks, which the
    client takes for the next response.  And of two interim responses the client takes
    the second for the answer. *)
Lemma message_defects :
  (run c <- cw_Writes date (NewChunkedBodyWriter (status newResponseHeader 204) []) [str "hi"]; Ret (cw_w c)) =
    Ret (lines ["HTTP/1.1 204 No Content"; "Date: now"]%string ++ str "2" ++ CRLF ++ str "hi" ++ CRLF ++ str "0" ++ CRLF ++ CRLF) /\
  (run (p, r, e) <- Read 0 newResponse (mkReader (lines ["HTTP/1.1 100 Continue"]%string ++ lines ["HTTP/1.1 100 Continue"]%string ++ lines ["HTTP/1.1 200 OK"]%string) []);
   Ret (StatusCode (resp_Header p), stream r, bool_decide (e = None))) = Ret (100, lines ["HTTP/1.1 200 OK"]%string, true).
Proof. split; vm_eq. Qed.
End WholeSample.
