(* ===== verification/BodyStream.v ===== *)
(** * Bodies that are read as they come

    [web/protocol/ext/stream.go]: the stream a client reads the body of a response from.
    The reader behind it is the one a connection promises ([NetConnSpec.promised]), whose
    Read the stream calls for bodies of a known length. *)

From S2P Require Import Prelude Bytes BytesConv Args ArgsSpec HeaderScan Trailer ReqHeader ReqParse ReqRound ReqSend BodyRead BodySpec RespHeader RespParse RespSend RespRound TrailerRound NetConn NetConnSpec.

Definition maxContentLengthInStream : Z := 8 * 1024.

(** ** What is read before the stream is made *)

Definition ReadBodyWithStreaming (r : reader) (contentLength maxBodySize : Z) (dst : slice) : outcome (reader * slice * option bodyErr) :=
  if contentLength =? -1 then Ret (r, mkSlice [] 0, Some errChunkedStream)
  else
    let dst := mkSlice [] (sl_cap dst) in
    let maxBodySize := if maxBodySize <=? 0 then maxContentLengthInStream else maxBodySize in
    let readN := if maxBodySize >? contentLength then contentLength else maxBodySize in
    let readN := if readN >? maxContentLengthInStream then maxContentLengthInStream else readN in
    run (r, b, err) <- (if (contentLength >=? 0) && (maxBodySize >=? contentLength) then appendBodyFixedSize r dst readN
                        else readBodyIdentity r readN dst);
    match err with
    | Some e => Ret (r, b, Some e)
    | None => Ret (r, b, if contentLength >? maxBodySize then Some errBodyTooLarge else None)
    end.

(** ** The stream *)

Inductive streamErr : Type :=
| sEOF
| sUnexpectedEOF
| sBody (e : bodyErr)
| sTrailer (e : headerErr)
| sNet (e : netErr).

#[export] Instance streamErr_eq_dec : EqDecision streamErr.
Proof. solve_decision. Defined.

(** [bs_prefetched] is the bytes.Reader over what was read before, [bs_pos] its position;
    it is [None] once the stream is released. *)
Record bodyStream := mkBS {
  bs_prefetched : option bytes;
  bs_pos : Z;
  bs_trailer : Trailer;
  bs_offset : Z;
  bs_contentLength : Z;
  bs_chunkLeft : Z;
  bs_chunkEOF : bool
}.

(** A stream of the pool has been reset. *)
Definition AcquireBodyStream (b : bytes) (t : Trailer) (contentLength : Z) : bodyStream := mkBS (Some b) 0 t 0 contentLength 0 false.

Definition bs_reset (rs : bodyStream) : bodyStream := mkBS None 0 newTrailer 0 0 0 false.

Definition set_chunk (rs : bodyStream) (left : Z) (eof : bool) : bodyStream :=
  mkBS (bs_prefetched rs) (bs_pos rs) (bs_trailer rs) (bs_offset rs) (bs_contentLength rs) left eof.
Definition set_bs_trailer (rs : bodyStream) (t : Trailer) : bodyStream :=
  mkBS (bs_prefetched rs) (bs_pos rs) t (bs_offset rs) (bs_contentLength rs) (bs_chunkLeft rs) (bs_chunkEOF rs).
Definition set_offset (rs : bodyStream) (pos offset : Z) : bodyStream :=
  mkBS (bs_prefetched rs) pos (bs_trailer rs) offset (bs_contentLength rs) (bs_chunkLeft rs) (bs_chunkEOF rs).

Definition Size (rs : bodyStream) : Z := match bs_prefetched rs with Some b => len b | None => 0 end.

(** A chunk, or what is left of one, into a slice of [n] octets. *)
Definition read_chunk (rs : bodyStream) (r : reader) (n : Z) : bodyStream * reader * bytes * option streamErr :=
  let bytesToRead := if n >? bs_chunkLeft rs then bs_chunkLeft rs else n in
  match ReqParse.Peek r bytesToRead with
  | (r, None) => (rs, r, [], Some sUnexpectedEOF)
  | (r, Some src) =>
      let r := (BodyRead.Skip r (len src)).1 in
      let left := bs_chunkLeft rs - len src in
      let rs := set_chunk rs left (bs_chunkEOF rs) in
      if left =? 0 then
        match SkipCRLF r with
        | (r, None) => (rs, r, src, None)
        | (r, Some e) => (rs, r, src, Some (if bool_decide (e = errBodyEOF) then sUnexpectedEOF else sBody e))
        end
      else (rs, r, src, None)
  end.

(** ParseChunkSize gives io.ErrUnexpectedEOF at the end of the connection. *)
Definition size_err (e : bodyErr) : streamErr := if bool_decide (e = ErrUnexpectedEOF) then sUnexpectedEOF else sBody e.

Definition trailer_err (e : headerErr) : streamErr := if bool_decide (e = errEOF) then sEOF else sTrailer e.

Definition read_chunked (rs : bodyStream) (r : reader) (n : Z) : outcome (bodyStream * reader * bytes * option streamErr) :=
  if bs_chunkEOF rs then Ret (rs, r, [], Some sEOF)
  else if bs_chunkLeft rs =? 0 then
    match ParseChunkSize r with
    | (r, Err e) => Ret (rs, r, [], Some (size_err e))
    | (r, Ok chunkSize) =>
        if chunkSize =? 0 then
          run (t, r, err) <- ReadTrailer (bs_trailer rs) r;
          let rs := set_bs_trailer rs t in
          match err with
          | None => Ret (set_chunk rs (bs_chunkLeft rs) true, r, [], Some sEOF)
          | Some e => Ret (rs, r, [], Some (trailer_err e))
          end
        else Ret (read_chunk (set_chunk rs chunkSize (bs_chunkEOF rs)) r n)
    end
  else Ret (read_chunk rs r n).

(** From the connection, into the [n] octets of the slice that are left. *)
Definition read_wire (rs : bodyStream) (r : reader) (got : bytes) (n : Z) : bodyStream * reader * bytes * option streamErr :=
  match promised r (ORead n) with
  | (r, Octets b) =>
      let rs := set_offset rs (bs_pos rs) (bs_offset rs + len b) in
      (rs, r, got ++ b, if bs_offset rs =? bs_contentLength rs then Some sEOF else None)
  | (r, Failed netEOF) =>
      let err := if negb (bs_offset rs =? bs_contentLength rs) && negb (bs_contentLength rs =? -2) then sUnexpectedEOF else sEOF in
      (set_offset rs (bs_pos rs) (bs_contentLength rs), r, got, Some err)
  | (r, Failed e) => (rs, r, got, Some (sNet e))
  | (r, _) => (rs, r, got, None)
  end.

Definition read_fixed (rs : bodyStream) (r : reader) (n : Z) : bodyStream * reader * bytes * option streamErr :=
  if bs_offset rs =? bs_contentLength rs then (rs, r, [], Some sEOF)
  else if Size rs >? bs_offset rs then
    let b := default [] (bs_prefetched rs) in
    let got := ztake n (zdrop (bs_pos rs) b) in
    let rs := set_offset rs (bs_pos rs + len got) (bs_offset rs + len got) in
    if bs_offset rs =? bs_contentLength rs then (rs, r, got, Some sEOF)
    else if n =? len got then (rs, r, got, None)
    else read_wire rs r got (n - len got)
  else read_wire rs r [] n.

(** Read into a slice of [n] octets. *)
Definition bs_Read (rs : bodyStream) (r : reader) (n : Z) : outcome (bodyStream * reader * bytes * option streamErr) :=
  if bs_contentLength rs =? -1 then read_chunked rs r n else Ret (read_fixed rs r n).

(** ** Giving up the rest *)

Fixpoint skip_chunks (fuel : nat) (rs : bodyStream) (r : reader) : outcome (bodyStream * reader * option streamErr) :=
  match fuel with
  | O => OutOfFuel
  | S fuel =>
      match ParseChunkSize r with
      | (r, Err e) => Ret (rs, r, Some (size_err e))
      | (r, Ok chunkSize) =>
          if chunkSize =? 0 then
            run (_, r, err) <- SkipTrailer r;
            Ret (set_chunk rs (bs_chunkLeft rs) true, r, trailer_err <$> err)
          else match BodyRead.Skip r chunkSize with
               | (r, false) => Ret (rs, r, Some (sNet errNotEnough))
               | (r, true) =>
                   match ReqParse.Peek r (len CRLF) with
                   | (r, None) => Ret (rs, r, Some sEOF)
                   | (r, Some crlf) =>
                       if negb (bytes_eqb crlf CRLF) then Ret (rs, r, Some (sBody errBrokenChunk))
                       else skip_chunks fuel rs (BodyRead.Skip r (len CRLF)).1
                   end
               end
      end
  end.

(** The loop over the octets of a body of known length. *)
Fixpoint skip_octets (fuel : nat) (r : reader) (need : Z) : outcome (reader * option streamErr) :=
  match fuel with
  | O => OutOfFuel
  | S fuel =>
      match (if len (rd_buf r) =? 0 then ReqParse.Peek r 1 else (r, Some [])) with
      | (r, None) => Ret (r, Some sEOF)
      | (r, Some _) =>
          let skip := if len (rd_buf r) >? need then need else len (rd_buf r) in
          let r := (BodyRead.Skip r skip).1 in
          if need - skip =? 0 then Ret (r, None) else skip_octets fuel r (need - skip)
      end
  end.

(** Every round takes an octet. *)
Definition skipRest (rs : bodyStream) (r : reader) : outcome (bodyStream * reader * option streamErr) :=
  match bs_prefetched rs with
  | None => Ret (rs, r, None)
  | Some b =>
      if bs_contentLength rs =? -1 then
        if bs_chunkEOF rs then Ret (rs, r, None) else skip_chunks (S (length (stream r))) rs r
      else
        let pSize := len b in
        if (bs_contentLength rs <=? pSize) || (bs_offset rs =? bs_contentLength rs) then Ret (rs, r, None)
        else
          let need := if bs_offset rs >? pSize then bs_contentLength rs - bs_offset rs else bs_contentLength rs - pSize in
          run (r, err) <- skip_octets (S (length (stream r))) r need;
          Ret (rs, r, err)
  end.

Definition ReleaseBodyStream (rs : bodyStream) (r : reader) : outcome (bodyStream * reader * option streamErr) :=
  run (rs, r, err) <- skipRest rs r; Ret (bs_reset rs, r, err).

(** ** A chunked body, read to its end *)

(** Reads into slices of the sizes given, up to an error. *)
Fixpoint read_all (fuel : nat) (sizes : nat -> Z) (rs : bodyStream) (r : reader) (acc : bytes) : outcome (bodyStream * reader * bytes * streamErr) :=
  match fuel with
  | O => OutOfFuel
  | S fuel =>
      run (rs, r, b, err) <- bs_Read rs r (sizes fuel);
      match err with
      | Some e => Ret (rs, r, acc ++ b, e)
      | None => read_all fuel sizes rs r (acc ++ b)
      end
  end.

(** In the middle of a body: what is left of the chunk, the chunks behind it, and the rest. *)
Record within (rs : bodyStream) (r : reader) (cur : bytes) (reads : list bytes) (rest : bytes) : Prop := {
  wi_chunked : bs_contentLength rs = -1;
  wi_left : bs_chunkLeft rs = len cur;
  wi_eof : bs_chunkEOF rs = false;
  wi_chunks : Forall chunk_ok reads;
  wi_stream : stream r = (match cur with [] => [] | _ => cur ++ CRLF end) ++ chunks reads ++ rest
}.

Lemma SkipCRLF_there r rest : stream r = CRLF ++ rest -> exists r', SkipCRLF r = (r', None) /\ stream r' = rest.
Proof.
  intros E. unfold SkipCRLF. destruct (Peek_Skip r (len CRLF) CRLF rest E eq_refl) as (r' & r'' & -> & E2 & _ & E3).
  rewrite (proj2 (bytes_eqb_eq _ _)) by done. cbn [negb]. rewrite E2. by exists r''.
Qed.

Lemma read_chunk_ok rs r cur reads rest n : within rs r cur reads rest -> cur <> [] -> 0 < n ->
  exists rs' r' b cur', read_chunk rs r n = (rs', r', b, None) /\ within rs' r' cur' reads rest /\ b <> [] /\ cur = b ++ cur' /\ bs_trailer rs' = bs_trailer rs.
Proof.
  intros [W1 W2 W3 W4 W5] Hc Hn. assert (0 < len cur) as Hl by (destruct cur; [done|glen]).
  unfold read_chunk. cbv zeta. rewrite W2. set (k := if n >? len cur then len cur else n).
  assert (0 < k <= len cur) as Hk by (unfold k; case_if; breflect; lia). assert (len (ztake k cur) = k) as Hlk by (apply len_ztake; lia).
  assert (stream r = ztake k cur ++ (zdrop k cur ++ CRLF) ++ chunks reads ++ rest) as E.
  { rewrite W5. destruct cur as [|x cur]; [done|]. rewrite !app_assoc. by rewrite ztake_zdrop. }
  destruct (Peek_Skip r k (ztake k cur) _ E (eq_sym Hlk)) as (r1 & r2 & -> & E2 & _ & E3). rewrite Hlk, E2. cbn [fst].
  assert (ztake k cur <> []) as Hne by (intros E0; rewrite E0, len_nil in Hlk; lia). assert (cur = ztake k cur ++ zdrop k cur) as Ec by by rewrite ztake_zdrop.
  assert (len (zdrop k cur) = len cur - k) as Hld by (apply len_zdrop; lia).
  destruct (len cur - k =? 0) eqn:E0; breflect.
  - assert (zdrop k cur = []) as Ed by (apply len_0_inv; lia). rewrite Ed in E3. cbn [app] in E3. destruct (SkipCRLF_there r2 _ E3) as (r3 & -> & E4).
    eexists _, r3, _, []. split; [done|]. split_and!; [|done|by rewrite app_nil_r, Ec at 1; rewrite Ed, app_nil_r|done]. split; try done.
  - eexists _, r2, _, (zdrop k cur). split; [done|]. split_and!; [|done|done|done]. split; try done. rewrite E3.
    destruct (zdrop k cur) as [|y d]; [rewrite len_nil in Hld; lia|]. by rewrite <- !app_assoc.
Qed.

Lemma read_step rs r cur reads rest n : within rs r cur reads rest -> cur ++ concat reads <> [] -> 0 < n ->
  exists rs' r' b cur' reads', bs_Read rs r n = Ret (rs', r', b, None) /\ within rs' r' cur' reads' rest /\ b <> [] /\
    cur ++ concat reads = b ++ cur' ++ concat reads' /\ bs_trailer rs' = bs_trailer rs.
Proof.
  intros Hw Hne Hn. pose proof Hw as [W1 W2 W3 W4 W5]. unfold bs_Read. rewrite W1. cbn [Z.eqb Pos.eqb]. unfold read_chunked. rewrite W3, W2.
  destruct cur as [|x cur].
  - change (len [] =? 0) with true. cbn [app] in *. destruct reads as [|c reads]; [done|]. apply Forall_cons in W4 as [Hc W4]. unfold chunk_ok in Hc.
    rewrite chunks_cons in W5. unfold chunk in W5. rewrite <- !app_assoc in W5.
    destruct (ParseChunkSize_printed r (len c) _ ltac:(lia) W5) as (r1 & -> & E1). rewrite (proj2 (Z.eqb_neq _ _)) by lia.
    destruct (read_chunk_ok (set_chunk rs (len c) false) r1 c reads rest n) as (rs' & r' & b & cur' & E & Hw' & Hb & -> & Ht); [|intros E0; subst c; change (len []) with 0 in Hc; lia|done|].
    { split; try done. rewrite E1. destruct c; [change (len []) with 0 in Hc; lia|]. by rewrite <- app_assoc. }
    rewrite E. eexists _, r', b, cur', reads. split; [done|]. split_and!; [done|done|cbn [concat]; by rewrite <- app_assoc|done].
  - rewrite (proj2 (Z.eqb_neq _ _)) by (rewrite len_cons; pose proof (len_nonneg cur); lia).
    destruct (read_chunk_ok rs r (x :: cur) reads rest n Hw) as (rs' & r' & b & cur' & E & Hw' & Hb & -> & Ht); [done|done|].
    rewrite E. eexists _, r', b, cur', reads. split; [done|]. split_and!; [done|done|by rewrite <- app_assoc|done].
Qed.

Definition trailer_ok (l : list argsKV) : Prop :=
  Forall (fun kv => trailer_name (kv_key kv)) l /\ Forall (fun kv => value_ok (kv_value kv)) l /\ NoDup (kv_key <$> l) /\
  (forall kv, head l = Some kv -> head (kv_key kv) <> Some 48).

Lemma read_all_chunks fuel : forall sizes rs r cur reads acc l rest, (length (cur ++ concat reads) < fuel)%nat -> (forall i, 0 < sizes i) -> trailer_ok l ->
  within rs r cur reads (block (pairs l) ++ [13; 10] ++ rest) -> bs_trailer rs = mkTrailer (announced <$> l) false ->
  exists rs' r', read_all fuel sizes rs r acc = Ret (rs', r', acc ++ cur ++ concat reads, sEOF) /\ stream r' = rest /\
    bs_contentLength rs' = -1 /\ bs_chunkEOF rs' = true /\ bs_trailer rs' = mkTrailer (given <$> l) false.
Proof.
  induction fuel as [|fuel IH]; intros sizes rs r cur reads acc l rest Hf Hs Hl Hw Ht; [lia|]. cbn [read_all].
  destruct (decide (cur ++ concat reads = [])) as [E0|E0].
  - pose proof Hw as [W1 W2 W3 W4 W5]. destruct cur as [|? ?]; [|done]. cbn [app] in E0. rewrite E0. destruct reads as [|c reads].
    2:{ apply Forall_cons in W4 as [Hc _]. destruct c; [by destruct Hc|done]. }
    unfold bs_Read, read_chunked. rewrite W1, W2, W3. change (len [] =? 0) with true. cbn [Z.eqb Pos.eqb app] in *. unfold chunks in W5. cbn [mbind list_bind app] in W5.
    rewrite <- !app_assoc in W5. destruct (ParseChunkSize_printed r 0 _ ltac:(lia) W5) as (r1 & -> & E1). cbn [Z.eqb]. rewrite Ht.
    destruct Hl as (L1 & L2 & L3 & L4). destruct (ReadTrailer_block l r1 rest L1 L2 L3 L4 E1) as (r2 & -> & E2). cbn [outcome_bind].
    eexists _, r2. split; [done|]. done.
  - destruct (read_step rs r cur reads _ (sizes fuel) Hw E0 (Hs fuel)) as (rs1 & r1 & b & cur' & reads' & -> & Hw' & Hb & Ec & Ht'). cbn [outcome_bind].
    rewrite Ec in Hf |- *. rewrite Ht in Ht'. destruct (IH sizes rs1 r1 cur' reads' (acc ++ b) l rest) as (rs' & r' & -> & H'); try done.
    + rewrite length_app in Hf. destruct b; [done|]. cbn [length] in Hf. lia.
    + exists rs', r'. by rewrite <- !app_assoc.
Qed.

(** C16: A chunked body read from the stream is the body: whatever the sizes of the slices
    and the cuts into chunks and into pieces that arrive, the reads return octets until all
    have been read, in order, then end of file with the trailer's values set; the reader is
    left at what follows the message, and no more reads are needed than there are octets. *)
Theorem stream_reads_chunks (sizes : nat -> Z) (reads : list bytes) (l : list argsKV) (r : reader) (rest : bytes) :
  Forall chunk_ok reads -> trailer_ok l -> (forall i, 0 < sizes i) ->
  stream r = WriteTrailer (mkTrailer l false) (chunks reads) ++ rest ->
  exists rs' r', read_all (S (length (concat reads))) sizes (AcquireBodyStream [] (mkTrailer (announced <$> l) false) (-1)) r [] =
      Ret (rs', r', concat reads, sEOF) /\ stream r' = rest /\ bs_trailer rs' = mkTrailer (given <$> l) false /\ skipRest rs' r' = Ret (rs', r', None).
Proof.
  intros Hc Hl Hs E. rewrite WriteTrailer_block in E by apply Hl. rewrite <- !app_assoc in E.
  destruct (read_all_chunks (S (length (concat reads))) sizes (AcquireBodyStream [] (mkTrailer (announced <$> l) false) (-1)) r [] reads [] l rest)
    as (rs' & r' & E1 & E2 & E3 & E4 & E5); try done; [cbn; lia|].
  exists rs', r'. split_and!; try done. unfold skipRest. destruct (bs_prefetched rs'); [|done]. by rewrite E3, E4.
Qed.

(** What is left of a body of known length is skipped, and no more. *)
Lemma skip_octets_ok fuel : forall r need, (length (stream r) < fuel)%nat -> 0 < need <= len (stream r) ->
  exists r', skip_octets fuel r need = Ret (r', None) /\ stream r' = zdrop need (stream r).
Proof.
  induction fuel as [|fuel IH]; intros r need Hf Hn; [lia|]. cbn [skip_octets].
  assert (exists r1 x, (if len (rd_buf r) =? 0 then ReqParse.Peek r 1 else (r, Some [])) = (r1, Some x) /\ stream r1 = stream r /\ 0 < len (rd_buf r1)) as (r1 & x & -> & E1 & Hb).
  { pose proof (len_nonneg (rd_buf r)). destruct (len (rd_buf r) =? 0) eqn:E0; breflect.
    - destruct (Peek_some r 1) as (r1 & -> & E1 & Hl); [lia|]. exists r1. eexists. split_and!; [done|done|lia].
    - exists r, []. split_and!; [done|done|lia]. }
  cbv zeta. set (skip := if len (rd_buf r1) >? need then need else len (rd_buf r1)).
  assert (0 < skip <= need /\ skip <= len (rd_buf r1)) as [Hs1 Hs2] by (unfold skip; case_if; breflect; lia).
  destruct (Skip_stream r1 skip Hs2) as (r2 & -> & E2). cbn [fst]. rewrite E1 in E2. case_if; breflect.
  - exists r2. split; [done|]. rewrite E2. f_equal. lia.
  - assert (length (stream r2) < fuel)%nat by (rewrite E2; unfold zdrop; rewrite length_drop; unfold len in *; lia).
    destruct (IH r2 (need - skip)) as (r' & E & E'); [done|rewrite E2, len_zdrop by lia; lia|]. exists r'. split; [done|].
    rewrite E', E2. unfold zdrop. rewrite drop_drop. f_equal. lia.
Qed.

Module StreamSample.
Definition foo : argsKV := mkKV (str "Foo") (str "bar") false.

Lemma foo_ok : trailer_ok [foo].
Proof.
  split_and!.
  - apply Forall_singleton. split; [done|apply known_token; vm_compute; reflexivity|vm_compute; reflexivity|vm_compute; reflexivity].
  - apply Forall_singleton. apply Sample.value_check. vm_compute. reflexivity.
  - apply NoDup_singleton.
  - intros kv [= <-]. done.
Qed.

Definition text : bytes := WriteTrailer (mkTrailer [foo] false) (chunks [str "hello"; str "!!"]) ++ str "HTTP".
Definition arriving : reader := mkReader (take 4 text) [take 9 (drop 4 text); drop 13 text].

Lemma stream_reads_chunks_witness :
  exists rs' r', read_all 8 (fun i => Z.of_nat (S i)) (AcquireBodyStream [] (mkTrailer [announced foo] false) (-1)) arriving [] =
      Ret (rs', r', str "hello!!", sEOF) /\ stream r' = str "HTTP" /\ bs_trailer rs' = mkTrailer [given foo] false /\ skipRest rs' r' = Ret (rs', r', None).
Proof.
  apply (stream_reads_chunks (fun i => Z.of_nat (S i)) [str "hello"; str "!!"] [foo] arriving (str "HTTP")).
  - apply Forall_cons. split; [done|]. by apply Forall_singleton.
  - apply foo_ok.
  - intros i. lia.
  - vm_eq.
Defined.

(** One read of [n] octets, and the octets left. *)
Definition reads (rs : bodyStream) (b : bytes) (n : Z) : option (bytes * option streamErr * bytes) :=
  match bs_Read rs (mkReader b []) n with Ret (_, r, got, e) => Some (got, e, stream r) | _ => None end.

(** A read, and then the stream is closed: the error and the octets left. *)
Definition closes (rs : bodyStream) (b : bytes) (n : Z) : option (option streamErr * bytes) :=
  match (run (rs, r, _, _) <- bs_Read rs (mkReader b []) n; skipRest rs r) with Ret (_, r, e) => Some (e, stream r) | _ => None end.

(** Where the stream is not the body.  A body of known length is read beyond its end, into
    the next response, and the end is then never seen.  What is read before the stream is
    made can be more than the body.  A stream that is closed in the middle of a chunk takes
    the octets of the chunk for the sizes of chunks: the connection goes on to the next
    response inside the body.  And a trailer that is cut off counts as the end. *)
Lemma stream_defects :
  reads (AcquireBodyStream (str "he") newTrailer 5) (str "lloHTTP") 10 = Some (str "helloHTTP", None, []) /\
  (run (r, b, e) <- ReadBodyWithStreaming (mkReader (str "helloHTTP") []) 5 2 (mkSlice [] 0); Ret (sl_data b, stream r)) = Ret (str "helloHTTP", []) /\
  closes (AcquireBodyStream [] newTrailer (-1)) (str "a" ++ CRLF ++ str "x0" ++ CRLF ++ CRLF ++ str "HTTP" ++ CRLF ++ str "0" ++ CRLF ++ CRLF) 1 =
    Some (None, str "HTTP" ++ CRLF ++ str "0" ++ CRLF ++ CRLF) /\
  reads (AcquireBodyStream [] newTrailer (-1)) (str "0" ++ CRLF ++ str "Foo: b") 10 = Some ([], Some sEOF, str "Foo: b").
Proof. split_and!; vm_eq. Qed.
End StreamSample.
