(* ===== verification/Nio.v ===== *)
(** * Message sessions

    [pkg/nio]: messages with a length, a flag and a body over a connection (codec.go), the
    loop that reads them (handler.go) and the sessions of a server (server.go).  The
    compression of compress/gzip is a parameter, what the helpers of [pkg/tools/gzip.go]
    make of it is not; the body of a message is what ToByte makes of the caller's value.
    Not modelled: the goroutines that call back (messages are delivered in order, as with
    the option [ordered]), and logging. *)

From S2P Require Import Prelude Bytes.

Section Codec.
Context (deflate inflate : bytes -> bytes).

(** ** The codec *)

Definition Gzip (data : bytes) : bytes := if len data =? 0 then [] else deflate data.
Definition Gunzip (data : bytes) : bytes := if len data =? 0 then [] else inflate data.

Record Msg := mkMsg {
  m_flag : Z;
  m_length : Z;
  m_body : option bytes;
  m_bytes : bytes
}.

Definition NewMsg (flag : Z) (body : option bytes) : Msg := mkMsg flag 0 body [].

Context (gzip : bool).

(** What is sent of a body. *)
Definition packed (body : bytes) : bytes := if gzip then Gzip body else body.

(** The message with its length, and the octets. *)
Definition Encode (msg : Msg) : Msg * bytes :=
  let '(msg, b) := match m_body msg with
                   | None => (mkMsg (m_flag msg) 1 None (m_bytes msg), [])
                   | Some body => (mkMsg (m_flag msg) (u32 (len (packed body) + 1)) (Some body) body, packed body)
                   end in
  (msg, put_uint32 (m_length msg) ++ [m_flag msg] ++ b).

(** The message so far, what is left of the buffer, and whether the message is complete.
    The length and the flag are taken from the buffer on every call. *)
Definition Decode (msg : Msg) (buf : bytes) : Msg * bytes * bool :=
  if len buf >=? 5 then
    let msg := mkMsg (hd 0 (zdrop 4 buf)) (be_uint32 buf) (m_body msg) (m_bytes msg) in
    let buf := zdrop 5 buf in
    if m_length msg =? 1 then (msg, buf, true)
    else
      let n := u32 (m_length msg - 1) in
      if bool_decide (m_body msg = None) && (len buf >=? n)
      then (mkMsg (m_flag msg) (m_length msg) None (if gzip then Gunzip (ztake n buf) else ztake n buf), zdrop n buf, true)
      else (msg, buf, false)
  else (msg, buf, false).

(** ** The loop that reads *)

(** The loop over what is in the buffer; every message takes five octets at least. *)
Fixpoint decode_loop (fuel : nat) (last : Msg) (buf : bytes) : outcome (list Msg * Msg * bytes) :=
  match fuel with
  | O => OutOfFuel
  | S fuel =>
      match Decode last buf with
      | (last, buf, true) => run (l, last', buf) <- decode_loop fuel (NewMsg 0 None) buf; Ret (last :: l, last', buf)
      | (last, buf, false) => Ret ([], last, buf)
      end
  end.

(** What a read of the connection returns: octets, an error that says the connection is
    closed, or another error. *)
Inductive ioRead : Type :=
| IOData (p : bytes)
| IOClosed
| IOError.

(** The messages delivered, the calls of OnException, and whether the session was closed.
    After three errors in a row it is. *)
Fixpoint readIO (last : Msg) (buf : bytes) (failTimes : Z) (reads : list ioRead) : outcome (list Msg * Z * bool) :=
  match reads with
  | [] => Ret ([], 0, false)
  | IOClosed :: _ => Ret ([], 0, true)
  | IOError :: reads =>
      if failTimes + 1 >=? 3 then Ret ([], 1, true)
      else run (l, n, closed) <- readIO last buf (failTimes + 1) reads; Ret (l, n + 1, closed)
  | IOData p :: reads =>
      if len p >? 0 then
        run (l, last, buf) <- decode_loop (S (length (buf ++ p))) last (buf ++ p);
        run (l', n, closed) <- readIO last buf 0 reads;
        Ret (l ++ l', n, closed)
      else readIO last buf 0 reads
  end.

(** ** Sent and received *)

Context (inflate_deflate : forall b, b <> [] -> inflate (deflate b) = b /\ deflate b <> []).

(** What a receiver sees of a message: the flag and the octets of the body. *)
Definition seen (m : Msg) : Z * bytes := (m_flag m, m_bytes m).
Definition sent (m : Msg) : Z * bytes := (m_flag m, default [] (m_body m)).

Definition wire (m : Msg) : bytes := (Encode m).2.

(** A message that can be sent: its packed body fits the length. *)
Record msg_ok (m : Msg) : Prop := {
  mo_flag : is_u8 (m_flag m);
  mo_size : len (packed (default [] (m_body m))) + 1 < 2 ^ 32
}.

Lemma packed_nil b : packed b = [] -> b = [].
Proof.
  unfold packed, Gzip. destruct gzip; [|done]. destruct b as [|x b]; [done|]. case_if; [breflect; rewrite len_cons in *; pose proof (len_nonneg b); lia|].
  intros E. by destruct (inflate_deflate (x :: b)).
Qed.

Lemma unpacked b : packed b <> [] -> (if gzip then Gunzip (packed b) else packed b) = b.
Proof.
  unfold packed, Gzip, Gunzip. destruct gzip; [|done]. destruct (len b =? 0) eqn:E; breflect; [done|]. intros Hne.
  rewrite (proj2 (Z.eqb_neq _ _)) by (intros E0; apply Hne; by apply len_0_inv). apply inflate_deflate. intros ->. done.
Qed.

Lemma wire_parts m : wire m = put_uint32 (u32 (len (packed (default [] (m_body m))) + 1)) ++ [m_flag m] ++ packed (default [] (m_body m)).
Proof.
  unfold wire, Encode. destruct (m_body m) as [b|]; cbn [fst snd default from_option id m_length m_flag]; [done|].
  assert (packed [] = []) as -> by (unfold packed, Gzip; by destruct gzip). done.
Qed.

Lemma wire_long m : 5 <= len (wire m).
Proof. rewrite wire_parts, !len_app, len_put_uint32. change (len [m_flag m]) with 1. pose proof (len_nonneg (packed (default [] (m_body m)))). lia. Qed.

Lemma Decode_wire m rest : msg_ok m -> exists m', Decode (NewMsg 0 None) (wire m ++ rest) = (m', rest, true) /\ seen m' = sent m.
Proof.
  intros [Hf Hs]. set (b := default [] (m_body m)) in *. pose proof (len_nonneg (packed b)). pose proof (wire_long m) as Hw. pose proof (len_nonneg rest).
  unfold Decode. rewrite (proj2 (Z.geb_le _ _)) by (rewrite len_app; lia). rewrite wire_parts. fold b.
  assert (u32 (len (packed b) + 1) = len (packed b) + 1) as Eu by (apply u32_id; unfold is_u32; lia). rewrite Eu, <- !app_assoc.
  rewrite be_uint32_put by (unfold is_u32; lia). cbv zeta. cbn [m_length m_body m_flag m_bytes NewMsg].
  rewrite (zdrop_app_at 4) by (by rewrite len_put_uint32). cbn [app hd].
  assert (zdrop 5 (put_uint32 (len (packed b) + 1) ++ m_flag m :: packed b ++ rest) = packed b ++ rest) as ->.
  { change (m_flag m :: packed b ++ rest) with ([m_flag m] ++ packed b ++ rest). rewrite app_assoc. apply zdrop_app_at. by rewrite len_app, len_put_uint32. }
  destruct (len (packed b) + 1 =? 1) eqn:E1; breflect.
  - assert (packed b = []) as Ep by (apply len_0_inv; lia). rewrite Ep. eexists. split; [done|]. unfold seen, sent. cbn. fold b. by rewrite (packed_nil b Ep).
  - assert (u32 (len (packed b) + 1 - 1) = len (packed b)) as -> by (rewrite u32_id; [lia|unfold is_u32; lia]).
    rewrite bool_decide_true by done. rewrite (proj2 (Z.geb_le _ _)) by (rewrite len_app; lia). cbn [andb]. rewrite ztake_app, zdrop_app.
    eexists. split; [done|]. unfold seen, sent. cbn [m_flag m_bytes]. fold b. rewrite unpacked; [done|]. intros E. rewrite E, len_nil in E1. lia.
Qed.

Lemma Decode_short t : len t < 5 -> Decode (NewMsg 0 None) t = (NewMsg 0 None, t, false).
Proof. intros H. unfold Decode. destruct (len t >=? 5) eqn:E; breflect; [lia|done]. Qed.

Lemma decode_loop_wires ms : forall fuel t, (length (concat (wire <$> ms) ++ t) < fuel)%nat -> Forall msg_ok ms -> len t < 5 ->
  exists l, decode_loop fuel (NewMsg 0 None) (concat (wire <$> ms) ++ t) = Ret (l, NewMsg 0 None, t) /\ seen <$> l = sent <$> ms.
Proof.
  induction ms as [|m ms IH]; intros fuel t Hf Hms Ht; (destruct fuel as [|fuel]; [lia|]); cbn [decode_loop].
  - cbn [fmap list_fmap concat app]. rewrite Decode_short by done. by exists [].
  - apply Forall_cons in Hms as [Hm Hms]. rewrite fmap_cons in *. cbn [concat] in *. rewrite <- app_assoc in *.
    destruct (Decode_wire m (concat (wire <$> ms) ++ t) Hm) as (m' & -> & E). pose proof (wire_long m) as Hl.
    destruct (IH fuel t) as (l & -> & E'); [unfold len in *; rewrite length_app in Hf; lia|done|done|]. cbn [outcome_bind].
    exists (m' :: l). split; [done|]. by rewrite !fmap_cons, E, E'.
Qed.

(** ** Where the pieces may end *)

Definition total (ms : list Msg) : Z := len (concat (wire <$> ms)).

(** Every piece ends behind a whole message, or within the five octets in front of a body. *)
Definition cuts_ok (ms : list Msg) (pend : bytes) (pieces : list bytes) : Prop :=
  forall n : nat, exists k : nat, 0 <= len (pend ++ concat (take n pieces)) - total (take k ms) < 5.

Lemma total_app a b : total (a ++ b) = total a + total b.
Proof. unfold total. by rewrite fmap_app, concat_app, len_app. Qed.

Lemma total_nonneg ms : 0 <= total ms.
Proof. apply len_nonneg. Qed.

Lemma cuts_later ms k t pend p pieces : cuts_ok ms pend (p :: pieces) -> len t = len (pend ++ p) - total (take k ms) -> cuts_ok (drop k ms) t pieces.
Proof.
  intros H Et n. destruct (H (S n)) as [k' Hk']. cbn [take concat] in Hk'. rewrite !len_app in *.
  pose proof (len_nonneg t). pose proof (len_nonneg (concat (take n pieces))).
  destruct (decide (k <= k')%nat) as [Hle|Hgt].
  - exists (k' - k)%nat. assert (total (take k' ms) = total (take k ms) + total (take (k' - k) (drop k ms))) as E.
    { rewrite <- total_app. f_equal. replace k' with (k + (k' - k))%nat at 1 by lia. symmetry. apply take_take_drop. }
    lia.
  - exists 0%nat. change (total (take 0 (drop k ms))) with 0.
    assert (total (take k ms) = total (take k' ms) + total (take (k - k') (drop k' ms))) as E.
    { rewrite <- total_app. f_equal. replace k with (k' + (k - k'))%nat at 1 by lia. symmetry. apply take_take_drop. }
    pose proof (total_nonneg (take (k - k') (drop k' ms))). lia.
Qed.

(** A part of what was sent, up to a cut. *)
Lemma split_at_cut ms b rest k : b ++ rest = concat (wire <$> ms) -> 0 <= len b - total (take k ms) < 5 ->
  exists t, b = concat (wire <$> take k ms) ++ t /\ len t = len b - total (take k ms) /\ t ++ rest = concat (wire <$> drop k ms).
Proof.
  intros E Hk. rewrite <- (take_drop k ms), fmap_app, concat_app in E. unfold total in *.
  set (a := concat (wire <$> take k ms)) in *. exists (zdrop (len a) b).
  assert (b = a ++ zdrop (len a) b) as Eb.
  { rewrite <- (ztake_zdrop (len a) b) at 1. f_equal. assert (ztake (len a) (b ++ rest) = ztake (len a) b) as <-.
    { unfold ztake, len in *. apply take_app_le. lia. }
    rewrite E. apply ztake_app. }
  split_and!; [done|rewrite Eb at 2; rewrite len_app; lia|]. apply (app_inv_head a). by rewrite app_assoc, <- Eb.
Qed.

Lemma readIO_cuts pieces : forall ms pend, Forall msg_ok ms -> len pend < 5 -> pend ++ concat pieces = concat (wire <$> ms) -> cuts_ok ms pend pieces ->
  forall failTimes, exists l, readIO (NewMsg 0 None) pend failTimes (IOData <$> pieces) = Ret (l, 0, false) /\ seen <$> l = sent <$> ms.
Proof.
  induction pieces as [|p pieces IH]; intros ms pend Hms Hp E Hc failTimes; cbn [fmap list_fmap readIO].
  - cbn in E. rewrite app_nil_r in E. destruct ms as [|m ms]; [by exists []|]. pose proof (wire_long m) as Hl. rewrite fmap_cons in E. cbn [concat] in E.
    rewrite E, len_app in Hp. pose proof (len_nonneg (concat (wire <$> ms))). lia.
  - cbn [concat] in E. destruct (len p >? 0) eqn:E0; breflect.
    + destruct (Hc 1%nat) as [k Hk]. cbn [take concat] in Hk. rewrite app_nil_r in Hk. rewrite app_assoc in E.
      destruct (split_at_cut ms (pend ++ p) (concat pieces) k E Hk) as (t & E1 & E2 & E3).
      destruct (decode_loop_wires (take k ms) (S (length (pend ++ p))) t) as (l & El & Es); [rewrite <- E1; lia|by apply Forall_take|lia|].
      rewrite <- E1 in El. rewrite El. cbn [outcome_bind].
      destruct (fun A B C D => IH (drop k ms) t A B C D 0) as (l' & El' & Es'); [by apply Forall_drop|lia|done|by eapply cuts_later|]. change (list_fmap bytes ioRead IOData pieces) with (IOData <$> pieces). rewrite El'. cbn [outcome_bind].
      exists (l ++ l'). split; [done|]. by rewrite fmap_app, Es, Es', <- fmap_app, take_drop.
    + assert (p = []) as -> by (apply len_0_inv; pose proof (len_nonneg p); lia). apply IH; try done. intros n. apply (Hc (S n)).
Qed.
End Codec.

(** C31: Messages are delivered as they were sent, in order and whole, however many arrive at
    once, packed or not, provided that no read ends inside a body: the pieces may end behind
    a message or within the five octets in front of a body, but not right behind them.  For other pieces see
    [nio_defects]. *)
Theorem nio_delivers (deflate inflate : bytes -> bytes) (gzip : bool) (ms : list Msg) (pieces : list bytes) :
  (forall b, b <> [] -> inflate (deflate b) = b /\ deflate b <> []) -> Forall (msg_ok deflate gzip) ms ->
  concat pieces = concat (wire deflate gzip <$> ms) -> cuts_ok deflate gzip ms [] pieces ->
  exists l, readIO inflate gzip (NewMsg 0 None) [] 0 (IOData <$> pieces) = Ret (l, 0, false) /\ seen <$> l = sent <$> ms.
Proof. intros Hd Hms E Hc. by apply (readIO_cuts deflate inflate gzip Hd pieces ms []). Qed.

(** ** The sessions of a server *)

(** The map keeps an entry without a session for one that was removed. *)
Record Server := mkServer {
  sv_buildSessionID : Z;
  sv_sessions : gmap Z (option Z);
  sv_sessionCnt : Z;
  sv_closed : list (option Z)
}.

Definition newServer : Server := mkServer 0 ∅ 0 [].

(** The eight octets that tell a client its number. *)
Definition syncSession (id : Z) : bytes := put_uint32 (u32 (Z.shiftr id 32)) ++ put_uint32 (u32 id).

Definition addSession (s : Server) (id : Z) : Server :=
  mkServer (sv_buildSessionID s) (<[id := Some id]> (sv_sessions s)) (sv_sessionCnt s + 1) (sv_closed s).

(** A connection that is accepted, and what is written to it; writing may fail. *)
Definition handlerConnection (s : Server) (fails : bool) : Server * bytes :=
  let id := i64 (sv_buildSessionID s + 1) in
  let s := mkServer id (sv_sessions s) (sv_sessionCnt s) (sv_closed s) in
  if fails then (s, []) else (addSession s id, syncSession id).

(** removeSession with the call of OnSessionClosed. *)
Definition removeSession (s : Server) (id : Z) : Server :=
  mkServer (sv_buildSessionID s) (<[id := None]> (sv_sessions s)) (sv_sessionCnt s - 1) (sv_closed s ++ [default None (sv_sessions s !! id)]).

Definition GetSessionCount (s : Server) : Z := sv_sessionCnt s.

Inductive sop : Type := SOpen | SClose (id : Z).

(** The sessions that are open; a session is closed once. *)
Inductive sessions_run : list sop -> Server -> gset Z -> Prop :=
| run_start : sessions_run [] newServer ∅
| run_open l s live : sessions_run l s live -> sv_buildSessionID s + 1 < 2 ^ 63 ->
    sessions_run (l ++ [SOpen]) (handlerConnection s false).1 ({[sv_buildSessionID s + 1]} ∪ live)
| run_close l s live id : sessions_run l s live -> id ∈ live -> sessions_run (l ++ [SClose id]) (removeSession s id) (live ∖ {[id]}).

(** The count is the number of open sessions, each has its own number, and every callback
    gets the session it is about. *)
Lemma sessions_counted l s live : sessions_run l s live ->
  GetSessionCount s = Z.of_nat (size live) /\ 0 <= sv_buildSessionID s /\
  (forall id, id ∈ live -> 0 < id <= sv_buildSessionID s /\ sv_sessions s !! id = Some (Some id)) /\ Forall is_Some (sv_closed s).
Proof.
  unfold GetSessionCount. induction 1 as [|l s live _ (C & B & L & F) Hb|l s live id _ (C & B & L & F) Hid].
  - split_and!; [done|done|set_solver|constructor].
  - cbn [handlerConnection addSession fst sv_sessionCnt sv_buildSessionID sv_sessions sv_closed].
    assert (i64 (sv_buildSessionID s + 1) = sv_buildSessionID s + 1) as -> by (apply i64_id; unfold is_i64; lia).
    split_and!; [|lia| |done].
    + rewrite size_union, size_singleton by (intros x Hx ?; assert (x = sv_buildSessionID s + 1) by set_solver; specialize (L x); naive_solver lia). lia.
    + intros id Hid. apply elem_of_union in Hid as [Hid|Hid].
      * apply elem_of_singleton in Hid as ->. split; [lia|by rewrite lookup_insert_eq].
      * destruct (L id Hid) as [? E]. split; [lia|]. by rewrite lookup_insert_ne by lia.
  - cbn [removeSession sv_sessionCnt sv_buildSessionID sv_sessions sv_closed]. destruct (L id Hid) as [? E]. split_and!; [|done| |].
    + rewrite size_difference, size_singleton by set_solver. assert (size live <> 0%nat); [|lia]. intros Ez. apply size_empty_inv in Ez. set_solver.
    + intros j Hj. apply elem_of_difference in Hj as [Hj Hne]. destruct (L j Hj) as [? Ej]. split; [lia|]. rewrite lookup_insert_ne by set_solver. done.
    + apply Forall_app. split; [done|]. apply Forall_singleton. by rewrite E.
Qed.

Module NioSample.
(** A packing that marks what it has packed. *)
Definition deflate (b : bytes) : bytes := 31 :: b.
Definition inflate (b : bytes) : bytes := tail b.

Definition msg (flag : Z) (s : string) : Msg := NewMsg flag (Some (str s)).
Definition two : list Msg := [msg 7 "hello"; NewMsg 8 None].
Definition octets : bytes := concat (wire deflate true <$> two).

(** The second piece begins within the length of the second message. *)
Lemma nio_delivers_witness : exists l, readIO inflate true (NewMsg 0 None) [] 0 [IOData (take 13 octets); IOData (drop 13 octets)] = Ret (l, 0, false) /\
  seen <$> l = [(7, str "hello"); (8, [])].
Proof.
  apply (nio_delivers deflate inflate true two [take 13 octets; drop 13 octets]).
  - intros b Hb. by split.
  - apply Forall_cons. split; [split; [done|by apply (bool_decide_unpack _)]|]. apply Forall_singleton. split; [done|by apply (bool_decide_unpack _)].
  - vm_eq.
  - intros [|[|[|n]]]; [exists 0%nat|exists 1%nat|exists 2%nat|exists 2%nat]; by apply (bool_decide_unpack _).
Defined.

Definition received (pieces : list bytes) : option (list (Z * bytes)) :=
  match readIO inflate false (NewMsg 0 None) [] 0 (IOData <$> pieces) with Ret (l, _, _) => Some (seen <$> l) | _ => None end.

Definition hello : bytes := wire deflate false (msg 7 "hello!").
Definition inner : bytes := wire deflate false (msg 9 "evil").

(** A message whose body arrives in two pieces is lost, with those behind it.  When the
    first piece ends in front of the body, the body is read as messages: who chooses the
    body can have any message delivered.  And a session that is closed twice is counted
    twice, the callback getting no session. *)
Lemma nio_defects :
  received [hello; hello] = Some [(7, str "hello!"); (7, str "hello!")] /\
  received [take 7 hello; drop 7 hello; hello] = Some [] /\
  (let outer := wire deflate false (NewMsg 7 (Some inner)) in received [outer] = Some [(7, inner)] /\ received [take 5 outer; drop 5 outer] = Some [(9, str "evil")]) /\
  (let s := (handlerConnection newServer false).1 in let s := removeSession (removeSession s 1) 1 in GetSessionCount s = -1 /\ sv_closed s = [Some 1; None]).
Proof. cbv zeta. split_and!; vm_eq. Qed.
End NioSample.
