(* ===== verification/Balance.v ===== *)
(** * The client's choice of instances, and its delays

    [web/app/client/loadbalance/weight_random.go]: the instance a request goes to is drawn
    with the weights of a cached table.  The draw of fastrand is a parameter of each call.
    [web/app/client/retry/retry.go]: how long to wait before the next attempt.  Durations
    are int64; a policy is a function of the attempt and of the configuration.  *)

From S2P Require Import Prelude Bytes.

(** ** Weighted choice *)

Record Instance := mkInstance { Address : bytes; Weight : Z }.

(** discovery.Result *)
Record Result := mkResult { CacheKey : string; Instances : list Instance }.

Record weightInfo := mkWI { wi_instances : list Instance; wi_entries : list Z; wi_weightSum : Z }.

Abbreviation weightedBalancer := (gmap string weightInfo).

(** The arrays are filled from the front; instances without a positive weight are left
    out, and the sum is an int. *)
Fixpoint calc_loop (l : list Instance) (w : weightInfo) : weightInfo :=
  match l with
  | [] => w
  | x :: l => calc_loop l (if Weight x >? 0 then mkWI (wi_instances w ++ [x]) (wi_entries w ++ [Weight x]) (i64 (wi_weightSum w + Weight x)) else w)
  end.

(** The entries behind those that are used stay zero. *)
Definition calcWeightInfo (e : Result) : weightInfo :=
  let w := calc_loop (Instances e) (mkWI [] [] 0) in
  mkWI (wi_instances w) (wi_entries w ++ replicate (length (Instances e) - length (wi_entries w)) 0) (wi_weightSum w).

Fixpoint pick_loop (instances : list Instance) (entries : list Z) (weight : Z) : outcome (option Instance) :=
  match instances with
  | [] => Ret None
  | x :: instances =>
      run e <- deref (head entries);
      let weight := weight - e in
      if weight <? 0 then Ret (Some x) else pick_loop instances (tail entries) weight
  end.

(** [draw] is what fastrand.Intn gives for a sum. *)
Definition Pick (wb : weightedBalancer) (e : Result) (draw : Z -> Z) : outcome (weightedBalancer * option Instance) :=
  let '(wb, w) := match wb !! CacheKey e with
                  | Some w => (wb, w)
                  | None => let w := calcWeightInfo e in (<[CacheKey e := w]> wb, w)
                  end in
  if wi_weightSum w <=? 0 then Ret (wb, None)
  else run x <- pick_loop (wi_instances w) (wi_entries w) (draw (wi_weightSum w)); Ret (wb, x).

Definition Rebalance (wb : weightedBalancer) (e : Result) : weightedBalancer := <[CacheKey e := calcWeightInfo e]> wb.

Definition Delete (wb : weightedBalancer) (cacheKey : string) : weightedBalancer := delete cacheKey wb.

(** *** Each instance has as many draws as its weight *)

Definition usable (e : Result) : list Instance := List.filter (fun x => Weight x >? 0) (Instances e).
Definition weights (l : list Instance) : Z := foldr (fun x s => Weight x + s) 0 l.

Lemma weights_cons x l : weights (x :: l) = Weight x + weights l.
Proof. done. Qed.

Lemma weights_pos l : Forall (fun x => 0 < Weight x) l -> 0 <= weights l.
Proof. induction 1 as [|x l Hx _ IH]; [done|]. cbn [weights foldr]. fold (weights l). lia. Qed.

Lemma usable_pos l : Forall (fun x => 0 < Weight x) (List.filter (fun x => Weight x >? 0) l).
Proof. induction l as [|x l IH]; cbn [List.filter]; [constructor|]. case_if; breflect; [by constructor|done]. Qed.

Lemma calc_loop_spec l : forall w, 0 <= wi_weightSum w -> wi_weightSum w + weights (List.filter (fun x => Weight x >? 0) l) < 2 ^ 63 ->
  calc_loop l w = mkWI (wi_instances w ++ List.filter (fun x => Weight x >? 0) l) (wi_entries w ++ (Weight <$> List.filter (fun x => Weight x >? 0) l))
    (wi_weightSum w + weights (List.filter (fun x => Weight x >? 0) l)).
Proof.
  induction l as [|x l IH]; intros w H0 H; cbn [calc_loop List.filter] in *.
  - cbn. rewrite !app_nil_r, Z.add_0_r. by destruct w.
  - pose proof (weights_pos _ (usable_pos l)) as Hp. destruct (Weight x >? 0) eqn:E; breflect; [|by apply IH].
    cbn [weights foldr] in *. fold (weights (List.filter (fun x => Weight x >? 0) l)) in *.
    assert (i64 (wi_weightSum w + Weight x) = wi_weightSum w + Weight x) as Ei by (apply i64_id; unfold is_i64; lia).
    rewrite IH; cbn [wi_weightSum wi_instances wi_entries]; rewrite Ei; [|lia|lia]. rewrite fmap_cons, <- !app_assoc. cbn [app]. f_equal. lia.
Qed.

Lemma pick_loop_range l : forall ent d, Forall (fun x => 0 < Weight x) l -> 0 <= d < weights l ->
  exists a x b, l = a ++ x :: b /\ pick_loop l ((Weight <$> l) ++ ent) d = Ret (Some x) /\ weights a <= d < weights a + Weight x.
Proof.
  induction l as [|x l IH]; intros ent d Hl Hd; cbn [weights foldr] in Hd; [lia|]. fold (weights l) in Hd. apply Forall_cons in Hl as [Hx Hl].
  cbn [pick_loop]. rewrite fmap_cons. cbn [app head deref outcome_bind tail]. case_if; breflect.
  - exists [], x, l. split_and!; [done|done|cbn; lia|cbn; lia].
  - destruct (IH ent (d - Weight x) Hl) as (a & y & b & -> & E & H); [lia|]. exists (x :: a), y, b. split; [done|]. split; [done|].
    cbn [weights foldr]. fold (weights a). lia.
Qed.

(** C32: A choice follows the weights.  When the table of a service is new, or has been
    rebuilt, the draws from zero to the sum of the weights are divided among the instances
    in their order, and each instance is chosen for exactly as many of them as its weight;
    instances without a positive weight are never chosen, and an instance always is when
    there is one. *)
Theorem pick_follows_weights (wb : weightedBalancer) (e : Result) (draw : Z -> Z) :
  weights (usable e) < 2 ^ 63 -> wb !! CacheKey e = None \/ wb !! CacheKey e = Some (calcWeightInfo e) ->
  (forall n, 0 < n -> 0 <= draw n < n) ->
  exists wb', wb' !! CacheKey e = Some (calcWeightInfo e) /\
    (usable e = [] /\ Pick wb e draw = Ret (wb', None) \/
     exists a x b, usable e = a ++ x :: b /\ Pick wb e draw = Ret (wb', Some x) /\ weights a <= draw (weights (usable e)) < weights a + Weight x).
Proof.
  intros Hs Hc Hd. pose proof (usable_pos (Instances e)) as Hpos. fold (usable e) in Hpos. pose proof (weights_pos _ Hpos) as Hw.
  assert (exists ent, calcWeightInfo e = mkWI (usable e) ((Weight <$> usable e) ++ ent) (weights (usable e))) as [ent Ec].
  { unfold calcWeightInfo. rewrite calc_loop_spec; cbn [wi_weightSum]; [|lia|unfold usable in Hs; lia]. by eexists. }
  exists (match wb !! CacheKey e with Some _ => wb | None => <[CacheKey e := calcWeightInfo e]> wb end).
  assert (Pick wb e draw = (run x <- (if weights (usable e) <=? 0 then Ret None else pick_loop (usable e) ((Weight <$> usable e) ++ ent) (draw (weights (usable e))));
    Ret (match wb !! CacheKey e with Some _ => wb | None => <[CacheKey e := calcWeightInfo e]> wb end, x))) as ->.
  { unfold Pick. destruct Hc as [E|E]; rewrite E; cbv zeta; rewrite Ec; cbn [wi_weightSum wi_instances wi_entries]; by case_if. }
  split; [destruct Hc as [E|E]; rewrite E; [apply lookup_insert_eq|done]|]. case_if; breflect.
  - left. split; [|done]. destruct (usable e) as [|x l]; [done|]. apply Forall_cons in Hpos as [Hx Hl]. pose proof (weights_pos l Hl).
    rewrite weights_cons in *. lia.
  - right. destruct (pick_loop_range (usable e) ent (draw (weights (usable e))) Hpos (Hd (weights (usable e)) ltac:(lia))) as (a & x & b & E1 & E2 & E3).
    exists a, x, b. rewrite E2. done.
Qed.

(** ** Delays *)

Definition maxInt64 : Z := 2 ^ 63 - 1.

Record retryConfig := mkRetry { rc_Delay : Z; rc_MaxDelay : Z; rc_MaxJitter : Z }.

Abbreviation policy := (Z -> retryConfig -> Z).

Definition DefaultDelayPolicy : policy := fun _ _ => 0.
Definition FixedDelayPolicy : policy := fun _ c => rc_Delay c.
(** [jitter] is the draw of fastrand. *)
Definition RandomDelayPolicy (jitter : Z -> Z) : policy := fun _ c => if rc_MaxJitter c <=? 0 then 0 else jitter (rc_MaxJitter c).
Definition BackOffDelayPolicy : policy := fun attempts c =>
  if rc_Delay c <=? 0 then 0 else i64 (Z.shiftl (rc_Delay c) (if attempts >? 62 then 62 else attempts)).

Fixpoint combine_loop (delays : list policy) (attempts : Z) (c : retryConfig) (total : Z) : Z :=
  match delays with
  | [] => total
  | d :: delays =>
      let total := u64 (total + u64 (d attempts c)) in
      combine_loop delays attempts c (if total >? maxInt64 then maxInt64 else total)
  end.

Definition CombineDelay (delays : list policy) : policy := fun attempts c => combine_loop delays attempts c 0.

Definition Delay (p : option policy) (attempts : Z) (c : retryConfig) : Z :=
  match p with
  | None => 0
  | Some p =>
      let delayTime := p attempts c in
      if (rc_MaxDelay c >? 0) && (delayTime >? rc_MaxDelay c) then rc_MaxDelay c else delayTime
  end.

Definition sum_delays (delays : list policy) (attempts : Z) (c : retryConfig) : Z := foldr (fun d s => d attempts c + s) 0 delays.

(** Combined delays add up, and stay at the largest duration when the sum is beyond it. *)
Lemma CombineDelay_saturates delays attempts c : Forall (fun d : policy => 0 <= d attempts c <= maxInt64) delays ->
  CombineDelay delays attempts c = Z.min maxInt64 (sum_delays delays attempts c).
Proof.
  intros Hd. unfold CombineDelay. cut (forall t, 0 <= t <= maxInt64 -> combine_loop delays attempts c t = Z.min maxInt64 (t + sum_delays delays attempts c)).
  { intros H. rewrite H by (unfold maxInt64; lia). f_equal. }
  assert (forall l : list policy, Forall (fun d : policy => 0 <= d attempts c <= maxInt64) l -> 0 <= sum_delays l attempts c) as Hpos.
  { clear. induction 1 as [|d l H _ IH]; [done|]. change (sum_delays (d :: l) attempts c) with (d attempts c + sum_delays l attempts c). lia. }
  induction Hd as [|d delays H Hd IH]; intros t Ht; cbn [combine_loop].
  { change (sum_delays [] attempts c) with 0. lia. }
  change (sum_delays (d :: delays) attempts c) with (d attempts c + sum_delays delays attempts c). specialize (Hpos delays Hd).
  assert (u64 (t + u64 (d attempts c)) = t + d attempts c) as ->.
  { unfold maxInt64 in *. assert (u64 (d attempts c) = d attempts c) as -> by (unfold u64; apply Z.mod_small; lia). unfold u64. apply Z.mod_small. lia. }
  destruct (t + d attempts c >? maxInt64) eqn:E; breflect; rewrite IH by lia; lia.
Qed.

(** A delay never exceeds the maximum that is set. *)
Lemma Delay_bounded p attempts c : 0 < rc_MaxDelay c -> Delay p attempts c <= rc_MaxDelay c.
Proof.
  intros H. unfold Delay. destruct p as [p|]; [|lia]. rewrite (proj2 (Z.gtb_lt _ _)) by lia. cbn [andb]. case_if; breflect; lia.
Qed.

(** The delay doubles with each attempt, as long as the duration can hold it. *)
Lemma BackOff_doubles attempts c : 0 < rc_Delay c -> 0 <= attempts <= 62 -> rc_Delay c * 2 ^ attempts < 2 ^ 63 ->
  BackOffDelayPolicy attempts c = rc_Delay c * 2 ^ attempts.
Proof.
  intros Hd Ha Hm. unfold BackOffDelayPolicy. rewrite (proj2 (Z.leb_gt _ _)) by lia. destruct (attempts >? 62) eqn:E; breflect; [lia|].
  rewrite Z.shiftl_mul_pow2 by lia. apply i64_id. pose proof (Z.pow_pos_nonneg 2 attempts ltac:(lia) ltac:(lia)). unfold is_i64. nia.
Qed.

Module BalanceSample.
Definition svc : Result := mkResult "svc" [mkInstance (str "a") 2; mkInstance (str "b") 0; mkInstance (str "c") 3].

Definition third (n : Z) : Z := if n <? 3 then 0 else 2.

Lemma pick_follows_weights_witness : exists wb', wb' !! "svc"%string = Some (calcWeightInfo svc) /\
    (usable svc = [] /\ Pick ∅ svc third = Ret (wb', None) \/
     exists a x b, usable svc = a ++ x :: b /\ Pick ∅ svc third = Ret (wb', Some x) /\ weights a <= 2 < weights a + Weight x).
Proof.
  apply (pick_follows_weights ∅ svc third).
  - by apply (bool_decide_unpack _).
  - left. done.
  - intros n Hn. unfold third. case_if; breflect; lia.
Defined.

(** The chosen addresses for all draws. *)
Lemma draws : ((fun d => match Pick ∅ svc (fun _ => d) with Ret (_, Some x) => Address x | _ => [] end) <$> [0; 1; 2; 3; 4]) =
  [str "a"; str "a"; str "c"; str "c"; str "c"].
Proof. vm_eq. Qed.

(** The table is kept until it is rebuilt: an instance that is gone is still chosen. *)
Lemma stale_choice : (run (wb, _) <- Pick ∅ svc (fun _ => 0); run (_, x) <- Pick wb (mkResult "svc" [mkInstance (str "d") 1]) (fun _ => 0); Ret (Address <$> x)) = Ret (Some (str "a")).
Proof. vm_eq. Qed.

(** A second, doubled for the thirty-fifth time, is a negative duration, and no maximum
    helps: the client retries at once. *)
Lemma backoff_overflows : Delay (Some BackOffDelayPolicy) 34 (mkRetry 1000000000 60000000000 0) = -1266874889709551616.
Proof. vm_eq. Qed.
End BalanceSample.
