(* ===== verification/SetCookie.v ===== *)
(** * Cookies of a response

    [Cookie] of [web/protocol/cookie.go] with its attributes, printing and parsing of
    Set-Cookie, and the calls of ResponseHeader that take a cookie.  The buffers of a cookie
    only carry results and are not part of its state.  How net/http's two date formats are
    parsed is a parameter; dates are printed as the code does. *)

From S2P Require Import Prelude Bytes BytesConv Args ArgsSpec HeaderScan Trailer Uri RespHeader.

(** ** Dates *)

(** A time in UTC: seconds since the first of January of year 1, the zero time. *)
Record Time := mkTime { t_sec : Z; t_nsec : Z }.

#[global] Instance Time_eq_dec : EqDecision Time.
Proof. solve_decision. Defined.

Definition zeroTime : Time := mkTime 0 0.
Definition IsZero (t : Time) : bool := bool_decide (t = zeroTime).

Definition day_names : list string := ["Mon"; "Tue"; "Wed"; "Thu"; "Fri"; "Sat"; "Sun"]%string.
Definition month_names : list string := ["Jan"; "Feb"; "Mar"; "Apr"; "May"; "Jun"; "Jul"; "Aug"; "Sep"; "Oct"; "Nov"; "Dec"]%string.
Definition days_before : list Z := [0; 31; 59; 90; 120; 151; 181; 212; 243; 273; 304; 334; 365].

Definition isLeap (year : Z) : bool := (year mod 4 =? 0) && (negb (year mod 100 =? 0) || (year mod 400 =? 0)).

(** Year and day of the year of a day since the zero time, by cycles of 400, 100 and 4. *)
Definition year_day (days : Z) : Z * Z :=
  let d := days mod 146097 in
  let n100 := d / 36524 in
  let n100 := n100 - n100 / 4 in
  let d := d - 36524 * n100 in
  let n4 := d / 1461 in
  let d := d - 1461 * n4 in
  let n := d / 365 in
  let n := n - n / 4 in
  (400 * (days / 146097) + 100 * n100 + 4 * n4 + n + 1, d - 365 * n).

(** Month, from 0, and day of the month. *)
Definition month_day (year yday : Z) : Z * Z :=
  if isLeap year && (yday =? 59) then (1, 29)
  else
    let d := if isLeap year && (59 <? yday) then yday - 1 else yday in
    let m := d / 31 in
    let m := if nth (Z.to_nat (m + 1)) days_before 0 <=? d then m + 1 else m in
    (m, d - nth (Z.to_nat m) days_before 0 + 1).

(** A number with zeros in front of it. *)
Definition padded (w : nat) (n : Z) : bytes := if n <? 0 then 45 :: replicate (w - length (itoa (- n))) 48 ++ itoa (- n) else replicate (w - length (itoa n)) 48 ++ itoa n.

Definition http_date (t : Time) : bytes :=
  let days := t_sec t / 86400 in
  let s := t_sec t mod 86400 in
  let '(year, yday) := year_day days in
  let '(m, d) := month_day year yday in
  str (nth (Z.to_nat (days mod 7)) day_names ""%string) ++ str ", " ++ padded 2 d ++ [32] ++ str (nth (Z.to_nat m) month_names ""%string) ++ [32] ++
  padded 4 year ++ [32] ++ padded 2 (s / 3600) ++ [58] ++ padded 2 (s / 60 mod 60) ++ [58] ++ padded 2 (s mod 60) ++ str " GMT".

Definition AppendHTTPDate (dst : bytes) (date : Time) : bytes := dst ++ http_date date.

(** ** The cookie *)

Inductive CookieSameSite : Type :=
| CookieSameSiteDisabled
| CookieSameSiteDefaultMode
| CookieSameSiteLaxMode
| CookieSameSiteStrictMode
| CookieSameSiteNoneMode.

Record Cookie := mkCookie {
  ck_key : bytes;
  ck_value : bytes;
  ck_expire : Time;
  ck_maxAge : Z;
  ck_domain : bytes;
  ck_path : bytes;
  ck_httpOnly : bool;
  ck_secure : bool;
  ck_partitioned : bool;
  ck_sameSite : CookieSameSite
}.

(** The date that makes a client drop a cookie: 2009-11-10 23:00:00. *)
Definition CookieExpireDelete : Time := mkTime 63393490800 0.
Definition CookieExpireUnlimited : Time := zeroTime.

Definition cookie_Reset (c : Cookie) : Cookie := mkCookie [] [] zeroTime 0 [] [] false false false CookieSameSiteDisabled.
Definition AcquireCookie : Cookie := mkCookie [] [] zeroTime 0 [] [] false false false CookieSameSiteDisabled.

Definition SetKey (c : Cookie) (x : bytes) : Cookie :=
  mkCookie x (ck_value c) (ck_expire c) (ck_maxAge c) (ck_domain c) (ck_path c) (ck_httpOnly c) (ck_secure c) (ck_partitioned c) (ck_sameSite c).
(** SetValue warns of octets it does not like and takes them. *)
Definition SetValue (c : Cookie) (x : bytes) : Cookie :=
  mkCookie (ck_key c) x (ck_expire c) (ck_maxAge c) (ck_domain c) (ck_path c) (ck_httpOnly c) (ck_secure c) (ck_partitioned c) (ck_sameSite c).
Definition SetExpire (c : Cookie) (x : Time) : Cookie :=
  mkCookie (ck_key c) (ck_value c) x (ck_maxAge c) (ck_domain c) (ck_path c) (ck_httpOnly c) (ck_secure c) (ck_partitioned c) (ck_sameSite c).
Definition SetMaxAge (c : Cookie) (x : Z) : Cookie :=
  mkCookie (ck_key c) (ck_value c) (ck_expire c) x (ck_domain c) (ck_path c) (ck_httpOnly c) (ck_secure c) (ck_partitioned c) (ck_sameSite c).
Definition SetDomain (c : Cookie) (x : bytes) : Cookie :=
  mkCookie (ck_key c) (ck_value c) (ck_expire c) (ck_maxAge c) x (ck_path c) (ck_httpOnly c) (ck_secure c) (ck_partitioned c) (ck_sameSite c).
Definition set_path (c : Cookie) (x : bytes) : Cookie :=
  mkCookie (ck_key c) (ck_value c) (ck_expire c) (ck_maxAge c) (ck_domain c) x (ck_httpOnly c) (ck_secure c) (ck_partitioned c) (ck_sameSite c).
Definition SetPath (c : Cookie) (path : bytes) : Cookie := set_path c (normalizePath path).
Definition SetHTTPOnly (c : Cookie) (x : bool) : Cookie :=
  mkCookie (ck_key c) (ck_value c) (ck_expire c) (ck_maxAge c) (ck_domain c) (ck_path c) x (ck_secure c) (ck_partitioned c) (ck_sameSite c).
Definition SetSecure (c : Cookie) (x : bool) : Cookie :=
  mkCookie (ck_key c) (ck_value c) (ck_expire c) (ck_maxAge c) (ck_domain c) (ck_path c) (ck_httpOnly c) x (ck_partitioned c) (ck_sameSite c).
Definition set_partitioned (c : Cookie) (x : bool) : Cookie :=
  mkCookie (ck_key c) (ck_value c) (ck_expire c) (ck_maxAge c) (ck_domain c) (ck_path c) (ck_httpOnly c) (ck_secure c) x (ck_sameSite c).
Definition SetPartitioned (c : Cookie) (x : bool) : Cookie := let c := set_partitioned c x in if x then SetSecure c true else c.
Definition set_sameSite (c : Cookie) (x : CookieSameSite) : Cookie :=
  mkCookie (ck_key c) (ck_value c) (ck_expire c) (ck_maxAge c) (ck_domain c) (ck_path c) (ck_httpOnly c) (ck_secure c) (ck_partitioned c) x.
Definition SetSameSite (c : Cookie) (mode : CookieSameSite) : Cookie :=
  let c := set_sameSite c mode in match mode with CookieSameSiteNoneMode => SetSecure c true | _ => c end.

Definition Expire (c : Cookie) : Time := if IsZero (ck_expire c) then CookieExpireUnlimited else ck_expire c.

(** Whether every octet of a value is one the grammar of cookies has. *)
Definition warnIfInvalid (value : bytes) : bool := forallb (fun c => negb (nth (Z.to_nat c) ValidCookieValueTable 0 =? 0)) value.

(** ** Printing *)

Definition appendCookiePart (dst key value : bytes) : bytes := dst ++ str "; " ++ key ++ [61] ++ value.

Definition cookie_AppendBytes (c : Cookie) (dst : bytes) : outcome bytes :=
  let dst := if len (ck_key c) >? 0 then dst ++ ck_key c ++ [61] else dst in
  let dst := dst ++ ck_value c in
  run dst <- (if ck_maxAge c =? 0 then Ret dst
              else if ck_maxAge c <? 0 then Ret (dst ++ str "; max-age=" ++ [48])
              else AppendUint (dst ++ str "; max-age=") (ck_maxAge c));
  let dst := if IsZero (ck_expire c) then dst else AppendHTTPDate (dst ++ str "; expires=") (ck_expire c) in
  let dst := if len (ck_domain c) >? 0 then appendCookiePart dst (str "domain") (ck_domain c) else dst in
  let dst := if len (ck_path c) >? 0 then appendCookiePart dst (str "path") (ck_path c) else dst in
  let dst := if ck_httpOnly c then dst ++ str "; HttpOnly" else dst in
  let dst := if ck_secure c then dst ++ str "; secure" else dst in
  let dst := match ck_sameSite c with
             | CookieSameSiteDisabled => dst
             | CookieSameSiteDefaultMode => dst ++ str "; SameSite"
             | CookieSameSiteLaxMode => appendCookiePart dst (str "SameSite") (str "Lax")
             | CookieSameSiteStrictMode => appendCookiePart dst (str "SameSite") (str "Strict")
             | CookieSameSiteNoneMode => appendCookiePart dst (str "SameSite") (str "None")
             end in
  Ret (if ck_partitioned c then dst ++ str "; Partitioned" else dst).

Definition cookie_String (c : Cookie) : outcome bytes := cookie_AppendBytes c [].

(** ** Parsing *)

Inductive cookieErr : Type :=
| errNoCookies
| errMaxAge
| errExpires.

Section Parsing.
(** time.ParseInLocation with RFC1123 in UTC, and time.Parse with the dashed format. *)
Variable parseRFC1123 parseDashed : bytes -> option Time.

Definition ParseUint (b : bytes) : option Z :=
  match ParseUintBuf b with Some (v, n) => if n =? len b then Some v else None | None => None end.

(** An attribute with a value; the test on the first letter comes first. *)
Definition parse_pair (c : Cookie) (key value : bytes) : outcome (Cookie * option cookieErr) :=
  let named s := CaseInsensitiveCompare (str s) key in
  run l <- first_letter key;
  if l =? 109 then
    if named "max-age"%string then
      match ParseUint value with Some n => Ret (SetMaxAge c n, None) | None => Ret (c, Some errMaxAge) end
    else Ret (c, None)
  else if l =? 101 then
    if named "expires"%string then
      match parseRFC1123 value with
      | Some t => Ret (SetExpire c t, None)
      | None => match parseDashed value with Some t => Ret (SetExpire c t, None) | None => Ret (c, Some errExpires) end
      end
    else Ret (c, None)
  else if l =? 100 then Ret (if named "domain"%string then SetDomain c value else c, None)
  else if l =? 112 then Ret (if named "path"%string then set_path c value else c, None)
  else if l =? 115 then
    if named "SameSite"%string then
      let is_mode s := CaseInsensitiveCompare (str s) value in
      run v <- first_letter value;
      Ret (if v =? 108 then if is_mode "Lax"%string then set_sameSite c CookieSameSiteLaxMode else c
           else if v =? 115 then if is_mode "Strict"%string then set_sameSite c CookieSameSiteStrictMode else c
           else if v =? 110 then if is_mode "None"%string then set_sameSite c CookieSameSiteNoneMode else c
           else c, None)
    else Ret (c, None)
  else Ret (c, None).

(** An attribute without one. *)
Definition parse_flag (c : Cookie) (value : bytes) : outcome Cookie :=
  let named s := CaseInsensitiveCompare (str s) value in
  run l <- first_letter value;
  Ret (if l =? 104 then if named "HttpOnly"%string then SetHTTPOnly c true else c
       else if l =? 115 then
         if named "secure"%string then SetSecure c true
         else if named "SameSite"%string then set_sameSite c CookieSameSiteDefaultMode else c
       else if l =? 112 then if named "Partitioned"%string then set_partitioned c true else c
       else c).

Definition parse_attr (c : Cookie) (kv : argsKV) : outcome (Cookie * option cookieErr) :=
  if negb (len (kv_key kv) =? 0) then parse_pair c (kv_key kv) (kv_value kv)
  else if negb (len (kv_value kv) =? 0) then run c <- parse_flag c (kv_value kv); Ret (c, None)
  else Ret (c, None).

(** The loop of ParseBytes; an attribute takes an octet at least. *)
Fixpoint attrs_loop (fuel : nat) (c : Cookie) (b : bytes) : outcome (Cookie * option cookieErr) :=
  match fuel with
  | O => OutOfFuel
  | S fuel =>
      match cookie_next b with
      | None => Ret (c, None)
      | Some (kv, b) =>
          run (c, err) <- parse_attr c kv;
          match err with Some e => Ret (c, Some e) | None => attrs_loop fuel c b end
      end
  end.

Definition ParseBytes (c : Cookie) (src : bytes) : outcome (Cookie * option cookieErr) :=
  let c := cookie_Reset c in
  match cookie_next src with
  | None => Ret (c, Some errNoCookies)
  | Some (kv, b) => attrs_loop (S (length src)) (SetValue (SetKey c (kv_key kv)) (kv_value kv)) b
  end.

(** ** Cookies of a header *)

Definition resp_SetCookie (h : ResponseHeader) (c : Cookie) : outcome ResponseHeader :=
  run text <- cookie_String c; Ret (SetCookie h (ck_key c) text).

(** The error of ParseBytes is dropped. *)
Definition resp_Cookie (h : ResponseHeader) (c : Cookie) : outcome (Cookie * bool) :=
  match peekArg (cookies h) (ck_key c) with
  | None => Ret (c, false)
  | Some v => run (c, _) <- ParseBytes c v; Ret (c, true)
  end.

Definition DelClientCookie (h : ResponseHeader) (key : bytes) : outcome ResponseHeader :=
  resp_SetCookie (DelCookie h key) (SetExpire (SetKey AcquireCookie key) CookieExpireDelete).

End Parsing.

Lemma delete_date : http_date CookieExpireDelete = str "Tue, 10 Nov 2009 23:00:00 GMT".
Proof. vm_eq. Qed.
Lemma leap_date : http_date (mkTime 63844847999 0) = str "Thu, 29 Feb 2024 23:59:59 GMT".
Proof. vm_eq. Qed.
