(* ===== verification/CookieRound.v ===== *)
(** * Cookies of a response: the round trip

    The scanner of cookies on text made of attributes, the attributes a cookie is printed
    with, and what a client finds when it reads them. *)

From S2P Require Import Prelude Bytes BytesConv Args ArgsSpec HeaderScan Trailer ReqHeader ReqParse ReqRound Uri RespHeader SetCookie.

(** ** The scanner *)

(** What may follow a part: nothing, or a semicolon. *)
Definition part_end (e : bytes) : Prop := e = [] \/ head e = Some 59.

Lemma cookie_loop_end b e i isKey k key : part_end e -> b = ztake i b ++ e -> i = len (ztake i b) ->
  cookie_loop b e i isKey k key = (mkKV (if isKey then [] else key) (decodeCookieArg (zdrop k (ztake i b)) true) false, drop 1 e).
Proof.
  intros [->|He] Eb Ei.
  - rewrite app_nil_r in Eb. cbn [cookie_loop drop]. rewrite <- Eb. f_equal. unfold zdrop, len. rewrite Nat2Z.id. apply drop_all.
  - destruct e as [|c e]; [done|]. injection He as ->. cbn [cookie_loop Z.eqb Pos.eqb drop]. f_equal.
    rewrite Eb at 1. replace (ztake i b ++ 59 :: e) with ((ztake i b ++ [59]) ++ e) by (by rewrite <- app_assoc).
    apply zdrop_app_at. rewrite len_app, <- Ei. done.
Qed.

Lemma ztake_pre (pre t : bytes) : ztake (len pre) (pre ++ t) = pre.
Proof. apply ztake_app. Qed.

Lemma cookie_loop_value r : forall pre e k key, 59 ∉ r -> part_end e ->
  cookie_loop (pre ++ r ++ e) (r ++ e) (len pre) false k key = (mkKV key (decodeCookieArg (zdrop k (pre ++ r)) true) false, drop 1 e).
Proof.
  induction r as [|c r IH]; intros pre e k key Hr He.
  - cbn [app]. rewrite app_nil_r. rewrite cookie_loop_end; rewrite ?ztake_pre; done.
  - apply not_elem_of_cons in Hr as [Hc Hr]. cbn [app cookie_loop].
    replace (pre ++ c :: r ++ e) with ((pre ++ [c]) ++ r ++ e) by (by rewrite <- app_assoc).
    replace (len pre + 1) with (len (pre ++ [c])) by (by rewrite len_app).
    rewrite (IH (pre ++ [c]) e k key) by done. rewrite (proj2 (Z.eqb_neq c 59)) by done. rewrite <- app_assoc. by destruct (c =? 61).
Qed.

Lemma cookie_loop_flag r : forall pre e, 59 ∉ r -> 61 ∉ r -> part_end e ->
  cookie_loop (pre ++ r ++ e) (r ++ e) (len pre) true 0 [] = (mkKV [] (decodeCookieArg (pre ++ r) true) false, drop 1 e).
Proof.
  induction r as [|c r IH]; intros pre e Hr Hq He.
  - cbn [app]. rewrite app_nil_r. rewrite cookie_loop_end; rewrite ?ztake_pre; done.
  - apply not_elem_of_cons in Hr as [Hc Hr]. apply not_elem_of_cons in Hq as [Hc' Hq]. cbn [app cookie_loop].
    rewrite (proj2 (Z.eqb_neq c 59)), (proj2 (Z.eqb_neq c 61)) by done.
    replace (pre ++ c :: r ++ e) with ((pre ++ [c]) ++ r ++ e) by (by rewrite <- app_assoc).
    replace (len pre + 1) with (len (pre ++ [c])) by (by rewrite len_app).
    rewrite (IH (pre ++ [c]) e) by done. by rewrite <- app_assoc.
Qed.

Lemma cookie_loop_pair n : forall pre v e, 59 ∉ n -> 61 ∉ n -> 59 ∉ v -> part_end e ->
  cookie_loop (pre ++ n ++ 61 :: v ++ e) (n ++ 61 :: v ++ e) (len pre) true 0 [] =
  (mkKV (decodeCookieArg (pre ++ n) false) (decodeCookieArg v true) false, drop 1 e).
Proof.
  induction n as [|c n IH]; intros pre v e Hn Hq Hv He.
  - cbn [app cookie_loop Z.eqb Pos.eqb]. rewrite ztake_pre, app_nil_r.
    replace (pre ++ 61 :: v ++ e) with ((pre ++ [61]) ++ v ++ e) by (by rewrite <- app_assoc).
    replace (len pre + 1) with (len (pre ++ [61])) by (by rewrite len_app).
    rewrite cookie_loop_value by done. by rewrite zdrop_app.
  - apply not_elem_of_cons in Hn as [Hc Hn]. apply not_elem_of_cons in Hq as [Hc' Hq]. cbn [app cookie_loop].
    rewrite (proj2 (Z.eqb_neq c 59)), (proj2 (Z.eqb_neq c 61)) by done.
    replace (pre ++ c :: n ++ 61 :: v ++ e) with ((pre ++ [c]) ++ n ++ 61 :: v ++ e) by (by rewrite <- app_assoc).
    replace (len pre + 1) with (len (pre ++ [c])) by (by rewrite len_app).
    rewrite IH by done. by rewrite <- app_assoc.
Qed.

(** ** Parts *)

(** A part of a Set-Cookie value: a name with a value, or a word. *)
Definition part : Type := bytes * option bytes.

Definition part_text (p : part) : bytes := p.1 ++ match p.2 with Some v => 61 :: v | None => [] end.

Record part_ok (p : part) : Prop := {
  po_name : 59 ∉ p.1;
  po_eq : 61 ∉ p.1;
  po_value : forall v, p.2 = Some v -> 59 ∉ v
}.

(** What the scanner makes of it, [sp] being a space in front of it or nothing. *)
Definition part_kv (sp : bytes) (p : part) : argsKV :=
  match p.2 with
  | Some v => mkKV (decodeCookieArg (sp ++ p.1) false) (decodeCookieArg v true) false
  | None => mkKV [] (decodeCookieArg (sp ++ p.1) true) false
  end.

Lemma cookie_next_part sp p e : part_ok p -> 59 ∉ sp -> 61 ∉ sp -> part_end e -> sp ++ part_text p ++ e <> [] ->
  cookie_next (sp ++ part_text p ++ e) = Some (part_kv sp p, drop 1 e).
Proof.
  intros [H1 H2 H3] Hs Hq He Hne. unfold cookie_next. rewrite (proj2 (Z.eqb_neq _ _)) by (intros E; by apply Hne, len_0_inv). f_equal.
  destruct p as [n [v|]]; unfold part_text, part_kv; cbn [fst snd] in *.
  - rewrite <- app_assoc. cbn [app]. rewrite app_assoc. pose proof (cookie_loop_pair (sp ++ n) [] v e) as E. cbn [app] in E. rewrite len_nil in E. apply E; [set_solver|set_solver|by apply H3|done].
  - rewrite app_nil_r, app_assoc. pose proof (cookie_loop_flag (sp ++ n) [] e) as E. cbn [app] in E. rewrite len_nil in E. apply E; [set_solver|set_solver|done].
Qed.

(** The parts behind the first one, as they are printed, and as the scanner has them left. *)
Definition parts_text (l : list part) : bytes := concat ((fun p => str "; " ++ part_text p) <$> l).
Definition parts_left (l : list part) : bytes := drop 1 (parts_text l).

Lemma parts_end l : part_end (parts_text l).
Proof. destruct l; [by left|by right]. Qed.

Lemma digits_range b : forall v n, parse_digits v b = Some n -> Forall (fun c => 48 <= c <= 57) b.
Proof.
  induction b as [|c b IH]; intros v n E; cbn [parse_digits] in E; [constructor|]. unfold between in E. case_if; [|done]. breflect.
  constructor; [lia|]. by eapply IH.
Qed.

Lemma itoa_range n : 0 <= n -> Forall (fun c => 48 <= c <= 57) (itoa n).
Proof. intros Hn. eapply digits_range, parse_digits_itoa, Hn. Qed.

Lemma ParseUint_itoa n : 0 <= n < 2 ^ 63 -> ParseUint (itoa n) = Some n.
Proof. apply ParseContentLength_itoa. Qed.

Section Parsing.
Variable parseRFC1123 parseDashed : bytes -> option Time.
Abbreviation attrs_loop := (attrs_loop parseRFC1123 parseDashed).
Abbreviation parse_attr := (parse_attr parseRFC1123 parseDashed).

(** The attributes taken one after the other. *)
Fixpoint take_parts (c : Cookie) (l : list part) : outcome (Cookie * option cookieErr) :=
  match l with
  | [] => Ret (c, None)
  | p :: l => run (c, err) <- parse_attr c (part_kv [32] p); match err with Some e => Ret (c, Some e) | None => take_parts c l end
  end.

Lemma attrs_loop_parts l : forall fuel c, Forall part_ok l -> (length l < fuel)%nat -> attrs_loop fuel c (parts_left l) = take_parts c l.
Proof.
  induction l as [|p l IH]; intros fuel c Hl Hf; (destruct fuel as [|fuel]; [lia|]); [done|]. apply Forall_cons in Hl as [Hp Hl].
  cbn [SetCookie.attrs_loop take_parts]. change (parts_left (p :: l)) with ([32] ++ part_text p ++ parts_text l).
  rewrite cookie_next_part; [|done|set_solver|set_solver|apply parts_end|done].
  destruct (parse_attr c (part_kv [32] p)) as [[c' [e|]]| |]; [done| |done|done]. cbn [outcome_bind]. apply IH; [done|cbn in Hf; lia].
Qed.

Lemma take_parts_app l k : forall c c', take_parts c l = Ret (c', None) -> take_parts c (l ++ k) = take_parts c' k.
Proof.
  induction l as [|p l IH]; intros c c' E; cbn [take_parts app] in *; [by injection E as ->|].
  destruct (parse_attr c (part_kv [32] p)) as [[c1 [e|]]| |]; cbn [outcome_bind] in *; [done|by apply IH|done|done].
Qed.

(** ** The parts a cookie is printed with *)

Definition first_part (c : Cookie) : part := if len (ck_key c) >? 0 then (ck_key c, Some (ck_value c)) else (ck_value c, None).
Definition age_part (n : Z) : list part := if n =? 0 then [] else [(str "max-age", Some (if n <? 0 then [48] else itoa n))].
Definition date_part (t : Time) : list part := if IsZero t then [] else [(str "expires", Some (http_date t))].
Definition value_part (name : string) (v : bytes) : list part := if len v >? 0 then [(str name, Some v)] else [].
Definition flag_part (name : string) (b : bool) : list part := if b then [(str name, None)] else [].
Definition site_part (m : CookieSameSite) : list part :=
  match m with
  | CookieSameSiteDisabled => []
  | CookieSameSiteDefaultMode => [(str "SameSite", None)]
  | CookieSameSiteLaxMode => [(str "SameSite", Some (str "Lax"))]
  | CookieSameSiteStrictMode => [(str "SameSite", Some (str "Strict"))]
  | CookieSameSiteNoneMode => [(str "SameSite", Some (str "None"))]
  end.

Definition attrs (c : Cookie) : list part :=
  age_part (ck_maxAge c) ++ date_part (ck_expire c) ++ value_part "domain" (ck_domain c) ++ value_part "path" (ck_path c) ++
  flag_part "HttpOnly" (ck_httpOnly c) ++ flag_part "secure" (ck_secure c) ++ site_part (ck_sameSite c) ++ flag_part "Partitioned" (ck_partitioned c).

Lemma parts_text_app l k : parts_text (l ++ k) = parts_text l ++ parts_text k.
Proof. unfold parts_text. by rewrite fmap_app, concat_app. Qed.

Lemma cookie_printed c : is_i64 (ck_maxAge c) -> cookie_String c = Ret (part_text (first_part c) ++ parts_text (attrs c)).
Proof.
  intros Hm. unfold cookie_String, cookie_AppendBytes, attrs. rewrite !parts_text_app. cbv zeta. cbn [app].
  set (d0 := part_text (first_part c)).
  assert ((if len (ck_key c) >? 0 then ck_key c ++ [61] else []) ++ ck_value c = d0) as ->.
  { unfold d0, first_part, part_text. destruct (len (ck_key c) >? 0); cbn [fst snd app]; [by rewrite <- app_assoc|by rewrite app_nil_r]. }
  assert ((if ck_maxAge c =? 0 then Ret d0 else if ck_maxAge c <? 0 then Ret (d0 ++ str "; max-age=" ++ [48])
           else AppendUint (d0 ++ str "; max-age=") (ck_maxAge c)) = Ret (d0 ++ parts_text (age_part (ck_maxAge c)))) as ->.
  { unfold age_part. destruct (ck_maxAge c =? 0); [by rewrite app_nil_r|]. rewrite AppendUint_decimal by done.
    unfold parts_text. destruct (ck_maxAge c <? 0); cbn [fmap list_fmap concat part_text fst snd]; rewrite app_nil_r; [done|by rewrite <- !app_assoc]. }
  cbn [outcome_bind]. rewrite (app_assoc d0). generalize (d0 ++ parts_text (age_part (ck_maxAge c))). clear d0. intros d.
  assert (forall d n v, (if len v >? 0 then appendCookiePart d (str n) v else d) = d ++ parts_text (value_part n v)) as Ev.
  { intros d' n v. unfold value_part, parts_text, appendCookiePart. destruct (len v >? 0); cbn [fmap list_fmap concat part_text fst snd]; by rewrite ?app_nil_r. }
  rewrite !Ev. assert ((if IsZero (ck_expire c) then d else AppendHTTPDate (d ++ str "; expires=") (ck_expire c)) = d ++ parts_text (date_part (ck_expire c))) as ->.
  { unfold date_part, parts_text, AppendHTTPDate. destruct (IsZero (ck_expire c)); cbn [fmap list_fmap concat part_text fst snd]; rewrite app_nil_r; [done|by rewrite <- !app_assoc]. }
  rewrite !app_assoc. generalize (((d ++ parts_text (date_part (ck_expire c))) ++ parts_text (value_part "domain" (ck_domain c))) ++ parts_text (value_part "path" (ck_path c))).
  intros d'. unfold flag_part, site_part, parts_text, appendCookiePart.
  destruct (ck_httpOnly c), (ck_secure c), (ck_sameSite c), (ck_partitioned c); cbn [fmap list_fmap concat part_text fst snd]; rewrite ?app_nil_r, <- ?app_assoc; done.
Qed.

(** ** Values that are kept as they are *)

(** No semicolon, no space at the ends, not between quotes. *)
Record plain_arg (v : bytes) : Prop := {
  pa_semicolon : 59 ∉ v;
  pa_first : head v <> Some 32;
  pa_last : last v <> Some 32;
  pa_quotes : ~ (1 < len v /\ head v = Some 34 /\ last v = Some 34)
}.

Lemma strip_plain v : head v <> Some 32 -> last v <> Some 32 -> stripSpace v = v.
Proof.
  intros Hh Hl. unfold stripSpace. assert (trim_left v = v) as ->; [|by apply trim_right_keep].
  destruct v as [|c v]; [done|]. cbn. rewrite (proj2 (Z.eqb_neq c 32)); [done|]. by intros ->.
Qed.

Lemma decode_plain_arg v : plain_arg v -> decodeCookieArg v true = v.
Proof.
  intros [_ H1 H2 H3]. unfold decodeCookieArg. rewrite strip_plain by done. cbn [andb].
  destruct ((len v >? 1) && bool_decide (head v = Some 34) && bool_decide (last v = Some 34)) eqn:E; [|done]. apply andb_true_iff in E as [[E1 E2%bool_decide_eq_true]%andb_true_iff E3%bool_decide_eq_true].
  destruct H3. split_and!; [lia|done|done].
Qed.

(** Octets of numbers and names. *)
Definition date_octet (c : Z) : Prop := c <> 59.

Lemma itoa_plain_arg n : 0 <= n -> plain_arg (itoa n).
Proof.
  intros Hn. pose proof (itoa_range n Hn) as Hr. rewrite Forall_forall in Hr.
  split; [intros H|intros H%head_Some_elem_of|intros H%last_Some_elem_of|intros (_ & H%head_Some_elem_of & _)]; apply Hr in H; lia.
Qed.

Lemma padded_octets w n : Forall date_octet (padded w n).
Proof.
  assert (forall m, 0 <= m -> Forall date_octet (replicate (w - length (itoa m)) 48 ++ itoa m)) as H.
  { intros m Hm. apply Forall_app. split; [by apply Forall_replicate|]. eapply Forall_impl; [by apply itoa_range|]. unfold date_octet. cbn. lia. }
  unfold padded. destruct (n <? 0) eqn:E; breflect; [constructor; [done|]|]; apply H; lia.
Qed.

Lemma named_octets l k : Forall (fun s => Forall date_octet (str s)) l -> Forall date_octet (str (nth k l ""%string)).
Proof. intros H. destruct (nth_in_or_default k l ""%string) as [Hin| ->]; [|constructor]. rewrite Forall_forall in H. by apply H, list_elem_of_In. Qed.

Lemma http_date_plain t : plain_arg (http_date t).
Proof.
  unfold http_date. destruct (year_day (t_sec t / 86400)) as [y yd]. destruct (month_day y yd) as [m d].
  set (s := t_sec t mod 86400). set (k := Z.to_nat ((t_sec t / 86400) mod 7)).
  assert (exists a b, str (nth k day_names ""%string) = a :: b /\ a <> 32 /\ a <> 34) as (a & b & Ed & Ha & Ha').
  { assert (k < 7)%nat as Hk by lia. clearbody k. do 7 (destruct k as [|k]; [by eexists _, _|]). lia. }
  assert (Forall date_octet (str (nth k day_names ""%string))) as Hd by (apply named_octets; repeat constructor; done).
  split.
  - intros Hin. assert (forall x, Forall date_octet x -> 59 ∉ x) as Hno by (intros x; rewrite Forall_forall; intros H Hx; by apply H in Hx).
    revert Hin. apply Hno. repeat (apply Forall_app; split); try apply padded_octets; try done; try (repeat constructor; done).
    apply named_octets. repeat constructor; done.
  - rewrite Ed. cbn. naive_solver.
  - rewrite !app_assoc. change (str " GMT") with (str " GM" ++ [84]). rewrite app_assoc, last_snoc. done.
  - intros (_ & H & _). rewrite Ed in H. cbn in H. naive_solver.
Qed.

(** ** Reading the attributes *)

Lemma part_kv_named name (v : bytes) : decodeCookieArg (32 :: str name) false = str name -> plain_arg v ->
  part_kv [32] (str name, Some v) = mkKV (str name) v false.
Proof. intros E Hv. unfold part_kv. cbn [fst snd app]. by rewrite E, decode_plain_arg. Qed.

Lemma take_age c n : 0 <= n < 2 ^ 63 -> ck_maxAge c = 0 -> take_parts c (age_part n) = Ret (SetMaxAge c n, None).
Proof.
  intros Hn Hc. unfold age_part. destruct (n =? 0) eqn:E; breflect; [subst n; destruct c; cbn in *; by subst|].
  rewrite (proj2 (Z.ltb_ge _ _)) by lia. cbn [take_parts]. rewrite part_kv_named by (vm_eq || (apply itoa_plain_arg; lia)).
  unfold SetCookie.parse_attr. cbn [kv_key kv_value]. replace (negb (len (str "max-age") =? 0)) with true by vm_eq.
  assert (SetCookie.parse_pair parseRFC1123 parseDashed c (str "max-age") (itoa n) =
          match ParseUint (itoa n) with Some n => Ret (SetMaxAge c n, None) | None => Ret (c, Some errMaxAge) end) as -> by done.
  by rewrite ParseUint_itoa.
Qed.

Lemma take_expires c t : IsZero t = true \/ parseRFC1123 (http_date t) = Some t -> ck_expire c = zeroTime ->
  take_parts c (date_part t) = Ret (SetExpire c t, None).
Proof.
  intros Ht Hc. unfold date_part. destruct (IsZero t) eqn:E.
  - apply bool_decide_eq_true in E as ->. destruct c; cbn in *; by subst.
  - destruct Ht as [|Ht]; [done|]. cbn [take_parts]. rewrite part_kv_named by (vm_eq || apply http_date_plain).
    unfold SetCookie.parse_attr. cbn [kv_key kv_value]. replace (negb (len (str "expires") =? 0)) with true by vm_eq.
    assert (SetCookie.parse_pair parseRFC1123 parseDashed c (str "expires") (http_date t) =
            match parseRFC1123 (http_date t) with
            | Some t => Ret (SetExpire c t, None)
            | None => match parseDashed (http_date t) with Some t => Ret (SetExpire c t, None) | None => Ret (c, Some errExpires) end
            end) as -> by done.
    by rewrite Ht.
Qed.

Lemma take_domain c v : plain_arg v -> ck_domain c = [] -> take_parts c (value_part "domain" v) = Ret (SetDomain c v, None).
Proof.
  intros Hv Hc. unfold value_part. destruct (len v >? 0) eqn:E; breflect.
  - cbn [take_parts]. rewrite part_kv_named by (vm_eq || done). done.
  - assert (v = []) as -> by (apply len_0_inv; pose proof (len_nonneg v); lia). destruct c; cbn in *; by subst.
Qed.

Lemma take_path c v : plain_arg v -> ck_path c = [] -> take_parts c (value_part "path" v) = Ret (set_path c v, None).
Proof.
  intros Hv Hc. unfold value_part. destruct (len v >? 0) eqn:E; breflect.
  - cbn [take_parts]. rewrite part_kv_named by (vm_eq || done). done.
  - assert (v = []) as -> by (apply len_0_inv; pose proof (len_nonneg v); lia). destruct c; cbn in *; by subst.
Qed.

Lemma take_words c b1 b2 m b3 : ck_httpOnly c = false -> ck_secure c = false -> ck_sameSite c = CookieSameSiteDisabled -> ck_partitioned c = false ->
  take_parts c (flag_part "HttpOnly" b1 ++ flag_part "secure" b2 ++ site_part m ++ flag_part "Partitioned" b3) =
  Ret (set_partitioned (set_sameSite (SetSecure (SetHTTPOnly c b1) b2) m) b3, None).
Proof. intros. destruct c; cbn in *; subst. by destruct b1, b2, m, b3. Qed.

(** A cookie that can be sent. *)
Record cookie_ok (c : Cookie) : Prop := {
  co_key : ck_key c <> [] /\ (59 ∉ ck_key c) /\ (61 ∉ ck_key c) /\ head (ck_key c) <> Some 32 /\ last (ck_key c) <> Some 32;
  co_value : plain_arg (ck_value c);
  co_age : 0 <= ck_maxAge c < 2 ^ 63;
  co_expire : IsZero (ck_expire c) = true \/ parseRFC1123 (http_date (ck_expire c)) = Some (ck_expire c);
  co_domain : plain_arg (ck_domain c);
  co_path : plain_arg (ck_path c)
}.

Lemma take_attrs c : cookie_ok c ->
  take_parts (SetValue (SetKey AcquireCookie (ck_key c)) (ck_value c)) (attrs c) = Ret (c, None).
Proof.
  intros [_ _ Ha He Hd Hp]. unfold attrs. erewrite take_parts_app by (by apply take_age). erewrite take_parts_app by (by apply take_expires).
  erewrite take_parts_app by (by apply take_domain). erewrite take_parts_app by (by apply take_path). rewrite take_words by done. by destruct c.
Qed.

Lemma attrs_ok c : cookie_ok c -> Forall part_ok (attrs c).
Proof.
  intros [_ _ Ha He Hd Hp].
  assert (forall n v, bool_decide (59 ∉ str n) && bool_decide (61 ∉ str n) = true -> (forall x, v = Some x -> 59 ∉ x) -> part_ok (str n, v)) as Hok.
  { intros n v [H1%bool_decide_eq_true H2%bool_decide_eq_true]%andb_true_iff Hv. by split. }
  unfold attrs, age_part, date_part, value_part, flag_part, site_part. repeat (apply Forall_app; split);
    repeat first [case_match|case_if]; repeat constructor; apply Hok; try done; intros x [= <-]; try done; try (apply itoa_plain_arg; lia); try apply http_date_plain; try apply Hd; try apply Hp; try (by apply (bool_decide_eq_true_1 (59 ∉ _)); vm_compute).
Qed.

Lemma parts_text_length l : (length l <= length (parts_text l))%nat.
Proof. unfold parts_text. induction l as [|p l IH]; [done|]. rewrite fmap_cons. cbn [concat length]. rewrite !length_app. assert (length (str "; ") = 2%nat) by vm_eq. lia. Qed.

Lemma ParseBytes_printed c c0 : cookie_ok c ->
  SetCookie.ParseBytes parseRFC1123 parseDashed c0 (part_text (first_part c) ++ parts_text (attrs c)) = Ret (c, None).
Proof.
  intros Hc. pose proof (attrs_ok c Hc) as Ho. pose proof (take_attrs c Hc) as Et. destruct Hc as [(Hk & Hs & Hq & Hh & Hl) Hv _ _ _ _].
  assert (first_part c = (ck_key c, Some (ck_value c))) as Ef.
  { unfold first_part. rewrite (proj2 (Z.gtb_lt _ _)); [done|]. pose proof (len_nonneg (ck_key c)). assert (len (ck_key c) <> 0) by (intros E; by apply Hk, len_0_inv). lia. }
  unfold SetCookie.ParseBytes. pose proof (cookie_next_part [] (first_part c) (parts_text (attrs c))) as En. cbn [app] in En. rewrite En; clear En; rewrite ?Ef.
  - unfold part_kv. cbn [fst snd app kv_key kv_value]. rewrite decode_plain_arg by done.
    assert (decodeCookieArg (ck_key c) false = ck_key c) as -> by (unfold decodeCookieArg; by rewrite strip_plain).
    change (drop 1 (parts_text (attrs c))) with (parts_left (attrs c)). rewrite attrs_loop_parts; [exact Et|done|].
    rewrite length_app. pose proof (parts_text_length (attrs c)). lia.
  - split; cbn [fst snd]; [done|done|]. intros v [= <-]. apply Hv.
  - set_solver.
  - set_solver.
  - apply parts_end.
  - unfold part_text. cbn [fst snd]. by destruct (ck_key c).
Qed.

Lemma peek_upsert l k v : peekArg (upsert l k v) k = Some v.
Proof.
  unfold upsert. assert (forall x, bytes_eqb k x = bytes_eqb x k) as Es by (intros x; apply bool_decide_ext; done).
  destruct (set_loop l k v false) as [l'|] eqn:E.
  - revert l' E. induction l as [|kv l IH]; intros l'; cbn [set_loop]; [done|]. rewrite Es. destruct (bytes_eqb (kv_key kv) k) eqn:Ek.
    + intros [= <-]. cbn [peekArg kv_key]. by rewrite Ek.
    + destruct (set_loop l k v false) as [l1|]; [|done]. intros [= <-]. cbn [peekArg]. rewrite Ek. by apply IH.
  - induction l as [|kv l IH]; cbn [set_loop app peekArg kv_key kv_value] in *; [by rewrite (proj2 (bytes_eqb_eq _ _))|]. rewrite Es in E.
    destruct (bytes_eqb (kv_key kv) k); [done|]. apply IH. by destruct (set_loop l k v false).
Qed.
End Parsing.

(** C33: A cookie that a handler puts into the header of a response is the cookie that is
    found there under its name, with value, age, date and every attribute, whatever the
    object held that is filled; its text has no semicolon, space or quotes at the ends of a
    value, and its age is not negative.  For others see [cookie_defects]. *)
Theorem cookie_roundtrip (parseRFC1123 parseDashed : bytes -> option Time) (h : ResponseHeader) (c c0 : Cookie) :
  cookie_ok parseRFC1123 c -> ck_key c0 = ck_key c ->
  exists h', resp_SetCookie h c = Ret h' /\ resp_Cookie parseRFC1123 parseDashed h' c0 = Ret (c, true).
Proof.
  intros Hc Ek. unfold resp_SetCookie. rewrite cookie_printed by (pose proof (co_age _ c Hc); width). cbn [outcome_bind]. eexists. split; [done|].
  unfold resp_Cookie, SetCookie. cbn [cookies set_cookies]. unfold setArgBytes. rewrite Ek, peek_upsert.
  by rewrite (ParseBytes_printed parseRFC1123 parseDashed c c0 Hc).
Qed.

Module CookieSample.
(** A parser that knows one date. *)
Definition parser (b : bytes) : option Time := if bytes_eqb b (str "Thu, 29 Feb 2024 23:59:59 GMT") then Some (mkTime 63844847999 0) else None.
Definition no_parser (b : bytes) : option Time := None.

Definition cookie : Cookie :=
  SetSameSite (SetPartitioned (SetHTTPOnly (SetPath (SetDomain (SetMaxAge (SetExpire (SetValue (SetKey AcquireCookie (str "id")) (str "a=b c")) (mkTime 63844847999 0))
    3600) (str "example.org")) (str "/shop/../x")) true) true) CookieSameSiteLaxMode.

Lemma cookie_text : cookie_String cookie =
  Ret (str "id=a=b c; max-age=3600; expires=Thu, 29 Feb 2024 23:59:59 GMT; domain=example.org; path=/x; HttpOnly; secure; SameSite=Lax; Partitioned").
Proof. vm_eq. Qed.

Lemma cookie_roundtrip_witness : exists h', resp_SetCookie newResponseHeader cookie = Ret h' /\ resp_Cookie parser no_parser h' (SetKey AcquireCookie (str "id")) = Ret (cookie, true).
Proof.
  assert (forall v, bool_decide (59 ∉ v) && negb (bool_decide (head v = Some 32)) && negb (bool_decide (last v = Some 32)) && negb (bool_decide (head v = Some 34)) = true -> plain_arg v) as Hp.
  { intros v H. repeat (apply andb_true_iff in H as [H ?]). rewrite !negb_true_iff, !bool_decide_eq_false, !bool_decide_eq_true in *. split; naive_solver. }
  apply (cookie_roundtrip parser no_parser newResponseHeader cookie (SetKey AcquireCookie (str "id"))); [|done].
  split; try (apply Hp; vm_eq); [|cbn; lia|right; vm_eq].
  split_and!; try done; apply (bool_decide_eq_true_1 (_ ∉ _)); vm_eq.
Defined.

Definition parsed (s : string) : outcome (Cookie * option cookieErr) := ParseBytes parser no_parser AcquireCookie (str s).
Definition reread (c : Cookie) : outcome (Cookie * option cookieErr) := run b <- cookie_String c; ParseBytes parser no_parser AcquireCookie b.
Definition field {A} (f : Cookie -> A) (r : outcome (Cookie * option cookieErr)) : option A := match r with Ret (c, _) => Some (f c) | _ => None end.

(** A response with an empty SameSite panics its reader; a cookie to be dropped, whose age is
    negative, is read as one without an age; a value and the octets a path was quoted with
    can add attributes; an age that is no number hides the attributes behind it, and the
    error is dropped by [resp_Cookie]. *)
Lemma cookie_defects :
  parsed "id=1; SameSite=" = Panic /\
  (let c := SetMaxAge (SetKey AcquireCookie (str "id")) (-1) in cookie_String c = Ret (str "id=; max-age=0") /\ field ck_maxAge (reread c) = Some 0) /\
  field ck_domain (reread (SetValue (SetKey AcquireCookie (str "id")) (str "1; domain=example.org"))) = Some (str "example.org") /\
  field ck_domain (reread (SetPath (SetKey AcquireCookie (str "id")) (str "/a%3B domain=example.org"))) = Some (str "example.org") /\
  field ck_secure (parsed "id=1; max-age=-1; secure") = Some false.
Proof. split_and!; try vm_eq. cbv zeta. split; vm_eq. Qed.

(** What a client is told to make it drop a cookie, whatever was set before. *)
Lemma client_drops : (run h <- resp_SetCookie newResponseHeader cookie; run h <- DelClientCookie h (str "id"); Ret (kv_value <$> cookies h)) =
  Ret [str "id=; expires=Tue, 10 Nov 2009 23:00:00 GMT"].
Proof. vm_eq. Qed.
End CookieSample.
