(* ===== verification/FileServe.v ===== *)
(** * Serving files

    [FS] and its handler of [web/app/fs.go], and the handler that StaticFS of
    [web/router/routergroup.go] puts in front of it: which file of the disk a path leads to,
    the files that are kept open, their packed copies on the disk, ranges, and the response.
    The operating system is the record [Disk]; packing (compress/gzip), the types of
    contents and the page for a directory are parameters.  Failing reads of an open file are
    left out, and so are the idle readers of big files, which are as good as new ones. *)

From S2P Require Import Prelude Bytes BytesConv Args ArgsSpec HeaderScan Trailer Uri UriPath RespHeader SetCookie.

(** ** Paths *)

(** strings.HasSuffix. *)
Definition has_suffix (s b : bytes) : bool := (len s <=? len b) && bytes_eqb (zdrop (len b - len s) b) s.

(** filepath.Clean on Unix, by the rules it documents: empty elements and ["."] are left
    out, [".."] leaves the element before it, and the root when there is none. *)
Definition clean_step (rooted : bool) (out : list bytes) (s : bytes) : list bytes :=
  if bytes_eqb s [] || bytes_eqb s (str ".") then out
  else if bytes_eqb s (str "..") then
    match last out with
    | Some t => if bytes_eqb t (str "..") then out ++ [s] else removelast out
    | None => if rooted then out else out ++ [s]
    end
  else out ++ [s].

Definition Clean (path : bytes) : bytes :=
  let rooted := bool_decide (head path = Some 47) in
  let out := foldl (clean_step rooted) [] (split_on 47 [] path) in
  match out with
  | [] => if rooted then str "/" else str "."
  | s :: t => (if rooted then [47] else []) ++ s ++ path_of t
  end.

(** The path of the handler that StaticFS registers; [prefix] is where it is registered. *)
Definition static_path (prefix origPath : bytes) : bytes :=
  if has_prefix prefix origPath then
    let newPath := zdrop (len prefix) origPath in
    Clean (if len newPath =? 0 then str "/" else newPath)
  else origPath.

(** RequestContext.Path: with the server of the repository it is the path of the URI, not the
    one that SetPath has set. *)
Definition ctx_Path (netpoll : bool) (path uriPath : bytes) : bytes := if negb netpoll then path else uriPath.

Fixpoint stripTrailingSlashes (path : bytes) : bytes :=
  match path with
  | [] => []
  | c :: t => match stripTrailingSlashes t with [] => if c =? 47 then [] else [c] | t' => c :: t' end
  end.

(** The loop of stripLeadingSlashes. *)
Fixpoint stripLeadingSlashes (fuel : nat) (path : bytes) (stripSlashes : Z) : outcome bytes :=
  match fuel with
  | O => OutOfFuel
  | S fuel =>
      if (stripSlashes >? 0) && (len path >? 0) then
        match path with
        | 47 :: t =>
            let n := IndexByte t 47 in
            if n <? 0 then Ret [] else stripLeadingSlashes fuel (zdrop (n + 1) path) (stripSlashes - 1)
        | _ => Panic
        end
      else Ret path
  end.

Definition NewPathSlashesStripper (slashesCount : Z) (path : bytes) : outcome bytes := stripLeadingSlashes (S (length path)) path slashesCount.

Definition NewVHostPathRewriter (slashesCount : Z) (host path : bytes) : outcome bytes :=
  run path <- stripLeadingSlashes (S (length path)) path slashesCount;
  let host := if IndexByte host 47 >=? 0 then [] else host in
  let host := if len host =? 0 then str "invalid-host" else host in
  Ret (normalizePath ([47] ++ host ++ path)).

(** ** Ranges *)

Definition ParseByteRange (byteRange : bytes) (contentLength : Z) : option (Z * Z) :=
  if negb (has_prefix (str "bytes") byteRange) then None
  else
    match zdrop 5 byteRange with
    | 61 :: b =>
        let n := IndexByte b 45 in
        if n <? 0 then None
        else if n =? 0 then
          v ← ParseUint (zdrop (n + 1) b);
          let startPos := contentLength - v in
          Some (if startPos <? 0 then 0 else startPos, contentLength - 1)
        else
          startPos ← ParseUint (ztake n b);
          if startPos >=? contentLength then None
          else
            let b := zdrop (n + 1) b in
            if len b =? 0 then Some (startPos, contentLength - 1)
            else
              endPos ← ParseUint b;
              let endPos := if endPos >=? contentLength then contentLength - 1 else endPos in
              if endPos <? startPos then None else Some (startPos, endPos)
    | _ => None
    end.

(** ** Files *)

Record fsFile := mkFile {
  ff_content : bytes;
  ff_dirIndex : bool;
  ff_contentType : bytes;
  ff_compressed : bool;
  ff_lastModified : Time;
  ff_t : Z;
  ff_readersCount : Z;
  ff_open : bool
}.

Definition ff_contentLength (f : fsFile) : Z := len (ff_content f).

Definition set_readers (f : fsFile) (n : Z) : fsFile :=
  mkFile (ff_content f) (ff_dirIndex f) (ff_contentType f) (ff_compressed f) (ff_lastModified f) (ff_t f) n (ff_open f).
Definition Release (f : fsFile) : fsFile :=
  mkFile (ff_content f) (ff_dirIndex f) (ff_contentType f) (ff_compressed f) (ff_lastModified f) (ff_t f) (ff_readersCount f) false.

Definition MaxSmallFileSize : Z := 2 * 4096.
Definition isBig (f : fsFile) : bool := (ff_contentLength f >? MaxSmallFileSize) && negb (ff_dirIndex f).

(** *** Readers *)

(** The file and the part of it that is left. *)
Record fsReader := mkReader { rd_ff : Z; rd_startPos : Z; rd_endPos : Z }.

Definition UpdateByteRange (r : fsReader) (startPos endPos : Z) : fsReader := mkReader (rd_ff r) startPos (endPos + 1).

(** Read with a buffer of [n] octets: what is read, and whether that was the end. *)
Definition fs_Read (f : fsFile) (r : fsReader) (n : Z) : bytes * fsReader * bool :=
  let tailLen := rd_endPos r - rd_startPos r in
  if tailLen <=? 0 then ([], r, true)
  else
    let n := if n >? tailLen then tailLen else n in
    let data := ztake n (zdrop (rd_startPos r) (ff_content f)) in
    (data, mkReader (rd_ff r) (rd_startPos r + len data) (rd_endPos r), negb (ff_dirIndex f) && (len data <? n)).

(** Reading with one buffer after the other, up to the end. *)
Fixpoint read_buffers (f : fsFile) (r : fsReader) (sizes : list Z) : bytes :=
  match sizes with
  | [] => []
  | n :: sizes => let '(data, r, eof) := fs_Read f r n in data ++ if eof then [] else read_buffers f r sizes
  end.

(** ** The disk *)

Inductive node : Type :=
| NFile (content : bytes) (mtime : Time)
| NDir (mtime : Time).

Definition ModTime (n : node) : Time := match n with NFile _ t | NDir t => t end.
Definition IsDir (n : node) : bool := match n with NFile _ _ => false | NDir _ => true end.

(** What may not be opened, and what may not be created or removed. *)
Record Disk := mkDisk {
  d_nodes : gmap bytes node;
  d_denied : bytes -> bool;
  d_readonly : bytes -> bool
}.

Definition set_nodes (d : Disk) (m : gmap bytes node) : Disk := mkDisk m (d_denied d) (d_readonly d).

Inductive fsErr : Type :=
| errNotExist
| errDirIndexRequired
| errNoCreatePermission
| errOther.

Definition os_Open (d : Disk) (path : bytes) : result fsErr node :=
  match d_nodes d !! path with
  | None => Err errNotExist
  | Some n => if d_denied d path then Err errOther else Ok n
  end.

Definition os_Remove (d : Disk) (path : bytes) : Disk :=
  if d_readonly d path then d else set_nodes d (delete path (d_nodes d)).

Record fsHandler := mkHandler {
  fh_root : bytes;
  fh_indexNames : list bytes;
  fh_pathRewrite : option (bytes -> bytes);
  fh_pathNotFound : bool;
  fh_generateIndexPages : bool;
  fh_compress : bool;
  fh_acceptByteRange : bool;
  fh_cacheDuration : Z;
  fh_compressedFileSuffix : bytes
}.

Definition FsMaxCompressibleFileSize : Z := 8 * 1024 * 1024.

Section Opening.
Context (gz : bytes -> bytes) (gunzip : bytes -> option bytes) (isFileCompressible : bytes -> bool).
Context (TypeByExtension DetectContentType : bytes -> bytes).
Context (indexPage : bytes -> bytes).
Context (h : fsHandler).

(** The clock when a file is opened. *)
Context (now : Z) (nowTime : Time).

Definition base_name (path : bytes) : bytes := let n := LastIndexByte path 47 in zdrop (n + 1) path.

Definition fileExtension (path : bytes) (compressed : bool) : bytes :=
  let s := fh_compressedFileSuffix h in
  let path := if compressed && has_suffix s path then ztake (len path - len s) path else path in
  let n := LastIndexByte path 46 in
  if n <? 0 then [] else zdrop n path.

(** readFileHeader. *)
Definition readFileHeader (content : bytes) (compressed : bool) : result fsErr bytes :=
  if compressed then match gunzip content with Some b => Ok (ztake (Z.min 512 (len b)) b) | None => Err errOther end
  else Ok (ztake (Z.min 512 (len content)) content).

Definition newFSFile (path content : bytes) (mtime : Time) (compressed : bool) : result fsErr fsFile :=
  let contentType := TypeByExtension (fileExtension (base_name path) compressed) in
  try contentType <- (if len contentType =? 0 then try data <- readFileHeader content compressed; Ok (DetectContentType data) else Ok contentType);
  Ok (mkFile content false contentType compressed mtime now 0 true).

(** The code does not ask whether the copy is a directory.  It is none here: openFSFile has
    opened or removed what was there before, and compressFileNolock has written a file. *)
Definition newCompressedFSFile (d : Disk) (path : bytes) : result fsErr fsFile :=
  match os_Open d path with
  | Ok (NFile content mtime) => newFSFile path content mtime true
  | _ => Err errOther
  end.

(** The packed copy is written under another name first. *)
Definition compressFileNolock (d : Disk) (content : bytes) (mtime : Time) (compressedFilePath : bytes) : Disk * result fsErr fsFile :=
  if bool_decide (is_Some (d_nodes d !! compressedFilePath)) then (d, newCompressedFSFile d compressedFilePath)
  else
    let tmpFilePath := compressedFilePath ++ str ".tmp" in
    if d_readonly d tmpFilePath then (d, Err errNoCreatePermission)
    else if match d_nodes d !! tmpFilePath with Some n => IsDir n | None => false end then (d, Err errOther)
    else
      let d := set_nodes d (<[compressedFilePath := NFile (gz content) mtime]> (delete tmpFilePath (d_nodes d))) in
      (d, newCompressedFSFile d compressedFilePath).

Definition compressAndOpenFSFile (d : Disk) (filePath : bytes) : Disk * result fsErr fsFile :=
  match os_Open d filePath with
  | Err e => (d, Err e)
  | Ok (NDir _) => (d, Err errDirIndexRequired)
  | Ok (NFile content mtime) =>
      if has_suffix (fh_compressedFileSuffix h) filePath || (len content >? FsMaxCompressibleFileSize) || negb (isFileCompressible content)
      then (d, newFSFile filePath content mtime false)
      else compressFileNolock d content mtime (filePath ++ fh_compressedFileSuffix h)
  end.

Definition openFSFile (d : Disk) (filePathOriginal : bytes) (mustCompress : bool) : Disk * result fsErr fsFile :=
  let filePath := if mustCompress then filePathOriginal ++ fh_compressedFileSuffix h else filePathOriginal in
  match os_Open d filePath with
  | Err errNotExist => if mustCompress then compressAndOpenFSFile d filePathOriginal else (d, Err errNotExist)
  | Err e => (d, Err e)
  | Ok (NDir _) => (d, Err (if mustCompress then errOther else errDirIndexRequired))
  | Ok (NFile content mtime) =>
      if mustCompress then
        match d_nodes d !! filePathOriginal with
        | Some original =>
            if bool_decide (ModTime original = mtime) then (d, newFSFile filePath content mtime true)
            else compressAndOpenFSFile (os_Remove d filePath) filePathOriginal
        | None => (d, Err errOther)
        end
      else (d, newFSFile filePath content mtime false)
  end.

(** createDirIndex, the page being a parameter. *)
Definition createDirIndex (d : Disk) (dirPath : bytes) (mustCompress : bool) : result fsErr fsFile :=
  match os_Open d dirPath with
  | Err e => Err e
  | Ok _ =>
      let page := indexPage dirPath in
      Ok (mkFile (if mustCompress then gz page else page) true (str "text/html; charset=utf-8") mustCompress nowTime now 0 true)
  end.

Fixpoint openIndexFile (d : Disk) (dirPath : bytes) (mustCompress : bool) (names : list bytes) : Disk * result fsErr fsFile :=
  match names with
  | [] => (d, if fh_generateIndexPages h then createDirIndex d dirPath mustCompress else Err errOther)
  | indexName :: names =>
      match openFSFile d (dirPath ++ [47] ++ indexName) mustCompress with
      | (d, Ok f) => (d, Ok f)
      | (d, Err errNotExist) => openIndexFile d dirPath mustCompress names
      | (d, Err _) => (d, Err errOther)
      end
  end.
End Opening.

(** ** The files that are kept open *)

Record FsState := mkFs {
  fs_files : gmap Z fsFile;
  fs_next : Z;
  fs_cache : gmap bytes Z;
  fs_compressedCache : gmap bytes Z;
  fs_pendingFiles : list Z
}.

Definition newFs : FsState := mkFs ∅ 0 ∅ ∅ [].

Definition set_files (s : FsState) (m : gmap Z fsFile) : FsState := mkFs m (fs_next s) (fs_cache s) (fs_compressedCache s) (fs_pendingFiles s).
Definition fileCache (s : FsState) (compressed : bool) : gmap bytes Z := if compressed then fs_compressedCache s else fs_cache s.
Definition set_fileCache (s : FsState) (compressed : bool) (m : gmap bytes Z) : FsState :=
  if compressed then mkFs (fs_files s) (fs_next s) (fs_cache s) m (fs_pendingFiles s)
  else mkFs (fs_files s) (fs_next s) m (fs_compressedCache s) (fs_pendingFiles s).

Definition addReader (s : FsState) (id : Z) : FsState := set_files s (alter (fun f => set_readers f (ff_readersCount f + 1)) id (fs_files s)).

(** The first section of handleRequest under the lock. *)
Definition lookupFile (s : FsState) (compressed : bool) (path : bytes) : FsState * option Z :=
  match fileCache s compressed !! path with
  | Some id => (addReader s id, Some id)
  | None => (s, None)
  end.

(** The second one, with a file that has been opened meanwhile: another goroutine may have
    been faster, and its file is used. *)
Definition addFile (s : FsState) (compressed : bool) (path : bytes) (f : fsFile) : FsState * Z :=
  let id := fs_next s in
  let s := mkFs (<[id := f]> (fs_files s)) (id + 1) (fs_cache s) (fs_compressedCache s) (fs_pendingFiles s) in
  match fileCache s compressed !! path with
  | None => (addReader (set_fileCache s compressed (<[path := id]> (fileCache s compressed))) id, id)
  | Some id1 =>
      let s := addReader s id1 in
      (set_files s (alter Release id (fs_files s)), id1)
  end.

Definition decReadersCount (s : FsState) (id : Z) : outcome FsState :=
  run f <- deref (fs_files s !! id);
  let f := set_readers f (ff_readersCount f - 1) in
  if ff_readersCount f <? 0 then Panic else Ret (set_files s (<[id := f]> (fs_files s))).

Definition readers_of (s : FsState) (id : Z) : Z := match fs_files s !! id with Some f => ff_readersCount f | None => 0 end.
Definition stale (h : fsHandler) (s : FsState) (now : Z) (id : Z) : bool :=
  match fs_files s !! id with Some f => now - ff_t f >? fh_cacheDuration h | None => false end.

(** The files of a cache that are too old leave it, to be closed at once or, when somebody
    reads them, later. *)
Definition cleanCacheNolock (h : fsHandler) (s : FsState) (now : Z) (compressed : bool) (pendingFiles filesToRelease : list Z) : FsState * list Z * list Z :=
  let gone := filter (fun id => stale h s now id = true) ((map_to_list (fileCache s compressed)).*2) in
  (set_fileCache s compressed (filter (fun p => stale h s now p.2 = false) (fileCache s compressed)),
   pendingFiles ++ filter (fun id => 0 < readers_of s id) gone, filesToRelease ++ filter (fun id => ~ 0 < readers_of s id) gone).

Definition cleanCache (h : fsHandler) (s : FsState) (now : Z) : FsState :=
  let pendingFiles := filter (fun id => 0 < readers_of s id) (fs_pendingFiles s) in
  let filesToRelease := filter (fun id => ~ 0 < readers_of s id) (fs_pendingFiles s) in
  let '(s, pendingFiles, filesToRelease) := cleanCacheNolock h s now false pendingFiles filesToRelease in
  let '(s, pendingFiles, filesToRelease) := cleanCacheNolock h s now true pendingFiles filesToRelease in
  let s := mkFs (fs_files s) (fs_next s) (fs_cache s) (fs_compressedCache s) pendingFiles in
  foldl (fun s id => set_files s (alter Release id (fs_files s))) s filesToRelease.

(** ** The handler

    With the server of the repository, where the response goes out when the handler has
    returned. *)

(** A request as the handler sees it: a date that does not parse counts as none. *)
Record fsRequest := mkFsRequest {
  rq_path : bytes;
  rq_range : bytes;
  rq_acceptsGzip : bool;
  rq_ifModifiedSince : option Time;
  rq_head : bool
}.

Record fsResponse := mkFsResponse {
  fr_Header : ResponseHeader;
  fr_body : bytes;
  fr_bodyStream : option fsReader;
  fr_SkipBody : bool
}.

Definition AbortWithMsg (p : fsResponse) (msg : string) (code : Z) : fsResponse :=
  mkFsResponse (SetContentTypeBytes (SetStatusCode (RespHeader.Reset (fr_Header p)) code) DefaultContentType) (str msg) None false.

Definition NotModified (p : fsResponse) : fsResponse := mkFsResponse (SetStatusCode (RespHeader.Reset (fr_Header p)) 304) [] None false.

Definition IfModifiedSince (ifMod : option Time) (lastModified : Time) : bool :=
  match ifMod with
  | None => true
  | Some t => (t_sec t <? t_sec lastModified) || ((t_sec t =? t_sec lastModified) && (t_nsec t <? 0))
  end.

Section Handler.
Context (gz : bytes -> bytes) (gunzip : bytes -> option bytes) (isFileCompressible : bytes -> bool).
Context (TypeByExtension DetectContentType indexPage : bytes -> bytes) (h : fsHandler) (now : Z) (nowTime : Time).

Definition openFile (d : Disk) (path : bytes) (mustCompress : bool) : Disk * result fsErr fsFile :=
  openFSFile gz gunzip isFileCompressible TypeByExtension DetectContentType h now d path mustCompress.

(** The path that is served, or the answer to a path that is not. *)
Definition servedPath (p : fsResponse) (q : fsRequest) : result fsResponse bytes :=
  let path := stripTrailingSlashes (match fh_pathRewrite h with Some f => f (rq_path q) | None => rq_path q end) in
  if IndexByte path 0 >=? 0 then Err (AbortWithMsg p "Are you a hacker?" 400)
  else if match fh_pathRewrite h with Some _ => Index path (str "/../") >=? 0 | None => false end then Err (AbortWithMsg p "Internal Server Error" 500)
  else Ok path.

(** Opening the file of a path that no cache has. *)
Definition openPath (p : fsResponse) (d : Disk) (path : bytes) (mustCompress : bool) : Disk * result fsResponse fsFile :=
  let filePath := fh_root h ++ path in
  let '(d, f, mustCompress) :=
    match openFile d filePath mustCompress with
    | (d, Err errNoCreatePermission) => if mustCompress then (openFile d filePath false, false) else (d, Err errNoCreatePermission, mustCompress)
    | (d, f) => (d, f, mustCompress)
    end in
  match f with
  | Ok f => (d, Ok f)
  | Err errDirIndexRequired =>
      match openIndexFile gz gunzip isFileCompressible TypeByExtension DetectContentType indexPage h now nowTime d filePath mustCompress (fh_indexNames h) with
      | (d, Ok f) => (d, Ok f)
      | (d, Err _) => (d, Err (AbortWithMsg p "Directory index is forbidden" 403))
      end
  | Err _ => (d, Err (if fh_pathNotFound h then mkFsResponse (SetStatusCode (fr_Header p) 404) (fr_body p) (fr_bodyStream p) (fr_SkipBody p)
                      else AbortWithMsg p "Cannot open requested path" 404))
  end.

(** The response for a file, its reader being counted. *)
Definition serveFile (s : FsState) (p : fsResponse) (q : fsRequest) (id : Z) (ff : fsFile) : outcome (FsState * fsResponse) :=
  if negb (IfModifiedSince (rq_ifModifiedSince q) (ff_lastModified ff)) then
    run s <- decReadersCount s id; Ret (s, NotModified p)
  else
    let r := mkReader id 0 (ff_contentLength ff) in
    let hdr := if ff_compressed ff then SetContentEncodingBytes (fr_Header p) (str "gzip") else fr_Header p in
    run hdr <- (if fh_acceptByteRange h then SetCanonical hdr (str "Accept-Ranges") (str "bytes") else Ret hdr);
    match (if fh_acceptByteRange h && (len (rq_range q) >? 0) then Some (ParseByteRange (rq_range q) (ff_contentLength ff)) else None) with
    | Some None => run s <- decReadersCount s id; Ret (s, AbortWithMsg (mkFsResponse hdr (fr_body p) (fr_bodyStream p) (fr_SkipBody p)) "Range Not Satisfiable" 416)
    | range =>
        run (hdr, r, contentLength, statusCode) <-
          match range with
          | Some (Some (startPos, endPos)) =>
              run hdr <- SetContentRange hdr startPos endPos (ff_contentLength ff);
              Ret (hdr, UpdateByteRange r startPos endPos, endPos - startPos + 1, 206)
          | _ => Ret (hdr, r, ff_contentLength ff, 200)
          end;
        run hdr <- SetCanonical hdr (str "Last-Modified") (http_date (ff_lastModified ff));
        run hdr <- SetContentLength hdr contentLength;
        run s <- (if rq_head q then decReadersCount s id else Ret s);
        let hdr := SetNoDefaultContentType hdr true in
        let hdr := if len (ContentType hdr) =? 0 then SetContentTypeBytes hdr (ff_contentType ff) else hdr in
        Ret (s, mkFsResponse (SetStatusCode hdr statusCode) [] (if rq_head q then None else Some r) (fr_SkipBody p || rq_head q))
    end.

Definition handleRequest (s : FsState) (d : Disk) (p : fsResponse) (q : fsRequest) : outcome (FsState * Disk * fsResponse) :=
  match servedPath p q with
  | Err p => Ret (s, d, p)
  | Ok path =>
      let mustCompress := (len (rq_range q) =? 0) && fh_compress h && rq_acceptsGzip q in
      match lookupFile s mustCompress path with
      | (s, Some id) =>
          run ff <- deref (fs_files s !! id);
          run (s, p) <- serveFile s p q id ff; Ret (s, d, p)
      | (s, None) =>
          match openPath p d path mustCompress with
          | (d, Err p) => Ret (s, d, p)
          | (d, Ok f) =>
              let '(s, id) := addFile s mustCompress path f in
              run ff <- deref (fs_files s !! id);
              run (s, p) <- serveFile s p q id ff; Ret (s, d, p)
          end
      end
  end.
End Handler.
