(* ===== verification/FileCache.v ===== *)
(** * The files a handler keeps open

    Requests take files from a cache or put them there, readers give them back, and a
    goroutine closes what is old.  The sections under the lock are the steps, in any order. *)

From S2P Require Import Prelude Bytes BytesConv Args ArgsSpec HeaderScan Trailer Uri UriPath RespHeader SetCookie FileServe.

(** ** Which files are reachable *)

Definition cached (s : FsState) (compressed : bool) : list Z := (map_to_list (fileCache s compressed)).*2.
Definition tracked (s : FsState) : list Z := cached s false ++ cached s true ++ fs_pendingFiles s.

Definition uses (held : list Z) (id : Z) : Z := Z.of_nat (count_occ Z.eq_dec held id).

Definition is_open (s : FsState) (id : Z) : Prop := exists f, fs_files s !! id = Some f /\ ff_open f = true.

(** [held] are the files somebody reads, as often as they are read. *)
Record fs_inv (s : FsState) (held : list Z) : Prop := {
  fi_once : NoDup (tracked s);
  fi_open : forall id, id ∈ tracked s <-> is_open s id;
  fi_next : forall id f, fs_files s !! id = Some f -> id < fs_next s;
  fi_readers : forall id f, fs_files s !! id = Some f -> ff_readersCount f = uses held id;
  fi_held : forall id, id ∈ held -> id ∈ tracked s
}.

(** ** Files one by one *)

Lemma lookup_addReader s i id : fs_files (addReader s i) !! id =
  (fun f => if bool_decide (i = id) then set_readers f (ff_readersCount f + 1) else f) <$> fs_files s !! id.
Proof.
  unfold addReader. cbn. destruct (decide (i = id)) as [->|Hne].
  - rewrite lookup_alter_eq, bool_decide_true by done. by destruct (fs_files s !! id).
  - rewrite lookup_alter_ne, bool_decide_false by done. by destruct (fs_files s !! id).
Qed.

Lemma uses_cons i held id : uses (i :: held) id = uses held id + if bool_decide (i = id) then 1 else 0.
Proof. unfold uses. cbn. destruct (Z.eq_dec i id); [rewrite bool_decide_true by done|rewrite bool_decide_false by done]; lia. Qed.

Lemma is_open_addReader s i id : is_open (addReader s i) id <-> is_open s id.
Proof.
  unfold is_open. rewrite lookup_addReader. split.
  - intros (f & E & Ho). destruct (fs_files s !! id) as [g|]; [|done]. injection E as <-. exists g. split; [done|]. by destruct (bool_decide (i = id)).
  - intros (f & -> & Ho). eexists. split; [done|]. by destruct (bool_decide (i = id)).
Qed.

(** One more reader of a file that is reachable. *)
Lemma inv_addReader s held i : fs_inv s held -> i ∈ tracked s -> fs_inv (addReader s i) (i :: held).
Proof.
  intros [H1 H2 H3 H4 H5] Hi. split; [done| | | |].
  - intros id. rewrite is_open_addReader. apply H2.
  - intros id f. rewrite lookup_addReader. intros E. destruct (fs_files s !! id) as [g|] eqn:Eg; [|done]. by eapply H3.
  - intros id f. rewrite lookup_addReader, uses_cons. destruct (fs_files s !! id) as [g|] eqn:Eg; [|done]. cbn. intros [= <-].
    rewrite <- (H4 id g Eg). destruct (bool_decide (i = id)); cbn; lia.
  - intros id. rewrite elem_of_cons. intros [->|Hid]; [done|by apply H5].
Qed.

Lemma cached_tracked s c path id : fileCache s c !! path = Some id -> id ∈ tracked s.
Proof.
  intros E. assert (id ∈ cached s c) as H by (unfold cached; apply list_elem_of_fmap; exists (path, id); split; [done|by apply elem_of_map_to_list]).
  unfold tracked. rewrite !elem_of_app. destruct c; tauto.
Qed.

Lemma inv_lookup s held c path s' id : fs_inv s held -> lookupFile s c path = (s', Some id) -> fs_inv s' (id :: held).
Proof.
  intros Hi. unfold lookupFile. destruct (fileCache s c !! path) as [i|] eqn:E; [|done]. intros [= <- <-].
  apply inv_addReader; [done|]. by eapply cached_tracked.
Qed.

(** The next number is new. *)
Lemma inv_fresh s held : fs_inv s held -> fs_files s !! fs_next s = None /\ (fs_next s ∉ tracked s) /\ uses held (fs_next s) = 0.
Proof.
  intros [H1 H2 H3 H4 H5]. assert (fs_files s !! fs_next s = None) as Hn.
  { destruct (fs_files s !! fs_next s) as [g|] eqn:E; [|done]. apply H3 in E. lia. }
  assert (fs_next s ∉ tracked s) as Ht by (rewrite H2; intros (g & E & _); congruence).
  split_and!; [done|done|]. assert (~ In (fs_next s) held) as Hh by (intros Hin; apply Ht, H5, list_elem_of_In, Hin).
  unfold uses. by rewrite (proj1 (count_occ_not_In Z.eq_dec held (fs_next s)) Hh).
Qed.

(** A file that is new, closed again because another one was faster. *)
Lemma inv_closed s held f : fs_inv s held -> ff_readersCount f = 0 ->
  fs_inv (mkFs (<[fs_next s := Release f]> (fs_files s)) (fs_next s + 1) (fs_cache s) (fs_compressedCache s) (fs_pendingFiles s)) held.
Proof.
  intros Hi Hf. destruct (inv_fresh s held Hi) as (Hn & Ht & Hu). destruct Hi as [H1 H2 H3 H4 H5].
  split; cbn [fs_files fs_next]; [done| | | |done].
  - intros id. change (id ∈ tracked s <-> is_open (mkFs (<[fs_next s:=Release f]> (fs_files s)) (fs_next s + 1) (fs_cache s) (fs_compressedCache s) (fs_pendingFiles s)) id).
    unfold is_open. cbn [fs_files]. destruct (decide (id = fs_next s)) as [->|Hne].
    + rewrite lookup_insert_eq. split; [done|]. intros (g & [= <-] & Ho). done.
    + rewrite lookup_insert_ne by done. apply H2.
  - intros id g. rewrite lookup_insert_Some. intros [[<- _]|[_ E]]; [lia|]. apply H3 in E. lia.
  - intros id g. rewrite lookup_insert_Some. intros [[<- <-]|[_ E]]; [|by apply H4]. cbn. by rewrite Hf, Hu.
Qed.

(** A file that is new and goes into a cache. *)
Lemma inv_cached s held c path f : fs_inv s held -> ff_readersCount f = 0 -> ff_open f = true -> fileCache s c !! path = None ->
  let s' := mkFs (<[fs_next s := f]> (fs_files s)) (fs_next s + 1) (fs_cache s) (fs_compressedCache s) (fs_pendingFiles s) in
  fs_inv (set_fileCache s' c (<[path := fs_next s]> (fileCache s c))) held /\ fs_next s ∈ tracked (set_fileCache s' c (<[path := fs_next s]> (fileCache s c))).
Proof.
  intros Hi Hf Ho Hc s'. destruct (inv_fresh s held Hi) as (Hn & Ht & Hu). destruct Hi as [H1 H2 H3 H4 H5]. set (s1 := set_fileCache s' c _).
  assert (tracked s1 ≡ₚ fs_next s :: tracked s) as Hp.
  { unfold tracked, cached, s1, s'. destruct c; cbn [set_fileCache fileCache fs_cache fs_compressedCache fs_pendingFiles] in *; rewrite map_to_list_insert by done; cbn; [|done].
    by rewrite <- Permutation_middle. }
  assert (fs_files s1 = <[fs_next s := f]> (fs_files s)) as Ef by (unfold s1, s'; by destruct c).
  assert (fs_next s1 = fs_next s + 1) as En by (unfold s1, s'; by destruct c).
  split; [|rewrite Hp; set_solver]. split.
  - rewrite Hp. by constructor.
  - intros id. unfold is_open. rewrite Hp, Ef, elem_of_cons, H2. destruct (decide (id = fs_next s)) as [->|Hne].
    + rewrite lookup_insert_eq. split; [by exists f|tauto].
    + rewrite lookup_insert_ne by done. unfold is_open. tauto.
  - intros id g. rewrite Ef, En, lookup_insert_Some. intros [[<- _]|[_ E]]; [lia|]. apply H3 in E. lia.
  - intros id g. rewrite Ef, lookup_insert_Some. intros [[<- <-]|[_ E]]; [|by apply H4]. by rewrite Hf, Hu.
  - intros id Hid. rewrite Hp. apply elem_of_cons. right. by apply H5.
Qed.

Lemma inv_addFile s held c path f s' id : fs_inv s held -> ff_readersCount f = 0 -> ff_open f = true -> addFile s c path f = (s', id) -> fs_inv s' (id :: held).
Proof.
  intros Hi Hf Ho. unfold addFile. set (s1 := mkFs (<[fs_next s := f]> (fs_files s)) _ _ _ _).
  assert (fileCache s1 c = fileCache s c) as -> by (by destruct c).
  destruct (fileCache s c !! path) as [i|] eqn:E; intros [= <- <-].
  - destruct (inv_fresh s held Hi) as (Hn & Ht & Hu). pose proof (cached_tracked s c path i E) as Hit.
    assert (fs_next s <> i) as Hne by (intros En; by rewrite En in Ht).
    pose proof (inv_addReader _ _ i (inv_closed s held f Hi Hf) Hit) as H. unfold addReader, set_files in *. cbn [fs_files fs_next fs_cache fs_compressedCache fs_pendingFiles s1] in *.
    rewrite alter_insert_ne in H by done. rewrite alter_insert_ne, alter_insert_eq by done. exact H.
  - destruct (inv_cached s held c path f Hi Hf Ho E) as [H1 H2]. by apply inv_addReader.
Qed.

(** A reader that gives its file back. *)
Lemma inv_dec s l1 l2 id : fs_inv s (l1 ++ id :: l2) -> exists s', decReadersCount s id = Ret s' /\ fs_inv s' (l1 ++ l2).
Proof.
  intros [H1 H2 H3 H4 H5]. assert (id ∈ tracked s) as Hi by (apply H5; set_solver). apply H2 in Hi as (f & E & Ho).
  pose proof (H4 id f E) as Hr. assert (forall j, uses (l1 ++ id :: l2) j = uses (l1 ++ l2) j + if bool_decide (id = j) then 1 else 0) as Hu.
  { intros j. unfold uses. case_bool_decide; [rewrite (count_occ_elt_eq Z.eq_dec) by done; lia|rewrite (count_occ_elt_neq Z.eq_dec) by done; lia]. }
  rewrite Hu, bool_decide_true in Hr by done. assert (0 <= uses (l1 ++ l2) id) by (unfold uses; lia).
  unfold decReadersCount. rewrite E. cbn [deref outcome_bind]. cbn [ff_readersCount set_readers].
  rewrite (proj2 (Z.ltb_ge _ _)) by lia. eexists. split; [done|]. split; [done| | | |].
  - intros j. change (tracked (set_files s (<[id := set_readers f (ff_readersCount f - 1)]> (fs_files s)))) with (tracked s). rewrite H2. unfold is_open. cbn [set_files fs_files].
    destruct (decide (id = j)) as [<-|Hne]; [|by rewrite lookup_insert_ne]. rewrite lookup_insert_eq, E. naive_solver.
  - intros j g. cbn. rewrite lookup_insert_Some. intros [[<- _]|[_ E']]; by eapply H3.
  - intros j g. cbn. rewrite lookup_insert_Some. intros [[<- <-]|[Hne E']]; [cbn; lia|]. rewrite (H4 j g E'), Hu, bool_decide_false by done. lia.
  - intros j Hj. apply H5. set_solver.
Qed.

(** ** Closing what is old *)

Lemma filter_halves (f : Z -> bool) (l : list (bytes * Z)) :
  (filter (fun p => f p.2 = false) l).*2 ++ filter (fun id => f id = true) (l.*2) ≡ₚ l.*2.
Proof.
  induction l as [|[k x] l IH]; [done|]. rewrite fmap_cons, !filter_cons. cbn [snd]. destruct (f x) eqn:E; cbn.
  - rewrite decide_False, decide_True by done. by rewrite <- Permutation_middle, IH.
  - rewrite decide_True, decide_False by done. cbn. by rewrite IH.
Qed.

Lemma map_halves (f : Z -> bool) (m : gmap bytes Z) :
  (map_to_list (filter (fun p => f p.2 = false) m)).*2 ++ filter (fun id => f id = true) ((map_to_list m).*2) ≡ₚ (map_to_list m).*2.
Proof.
  rewrite <- (filter_halves f (map_to_list m)) at 2. apply Permutation_app_tail, fmap_Permutation. rewrite map_filter_alt. apply map_to_list_to_map.
  pose proof (NoDup_fst_map_to_list m) as Hn. induction (map_to_list m) as [|[k x] l IH]; [constructor|]. rewrite fmap_cons in Hn. apply NoDup_cons in Hn as [Hk Hn].
  rewrite filter_cons. case_decide; [|by apply IH]. rewrite fmap_cons. constructor; [|by apply IH]. intros Hin. apply Hk.
  apply list_elem_of_fmap in Hin as ([k' x'] & -> & Hin). apply list_elem_of_filter in Hin as [_ Hin]. apply list_elem_of_fmap. by eexists.
Qed.

Lemma clean_one h s now c pend rel s' pend' rel' : cleanCacheNolock h s now c pend rel = (s', pend', rel') ->
  cached s' c ++ pend' ++ rel' ≡ₚ cached s c ++ pend ++ rel /\ cached s' (negb c) = cached s (negb c) /\ fs_files s' = fs_files s /\ fs_next s' = fs_next s /\
  (forall id, id ∈ rel' -> id ∈ rel \/ ~ 0 < readers_of s id) /\
  (forall id, id ∈ pend' -> id ∈ pend \/ 0 < readers_of s id) /\ (forall id, id ∈ cached s' c -> stale h s now id = false).
Proof.
  unfold cleanCacheNolock. intros [= <- <- <-]. set (gone := filter _ ((map_to_list (fileCache s c)).*2)).
  assert (cached (set_fileCache s c (filter (fun p => stale h s now p.2 = false) (fileCache s c))) c ++ gone ≡ₚ cached s c) as Hp.
  { unfold cached. replace (fileCache (set_fileCache s c _) c) with (filter (fun p => stale h s now p.2 = false) (fileCache s c)) by (by destruct c). apply map_halves. }
  split_and!; [|by destruct c|by destruct c|by destruct c| | |].
  - rewrite <- Hp, <- !app_assoc. apply Permutation_app_head. rewrite <- (filter_app_complement (fun id => 0 < readers_of s id) gone) at 3. solve_Permutation.
  - intros id Hin. apply elem_of_app in Hin as [Hin|Hin]; [by left|]. right. by apply list_elem_of_filter in Hin as [? _].
  - intros id Hin. apply elem_of_app in Hin as [Hin|Hin]; [by left|]. right. by apply list_elem_of_filter in Hin as [? _].
  - intros id Hin. unfold cached in Hin. apply list_elem_of_fmap in Hin as ([k x] & -> & Hin). apply elem_of_map_to_list in Hin.
    replace (fileCache (set_fileCache s c _) c) with (filter (fun p => stale h s now p.2 = false) (fileCache s c)) in Hin by (by destruct c).
    by apply map_lookup_filter_Some in Hin as [_ ?].
Qed.

Lemma lookup_release l : forall s id, fs_files (foldl (fun s id => set_files s (alter Release id (fs_files s))) s l) !! id =
  (if bool_decide (id ∈ l) then Release <$> fs_files s !! id else fs_files s !! id).
Proof.
  induction l as [|i l IH]; intros s id; cbn [foldl]; [done|]. rewrite IH. cbn [set_files fs_files].
  destruct (decide (i = id)) as [->|Hne].
  - rewrite lookup_alter_eq, (bool_decide_true (id ∈ id :: l)) by set_solver. case_bool_decide; [|done]. by destruct (fs_files s !! id).
  - rewrite lookup_alter_ne by done. apply (f_equal (fun b : bool => if b then Release <$> fs_files s !! id else fs_files s !! id)), bool_decide_ext. set_solver.
Qed.

Lemma tracked_release l : forall s, tracked (foldl (fun s id => set_files s (alter Release id (fs_files s))) s l) = tracked s /\
  fs_next (foldl (fun s id => set_files s (alter Release id (fs_files s))) s l) = fs_next s.
Proof. induction l as [|i l IH]; intros s; [done|]. cbn [foldl]. destruct (IH (set_files s (alter Release i (fs_files s)))) as [-> ->]. done. Qed.

(** What is closed, and what is still reachable. *)
Lemma cleanCache_parts h s now : exists rel,
  tracked (cleanCache h s now) ++ rel ≡ₚ tracked s /\ fs_next (cleanCache h s now) = fs_next s /\
  (forall id, fs_files (cleanCache h s now) !! id = if bool_decide (id ∈ rel) then Release <$> fs_files s !! id else fs_files s !! id) /\
  (forall id, id ∈ rel -> ~ 0 < readers_of s id) /\ (forall id, id ∈ tracked (cleanCache h s now) -> 0 < readers_of s id \/ stale h s now id = false).
Proof.
  unfold cleanCache. set (p0 := filter (fun id => 0 < readers_of s id) (fs_pendingFiles s)). set (r0 := filter (fun id => ~ 0 < readers_of s id) (fs_pendingFiles s)).
  assert (p0 ++ r0 ≡ₚ fs_pendingFiles s) as Hp0 by apply filter_app_complement.
  destruct (cleanCacheNolock h s now false p0 r0) as [[s1 p1] r1] eqn:E1. apply clean_one in E1 as (P1 & C1 & F1 & N1 & R1 & W1 & S1).
  destruct (cleanCacheNolock h s1 now true p1 r1) as [[s2 p2] r2] eqn:E2. apply clean_one in E2 as (P2 & C2 & F2 & N2 & R2 & W2 & S2).
  cbn [negb] in *. assert (forall id, readers_of s1 id = readers_of s id) as Er by (intros id; unfold readers_of; by rewrite F1).
  assert (forall id, stale h s1 now id = stale h s now id) as Es by (intros id; unfold stale; by rewrite F1).
  exists r2. set (s3 := mkFs (fs_files s2) (fs_next s2) (fs_cache s2) (fs_compressedCache s2) p2).
  destruct (tracked_release r2 s3) as [Et En]. rewrite Et, En. unfold tracked at 1.
  assert (cached s3 false = cached s1 false) as Ea by exact C2. assert (cached s3 true = cached s2 true) as Eb by done.
  split_and!.
  - rewrite Ea, Eb. cbn [s3 fs_pendingFiles]. rewrite <- !app_assoc, P2, (Permutation_app_comm (cached s1 true)), app_assoc, P1, C1. unfold tracked. rewrite <- Hp0. solve_Permutation.
  - cbn. congruence.
  - intros id. rewrite lookup_release. cbn [s3 fs_files]. by rewrite F2, F1.
  - intros id Hid. destruct (R2 id Hid) as [Hid'|H]; [|by rewrite Er in H]. destruct (R1 id Hid') as [Hr|H]; [|done]. by apply list_elem_of_filter in Hr as [? _].
  - intros id. unfold tracked. rewrite !elem_of_app, Ea, Eb. cbn [s3 fs_pendingFiles]. intros [H|[H|H]].
    + right. by apply S1.
    + right. rewrite <- Es. by apply S2.
    + left. destruct (W2 id H) as [H'|H']; [|by rewrite <- Er]. destruct (W1 id H') as [H''|H'']; [|done]. by apply list_elem_of_filter in H'' as [? _].
Qed.

Lemma uses_pos held id : id ∈ held -> 0 < uses held id.
Proof. intros H. unfold uses. apply list_elem_of_In, (count_occ_In Z.eq_dec) in H. lia. Qed.

Lemma inv_clean h s held now : fs_inv s held -> fs_inv (cleanCache h s now) held.
Proof.
  intros [H1 H2 H3 H4 H5]. destruct (cleanCache_parts h s now) as (rel & Hp & En & Ef & Hr & _). rewrite <- Hp in H1. apply NoDup_app in H1 as (Hn & Hd & _).
  assert (forall id, id ∈ tracked s <-> id ∈ tracked (cleanCache h s now) \/ id ∈ rel) as Ht by (intros id; by rewrite <- Hp, elem_of_app).
  split; [done| | | |].
  - intros id. unfold is_open. rewrite Ef. destruct (decide (id ∈ rel)) as [Hin|Hout].
    + rewrite bool_decide_true by done. split; [intros Hid; by destruct (Hd id)|]. intros (f & E & Ho). destruct (fs_files s !! id); [|done]. by injection E as <-.
    + rewrite bool_decide_false by done. specialize (H2 id). unfold is_open in H2. rewrite <- H2, Ht. tauto.
  - intros id f. rewrite Ef, En. destruct (fs_files s !! id) as [g|] eqn:Eg; [intros _; by eapply H3|]. by case_bool_decide.
  - intros id f. rewrite Ef. destruct (fs_files s !! id) as [g|] eqn:Eg; [|by case_bool_decide]. rewrite <- (H4 id g Eg). case_bool_decide; cbn; intros [= <-]; done.
  - intros id Hid. pose proof (H5 id Hid) as Hin. apply Ht in Hin as [Hin|Hin]; [done|]. exfalso. apply (Hr id Hin).
    pose proof (proj1 (H2 id) (H5 id Hid)) as (f & E & _). unfold readers_of. rewrite E, (H4 id f E). by apply uses_pos.
Qed.

(** ** Runs *)

Inductive fs_run (h : fsHandler) : FsState -> list Z -> Prop :=
| fs_start : fs_run h newFs []
| fs_hit s held c path s' id : fs_run h s held -> lookupFile s c path = (s', Some id) -> fs_run h s' (id :: held)
| fs_opened s held c path f s' id : fs_run h s held -> ff_readersCount f = 0 -> ff_open f = true -> addFile s c path f = (s', id) -> fs_run h s' (id :: held)
| fs_closed s l1 id l2 s' : fs_run h s (l1 ++ id :: l2) -> decReadersCount s id = Ret s' -> fs_run h s' (l1 ++ l2)
| fs_clean s held now : fs_run h s held -> fs_run h (cleanCache h s now) held.

Lemma fs_run_inv h s held : fs_run h s held -> fs_inv s held.
Proof.
  induction 1 as [|s held c path s' id _ IH E|s held c path f s' id _ IH Hf Ho E|s l1 id l2 s' _ IH E|s held now _ IH].
  - split; [constructor| |done|done|set_solver]. intros id. split; [set_solver|]. by intros (f & E & _).
  - by eapply inv_lookup.
  - by eapply inv_addFile.
  - destruct (inv_dec s l1 l2 id IH) as (s1 & E1 & H1). rewrite E1 in E. by injection E as <-.
  - by apply inv_clean.
Qed.

(** C34: Whatever the order of requests, readers and cleaning: a file that is read is open
    and closing its reader does not panic; no open file is lost, each is in one place of the
    caches or waits to be closed; and one cleaning, whoever reads whatever, closes every file
    that is old and that nobody reads, and none that somebody reads. *)
Theorem fs_files_safe (h : fsHandler) (s : FsState) (held : list Z) (now : Z) : fs_run h s held ->
  (forall id, id ∈ held -> is_open s id /\ exists s', decReadersCount s id = Ret s') /\
  NoDup (tracked s) /\ (forall id, is_open s id <-> id ∈ tracked s) /\
  (forall id f, fs_files s !! id = Some f -> id ∉ held -> fh_cacheDuration h < now - ff_t f -> ~ is_open (cleanCache h s now) id) /\
  (forall id, id ∈ held -> is_open (cleanCache h s now) id).
Proof.
  intros Hr%fs_run_inv. pose proof Hr as [H1 H2 H3 H4 H5]. pose proof (inv_clean h s held now Hr) as [_ G2 _ _ G5]. split_and!.
  - intros id Hid. split; [by apply H2, H5|]. apply list_elem_of_split in Hid as (l1 & l2 & ->). destruct (inv_dec s l1 l2 id Hr) as (s' & E & _). by exists s'.
  - done.
  - intros id. symmetry. apply H2.
  - intros id f E Hn Hold Ho. apply G2 in Ho. destruct (cleanCache_parts h s now) as (rel & _ & _ & _ & _ & Hk). pose proof (Hk id Ho) as Hk'.
    unfold readers_of, stale in Hk'. rewrite E, (H4 id f E) in Hk'. assert (uses held id = 0) as Eu.
    { unfold uses. by rewrite (proj1 (count_occ_not_In Z.eq_dec held id)) by (by rewrite <- list_elem_of_In). }
    rewrite Eu in Hk'. destruct Hk' as [|Hk']; [lia|]. breflect. lia.
  - intros id Hid. by apply G2, G5.
Qed.

Module CacheSample.
Definition h : fsHandler := mkHandler (str "/srv") [] None false false false true 10 (str ".gz").
Definition f : fsFile := mkFile (str "hello") false (str "text/plain") false zeroTime 0 0 true.

(** Two files are opened, one is given back, and both grow old. *)
Definition s1 : FsState := (addFile newFs false (str "/a") f).1.
Definition s2 : FsState := (addFile s1 true (str "/b") f).1.
Definition s3 : FsState := match decReadersCount s2 1 with Ret s => s | _ => s2 end.

Lemma s3_run : fs_run h s3 [0].
Proof.
  apply (fs_closed h s2 [] 1 [0]); [|vm_eq]. apply (fs_opened h s1 [0] true (str "/b") f s2 1); [|done|done|vm_eq].
  by apply (fs_opened h newFs [] false (str "/a") f s1 0); [constructor|done|done|vm_eq].
Qed.

(** The one that is read stays open, the other one is closed. *)
Lemma fs_files_safe_witness : is_open (cleanCache h s3 20) 0 /\ ~ is_open (cleanCache h s3 20) 1 /\ exists s', decReadersCount s3 0 = Ret s'.
Proof.
  destruct (fs_files_safe h s3 [0] 20 s3_run) as (R1 & _ & _ & R2 & R3).
  split; [apply R3; constructor|]. split; [|apply R1; constructor].
  apply (R2 1 f); [vm_compute; reflexivity|apply (bool_decide_eq_true_1 (1 ∉ [0])); vm_compute; reflexivity|vm_compute; reflexivity].
Defined.

(** When it has been read, the next cleaning closes it. *)
Lemma closed_later : (run s <- decReadersCount (cleanCache h s3 20) 0; Ret (ff_open <$> fs_files (cleanCache h s 21) !! 0)) = Ret (Some false).
Proof. vm_eq. Qed.
End CacheSample.
