(* ===== verification/FileRange.v ===== *)
(** * Files: paths, ranges and packed copies

    Where the paths that are served lead, what a range of a file is, and when a packed copy
    is the file's. *)

From S2P Require Import Prelude Bytes BytesConv Args ArgsSpec HeaderScan Trailer ReqHeader ReqParse ReqRound ReqFraming Uri UriPath RespHeader SetCookie CookieRound FileServe.

(** ** Paths *)

(** Names below the root: no element leads upwards. *)
Definition below (segs : list bytes) : Prop := (str ".." ∉ segs) /\ ([] ∉ segs) /\ Forall (fun s => 47 ∉ s) segs.

Lemma strip_none p : last p <> Some 47 -> stripTrailingSlashes p = p.
Proof.
  induction p as [|c t IH]; intros Hl; [done|]. cbn [stripTrailingSlashes]. destruct t as [|d t].
  - cbn. rewrite (proj2 (Z.eqb_neq c 47)); [done|]. intros ->. done.
  - rewrite IH by done. done.
Qed.

Lemma strip_slash p : last p <> Some 47 -> stripTrailingSlashes (p ++ [47]) = p.
Proof.
  induction p as [|c t IH]; intros Hl; [done|]. cbn [stripTrailingSlashes app]. destruct t as [|d t].
  - cbn. rewrite (proj2 (Z.eqb_neq c 47)); [done|]. intros ->. done.
  - rewrite IH by done. done.
Qed.

Lemma path_ends_plain segs : ([] ∉ segs) -> Forall (fun s => 47 ∉ s) segs -> last (path_of segs) <> Some 47.
Proof.
  destruct segs as [|s segs _] using rev_ind; [done|]. intros Hn Hs. rewrite path_of_app. change (path_of [s]) with (47 :: s ++ []). rewrite app_nil_r.
  apply Forall_app in Hs as [_ Hs]. apply Forall_cons in Hs as [Hs _]. destruct s as [|c s _] using rev_ind; [destruct Hn; apply elem_of_app; right; constructor|].
  rewrite (app_comm_cons s [c] 47), app_assoc, last_snoc. intros [= ->]. apply Hs, elem_of_app. right. constructor.
Qed.

Lemma strip_path segs : below segs -> stripTrailingSlashes (path_of segs) = path_of segs /\ stripTrailingSlashes (path_of segs ++ [47]) = path_of segs.
Proof. intros (_ & Hn & Hs). split; [apply strip_none|apply strip_slash]; by apply path_ends_plain. Qed.

Lemma clean_below l : forall out, below out -> Forall (fun s => 47 ∉ s) l -> below (foldl (clean_step true) out l).
Proof.
  induction l as [|s l IH]; intros out Ho Hl; [done|]. apply Forall_cons in Hl as [Hs Hl]. cbn [foldl]. apply IH; [|done].
  destruct Ho as (H1 & H2 & H3). unfold clean_step. destruct (bytes_eqb s [] || bytes_eqb s (str ".")) eqn:E; [done|]. apply orb_false_iff in E as [E1%bytes_eqb_neq _].
  destruct (bytes_eqb s (str "..")) eqn:E2.
  - destruct (last out) as [t|] eqn:El; [|done]. apply last_Some in El as [init ->]. rewrite removelast_last.
    rewrite (proj2 (bytes_eqb_neq t (str ".."))) by set_solver. apply Forall_app in H3 as [H3 _]. split_and!; [set_solver|set_solver|done].
  - apply bytes_eqb_neq in E2. split_and!; [set_solver|set_solver|]. apply Forall_app. split; [done|by apply Forall_singleton].
Qed.

Lemma Clean_rooted rest : exists segs, below segs /\ stripTrailingSlashes (Clean (47 :: rest)) = path_of segs.
Proof.
  set (segs := foldl (clean_step true) [] (split_on 47 [] (47 :: rest))).
  assert (below segs) as Hb.
  { apply clean_below; [split_and!; [set_solver|set_solver|constructor]|]. apply split_on_free, not_elem_of_nil. }
  exists segs. split; [done|]. unfold Clean. rewrite bool_decide_true by done. fold segs. destruct (strip_path segs Hb) as [E1 E2]. destruct segs as [|s segs]; [done|].
  rewrite path_of_cons in *. exact E1.
Qed.

Lemma normalize_below src : exists segs, below segs /\ stripTrailingSlashes (normalizePath src) = path_of segs.
Proof.
  destruct (normalize_normal src) as (segs & -> & init & l & -> & Hi & Hl & H0 & H1 & H2 & Hlast).
  assert (below init) as Hb by (split_and!; [done|done|done]). rewrite path_of_app. change (path_of [l]) with (47 :: l ++ []). rewrite app_nil_r.
  destruct l as [|c l].
  - exists init. split; [done|]. by apply strip_path.
  - assert (below (init ++ [c :: l])) as Hb'.
    { split_and!; [set_solver|set_solver|]. apply Forall_app. split; [done|]. constructor; [exact Hl|constructor]. }
    exists (init ++ [c :: l]). split; [done|]. destruct (strip_path _ Hb') as [E _]. rewrite path_of_app in E |- *. change (path_of [c :: l]) with (47 :: (c :: l) ++ []) in E |- *. by rewrite app_nil_r in E |- *.
Qed.

(** C35: No request reads outside the root.  The path of a URI, or the path behind the prefix
    of StaticFS when that does not end in a slash, leads to a file below the root: the name
    that is opened is the root with elements behind it none of which leads upwards.  For
    other prefixes and for rewritten paths see [fs_defects]. *)
Theorem files_in_root (h : fsHandler) (p : fsResponse) (q : fsRequest) (path : bytes) :
  fh_pathRewrite h = None -> (exists src, rq_path q = normalizePath src) \/ (exists prefix rest, rq_path q = static_path prefix (prefix ++ 47 :: rest)) ->
  servedPath h p q = Ok path -> exists segs, below segs /\ fh_root h ++ path = fh_root h ++ path_of segs.
Proof.
  intros Hn Hq. unfold servedPath. rewrite Hn. case_if; [done|]. intros [= <-]. destruct Hq as [[src ->]|(prefix & rest & ->)].
  - destruct (normalize_below src) as (segs & Hb & ->). by exists segs.
  - destruct (Clean_rooted rest) as (segs & Hb & E). exists segs. split; [done|]. f_equal. rewrite <- E. f_equal.
    unfold static_path. assert (has_prefix prefix (prefix ++ 47 :: rest) = true) as ->.
    { apply bytes_eqb_eq. by rewrite take_app_length. }
    rewrite zdrop_app, (proj2 (Z.eqb_neq _ _)); [done|]. rewrite len_cons. pose proof (len_nonneg rest). lia.
Qed.

(** ** Ranges *)

Lemma range_bounds b n s e : 0 <= n -> ParseByteRange b n = Some (s, e) -> 0 <= s /\ s <= e + 1 /\ e < n /\ (0 < n -> 0 <= e).
Proof.
  intros Hn. unfold ParseByteRange. destruct (negb (has_prefix (str "bytes") b)); [done|]. destruct (zdrop 5 b) as [|c t]; [done|].
  assert (forall x v, ParseUint x = Some v -> 0 <= v) as Hp by (intros x v; apply ParseContentLength_nonneg).
  destruct (decide (c = 61)) as [->|Hc]; [|destruct c as [|c|c]; try done; do 6 (destruct c as [c|c|]; try done)]. set (i := IndexByte t 45).
  destruct (i <? 0); [done|]. destruct (i =? 0).
  - destruct (ParseUint (zdrop (i + 1) t)) as [v|] eqn:Ev; [|done]. apply Hp in Ev. cbn. intros [= <- <-]. destruct (n - v <? 0) eqn:E; breflect; lia.
  - destruct (ParseUint (ztake i t)) as [v|] eqn:Ev; [|done]. apply Hp in Ev. cbn. destruct (v >=? n) eqn:E1; [done|]. breflect.
    destruct (len (zdrop (i + 1) t) =? 0); [intros [= <- <-]; lia|]. destruct (ParseUint (zdrop (i + 1) t)) as [w|] eqn:Ew; [|done]. apply Hp in Ew. cbn.
    destruct (w >=? n) eqn:E2; breflect; case_if; try done; breflect; intros [= <- <-]; lia.
Qed.

(** A range of octets as RFC 2616, 14.35.1 has it, how it is written, and the octets of a
    file of [n] octets it stands for: none when it is no range or cannot be satisfied. *)
Inductive byte_range : Type :=
| FromTo (first last : Z)
| From (first : Z)
| Last (n : Z).

Definition range_text (g : byte_range) : bytes :=
  str "bytes=" ++ match g with
                  | FromTo a b => itoa a ++ 45 :: itoa b
                  | From a => itoa a ++ [45]
                  | Last k => 45 :: itoa k
                  end.

Definition range_numbers (g : byte_range) : Prop :=
  match g with FromTo a b => 0 <= a < 2 ^ 63 /\ 0 <= b < 2 ^ 63 | From a | Last a => 0 <= a < 2 ^ 63 end.

Definition range_of (g : byte_range) (n : Z) : option (Z * Z) :=
  match g with
  | FromTo a b => if (a <=? b) && (a <? n) then Some (a, Z.min b (n - 1)) else None
  | From a => if a <? n then Some (a, n - 1) else None
  | Last k => if (0 <? k) && (0 <? n) then Some (Z.max 0 (n - k), n - 1) else None
  end.

Lemma range_of_within g n s e : range_numbers g -> range_of g n = Some (s, e) -> 0 <= s <= e /\ e < n.
Proof. intros Hg. destruct g; cbn in *; case_if; try done; breflect; intros [= <- <-]; lia. Qed.

(** The code agrees, but for the last none of the octets. *)
Lemma ParseByteRange_meaning g n : range_numbers g -> 0 < n -> g <> Last 0 -> ParseByteRange (range_text g) n = range_of g n.
Proof.
  intros Hg Hn H0. unfold ParseByteRange, range_text.
  assert (forall t, has_prefix (str "bytes") (str "bytes=" ++ t) = true) as -> by (intros t; apply bytes_eqb_eq; reflexivity).
  assert (forall t, zdrop 5 (str "bytes=" ++ t) = 61 :: t) as -> by done. cbn [negb].
  assert (forall a, 0 <= a -> 45 ∉ itoa a) as Hm by (intros a Ha Hin; pose proof (itoa_range a Ha) as Hr; rewrite Forall_forall in Hr; apply Hr in Hin; lia).
  assert (forall a, 0 <= a -> 0 < len (itoa a)) as Hl by (intros a Ha; destruct (itoa_first a Ha) as (c & t & -> & _); rewrite len_cons; pose proof (len_nonneg t); lia).
  assert (forall a t, zdrop (len (itoa a) + 1) (itoa a ++ 45 :: t) = t) as Hd.
  { intros a t. replace (itoa a ++ 45 :: t) with ((itoa a ++ [45]) ++ t) by (by rewrite <- app_assoc). apply zdrop_app_at. by rewrite len_app. }
  destruct g as [a b|a|k]; cbn [range_numbers range_of] in *.
  - pose proof (Hl a ltac:(lia)). pose proof (Hl b ltac:(lia)). rewrite IndexByte_at by (apply Hm; lia). rewrite (proj2 (Z.ltb_ge _ _)), (proj2 (Z.eqb_neq _ _)) by lia.
    rewrite ztake_app, ParseUint_itoa by lia. cbn. rewrite Hd, ParseUint_itoa by lia. rewrite (proj2 (Z.eqb_neq (len (itoa b)) 0)) by lia. cbn.
    destruct (a >=? n) eqn:E1; breflect; [by rewrite (proj2 (Z.ltb_ge a n)), andb_false_r by lia|]. rewrite (proj2 (Z.ltb_lt a n)), andb_true_r by lia.
    destruct (a <=? b) eqn:E2; breflect; destruct (b >=? n) eqn:E3; breflect; case_if; breflect; try lia; try done; repeat f_equal; lia.
  - pose proof (Hl a ltac:(lia)). rewrite IndexByte_at by (apply Hm; lia). rewrite (proj2 (Z.ltb_ge _ _)), (proj2 (Z.eqb_neq _ _)) by lia.
    rewrite ztake_app, ParseUint_itoa by lia. cbn. rewrite Hd. destruct (a >=? n) eqn:E1; breflect; [by rewrite (proj2 (Z.ltb_ge a n)) by lia|]. by rewrite (proj2 (Z.ltb_lt a n)) by lia.
  - cbn [IndexByte Z.eqb Pos.eqb Z.ltb Z.compare]. change (zdrop (0 + 1) (45 :: itoa k)) with (itoa k). rewrite ParseUint_itoa by lia. cbn.
    assert (0 < k) by (destruct (decide (k = 0)) as [->|]; [done|lia]). rewrite !(proj2 (Z.ltb_lt 0 _)) by lia. cbn. repeat f_equal. case_if; breflect; lia.
Qed.

Definition total_size (sizes : list Z) : Z := foldr Z.add 0 sizes.

Lemma total_size_nonneg sizes : Forall (fun n => 0 < n) sizes -> 0 <= total_size sizes.
Proof. induction 1 as [|n sizes Hn _ IH]; [done|]. cbn. fold (total_size sizes). lia. Qed.

(** However it is read, a reader gives the part of the file it stands for. *)
Lemma read_part f sizes : forall r, Forall (fun n => 0 < n) sizes -> 0 <= rd_startPos r <= rd_endPos r -> rd_endPos r <= ff_contentLength f ->
  rd_endPos r - rd_startPos r <= total_size sizes ->
  read_buffers f r sizes = ztake (rd_endPos r - rd_startPos r) (zdrop (rd_startPos r) (ff_content f)).
Proof.
  induction sizes as [|n sizes IH]; intros [id a b] Hs Hr He Ht; cbn [rd_startPos rd_endPos total_size foldr read_buffers] in *.
  - by replace (b - a) with 0 by lia.
  - apply Forall_cons in Hs as [Hn Hs]. pose proof (total_size_nonneg sizes Hs). unfold fs_Read. cbn [rd_startPos rd_endPos rd_ff]. unfold ff_contentLength in He.
    destruct (b - a <=? 0) eqn:E; breflect; [by replace (b - a) with 0 by lia|].
    set (k := if n >? b - a then b - a else n). assert (0 < k <= b - a /\ (k = n \/ k = b - a)) as [Hk Hk'] by (unfold k; destruct (n >? b - a) eqn:En; breflect; lia).
    assert (len (ztake k (zdrop a (ff_content f))) = k) as El by (rewrite len_ztake; [done|]; rewrite len_zdrop by lia; lia).
    rewrite El, (proj2 (Z.ltb_ge k k)) by lia. rewrite andb_false_r. rewrite IH; cbn [rd_startPos rd_endPos]; [|done|lia|done|fold (total_size sizes) in *; lia].
    unfold ztake, zdrop. replace (Z.to_nat (a + k)) with (Z.to_nat a + Z.to_nat k)%nat by lia. rewrite <- drop_drop.
    replace (Z.to_nat (b - a)) with (Z.to_nat k + Z.to_nat (b - (a + k)))%nat by lia. apply take_take_drop.
Qed.

Lemma peek_upsert_ne l k v x : k <> x -> peekArg (upsert l k v) x = peekArg l x.
Proof.
  intros Hne. assert (forall kv, bytes_eqb k (kv_key kv) = true -> bytes_eqb (kv_key kv) x = false) as Hk.
  { intros kv E%bytes_eqb_eq. apply bytes_eqb_neq. congruence. }
  unfold upsert. destruct (set_loop l k v false) as [l'|] eqn:E.
  - revert l' E. induction l as [|kv l IH]; intros l'; cbn [set_loop]; [done|]. destruct (bytes_eqb k (kv_key kv)) eqn:Ek.
    + intros [= <-]. cbn [peekArg kv_key]. by rewrite (Hk kv Ek).
    + destruct (set_loop l k v false) as [l1|]; [|done]. intros [= <-]. cbn [peekArg]. by rewrite (IH l1).
  - clear E. induction l as [|kv l IH]; cbn [app peekArg kv_key]; [by rewrite (proj2 (bytes_eqb_neq k x))|]. by rewrite IH.
Qed.

Lemma peek_delAll l k x : k <> x -> peekArg (delAllArgsBytes l k) x = peekArg l x.
Proof.
  intros Hne. unfold delAllArgsBytes. induction l as [|kv l IH]; [done|]. cbn [List.filter peekArg]. destruct (bytes_eqb k (kv_key kv)) eqn:Ek; cbn [negb].
  - apply bytes_eqb_eq in Ek. rewrite IH, (proj2 (bytes_eqb_neq (kv_key kv) x)) by congruence. done.
  - cbn [peekArg]. by rewrite IH.
Qed.

Lemma SetContentRange_text hdr s e n : 0 <= s -> 0 <= e -> is_i64 s -> is_i64 e -> 0 <= n -> is_i64 n ->
  SetContentRange hdr s e n = Ret (set_h hdr (setArgBytes (rs_h hdr) (str "Content-Range") (str "bytes " ++ itoa s ++ str "-" ++ itoa e ++ str "/" ++ itoa n))).
Proof.
  intros Hs He H1 H2 Hn H3. unfold SetContentRange. rewrite AppendUint_decimal, (proj2 (Z.ltb_ge s 0)) by done. cbn [outcome_bind].
  rewrite AppendUint_decimal, (proj2 (Z.ltb_ge e 0)) by done. cbn [outcome_bind]. rewrite AppendUint_decimal, (proj2 (Z.ltb_ge n 0)) by done. cbn [outcome_bind].
  rewrite <- !app_assoc. done.
Qed.

(** C36: A request for a range of octets, in any of the three forms of RFC 2616, that some
    octets of the file satisfy gets these octets: the status is 206, Content-Range names the
    first and the last of them, both within the file, the announced length is their number,
    and a reader of the body, with whatever buffers, gets them.  For ranges that no octet
    satisfies see [range_refused] and [fs_defects]. *)
Theorem range_served (h : fsHandler) (s : FsState) (p : fsResponse) (q : fsRequest) (id : Z) (ff : fsFile) (g : byte_range) (startPos endPos : Z) (sizes : list Z) :
  fh_acceptByteRange h = true -> rq_range q = range_text g -> range_numbers g -> rq_head q = false -> rq_ifModifiedSince q = None ->
  MustSkipContentLength (fr_Header p) = false -> 0 < ff_contentLength ff < 2 ^ 63 -> range_of g (ff_contentLength ff) = Some (startPos, endPos) ->
  Forall (fun n => 0 < n) sizes -> endPos + 1 - startPos <= total_size sizes ->
  0 <= startPos <= endPos /\ endPos < ff_contentLength ff /\
  exists p' r, serveFile h s p q id ff = Ret (s, p') /\ fr_bodyStream p' = Some r /\ statusCode (fr_Header p') = 206 /\
    PeekArgBytes (fr_Header p') (str "Content-Range") = str "bytes " ++ itoa startPos ++ str "-" ++ itoa endPos ++ str "/" ++ itoa (ff_contentLength ff) /\
    read_buffers ff r sizes = ztake (endPos + 1 - startPos) (zdrop startPos (ff_content ff)) /\ contentLength (fr_Header p') = endPos + 1 - startPos /\
    len (read_buffers ff r sizes) = endPos + 1 - startPos.
Proof.
  intros Ha Hq Hg Hh Hm Hk Hn Eg Hs Ht. destruct (range_of_within g _ _ _ Hg Eg) as [B1 B3]. split_and!; [lia|lia|done|].
  assert (g <> Last 0) as Hz by (intros ->; done). pose proof (ParseByteRange_meaning g (ff_contentLength ff) Hg ltac:(lia) Hz) as E. rewrite Eg, <- Hq in E.
  assert (rq_range q <> []) as Hr by (rewrite Hq; done).
  unfold serveFile. rewrite Hm, Ha, Hh. cbn [IfModifiedSince negb].
  set (hdr := if ff_compressed ff then SetContentEncodingBytes (fr_Header p) (str "gzip") else fr_Header p).
  assert (statusCode hdr = statusCode (fr_Header p)) as Es by (unfold hdr; by destruct (ff_compressed ff)). clearbody hdr.
  change (SetCanonical hdr (str "Accept-Ranges") (str "bytes")) with (Ret (set_h hdr (setArgBytes (rs_h hdr) (str "Accept-Ranges") (str "bytes")))). cbn [outcome_bind andb].
  set (hdr1 := set_h hdr _). assert (statusCode hdr1 = statusCode (fr_Header p)) as Es1 by exact Es. clearbody hdr1. clear hdr Es.
  assert ((len (rq_range q) >? 0) = true) as -> by (apply Z.gtb_lt; pose proof (len_nonneg (rq_range q)); assert (len (rq_range q) <> 0) by (intros E0; by apply Hr, len_0_inv); lia).
  rewrite E, SetContentRange_text by width. cbn [outcome_bind]. set (hdr2 := set_h hdr1 _).
  change (SetCanonical hdr2 (str "Last-Modified") (http_date (ff_lastModified ff))) with (Ret (set_h hdr2 (setArgBytes (rs_h hdr2) (str "Last-Modified") (http_date (ff_lastModified ff))))).
  cbn [outcome_bind]. set (hdr3 := set_h hdr2 _). unfold SetContentLength. assert (MustSkipContentLength hdr3 = false) as ->.
  { unfold MustSkipContentLength, StatusCode in *. change (statusCode hdr3) with (statusCode hdr1). by rewrite Es1. }
  assert ((endPos - startPos + 1 >=? 0) = true) as -> by (apply Z.geb_le; lia). rewrite AppendUint_decimal, (proj2 (Z.ltb_ge (endPos - startPos + 1) 0)) by (lia || width). cbn [outcome_bind].
  set (r := UpdateByteRange (mkReader id 0 (ff_contentLength ff)) startPos endPos).
  assert (read_buffers ff r sizes = ztake (endPos + 1 - startPos) (zdrop startPos (ff_content ff))) as Er.
  { pose proof (read_part ff sizes r Hs) as Hp. unfold r, UpdateByteRange in Hp |- *. cbn [rd_startPos rd_endPos rd_ff] in *. apply Hp; lia. }
  eexists _, r. split; [done|]. split; [done|]. rewrite Er. split_and!.
  - by case_if.
  - unfold PeekArgBytes, peekArgBytes.
    match goal with |- context [rs_h ?x] => replace (rs_h x) with (delAllArgsBytes (rs_h hdr3) (str "Transfer-Encoding")) by (cbn [fr_Header]; by case_if) end.
    rewrite peek_delAll by done. cbn [hdr3 hdr2 set_h rs_h]. unfold setArgBytes. by rewrite peek_upsert_ne, peek_upsert by done.
  - done.
  - case_if; cbn; lia.
  - unfold ff_contentLength in *. rewrite len_ztake; [done|]. rewrite len_zdrop by lia. lia.
Qed.

(** A range that starts behind the file, or ends before it starts, is refused. *)
Lemma range_refused (h : fsHandler) (s : FsState) (p : fsResponse) (q : fsRequest) (id : Z) (ff : fsFile) (g : byte_range) :
  fh_acceptByteRange h = true -> rq_range q = range_text g -> range_numbers g -> rq_ifModifiedSince q = None -> g <> Last 0 ->
  0 < ff_contentLength ff -> range_of g (ff_contentLength ff) = None ->
  serveFile h s p q id ff = Panic \/ exists s' p', serveFile h s p q id ff = Ret (s', p') /\ statusCode (fr_Header p') = 416 /\ fr_bodyStream p' = None.
Proof.
  intros Ha Hq Hg Hm Hz Hn Eg. pose proof (ParseByteRange_meaning g (ff_contentLength ff) Hg Hn Hz) as E. rewrite Eg, <- Hq in E.
  unfold serveFile. rewrite Hm, Ha. cbn [IfModifiedSince negb]. set (hdr := if ff_compressed ff then _ else _).
  change (SetCanonical hdr (str "Accept-Ranges") (str "bytes")) with (Ret (set_h hdr (setArgBytes (rs_h hdr) (str "Accept-Ranges") (str "bytes")))). cbn [outcome_bind andb].
  assert ((len (rq_range q) >? 0) = true) as -> by (rewrite Hq; done). rewrite E. unfold decReadersCount.
  destruct (fs_files s !! id) as [f|]; cbn [deref outcome_bind]; [|by left]. case_if; [by left|]. cbn [outcome_bind]. right. by eexists _, _.
Qed.

(** ** Packed copies *)

Lemma has_suffix_app s b : has_suffix s (b ++ s) = true.
Proof.
  unfold has_suffix. rewrite len_app. pose proof (len_nonneg b). rewrite (proj2 (Z.leb_le _ _)) by lia.
  replace (len b + len s - len s) with (len b) by lia. rewrite zdrop_app. by apply bytes_eqb_eq.
Qed.

Section Copies.
Context (gz : bytes -> bytes) (gunzip : bytes -> option bytes) (isFileCompressible : bytes -> bool).
Context (TypeByExtension DetectContentType : bytes -> bytes) (h : fsHandler) (now : Z).
Abbreviation suffix := (fh_compressedFileSuffix h).

(** A copy with the date of its file is the file's. *)
Definition copies_ok (d : Disk) : Prop :=
  forall p c z m, has_suffix suffix p = false -> d_nodes d !! p = Some (NFile c m) -> d_nodes d !! (p ++ suffix) = Some (NFile z m) -> z = gz c.

Lemma newFSFile_ok path content mtime compressed f :
  newFSFile gunzip TypeByExtension DetectContentType h now path content mtime compressed = Ok f ->
  ff_content f = content /\ ff_lastModified f = mtime /\ ff_compressed f = compressed.
Proof. unfold newFSFile. destruct (if _ =? _ then _ else _) as [t|e]; [|done]. cbn. by intros [= <-]. Qed.

Lemma copies_delete d p : copies_ok d -> copies_ok (set_nodes d (delete p (d_nodes d))).
Proof. intros H q c z m Hq E1 E2. cbn in *. apply lookup_delete_Some in E1 as [_ E1]. apply lookup_delete_Some in E2 as [_ E2]. by eapply H. Qed.

(** What opening a file gives, when no copy is there. *)
Lemma compressed_new d p c m d' f : suffix <> [] -> copies_ok d -> d_nodes d !! p = Some (NFile c m) -> d_nodes d !! (p ++ suffix) = None ->
  compressAndOpenFSFile gz gunzip isFileCompressible TypeByExtension DetectContentType h now d p = (d', Ok f) ->
  ff_content f = (if ff_compressed f then gz c else c) /\ ff_lastModified f = m /\ d_nodes d' !! p = Some (NFile c m) /\ copies_ok d'.
Proof.
  intros Hs Hc Hp Hn. unfold compressAndOpenFSFile, os_Open. rewrite Hp. destruct (d_denied d p); [done|]. case_if.
  - intros [= <- Hf]. apply newFSFile_ok in Hf as (-> & -> & ->). done.
  - unfold compressFileNolock. rewrite bool_decide_false by (rewrite Hn; by intros []). set (tmp := (p ++ suffix) ++ str ".tmp").
    destruct (d_readonly d tmp); [done|]. destruct (match d_nodes d !! tmp with Some n => IsDir n | None => false end); [done|].
    set (cp := p ++ suffix) in *. set (d1 := set_nodes d _). intros [= <- Hf].
    unfold newCompressedFSFile, os_Open in Hf. cbn [d1 set_nodes d_nodes] in Hf. rewrite lookup_insert_eq in Hf. destruct (d_denied d1 cp); [done|].
    apply newFSFile_ok in Hf as (-> & -> & ->). assert (0 < len suffix) by (pose proof (len_nonneg suffix); assert (len suffix <> 0) by (intros E; by apply Hs, len_0_inv); lia).
    assert (cp <> p) as H1 by (intros E; apply (f_equal len) in E; unfold cp in E; rewrite len_app in E; lia).
    assert (tmp <> p) as H2 by (intros E; apply (f_equal len) in E; unfold tmp, cp in E; rewrite !len_app in E; pose proof (len_nonneg (str ".tmp")); lia).
    split_and!; [done|done|cbn; by rewrite lookup_insert_ne, lookup_delete_ne by done|].
    intros q c' z m' Hq. cbn [d1 set_nodes d_nodes]. rewrite lookup_insert_ne by (intros <-; unfold cp in Hq; by rewrite has_suffix_app in Hq).
    intros E1. apply lookup_delete_Some in E1 as [_ E1]. destruct (decide (cp = q ++ suffix)) as [E|E].
    + unfold cp in E. apply app_inv_tail in E as <-. unfold cp. rewrite lookup_insert_eq. congruence.
    + rewrite lookup_insert_ne by done. intros E2. apply lookup_delete_Some in E2 as [_ E2]. by eapply Hc.
Qed.
End Copies.

(** C37: On a disk where every copy with the date of its file is the packing of it, a client
    that takes packed contents gets the packing of the file as it is now, or the file, with
    the date of the file; the disk stays such a disk and the file is not touched.  The copy
    must be removable when it is old: for others see [fs_defects]. *)
Theorem copy_is_current (gz : bytes -> bytes) (gunzip : bytes -> option bytes) (isFileCompressible : bytes -> bool) (TypeByExtension DetectContentType : bytes -> bytes)
  (h : fsHandler) (now : Z) (d d' : Disk) (p c : bytes) (m : Time) (f : fsFile) :
  fh_compressedFileSuffix h <> [] -> has_suffix (fh_compressedFileSuffix h) p = false -> copies_ok gz h d -> d_readonly d (p ++ fh_compressedFileSuffix h) = false ->
  d_nodes d !! p = Some (NFile c m) ->
  openFSFile gz gunzip isFileCompressible TypeByExtension DetectContentType h now d p true = (d', Ok f) ->
  ff_content f = (if ff_compressed f then gz c else c) /\ ff_lastModified f = m /\ d_nodes d' !! p = Some (NFile c m) /\ copies_ok gz h d'.
Proof.
  intros Hs Hp Hc Hw Ho. unfold openFSFile. unfold os_Open at 1. destruct (d_nodes d !! (p ++ fh_compressedFileSuffix h)) as [n|] eqn:E.
  - destruct (d_denied d (p ++ fh_compressedFileSuffix h)); [done|]. destruct n as [z mz|]; [|done]. rewrite Ho. cbn [ModTime]. case_bool_decide as Em.
    + subst mz. intros [= <- Hf]. apply newFSFile_ok in Hf as (-> & -> & ->). split_and!; [|done|done|done]. by eapply Hc.
    + unfold os_Remove. rewrite Hw. apply compressed_new; [done|by apply copies_delete| |by cbn; rewrite lookup_delete_eq].
      cbn. rewrite lookup_delete_ne; [done|]. intros Eq. rewrite <- Eq, has_suffix_app in Hp. done.
  - by apply compressed_new.
Qed.

Module FileSample.
Definition gz (b : bytes) : bytes := 31 :: b.
Definition gunzip (b : bytes) : option bytes := match b with 31 :: b => Some b | _ => None end.
Definition no_type (b : bytes) : bytes := [].
Definition text (b : bytes) : bytes := str "text/plain".
Definition page (b : bytes) : bytes := str "page".

Definition h : fsHandler := mkHandler (str "/srv") [str "index.html"] None false false true true 10 (str ".gz").
Definition day (n : Z) : Time := mkTime (86400 * n) 0.

Definition disk : Disk := mkDisk (<[str "/srv/a" := NFile (str "hello") (day 2)]> (<[str "/srv/a.gz" := NFile (gz (str "old")) (day 1)]>
  (<[str "/srv/empty" := NFile [] (day 1)]> (<[str "/srv-secret/x" := NFile (str "secret") (day 1)]> ∅)))) (fun _ => false) (fun _ => false).
Definition readonly : Disk := mkDisk (d_nodes disk) (fun _ => false) (fun _ => true).

Definition resp0 : fsResponse := mkFsResponse newResponseHeader [] None false.
Definition get (path range : bytes) : fsRequest := mkFsRequest path range false None false.
Definition opened : fsFile := mkFile (str "hello") false (str "text/plain") false (day 2) 0 1 true.

(** The handler on a new state, and what a client reads. *)
Definition handle (hd : fsHandler) (d : Disk) (q : fsRequest) : outcome (FsState * Disk * fsResponse) :=
  handleRequest gz gunzip (fun _ => true) no_type text page hd 0 (day 3) newFs d resp0 q.
Definition answer (r : outcome (FsState * Disk * fsResponse)) : option (Z * bytes * bytes) :=
  match r with
  | Ret (s, _, p) =>
      Some (statusCode (fr_Header p), PeekArgBytes (fr_Header p) (str "Content-Range"),
            match fr_bodyStream p with
            | Some rd => match fs_files s !! rd_ff rd with Some f => read_buffers f rd [3; 3; 3; 3] | None => [] end
            | None => fr_body p
            end)
  | _ => None
  end.

Definition statusCode_of (r : outcome (FsState * Disk * fsResponse)) : option Z := (fun x => x.1.1) <$> answer r.

Lemma files_in_root_witness : exists segs, below segs /\ str "/srv" ++ str "/etc/passwd" = str "/srv" ++ path_of segs.
Proof.
  apply (files_in_root h resp0 (get (static_path (str "/static") (str "/static" ++ 47 :: str "../../etc/passwd")) []) (str "/etc/passwd"));
    [reflexivity|right; by eexists _, _|vm_eq].
Defined.

Lemma range_served_witness : 0 <= 2 <= 4 /\ 4 < ff_contentLength opened /\
  exists p' r, serveFile h newFs resp0 (get (str "/a") (str "bytes=-3")) 0 opened = Ret (newFs, p') /\ fr_bodyStream p' = Some r /\ statusCode (fr_Header p') = 206 /\
    PeekArgBytes (fr_Header p') (str "Content-Range") = str "bytes " ++ itoa 2 ++ str "-" ++ itoa 4 ++ str "/" ++ itoa (ff_contentLength opened) /\
    read_buffers opened r [2; 2] = str "llo" /\ contentLength (fr_Header p') = 3 /\ len (read_buffers opened r [2; 2]) = 3.
Proof.
  apply (range_served h newFs resp0 (get (str "/a") (str "bytes=-3")) 0 opened (Last 3) 2 4 [2; 2]); try reflexivity; try done; repeat constructor; lia.
Defined.

Lemma copy_is_current_witness : exists d' f,
  openFSFile gz gunzip (fun _ => true) no_type text h 0 disk (str "/srv/a") true = (d', Ok f) /\ ff_compressed f = true /\
  (ff_content f = (if ff_compressed f then gz (str "hello") else str "hello") /\ ff_lastModified f = day 2 /\
   d_nodes d' !! str "/srv/a" = Some (NFile (str "hello") (day 2)) /\ copies_ok gz h d').
Proof.
  destruct (openFSFile gz gunzip (fun _ => true) no_type text h 0 disk (str "/srv/a") true) as [d' [f|e]] eqn:E; [|vm_compute in E; discriminate E].
  exists d', f. split; [reflexivity|]. split; [vm_compute in E; injection E as _ <-; reflexivity|].
  apply (copy_is_current gz gunzip (fun _ => true) no_type text h 0 disk d' (str "/srv/a") (str "hello") (day 2) f); [done|vm_eq| |done|vm_eq|done].
  assert (map_Forall (fun p n => match d_nodes disk !! (p ++ str ".gz") with
            | Some n' => negb (bool_decide (ModTime n = ModTime n')) | None => true end = true) (d_nodes disk)) as Hd by (apply (bool_decide_eq_true_1 (map_Forall _ _)); vm_eq).
  intros p c z m _ E1 E2. specialize (Hd p _ E1). cbn beta in Hd. change (fh_compressedFileSuffix h) with (str ".gz") in E2. rewrite E2 in Hd. cbn [ModTime] in Hd. by rewrite bool_decide_true in Hd.
Defined.

(** The last octets of an empty file, or none at all: the one panics, the other is answered
    with positions that are none.  With the prefix ["/"] the name that is opened does not have
    to be below the root, only to start with its letters, and no file below it is found; with
    the server of the repository no prefix is taken off.  A rewritten path may end in ["/.."].
    An old copy that cannot be removed is served. *)
Lemma fs_defects :
  handle h disk (get (str "/empty") (str "bytes=-5")) = Panic /\
  answer (handle h disk (get (str "/a") (str "bytes=-0"))) = Some (206, str "bytes 5-4/5", []) /\
  static_path (str "/") (str "/../x") = str "../x" /\
  answer (handle h disk (get (static_path (str "/") (str "/-secret/x")) [])) = Some (200, [], str "secret") /\
  (statusCode_of (handle h disk (get (static_path (str "/") (str "/a")) [])) = Some 404) /\
  (statusCode_of (handle h disk (get (ctx_Path true (static_path (str "/static") (str "/static/a")) (str "/static/a")) [])) = Some 404) /\
  servedPath (mkHandler (str "/srv") [] (Some (fun p => p)) false false true true 10 (str ".gz")) resp0 (get (str "/..") []) = Ok (str "/..") /\
  answer (handle h readonly (mkFsRequest (str "/a") [] true None false)) = Some (200, [], gz (str "old")).
Proof. split_and!; vm_eq. Qed.
End FileSample.
